(* ===== verification/_CoqProject ===== *)
-Q . S2P
Prelude.v
Text.v
Graph.v
Ir.v
Float32.v
Float64.v
StageOrder.v
Schema.v
Manifest.v
Dag.v
Topology.v
Validation.v
Reachability.v
ValidationSpec.v
RegionSplit.v
ConfigBinding.v
ClaimDedup.v
ExecutionPlan.v
Registry.v
TypedConfig.v
ResolvedFields.v
Expansion.v
EditDistance.v
Ingestion.v
IngestionSpec.v
Resolution.v
HeightProfile.v
Base64.v
Thumbnail.v
ImageCodecs.v
Blackboard.v
LayerArena.v
PreparationStore.v
Planar.v
LayerIr.v
RegionMap.v
PolygonOps.v
OrderLock.v
Anchored.v
RegionPartition.v
VariantId.v
LayerCommit.v
AnchoredRows.v
Assembly.v
LayerRun.v
Prepass.v
Selection.v
Projection.v
SceneStore.v
