(* ===== verification/Prelude.v ===== *)
(** * A verification development for the slicing pipeline of pinch_n_print

    The program is a 3D-printing slicer built as a host that runs modules.  Modules
    declare what they read, write, claim and require; the host loads them, checks
    the set, derives an execution plan and then drives the stages of a print over a
    shared store of intermediate products, and writes G-code.  This library models
    the part of the host that decides and keeps state, from the loading of the modules to
    the rows of the print, and leaves aside the geometry kernels and the WebAssembly glue
    around it.

    ** The parts and how they interact

    Loading and planning ([src/crates/slicer-scheduler/src/]):
    - [Manifest] ([manifest.rs]): module records, [[region_split]] rules, the loader
      over disk roots and the integrated registry.  Its result, a list of loaded
      modules and diagnostics, is what every later part reads.
    - [StageOrder] ([stage_order.rs], [execution_plan.rs]): the canonical stages.
    - [Schema] ([slicer-schema/src/lib.rs]): the table that ties a stage to its trait, tier
      and WebAssembly export.
    - [ClaimDedup] ([execution_plan.rs]): one winner per exclusive claim.
    - [Dag] ([dag.rs], [instrumentation.rs]): the graph of a stage, the global edge
      list and the serial-edge report.  The [Producer] class is the interface the
      graph builder asks of a module; both implementations of the source are
      instances.
    - [Graph]: Kahn's loop and breadth-first search, written once.  The loop is
      proved against the [WorkQueue] interface; the ordered set of [topology.rs] and
      the deque of [validation.rs] are its two instances.
    - [Topology] ([topology.rs], [validation.rs]): the two topological sorts.
    - [Validation], [Reachability], [ValidationSpec] ([validation.rs]): the passes of
      [validate_startup_dag], the two graph searches they use, and the declarative
      condition the whole validation refines.
    - [RegionSplit] ([region_split.rs]) and [ConfigBinding], [ExecutionPlan]
      ([execution_plan.rs]): region-split aggregation, per-module config views, the
      plan.

    Configuration ([src/crates/slicer-config/src/], [slicer-ir/src/resolved_config.rs]), from the
    declarations of keys to the heights of layers:
    - [Registry] ([lib.rs]): the declarations of the host and of the modules, reconciled into
      one entry per key, and the scopes at which a key may be stated.
    - [Ingestion], [EditDistance] ([ingestion.rs]): authored text and values typed by the
      registry and stored by scope; layer ranges; suggestions for misspelt keys.
      [IngestionSpec] has the theorems about them.
    - [TypedConfig]: the interface of the typed configuration, two classes (operations and
      laws) that [Expansion] ([lib.rs]: percentages and automatic values) and [Resolution]
      ([resolution.rs]: the stack of scopes) are written and proved against.
      [ResolvedFields] ([resolved_config.rs]) implements it row by row from the declaration
      of the fields.
    - [HeightProfile] ([resolution.rs]): the layer heights of an object and the layer tops.

    Running a print:
    - [Blackboard] and [LayerArena] ([src/crates/slicer-runtime/src/blackboard.rs]):
      the write-once store of the whole print and the scratch arena of one layer.
    - [PreparationStore] ([src/crates/slicer-wasm-host/src/preparation_store.rs]):
      transactional storage of what modules prepare before slicing.
    - [Planar], [Projection] ([src/crates/slicer-wasm-host/src/preparation_projection.rs]):
      the diagnostic scenes a module may publish beside its pieces, their exact polygon
      predicates and their validation, which is the argument [validate_scene] of the store.
      [SceneStore] puts the two together.
    - [Prepass] ([src/crates/slicer-runtime/src/prepass.rs], [builtins/]): the stages before
      the layers, of modules and of the host, over the blackboard; its class [PrepassHost]
      is the interface to the runner of modules and to the geometry.  It uses [RegionMap],
      [RegionPartition] and [VariantId] below.

    The layers of a print ([src/crates/slicer-runtime/src/layer_executor.rs] unless another
    file is named), in the order in which a layer goes through them:
    - [LayerIr] ([slicer-ir/src/slice_ir.rs], [stage_io.rs]): the products of a layer and
      what a module invocation commits.  [layer_types] instantiates the types of the
      blackboard and of the arena with them.
    - [RegionMap] ([slice_ir.rs]): the configuration of each region, the order of variant
      chains, and the promotion of the layer plan into the execution plan.
    - [PolygonOps] ([slicer-core/src/polygon_ops.rs]): polygons rebuilt from the ring trees
      of Clipper2, which is the argument [boolean_op_tree_64] of everything that clips.
    - [RegionPartition] ([region_partition.rs]): the split of regions by modifier volumes
      and the four fill roles of a region.
    - [OrderLock] ([slicer-sdk/src/order_lock.rs]): lock tags, proposed print orders.
    - [Anchored] ([slice_ir.rs]): entities with a height of their own.
    - [LayerCommit]: [apply], all that one commit does to the arena.
    - [Assembly] ([slicer-ir/src/polygon_predicate.rs]): the entities of a layer and the tool
      of each.
    - [LayerRun]: the stages of one layer and the parallel map over the layers.  The class
      [LayerHost] is the interface to the runner of modules and to the layer selection.
    - [VariantId] ([slicer-core/src/algos/paint_segmentation/mod.rs]): the identifiers of
      painted regions.
    - [Selection] ([slicer-wasm-host/src/selection.rs], [marshal/mod.rs]): the index of which
      module runs on which regions, built and committed before the layers run; it
      implements [LayerHost]'s selection.
    - [AnchoredRows] ([anchored_rows.rs]): anchored entities as events of the committed
      stream, and the rows the stream is lowered to.

    Output ([src/crates/slicer-gcode/src/]):
    - [Thumbnail] ([thumbnail.rs]), [Base64] and [ImageCodecs] ([thumbnail_btt.rs],
      [thumbnail_colpic.rs]), over the string lemmas of [Text].

    [Ir] holds the vocabulary shared by all of them ([slicer-ir], [slicer-config]).
    This file holds what the components share: results, total orders, stable sorting,
    ordered maps and sets, decimal text, string prefixes and splitting.

    ** How the code is modelled

    A Rust function is a definition of the same name; a [struct] is a record, an
    [enum] an inductive type.  [Result] is [result] with the notation
    [let? x := m in k] for the question mark.  Functions that mutate return the new
    state with the result; where calls interleave (blackboard, arena, preparation store) the states are those
    reachable by a step relation over whole calls, or over whole locked sections where
    a call releases its lock.  [BTreeMap] and [BTreeSet] are finite maps read in key
    order ([btree_iter]), [HashMap] a finite map, [Vec] a list.  Integers are [Z] with
    the width written out where the code checks or wraps; [f32] and [f64] are bit
    patterns.  Where the code computes with them, the model computes with the binary32 and
    binary64 numbers of [SpecFloat] ([Float32]: conversions between units and millimetres;
    [Float64]: comparison, arithmetic, conversion and the reading of decimals;
    [LayerCommit]: swept paths of support; [Assembly]: the winding number).  Reference
    counting shows only where the code observes it ([Weak::upgrade], [Arc::ptr_eq] in
    [PreparationStore]).  A [HashMap] that is iterated is a list of entries in an arbitrary
    order ([RegionMap]) or a map with an arbitrary order of iteration as an argument
    ([Assembly]); the theorems say where the order matters.  A call that can panic returns
    [exec].  The parallel map over layers is an argument with rayon's contract as a hypothesis;
    each task has its own behaviour of the modules and its own order of hash iteration.

    ** What the theorems show

    - Graphs and sorts: both sorts return on every input, order exactly the acyclic
      graphs, leave over exactly the modules on or behind cycles, do not depend on
      the order of their input, and agree with each other; the stage graph and the
      serial-edge report hold exactly the declared dependencies.
    - Startup validation: it terminates, and its report is valid exactly when the
      declarative conditions of [ValidationSpec.startup_ok] hold; reachability is
      transitive closure.
    - Planning: deduplication leaves at most one holder per exclusive claim and
      reports every drop; a plan is built exactly for valid requests and executes the
      stages in canonical order; a module's config view never exposes an undeclared
      key; region-split aggregation and manifest rules are characterised.
    - Configuration: the registry exists exactly when the declarations of every key agree and
      the base keys are sound, and does not depend on the order of the modules; an ingested map
      is committed as a whole or not at all, and after any calls every stored value of a strict
      ingestor has its declared type (a tolerant one also keeps, as authored, what the type can
      make nothing of); of adjacent layer ranges exactly one covers a layer; expansion computes
      the values defined by recursion over base keys, without its memo table; resolution is
      refused exactly when a scope, a value or a default has a defect, and else shows the
      strongest statement about each key (an order of the places where statements stand, defined
      apart from the code's stack of scopes), else the default, expanded; the height profile
      tiles the object and gives each position the height of the first range that covers it; the
      distance behind suggestions is least.
    - Blackboard and arena: each is a function of the log of the calls made on it
      (refinement of an abstract store that keeps only the log); draining returns
      every layer once; merging support plans does not depend on their order.
    - Preparation store: in every reachable state the accounting is exact, an owner
      has at most one transaction and guards are balanced; publication is all or
      nothing; a published piece reads back as written whatever happens between.
    - Prepass: its accepted writes fall into phases, the late modules write nothing but
      plans, a success leaves no product missing; the diagnostics of the merge of support
      plans go to the module at fault; the regions of modifiers are provisioned completely
      and in an order that does not depend on the hash map.
    - Diagnostic scenes: the segment test is exact in every configuration; the ring and
      polygon checks accept exactly simple polygons with holes; a scene is accepted
      exactly when it is valid; no [i64] coordinate is ever rejected as non-finite; a
      published plan shows exactly the requested views, whatever was interleaved.
    - Layers: the boolean operations return contours and holes of the right orientation;
      the fill roles of a region and the pieces cut off by modifiers partition it, also
      after the hook that follows the perimeters, given
      the laws of the boolean operations ([RegionPartition.clip_laws]); modifier
      identifiers name their parent; a commit writes its own slots and never meets an
      occupied one; lock tags of sparse infill in the arena are global, print orders are
      accepted exactly when they keep the locked blocks, and replacements of the infill exactly
      when they keep those of the sparse infill; support of two
      families that overlaps is dropped on both sides and reported.
    - Selection: the index has the specified entry for every bound module and layer, with
      its cache invisible and its errors exact; the executor never misses an entry; a
      perimeter module sees the regions unsplit; painted identifiers decode to their base
      and identify their region once registered.
    - Runs: assembly makes each committed path one entity, numbered in order; a module that is
      not selected leaves no trace; infill is staged once its post-processing ran; a successful
      run accounts for every layer and every module that was not skipped, in plan order, and a
      failed one names the layer, stage and module, whatever the modules return, given what
      rayon documents ([LayerRun.collects_results]); anchored entities are collected by layer,
      and the stream is lowered to ascending rows that hold every entity once.
    - Text formats: base64, thumbnail keys, the pixel streams and their text read
      back to what was written; rows keep their maximum length.
    - Some theorems state behaviours that differ from what the comments or the names
      promise: [ClaimDedup.dedup_can_orphan_claim],
      [ValidationSpec.scope_key_colon_ambiguous],
      [ImageCodecs.colpic_stream_drops_colors],
      [ExecutionPlan.paint_after_anchored_events],
      [LayerArena.arena_reset_fresh_iff],
      [OrderLock.committed_block_can_be_reordered],
      [OrderLock.emptied_locked_region_panics], [OrderLock.locks_outside_sparse_unchecked],
      [LayerCommit.solid_locks_stay_local], [RegionPartition.empty_inset_collapses_fill],
      [Anchored.committed_event_order],
      [Anchored.far_point_accepted], [LayerCommit.z_updates_have_no_effect],
      [Assembly.dominant_tool_by_votes], [Schema.stage_tables_not_in_order],
      [HeightProfile.thin_layers_never_end], [ResolvedFields.equality_exact],
      [ResolvedFields.keys_classified_by_type].

    ** Fuel

    Loops without a structural argument carry fuel and return [OutOfFuel] when it
    ends; none of the theorems assumes that it does not.  One loop has no fuel that is
    enough: [HeightProfile.layer_top_zs] takes its fuel as an argument, one unit per layer,
    and [HeightProfile.thin_layers_never_end] shows an input on which the code never stops.  [Graph.kahn_loop] gets one
    unit per node, [Graph.bfs_loop] the weight of the unvisited nodes,
    [Validation.transitive_loop] the number of simple paths that can be queued
    ([Validation.transitive_fuel]), [Thumbnail.push_rows] the length of the text,
    [ImageCodecs.rle_loop] the number of pixels, [AnchoredRows.merge_walk] one more than the
    rows and planes, [Registry.base_walk] two more than the entries, [Expansion.expand_key]
    one more than the keys, and decimal and hexadecimal printing
    the number of digits of a 64-bit (32-bit) number; in each case a lemma proves it
    enough.  Counters the code decrements without a check return [Panicked] when they
    would underflow, which is proved not to happen.

    ** Not modelled

    - The geometry kernels ([slicer-core] but for the boolean operations, the core modules,
      toolpath emission, mesh repair): they need reasoning about rounding and the Clipper
      and Voronoi libraries.  Clipper2 and mesh slicing are arguments where they are called.
    - The time and cooling accounting of anchored events, progress events and
      instrumentation, the capture of intermediate products for debugging, and the set-up of
      the pipeline around the prepass and the layers.
    - WebAssembly bindings, marshalling and dispatch, process and file I/O, rendering,
      reports, command-line parsing, code generation.
    - The older entry points of [slicer-scheduler/src/config_resolution.rs]; the hash of a
      configuration and the printing of floats in messages (an argument where a message
      holds one).
    - TOML and JSON decoding, directory scans and image encoders: libraries; they are
      arguments of the definitions that use their results.

    ** Plan

    Next: [config_resolution.rs], [dag_cli.rs], the rest of [manifest.rs]
    (versions, region-split decoding), [m73.rs] and [flavor.rs], and the merge of
    support plans ([support_aggregation.rs]). *)

From Stdlib Require Import Sorted Ascii.
From stdpp Require Import prelude gmap strings list.

(** ** Control outcomes of Rust code *)

(** [Result<T, E>]. *)
Inductive result (T E : Type) : Type :=
| Ok (value : T)
| Err (error : E).
Arguments Ok {T E} value.
Arguments Err {T E} error.

(** Outcome of code whose loop is bounded by fuel in the model: [Panicked] is an
    arithmetic underflow/overflow or a failed [expect] of the source,
    [OutOfFuel] an exhausted bound of the model. *)
Inductive exec (A : Type) : Type :=
| Done (value : A)
| Panicked
| OutOfFuel.
Arguments Done {A} value.
Arguments Panicked {A}.
Arguments OutOfFuel {A}.

Definition exec_bind {A B} (m : exec A) (k : A -> exec B) : exec B :=
  match m with
  | Done a => k a
  | Panicked => Panicked
  | OutOfFuel => OutOfFuel
  end.

Definition result_bind {A B E} (m : result A E) (k : A -> result B E) : result B E :=
  match m with
  | Ok a => k a
  | Err e => Err e
  end.

Definition is_ok {T E} (r : result T E) : bool :=
  match r with Ok _ => true | Err _ => false end.

Declare Scope rust_scope.
Delimit Scope rust_scope with rust.
Open Scope rust_scope.

(** The [?] operator of Rust on [Result], and its fuel-bounded analogue. *)
Notation "'let?' x := m 'in' k" := (result_bind m (fun x => k))
  (at level 10, x pattern, m at level 100, k at level 200) : rust_scope.
Notation "'let!' x := m 'in' k" := (exec_bind m (fun x => k))
  (at level 10, x pattern, m at level 100, k at level 200) : rust_scope.

#[export] Instance result_eq_dec {T E} `{EqDecision T, EqDecision E} : EqDecision (result T E).
Proof. solve_decision. Defined.
#[export] Instance exec_eq_dec {A} `{EqDecision A} : EqDecision (exec A).
Proof. solve_decision. Defined.

(** ** Total orders ([Ord] of Rust) *)

Class RustOrd (A : Type) := {
  rust_leb : A -> A -> bool;
  rust_leb_antisym : forall x y, rust_leb x y = true -> rust_leb y x = true -> x = y;
  rust_leb_trans : forall x y z, rust_leb x y = true -> rust_leb y z = true -> rust_leb x z = true;
  rust_leb_total : forall x y, rust_leb x y = true \/ rust_leb y x = true
}.

Definition rust_ltb {A} `{RustOrd A} (x y : A) : bool := negb (rust_leb y x).

Lemma rust_leb_refl {A} `{RustOrd A} (x : A) : rust_leb x x = true.
Proof. by destruct (rust_leb_total x x). Qed.

#[export, refine] Instance string_ord : RustOrd string := {
  rust_leb := String.leb
}.
Proof.
  - intros x y Hxy Hyx. apply (anti_symm String.le); unfold String.le; by apply Is_true_true.
  - intros x y z Hxy Hyz. apply Is_true_true. change (String.le x z).
    etrans; unfold String.le; by apply Is_true_true.
  - intros x y. destruct (total String.le x y) as [H|H]; [left|right]; by apply Is_true_true.
Defined.

#[export, refine] Instance nat_ord : RustOrd nat := { rust_leb := Nat.leb }.
Proof.
  - intros x y ?%Nat.leb_le ?%Nat.leb_le. lia.
  - intros x y z ?%Nat.leb_le ?%Nat.leb_le. apply Nat.leb_le. lia.
  - intros x y. rewrite !Nat.leb_le. lia.
Defined.

#[export, refine] Instance Z_ord : RustOrd Z := { rust_leb := Z.leb }.
Proof.
  - intros x y ?%Z.leb_le ?%Z.leb_le. lia.
  - intros x y z ?%Z.leb_le ?%Z.leb_le. apply Z.leb_le. lia.
  - intros x y. rewrite !Z.leb_le. lia.
Defined.

(** Tuples compare lexicographically. *)
Definition pair_leb {A B} `{RustOrd A, RustOrd B} (x y : A * B) : bool :=
  if rust_leb x.1 y.1 then (if rust_leb y.1 x.1 then rust_leb x.2 y.2 else true) else false.

#[export, refine] Instance pair_ord {A B} `{RustOrd A, RustOrd B} : RustOrd (A * B) := {
  rust_leb := pair_leb
}.
Proof.
  all: unfold pair_leb.
  - intros [a b] [c d]; simpl. repeat case_match; try done. intros Hb Hd.
    f_equal; by apply rust_leb_antisym.
  - intros [a b] [c d] [e f]; simpl.
    destruct (rust_leb a c) eqn:Hac; [|done]. destruct (rust_leb c e) eqn:Hce; [|by case_match].
    intros H1 H2. rewrite (rust_leb_trans _ _ _ Hac Hce).
    destruct (rust_leb e a) eqn:Hea; [|done].
    assert (Hca : rust_leb c a = true) by (eapply rust_leb_trans; eauto).
    assert (Hec : rust_leb e c = true) by (eapply rust_leb_trans; eauto).
    rewrite Hca in H1. rewrite Hec in H2. eapply rust_leb_trans; eauto.
  - intros [a b] [c d]; simpl.
    destruct (rust_leb_total a c) as [Hl|Hl], (rust_leb_total b d) as [Hr|Hr]; rewrite Hl;
      repeat case_match; auto.
Defined.

(** ** Stable sorting ([slice::sort], [sort_by], [sort_by_key]) *)

Section sorting.
Context {A : Type} (leb : A -> A -> bool).

Fixpoint insert_by (x : A) (l : list A) : list A :=
  match l with
  | [] => [x]
  | y :: l' => if leb x y then x :: y :: l' else y :: insert_by x l'
  end.

Definition sort_by (l : list A) : list A := foldr insert_by [] l.

Lemma insert_by_perm x l : insert_by x l ≡ₚ x :: l.
Proof.
  induction l as [|y l IH]; simpl; [done|]. case_match; [done|].
  rewrite IH. apply Permutation_swap.
Qed.

Lemma sort_by_perm l : sort_by l ≡ₚ l.
Proof.
  induction l as [|x l IH]; simpl; [done|]. by rewrite insert_by_perm, IH.
Qed.

Lemma elem_of_sort_by x l : x ∈ sort_by l <-> x ∈ l.
Proof. by rewrite sort_by_perm. Qed.

Lemma length_sort_by l : length (sort_by l) = length l.
Proof. by rewrite sort_by_perm. Qed.

Lemma NoDup_sort_by l : NoDup (sort_by l) <-> NoDup l.
Proof. by rewrite sort_by_perm. Qed.

Definition sorted_by (l : list A) : Prop := StronglySorted (fun x y => leb x y = true) l.

Context (leb_trans : forall x y z, leb x y = true -> leb y z = true -> leb x z = true)
        (leb_total : forall x y, leb x y = true \/ leb y x = true).

Lemma insert_by_sorted x l : sorted_by l -> sorted_by (insert_by x l).
Proof using leb_trans leb_total.
  induction 1 as [|y l Hl IH Hy]; simpl; [repeat constructor|].
  destruct (leb x y) eqn:Hxy.
  - constructor; [by constructor|]. constructor; [done|].
    eapply Forall_impl; [exact Hy|]. intros z Hz. eapply leb_trans; eauto.
  - constructor; [done|]. rewrite insert_by_perm. constructor; [|done].
    destruct (leb_total x y); congruence.
Qed.

Lemma sort_by_sorted l : sorted_by (sort_by l).
Proof using leb_trans leb_total.
  induction l as [|x l IH]; simpl; [constructor|]. by apply insert_by_sorted.
Qed.
End sorting.

Lemma insert_by_head {A} (leb : A -> A -> bool) x l :
  Forall (fun y => leb x y = true) l -> insert_by leb x l = x :: l.
Proof. destruct l as [|y l]; [done|]. intros Hf. inversion Hf; subst. simpl. by case_match. Qed.

(** Sorting a sorted list changes nothing. *)
Lemma sort_by_id {A} (leb : A -> A -> bool) l : sorted_by leb l -> sort_by leb l = l.
Proof.
  induction 1 as [|x l Hl IH Hx]; simpl; [done|]. rewrite IH. by apply insert_by_head.
Qed.

Lemma filter_sublist {A} (Q : A -> Prop) `{forall x, Decision (Q x)} (l : list A) :
  base.filter Q l `sublist_of` l.
Proof.
  induction l as [|x l IH]; [constructor|].
  destruct (decide (Q x)); [rewrite filter_cons_True by done|rewrite filter_cons_False by done];
    by constructor.
Qed.

(** A sublist of a sorted list is sorted. *)
Lemma sorted_by_sublist {A} (leb : A -> A -> bool) l1 l2 :
  l1 `sublist_of` l2 -> sorted_by leb l2 -> sorted_by leb l1.
Proof.
  induction 1 as [|x l1 l2 Hsub IH|x l1 l2 Hsub IH]; [done| |];
    inversion_clear 1 as [|? ? Hl Hx]; [|by apply IH].
  constructor; [by apply IH|]. rewrite Forall_forall in *. intros y Hy. apply Hx.
  by eapply sublist_subseteq.
Qed.

Lemma NoDup_fmap_inj {A B} (f : A -> B) l x y :
  NoDup (f <$> l) -> x ∈ l -> y ∈ l -> f x = f y -> x = y.
Proof.
  intros Hnd [i Hi]%list_elem_of_lookup_1 [j Hj]%list_elem_of_lookup_1 Hf.
  assert (i = j) as ->.
  { apply (NoDup_lookup _ _ _ (f x) Hnd); rewrite list_lookup_fmap; [by rewrite Hi|by rewrite Hj, Hf]. }
  congruence.
Qed.

Lemma existsb_elem {A} (f : A -> bool) l : existsb f l = true <-> exists x, x ∈ l /\ f x = true.
Proof. rewrite existsb_exists. by setoid_rewrite list_elem_of_In. Qed.

Lemma list_nil_elem {A} (l : list A) : l = [] <-> forall x, x ∉ l.
Proof.
  split; [intros -> x; apply not_elem_of_nil|]. destruct l as [|x l]; [done|].
  intros Hno. destruct (Hno x). left.
Qed.

(** In a sorted list an earlier element is below a later one. *)
Lemma sorted_by_lookup {A} (leb : A -> A -> bool) l i j x y :
  sorted_by leb l -> i < j -> l !! i = Some x -> l !! j = Some y -> leb x y = true.
Proof.
  intros Hs. revert i j. induction Hs as [|z l Hl IH Hz]; intros i j Hij Hi Hj; [done|].
  destruct j as [|j]; [lia|]. destruct i as [|i]; simpl in *.
  - injection Hi as ->. rewrite Forall_forall in Hz. apply Hz. by eapply list_elem_of_lookup_2.
  - apply (IH i j); [lia|done|done].
Qed.

Lemma fmap_sublist {A B} (f : A -> B) l1 l2 : l1 `sublist_of` l2 -> f <$> l1 `sublist_of` f <$> l2.
Proof. induction 1; simpl; by constructor. Qed.

(** Sorting commutes with a map that respects the two comparisons. *)
Lemma sort_by_fmap {A B} (f : A -> B) (leb1 : B -> B -> bool) (leb2 : A -> A -> bool) l :
  (forall x y, leb1 (f x) (f y) = leb2 x y) ->
  sort_by leb1 (f <$> l) = f <$> sort_by leb2 l.
Proof.
  intros Hf.
  assert (Hins : forall x l, insert_by leb1 (f x) (f <$> l) = f <$> insert_by leb2 x l).
  { intros x l'. induction l' as [|y l' IH]; simpl; [done|]. rewrite Hf. case_match; [done|].
    simpl. by f_equal. }
  unfold sort_by. induction l as [|x l IH]; simpl; [done|].
  change (f <$> l) with (list_fmap _ _ f l) in IH. rewrite IH. apply Hins.
Qed.

(** Two sorted lists of the same elements are equal when equal elements are ordered. *)
Lemma sorted_by_unique_on {A} (leb : A -> A -> bool) l1 l2 :
  (forall x y, x ∈ l1 -> y ∈ l1 -> leb x y = true -> leb y x = true -> x = y) ->
  sorted_by leb l1 -> sorted_by leb l2 -> l1 ≡ₚ l2 -> l1 = l2.
Proof.
  intros Hanti Hl1. revert l2 Hanti. induction Hl1 as [|x l1 Hl1 IH Hx]; intros l2 Hanti Hl2 Hp.
  - by apply Permutation_nil_l in Hp.
  - destruct Hl2 as [|y l2 Hl2 Hy]; [by apply Permutation_nil_r in Hp |].
    assert (Hxy : x = y).
    { assert (Hxin : x ∈ y :: l2) by (rewrite <-Hp; left).
      assert (Hyin : y ∈ x :: l1) by (rewrite Hp; left). rewrite Forall_forall in Hx, Hy.
      pose proof Hxin as Hxin'. pose proof Hyin as Hyin'.
      apply elem_of_cons in Hxin as [?|Hxin]; [done |]. apply elem_of_cons in Hyin as [?|Hyin]; [done |].
      apply Hanti; [by left | done | by apply Hx | by apply Hy]. }
    subst y. f_equal. apply IH; [|done | by eapply Permutation_cons_inv].
    intros a b Ha Hb. apply Hanti; by right.
Qed.

(** Under an antisymmetric order the sorted permutation is unique. *)
Lemma sorted_by_unique {A} (leb : A -> A -> bool) l1 l2 :
  (forall x y, leb x y = true -> leb y x = true -> x = y) ->
  sorted_by leb l1 -> sorted_by leb l2 -> l1 ≡ₚ l2 -> l1 = l2.
Proof. intros Hanti. apply sorted_by_unique_on. auto. Qed.

(** Sorting by [Ord]. *)
Definition sort {A} `{RustOrd A} (l : list A) : list A := sort_by rust_leb l.

Lemma sort_sorted {A} `{RustOrd A} (l : list A) : sorted_by rust_leb (sort l).
Proof. apply sort_by_sorted; [apply rust_leb_trans|apply rust_leb_total]. Qed.

(** [Vec::dedup]: consecutive repeated elements are removed. *)
Fixpoint dedup {A} `{EqDecision A} (l : list A) : list A :=
  match l with
  | [] => []
  | x :: l' =>
      match dedup l' with
      | [] => [x]
      | y :: r => if decide (x = y) then y :: r else x :: y :: r
      end
  end.

Lemma elem_of_dedup {A} `{EqDecision A} (x : A) l : x ∈ dedup l <-> x ∈ l.
Proof.
  induction l as [|y l IH]; simpl; [done|]. rewrite elem_of_cons, <-IH.
  destruct (dedup l) as [|z r]; [by rewrite list_elem_of_singleton, elem_of_nil; naive_solver|].
  case_decide; subst; rewrite !elem_of_cons; naive_solver.
Qed.

Lemma Forall_dedup {A} `{EqDecision A} (P : A -> Prop) l : Forall P l -> Forall P (dedup l).
Proof. rewrite !Forall_forall. intros Hl x Hx. apply Hl. by apply elem_of_dedup. Qed.

Lemma dedup_sorted {A} `{EqDecision A} (leb : A -> A -> bool) l :
  sorted_by leb l -> sorted_by leb (dedup l).
Proof.
  induction 1 as [|x l Hl IH Hx]; simpl; [constructor|].
  assert (Hx' : Forall (fun y => leb x y = true) (dedup l)).
  { by apply Forall_dedup. }
  destruct (dedup l) as [|z r]; [repeat constructor|]. case_decide; [done|]. by constructor.
Qed.

(** On a list sorted by an antisymmetric order [dedup] leaves no repetition. *)
Lemma NoDup_dedup_sorted {A} `{EqDecision A} (leb : A -> A -> bool) l :
  (forall x y, leb x y = true -> leb y x = true -> x = y) ->
  sorted_by leb l -> NoDup (dedup l).
Proof.
  intros Hanti Hs. induction Hs as [|x l Hl IH Hx]; simpl; [constructor|].
  pose proof (dedup_sorted leb l Hl) as Hd.
  assert (Hx' : Forall (fun y => leb x y = true) (dedup l)).
  { by apply Forall_dedup. }
  destruct (dedup l) as [|z r]; [apply NoDup_singleton|]. case_decide as Hxz; [done|].
  constructor; [|done]. intros [->|Hin]%elem_of_cons; [done|].
  apply Hxz. inversion_clear Hd as [|? ? _ Hz]. apply Forall_cons in Hx' as [Hxz' _].
  apply Hanti; [done|]. rewrite Forall_forall in Hz. by apply Hz.
Qed.

(** ** [BTreeMap] and [BTreeSet]

    A [BTreeMap<K, V>] is a [gmap] whose iteration is in the key order of [Ord];
    a [HashMap] is a [gmap] that the code never iterates in an order that matters. *)

Section btree.
Context {K : Type} `{Countable K, RustOrd K} {V : Type}.

Definition entry_leb (x y : K * V) : bool := rust_leb x.1 y.1.

(** [BTreeMap::iter] / [into_iter]. *)
Definition btree_iter (m : gmap K V) : list (K * V) := sort_by entry_leb (map_to_list m).

(** [BTreeMap::keys] and [BTreeMap::values]. *)
Definition btree_keys (m : gmap K V) : list K := (btree_iter m).*1.
Definition btree_values (m : gmap K V) : list V := (btree_iter m).*2.

Lemma elem_of_btree_iter k v m : (k, v) ∈ btree_iter m <-> m !! k = Some v.
Proof. unfold btree_iter. by rewrite elem_of_sort_by, elem_of_map_to_list. Qed.

Lemma elem_of_btree_keys k m : k ∈ btree_keys m <-> is_Some (m !! k).
Proof.
  unfold btree_keys, is_Some. rewrite list_elem_of_fmap. setoid_rewrite <-elem_of_btree_iter.
  split; [intros ([k' v] & -> & ?); eauto|intros (v & ?); exists (k, v); eauto].
Qed.

Lemma elem_of_btree_values v m : v ∈ btree_values m <-> exists k, m !! k = Some v.
Proof.
  unfold btree_values. rewrite list_elem_of_fmap. setoid_rewrite <-elem_of_btree_iter.
  split; [intros ([k' v'] & -> & ?); eauto|intros (k & ?); exists (k, v); eauto].
Qed.

Lemma btree_values_keys (f : V -> K) m :
  (forall k v, m !! k = Some v -> f v = k) -> f <$> btree_values m = btree_keys m.
Proof.
  intros Hf. unfold btree_values, btree_keys.
  assert (Hall : forall k v, (k, v) ∈ btree_iter m -> f v = k)
    by (intros; by apply Hf, elem_of_btree_iter).
  induction (btree_iter m) as [|[k v] l IH]; [done|]. simpl.
  rewrite (Hall k v) by left. f_equal. apply IH. intros. apply Hall. by right.
Qed.

Lemma btree_keys_perm m : btree_keys m ≡ₚ (map_to_list m).*1.
Proof. unfold btree_keys, btree_iter. by rewrite sort_by_perm. Qed.

Lemma NoDup_btree_keys m : NoDup (btree_keys m).
Proof. rewrite btree_keys_perm. apply NoDup_fst_map_to_list. Qed.

Lemma btree_iter_sorted m : sorted_by entry_leb (btree_iter m).
Proof.
  apply sort_by_sorted; unfold entry_leb.
  - intros ???; apply rust_leb_trans.
  - intros ??; apply rust_leb_total.
Qed.

Lemma btree_keys_sorted m : sorted_by rust_leb (btree_keys m).
Proof.
  unfold btree_keys. induction (btree_iter_sorted m) as [|[k v] l Hl IH Hk]; simpl;
    [constructor|].
  constructor; [done|]. apply Forall_fmap. eapply Forall_impl; [exact Hk|]. by intros [].
Qed.
End btree.

(** [collect] into a map: of several entries for a key the last one stays. *)
Section collect.
Context {K : Type} `{Countable K} {V : Type}.

Definition map_collect (l : list (K * V)) : gmap K V :=
  foldl (fun m p => <[p.1 := p.2]> m) ∅ l.

Lemma map_collect_snoc l k v : map_collect (l ++ [(k, v)]) = <[k := v]> (map_collect l).
Proof. unfold map_collect. by rewrite foldl_app. Qed.

Lemma map_collect_is_Some l k : is_Some (map_collect l !! k) <-> k ∈ l.*1.
Proof.
  induction l as [|[k' v] l IH] using rev_ind.
  - unfold map_collect; simpl. rewrite lookup_empty, elem_of_nil.
    split; [by intros [? ?]|done].
  - rewrite map_collect_snoc, fmap_app, elem_of_app, <-IH. simpl.
    rewrite list_elem_of_singleton. destruct (decide (k = k')) as [->|Hne].
    + rewrite lookup_insert_eq. naive_solver.
    + rewrite lookup_insert_ne by done. naive_solver.
Qed.

Lemma map_collect_elem l k v : map_collect l !! k = Some v -> (k, v) ∈ l.
Proof.
  induction l as [|[k' v'] l IH] using rev_ind; [by unfold map_collect|].
  rewrite map_collect_snoc, elem_of_app, list_elem_of_singleton.
  destruct (decide (k = k')) as [->|Hne].
  - rewrite lookup_insert_eq. intros [= ->]. by right.
  - rewrite lookup_insert_ne by done. auto.
Qed.

Lemma map_collect_lookup l k v :
  NoDup l.*1 -> (map_collect l !! k = Some v <-> (k, v) ∈ l).
Proof.
  intros Hnd. split; [apply map_collect_elem|]. intros Hin.
  assert (Hs : is_Some (map_collect l !! k)).
  { apply map_collect_is_Some, list_elem_of_fmap. by exists (k, v). }
  destruct Hs as [v' Hv']. rewrite Hv'. apply map_collect_elem in Hv'.
  apply list_elem_of_lookup in Hin as [i Hi]. apply list_elem_of_lookup in Hv' as [j Hj].
  assert (i = j) as ->.
  { eapply (NoDup_lookup l.*1); [done| |]; rewrite list_lookup_fmap; [by rewrite Hi|by rewrite Hj]. }
  by rewrite Hi in Hj; injection Hj as ->.
Qed.

Lemma map_collect_const l (v : V) k :
  map_collect ((fun x => (x, v)) <$> l) !! k = if decide (k ∈ l) then Some v else None.
Proof.
  assert (Hkeys : ((fun x : K => (x, v)) <$> l).*1 = l) by (rewrite <-list_fmap_compose; apply list_fmap_id).
  case_decide as Hk.
  - assert (Hs : is_Some (map_collect ((fun x => (x, v)) <$> l) !! k))
      by (apply map_collect_is_Some; by rewrite Hkeys).
    destruct Hs as [v' Hv']. rewrite Hv'. apply map_collect_elem in Hv'.
    apply list_elem_of_fmap in Hv' as (? & [= _ ->] & _). done.
  - apply eq_None_not_Some. rewrite map_collect_is_Some, Hkeys. done.
Qed.
End collect.

Section btree_set.
Context {K : Type} `{Countable K, RustOrd K}.

(** [BTreeSet::iter]. *)
Definition btree_elems (s : gset K) : list K := sort (elements s).

Lemma elem_of_btree_elems k s : k ∈ btree_elems s <-> k ∈ s.
Proof. unfold btree_elems, sort. by rewrite elem_of_sort_by, elem_of_elements. Qed.

Lemma NoDup_btree_elems s : NoDup (btree_elems s).
Proof. unfold btree_elems, sort. rewrite NoDup_sort_by. apply NoDup_elements. Qed.

Lemma btree_elems_sorted s : sorted_by rust_leb (btree_elems s).
Proof. apply sort_sorted. Qed.
End btree_set.

#[export] Hint Resolve NoDup_btree_keys NoDup_btree_elems btree_elems_sorted : rust.

(** ** Loops *)

(** A [for] loop whose body leaves the function with an error. *)
Fixpoint for_each {A E} (f : A -> result unit E) (l : list A) : result unit E :=
  match l with
  | [] => Ok tt
  | x :: l => let? _ := f x in for_each f l
  end.

(** [iter().enumerate()]. *)
Definition enumerate {A} (l : list A) : list (nat * A) := zip (seq 0 (length l)) l.

(** [iter().find(p)] on a range. *)
Fixpoint find_first (p : nat -> bool) (l : list nat) : option nat :=
  match l with
  | [] => None
  | i :: l => if p i then Some i else find_first p l
  end.

Lemma for_each_Ok {A E} (f : A -> result unit E) l : for_each f l = Ok tt <-> forall x, x ∈ l -> f x = Ok tt.
Proof.
  induction l as [|x l IH]; simpl; [set_solver |].
  destruct (f x) as [[]|e] eqn:Hf; simpl.
  - rewrite IH. setoid_rewrite elem_of_cons. naive_solver.
  - split; [done |]. intros H. specialize (H x). rewrite H in Hf; [done | set_solver].
Qed.


Lemma enumerate_lookup {A} (l : list A) i k x : enumerate l !! i = Some (k, x) <-> k = i /\ l !! i = Some x.
Proof.
  unfold enumerate. rewrite lookup_zip_Some, lookup_seq. split; [intros [[? ?] ?]; subst; done |].
  intros [-> H]. split; [|done]. split; [done |]. by apply lookup_lt_Some in H.
Qed.


Lemma elem_of_enumerate {A} (l : list A) i x : (i, x) ∈ enumerate l <-> l !! i = Some x.
Proof.
  rewrite list_elem_of_lookup. setoid_rewrite enumerate_lookup. naive_solver.
Qed.


Lemma elem_of_enumerate_drop {A} (l : list A) n i x :
  (i, x) ∈ drop n (enumerate l) <-> (n <= i)%nat /\ l !! i = Some x.
Proof.
  rewrite list_elem_of_lookup. setoid_rewrite lookup_drop. setoid_rewrite enumerate_lookup. split.
  - intros (j & -> & ?). split; [lia | done].
  - intros [? ?]. exists (i - n)%nat. replace (n + (i - n))%nat with i by lia. auto.
Qed.


Lemma for_each_app {A E} (f : A -> result unit E) l1 l2 :
  for_each f (l1 ++ l2) = let? _ := for_each f l1 in for_each f l2.
Proof. induction l1 as [|x l1 IH]; simpl; [done |]. destruct (f x); simpl; auto. Qed.


Lemma enumerate_snoc {A} (l : list A) x : enumerate (l ++ [x]) = enumerate l ++ [(length l, x)].
Proof.
  unfold enumerate. rewrite length_app, seq_app. simpl. by rewrite zip_with_app by (by rewrite length_seq).
Qed.


Lemma find_first_Some p l i :
  find_first p l = Some i <-> exists l1 l2, l = l1 ++ i :: l2 /\ p i = true /\ forall j, j ∈ l1 -> p j = false.
Proof.
  induction l as [|x l IH]; simpl; [split; [done | by intros ([] & ? & ? & _)] |].
  destruct (p x) eqn:Hx.
  - split.
    + intros [= ->]. exists [], l. split; [done |]. split; [done |]. set_solver.
    + intros ([|y l1] & l2 & [= -> ->] & Hi & Hl1); [done |].
      specialize (Hl1 y ltac:(set_solver)). congruence.
  - rewrite IH. split.
    + intros (l1 & l2 & -> & Hi & Hl1). exists (x :: l1), l2. split; [done |]. split; [done |].
      intros j [-> | ?]%elem_of_cons; auto.
    + intros ([|y l1] & l2 & [= -> ->] & Hi & Hl1); [congruence |].
      exists l1, l2. split; [done |]. split; [done |]. set_solver.
Qed.

Lemma find_first_None p l : find_first p l = None <-> forall j, j ∈ l -> p j = false.
Proof.
  induction l as [|x l IH]; simpl; [set_solver |]. destruct (p x) eqn:Hx.
  - split; [done |]. intros H. specialize (H x ltac:(set_solver)). congruence.
  - rewrite IH. set_solver.
Qed.

(** A loop whose body may panic or leave the function with an error. *)
Fixpoint for_each_exec {A E} (f : A -> exec (result unit E)) (l : list A) : exec (result unit E) :=
  match l with
  | [] => Done (Ok tt)
  | x :: l =>
      let! r := f x in
      match r with Ok _ => for_each_exec f l | Err e => Done (Err e) end
  end.

Fixpoint fold_exec {S A E} (f : S -> A -> exec (result S E)) (st : S) (l : list A)
    : exec (result S E) :=
  match l with
  | [] => Done (Ok st)
  | x :: l =>
      let! r := f st x in
      match r with Ok st => fold_exec f st l | Err e => Done (Err e) end
  end.

(** A loop whose body may return early with an error. *)
Fixpoint try_fold {S A E} (f : S -> A -> result S E) (st : S) (l : list A) : result S E :=
  match l with
  | [] => Ok st
  | x :: l => let? st := f st x in try_fold f st l
  end.

Fixpoint map_exec {A B} (f : A -> exec B) (l : list A) : exec (list B) :=
  match l with
  | [] => Done []
  | x :: l => let! y := f x in let! ys := map_exec f l in Done (y :: ys)
  end.

(** [iter_mut().find(p)] and a change of the element found. *)
Fixpoint update_first {A} (p : A -> bool) (f : A -> A) (l : list A) : option (list A) :=
  match l with
  | [] => None
  | x :: l => if p x then Some (f x :: l) else cons x <$> update_first p f l
  end.

Lemma for_each_exec_Ok {A E} (f : A -> exec (result unit E)) l :
  for_each_exec f l = Done (Ok tt) <-> forall x, x ∈ l -> f x = Done (Ok tt).
Proof.
  induction l as [|x l IH]; simpl; [split; [set_solver | done] |].
  setoid_rewrite elem_of_cons. destruct (f x) as [[[]|e]| |] eqn:Hf; simpl.
  - rewrite IH. split; [intros H ? [-> | ?]; auto | auto].
  - split; [done |]. intros H. specialize (H x (or_introl eq_refl)). congruence.
  - split; [done |]. intros H. specialize (H x (or_introl eq_refl)). congruence.
  - split; [done |]. intros H. specialize (H x (or_introl eq_refl)). congruence.
Qed.

Lemma map_exec_done {A B} (f : A -> exec B) (g : A -> B) l :
  (forall x, f x = Done (g x)) -> map_exec f l = Done (g <$> l).
Proof. intros Hf. induction l as [|x l IH]; simpl; [done |]. by rewrite Hf; simpl; rewrite IH. Qed.

Lemma update_first_None {A} p (f : A -> A) l :
  update_first p f l = None <-> forall x, x ∈ l -> p x = false.
Proof.
  induction l as [|x l IH]; simpl; [split; [set_solver | done] |]. setoid_rewrite elem_of_cons.
  destruct (p x) eqn:Hx; [split; [done |]; intros H; specialize (H x (or_introl eq_refl)); congruence |].
  rewrite fmap_None, IH. split; [intros H ? [-> | ?]; auto | auto].
Qed.

Lemma update_first_Some {A} p (f : A -> A) l l' :
  update_first p f l = Some l' <-> exists l1 x l2, l = l1 ++ x :: l2 /\ l' = l1 ++ f x :: l2 /\
    p x = true /\ forall y, y ∈ l1 -> p y = false.
Proof.
  revert l'. induction l as [|y l IH]; intros l'; simpl.
  { split; [done |]. by intros ([] & ? & ? & ? & _). }
  destruct (p y) eqn:Hy.
  - split.
    + intros [= <-]. exists [], y, l. split; [done |]. split; [done |]. split; [done | set_solver].
    + intros ([|z l1] & x & l2 & [= -> ->] & -> & Hx & Hl1); [done |].
      specialize (Hl1 z (list_elem_of_here _ _)). congruence.
  - rewrite fmap_Some. setoid_rewrite IH. split.
    + intros (l0 & (l1 & x & l2 & -> & -> & Hx & Hl1) & ->). exists (y :: l1), x, l2.
      split; [done |]. split; [done |]. split; [done |]. intros z [-> | ?]%elem_of_cons; auto.
    + intros ([|z l1] & x & l2 & [= -> ->] & -> & Hx & Hl1); [congruence |].
      exists (l1 ++ f x :: l2). split; [|done]. exists l1, x, l2. split; [done |]. split; [done |].
      split; [done |]. intros w Hw. apply Hl1. by right.
Qed.

Lemma fold_exec_inv {S A E} (f : S -> A -> exec (result S E)) (I : S -> Prop) l st :
  I st ->
  (forall st x, I st -> x ∈ l -> exists r, f st x = Done r /\ forall st', r = Ok st' -> I st') ->
  exists r, fold_exec f st l = Done r /\ forall st', r = Ok st' -> I st'.
Proof.
  revert st. induction l as [|x l IH]; intros st Hst Hf; simpl.
  - eexists. split; [done |]. by intros ? [= <-].
  - destruct (Hf st x Hst (list_elem_of_here _ _)) as (r & -> & Hr). simpl.
    destruct r as [st'|e]; [|by eexists]. apply IH; [by apply Hr |].
    intros st1 y H1 Hy. apply Hf; [done | by right].
Qed.

Lemma fold_exec_keeps {S A E} (f : S -> A -> exec (result S E)) (I : S -> Prop) l st st' :
  (forall st x st', x ∈ l -> I st -> f st x = Done (Ok st') -> I st') ->
  I st -> fold_exec f st l = Done (Ok st') -> I st'.
Proof.
  revert st. induction l as [|x l IH]; intros st Hf Hi; cbn; [by intros [= <-] |].
  destruct (f st x) as [[st1|e]| |] eqn:Hx; cbn; try done.
  apply IH; [intros ? y ? Hy; apply Hf; by right |]. eapply Hf; [left | done | done].
Qed.

Lemma fold_exec_app {S A E} (f : S -> A -> exec (result S E)) l1 l2 st :
  fold_exec f st (l1 ++ l2) =
  let! out := fold_exec f st l1 in match out with Ok st => fold_exec f st l2 | Err e => Done (Err e) end.
Proof.
  revert st. induction l1 as [|x l1 IH]; intros st; cbn; [done |].
  destruct (f st x) as [[st1|e]| |]; cbn; [apply IH | done..].
Qed.

Lemma fold_exec_error {S A E} (f : S -> A -> exec (result S E)) (Q : E -> Prop) l st e :
  (forall st x e, x ∈ l -> f st x = Done (Err e) -> Q e) -> fold_exec f st l = Done (Err e) -> Q e.
Proof.
  revert st. induction l as [|x l IH]; intros st Hf; cbn; [done |].
  destruct (f st x) as [[st1|e1]| |] eqn:Hx; cbn; try done.
  - apply IH. intros ? y ? Hy. apply Hf. by right.
  - intros [= <-]. eapply Hf; [left | done].
Qed.

Lemma fold_exec_ext {S A E} (f g : S -> A -> exec (result S E)) l st :
  (forall st x, f st x = g st x) -> fold_exec f st l = fold_exec g st l.
Proof.
  intros Hfg. revert st. induction l as [|x l IH]; intros st; cbn; [done |]. rewrite Hfg.
  destruct (g st x) as [[st1|e]| |]; cbn; auto.
Qed.

(** A fold whose steps carry a hidden state [C] (a cache): the visible state follows [g], and
    the first element that [check] objects to ends it. *)
Lemma fold_exec_checked {S C A E} (f : S * C -> A -> exec (result (S * C) E)) (I : C -> Prop)
    (check : A -> option E) (g : S -> A -> S) l s c :
  (forall s c x, I c -> match check x with
                        | None => exists c', f (s, c) x = Done (Ok (g s x, c')) /\ I c'
                        | Some e => f (s, c) x = Done (Err e)
                        end) ->
  I c ->
  match head (omap check l) with
  | None => exists c', fold_exec f (s, c) l = Done (Ok (foldl g s l, c')) /\ I c'
  | Some e => fold_exec f (s, c) l = Done (Err e)
  end.
Proof.
  intros Hf. revert s c. induction l as [|x l IH]; intros s c Hc; cbn; [by exists c |].
  specialize (Hf s c x Hc). destruct (check x) as [e|]; cbn; [by rewrite Hf |].
  destruct Hf as (c' & -> & Hc'). cbn. by apply IH.
Qed.

Lemma find_app {A} (f : A -> bool) l1 l2 :
  List.find f (l1 ++ l2) = match List.find f l1 with Some x => Some x | None => List.find f l2 end.
Proof. induction l1 as [|x l1 IH]; simpl; [done|]. by destruct (f x). Qed.

Lemma try_fold_app {S A E} (f : S -> A -> result S E) l1 l2 st :
  try_fold f st (l1 ++ l2) = let? st := try_fold f st l1 in try_fold f st l2.
Proof. revert st; induction l1 as [|x l1 IH]; intros st; simpl; [done|]. destruct (f st x); [apply IH|done]. Qed.

(** An invariant over the elements done and the elements to come. *)
Lemma try_fold_inv {S A E} (f : S -> A -> result S E) (I : list A -> S -> Prop) (Q : E -> Prop) l st :
  I [] st ->
  (forall done x todo st, l = done ++ x :: todo -> I done st ->
     match f st x with Ok st' => I (done ++ [x]) st' | Err e => Q e end) ->
  match try_fold f st l with Ok st' => I l st' | Err e => Q e end.
Proof.
  intros H0 Hstep. change (I l) with (I ([] ++ l)).
  assert (Hl : l = [] ++ l) by done. revert Hl H0. generalize (@nil A) as pre.
  assert (Hgen : forall todo pre st, l = pre ++ todo -> I pre st ->
    match try_fold f st todo with Ok st' => I (pre ++ todo) st' | Err e => Q e end).
  { induction todo as [|x todo IH]; intros pre st0 Hl HI; simpl; [by rewrite app_nil_r |].
    specialize (Hstep pre x todo st0 Hl HI). destruct (f st0 x) as [st1|e]; [|done]. cbn [result_bind].
    rewrite cons_middle, app_assoc. apply IH; [by rewrite <-app_assoc | done]. }
  intros pre Hl HI. by apply Hgen.
Qed.

Lemma map_exec_Forall2 {A B} (f : A -> exec B) (R : A -> B -> Prop) l :
  (forall x, x ∈ l -> exists y, f x = Done y /\ R x y) ->
  exists ys, map_exec f l = Done ys /\ Forall2 R l ys.
Proof.
  induction l as [|x l IH]; intros H; cbn; [by exists [] |].
  destruct (H x (list_elem_of_here _ _)) as (y & -> & Hy). cbn.
  destruct IH as (ys & -> & Hys); [intros z Hz; apply H; by right |].
  exists (y :: ys). split; [done | by constructor].
Qed.

Lemma list_filter_all {A} (Q : A -> Prop) `{forall x, Decision (Q x)} (l : list A) : Forall Q l -> filter Q l = l.
Proof. induction 1 as [|x l Hx _ IH]; [done |]. by rewrite filter_cons_True, IH. Qed.

Lemma imap_seq {A B C} (f : nat -> A -> B) (g : B -> C) (h : nat -> C) (l : list A) :
  (forall i x, g (f i x) = h i) -> g <$> imap f l = h <$> seq 0 (length l).
Proof.
  intros Hg. apply list_eq. intros i. rewrite !list_lookup_fmap, list_lookup_imap.
  destruct (l !! i) as [x|] eqn:Hx; cbn.
  - rewrite lookup_seq_lt by (by apply lookup_lt_Some in Hx). cbn. by rewrite Hg.
  - rewrite lookup_seq_ge by (by apply lookup_ge_None in Hx). done.
Qed.

Lemma fmap_flat_map {A B C} (f : B -> C) (g : A -> list B) (l : list A) :
  f <$> flat_map g l = flat_map (fun x => f <$> g x) l.
Proof. induction l as [|x l IH]; [done |]. cbn [flat_map]. by rewrite fmap_app, IH. Qed.

(** ** Multimaps *)

(** [map.entry(key).or_default().push(value)]. *)
Definition push_entry {K V} `{Countable K} (m : gmap K (list V)) (e : K * V) : gmap K (list V) :=
  <[e.1 := default [] (m !! e.1) ++ [e.2]]> m.

Lemma push_entry_fold {K V} `{Countable K} (es : list (K * V)) (m0 : gmap K (list V)) k v :
  v ∈ default [] (foldl push_entry m0 es !! k) <-> v ∈ default [] (m0 !! k) \/ (k, v) ∈ es.
Proof.
  revert m0; induction es as [|[k' v'] es IH]; intros m0; simpl.
  - rewrite elem_of_nil. tauto.
  - rewrite IH, elem_of_cons. unfold push_entry; simpl. destruct (decide (k = k')) as [->|Hne].
    + rewrite lookup_insert_eq. simpl. rewrite elem_of_app, list_elem_of_singleton. naive_solver.
    + rewrite lookup_insert_ne by done. naive_solver.
Qed.

Lemma push_entry_is_Some {K V} `{Countable K} (es : list (K * V)) (m0 : gmap K (list V)) k :
  is_Some (foldl push_entry m0 es !! k) <-> is_Some (m0 !! k) \/ k ∈ es.*1.
Proof.
  revert m0; induction es as [|[k' v'] es IH]; intros m0; simpl.
  - rewrite elem_of_nil. tauto.
  - rewrite IH, elem_of_cons. unfold push_entry; simpl. destruct (decide (k = k')) as [->|Hne].
    + rewrite lookup_insert_eq. naive_solver.
    + rewrite lookup_insert_ne by done. naive_solver.
Qed.

Lemma elem_of_default_lookup {K V} `{Countable K} (m : gmap K (list V)) k v :
  v ∈ default [] (m !! k) <-> exists l, m !! k = Some l /\ v ∈ l.
Proof.
  destruct (m !! k) as [l|]; simpl; [naive_solver|]. rewrite elem_of_nil. naive_solver.
Qed.

(** ** Strings ([&str] methods); a string is its sequence of UTF-8 bytes *)

Arguments String.append !_ _ / : simpl nomatch.

Section strings.
Open Scope string_scope.

Definition starts_with (pat s : string) : bool := String.prefix pat s.

(** [str::strip_prefix]. *)
Fixpoint strip_prefix (pat s : string) : option string :=
  match pat, s with
  | EmptyString, _ => Some s
  | String c pat', String d s' => if Ascii.eqb c d then strip_prefix pat' s' else None
  | String _ _, EmptyString => None
  end.

(** [str::strip_suffix]. *)
Fixpoint strip_suffix (pat s : string) : option string :=
  if String.eqb s pat then Some ""
  else match s with
       | EmptyString => None
       | String c s' => String c <$> strip_suffix pat s'
       end.

Definition ends_with (pat s : string) : bool :=
  match strip_suffix pat s with Some _ => true | None => false end.

(** [str::split_once] on one character. *)
Fixpoint split_once (sep : ascii) (s : string) : option (string * string) :=
  match s with
  | EmptyString => None
  | String c s' =>
      if Ascii.eqb c sep then Some ("", s')
      else (fun p => (String c p.1, p.2)) <$> split_once sep s'
  end.

(** [str::splitn]: at most [n] pieces, the last one is the unsplit rest. *)
Fixpoint splitn (n : nat) (sep : ascii) (s : string) : list string :=
  match n with
  | O => []
  | S O => [s]
  | S n' =>
      match split_once sep s with
      | None => [s]
      | Some (a, b) => a :: splitn n' sep b
      end
  end.

(** [[a, b].join(sep)]. *)
Fixpoint join (sep : string) (l : list string) : string :=
  match l with
  | [] => ""
  | [s] => s
  | s :: l' => s +:+ sep +:+ join sep l'
  end.

(** Whether a character occurs in a string. *)
Fixpoint has_char (c : ascii) (s : string) : bool :=
  match s with
  | EmptyString => false
  | String d s' => Ascii.eqb c d || has_char c s'
  end.

(** Decimal notation ([Display] of unsigned integers below [10 ^ 20]). *)
Definition digit_char (d : Z) : ascii := ascii_of_nat (48 + Z.to_nat d).

Definition char_digit (c : ascii) : option Z :=
  let n := nat_of_ascii c in
  if (Nat.leb 48 n && Nat.leb n 57)%bool then Some (Z.of_nat (n - 48)) else None.

Fixpoint show_digits (fuel : nat) (n : Z) (acc : string) : string :=
  match fuel with
  | O => acc
  | S fuel' =>
      let acc' := String (digit_char (n `mod` 10)%Z) acc in
      if Z.ltb n 10 then acc' else show_digits fuel' (n / 10)%Z acc'
  end.

Definition show_uint (n : Z) : string := show_digits 20 n "".

Fixpoint read_digits (s : string) (acc : Z) : option Z :=
  match s with
  | EmptyString => Some acc
  | String c s' =>
      match char_digit c with
      | Some d => read_digits s' (acc * 10 + d)%Z
      | None => None
      end
  end.

(** [str::parse] of an unsigned integer type with maximum [max]: an optional plus
    sign and at least one digit. *)
Definition parse_uint (max : Z) (s : string) : option Z :=
  let digits := match s with
                | String c rest => if Ascii.eqb c "+" then rest else s
                | EmptyString => s
                end in
  match digits with
  | EmptyString => None
  | _ => match read_digits digits 0 with
         | Some n => if Z.leb n max then Some n else None
         | None => None
         end
  end.

Lemma char_digit_char d : (0 <= d < 10)%Z -> char_digit (digit_char d) = Some d.
Proof.
  intros Hd. assert (Hc : d ∈ [0;1;2;3;4;5;6;7;8;9]%Z).
  { rewrite !elem_of_cons, elem_of_nil. lia. }
  clear Hd. revert d Hc. apply Forall_forall. by apply (bool_decide_unpack _).
Qed.

Lemma read_show_digits fuel n acc :
  (0 <= n < 10 ^ Z.of_nat (S fuel))%Z ->
  read_digits (show_digits (S fuel) n acc) 0 = read_digits acc n.
Proof.
  revert n acc; induction fuel as [|fuel IH]; intros n acc Hn.
  - change (10 ^ Z.of_nat 1)%Z with 10%Z in Hn. cbn [show_digits].
    destruct (Z.ltb_spec n 10); [|lia]. cbn [read_digits].
    rewrite char_digit_char by (apply Z.mod_pos_bound; lia). rewrite Z.mod_small by lia. done.
  - rewrite Nat2Z.inj_succ, Z.pow_succ_r in Hn by lia.
    set (f := S fuel) in *. cbn [show_digits].
    pose proof (Z.mod_pos_bound n 10 ltac:(lia)).
    destruct (Z.ltb_spec n 10).
    + cbn [read_digits]. rewrite char_digit_char by done. rewrite Z.mod_small by lia. done.
    + unfold f. rewrite IH.
      * cbn [read_digits]. rewrite char_digit_char by done. f_equal.
        pose proof (Z.div_mod n 10 ltac:(lia)). lia.
      * split; [by apply Z.div_pos; lia|]. apply Z.div_lt_upper_bound; [lia|]. exact (proj2 Hn).
Qed.

Lemma show_digits_has_char c fuel n acc :
  char_digit c = None -> has_char c (show_digits fuel n acc) = has_char c acc.
Proof.
  intros Hc. revert n acc; induction fuel as [|fuel IH]; intros n acc; [done|].
  cbn [show_digits].
  assert (Hd : Ascii.eqb c (digit_char (n `mod` 10)) = false).
  { apply Ascii.eqb_neq. intros ->. rewrite char_digit_char in Hc; [done|].
    apply Z.mod_pos_bound. lia. }
  destruct (Z.ltb n 10); [|rewrite IH]; cbn [has_char]; by rewrite Hd.
Qed.

(** Printing and parsing an unsigned integer. *)
Lemma parse_show_uint max n :
  (0 <= n <= max)%Z -> (max < 10 ^ 20)%Z -> parse_uint max (show_uint n) = Some n.
Proof.
  intros Hn Hmax.
  assert (Hr : read_digits (show_uint n) 0 = Some n).
  { unfold show_uint. rewrite read_show_digits; [done|]. change (Z.of_nat 20) with 20%Z. lia. }
  assert (Hp : has_char "+" (show_uint n) = false) by (by apply show_digits_has_char).
  assert (Hne : show_uint n <> "").
  { intros He. rewrite He in Hr. injection Hr as <-. discriminate He. }
  unfold parse_uint. destruct (show_uint n) as [|c s]; [done|].
  cbn [has_char] in Hp. apply orb_false_iff in Hp as [Hp _].
  rewrite Ascii.eqb_sym, Hp, Hr.
  destruct (Z.leb_spec n max); [done|lia].
Qed.

Lemma strip_prefix_Some pat s r : strip_prefix pat s = Some r <-> s = pat +:+ r.
Proof.
  revert s; induction pat as [|c pat IH]; intros [|d s]; simpl; split; try congruence.
  - destruct (Ascii.eqb_spec c d) as [->|]; [|done]. rewrite IH. congruence.
  - intros [= -> ->]. rewrite Ascii.eqb_refl. by apply IH.
Qed.

Lemma starts_with_true pat s : starts_with pat s = true <-> exists r, s = pat +:+ r.
Proof.
  unfold starts_with. revert s; induction pat as [|c pat IH]; intros s; simpl.
  - destruct s; (split; [|done]); intros _; eauto.
  - destruct s as [|d s]; simpl; [split; [done|intros (r & Hr); discriminate Hr]|].
    destruct (ascii_dec c d) as [->|Hne].
    + rewrite IH. split; intros (r & Hr); exists r; simpl in *; congruence.
    + split; [done|]. intros (r & Hr). simpl in Hr. congruence.
Qed.

Lemma strip_prefix_starts_with pat s :
  is_Some (strip_prefix pat s) <-> starts_with pat s = true.
Proof. rewrite starts_with_true. unfold is_Some. by setoid_rewrite strip_prefix_Some. Qed.

Lemma string_app_inv_tail a b c : a +:+ c = b +:+ c -> a = b.
Proof.
  assert (Hlen : forall x y, String.length (x +:+ y) = String.length x + String.length y).
  { induction x; simpl; intros; [done|]. f_equal; auto. }
  revert b; induction a as [|x a IH]; intros [|y b] Heq; simpl in *; [done| | |].
  - exfalso. apply (f_equal String.length) in Heq. simpl in Heq. rewrite Hlen in Heq. lia.
  - exfalso. apply (f_equal String.length) in Heq. simpl in Heq. rewrite Hlen in Heq. lia.
  - injection Heq as -> Heq. f_equal. by apply IH.
Qed.

Lemma strip_suffix_Some pat s r : strip_suffix pat s = Some r <-> s = r +:+ pat.
Proof.
  revert r; induction s as [|c s IH]; intros r; cbn [strip_suffix].
  - destruct (String.eqb_spec "" pat) as [<-|Hp].
    + split; [intros [= <-]; done|]. by destruct r.
    + split; [done|]. intros Hs. destruct r; [by destruct Hp|discriminate].
  - destruct (String.eqb_spec (String c s) pat) as [<-|Hp].
    + split; [intros [= <-]; done|]. intros Hs.
      by rewrite (string_app_inv_tail "" r (String c s) Hs).
    + rewrite fmap_Some. setoid_rewrite IH. split.
      * intros (r' & -> & ->). done.
      * intros Hs. destruct r as [|d r]; [by destruct Hp|].
        injection Hs as -> ->. eauto.
Qed.

Lemma ends_with_true pat s : ends_with pat s = true <-> exists r, s = r +:+ pat.
Proof.
  unfold ends_with. setoid_rewrite <-strip_suffix_Some.
  destruct (strip_suffix pat s); split; try done; eauto. intros (? & ?); done.
Qed.

Lemma split_once_Some sep s a b :
  split_once sep s = Some (a, b) <-> s = a +:+ String sep b /\ has_char sep a = false.
Proof.
  revert a; induction s as [|c s IH]; intros a; simpl.
  - split; [done|]. intros [Hs _]. by destruct a.
  - destruct (Ascii.eqb_spec c sep) as [->|Hc].
    + split; [intros [= <- <-]; done|]. intros [Hs Ha].
      destruct a as [|d a]; [simpl in Hs; congruence|].
      injection Hs as -> ->. simpl in Ha. by rewrite Ascii.eqb_refl in Ha.
    + rewrite fmap_Some. split.
      * intros ([a' b'] & Hsp & [= -> ->]). apply IH in Hsp as [-> Ha]. simpl.
        split; [done|]. rewrite Ha, orb_false_r. apply Ascii.eqb_neq. congruence.
      * intros [Hs Ha]. destruct a as [|d a]; [simpl in Hs; congruence|].
        injection Hs as -> ->. simpl in Ha. apply orb_false_iff in Ha as [_ Ha].
        exists (a, b). split; [by apply IH|done].
Qed.
End strings.
