(* ===== verification/Text.v ===== *)
(** Strings as texts: concatenation, length, slices, the rendering of a list of pieces, and
    the parts of the string API that the code uses: trimming, splitting, letter case and
    the reading of integers.  Strings are sequences of single-byte characters; white space
    and letter case outside of ASCII are not modelled. *)
From Stdlib Require Import Ascii.
From stdpp Require Import prelude strings list.
From S2P Require Import Prelude.

#[local] Open Scope string_scope.
#[local] Open Scope list_scope.

Lemma string_app_assoc (a b c : string) : (a +:+ b) +:+ c = a +:+ (b +:+ c).
Proof. induction a as [|x a IH]; simpl; [done|]. by f_equal. Qed.

Lemma string_app_nil_r (a : string) : a +:+ "" = a.
Proof. induction a as [|x a IH]; simpl; [done|]. by f_equal. Qed.

Lemma string_length_app (a b : string) :
  String.length (a +:+ b) = String.length a + String.length b.
Proof. induction a as [|x a IH]; simpl; [done|]. by f_equal. Qed.

Lemma substring_app_l n (a b : string) : String.substring (String.length a) n (a +:+ b) = String.substring 0 n b.
Proof. induction a as [|x a IH]; [done|]. simpl. exact IH. Qed.

Lemma substring_app_skip m n (a b : string) :
  String.substring (String.length a + m) n (a +:+ b) = String.substring m n b.
Proof. induction a as [|x a IH]; [done|]. simpl. exact IH. Qed.

Lemma substring_0_app (a b : string) : String.substring 0 (String.length a) (a +:+ b) = a.
Proof. induction a as [|x a IH]; simpl; [by destruct b|]. by f_equal. Qed.

Lemma substring_0_all (s : string) : String.substring 0 (String.length s) s = s.
Proof. rewrite <-(string_app_nil_r s) at 2. apply substring_0_app. Qed.

(** A slice at [n] and the rest. *)
Lemma substring_split n (s : string) :
  n <= String.length s ->
  String.substring 0 n s +:+ String.substring n (String.length s - n) s = s /\
  String.length (String.substring 0 n s) = n.
Proof.
  revert s; induction n as [|n IH]; intros s Hn.
  - rewrite Nat.sub_0_r. destruct s as [|c s]; [done|]. split; [|done].
    exact (substring_0_all (String c s)).
  - destruct s as [|c s]; simpl in Hn; [lia|]. destruct (IH s) as [H1 H2]; [lia|].
    simpl. split; [by f_equal|by f_equal].
Qed.

Definition concat_strings (l : list string) : string := foldr String.append "" l.

Lemma concat_strings_app l1 l2 :
  concat_strings (l1 ++ l2) = concat_strings l1 +:+ concat_strings l2.
Proof. induction l1 as [|s l1 IH]; simpl; [done|]. by rewrite IH, string_app_assoc. Qed.

Lemma length_concat_const k l :
  Forall (fun s => String.length s = k) l -> String.length (concat_strings l) = length l * k.
Proof. induction 1 as [|s l Hs Hl IH]; simpl; [done|]. by rewrite string_length_app, Hs, IH. Qed.

(** The piece at an index of a text of equally long pieces. *)
Lemma substring_concat_const k l i s m n rest :
  Forall (fun s => String.length s = k) l -> l !! i = Some s -> m + n <= k ->
  String.substring (i * k + m) n (concat_strings l +:+ rest) = String.substring m n s.
Proof.
  intros Hl. revert i. induction Hl as [|x l Hx Hl IH]; intros i Hi Hm; [done|].
  destruct i as [|i]; simpl in Hi.
  - injection Hi as ->. simpl. rewrite string_app_assoc. generalize (concat_strings l +:+ rest).
    clear -Hx Hm. intros t. revert s n k Hx Hm. induction m as [|m IHm]; intros s n k Hx Hm.
    + revert k n Hx Hm. induction s as [|c s IHs]; intros k n Hx Hm; simpl in Hx.
      * assert (n = 0) as -> by lia. by destruct t.
      * destruct n as [|n]; [done|]. simpl. f_equal. apply (IHs (k - 1)); lia.
    + destruct s as [|c s]; simpl in Hx; [lia|]. simpl. apply (IHm _ _ (k - 1)); lia.
  - cbn [concat_strings foldr]. rewrite string_app_assoc.
    replace (S i * k + m) with (String.length x + (i * k + m)) by lia.
    rewrite substring_app_skip. by apply IH.
Qed.

(** Every character of a string has a property. *)
Fixpoint all_chars (p : ascii -> bool) (s : string) : bool :=
  match s with
  | EmptyString => true
  | String c r => p c && all_chars p r
  end.

Lemma all_chars_app p a b : all_chars p (a +:+ b) = all_chars p a && all_chars p b.
Proof. induction a as [|c a IH]; simpl; [done|]. by rewrite IH, andb_assoc. Qed.

Lemma all_chars_impl (p q : ascii -> bool) s :
  (forall c, p c = true -> q c = true) -> all_chars p s = true -> all_chars q s = true.
Proof.
  intros Hpq. induction s as [|c s IH]; simpl; [done|].
  rewrite !andb_true_iff. naive_solver.
Qed.

Lemma has_char_all_chars c s : has_char c s = negb (all_chars (fun d => negb (Ascii.eqb c d)) s).
Proof. induction s as [|d s IH]; simpl; [done|]. by rewrite IH, negb_andb, negb_involutive. Qed.

Lemma show_digits_digits fuel n acc :
  all_chars (fun c => bool_decide (is_Some (char_digit c))) acc = true ->
  all_chars (fun c => bool_decide (is_Some (char_digit c))) (show_digits fuel n acc) = true.
Proof.
  revert n acc; induction fuel as [|fuel IH]; intros n acc Hacc; [done|]. cbn [show_digits].
  assert (Hd : all_chars (fun c => bool_decide (is_Some (char_digit c)))
            (String (digit_char (n `mod` 10)%Z) acc) = true).
  { cbn [all_chars]. rewrite Hacc, char_digit_char by (apply Z.mod_pos_bound; lia). done. }
  destruct (Z.ltb n 10); [exact Hd|by apply IH].
Qed.

(** A printed number is made of digits. *)
Lemma show_uint_digits n : all_chars (fun c => bool_decide (is_Some (char_digit c))) (show_uint n) = true.
Proof. by apply show_digits_digits. Qed.

Lemma show_uint_nonempty n : show_uint n <> "".
Proof.
  unfold show_uint. assert (Hne : forall fuel n acc, acc <> "" -> show_digits fuel n acc <> "").
  { induction fuel as [|fuel IH]; intros m acc Hacc; [done|]. cbn [show_digits].
    destruct (Z.ltb m 10); [done|by apply IH]. }
  change (show_digits 20 n "") with
    (let acc := String (digit_char (n `mod` 10)%Z) "" in
     if Z.ltb n 10 then acc else show_digits 19 (n / 10)%Z acc).
  cbv zeta. destruct (Z.ltb n 10); [done|by apply Hne].
Qed.

Lemma splitn_cons n sep a b :
  has_char sep a = false -> splitn (S (S n)) sep (a +:+ String sep b) = a :: splitn (S n) sep b.
Proof.
  intros Ha. change (splitn (S (S n)) sep (a +:+ String sep b)) with
    (match split_once sep (a +:+ String sep b) with
     | None => [a +:+ String sep b] | Some (a, b) => a :: splitn (S n) sep b end).
  by rewrite (proj2 (split_once_Some sep _ a b) (conj eq_refl Ha)).
Qed.

(** ** White space, splitting and letter case *)

(** [char::is_whitespace]. *)
Definition is_whitespace (c : ascii) : bool :=
  let n := nat_of_ascii c in (Nat.leb 9 n && Nat.leb n 13) || Nat.eqb n 32.

Fixpoint trim_start (s : string) : string :=
  match s with
  | EmptyString => EmptyString
  | String c r => if is_whitespace c then trim_start r else s
  end.

Fixpoint trim_end (s : string) : string :=
  match s with
  | EmptyString => EmptyString
  | String c r =>
      match trim_end r with
      | EmptyString => if is_whitespace c then EmptyString else String c EmptyString
      | r' => String c r'
      end
  end.

Definition trim (s : string) : string := trim_end (trim_start s).

(** [str::split] on one character. *)
Fixpoint split (sep : ascii) (s : string) : list string :=
  match s with
  | EmptyString => [EmptyString]
  | String c r =>
      if Ascii.eqb c sep then EmptyString :: split sep r
      else match split sep r with
           | p :: ps => String c p :: ps
           | [] => [String c EmptyString]
           end
  end.

(** Splitting undoes joining, and nothing else does. *)
Lemma split_parts sep s ps :
  split sep s = ps <-> ps <> [] /\ Forall (fun p => has_char sep p = false) ps /\ s = join (String sep EmptyString) ps.
Proof.
  revert ps. induction s as [|c s IH]; intros ps; cbn [split].
  - split; [intros <-; split_and!; [done | by repeat constructor | done] |].
    intros (Hne & Hall & Hj). destruct ps as [|p [|q ps]]; [done | cbn in Hj; by subst |].
    cbn in Hj. by destruct p.
  - destruct (Ascii.eqb_spec c sep) as [->|Hc].
    + split.
      * intros <-. destruct (proj1 (IH _) eq_refl) as (Hne & Hall & Hj). split_and!; [done | by constructor |].
        destruct (split sep s) as [|p ps]; [done |]. cbn [join]. by rewrite Hj at 1.
      * intros (Hne & Hall & Hj). destruct ps as [|p ps]; [done |]. apply Forall_cons in Hall as [Hp Hall].
        destruct p as [|d p].
        -- destruct ps as [|q ps]; [done |]. f_equal. apply IH. split_and!; [done | done |].
           cbn [join] in Hj. by injection Hj as ->.
        -- exfalso. assert (d = sep) as -> by (destruct ps; cbn in Hj; congruence).
           cbn in Hp. by rewrite Ascii.eqb_refl in Hp.
    + assert (Hcc : Ascii.eqb sep c = false) by (apply Ascii.eqb_neq; congruence). split.
      * intros <-. destruct (proj1 (IH _) eq_refl) as (Hne & Hall & Hj).
        destruct (split sep s) as [|p ps]; [done |]. apply Forall_cons in Hall as [Hp Hall].
        split_and!; [done | constructor; [by cbn; rewrite Hcc | done] |]. rewrite Hj. by destruct ps.
      * intros (Hne & Hall & Hj). destruct ps as [|p ps]; [done |]. apply Forall_cons in Hall as [Hp Hall].
        destruct p as [|d p]; [destruct ps; cbn in Hj; congruence |].
        assert (d = c /\ s = join (String sep EmptyString) (p :: ps)) as [-> Hs]
          by (destruct ps; cbn in Hj |- *; injection Hj as -> ->; done).
        cbn in Hp. rewrite Hcc in Hp. cbn in Hp.
        by rewrite (proj2 (IH (p :: ps))) by (split_and!; [done | by constructor | done]).
Qed.

(** [str::rsplit_once] on one character. *)
Fixpoint rsplit_once (sep : ascii) (s : string) : option (string * string) :=
  match s with
  | EmptyString => None
  | String c r =>
      match rsplit_once sep r with
      | Some (a, b) => Some (String c a, b)
      | None => if Ascii.eqb c sep then Some (EmptyString, r) else None
      end
  end.

Definition to_ascii_lowercase (c : ascii) : ascii :=
  let n := nat_of_ascii c in if Nat.leb 65 n && Nat.leb n 90 then ascii_of_nat (n + 32) else c.

Fixpoint lower (s : string) : string :=
  match s with
  | EmptyString => EmptyString
  | String c r => String (to_ascii_lowercase c) (lower r)
  end.

Definition eq_ignore_ascii_case (a b : string) : bool := String.eqb (lower a) (lower b).

(** [Display] of signed integers. *)
Definition show_int (n : Z) : string :=
  if (n <? 0)%Z then "-" +:+ show_uint (- n) else show_uint n.

(** [str::parse] of a signed integer type of range [[- max - 1, max]]. *)
Definition parse_int (max : Z) (s : string) : option Z :=
  match s with
  | String "-"%char (String c _ as digits) =>
      if Ascii.eqb c "+"%char then None
      else match parse_uint (max + 1) digits with Some n => Some (- n)%Z | None => None end
  | _ => parse_uint max s
  end.

Example parse_int_examples :
  parse_int 9 "-10" = Some (-10)%Z /\ parse_int 9 "10" = None /\ parse_int 9 "+7" = Some 7%Z /\
  parse_int 9 "-" = None /\ parse_int 9 "-+3" = None /\ parse_int 9 "--3" = None /\ parse_int 9 "" = None.
Proof. by vm_compute. Qed.
