(* ===== verification/Graph.v ===== *)
(** Finite directed graphs: the shared machinery of the scheduler's graph code.

    Two loops of the program are written once here and instantiated by the
    components: Kahn's queue loop ([kahn_loop], used by both topological sorts of
    the scheduler) and the worklist of a breadth-first search ([bfs_loop]). Each
    comes with the invariant that makes it correct, with enough fuel never to run
    out, and with the proof that its unsigned counter never underflows. *)
From stdpp Require Import prelude gmap list relations.
From S2P Require Import Prelude.

(** ** Cycles *)

(** A non-empty finite set in which every member has a predecessor contains a
    cycle. *)
Lemma no_source_cycle {A} `{EqDecision A} (R : relation A) (l : list A) :
  l <> [] -> (forall x, x ∈ l -> exists y, y ∈ l /\ R y x) -> exists x, x ∈ l /\ tc R x x.
Proof.
  intros Hne Hpred.
  assert (Hext : forall n x p, length l - length p <= n -> NoDup (x :: p) ->
            (forall y, y ∈ x :: p -> y ∈ l) -> (forall y, y ∈ p -> tc R x y) ->
            exists x, x ∈ l /\ tc R x x).
  { induction n as [|n IH]; intros x p Hn Hnd Hsub Htc.
    all: assert (Hlen : length (x :: p) <= length l)
           by (apply submseteq_length, NoDup_submseteq; auto).
    { simpl in Hlen. lia. }
    destruct (Hpred x) as (y & Hy & Hyx); [apply Hsub; left|].
    destruct (decide (y ∈ x :: p)) as [[->|Hin]%elem_of_cons|Hnin].
    - exists x. split; [done|]. by apply tc_once.
    - exists x. split; [apply Hsub; left|]. eapply tc_r; [apply Htc, Hin|done].
    - apply (IH y (x :: p)); [simpl in *; lia|by constructor| |].
      + intros z [->|Hz]%elem_of_cons; [done|]. by apply Hsub.
      + intros z [->|Hz]%elem_of_cons; [by apply tc_once|]. eapply tc_l; eauto. }
  destruct l as [|x l]; [done|].
  apply (Hext (length (x :: l)) x []); [simpl; lia|apply NoDup_singleton| |].
  - intros y ->%list_elem_of_singleton. left.
  - intros y Hy. by apply elem_of_nil in Hy.
Qed.

(** ** Occurrence counts *)

Section occurrences.
Context {A : Type} `{EqDecision A}.

Fixpoint occ (v : A) (l : list A) : nat :=
  match l with
  | [] => 0
  | x :: l' => if decide (v = x) then S (occ v l') else occ v l'
  end.

Lemma occ_zero v l : occ v l = 0 <-> v ∉ l.
Proof.
  induction l as [|x l IH]; simpl; [rewrite elem_of_nil; naive_solver|].
  rewrite not_elem_of_cons. case_decide; [naive_solver|]. rewrite IH. naive_solver.
Qed.

Lemma occ_pos v l : 0 < occ v l <-> v ∈ l.
Proof.
  destruct (decide (v ∈ l)) as [Hin|Hnin]; [|apply occ_zero in Hnin as Hz].
  - split; [done|]. intros _. destruct (occ v l) eqn:Ho; [by apply occ_zero in Ho|lia].
  - split; [lia|done].
Qed.

Context (succs : A -> list A).

(** Edges into [v] from the nodes of [ids] that are not in [done]. *)
Fixpoint npred (ids done : list A) (v : A) : nat :=
  match ids with
  | [] => 0
  | u :: ids' => (if decide (u ∈ done) then 0 else occ v (succs u)) + npred ids' done v
  end.

Lemma npred_zero ids done v :
  npred ids done v = 0 <-> forall u, u ∈ ids -> v ∈ succs u -> u ∈ done.
Proof.
  induction ids as [|u ids IH]; simpl.
  - split; [intros _ u Hu; by apply elem_of_nil in Hu|done].
  - rewrite Nat.eq_add_0, IH. split.
    + intros [Hz Hr] w [->|Hw]%elem_of_cons Hv; [|by apply Hr].
      case_decide; [done|]. by apply occ_zero in Hz.
    + intros Hall. split; [|intros w Hw; apply Hall; by right].
      case_decide as Hd; [done|]. apply occ_zero. intros Hv. by destruct Hd; apply Hall; [left|].
Qed.

Lemma npred_snoc_notin ids done x v : x ∉ ids -> npred ids (done ++ [x]) v = npred ids done v.
Proof.
  induction ids as [|u ids IH]; simpl; [done|]. rewrite not_elem_of_cons. intros [Hne Hni].
  rewrite IH by done. f_equal. apply decide_ext.
  rewrite elem_of_app, list_elem_of_singleton. naive_solver.
Qed.

Lemma npred_snoc ids done x v :
  NoDup ids -> x ∈ ids -> x ∉ done ->
  npred ids done v = npred ids (done ++ [x]) v + occ v (succs x).
Proof.
  intros Hnd Hx Hd. induction ids as [|u ids IH]; [by apply elem_of_nil in Hx|].
  apply NoDup_cons in Hnd as [Hu Hnd]. simpl. apply elem_of_cons in Hx as [->|Hx].
  - rewrite npred_snoc_notin by done.
    rewrite decide_False by done. rewrite decide_True; [lia|].
    rewrite elem_of_app, list_elem_of_singleton. by right.
  - rewrite IH by done.
    assert (u <> x) by naive_solver.
    assert (Hiff : u ∈ done ++ [x] <-> u ∈ done)
      by (rewrite elem_of_app, list_elem_of_singleton; naive_solver).
    destruct (decide (u ∈ done)), (decide (u ∈ done ++ [x])); [|tauto|tauto|]; lia.
Qed.
End occurrences.

(** ** Work queues

    What a search loop needs of its queue.  [VecDeque] (first in, first out) and
    [BTreeSet] with [pop_first] are the two queues of the scheduler. *)

Class WorkQueue (A Q : Type) := {
  wq_pop : Q -> option (A * Q);
  wq_push : A -> Q -> Q;
  wq_elems : Q -> list A;
  wq_pop_None : forall q, wq_pop q = None -> wq_elems q = [];
  wq_pop_Some : forall q x q', wq_pop q = Some (x, q') -> wq_elems q ≡ₚ x :: wq_elems q';
  wq_push_elems : forall x q, x ∉ wq_elems q -> wq_elems (wq_push x q) ≡ₚ x :: wq_elems q
}.

(** [VecDeque]: [pop_front] and [push_back]. *)
#[export, refine] Instance deque_queue {A} : WorkQueue A (list A) := {
  wq_pop q := match q with [] => None | x :: q' => Some (x, q') end;
  wq_push x q := q ++ [x];
  wq_elems q := q
}.
Proof.
  - by intros [].
  - intros [|y q] x q'; [done|]. by intros [= -> ->].
  - intros x q _. by rewrite Permutation_app_comm.
Defined.

(** [BTreeSet]: [pop_first] takes the least element. *)
Definition pop_first {A} `{Countable A, RustOrd A} (s : gset A) : option (A * gset A) :=
  match btree_elems s with
  | [] => None
  | x :: _ => Some (x, s ∖ {[x]})
  end.

Lemma pop_first_Some {A} `{Countable A, RustOrd A} (s s' : gset A) x :
  pop_first s = Some (x, s') ->
  x ∈ s /\ s' = s ∖ {[x]} /\ forall y, y ∈ s -> rust_leb x y = true.
Proof.
  unfold pop_first. pose proof (btree_elems_sorted s) as Hs.
  destruct (btree_elems s) as [|z r] eqn:He; [done|]. intros [= -> <-].
  assert (Hin : forall y, y ∈ s <-> y ∈ x :: r) by (intros y; by rewrite <-He, elem_of_btree_elems).
  split; [apply Hin; left|]. split; [done|]. intros y Hy%Hin.
  apply elem_of_cons in Hy as [->|Hy]; [apply rust_leb_refl|].
  inversion_clear Hs as [|? ? _ Hf]. rewrite Forall_forall in Hf. auto.
Qed.

#[export, refine] Instance btree_set_queue {A} `{Countable A, RustOrd A} : WorkQueue A (gset A) := {
  wq_pop := pop_first;
  wq_push x q := {[x]} ∪ q;
  wq_elems q := elements q
}.
Proof.
  - intros q. unfold pop_first. destruct (btree_elems q) as [|x r] eqn:He; [|done]. intros _.
    assert (q = ∅) as ->; [|apply elements_empty].
    apply set_eq. intros y. rewrite <-elem_of_btree_elems, He. set_solver.
  - intros q x q' (Hx & -> & _)%pop_first_Some.
    rewrite <-elements_union_singleton by set_solver.
    by rewrite <-union_difference_L by set_solver.
  - intros x q Hx. rewrite elem_of_elements in Hx. by apply elements_union_singleton.
Defined.

(** ** Kahn's algorithm *)

Section kahn.
Context {A Q : Type} `{Countable A} {wq : WorkQueue A Q}.
(** The targets relaxed when a node is popped, in the order of the code. *)
Context (succs : A -> list A).

(** One step of the inner loop:
    [if let Some(degree) = in_degree.get_mut(x) { *degree -= 1; if *degree == 0 { push } }]. *)
Definition relax (x : A) (st : gmap A nat * Q) : exec (gmap A nat * Q) :=
  match st.1 !! x with
  | None => Done st
  | Some 0 => Panicked
  | Some (S n) => Done (<[x := n]> st.1, if Nat.eqb n 0 then wq_push x st.2 else st.2)
  end.

Fixpoint relax_all (l : list A) (st : gmap A nat * Q) : exec (gmap A nat * Q) :=
  match l with
  | [] => Done st
  | x :: l' => let! st' := relax x st in relax_all l' st'
  end.

(** [while let Some(x) = queue.pop() { sorted.push(x); relax the successors }]. *)
Fixpoint kahn_loop (fuel : nat) (deg : gmap A nat) (q : Q) (sorted : list A)
    : exec (gmap A nat * list A) :=
  match wq_pop q with
  | None => Done (deg, sorted)
  | Some (x, q') =>
      match fuel with
      | O => OutOfFuel
      | S fuel' =>
          let! st := relax_all (succs x) (deg, q') in
          kahn_loop fuel' st.1 st.2 (sorted ++ [x])
      end
  end.

(** *** Specification *)

(** [extra v] counts the edges into [v] that are counted but never relaxed. *)
Context (ids : list A) (extra : A -> nat) (ids_NoDup : NoDup ids).

(** [v] is ready once every predecessor is sorted. *)
Definition ready (l : list A) (v : A) : Prop :=
  v ∈ ids /\ v ∉ l /\ extra v = 0 /\ forall u, u ∈ ids -> v ∈ succs u -> u ∈ l.

(** The lists that Kahn's algorithm builds: each node is popped from a queue
    that holds exactly the nodes that are ready. *)
Inductive kahn_order : list A -> Prop :=
| kahn_nil : kahn_order []
| kahn_snoc l x q q' :
    kahn_order l -> wq_pop q = Some (x, q') ->
    (forall v, v ∈ wq_elems q <-> ready l v) ->
    kahn_order (l ++ [x]).

(** The loop invariant, with [pend] the targets of the popped node that are
    still to be relaxed. *)
Record kahn_inv (pend : list A) (deg : gmap A nat) (q : Q) (l : list A) : Prop := {
  ki_deg : forall v, v ∈ ids -> deg !! v = Some (extra v + npred succs ids l v + occ v pend);
  ki_dom : forall v, v ∉ ids -> deg !! v = None;
  ki_nodup : NoDup (l ++ wq_elems q);
  ki_mem : forall v, v ∈ l ++ wq_elems q -> v ∈ ids;
  ki_zero : forall v, v ∈ ids -> (v ∈ l ++ wq_elems q <-> deg !! v = Some 0)
}.

Lemma relax_inv x pend deg q l :
  kahn_inv (x :: pend) deg q l ->
  exists deg' q', relax x (deg, q) = Done (deg', q') /\ kahn_inv pend deg' q' l.
Proof using Type.
  intros [Hdeg Hdom Hnd Hmem Hz]. unfold relax; simpl.
  destruct (decide (x ∈ ids)) as [Hx|Hx].
  2: { rewrite (Hdom x Hx). exists deg, q. split; [done|]. constructor; auto.
       intros v Hv. rewrite Hdeg by done. simpl. rewrite decide_False; [done|naive_solver]. }
  rewrite (Hdeg x Hx). simpl. rewrite decide_True by done.
  rewrite Nat.add_succ_r.
  set (n := extra x + npred succs ids l x + occ x pend).
  assert (Hdeg' : forall v, v ∈ ids ->
            (<[x := n]> deg) !! v = Some (extra v + npred succs ids l v + occ v pend)).
  { intros v Hv. destruct (decide (v = x)) as [->|Hne]; [by rewrite lookup_insert_eq|].
    rewrite lookup_insert_ne by done. rewrite Hdeg by done. simpl. by rewrite decide_False. }
  assert (Hdom' : forall v, v ∉ ids -> (<[x := n]> deg) !! v = None).
  { intros v Hv. rewrite lookup_insert_ne by naive_solver. auto. }
  assert (Hxq : x ∉ l ++ wq_elems q).
  { rewrite Hz by done. rewrite Hdeg by done. simpl. rewrite decide_True by done. intros [=]; lia. }
  assert (Hne : forall v, v ∈ ids -> v <> x -> (<[x := n]> deg) !! v = deg !! v)
    by (intros; by rewrite lookup_insert_ne).
  do 2 eexists; split; [done|].
  destruct (Nat.eqb_spec n 0) as [Hn|Hn].
  - assert (Hel : l ++ wq_elems (wq_push x q) ≡ₚ x :: l ++ wq_elems q).
    { rewrite wq_push_elems by (rewrite elem_of_app in Hxq; tauto).
      by rewrite Permutation_middle. }
    constructor; [done|done| | |].
    + rewrite Hel. by constructor.
    + intros v. rewrite Hel. intros [->|Hv]%elem_of_cons; auto.
    + intros v Hv. rewrite Hel, elem_of_cons. destruct (decide (v = x)) as [->|Hvx].
      * rewrite lookup_insert_eq, Hn. naive_solver.
      * rewrite Hne by done. rewrite <-Hz by done. naive_solver.
  - constructor; [done|done|done|done|].
    intros v Hv. destruct (decide (v = x)) as [->|Hvx].
    + rewrite lookup_insert_eq. split; [done|]. intros [=]; lia.
    + rewrite Hne by done. by apply Hz.
Qed.

Lemma relax_all_inv pend deg q l :
  kahn_inv pend deg q l ->
  exists deg' q', relax_all pend (deg, q) = Done (deg', q') /\ kahn_inv [] deg' q' l.
Proof using Type.
  revert deg q; induction pend as [|x pend IH]; intros deg q Hinv; simpl; [eauto|].
  apply relax_inv in Hinv as (deg' & q' & -> & Hinv). simpl. by apply IH.
Qed.

Lemma kahn_inv_ready deg q l v :
  kahn_inv [] deg q l -> (v ∈ wq_elems q <-> ready l v).
Proof using Type.
  intros [Hdeg Hdom Hnd Hmem Hz]. unfold ready. split.
  - intros Hv. assert (Hvl : v ∈ l ++ wq_elems q) by (apply elem_of_app; auto).
    assert (Hvi := Hmem v Hvl). apply (Hz v Hvi) in Hvl. rewrite Hdeg in Hvl by done.
    injection Hvl as Hvl. simpl in Hvl. split; [done|]. split.
    + intros Hl. apply NoDup_app in Hnd as (_ & Hd & _). by apply (Hd v).
    + split; [lia|]. apply npred_zero. lia.
  - intros (Hvi & Hvl & He & Hp). apply npred_zero in Hp.
    assert (Hvz : deg !! v = Some 0) by (rewrite Hdeg by done; simpl; f_equal; lia).
    apply (Hz v Hvi), elem_of_app in Hvz. tauto.
Qed.

(** Popping a node turns its successors into pending targets. *)
Lemma kahn_inv_pop deg q l x q' :
  kahn_inv [] deg q l -> wq_pop q = Some (x, q') ->
  kahn_inv (succs x) deg q' (l ++ [x]).
Proof using ids_NoDup.
  intros [Hdeg Hdom Hnd Hmem Hz] Hpop. pose proof (wq_pop_Some _ _ _ Hpop) as Hel.
  assert (Hperm : (l ++ [x]) ++ wq_elems q' ≡ₚ l ++ wq_elems q).
  { by rewrite Hel, <-(assoc_L (++)). }
  assert (Hx : x ∈ ids) by (apply Hmem; rewrite Hel, elem_of_app, elem_of_cons; auto).
  assert (Hxl : x ∉ l).
  { rewrite Hel in Hnd. apply NoDup_app in Hnd as (_ & Hd & _). intros Hxl.
    apply (Hd x Hxl). left. }
  constructor; [|done| | |].
  - intros v Hv. rewrite Hdeg by done. simpl.
    rewrite (npred_snoc succs ids l x v) by done. f_equal. lia.
  - by rewrite Hperm.
  - intros v. rewrite Hperm. apply Hmem.
  - intros v Hv. rewrite Hperm. by apply Hz.
Qed.

Lemma kahn_inv_length deg q l :
  kahn_inv [] deg q l -> length l + length (wq_elems q) <= length ids.
Proof using Type.
  intros [_ _ Hnd Hmem _]. rewrite <-length_app. by apply submseteq_length, NoDup_submseteq.
Qed.

Lemma kahn_loop_inv fuel deg q l :
  kahn_inv [] deg q l -> kahn_order l -> length ids - length l <= fuel ->
  exists deg' l' q', kahn_loop fuel deg q l = Done (deg', l') /\
    kahn_inv [] deg' q' l' /\ wq_elems q' = [] /\ kahn_order l'.
Proof using ids_NoDup.
  revert deg q l; induction fuel as [|fuel IH]; intros deg q l Hinv Hord Hf; simpl.
  all: pose proof (kahn_inv_length _ _ _ Hinv) as Hlen.
  all: destruct (wq_pop q) as [[x q']|] eqn:Hpop;
         [|exists deg, l, q; split; [done|]; split; [done|]; split; [|done];
           by apply wq_pop_None].
  - apply wq_pop_Some in Hpop. rewrite Hpop in Hlen. simpl in Hlen. lia.
  - pose proof (kahn_inv_pop _ _ _ _ _ Hinv Hpop) as Hinv'.
    apply relax_all_inv in Hinv' as (deg' & q'' & -> & Hinv'). simpl. apply IH; [done| |].
    + eapply kahn_snoc; [done|done|]. intros v. by eapply kahn_inv_ready.
    + rewrite length_app. simpl. lia.
Qed.
End kahn.

(** ** What Kahn's algorithm computes *)

Section kahn_result.
Context {A Q : Type} `{Countable A} {wq : WorkQueue A Q}.
Context (succs : A -> list A) (ids : list A) (extra : A -> nat) (ids_NoDup : NoDup ids).

(** [u] must precede [v]. *)
Definition edge (u v : A) : Prop := u ∈ ids /\ v ∈ ids /\ v ∈ succs u.

Definition acyclic : Prop := forall x, ~ tc edge x x.

(** Every predecessor of a listed node is listed before it. *)
Definition topo_ordered (l : list A) : Prop :=
  forall l1 v l2 u, l = l1 ++ v :: l2 -> u ∈ ids -> v ∈ succs u -> u ∈ l1.

Lemma kahn_order_mem l : kahn_order succs ids extra l -> NoDup l /\ forall v, v ∈ l -> v ∈ ids.
Proof using Type.
  induction 1 as [|l x q q' Hl [Hnd Hm] Hpop Hq].
  - split; [constructor|]. intros v Hv. by apply elem_of_nil in Hv.
  - assert (Hr : ready succs ids extra l x) by (apply Hq; rewrite (wq_pop_Some _ _ _ Hpop); left).
    destruct Hr as (Hx & Hxl & _). split.
    + apply NoDup_app. split; [done|]. split; [|apply NoDup_singleton].
      intros y Hy ->%list_elem_of_singleton. done.
    + intros v [Hv| ->%list_elem_of_singleton]%elem_of_app; auto.
Qed.

Lemma kahn_order_topo l : kahn_order succs ids extra l -> topo_ordered l.
Proof using Type.
  induction 1 as [|l x q q' Hl IH Hpop Hq]; intros l1 v l2 u Heq Hu Hv.
  - by destruct l1.
  - assert (Hr : ready succs ids extra l x) by (apply Hq; rewrite (wq_pop_Some _ _ _ Hpop); left).
    destruct Hr as (_ & _ & _ & Hp).
    destruct l2 as [|y l2] using rev_ind.
    + apply app_inj_tail in Heq as [-> ->]. auto.
    + rewrite app_comm_cons, (assoc_L (++)) in Heq. apply app_inj_tail in Heq as [-> ->].
      by eapply IH.
Qed.

Lemma topo_ordered_tc l u v :
  (forall w, w ∈ l -> w ∈ ids) -> topo_ordered l -> tc edge u v ->
  forall l1 l2, l = l1 ++ v :: l2 -> u ∈ l1.
Proof using Type.
  intros Hmem Ht. induction 1 as [u v (Hu & Hv & Huv)|u w v (Hu & Hw & Huw) Hwv IH];
    intros l1 l2 Hl.
  - by eapply Ht.
  - specialize (IH _ _ Hl). apply list_elem_of_split in IH as (la & lb & ->).
    rewrite <-(assoc_L (++)) in Hl. simpl in Hl.
    apply elem_of_app. left. by eapply Ht.
Qed.

(** A complete ordering rules out every cycle. *)
Lemma topo_ordered_acyclic l :
  (forall w, w ∈ l <-> w ∈ ids) -> NoDup l -> topo_ordered l -> acyclic.
Proof using Type.
  intros Hmem Hnd Ht x Hx.
  assert (Hin : x ∈ l).
  { apply Hmem. by inversion Hx as [? ? (Hi & _)|? ? ? (Hi & _)]. }
  apply list_elem_of_split in Hin as (l1 & l2 & ->).
  apply NoDup_app in Hnd as (_ & Hd & _). apply (Hd x); [|left].
  refine (topo_ordered_tc _ x x _ Ht Hx l1 l2 eq_refl). intros w. apply Hmem.
Qed.

(** The result of the loop from the initial degrees and queue. *)
Record kahn_outcome (deg : gmap A nat) (l : list A) : Prop := {
  ko_order : kahn_order succs ids extra l;
  ko_nodup : NoDup l;
  ko_mem : forall v, v ∈ l -> v ∈ ids;
  ko_topo : topo_ordered l;
  ko_dom : forall v, is_Some (deg !! v) <-> v ∈ ids;
  ko_zero : forall v, v ∈ ids -> (v ∈ l <-> deg !! v = Some 0);
  ko_stuck : forall v, v ∈ ids -> v ∉ l ->
    extra v <> 0 \/ exists u, u ∈ ids /\ v ∈ succs u /\ u ∉ l
}.

Lemma kahn_loop_correct fuel deg q :
  (forall v, v ∈ ids -> deg !! v = Some (extra v + npred succs ids [] v)) ->
  (forall v, v ∉ ids -> deg !! v = None) ->
  NoDup (wq_elems q) ->
  (forall v, v ∈ wq_elems q <-> deg !! v = Some 0) ->
  length ids <= fuel ->
  exists deg' l, kahn_loop succs fuel deg q [] = Done (deg', l) /\ kahn_outcome deg' l.
Proof using ids_NoDup.
  intros Hdeg Hdom Hnd Hq Hf.
  assert (Hinv : kahn_inv succs ids extra [] deg q []).
  { constructor; simpl; auto.
    - intros v Hv. rewrite Hdeg by done. f_equal. lia.
    - intros v Hv. apply Hq in Hv. destruct (decide (v ∈ ids)); [done|].
      rewrite Hdom in Hv; done. }
  destruct (kahn_loop_inv succs ids extra ids_NoDup fuel deg q [] Hinv)
    as (deg' & l & q' & Hrun & Hinv' & Hempty & Hord); [constructor|simpl; lia|].
  exists deg', l. split; [done|].
  destruct (kahn_order_mem _ Hord) as [Hndl Hmem].
  pose proof (fun v => kahn_inv_ready succs ids extra _ _ _ v Hinv') as Hready.
  destruct Hinv' as [Hdeg' Hdom' Hnd' Hmem' Hz']. rewrite Hempty in *. rewrite app_nil_r in *.
  constructor; auto.
  - by apply kahn_order_topo.
  - intros v. destruct (decide (v ∈ ids)) as [Hv|Hv].
    + rewrite Hdeg' by done. naive_solver.
    + rewrite Hdom' by done. split; [by intros [? ?]|done].
  - intros v Hv Hvl. destruct (decide (extra v = 0)) as [He|He]; [right|by left].
    destruct (decide (Exists (fun u => v ∈ succs u /\ u ∉ l) ids)) as [Hex|Hex].
    + apply Exists_exists in Hex as (u & ? & ? & ?). eauto.
    + exfalso. apply not_Exists_Forall in Hex; [|intros ?; apply _].
      assert (Hr : ready succs ids extra l v).
      { repeat split; auto. intros u Hu Hvu. rewrite Forall_forall in Hex.
        destruct (decide (u ∈ l)); [done|]. by destruct (Hex u Hu). }
      apply Hready in Hr. by apply elem_of_nil in Hr.
Qed.

(** With every counted edge relaxed, the loop sorts everything exactly when
    the graph is acyclic. *)
Lemma kahn_outcome_complete deg l :
  (forall v, v ∈ ids -> extra v = 0) -> kahn_outcome deg l ->
  (length l = length ids <-> acyclic).
Proof using ids_NoDup.
  intros Hextra [Hord Hnd Hmem Htopo _ _ Hstuck].
  split.
  - intros Hlen. apply (topo_ordered_acyclic l); [|done|done].
    intros w. split; [apply Hmem|]. intros Hw.
    assert (Hp : l ≡ₚ ids).
    { apply submseteq_length_Permutation; [|lia]. by apply NoDup_submseteq. }
    by rewrite Hp.
  - intros Hac.
    destruct (decide (length l = length ids)) as [|Hne]; [done|exfalso].
    set (r := filter (fun v => v ∉ l) ids).
    destruct (no_source_cycle edge r) as (x & _ & Hx); [| |by apply (Hac x)].
    + intros Hr. apply Hne. apply Nat.le_antisymm.
      * by apply submseteq_length, NoDup_submseteq.
      * apply submseteq_length, NoDup_submseteq; [done|]. intros v Hv.
        destruct (decide (v ∈ l)); [done|].
        assert (Hvr : v ∈ r) by (by apply list_elem_of_filter).
        rewrite Hr in Hvr. by apply elem_of_nil in Hvr.
    + intros v Hv. apply list_elem_of_filter in Hv as [Hvl Hv].
      destruct (Hstuck v Hv Hvl) as [?|(u & Hu & Huv & Hul)]; [by rewrite Hextra in *|].
      exists u. split; [by apply list_elem_of_filter|]. done.
Qed.
End kahn_result.

(** ** Breadth-first search *)

Section bfs.
Context {A : Type} `{Countable A} (adj : A -> list A).

(** [while let Some(x) = queue.pop_front()
     { if !visited.insert(x) { continue; } queue.extend(adjacency of x) }]. *)
Fixpoint bfs_loop (fuel : nat) (queue : list A) (visited : gset A) : exec (gset A) :=
  match queue with
  | [] => Done visited
  | x :: queue' =>
      match fuel with
      | O => OutOfFuel
      | S fuel' =>
          if decide (x ∈ visited) then bfs_loop fuel' queue' visited
          else bfs_loop fuel' (queue' ++ adj x) ({[x]} ∪ visited)
      end
  end.

(** The number of queue entries the nodes outside [visited] can still add. *)
Fixpoint unvisited_weight (nodes : list A) (visited : gset A) : nat :=
  match nodes with
  | [] => 0
  | x :: nodes' =>
      (if decide (x ∈ visited) then 0 else length (adj x)) + unvisited_weight nodes' visited
  end.

Definition adj_rel (x y : A) : Prop := y ∈ adj x.

Lemma unvisited_weight_mono nodes v x :
  unvisited_weight nodes ({[x]} ∪ v) <= unvisited_weight nodes v.
Proof.
  induction nodes as [|y nodes IH]; simpl; [lia|].
  destruct (decide (y ∈ {[x]} ∪ v)), (decide (y ∈ v)); set_solver by lia.
Qed.

Lemma unvisited_weight_visit nodes v x :
  x ∈ nodes -> x ∉ v ->
  length (adj x) + unvisited_weight nodes ({[x]} ∪ v) <= unvisited_weight nodes v.
Proof.
  intros Hx Hv. induction nodes as [|y nodes IH]; [by apply elem_of_nil in Hx|]. simpl.
  pose proof (unvisited_weight_mono nodes v x) as Hm.
  apply elem_of_cons in Hx as [->|Hx].
  - rewrite decide_True by set_solver. rewrite decide_False by done. lia.
  - specialize (IH Hx). destruct (decide (y ∈ {[x]} ∪ v)), (decide (y ∈ v)); set_solver by lia.
Qed.

(** [r] is what a closed set of visited nodes holds. *)
Definition reachable_from (start : list A) (x : A) : Prop :=
  exists s, s ∈ start /\ rtc adj_rel s x.

Lemma closed_reachable start (visited : gset A) :
  (forall x, x ∈ start -> x ∈ visited) ->
  (forall x, x ∈ visited -> reachable_from start x) ->
  (forall x y, x ∈ visited -> y ∈ adj x -> y ∈ visited) ->
  forall x, x ∈ visited <-> reachable_from start x.
Proof.
  intros Hstart Hsound Hclosed x. split; [apply Hsound|].
  intros (s & Hs & Hr). induction Hr as [s|s y z Hsy Hr IH]; [auto|].
  assert (Hrest : forall s z, s ∈ visited -> rtc adj_rel s z -> z ∈ visited).
  { intros s' z' Hs' Hr'. induction Hr'; eauto. }
  eapply Hrest; [|exact Hr]. eapply Hclosed; eauto.
Qed.

Lemma bfs_loop_spec nodes start fuel queue visited :
  (forall x, adj x <> [] -> x ∈ nodes) ->
  length queue + unvisited_weight nodes visited <= fuel ->
  (forall x, x ∈ start -> x ∈ visited \/ x ∈ queue) ->
  (forall x, x ∈ visited \/ x ∈ queue -> reachable_from start x) ->
  (forall x y, x ∈ visited -> y ∈ adj x -> y ∈ visited \/ y ∈ queue) ->
  exists r, bfs_loop fuel queue visited = Done r /\
    forall x, x ∈ r <-> reachable_from start x.
Proof.
  intros Hnodes. revert queue visited.
  induction fuel as [|fuel IH]; intros [|x queue] visited Hf Hstart Hsound Hclosed; simpl.
  1, 3: exists visited; split; [done|]; apply closed_reachable;
    [intros y Hy; destruct (Hstart y Hy) as [?|Hn]; [done|by apply elem_of_nil in Hn]
    |auto
    |intros y z Hy Hz; destruct (Hclosed y z Hy Hz) as [?|Hn]; [done|by apply elem_of_nil in Hn]].
  - simpl in Hf. lia.
  - simpl in Hf. case_decide as Hx.
    + apply IH; [lia| | |].
      * intros y Hy. destruct (Hstart y Hy) as [?|[->|?]%elem_of_cons]; auto.
      * intros y [Hy|Hy]; apply Hsound; [auto|right; by right].
      * intros y z Hy Hz. destruct (Hclosed y z Hy Hz) as [?|[->|?]%elem_of_cons]; auto.
    + apply IH.
      * rewrite length_app. destruct (decide (adj x = [])) as [He|He].
        -- rewrite He. simpl. pose proof (unvisited_weight_mono nodes visited x). lia.
        -- pose proof (unvisited_weight_visit nodes visited x (Hnodes x He) Hx). lia.
      * intros y Hy. rewrite elem_of_app. destruct (Hstart y Hy) as [?|[->|?]%elem_of_cons];
          set_solver.
      * intros y Hy. rewrite elem_of_app in Hy.
        assert (Hcase : y ∈ visited \/ y ∈ x :: queue \/ y ∈ adj x) by set_solver.
        destruct Hcase as [?|[?|Hadj]]; [by apply Hsound; auto..|].
        destruct (Hsound x) as (s & Hs & Hr); [right; left|]. exists s. split; [done|].
        eapply rtc_r; [exact Hr|done].
      * intros y z Hy Hz. rewrite elem_of_app.
        destruct (decide (y = x)) as [->|Hne]; [by right; right|].
        destruct (Hclosed y z) as [?|[->|?]%elem_of_cons]; set_solver.
Qed.
End bfs.

(** ** In-degree counting *)

Section degrees.
Context {A : Type} `{Countable A}.

(** [if let Some(degree) = in_degree.get_mut(x) { *degree += 1; }]. *)
Definition bump (deg : gmap A nat) (x : A) : gmap A nat :=
  match deg !! x with
  | Some n => <[x := S n]> deg
  | None => deg
  end.

Lemma occ_app (v : A) l1 l2 : occ v (l1 ++ l2) = occ v l1 + occ v l2.
Proof. induction l1 as [|x l1 IH]; simpl; [done|]. case_decide; lia. Qed.

Lemma occ_perm (v : A) l1 l2 : l1 ≡ₚ l2 -> occ v l1 = occ v l2.
Proof. induction 1; simpl; repeat case_decide; lia. Qed.

Lemma foldl_bump deg l v : foldl bump deg l !! v = (fun n => n + occ v l) <$> deg !! v.
Proof.
  revert deg; induction l as [|x l IH]; intros deg; simpl.
  - destruct (deg !! v); simpl; [f_equal; lia|done].
  - rewrite IH. unfold bump. destruct (decide (v = x)) as [->|Hne].
    + destruct (deg !! x) eqn:Hx; [|by rewrite Hx].
      rewrite lookup_insert_eq. simpl. f_equal. lia.
    + destruct (deg !! x); [by rewrite lookup_insert_ne|done].
Qed.

Lemma npred_occ (succs : A -> list A) ids v :
  npred succs ids [] v = occ v (flat_map succs ids).
Proof.
  induction ids as [|u ids IH]; simpl; [done|]. by rewrite occ_app, IH.
Qed.
End degrees.

(** A list that respects [R] holds no element of a set whose members all have a
    predecessor in the set. *)
Lemma ordered_not_stuck {A} (R : relation A) (stuck : A -> Prop) (l : list A) :
  (forall l1 v l2 u, l = l1 ++ v :: l2 -> R u v -> u ∈ l1) ->
  (forall v, v ∈ l -> stuck v -> exists u, R u v /\ stuck u) ->
  forall v, v ∈ l -> ~ stuck v.
Proof.
  intros Hord Hstuck.
  assert (Hpre : forall n v, l !! n = Some v -> ~ stuck v).
  { induction n as [n IH] using lt_wf_ind. intros v Hv Hs.
    destruct (Hstuck v) as (u & Huv & Hu); [by eapply list_elem_of_lookup_2|done|].
    assert (Hin : u ∈ take n l) by (eapply Hord; [|exact Huv]; symmetry; by apply take_drop_middle).
    apply list_elem_of_lookup in Hin as [m Hm]. apply lookup_take_Some in Hm as [Hm Hlt].
    by eapply IH. }
  intros v [n Hn]%list_elem_of_lookup. by eapply Hpre.
Qed.

(** Popping the least ready node makes every step of the order the least choice. *)
Lemma kahn_order_least {A} `{Countable A, RustOrd A} succs ids extra (l : list A) :
  kahn_order (Q := gset A) succs ids extra l ->
  forall l1 x l2 y, l = l1 ++ x :: l2 -> ready succs ids extra l1 y -> rust_leb x y = true.
Proof.
  induction 1 as [|l x q q' Hl IH Hpop Hq]; intros l1 z l2 y Heq Hy; [by destruct l1|].
  destruct l2 as [|w l2 _] using rev_ind.
  - apply app_inj_tail in Heq as [-> ->]. apply pop_first_Some in Hpop as (_ & _ & Hmin).
    apply Hmin. apply Hq in Hy. by apply elem_of_elements in Hy.
  - rewrite app_comm_cons, (assoc_L (++)) in Heq. apply app_inj_tail in Heq as [-> ->].
    by eapply IH.
Qed.
