(* ===== verification/Ir.v ===== *)
(** Shared data of the intermediate representation ([slicer-ir], with the key
    aliases of [slicer-config]): identifiers, versions, config values and views,
    regions and layers, paint variants, support families, entity identifiers and
    the enumeration of paint variant chains.

    Floating-point numbers are only carried by the modelled code, never computed
    with: [f32] and [f64] hold the bit pattern ([to_bits]). *)
From Stdlib Require Import Ascii.
From stdpp Require Import prelude gmap strings list.
From S2P Require Import Prelude.

#[local] Open Scope string_scope.
#[local] Open Scope list_scope.

Notation ModuleId := string (only parsing).
Notation StageId := string (only parsing).
Notation ObjectId := string (only parsing).
Notation ConfigKey := string (only parsing).
(** [u32] and [u64] values. *)
Definition u32_max : Z := 4294967295.
Definition u64_max : Z := 18446744073709551615.
Notation RegionId := Z (only parsing).

Record f32 := F32 { f32_bits : Z }.
Record f64 := F64 { f64_bits : Z }.
#[export] Instance f32_eq_dec : EqDecision f32.
Proof. solve_decision. Defined.
#[export] Instance f64_eq_dec : EqDecision f64.
Proof. solve_decision. Defined.

(** [f64::is_subnormal]: a zero exponent field and a non-zero mantissa. *)
Definition f64_is_subnormal (x : f64) : bool :=
  Z.eqb (Z.land (Z.shiftr (f64_bits x) 52) 2047) 0
  && negb (Z.eqb (Z.land (f64_bits x) (Z.ones 52)) 0).

(** ** Versions *)

Record SemVer := { sv_major : Z; sv_minor : Z; sv_patch : Z }.
#[export] Instance SemVer_eq_dec : EqDecision SemVer.
Proof. solve_decision. Defined.

Definition SemVer_default : SemVer := {| sv_major := 0; sv_minor := 0; sv_patch := 0 |}.

(** ** Region splits and paint values *)

Inductive RegionSplitValueType := Flag | ToolIndex | CustomString.
#[export] Instance RegionSplitValueType_eq_dec : EqDecision RegionSplitValueType.
Proof. solve_decision. Defined.

Record AggregatedRegionSplitEntry := {
  ars_priority : Z;
  ars_value_type : RegionSplitValueType;
  ars_declaring_modules : list ModuleId
}.
#[export] Instance AggregatedRegionSplitEntry_eq_dec : EqDecision AggregatedRegionSplitEntry.
Proof. solve_decision. Defined.

Inductive PaintSemantic :=
| Material
| FuzzySkin
| SupportEnforcer
| SupportBlocker
| CustomSemantic (name : string).
#[export] Instance PaintSemantic_eq_dec : EqDecision PaintSemantic.
Proof. solve_decision. Defined.

Inductive PaintValue :=
| PaintFlag (b : bool)
| PaintScalar (x : f32)
| PaintToolIndex (i : Z)
| PaintCustom (s : string).
#[export] Instance PaintValue_eq_dec : EqDecision PaintValue.
Proof. solve_decision. Defined.

(** ** Config values and views *)

#[local] Unset Elimination Schemes.
Inductive ConfigValue :=
| CvBool (b : bool)
| CvInt (i : Z)
| CvFloat (x : f64)
| CvString (s : string)
| CvList (l : list ConfigValue)
| CvPercent (x : f64)
| CvFloatOrPercent (x : f64) (is_percent : bool).
#[local] Set Elimination Schemes.

(** [PartialEq]: numbers are compared by their bits. *)
#[export] Instance ConfigValue_eq_dec : EqDecision ConfigValue.
Proof.
  refine (fix go x y :=
    let _ : EqDecision ConfigValue := @go in
    match x, y with
    | CvBool a, CvBool b => cast_if (decide (a = b))
    | CvInt a, CvInt b => cast_if (decide (a = b))
    | CvFloat a, CvFloat b => cast_if (decide (a = b))
    | CvString a, CvString b => cast_if (decide (a = b))
    | CvList a, CvList b => cast_if (decide (a = b))
    | CvPercent a, CvPercent b => cast_if (decide (a = b))
    | CvFloatOrPercent a p, CvFloatOrPercent b q => cast_if_and (decide (a = b)) (decide (p = q))
    | _, _ => right _
    end); abstract congruence.
Defined.

Record ConfigView := { cv_fields : gmap ConfigKey ConfigValue }.

(** [ConfigView::from_declared]: only declared keys that are present survive. *)
Definition from_declared (source : gmap ConfigKey ConfigValue) (declared : list string)
    : ConfigView :=
  {| cv_fields :=
       foldl (fun fields key =>
                match source !! key with
                | Some value => <[key := value]> fields
                | None => fields
                end) ∅ declared |}.

Definition cv_get (v : ConfigView) (key : string) : option ConfigValue := cv_fields v !! key.

(** [ConfigView::keys]: sorted. *)
Definition cv_keys (v : ConfigView) : list string := sort ((map_to_list (cv_fields v)).*1).

Definition cv_contains_key (v : ConfigView) (key : string) : bool :=
  match cv_fields v !! key with Some _ => true | None => false end.

Lemma from_declared_lookup source declared key :
  cv_fields (from_declared source declared) !! key =
  if decide (key ∈ declared) then source !! key else None.
Proof.
  unfold from_declared; simpl.
  enough (Hgen : forall acc : gmap string ConfigValue,
    foldl (fun fields key => match source !! key with
                             | Some value => <[key := value]> fields
                             | None => fields end) acc declared !! key =
    if decide (key ∈ declared)
    then match source !! key with Some v => Some v | None => acc !! key end
    else acc !! key).
  { rewrite Hgen, lookup_empty. case_decide; [|done]. by case_match. }
  induction declared as [|k declared IH]; intros acc; simpl; [done|].
  rewrite IH. destruct (source !! k) as [v|] eqn:Hk.
  - destruct (decide (key = k)) as [->|Hne].
    + rewrite Hk, lookup_insert_eq. rewrite (decide_True (P := k ∈ k :: declared)) by left.
      by case_decide.
    + rewrite lookup_insert_ne by done.
      destruct (decide (key ∈ declared)), (decide (key ∈ k :: declared)) as [Hd|Hd]; try done.
      * by destruct Hd; right.
      * by apply elem_of_cons in Hd as [?|?].
  - destruct (decide (key ∈ declared)), (decide (key ∈ k :: declared)) as [Hd|Hd]; try done.
    + by destruct Hd; right.
    + apply elem_of_cons in Hd as [->|?]; [|done]. by rewrite Hk.
Qed.

Lemma elem_of_cv_keys v key : key ∈ cv_keys v <-> is_Some (cv_fields v !! key).
Proof.
  unfold cv_keys, sort, is_Some. rewrite elem_of_sort_by, list_elem_of_fmap.
  setoid_rewrite <-elem_of_map_to_list.
  split; [intros ([k x] & -> & ?); eauto|intros (x & ?); exists (key, x); eauto].
Qed.

(** Legacy spellings of config keys ([slicer_config::CONFIG_KEY_ALIASES]). *)
Definition CONFIG_KEY_ALIASES : list (string * string) :=
  [("first_layer_line_width", "initial_layer_line_width");
   ("support_overhang_angle", "support_threshold_angle")].

Fixpoint first_alias (aliases : list (string * string)) (key : string) : string :=
  match aliases with
  | [] => key
  | (legacy, canonical) :: rest =>
      if String.eqb key legacy then canonical else first_alias rest key
  end.

Definition canonical_config_key (key : string) : string := first_alias CONFIG_KEY_ALIASES key.

(** A config schema entry of a module manifest. *)
Record ConfigFieldEntry := {
  cfe_field_type : string;
  cfe_default : option string;
  cfe_parsed_default : option ConfigValue;
  cfe_min : option f64;
  cfe_max : option f64;
  cfe_step : option f64;
  cfe_display : option string;
  cfe_description : option string;
  cfe_group : option string;
  cfe_unit : option string;
  cfe_advanced : bool;
  cfe_values : option (list string);
  cfe_max_length : option Z;
  cfe_min_list_length : option Z;
  cfe_max_list_length : option Z;
  cfe_tags : list string;
  cfe_selector : bool;
  cfe_base_key : option string;
  cfe_denied_scopes : list string;
  cfe_omit_from_config_block : bool
}.

Record ConfigSchema := { cs_entries : gmap string ConfigFieldEntry }.

(** ** Support types and families *)

Inductive SupportType := NormalAuto | TreeAuto | NormalManual | TreeManual.
#[export] Instance SupportType_eq_dec : EqDecision SupportType.
Proof. solve_decision. Defined.

Definition is_auto (t : SupportType) : bool :=
  match t with NormalAuto | TreeAuto => true | _ => false end.

Definition is_tree (t : SupportType) : bool :=
  match t with TreeAuto | TreeManual => true | _ => false end.

Definition as_canonical_str (t : SupportType) : string :=
  match t with
  | NormalAuto => "normal(auto)"
  | TreeAuto => "tree(auto)"
  | NormalManual => "normal(manual)"
  | TreeManual => "tree(manual)"
  end.

Definition family_claim (t : SupportType) : option string :=
  match t with
  | NormalAuto => None
  | other => Some (as_canonical_str other)
  end.

Definition from_canonical_str (value : string) : option SupportType :=
  if String.eqb value "normal(auto)" then Some NormalAuto
  else if String.eqb value "tree(auto)" then Some TreeAuto
  else if String.eqb value "normal(manual)" then Some NormalManual
  else if String.eqb value "tree(manual)" then Some TreeManual
  else None.

Definition SUPPORT_FAMILY_TREE : string := "tree".
Definition SUPPORT_FAMILY_TRADITIONAL : string := "traditional".

Definition canonical_support_family (value : option string) : string :=
  match value with
  | Some value =>
      if starts_with "tree" value || starts_with "hybrid" value
      then SUPPORT_FAMILY_TREE else SUPPORT_FAMILY_TRADITIONAL
  | None => SUPPORT_FAMILY_TRADITIONAL
  end.

(** ** Resolved config, regions and layers *)

(** [ResolvedConfig] is generated by a macro from a list of field rows.
    Kept here: the fields the modelled code reads, [extensions], and
    [rc_rendered], the map that the generated arms of [to_config_map] fill from
    the declared fields before the extensions are merged. *)
Record ResolvedConfig := {
  rc_support_type : SupportType;
  rc_top_fill_holder : string;
  rc_bottom_fill_holder : string;
  rc_bridge_fill_holder : string;
  rc_sparse_fill_holder : string;
  rc_fill_authored_coloring : list string;
  rc_rendered : gmap ConfigKey ConfigValue;
  rc_extensions : gmap ConfigKey ConfigValue
}.

(** [to_config_map]: an extension shadows a declared key. *)
Definition to_config_map (cfg : ResolvedConfig) : gmap ConfigKey ConfigValue :=
  rc_extensions cfg ∪ rc_rendered cfg.

Record NonPlanarShellRef := { nps_surface_group_id : Z; nps_shell_index : Z }.

Record ActiveRegion := {
  ar_object_id : ObjectId;
  ar_region_id : RegionId;
  ar_resolved_config : ResolvedConfig;
  ar_effective_layer_height : f32;
  ar_nonplanar_shell : option NonPlanarShellRef;
  ar_is_catchup_layer : bool;
  ar_catchup_z_bottom : f32;
  ar_tool_index : Z
}.

Record GlobalLayer := {
  gl_index : Z;
  gl_z : f32;
  gl_active_regions : list ActiveRegion;
  gl_has_nonplanar : bool;
  gl_is_sync_layer : bool;
  gl_is_raft : bool
}.

(** A region key: [variant_chain] distinguishes paint variants of one region. *)
Record RegionKey := {
  rk_global_layer_index : Z;
  rk_object_id : ObjectId;
  rk_region_id : RegionId;
  rk_variant_chain : list (string * PaintValue)
}.
#[export] Instance RegionKey_eq_dec : EqDecision RegionKey.
Proof. solve_decision. Defined.

Record ModuleInvocation := { mi_module_id : ModuleId; mi_config_view : ConfigView }.

(** [paint_overrides] is a [BTreeMap]; the modelled code never looks into it. *)
Record RegionPlan := {
  rp_config : Z;
  rp_stage_modules : gmap StageId (list ModuleInvocation);
  rp_paint_overrides : list (PaintSemantic * ResolvedConfig)
}.

Definition DEFAULT_REGION_MAP_CAP : Z := 750000.

(** ** Entity identifiers ([LayerEntityIdGen]) *)

Module EntityId.
(** The generator holds the next identifier, a [u64]. *)
Record LayerEntityIdGen := { next_id : Z }.

Definition new : LayerEntityIdGen := {| next_id := 1 |}.

(** [next]: [id = next.max(1); next = id + 1] with release-build wrap-around. *)
Definition next (g : LayerEntityIdGen) : Z * LayerEntityIdGen :=
  let id := Z.max (next_id g) 1 in
  (id, {| next_id := (id + 1) `mod` (u64_max + 1) |})%Z.

(** The first [n] identifiers issued. *)
Fixpoint issue (n : nat) (g : LayerEntityIdGen) : list Z :=
  match n with
  | O => []
  | S n' => let r := next g in r.1 :: issue n' r.2
  end.

(** Generators that can be met: a fresh one advanced some number of times. *)
Lemma issue_lookup n k next0 :
  (1 <= next0)%Z -> (next0 + Z.of_nat n <= u64_max + 1)%Z -> k < n ->
  issue n {| next_id := next0 |} !! k = Some (next0 + Z.of_nat k)%Z.
Proof.
  revert k next0; induction n as [|n IH]; intros k next0 Hlo Hhi Hk; [lia|].
  cbn [issue]. unfold next; cbn [next_id fst snd].
  rewrite Z.max_l by lia. destruct k as [|k]; simpl; [f_equal; lia|].
  destruct n as [|n']; [lia|].
  rewrite Z.mod_small by lia. rewrite IH by lia. f_equal; lia.
Qed.
End EntityId.

(** ** Paint variant chains ([region_split_registry]) *)

Section chains.
Context (variants : gmap string (list PaintValue)).

(** [build]: depth first, the branch that omits the semantic first. *)
Fixpoint build (acc : list (string * PaintValue)) (canonical_order : list string)
    : list (list (string * PaintValue)) :=
  match canonical_order with
  | [] => [acc]
  | sem :: rest =>
      build acc rest ++
      match variants !! sem with
      | Some values => flat_map (fun v => build (acc ++ [(sem, v)]) rest) values
      | None => []
      end
  end.

Definition enumerate_canonical_chains (canonical_order : list string)
    : list (list (string * PaintValue)) := build [] canonical_order.

Definition values_of (sem : string) : list PaintValue := default [] (variants !! sem).

(** A chain of the enumeration: a subsequence of the order, one value each. *)
Inductive chain_of : list string -> list (string * PaintValue) -> Prop :=
| chain_end : chain_of [] []
| chain_omit sem rest c : chain_of rest c -> chain_of (sem :: rest) c
| chain_take sem rest v c :
    v ∈ values_of sem -> chain_of rest c -> chain_of (sem :: rest) ((sem, v) :: c).

Lemma build_spec acc order c :
  c ∈ build acc order <-> exists c', c = acc ++ c' /\ chain_of order c'.
Proof.
  revert acc c; induction order as [|sem rest IH]; intros acc c; simpl.
  - rewrite list_elem_of_singleton. split.
    + intros ->. exists []. rewrite app_nil_r. split; [done|constructor].
    + intros (c' & -> & Hc). inversion Hc. by rewrite app_nil_r.
  - rewrite elem_of_app, IH. split.
    + intros [(c' & -> & Hc)|Hin].
      * exists c'. split; [done|by constructor].
      * destruct (variants !! sem) as [values|] eqn:Hv; [|by apply elem_of_nil in Hin].
        apply list_elem_of_In, in_flat_map in Hin as (v & Hvin & Hin).
        apply list_elem_of_In, IH in Hin as (c' & -> & Hc).
        exists ((sem, v) :: c'). rewrite <-(assoc_L (++)). split; [done|].
        constructor; [|done]. unfold values_of. rewrite Hv. by apply list_elem_of_In.
    + intros (c' & -> & Hc). inversion Hc as [|? ? ? Hc'|? ? v c'' Hvin Hc']; subst.
      * left. eauto.
      * right. unfold values_of in Hvin.
        destruct (variants !! sem) as [values|]; [|by apply elem_of_nil in Hvin].
        apply list_elem_of_In, in_flat_map. exists v. simpl in Hvin.
        split; [by apply list_elem_of_In|]. apply list_elem_of_In, IH.
        exists c''. by rewrite <-(assoc_L (++)).
Qed.

Lemma length_build acc order :
  length (build acc order) =
  foldr (fun sem n => (1 + length (values_of sem)) * n) 1 order.
Proof.
  revert acc; induction order as [|sem rest IH]; intros acc; simpl; [done|].
  rewrite length_app, IH. set (n := foldr _ _ rest). f_equal. unfold values_of.
  destruct (variants !! sem) as [values|]; simpl; [|done].
  induction values as [|v values IHv]; simpl; [done|].
  rewrite length_app, IH, IHv. done.
Qed.
End chains.
