(* ===== verification/Float32.v ===== *)
(** Single-precision numbers and lengths in machine units
    ([slicer-ir/src/slice_ir.rs], [mm_to_units] and [units_to_mm]).

    A stored [f32] is its bit pattern ([Ir.f32]).  [decode] gives it its value in the
    binary32 arithmetic of [SpecFloat], where the comparisons, the conversions and
    the two length conversions are computed; [encode] goes back.  The last part bounds
    what rounding can do: the conversion of an [i64] never leaves the finite range. *)
From Stdlib Require Import Floats.SpecFloat.
From stdpp Require Import prelude.
From S2P Require Import Prelude Ir.

#[local] Open Scope Z_scope.

(** ** Machine integers *)

Definition i64_min : Z := -9223372036854775808.
Definition i64_max : Z := 9223372036854775807.

(** [i64] and [u32] arithmetic of a release build: modulo the width. *)
Definition wrap_i64 (v : Z) : Z := (v + 9223372036854775808) `mod` 18446744073709551616 - 9223372036854775808.
Definition wrap_u32 (v : Z) : Z := v `mod` 4294967296.
Definition abs_i64 (v : Z) : Z := wrap_i64 (Z.abs v).

Lemma wrap_i64_small v : i64_min <= v <= i64_max -> wrap_i64 v = v.
Proof. unfold i64_min, i64_max, wrap_i64. intros Hv. rewrite Z.mod_small; lia. Qed.

Lemma wrap_u32_small v : 0 <= v <= u32_max -> wrap_u32 v = v.
Proof. unfold u32_max, wrap_u32. intros Hv. rewrite Z.mod_small; lia. Qed.

(** ** Values and bit patterns *)

Definition decode (x : f32) : spec_float :=
  let sign := Z.testbit (f32_bits x) 31 in
  let exponent := Z.land (Z.shiftr (f32_bits x) 23) 255 in
  let mantissa := Z.land (f32_bits x) (Z.ones 23) in
  if exponent =? 255 then (if mantissa =? 0 then S754_infinity sign else S754_nan)
  else if exponent =? 0 then
    match mantissa with
    | Zpos m => S754_finite sign m (-149)
    | _ => S754_zero sign
    end
  else S754_finite sign (Z.to_pos (mantissa + 8388608)) (exponent - 150).

Definition sign_bit (s : bool) : Z := if s then 2147483648 else 0.

Definition encode (x : spec_float) : f32 :=
  F32 match x with
      | S754_zero s => sign_bit s
      | S754_infinity s => sign_bit s + 2139095040
      | S754_nan => 2143289344
      | S754_finite s m e =>
          if Zpos m <? 8388608 then sign_bit s + Zpos m
          else sign_bit s + Z.shiftl (e + 150) 23 + (Zpos m - 8388608)
      end.

(** [==], [<], [<=] of [f32]: a NaN compares with nothing, the two zeros are equal. *)
Definition f32_eqb (x y : f32) : bool := SFeqb (decode x) (decode y).
Definition f32_ltb (x y : f32) : bool := SFltb (decode x) (decode y).
Definition f32_leb (x y : f32) : bool := SFleb (decode x) (decode y).

Definition ZERO : f32 := F32 0.
Definition ONE : f32 := F32 1065353216.

Definition sf_is_finite (x : spec_float) : bool :=
  match x with
  | S754_zero _ | S754_finite _ _ _ => true
  | S754_infinity _ | S754_nan => false
  end.

(** [f32::is_finite] and [z < 0.0] on a bit pattern. *)
Definition f32_is_finite (z : f32) : bool := negb (Z.eqb ((f32_bits z / 2 ^ 23) `mod` 256) 255).
Definition f32_lt_zero (z : f32) : bool :=
  (2 ^ 31 <=? f32_bits z) && (0 <? f32_bits z `mod` 2 ^ 31) && (f32_bits z `mod` 2 ^ 31 <=? 2139095040).

(** ** Lengths *)

(** [units as f32]: round to nearest, ties to even. *)
Definition as_f32 (units : Z) : spec_float := binary_normalize 24 128 units 0 false.

(** [UNITS_PER_MM as f32], that is 10000. *)
Definition UNITS_PER_MM : spec_float := S754_finite false 10240000 (-10).

Definition units_to_mm (units : Z) : spec_float := SFdiv 24 128 (as_f32 units) UNITS_PER_MM.

(** [f32::round] (half away from zero) followed by [as i64] (saturating, NaN to 0). *)
Definition round_as_i64 (x : spec_float) : Z :=
  match x with
  | S754_zero _ | S754_nan => 0
  | S754_infinity s => if s then i64_min else i64_max
  | S754_finite s m e =>
      let n := if 0 <=? e then Zpos m * 2 ^ e else (2 * Zpos m + 2 ^ (- e)) / 2 ^ (1 - e) in
      Z.max i64_min (Z.min i64_max (if s then - n else n))
  end.

Definition mm_to_units (mm : f32) : Z := round_as_i64 (SFmul 24 128 (decode mm) UNITS_PER_MM).

Definition COORDINATE_TOLERANCE_UNITS : Z := 10.

Lemma round_as_i64_range x : i64_min <= round_as_i64 x <= i64_max.
Proof. unfold round_as_i64, i64_min, i64_max. destruct x as [|[]| |]; lia. Qed.

Lemma mm_to_units_range mm : i64_min <= mm_to_units mm <= i64_max.
Proof. apply round_as_i64_range. Qed.

(** ** No [i64] leaves the finite range

    The exponent of a rounded number is bounded by the position of the leading bit. *)

Lemma Zdigits2_log2 m : 0 < m -> Zdigits2 m = Z.log2 m + 1.
Proof.
  destruct m as [|p|p]; [lia | | lia]. intros _. unfold Zdigits2.
  induction p as [p IH | p IH |]; cbn [digits2_pos]; [| | done];
    rewrite Pos2Z.inj_succ, IH;
    [rewrite Pos2Z.inj_xI, Z.log2_succ_double | rewrite Pos2Z.inj_xO, Z.log2_double]; lia.
Qed.

Lemma Zdigits2_le m b : 0 <= m -> 0 <= b -> m < 2 ^ b -> Zdigits2 m <= b.
Proof.
  intros Hm Hb H. destruct (Z.eq_dec m 0) as [-> |]; [done |].
  rewrite Zdigits2_log2 by lia. assert (Z.log2 m < b) by (apply Z.log2_lt_pow2; lia). lia.
Qed.

Lemma Zdigits2_upper m : 0 <= m -> 0 <= Zdigits2 m /\ m < 2 ^ Zdigits2 m.
Proof.
  intros Hm. destruct (Z.eq_dec m 0) as [-> |]; [done |].
  rewrite Zdigits2_log2 by lia. pose proof (Z.log2_nonneg m). split; [lia |].
  apply Z.log2_spec. lia.
Qed.

Lemma shr_1_half r : 0 <= shr_m r -> shr_m (shr_1 r) = shr_m r / 2.
Proof.
  destruct r as [m b s]. simpl. intros Hm. rewrite <- Z.div2_div.
  destruct m as [|[]|]; simpl; done.
Qed.

Lemma iter_shr n r :
  0 <= shr_m r -> shr_m (SpecFloat.iter_pos shr_1 n r) = shr_m r / 2 ^ Zpos n.
Proof.
  revert r. induction n as [n IH | n IH |]; intros r Hr; cbn [SpecFloat.iter_pos].
  - assert (0 <= shr_m (shr_1 r)) as H1 by (rewrite shr_1_half by done; apply Z.div_pos; lia).
    assert (0 <= shr_m (SpecFloat.iter_pos shr_1 n (shr_1 r))) as H2 by (rewrite IH by done; apply Z.div_pos; lia).
    rewrite !IH, shr_1_half, !Z.div_div by lia. f_equal.
    replace (Zpos n~1) with (1 + Zpos n + Zpos n) by lia. rewrite !Z.pow_add_r, Z.pow_1_r by lia. ring.
  - assert (0 <= shr_m (SpecFloat.iter_pos shr_1 n r)) as H2 by (rewrite IH by done; apply Z.div_pos; lia).
    rewrite !IH, Z.div_div by lia. f_equal.
    replace (Zpos n~0) with (Zpos n + Zpos n) by lia. by rewrite Z.pow_add_r by lia.
  - by apply shr_1_half.
Qed.

(** Shifting to the exponent [e + n]: the mantissa loses [n] bits. *)
Lemma shr_spec r e n r' e' :
  0 <= shr_m r -> shr r e n = (r', e') ->
  e' = e + Z.max 0 n /\ shr_m r' = shr_m r / 2 ^ Z.max 0 n.
Proof.
  intros Hr. destruct n as [|p|p]; simpl; intros [= <- <-].
  - by rewrite Z.add_0_r, Z.div_1_r.
  - rewrite Z.max_r by lia. split; [done |]. by apply iter_shr.
  - by rewrite Z.max_l, Z.add_0_r, Z.div_1_r by lia.
Qed.

Lemma shr_record_mantissa m l : shr_m (shr_record_of_loc m l) = m.
Proof. by destruct l as [|[]]. Qed.

Lemma shr_fexp_spec m e l r' e' :
  0 <= m -> shr_fexp 24 128 m e l = (r', e') ->
  0 <= shr_m r' /\ e' = Z.max e (Z.max (Zdigits2 m + e - 24) (-149)) /\ Zdigits2 (shr_m r') + e' <= Z.max (Zdigits2 m + e) e'.
Proof.
  intros Hm. unfold shr_fexp. intros H. apply shr_spec in H as [He Hr]; rewrite shr_record_mantissa in *; [|done].
  unfold fexp, emin in *. simpl in *.
  set (n := Z.max 0 _) in *. assert (0 <= n) by lia.
  destruct (Zdigits2_upper m Hm) as [Hd Hlt].
  assert (0 <= shr_m r') by (rewrite Hr; apply Z.div_pos; lia).
  split; [done |]. split; [lia |].
  destruct (Z.le_ge_cases n (Zdigits2 m)).
  - assert (Zdigits2 (shr_m r') <= Zdigits2 m - n); [|lia].
    apply Zdigits2_le; [done | lia |]. rewrite Hr. apply Z.div_lt_upper_bound; [lia |].
    rewrite <- Z.pow_add_r by lia. by replace (n + (Zdigits2 m - n)) with (Zdigits2 m) by lia.
  - replace (shr_m r') with 0; [simpl; lia |]. rewrite Hr. symmetry. apply Z.div_small.
    split; [done |]. eapply Z.lt_le_trans; [done |]. apply Z.pow_le_mono_r; lia.
Qed.

Lemma round_nearest_even_le m l : 0 <= m -> m <= round_nearest_even m l <= m + 1.
Proof. intros Hm. destruct l as [|[]]; simpl; try case_match; lia. Qed.

(** A rounded number is finite when the leading bit is well below the largest exponent, and
    rounding moves the leading bit by one place at most. *)
Lemma binary_round_aux_finite s m e l b :
  0 <= m -> Zdigits2 m + e <= b -> -125 <= b -> e + 1 <= b -> b + 1 <= 104 ->
  match binary_round_aux 24 128 s m e l with
  | S754_zero _ => True
  | S754_finite _ m' e' => Zdigits2 (Zpos m') + e' <= b + 1
  | _ => False
  end.
Proof.
  intros Hm Hb Hb0 Hbe Hb1. unfold binary_round_aux.
  destruct (shr_fexp 24 128 m e l) as [r1 e1] eqn:H1.
  apply shr_fexp_spec in H1 as (Hr1 & He1 & Hd1); [|done].
  set (m2 := round_nearest_even _ _). pose proof (round_nearest_even_le (shr_m r1) (loc_of_shr_record r1) Hr1) as Hm2.
  fold m2 in Hm2.
  destruct (shr_fexp 24 128 m2 e1 loc_Exact) as [r2 e2] eqn:H2.
  apply shr_fexp_spec in H2 as (Hr2 & He2 & Hd2); [|lia].
  assert (Zdigits2 m2 <= Zdigits2 (shr_m r1) + 1) as Hdm.
  { destruct (Zdigits2_upper (shr_m r1) Hr1). apply Zdigits2_le; [lia | lia |].
    rewrite Z.pow_add_r by lia. change (2 ^ 1) with 2. lia. }
  destruct (shr_m r2) as [|p|p] eqn:Hp; [done | | lia].
  assert (e2 <= 104) by lia. change (128 - 24) with 104.
  rewrite (proj2 (Z.leb_le e2 104)) by done. cbv iota. lia.
Qed.

Lemma iter_xO d p : Zpos (Pos.iter xO p d) = Zpos p * 2 ^ Zpos d.
Proof.
  induction d as [|d IH] using Pos.peano_ind; [simpl; lia |].
  rewrite Pos.iter_succ, Pos2Z.inj_succ, Z.pow_succ_r by lia. lia.
Qed.

Lemma Zdigits2_shift m n : 0 < m -> 0 <= n -> Zdigits2 (m * 2 ^ n) = Zdigits2 m + n.
Proof.
  intros Hm Hn. pose proof (Z.pow_pos_nonneg 2 n). rewrite !Zdigits2_log2 by nia.
  rewrite Z.log2_mul_pow2 by lia. lia.
Qed.

Lemma as_f32_finite n : Z.abs n < 2 ^ 64 ->
  match as_f32 n with
  | S754_zero _ => True
  | S754_finite _ m e => Zdigits2 (Zpos m) + e <= 66
  | _ => False
  end.
Proof.
  intros Hn.
  assert (forall s p, Zpos p < 2 ^ 64 ->
    match binary_round 24 128 s p 0 with
    | S754_zero _ => True
    | S754_finite _ m e => Zdigits2 (Zpos m) + e <= 66
    | _ => False
    end) as Hround.
  { intros s p Hp. unfold binary_round, fexp, emin. rewrite Z.add_0_r.
    change (Zpos (digits2_pos p)) with (Zdigits2 (Zpos p)).
    assert (Zdigits2 (Zpos p) <= 64) by (apply Zdigits2_le; lia).
    assert (0 < Zdigits2 (Zpos p)) by done.
    destruct (shl_align p 0 _) as [mz ez] eqn:Hshl.
    assert (ez <= 0 /\ Zdigits2 (Zpos mz) + ez = Zdigits2 (Zpos p)) as [He Hd].
    { revert Hshl. unfold shl_align. case_match; intros [= <- <-]; [lia .. |].
      change (Zpos (digits2_pos p)) with (Zdigits2 (Zpos p)).
      split; [lia |]. rewrite iter_xO, Zdigits2_shift by lia. lia. }
    pose proof (binary_round_aux_finite s (Zpos mz) ez loc_Exact 65) as Hb.
    specialize (Hb ltac:(lia) ltac:(lia) ltac:(lia) ltac:(lia) ltac:(lia)). exact Hb. }
  destruct n as [|p|p]; [done | apply Hround; lia | apply Hround; lia].
Qed.

Lemma units_to_mm_finite n : Z.abs n < 2 ^ 64 -> sf_is_finite (units_to_mm n) = true.
Proof.
  intros Hn. pose proof (as_f32_finite n Hn) as Hf. unfold units_to_mm, UNITS_PER_MM, SFdiv.
  destruct (as_f32 n) as [s | | | s m e]; try done.
  unfold SFdiv_core_binary. change (Zdigits2 (Zpos 10240000)) with 24.
  set (d := Zdigits2 (Zpos m)) in *. cbv zeta.
  set (e' := Z.min (fexp 24 128 (d + e - (24 + -10))) (e - -10)).
  assert (0 <= e - -10 - e') as Hs by lia.
  set (m' := match e - -10 - e' with Z0 => Zpos m | Zpos _ => Z.shiftl (Zpos m) (e - -10 - e') | Zneg _ => 0 end).
  assert (m' = Zpos m * 2 ^ (e - -10 - e')) as Hm'.
  { unfold m'. destruct (e - -10 - e') eqn:E; [lia | by rewrite Z.shiftl_mul_pow2 | lia]. }
  destruct (Z.div_eucl m' 10240000) as [q r] eqn:Hqr.
  assert (q = m' / 10240000) as -> by (unfold Z.div; by rewrite Hqr).
  assert (0 < 2 ^ (e - -10 - e')) by (apply Z.pow_pos_nonneg; lia).
  pose proof (binary_round_aux_finite (xorb s false) (m' / 10240000) e' (new_location 10240000 r) 77) as Hb.
  assert (Zdigits2 (m' / 10240000) <= d + (e - -10 - e')) as Hd.
  { unfold d. rewrite <- Zdigits2_shift, <- Hm' by lia.
    pose proof (Zdigits2_upper m' ltac:(lia)) as [? Hu]. apply Zdigits2_le; [apply Z.div_pos; lia | done |].
    eapply Z.le_lt_trans; [apply Z.div_le_upper_bound; [lia |] | exact Hu]. lia. }
  assert (e' <= 76).
  { unfold e', fexp, emin in *. lia. }
  specialize (Hb ltac:(apply Z.div_pos; lia) ltac:(lia) ltac:(lia) ltac:(lia) ltac:(lia)).
  destruct (binary_round_aux _ _ _ _ _ _); simpl; done.
Qed.
