(* ===== verification/Float64.v ===== *)
(** Double-precision numbers: the binary64 arithmetic of [SpecFloat] on the bit patterns of
    [Ir.f64], with the comparisons, conversions and the decimal reading ([str::parse]) that
    the configuration code uses.

    The comparisons are defined on the order of the bit patterns, which makes them a total
    order on the numbers that are not NaN. *)
From Stdlib Require Import Floats.SpecFloat Ascii.
From stdpp Require Import prelude strings list.
From S2P Require Import Prelude Text Ir Float32.

#[local] Open Scope string_scope.
#[local] Open Scope list_scope.
#[local] Open Scope Z_scope.

(** ** Values and bit patterns *)

Definition f64_sign (x : f64) : bool := Z.testbit (f64_bits x) 63.
Definition f64_exponent (x : f64) : Z := (f64_bits x / 2 ^ 52) `mod` 2048.
Definition f64_mantissa (x : f64) : Z := f64_bits x `mod` 2 ^ 52.

Definition decode64 (x : f64) : spec_float :=
  if f64_exponent x =? 2047 then
    (if f64_mantissa x =? 0 then S754_infinity (f64_sign x) else S754_nan)
  else if f64_exponent x =? 0 then
    match f64_mantissa x with
    | Zpos m => S754_finite (f64_sign x) m (-1074)
    | _ => S754_zero (f64_sign x)
    end
  else S754_finite (f64_sign x) (Z.to_pos (f64_mantissa x + 2 ^ 52)) (f64_exponent x - 1075).

Definition sign_bit64 (s : bool) : Z := if s then 2 ^ 63 else 0.

(** A NaN gets the canonical bit pattern. *)
Definition encode64 (x : spec_float) : f64 :=
  F64 match x with
      | S754_zero s => sign_bit64 s
      | S754_infinity s => sign_bit64 s + 2047 * 2 ^ 52
      | S754_nan => 2047 * 2 ^ 52 + 2 ^ 51
      | S754_finite s m e =>
          if Zpos m <? 2 ^ 52 then sign_bit64 s + Zpos m
          else sign_bit64 s + (e + 1075) * 2 ^ 52 + (Zpos m - 2 ^ 52)
      end.

Definition f64_is_nan (x : f64) : bool := (f64_exponent x =? 2047) && negb (f64_mantissa x =? 0).
Definition f64_is_finite (x : f64) : bool := negb (f64_exponent x =? 2047).

(** ** Comparisons *)

(** The position of a number on the line: the bit pattern without its sign, negated. *)
Definition f64_key (x : f64) : Z := let m := f64_bits x `mod` 2 ^ 63 in if f64_sign x then - m else m.

Definition f64_compare (x y : f64) : option comparison :=
  if f64_is_nan x || f64_is_nan y then None else Some (f64_key x ?= f64_key y).

Definition f64_eqb (x y : f64) : bool := match f64_compare x y with Some Eq => true | _ => false end.
Definition f64_ltb (x y : f64) : bool := match f64_compare x y with Some Lt => true | _ => false end.
Definition f64_leb (x y : f64) : bool := match f64_compare x y with Some (Lt | Eq) => true | _ => false end.

(** [f64::max] and [f64::min]: a NaN loses against a number. *)
Definition f64_max (x y : f64) : f64 :=
  if f64_is_nan x then y else if f64_is_nan y then x else if f64_ltb x y then y else x.
Definition f64_min (x y : f64) : f64 :=
  if f64_is_nan x then y else if f64_is_nan y then x else if f64_ltb y x then y else x.

Lemma f64_leb_key x y :
  f64_leb x y = true <-> f64_is_nan x = false /\ f64_is_nan y = false /\ f64_key x <= f64_key y.
Proof.
  unfold f64_leb, f64_compare. destruct (f64_is_nan x), (f64_is_nan y); cbn [orb]; [by split; intros; destruct_and?..|].
  destruct (Z.compare_spec (f64_key x) (f64_key y)); split; intros; destruct_and?; split_and?; try done; lia.
Qed.

Lemma f64_ltb_key x y :
  f64_ltb x y = true <-> f64_is_nan x = false /\ f64_is_nan y = false /\ f64_key x < f64_key y.
Proof.
  unfold f64_ltb, f64_compare. destruct (f64_is_nan x), (f64_is_nan y); cbn [orb]; [by split; intros; destruct_and?..|].
  destruct (Z.compare_spec (f64_key x) (f64_key y)); split; intros; destruct_and?; split_and?; try done; lia.
Qed.

Lemma f64_eqb_key x y :
  f64_eqb x y = true <-> f64_is_nan x = false /\ f64_is_nan y = false /\ f64_key x = f64_key y.
Proof.
  unfold f64_eqb, f64_compare. destruct (f64_is_nan x), (f64_is_nan y); cbn [orb]; [by split; intros; destruct_and?..|].
  destruct (Z.compare_spec (f64_key x) (f64_key y)); split; intros; destruct_and?; split_and?; try done; lia.
Qed.

(** The comparison of two numbers, in terms of their positions. *)
Lemma f64_ltb_spec x y :
  f64_is_nan x = false -> f64_is_nan y = false -> f64_ltb x y = (f64_key x <? f64_key y).
Proof.
  intros Hx Hy. destruct (Z.ltb_spec (f64_key x) (f64_key y)) as [Hlt | Hge]; [by apply f64_ltb_key |].
  destruct (f64_ltb x y) eqn:He; [|done]. apply f64_ltb_key in He as (_ & _ & He). lia.
Qed.

Lemma f64_leb_spec x y :
  f64_is_nan x = false -> f64_is_nan y = false -> f64_leb x y = (f64_key x <=? f64_key y).
Proof.
  intros Hx Hy. destruct (Z.leb_spec (f64_key x) (f64_key y)) as [Hle | Hgt]; [by apply f64_leb_key |].
  destruct (f64_leb x y) eqn:He; [|done]. apply f64_leb_key in He as (_ & _ & He). lia.
Qed.

Lemma f64_max_key x y :
  f64_is_nan x = false -> f64_is_nan y = false ->
  f64_is_nan (f64_max x y) = false /\ f64_key (f64_max x y) = Z.max (f64_key x) (f64_key y).
Proof.
  intros Hx Hy. unfold f64_max. rewrite Hx, Hy, f64_ltb_spec by done.
  destruct (Z.ltb_spec (f64_key x) (f64_key y)); split; try done; lia.
Qed.

Lemma f64_min_key x y :
  f64_is_nan x = false -> f64_is_nan y = false ->
  f64_is_nan (f64_min x y) = false /\ f64_key (f64_min x y) = Z.min (f64_key x) (f64_key y).
Proof.
  intros Hx Hy. unfold f64_min. rewrite Hx, Hy, f64_ltb_spec by done.
  destruct (Z.ltb_spec (f64_key y) (f64_key x)); split; try done; lia.
Qed.

Lemma f64_finite_not_nan x : f64_is_finite x = true -> f64_is_nan x = false.
Proof. unfold f64_is_finite, f64_is_nan. by destruct (f64_exponent x =? 2047). Qed.

(** ** Arithmetic *)

Definition f64_add (x y : f64) : f64 := encode64 (SFadd 53 1024 (decode64 x) (decode64 y)).
Definition f64_sub (x y : f64) : f64 := encode64 (SFsub 53 1024 (decode64 x) (decode64 y)).
Definition f64_mul (x y : f64) : f64 := encode64 (SFmul 53 1024 (decode64 x) (decode64 y)).
Definition f64_div (x y : f64) : f64 := encode64 (SFdiv 53 1024 (decode64 x) (decode64 y)).

(** [as f64] of an integer. *)
Definition int_as_f64 (i : Z) : f64 := encode64 (binary_normalize 53 1024 i 0 false).

(** [as f32]: round to nearest; [f64::from]: exact. *)
Definition narrow (x : f64) : f32 :=
  encode match decode64 x with
         | S754_finite s m e => binary_round 24 128 s m e
         | other => other
         end.
Definition widen (x : f32) : f64 :=
  encode64 match decode x with
           | S754_finite s m e => binary_round 53 1024 s m e
           | other => other
           end.

(** The magnitude without its fraction. *)
Definition f64_truncated (x : f64) : Z :=
  match decode64 x with
  | S754_finite s m e =>
      let t := if 0 <=? e then Zpos m * 2 ^ e else Zpos m / 2 ^ (- e) in if s then - t else t
  | _ => 0
  end.

(** [x.fract() == 0.0]. *)
Definition f64_is_integral (x : f64) : bool :=
  match decode64 x with
  | S754_finite _ m e => (0 <=? e) || (Zpos m `mod` 2 ^ (- e) =? 0)
  | S754_zero _ => true
  | _ => false
  end.

(** [as i64]: the cast saturates. *)
Definition f64_as_i64 (x : f64) : Z :=
  match decode64 x with
  | S754_infinity s => if s then - 2 ^ 63 else 2 ^ 63 - 1
  | _ => Z.max (- 2 ^ 63) (Z.min (2 ^ 63 - 1) (f64_truncated x))
  end.

(** [f64::total_cmp]: the order of the bit patterns, NaNs included. *)
Definition f64_total_key (x : f64) : Z := let m := f64_bits x `mod` 2 ^ 63 in if f64_sign x then - m - 1 else m.
Definition f64_total_leb (x y : f64) : bool := f64_total_key x <=? f64_total_key y.

Definition F0 : f64 := F64 0.
(** [-1.0], [1.125] and [100.0]. *)
Definition FM1 : f64 := F64 13830554455654793216.
Definition F1_125 : f64 := F64 4607745368753438720.
Definition F100 : f64 := F64 4636737291354636288.

(** ** Reading decimals *)

(** The digits at the front: their value, their number, and the rest. *)
Fixpoint take_digits (s : string) (acc n : Z) : Z * Z * string :=
  match s with
  | String c rest => match char_digit c with
                     | Some d => take_digits rest (acc * 10 + d) (n + 1)
                     | None => (acc, n, s)
                     end
  | EmptyString => (acc, n, s)
  end.

Definition take_sign (s : string) : bool * string :=
  match s with
  | String "+"%char rest => (false, rest)
  | String "-"%char rest => (true, rest)
  | _ => (false, s)
  end.

(** The exponent behind the digits; at least one digit. *)
Definition take_exponent (s : string) : option Z :=
  match s with
  | EmptyString => Some 0
  | String c rest =>
      if Ascii.eqb (to_ascii_lowercase c) "e"%char then
        let '(neg, rest) := take_sign rest in
        match take_digits rest 0 0 with
        | (e, n, EmptyString) => if n =? 0 then None else Some (if neg then - e else e)
        | _ => None
        end
      else None
  end.

(** [m * 10 ^ e], correctly rounded; beyond these exponents it is infinite or zero. *)
Definition decimal_value (precision emax : Z) (neg : bool) (m digits e : Z) : spec_float :=
  match m with
  | Zpos p =>
      if 400 <? e + digits then S754_infinity neg
      else if e + digits <? -400 then S754_zero neg
      else if 0 <=? e then binary_normalize precision emax (if neg then - (m * 10 ^ e) else m * 10 ^ e) 0 neg
      else SFdiv precision emax (S754_finite neg p 0) (S754_finite false (Z.to_pos (10 ^ (- e))) 0)
  | _ => S754_zero neg
  end.

Definition parse_decimal (precision emax : Z) (s : string) : option spec_float :=
  let '(neg, body) := take_sign s in
  let word := lower body in
  if String.eqb word "inf" || String.eqb word "infinity" then Some (S754_infinity neg)
  else if String.eqb word "nan" then Some S754_nan
  else
    let '(whole, n1, rest) := take_digits body 0 0 in
    let '(m, n2, rest) := match rest with
                          | String "."%char rest => take_digits rest whole 0
                          | _ => (whole, 0, rest)
                          end in
    if n1 + n2 =? 0 then None
    else match take_exponent rest with
         | None => None
         | Some e => Some (decimal_value precision emax neg m (n1 + n2) (e - n2))
         end.

(** [s.parse::<f64>()] and [s.parse::<f32>()]. *)
Definition parse_f64 (s : string) : option f64 := encode64 <$> parse_decimal 53 1024 s.
Definition parse_f32 (s : string) : option f32 := encode <$> parse_decimal 24 128 s.

Example parse_examples :
  parse_f64 "0.2" = Some (F64 4596373779694328218) /\ parse_f64 "-1" = Some FM1 /\
  parse_f64 "1.125" = Some F1_125 /\ parse_f64 "1e2" = Some F100 /\ parse_f64 "." = None /\
  parse_f64 "0.7" = Some (F64 4604480259023595110) /\
  parse_f64 "inf" = Some (F64 9218868437227405312) /\ parse_f64 "1e999" = Some (F64 9218868437227405312) /\
  parse_f32 "0.2" = Some (F32 1045220557) /\ narrow (F64 4596373779694328218) = F32 1045220557 /\
  widen (F32 1045220557) = F64 4596373779801702400 /\ f64_add (F64 4596373779694328218) F100 = F64 4636751365103471821 /\
  parse_f64 "5e-324" = Some (F64 1) /\ parse_f64 "2.2250738585072011e-308" = Some (F64 4503599627370495).
Proof. vm_compute. repeat split. Qed.

Example cast_examples :
  f64_as_i64 (int_as_f64 (-7)) = -7 /\ f64_as_i64 F1_125 = 1 /\ f64_as_i64 (F64 9218868437227405312) = 2 ^ 63 - 1 /\
  f64_is_integral F100 = true /\ f64_is_integral F1_125 = false /\ f64_is_integral F0 = true /\
  f64_total_leb (F64 (2 ^ 63)) F0 = true /\ f64_total_leb F0 (F64 (2 ^ 63)) = false.
Proof. vm_compute. repeat split. Qed.

(** ** Sums and differences of finite numbers are numbers *)

(** A value that encodes to a number. *)
Definition sf64_ok (x : spec_float) : Prop :=
  match x with
  | S754_finite _ m e => Zpos m < 2 ^ 53 /\ -1074 <= e <= 971
  | S754_nan => False
  | _ => True
  end.

Definition sf_infinite (x : spec_float) : bool := match x with S754_infinity _ => true | _ => false end.

Lemma shr_fexp64 m e l r e' :
  0 <= m -> shr_fexp 53 1024 m e l = (r, e') -> 0 <= shr_m r < 2 ^ 53 /\ -1074 <= e'.
Proof.
  intros Hm. unfold shr_fexp. intros H. apply shr_spec in H as [He Hr]; rewrite shr_record_mantissa in *; [|done].
  unfold fexp, emin in *. destruct (Zdigits2_upper m Hm) as [Hd Hlt].
  set (n := Z.max 0 _) in *. assert (0 <= n) by lia. split; [|lia]. rewrite Hr. split; [apply Z.div_pos; lia |].
  apply Z.div_lt_upper_bound; [lia |]. rewrite <-Z.pow_add_r by lia.
  eapply Z.lt_le_trans; [exact Hlt |]. apply Z.pow_le_mono_r; lia.
Qed.

Lemma binary_round_aux_ok s m e l : 0 <= m -> sf64_ok (binary_round_aux 53 1024 s m e l).
Proof.
  intros Hm. unfold binary_round_aux. destruct (shr_fexp 53 1024 m e l) as [r1 e1] eqn:H1.
  apply shr_fexp64 in H1 as [Hr1 He1]; [|done].
  pose proof (round_nearest_even_le (shr_m r1) (loc_of_shr_record r1) (proj1 Hr1)) as Hm2.
  destruct (shr_fexp 53 1024 _ e1 loc_Exact) as [r2 e2] eqn:H2.
  apply shr_fexp64 in H2 as [Hr2 He2]; [|lia].
  destruct (shr_m r2) as [|p|p]; [done | | lia]. destruct (Z.leb_spec e2 (1024 - 53)); [|done]. split; lia.
Qed.

Lemma binary_normalize_ok n e szero : sf64_ok (binary_normalize 53 1024 n e szero).
Proof.
  destruct n as [|p|p]; [done | |]; cbn [binary_normalize]; unfold binary_round;
    destruct (shl_align _ _ _); apply binary_round_aux_ok; lia.
Qed.

Lemma decode64_ok x : f64_is_finite x = true -> sf64_ok (decode64 x) /\ sf_infinite (decode64 x) = false.
Proof.
  unfold f64_is_finite, decode64. intros Hf%negb_true_iff. rewrite Hf. apply Z.eqb_neq in Hf.
  assert (He : 0 <= f64_exponent x < 2048) by (apply Z.mod_pos_bound; lia).
  assert (Hm : 0 <= f64_mantissa x < 2 ^ 52) by (apply Z.mod_pos_bound; lia).
  destruct (Z.eqb_spec (f64_exponent x) 0) as [|Hz].
  - destruct (f64_mantissa x) as [|m|m]; [done | | done]. split; [|done]. cbn [sf64_ok]. lia.
  - split; [|done]. cbn [sf64_ok]. rewrite Z2Pos.id by lia. lia.
Qed.

Lemma f64_fields k r : 0 <= r < 2 ^ 52 -> f64_exponent (F64 (k * 2 ^ 52 + r)) = k `mod` 2048 /\ f64_mantissa (F64 (k * 2 ^ 52 + r)) = r.
Proof.
  intros Hr. unfold f64_exponent, f64_mantissa. cbn [f64_bits].
  rewrite Z.div_add_l, (Z.div_small r), Z.add_0_r by lia. split; [done |].
  rewrite Z.add_comm, Z.mod_add by lia. by apply Z.mod_small.
Qed.

Lemma encode64_not_nan x : sf64_ok x -> f64_is_nan (encode64 x) = false.
Proof.
  assert (Hsign : forall s, sign_bit64 s = (if s then 2048 else 0) * 2 ^ 52) by (intros []; reflexivity).
  unfold encode64, f64_is_nan. destruct x as [s|s| |s m e]; cbn [sf64_ok].
  - intros _. rewrite Hsign. destruct (f64_fields (if s then 2048 else 0) 0) as [He Hm]; [lia |].
    rewrite Z.add_0_r in He. rewrite He. by destruct s.
  - intros _. rewrite Hsign, <-Z.mul_add_distr_r. destruct (f64_fields ((if s then 2048 else 0) + 2047) 0) as [He Hm]; [lia |].
    rewrite Z.add_0_r in *. rewrite Hm. by rewrite andb_false_r.
  - done.
  - intros [Hm He]. destruct (Z.ltb_spec (Zpos m) (2 ^ 52)).
    + rewrite Hsign. destruct (f64_fields (if s then 2048 else 0) (Zpos m)) as [-> _]; [lia |]. by destruct s.
    + rewrite Hsign, <-Z.mul_add_distr_r.
      destruct (f64_fields ((if s then 2048 else 0) + (e + 1075)) (Zpos m - 2 ^ 52)) as [-> _]; [lia |].
      assert (Hmod : ((if s then 2048 else 0) + (e + 1075)) `mod` 2048 = e + 1075).
      { destruct s; [|apply Z.mod_small; lia]. rewrite Z.add_comm, <-(Z.mul_1_l 2048) at 1.
        rewrite Z.mod_add by lia. apply Z.mod_small. lia. }
      rewrite Hmod. by rewrite (proj2 (Z.eqb_neq (e + 1075) 2047)) by lia.
Qed.

Lemma f64_sub_not_nan x y : f64_is_finite x = true -> f64_is_finite y = true -> f64_is_nan (f64_sub x y) = false.
Proof.
  intros [Hx Ix]%decode64_ok [Hy Iy]%decode64_ok. unfold f64_sub. apply encode64_not_nan.
  destruct (decode64 x) as [[]|s| |s m e], (decode64 y) as [[]|s'| |s' m' e']; try done. apply binary_normalize_ok.
Qed.

Lemma f64_add_not_nan x y : f64_is_finite x = true -> f64_is_finite y = true -> f64_is_nan (f64_add x y) = false.
Proof.
  intros [Hx Ix]%decode64_ok [Hy Iy]%decode64_ok. unfold f64_add. apply encode64_not_nan.
  destruct (decode64 x) as [[]|s| |s m e], (decode64 y) as [[]|s'| |s' m' e']; try done. apply binary_normalize_ok.
Qed.

(** Subtracting zero keeps the number. *)
Lemma f64_key_fields x :
  f64_key x = let m := f64_exponent x * 2 ^ 52 + f64_mantissa x in if f64_sign x then - m else m.
Proof.
  unfold f64_key, f64_exponent, f64_mantissa. cbv zeta.
  replace (f64_bits x `mod` 2 ^ 63) with ((f64_bits x / 2 ^ 52) `mod` 2048 * 2 ^ 52 + f64_bits x `mod` 2 ^ 52); [done |].
  change (2 ^ 63) with (2 ^ 52 * 2048). rewrite Z.rem_mul_r by lia. ring.
Qed.

Lemma f64_key_signed s q : 0 <= q < 2 ^ 63 -> f64_key (F64 (sign_bit64 s + q)) = if s then - q else q.
Proof.
  intros Hq. unfold f64_key, f64_sign, sign_bit64. cbn [f64_bits].
  assert (Hm : ((if s then 2 ^ 63 else 0) + q) `mod` 2 ^ 63 = q).
  { destruct s; [|by apply Z.mod_small]. rewrite Z.add_comm, <-(Z.mul_1_l (2 ^ 63)) at 1. rewrite Z.mod_add by lia. by apply Z.mod_small. }
  rewrite Hm. assert (Hs : Z.testbit ((if s then 2 ^ 63 else 0) + q) 63 = s); [|by rewrite Hs].
  destruct s.
  - apply Z.testbit_true; [lia |]. rewrite <-(Z.mul_1_l (2 ^ 63)) at 1. rewrite Z.div_add_l, Z.div_small by lia. done.
  - apply Z.testbit_false; [lia |]. rewrite Z.add_0_l, Z.div_small by lia. done.
Qed.

Lemma f64_sub_zero_key x : f64_is_finite x = true -> f64_key (f64_sub x F0) = f64_key x.
Proof.
  intros Hf. rewrite (f64_key_fields x). unfold f64_sub. change (decode64 F0) with (S754_zero false).
  assert (He : 0 <= f64_exponent x < 2048) by (apply Z.mod_pos_bound; lia).
  assert (Hm : 0 <= f64_mantissa x < 2 ^ 52) by (apply Z.mod_pos_bound; lia).
  unfold f64_is_finite in Hf. apply negb_true_iff in Hf. unfold decode64. rewrite Hf. apply Z.eqb_neq in Hf.
  destruct (Z.eqb_spec (f64_exponent x) 0) as [Hz|Hz].
  - rewrite Hz. destruct (f64_mantissa x) as [|m|m]; [by destruct (f64_sign x) | | lia].
    cbn [SFsub]. unfold encode64. rewrite (proj2 (Z.ltb_lt _ _)) by lia. rewrite f64_key_signed by lia. by destruct (f64_sign x).
  - cbn [SFsub]. unfold encode64. rewrite Z2Pos.id by lia. rewrite (proj2 (Z.ltb_ge _ _)) by lia.
    replace (sign_bit64 (f64_sign x) + (f64_exponent x - 1075 + 1075) * 2 ^ 52 + (f64_mantissa x + 2 ^ 52 - 2 ^ 52))
      with (sign_bit64 (f64_sign x) + (f64_exponent x * 2 ^ 52 + f64_mantissa x)) by ring.
    rewrite f64_key_signed by lia. by destruct (f64_sign x).
Qed.

Lemma f64_total_key_order x y : f64_total_key x <= f64_total_key y -> f64_key x <= f64_key y.
Proof.
  unfold f64_total_key, f64_key. pose proof (Z.mod_pos_bound (f64_bits x) (2 ^ 63)). pose proof (Z.mod_pos_bound (f64_bits y) (2 ^ 63)).
  destruct (f64_sign x), (f64_sign y); lia.
Qed.
