(* ===== verification/StageOrder.v ===== *)
(** The fixed stage order of the pipeline ([execution_plan.rs], [STAGE_ORDER]) and
    the helpers [stage_order.rs] derives from it. *)
From Stdlib Require Import Ascii.
From stdpp Require Import prelude gmap strings list.
From S2P Require Import Prelude Ir.

#[local] Open Scope string_scope.
#[local] Open Scope list_scope.

Definition STAGE_ORDER : list string :=
  [ "PrePass::MeshAnalysis";
    "PrePass::LayerPlanning";
    "PrePass::SeamPlanning";
    "PrePass::PaintSegmentation";
    "PrePass::RegionMapping";
    "PrePass::Slice";
    "PrePass::OverhangAnnotation";
    "PrePass::ShellClassification";
    "PrePass::SupportAnalysis";
    "PrePass::SupportGeometry";
    "Layer::PaintRegionAnnotation";
    "Layer::SlicePostProcess";
    "Layer::Perimeters";
    "Layer::PerimetersPostProcess";
    "Layer::Infill";
    "Layer::InfillPostProcess";
    "Layer::Support";
    "Layer::SupportPostProcess";
    "Layer::AnchoredEvents";
    "Layer::PathOptimization";
    "PostPass::LayerFinalization";
    "PostPass::GCodeEmit";
    "PostPass::GCodePostProcess";
    "PostPass::TextPostProcess" ].

Definition known_stage_ids : list string := STAGE_ORDER.

Definition is_known_stage (stage : string) : bool := existsb (String.eqb stage) STAGE_ORDER.

(** [stage_order_index]: each stage with its position. *)
Definition stage_order_index : gmap string nat :=
  map_collect (imap (fun index stage => (stage, index)) STAGE_ORDER).

#[global] Arguments stage_order_index : simpl never.

Definition tier_of (stage : string) : string :=
  if starts_with "PrePass::" stage then "prepass"
  else if starts_with "Layer::" stage then "per_layer"
  else if starts_with "PostPass::" stage then "postpass"
  else "unknown".

(** The order in which the tiers run. *)
Definition tier_rank (tier : string) : nat :=
  if String.eqb tier "prepass" then 0
  else if String.eqb tier "per_layer" then 1
  else if String.eqb tier "postpass" then 2
  else 3.

Lemma STAGE_ORDER_NoDup : NoDup STAGE_ORDER.
Proof. by apply (bool_decide_unpack _). Qed.

Lemma imap_fst {A} (l : list A) : (imap (fun i x => (x, i)) l).*1 = l.
Proof.
  rewrite fmap_imap. transitivity (imap (fun (_ : nat) (x : A) => id x) l); [by apply imap_ext|].
  by rewrite (imap_const id), list_fmap_id.
Qed.

Lemma stage_order_index_lookup stage i :
  stage_order_index !! stage = Some i <-> STAGE_ORDER !! i = Some stage.
Proof.
  unfold stage_order_index.
  rewrite map_collect_lookup by (rewrite imap_fst; apply STAGE_ORDER_NoDup).
  rewrite list_elem_of_lookup. setoid_rewrite list_lookup_imap_Some. naive_solver.
Qed.

Lemma is_known_stage_spec stage : is_known_stage stage = true <-> stage ∈ STAGE_ORDER.
Proof.
  unfold is_known_stage. rewrite existsb_exists, list_elem_of_In. split.
  - intros (x & Hx & Heq%String.eqb_eq). by subst.
  - intros Hin. exists stage. split; [done|]. apply String.eqb_refl.
Qed.

Lemma stage_order_index_is_Some stage :
  is_Some (stage_order_index !! stage) <-> stage ∈ STAGE_ORDER.
Proof.
  rewrite list_elem_of_lookup. unfold is_Some. by setoid_rewrite stage_order_index_lookup.
Qed.

(** Every canonical stage has a tier, and along the canonical order the tiers
    come in the order prepass, per-layer, postpass. *)
Definition tiers_ordered (l : list string) : bool :=
  forallb (fun i => forallb (fun j =>
    match l !! i, l !! j with
    | Some a, Some b =>
        if Nat.leb i j then Nat.leb (tier_rank (tier_of a)) (tier_rank (tier_of b)) else true
    | _, _ => true
    end) (seq 0 (length l))) (seq 0 (length l)).

(** The index map of the scheduler is exactly the canonical stage list read
    backwards; its domain is the allowlist of known stages; no known stage has the
    tier [unknown]; and the tiers follow the canonical order, so that every prepass
    stage precedes every per-layer stage and those precede every postpass stage. *)
Theorem stage_order_contract :
  (forall stage i, stage_order_index !! stage = Some i <-> STAGE_ORDER !! i = Some stage) /\
  (forall stage, is_known_stage stage = true <-> is_Some (stage_order_index !! stage)) /\
  (forall stage, is_known_stage stage = true -> tier_of stage <> "unknown") /\
  (forall a b i j, stage_order_index !! a = Some i -> stage_order_index !! b = Some j ->
     i <= j -> tier_rank (tier_of a) <= tier_rank (tier_of b)).
Proof.
  split; [apply stage_order_index_lookup|]. split; [|split].
  - intros stage. by rewrite is_known_stage_spec, stage_order_index_is_Some.
  - intros stage Hk%is_known_stage_spec. revert stage Hk.
    apply Forall_forall. by apply (bool_decide_unpack _).
  - intros a b i j Ha%stage_order_index_lookup Hb%stage_order_index_lookup Hij.
    assert (Hall : tiers_ordered STAGE_ORDER = true) by (vm_compute; reflexivity).
    unfold tiers_ordered in Hall. rewrite forallb_forall in Hall.
    specialize (Hall i). rewrite in_seq in Hall.
    pose proof (lookup_lt_Some _ _ _ Ha). pose proof (lookup_lt_Some _ _ _ Hb).
    specialize (Hall ltac:(lia)). rewrite forallb_forall in Hall.
    specialize (Hall j). rewrite in_seq, Ha, Hb in Hall. specialize (Hall ltac:(lia)).
    apply Nat.leb_le in Hij. rewrite Hij in Hall. by apply Nat.leb_le.
Qed.
