(* ===== verification/Schema.v ===== *)
(** The stage table ([slicer-schema/src/lib.rs]): which trait method, tier and WIT export
    belong to which stage of the scheduler, the lookups over the table, and the composed
    name of an export.

    The table is the single source the macros, the command line and the dispatchers read;
    its theorems are what those readers rely on: a stage, a method and a composed export
    name each determine the row. *)
From Stdlib Require Import Ascii.
From stdpp Require Import prelude gmap strings list.
From S2P Require Import Prelude StageOrder.

#[local] Open Scope string_scope.
#[local] Open Scope list_scope.

Definition TIER_LAYER : string := "layer".
Definition TIER_PREPASS : string := "prepass".
Definition TIER_FINALIZATION : string := "finalization".
Definition TIER_POSTPASS : string := "postpass".

Record StageSpec := {
  sg_method : string;
  sg_stage_id : string;
  sg_wit_export : string;
  sg_tier_id : string;
  sg_trait_name : string;
  sg_wit_dir : string;
  sg_wit_package : string;
  sg_wit_interface : string;
  sg_wit_world : string
}.
#[export] Instance StageSpec_eq_dec : EqDecision StageSpec.
Proof. solve_decision. Defined.

Notation spec := Build_StageSpec (only parsing).

Definition STAGES : list StageSpec :=
  [spec "run_slice_postprocess" "Layer::SlicePostProcess" "run" TIER_LAYER "LayerModule"
        "layer-slice-postprocess" "slicer:layer-slice-postprocess@1.0.0" "slice-postprocess" "slice-postprocess-module";
   spec "run_perimeters" "Layer::Perimeters" "run" TIER_LAYER "LayerModule"
        "layer-perimeters" "slicer:layer-perimeters@1.0.0" "perimeters" "perimeters-module";
   spec "run_wall_postprocess" "Layer::PerimetersPostProcess" "run" TIER_LAYER "LayerModule"
        "layer-perimeters-postprocess" "slicer:layer-perimeters-postprocess@1.0.0" "perimeters-postprocess" "perimeters-postprocess-module";
   spec "run_infill" "Layer::Infill" "run" TIER_LAYER "LayerModule"
        "layer-infill" "slicer:layer-infill@2.0.0" "infill" "infill-module";
   spec "run_infill_postprocess" "Layer::InfillPostProcess" "run" TIER_LAYER "LayerModule"
        "layer-infill-postprocess" "slicer:layer-infill-postprocess@1.0.0" "infill-postprocess" "infill-postprocess-module";
   spec "run_support" "Layer::Support" "run" TIER_LAYER "LayerModule"
        "layer-support" "slicer:layer-support@2.0.0" "support" "support-module";
   spec "run_support_postprocess" "Layer::SupportPostProcess" "run" TIER_LAYER "LayerModule"
        "layer-support-postprocess" "slicer:layer-support-postprocess@1.0.0" "support-postprocess" "support-postprocess-module";
   spec "run_anchored_events" "Layer::AnchoredEvents" "run" TIER_LAYER "LayerModule"
        "layer-anchored-events" "slicer:layer-anchored-events@1.0.0" "anchored-events" "anchored-events-module";
   spec "run_path_optimization" "Layer::PathOptimization" "run" TIER_LAYER "LayerModule"
        "layer-path-optimization" "slicer:layer-path-optimization@1.0.0" "path-optimization" "path-optimization-module";
   spec "run_mesh_analysis" "PrePass::MeshAnalysis" "run" TIER_PREPASS "PrepassModule"
        "prepass-mesh-analysis" "slicer:prepass-mesh-analysis@1.0.0" "mesh-analysis" "mesh-analysis-module";
   spec "run_layer_planning" "PrePass::LayerPlanning" "run" TIER_PREPASS "PrepassModule"
        "prepass-layer-planning" "slicer:prepass-layer-planning@3.0.0" "layer-planning" "layer-planning-module";
   spec "run_paint_segmentation" "PrePass::PaintSegmentation" "" TIER_PREPASS "PrepassModule"
        "" "" "" "";
   spec "run_seam_planning" "PrePass::SeamPlanning" "run" TIER_PREPASS "PrepassModule"
        "prepass-seam-planning" "slicer:prepass-seam-planning@1.0.0" "seam-planning" "seam-planning-module";
   spec "run_support_geometry" "PrePass::SupportGeometry" "run" TIER_PREPASS "PrepassModule"
        "prepass-support-geometry" "slicer:prepass-support-geometry@2.0.0" "support-geometry" "support-geometry-module";
   spec "run_finalization" "PostPass::LayerFinalization" "run" TIER_FINALIZATION "FinalizationModule"
        "finalization-layer-finalization" "slicer:finalization-layer-finalization@1.1.0" "layer-finalization" "layer-finalization-module";
   spec "run_gcode_postprocess" "PostPass::GCodePostProcess" "run" TIER_POSTPASS "PostpassModule"
        "postpass-gcode-postprocess" "slicer:postpass-gcode-postprocess@1.0.0" "gcode-postprocess" "gcode-postprocess-module";
   spec "run_text_postprocess" "PostPass::TextPostProcess" "run" TIER_POSTPASS "PostpassModule"
        "postpass-text-postprocess" "slicer:postpass-text-postprocess@1.0.0" "text-postprocess" "text-postprocess-module"].

(** ** Lookups *)

Definition find_stage (f : StageSpec -> string) (value : string) : option StageSpec :=
  snd <$> list_find (fun s => f s = value) STAGES.

Definition stage_by_id (stage_id : string) : option StageSpec := find_stage sg_stage_id stage_id.
Definition stage_by_method (method : string) : option StageSpec := find_stage sg_method method.

Definition tier_for_stage_id (stage_id : string) : option string := sg_tier_id <$> stage_by_id stage_id.
Definition trait_for_stage_id (stage_id : string) : option string := sg_trait_name <$> stage_by_id stage_id.

Definition tier_for_trait (trait_name : string) : option string :=
  if String.eqb trait_name "LayerModule" then Some TIER_LAYER
  else if String.eqb trait_name "PrepassModule" then Some TIER_PREPASS
  else if String.eqb trait_name "FinalizationModule" then Some TIER_FINALIZATION
  else if String.eqb trait_name "PostpassModule" then Some TIER_POSTPASS
  else None.

Definition all_stage_ids : list string := sg_stage_id <$> STAGES.

(** [.filter(|s| !s.is_empty())]. *)
Definition non_empty (s : string) : option string := if String.eqb s "" then None else Some s.

Definition export_for_stage_id (stage_id : string) : option string :=
  stage_by_id stage_id ≫= fun s => non_empty (sg_wit_export s).
Definition wit_dir_for_stage_id (stage_id : string) : option string :=
  stage_by_id stage_id ≫= fun s => non_empty (sg_wit_dir s).
Definition package_for_stage_id (stage_id : string) : option string :=
  stage_by_id stage_id ≫= fun s => non_empty (sg_wit_package s).
Definition interface_for_stage_id (stage_id : string) : option string :=
  stage_by_id stage_id ≫= fun s => non_empty (sg_wit_interface s).
Definition wit_world_for_stage_id (stage_id : string) : option string :=
  stage_by_id stage_id ≫= fun s => non_empty (sg_wit_world s).

Definition qualified_export_for_stage_id (stage_id : string) : option string :=
  match stage_by_id stage_id with
  | None => None
  | Some s =>
      if String.eqb (sg_wit_package s) "" then None
      else match split_once "@"%char (sg_wit_package s) with
           | None => None
           | Some (pkg_no_ver, ver) =>
               Some (pkg_no_ver +:+ "/" +:+ sg_wit_interface s +:+ "@" +:+ ver +:+ "#" +:+ sg_wit_export s)
           end
  end.

Definition VALID_STAGES : list string :=
  ["PrePass::MeshAnalysis";
   "PrePass::LayerPlanning";
   "PrePass::PaintSegmentation";
   "PrePass::SeamPlanning";
   "PrePass::SupportGeometry";
   "Layer::SlicePostProcess";
   "Layer::Perimeters";
   "Layer::PerimetersPostProcess";
   "Layer::Infill";
   "Layer::InfillPostProcess";
   "Layer::Support";
   "Layer::SupportPostProcess";
   "Layer::AnchoredEvents";
   "Layer::PathOptimization";
   "PostPass::LayerFinalization";
   "PostPass::GCodePostProcess";
   "PostPass::TextPostProcess"].

(** ** What the readers of the table rely on *)

Lemma find_stage_Some f value s :
  NoDup (f <$> STAGES) -> find_stage f value = Some s <-> s ∈ STAGES /\ f s = value.
Proof.
  intros Hnd. unfold find_stage. split.
  - intros ([i x] & (Hi & Hf & _)%list_find_Some & ->)%fmap_Some. split; [by eapply list_elem_of_lookup_2 | done].
  - intros [(i & Hi)%list_elem_of_lookup Hf]. apply fmap_Some. exists (i, s). split; [|done].
    apply list_find_Some. split_and!; [done | done |]. intros j y Hj Hlt Hy.
    assert (j = i); [|lia]. eapply NoDup_lookup; [exact Hnd | |]; rewrite list_lookup_fmap.
    + by rewrite Hj.
    + rewrite Hi. simpl. by rewrite Hf, Hy.
Qed.

Lemma stage_ids_NoDup : NoDup (sg_stage_id <$> STAGES).
Proof. by apply (bool_decide_unpack _). Qed.

Lemma methods_NoDup : NoDup (sg_method <$> STAGES).
Proof. by apply (bool_decide_unpack _). Qed.

Lemma stage_by_id_Some stage_id s : stage_by_id stage_id = Some s <-> s ∈ STAGES /\ sg_stage_id s = stage_id.
Proof. apply find_stage_Some, stage_ids_NoDup. Qed.

(** A decidable statement over all rows. *)
Lemma STAGES_forall (Q : StageSpec -> Prop) `{forall s, Decision (Q s)} :
  bool_decide (Forall Q STAGES) = true -> forall s, s ∈ STAGES -> Q s.
Proof. intros Hb%bool_decide_eq_true. by apply Forall_forall. Qed.

(** The row of a composed export name. *)
Definition stages_of_export (export : string) : list string :=
  filter (fun id => qualified_export_for_stage_id id = Some export) all_stage_ids.

Definition exports_distinct : bool :=
  forallb (fun id => match qualified_export_for_stage_id id with
                     | Some e => bool_decide (stages_of_export e = [id])
                     | None => true
                     end) all_stage_ids.

Lemma export_stage_unique a b e :
  a ∈ all_stage_ids -> b ∈ all_stage_ids ->
  qualified_export_for_stage_id a = Some e -> qualified_export_for_stage_id b = Some e -> a = b.
Proof.
  intros Ha Hb Hea Heb. assert (Hd : exports_distinct = true) by (vm_compute; reflexivity).
  unfold exports_distinct in Hd. rewrite forallb_forall in Hd.
  specialize (Hd a ltac:(by apply list_elem_of_In)). rewrite Hea in Hd. apply bool_decide_eq_true in Hd.
  assert (Hin : b ∈ stages_of_export e) by (by apply list_elem_of_filter).
  rewrite Hd in Hin. by apply list_elem_of_singleton in Hin.
Qed.

Lemma qualified_export_row stage_id e :
  qualified_export_for_stage_id stage_id = Some e -> stage_id ∈ all_stage_ids.
Proof.
  unfold qualified_export_for_stage_id. destruct (stage_by_id stage_id) as [s|] eqn:Hs; [|done].
  intros _. apply stage_by_id_Some in Hs as [Hin <-]. by apply list_elem_of_fmap_2.
Qed.

(** The table is sound for its readers: a stage id and a trait method each determine one
    row; the composed export name determines the stage; the tier of a row is that of its
    trait, and every row names a stage of the scheduler; the allowlist of the manifest
    validation has exactly these stages; and a row has all of its WIT columns (with the
    export ["run"]) or none, which only the host's own paint segmentation has. *)
Theorem stage_table_contract :
  (forall s, s ∈ STAGES ->
     stage_by_id (sg_stage_id s) = Some s /\ stage_by_method (sg_method s) = Some s /\
     tier_for_trait (sg_trait_name s) = Some (sg_tier_id s) /\ is_known_stage (sg_stage_id s) = true /\
     (sg_stage_id s = "PrePass::PaintSegmentation" <-> qualified_export_for_stage_id (sg_stage_id s) = None) /\
     (qualified_export_for_stage_id (sg_stage_id s) <> None -> export_for_stage_id (sg_stage_id s) = Some "run")) /\
  (forall a b e, qualified_export_for_stage_id a = Some e -> qualified_export_for_stage_id b = Some e -> a = b) /\
  VALID_STAGES ≡ₚ all_stage_ids.
Proof.
  split_and!.
  - intros s Hs. split_and!.
    + by apply stage_by_id_Some.
    + by apply find_stage_Some; [apply methods_NoDup |].
    + revert s Hs. refine (STAGES_forall (fun s => tier_for_trait (sg_trait_name s) = Some (sg_tier_id s)) _); by vm_compute.
    + revert s Hs. refine (STAGES_forall (fun s => is_known_stage (sg_stage_id s) = true) _); by vm_compute.
    + revert s Hs. refine (STAGES_forall (fun s => sg_stage_id s = "PrePass::PaintSegmentation" <->
          qualified_export_for_stage_id (sg_stage_id s) = None) _); by vm_compute.
    + revert s Hs. refine (STAGES_forall (fun s => qualified_export_for_stage_id (sg_stage_id s) <> None ->
          export_for_stage_id (sg_stage_id s) = Some "run") _); by vm_compute.
  - intros a b e Ha Hb. eapply export_stage_unique; eauto using qualified_export_row.
  - by apply (bool_decide_eq_true_1 (VALID_STAGES ≡ₚ all_stage_ids)); vm_compute.
Qed.

(** The positions of stages in the order of the pipeline. *)
Definition pipeline_positions (stages : list string) : list nat :=
  omap (fun stage => stage_order_index !! stage) stages.

(** Both lists claim the order of the pipeline; neither has it: the table puts the layer
    stages before the prepass, the allowlist puts paint segmentation before seam planning. *)
Theorem stage_tables_not_in_order :
  ~ sorted_by Nat.leb (pipeline_positions all_stage_ids) /\
  ~ sorted_by Nat.leb (pipeline_positions VALID_STAGES).
Proof.
  split; intros Hs.
  - pose proof (sorted_by_lookup Nat.leb _ 8 9 19%nat 0%nat Hs) as H.
    assert (19 <=? 0 = true)%nat; [apply H; [lia | by vm_compute | by vm_compute] | done].
  - pose proof (sorted_by_lookup Nat.leb _ 2 3 3%nat 2%nat Hs) as H.
    assert (3 <=? 2 = true)%nat; [apply H; [lia | by vm_compute | by vm_compute] | done].
Qed.
