(* ===== verification/Manifest.v ===== *)
(** Module manifests ([manifest.rs]): the loaded module record and its builder,
    diagnostics and load errors, the semantic rules of [[region_split]]
    declarations, and the loader that scans the search roots and then the
    integrated registry, the first provider of a module id winning.

    The TOML decoding of one manifest and the directory scan are file-system and
    [toml]-crate work: they are arguments of the loader. *)
From Stdlib Require Import Ascii.
From stdpp Require Import prelude gmap strings list.
From S2P Require Import Prelude Ir StageOrder.

#[local] Open Scope string_scope.
#[local] Open Scope list_scope.

Notation PathBuf := string (only parsing).

Record RegionSplitDeclaration := {
  rsd_semantic : string;
  rsd_priority : Z;
  rsd_value_type : RegionSplitValueType
}.
#[export] Instance RegionSplitDeclaration_eq_dec : EqDecision RegionSplitDeclaration.
Proof. solve_decision. Defined.

Inductive ModuleProvenance := External | Integrated.
#[export] Instance ModuleProvenance_eq_dec : EqDecision ModuleProvenance.
Proof. solve_decision. Defined.

Record LoadedModule := {
  lm_id : ModuleId;
  lm_version : SemVer;
  lm_stage : StageId;
  lm_ir_reads : list string;
  lm_ir_writes : list string;
  lm_claims : list string;
  lm_requires_claims : list string;
  lm_incompatible_with : list string;
  lm_requires_modules : list ModuleId;
  lm_min_host_version : SemVer;
  lm_min_ir_schema : SemVer;
  lm_max_ir_schema : SemVer;
  lm_config_schema : ConfigSchema;
  lm_layer_parallel_safe : bool;
  lm_wasm_path : PathBuf;
  lm_provenance : ModuleProvenance;
  lm_placeholder_wasm : bool;
  lm_region_splits : list RegionSplitDeclaration;
  lm_paint_only : bool;
  lm_region_split_semantics : gset string
}.

(** [LoadedModule::config_keys]. *)
Definition config_keys (m : LoadedModule) : list string := btree_keys (cs_entries (lm_config_schema m)).

(** The builder holds every field but the derived dispatch set. *)
Record LoadedModuleBuilder := {
  b_id : ModuleId;
  b_version : SemVer;
  b_stage : StageId;
  b_wasm_path : PathBuf;
  b_ir_reads : list string;
  b_ir_writes : list string;
  b_claims : list string;
  b_requires_claims : list string;
  b_incompatible_with : list string;
  b_requires_modules : list ModuleId;
  b_min_host_version : SemVer;
  b_min_ir_schema : SemVer;
  b_max_ir_schema : SemVer;
  b_config_schema : ConfigSchema;
  b_layer_parallel_safe : bool;
  b_placeholder_wasm : bool;
  b_provenance : ModuleProvenance;
  b_region_splits : list RegionSplitDeclaration;
  b_paint_only : bool
}.

(** [LoadedModuleBuilder::new]. *)
Definition builder_new (id : ModuleId) (version : SemVer) (stage : StageId) (wasm_path : PathBuf)
    : LoadedModuleBuilder := {|
  b_id := id; b_version := version; b_stage := stage; b_wasm_path := wasm_path;
  b_ir_reads := []; b_ir_writes := []; b_claims := []; b_requires_claims := [];
  b_incompatible_with := []; b_requires_modules := [];
  b_min_host_version := SemVer_default; b_min_ir_schema := SemVer_default;
  b_max_ir_schema := SemVer_default; b_config_schema := {| cs_entries := ∅ |};
  b_layer_parallel_safe := false; b_placeholder_wasm := false;
  b_provenance := External; b_region_splits := []; b_paint_only := false
|}.

(** [LoadedModuleBuilder::build]: only a paint-only module gets a dispatch set. *)
Definition builder_build (b : LoadedModuleBuilder) : LoadedModule := {|
  lm_id := b_id b; lm_version := b_version b; lm_stage := b_stage b;
  lm_ir_reads := b_ir_reads b; lm_ir_writes := b_ir_writes b;
  lm_claims := b_claims b; lm_requires_claims := b_requires_claims b;
  lm_incompatible_with := b_incompatible_with b;
  lm_requires_modules := b_requires_modules b;
  lm_min_host_version := b_min_host_version b;
  lm_min_ir_schema := b_min_ir_schema b; lm_max_ir_schema := b_max_ir_schema b;
  lm_config_schema := b_config_schema b;
  lm_layer_parallel_safe := b_layer_parallel_safe b;
  lm_wasm_path := b_wasm_path b; lm_provenance := b_provenance b;
  lm_placeholder_wasm := b_placeholder_wasm b;
  lm_region_splits := b_region_splits b; lm_paint_only := b_paint_only b;
  lm_region_split_semantics :=
    if b_paint_only b then list_to_set (rsd_semantic <$> b_region_splits b) else ∅
|}.

(** ** Diagnostics and errors *)

Inductive DiagnosticLevel := Info | Warning | Error.
#[export] Instance DiagnosticLevel_eq_dec : EqDecision DiagnosticLevel.
Proof. solve_decision. Defined.

Record LoadDiagnostic := {
  ld_level : DiagnosticLevel;
  ld_path : PathBuf;
  ld_field : option string;
  ld_message : string
}.
#[export] Instance LoadDiagnostic_eq_dec : EqDecision LoadDiagnostic.
Proof. solve_decision. Defined.

Inductive LoadErrorKind :=
| NotImplemented
| Io
| TomlParse
| Schema
| MissingWasm
| Validation
| DuplicateRegionSplitSemantic (semantic : string) (first_line second_line : option nat)
| ScalarValueTypeNotAllowedInRegionSplit (semantic : string)
| CommunityPriorityBelowFloor (semantic : string) (given_priority floor : Z)
| CorePriorityMismatch (semantic : string) (given_priority expected_priority : Z)
| PaintOnlyWithoutRegionSplit.
#[export] Instance LoadErrorKind_eq_dec : EqDecision LoadErrorKind.
Proof. solve_decision. Defined.

Record LoadError := {
  le_path : PathBuf;
  le_field : option string;
  le_kind : LoadErrorKind;
  le_message : string
}.
#[export] Instance LoadError_eq_dec : EqDecision LoadError.
Proof. solve_decision. Defined.

(** ** Rules of one manifest *)

(** [effective_parallel_safety]: finalization modules are always serialized. *)
Definition effective_parallel_safety (manifest_path : PathBuf) (stage : string) (declared : bool)
    (diagnostics : list LoadDiagnostic) : bool * list LoadDiagnostic :=
  if String.eqb stage "PostPass::LayerFinalization" then
    (false,
     if declared then
       diagnostics ++
         [{| ld_level := Warning; ld_path := manifest_path;
             ld_field := Some "hints.layer-parallel-safe";
             ld_message := "PostPass::LayerFinalization modules are always serialized; normalizing layer-parallel-safe to false" |}]
     else diagnostics)
  else (declared, diagnostics).

(** [slicer_schema]: the registered core semantics and the community floor. *)
Definition CORE_REGION_SPLIT_PRIORITIES : list (string * Z) :=
  [("material", 100%Z); ("fuzzy_skin", 200%Z)].
Definition COMMUNITY_PRIORITY_FLOOR : Z := 1000.

Definition core_priority (semantic : string) : option Z :=
  snd <$> find (fun p => String.eqb p.1 semantic) CORE_REGION_SPLIT_PRIORITIES.

(** The duplicate check: the first semantic that was already seen. *)
Fixpoint first_duplicate (seen : gset string) (splits : list RegionSplitDeclaration)
    : option RegionSplitDeclaration :=
  match splits with
  | [] => None
  | decl :: rest =>
      if decide (rsd_semantic decl ∈ seen) then Some decl
      else first_duplicate ({[rsd_semantic decl]} ∪ seen) rest
  end.

Definition region_split_error (path : PathBuf) (kind : LoadErrorKind) (message : string)
    : LoadError :=
  {| le_path := path; le_field := Some "region_split"; le_kind := kind; le_message := message |}.

(** The priority rule of one declaration. *)
Definition priority_error (path : PathBuf) (decl : RegionSplitDeclaration) : option LoadError :=
  match core_priority (rsd_semantic decl) with
  | Some expected =>
      if Z.eqb (rsd_priority decl) expected then None
      else Some (region_split_error path
             (CorePriorityMismatch (rsd_semantic decl) (rsd_priority decl) expected)
             ("core semantic '" +:+ rsd_semantic decl +:+ "' must have priority "
                +:+ show_uint expected +:+ ", but " +:+ show_uint (rsd_priority decl) +:+ " was declared"))
  | None =>
      if Z.ltb (rsd_priority decl) COMMUNITY_PRIORITY_FLOOR then
        Some (region_split_error path
          (CommunityPriorityBelowFloor (rsd_semantic decl) (rsd_priority decl)
             COMMUNITY_PRIORITY_FLOOR)
          ("community semantic '" +:+ rsd_semantic decl +:+ "' priority "
             +:+ show_uint (rsd_priority decl) +:+ " is below the minimum floor of "
             +:+ show_uint COMMUNITY_PRIORITY_FLOOR))
      else None
  end.

Fixpoint first_priority_error (path : PathBuf) (splits : list RegionSplitDeclaration)
    : option LoadError :=
  match splits with
  | [] => None
  | decl :: rest =>
      match priority_error path decl with
      | Some e => Some e
      | None => first_priority_error path rest
      end
  end.

(** [validate_region_splits]: the whole duplicate check runs before the priorities. *)
Definition validate_region_splits (splits : list RegionSplitDeclaration) (path : PathBuf)
    : result unit LoadError :=
  match first_duplicate ∅ splits with
  | Some decl =>
      Err (region_split_error path
        (DuplicateRegionSplitSemantic (rsd_semantic decl) None None)
        ("duplicate region_split semantic '" +:+ rsd_semantic decl
           +:+ "': each semantic may only appear once per manifest"))
  | None =>
      match first_priority_error path splits with
      | Some e => Err e
      | None => Ok tt
      end
  end.

(** A declaration list that obeys the documented rules. *)
Definition region_splits_valid (splits : list RegionSplitDeclaration) : Prop :=
  NoDup (rsd_semantic <$> splits) /\
  forall decl, decl ∈ splits ->
    match core_priority (rsd_semantic decl) with
    | Some expected => rsd_priority decl = expected
    | None => (COMMUNITY_PRIORITY_FLOOR <= rsd_priority decl)%Z
    end.

Lemma first_duplicate_None seen splits :
  first_duplicate seen splits = None <->
  NoDup (rsd_semantic <$> splits) /\ forall s, s ∈ rsd_semantic <$> splits -> s ∉ seen.
Proof.
  revert seen; induction splits as [|d splits IH]; intros seen; simpl.
  - split; [|done]. intros _. split; [constructor|]. intros s Hs. by apply elem_of_nil in Hs.
  - rewrite NoDup_cons. case_decide as Hd.
    + split; [done|]. intros [_ Hall]. exfalso. by apply (Hall (rsd_semantic d)); [left|].
    + rewrite IH. split.
      * intros [Hnd Hall]. split; [split; [|done]|].
        -- intros Hin. by apply (Hall _ Hin), elem_of_union_l, elem_of_singleton.
        -- intros s [->|Hs]%elem_of_cons; [done|]. specialize (Hall s Hs). set_solver.
      * intros [[Hni Hnd] Hall]. split; [done|]. intros s Hs.
        rewrite not_elem_of_union, not_elem_of_singleton. split; [naive_solver|].
        apply Hall. by right.
Qed.

Lemma priority_error_None path d :
  priority_error path d = None <->
  match core_priority (rsd_semantic d) with
  | Some expected => rsd_priority d = expected
  | None => (COMMUNITY_PRIORITY_FLOOR <= rsd_priority d)%Z
  end.
Proof.
  unfold priority_error. destruct (core_priority (rsd_semantic d)) as [p|].
  - destruct (Z.eqb_spec (rsd_priority d) p); split; congruence.
  - destruct (Z.ltb_spec (rsd_priority d) COMMUNITY_PRIORITY_FLOOR);
      (split; [|try done]); intros; (done || lia).
Qed.

Lemma first_priority_error_None path splits :
  first_priority_error path splits = None <->
  forall d, d ∈ splits -> priority_error path d = None.
Proof.
  induction splits as [|d splits IH]; simpl.
  - split; [|done]. intros _ d Hd. by apply elem_of_nil in Hd.
  - split.
    + destruct (priority_error path d) eqn:Hd; [done|]. rewrite IH.
      intros Hall d' [->|Hd']%elem_of_cons; auto.
    + intros Hall. rewrite (Hall d) by left. apply IH. intros d' Hd'. apply Hall. by right.
Qed.

(** The manifest rules for [[region_split]] are decided exactly: the
    check succeeds if and only if every semantic is declared once, every core
    semantic has its registered priority and every community semantic is at or
    above the floor; and when some semantic is repeated, the duplicate is what is
    reported, whatever the priorities are. *)
Theorem validate_region_splits_spec splits path :
  (validate_region_splits splits path = Ok tt <-> region_splits_valid splits) /\
  (~ NoDup (rsd_semantic <$> splits) ->
   exists decl e, decl ∈ splits /\ validate_region_splits splits path = Err e /\
     le_kind e = DuplicateRegionSplitSemantic (rsd_semantic decl) None None).
Proof.
  assert (Hdup : forall seen l d, first_duplicate seen l = Some d -> d ∈ l).
  { intros seen l; revert seen; induction l as [|d' l IH]; intros seen d; simpl; [done|].
    case_decide; [intros [= ->]; left|]. intros Hd. right. by eapply IH. }
  unfold validate_region_splits, region_splits_valid.
  destruct (first_duplicate ∅ splits) as [decl|] eqn:Hfd.
  - assert (Hnd : ~ NoDup (rsd_semantic <$> splits)).
    { intros Hnd. assert (Hn : first_duplicate ∅ splits = None); [|congruence].
      apply first_duplicate_None. split; [done|]. intros s _. apply not_elem_of_empty. }
    split; [split; [done|tauto]|]. intros _. do 2 eexists. split; [by eapply Hdup|]. done.
  - apply first_duplicate_None in Hfd as [Hnd _]. split; [|done].
    destruct (first_priority_error path splits) as [e|] eqn:He.
    + split; [done|]. intros [_ Hall].
      assert (Hn : first_priority_error path splits = None); [|congruence].
      apply first_priority_error_None. intros d Hd. by apply priority_error_None, Hall.
    + split; [|done]. intros _. split; [done|]. intros d Hd.
      apply (priority_error_None path). by eapply first_priority_error_None.
Qed.

(** ** Loading search roots and the integrated registry *)

Record LoadModulesReport := {
  lmr_modules : list LoadedModule;
  lmr_diagnostics : list LoadDiagnostic
}.

Record IngestedManifest := {
  ing_module : LoadedModule;
  ing_diagnostics : list LoadDiagnostic
}.

Definition duplicate_diagnostic (path : PathBuf) (id : ModuleId) : LoadDiagnostic :=
  {| ld_level := Warning; ld_path := path; ld_field := Some "module.id";
     ld_message := "duplicate module id '" +:+ id +:+
       "' ignored because an earlier search root already provided it" |}.

Definition shadow_diagnostic (path : PathBuf) (id : ModuleId) : LoadDiagnostic :=
  {| ld_level := Warning; ld_path := path; ld_field := Some "module.id";
     ld_message := "external module " +:+ id +:+ " shadows integrated module " +:+ id |}.

Section loader.
(** [discover_manifest_paths]: the sorted manifests below one root. *)
Context (discover_manifest_paths : PathBuf -> result (list PathBuf) LoadError).
(** [ingest_manifest] on a manifest and its same-stem [.wasm] file. *)
Context (ingest_manifest : PathBuf -> result IngestedManifest LoadError).
(** An integrated module: its origin label and the ingestion of its embedded text. *)
Context {Registration : Type} (origin_label : Registration -> PathBuf)
        (ingest_integrated : Registration -> result IngestedManifest LoadError).

Record LoaderState := {
  ls_report : LoadModulesReport;
  ls_seen_ids : gmap ModuleId ModuleProvenance
}.

Definition push_diagnostics (ds : list LoadDiagnostic) (st : LoaderState) : LoaderState := {|
  ls_report := {| lmr_modules := lmr_modules (ls_report st);
                  lmr_diagnostics := lmr_diagnostics (ls_report st) ++ ds |};
  ls_seen_ids := ls_seen_ids st
|}.

(** Take an ingested module, or report it as ignored. *)
Definition admit_module (on_duplicate : ModuleProvenance -> LoadDiagnostic)
    (r : IngestedManifest) (st : LoaderState) : LoaderState :=
  match ls_seen_ids st !! lm_id (ing_module r) with
  | Some winner => push_diagnostics (on_duplicate winner :: ing_diagnostics r) st
  | None =>
      let st' := push_diagnostics (ing_diagnostics r) st in
      {| ls_report := {| lmr_modules := lmr_modules (ls_report st') ++ [ing_module r];
                         lmr_diagnostics := lmr_diagnostics (ls_report st') |};
         ls_seen_ids :=
           <[lm_id (ing_module r) := lm_provenance (ing_module r)]> (ls_seen_ids st') |}
  end.

Fixpoint load_manifests (paths : list PathBuf) (st : LoaderState) : result LoaderState LoadError :=
  match paths with
  | [] => Ok st
  | path :: rest =>
      let? r := ingest_manifest path in
      load_manifests rest
        (admit_module (fun _ => duplicate_diagnostic path (lm_id (ing_module r))) r st)
  end.

Fixpoint load_roots (roots : list PathBuf) (st : LoaderState) : result LoaderState LoadError :=
  match roots with
  | [] => Ok st
  | root :: rest =>
      match discover_manifest_paths root with
      | Err e =>
          load_roots rest
            (push_diagnostics [{| ld_level := Error; ld_path := le_path e;
                                  ld_field := le_field e; ld_message := le_message e |}] st)
      | Ok paths => let? st' := load_manifests paths st in load_roots rest st'
      end
  end.

Definition integrated_diagnostic (path : PathBuf) (id : ModuleId) (winner : ModuleProvenance)
    : LoadDiagnostic :=
  match winner with
  | External => shadow_diagnostic path id
  | Integrated => duplicate_diagnostic path id
  end.

Fixpoint load_integrated (regs : list Registration) (st : LoaderState)
    : result LoaderState LoadError :=
  match regs with
  | [] => Ok st
  | reg :: rest =>
      let? r := ingest_integrated reg in
      load_integrated rest
        (admit_module (integrated_diagnostic (origin_label reg) (lm_id (ing_module r))) r st)
  end.

(** [load_modules_from_roots_with_integrated]. *)
Definition load_modules_from_roots_with_integrated (search_roots : list PathBuf)
    (integrated : list Registration) : result LoadModulesReport LoadError :=
  let? st := load_roots search_roots
    {| ls_report := {| lmr_modules := []; lmr_diagnostics := [] |}; ls_seen_ids := ∅ |} in
  let? st' := load_integrated integrated st in
  Ok (ls_report st').

Definition load_modules_from_roots (search_roots : list PathBuf)
    : result LoadModulesReport LoadError :=
  load_modules_from_roots_with_integrated search_roots [].

(** *** What is loaded: the first provider of each id *)

(** Every manifest in the order the loader meets it; an unreadable root
    contributes none, a manifest that fails to ingest stops the load. *)
Fixpoint ingest_all (paths : list PathBuf) : result (list LoadedModule) LoadError :=
  match paths with
  | [] => Ok []
  | path :: rest =>
      let? r := ingest_manifest path in
      let? rs := ingest_all rest in Ok (ing_module r :: rs)
  end.

Fixpoint ingest_registry (regs : list Registration) : result (list LoadedModule) LoadError :=
  match regs with
  | [] => Ok []
  | reg :: rest =>
      let? r := ingest_integrated reg in
      let? rs := ingest_registry rest in Ok (ing_module r :: rs)
  end.

Definition manifests_of (root : PathBuf) : list PathBuf :=
  match discover_manifest_paths root with Ok paths => paths | Err _ => [] end.

Definition candidates (roots : list PathBuf) (regs : list Registration)
    : result (list LoadedModule) LoadError :=
  let? disk := ingest_all (flat_map manifests_of roots) in
  let? builtin := ingest_registry regs in
  Ok (disk ++ builtin).

(** Keep the first module of each id. *)
Fixpoint first_wins (seen : gset ModuleId) (l : list LoadedModule) : list LoadedModule :=
  match l with
  | [] => []
  | m :: rest =>
      if decide (lm_id m ∈ seen) then first_wins seen rest
      else m :: first_wins ({[lm_id m]} ∪ seen) rest
  end.

Lemma first_wins_app seen l1 l2 :
  first_wins seen (l1 ++ l2) =
  first_wins seen l1 ++ first_wins (list_to_set (lm_id <$> l1) ∪ seen) l2.
Proof.
  revert seen; induction l1 as [|m l1 IH]; intros seen; simpl.
  - by rewrite (left_id_L ∅ (∪)).
  - case_decide as Hm.
    + rewrite IH. do 2 f_equal. set_solver.
    + rewrite IH. simpl. do 3 f_equal. set_solver.
Qed.

(** The state after the modules [l] were met starting from an empty loader. *)
Definition loader_inv (l : list LoadedModule) (st : LoaderState) : Prop :=
  lmr_modules (ls_report st) = first_wins ∅ l /\
  dom (ls_seen_ids st) = list_to_set (lm_id <$> l).

Lemma admit_module_inv f r l st :
  loader_inv l st -> loader_inv (l ++ [ing_module r]) (admit_module f r st).
Proof.
  intros [Hm Hs]. unfold loader_inv, admit_module.
  rewrite first_wins_app, (right_id_L ∅ (∪)), fmap_app, list_to_set_app_L. simpl.
  destruct (ls_seen_ids st !! lm_id (ing_module r)) eqn:Hl; simpl.
  - apply elem_of_dom_2 in Hl. rewrite Hs in Hl. rewrite decide_True by done.
    rewrite app_nil_r. split; [done|]. rewrite Hs. set_solver.
  - apply not_elem_of_dom_2 in Hl. rewrite Hs in Hl. rewrite decide_False by done.
    rewrite Hm. split; [done|]. rewrite dom_insert_L, Hs. set_solver.
Qed.

Lemma load_manifests_spec paths l st :
  loader_inv l st ->
  match ingest_all paths with
  | Ok ms => exists st', load_manifests paths st = Ok st' /\ loader_inv (l ++ ms) st'
  | Err e => load_manifests paths st = Err e
  end.
Proof.
  revert l st; induction paths as [|p paths IH]; intros l st Hinv; simpl.
  - exists st. by rewrite app_nil_r.
  - destruct (ingest_manifest p) as [r|e]; simpl; [|done].
    eapply (admit_module_inv (fun _ => duplicate_diagnostic p (lm_id (ing_module r))) r) in Hinv.
    specialize (IH _ _ Hinv).
    destruct (ingest_all paths) as [ms|e]; simpl; [|done].
    destruct IH as (st' & Hrun & Hst'). exists st'. split; [done|].
    by rewrite <-(assoc_L (++)) in Hst'.
Qed.

Lemma load_integrated_spec regs l st :
  loader_inv l st ->
  match ingest_registry regs with
  | Ok ms => exists st', load_integrated regs st = Ok st' /\ loader_inv (l ++ ms) st'
  | Err e => load_integrated regs st = Err e
  end.
Proof.
  revert l st; induction regs as [|reg regs IH]; intros l st Hinv; simpl.
  - exists st. by rewrite app_nil_r.
  - destruct (ingest_integrated reg) as [r|e]; simpl; [|done].
    eapply (admit_module_inv
      (integrated_diagnostic (origin_label reg) (lm_id (ing_module r))) r) in Hinv.
    specialize (IH _ _ Hinv).
    destruct (ingest_registry regs) as [ms|e]; simpl; [|done].
    destruct IH as (st' & Hrun & Hst'). exists st'. split; [done|].
    by rewrite <-(assoc_L (++)) in Hst'.
Qed.

Lemma ingest_all_app ps qs :
  ingest_all (ps ++ qs) =
  (let? a := ingest_all ps in let? b := ingest_all qs in Ok (a ++ b)).
Proof.
  induction ps as [|p ps IH]; simpl; [by destruct (ingest_all qs)|].
  destruct (ingest_manifest p); simpl; [|done]. rewrite IH.
  destruct (ingest_all ps); simpl; [|done]. by destruct (ingest_all qs).
Qed.

Lemma load_roots_spec roots l st :
  loader_inv l st ->
  match ingest_all (flat_map manifests_of roots) with
  | Ok ms => exists st', load_roots roots st = Ok st' /\ loader_inv (l ++ ms) st'
  | Err e => load_roots roots st = Err e
  end.
Proof.
  revert l st; induction roots as [|root roots IH]; intros l st Hinv; simpl.
  - exists st. by rewrite app_nil_r.
  - unfold manifests_of at 1. rewrite ingest_all_app.
    destruct (discover_manifest_paths root) as [paths|e] eqn:Hd; simpl.
    + pose proof (load_manifests_spec paths l st Hinv) as Hp.
      destruct (ingest_all paths) as [ms|e]; simpl; [|by rewrite Hp].
      destruct Hp as (st' & Hrun & Hst'). rewrite Hrun. simpl.
      specialize (IH _ _ Hst'). destruct (ingest_all (flat_map _ roots)); simpl; [|done].
      destruct IH as (st'' & ? & Hst''). exists st''. split; [done|].
      by rewrite <-(assoc_L (++)) in Hst''.
    + match goal with |- context [load_roots roots ?s] => specialize (IH l s Hinv) end.
      by destruct (ingest_all (flat_map _ roots)).
Qed.

Lemma first_wins_spec seen l :
  NoDup (lm_id <$> first_wins seen l) /\
  (forall m, m ∈ first_wins seen l <->
     exists l1 l2, l = l1 ++ m :: l2 /\ lm_id m ∉ seen /\ lm_id m ∉ lm_id <$> l1).
Proof.
  revert seen; induction l as [|x l IH]; intros seen; simpl.
  - split; [constructor|]. intros m. rewrite elem_of_nil. split; [done|].
    intros (l1 & l2 & Hl & _). by destruct l1.
  - assert (Hsplit : forall m (P : list LoadedModule -> Prop),
      (exists l1 l2, x :: l = l1 ++ m :: l2 /\ P l1) <->
      (m = x /\ P []) \/ (exists l1 l2, l = l1 ++ m :: l2 /\ P (x :: l1))).
    { intros m P. split.
      - intros ([|y l1] & l2 & [= <- ->] & HP); [by left|]. right. eauto.
      - intros [[-> HP]|(l1 & l2 & -> & HP)]; [exists [], l|exists (x :: l1), l2]; done. }
    destruct (IH seen) as [Hnd1 Hin1], (IH ({[lm_id x]} ∪ seen)) as [Hnd2 Hin2].
    case_decide as Hx.
    + split; [done|]. intros m. rewrite Hin1, Hsplit. rewrite fmap_nil.
      setoid_rewrite fmap_cons. setoid_rewrite not_elem_of_cons. split.
      * intros (l1 & l2 & -> & Hs & Hl1). right. exists l1, l2. split; [done|].
        split; [done|]. split; [|done]. intros Heq. by rewrite Heq in Hs.
      * intros [[-> [Hs _]]|(l1 & l2 & -> & Hs & _ & Hl1)]; [done|]. eauto.
    + split.
      * rewrite fmap_cons. constructor; [|done]. intros Hin.
        apply list_elem_of_fmap in Hin as (m & Hm & Hin). apply Hin2 in Hin as (? & ? & _ & Hs & _).
        set_solver.
      * intros m. rewrite elem_of_cons, Hin2, Hsplit, fmap_nil.
        setoid_rewrite fmap_cons. setoid_rewrite not_elem_of_cons.
        setoid_rewrite not_elem_of_union. setoid_rewrite not_elem_of_singleton.
        split.
        -- intros [->|(l1 & l2 & -> & [Hn Hs] & Hl1)]; [left; split; [done|]|right; eauto 6].
           split; [done|]. apply not_elem_of_nil.
        -- intros [[-> _]|(l1 & l2 & -> & Hs & Hn & Hl1)]; [by left|right; eauto 6].
Qed.

(** Loading search roots and the integrated registry keeps the first
    provider of each module id, in discovery order: the disk roots in their
    order and then the registry, so an external module shadows an integrated
    one.  A root that cannot be read is skipped, while a manifest that fails to
    ingest fails the whole load.  Every module that was met is represented and
    no id is loaded twice. *)
Theorem load_modules_first_wins roots regs :
  match candidates roots regs with
  | Err e => load_modules_from_roots_with_integrated roots regs = Err e
  | Ok ms => exists report,
      load_modules_from_roots_with_integrated roots regs = Ok report /\
      lmr_modules report = first_wins ∅ ms /\
      NoDup (lm_id <$> lmr_modules report) /\
      (forall m, m ∈ ms -> lm_id m ∈ lm_id <$> lmr_modules report)
  end.
Proof.
  unfold candidates, load_modules_from_roots_with_integrated.
  set (st0 := {| ls_report := _ |}).
  assert (Hinv : loader_inv [] st0) by (split; [done|apply dom_empty_L]).
  pose proof (load_roots_spec roots [] st0 Hinv) as Hr. simpl in Hr.
  destruct (ingest_all (flat_map manifests_of roots)) as [disk|e]; simpl; [|by rewrite Hr].
  destruct Hr as (st1 & -> & Hst1). simpl.
  pose proof (load_integrated_spec regs _ _ Hst1) as Hi.
  destruct (ingest_registry regs) as [builtin|e]; simpl; [|by rewrite Hi].
  destruct Hi as (st2 & -> & [Hmods Hdom]). simpl. exists (ls_report st2).
  split; [done|]. split; [done|]. rewrite Hmods. split; [apply first_wins_spec|].
  intros m Hm. set (l := disk ++ builtin) in *. clearbody l.
  assert (Hex : exists l1 m' l2, l = l1 ++ m' :: l2 /\ lm_id m' = lm_id m /\
                  lm_id m ∉ lm_id <$> l1).
  { clear -Hm. induction l as [|x l IH]; [by apply elem_of_nil in Hm|].
    destruct (decide (lm_id x = lm_id m)) as [He|Hne].
    - exists [], x, l. split; [done|]. split; [done|]. apply not_elem_of_nil.
    - apply elem_of_cons in Hm as [->|Hm]; [done|].
      destruct (IH Hm) as (l1 & m' & l2 & -> & He & Hl1).
      exists (x :: l1), m', l2. split; [done|]. split; [done|].
      rewrite fmap_cons, not_elem_of_cons. auto. }
  destruct Hex as (l1 & m' & l2 & -> & He & Hl1). rewrite <-He.
  apply list_elem_of_fmap_2, first_wins_spec. exists l1, l2. split; [done|].
  rewrite He. split; [apply not_elem_of_empty|done].
Qed.
End loader.
