(* ===== verification/Dag.v ===== *)
(** Stage graphs ([dag.rs], [instrumentation.rs]): the [Producer] interface, its
    implementations, and the construction of the intra-stage graph, of the global
    edge list and of the serial-edge report from declared reads, writes and
    explicit requirements.  The error type of the scheduler is here too, because
    the graph builder's signature mentions it. *)
From Stdlib Require Import Ascii.
From stdpp Require Import prelude gmap strings list.
From S2P Require Import Prelude Ir Manifest.

#[local] Open Scope string_scope.
#[local] Open Scope list_scope.

(** ** Scheduler errors ([validation.rs]) *)

Inductive ConflictScope :=
| Global
| Region (object_id region_id : string) (global_layer_index : option Z).
#[export] Instance ConflictScope_eq_dec : EqDecision ConflictScope.
Proof. solve_decision. Defined.

Inductive AccessKind := Read | Write.
#[export] Instance AccessKind_eq_dec : EqDecision AccessKind.
Proof. solve_decision. Defined.

Inductive SchedulerError :=
| SeNotImplemented
| UnknownStage (module : ModuleId) (declared_stage : StageId)
| ClaimConflict (claim : string) (module_a module_b : ModuleId) (scope : ConflictScope)
| IncompatibleModules (declared_by conflicting : ModuleId) (reason : string)
| MissingDependency (module requires : ModuleId)
| CyclicDependency (cycle : list ModuleId)
| UnfulfilledRead (module : ModuleId) (field : string) (suggestion : option string)
| IrVersionIncompatible (module : ModuleId) (ir_type : string) (required available : SemVer)
| HostVersionIncompatible (module : ModuleId) (required available : SemVer)
| SeStageMismatch (module : ModuleId) (declared_stage : StageId) (exported_fn : string)
| WriteConflict (field : string) (module_a module_b : ModuleId) (stage : StageId) (orderable : bool)
| DeadWrite (module : ModuleId) (field : string)
| UndeclaredAccess (module : ModuleId) (access : AccessKind) (path : string)
| CrossStageDependency (module requires : ModuleId) (module_stage required_stage : StageId)
| TransitiveStageDependency (module : ModuleId) (path : list ModuleId)
    (module_stage later_stage : StageId).
#[export] Instance SchedulerError_eq_dec : EqDecision SchedulerError.
Proof. solve_decision. Defined.

(** ** Producers *)

(** Anything that behaves like a scheduled module. *)
Class Producer (P : Type) := {
  p_id : P -> string;
  p_stage : P -> string;
  p_ir_writes : P -> list string;
  p_ir_reads : P -> list string;
  p_claims_holds : P -> list string;
  p_claims_requires : P -> list string;
  p_requires_modules : P -> list string;
  p_min_ir_schema : P -> SemVer;
  p_max_ir_schema : P -> SemVer
}.

#[export] Instance LoadedModule_producer : Producer LoadedModule := {
  p_id := lm_id;
  p_stage := lm_stage;
  p_ir_writes := lm_ir_writes;
  p_ir_reads := lm_ir_reads;
  p_claims_holds := lm_claims;
  p_claims_requires := lm_requires_claims;
  p_requires_modules := lm_requires_modules;
  p_min_ir_schema := lm_min_ir_schema;
  p_max_ir_schema := lm_max_ir_schema
}.

(** A built-in step of the pipeline; the lazily filled caches of the source hold
    copies of the static lists and are not part of the value. *)
Record BuiltinProducer := {
  bp_id : string;
  bp_stage : string;
  bp_ir_writes : list string;
  bp_ir_reads : list string;
  bp_claims_holds : list string;
  bp_claims_requires : list string;
  bp_requires_modules : list string;
  bp_min_ir_schema : SemVer;
  bp_max_ir_schema : SemVer
}.

#[export] Instance BuiltinProducer_producer : Producer BuiltinProducer := {
  p_id := bp_id;
  p_stage := bp_stage;
  p_ir_writes := bp_ir_writes;
  p_ir_reads := bp_ir_reads;
  p_claims_holds := bp_claims_holds;
  p_claims_requires := bp_claims_requires;
  p_requires_modules := bp_requires_modules;
  p_min_ir_schema := bp_min_ir_schema;
  p_max_ir_schema := bp_max_ir_schema
}.

(** A [&dyn Producer] is one or the other. *)
#[export] Instance dyn_producer {P Q} `{Producer P, Producer Q} : Producer (P + Q) :=
  let lift {T} (f : P -> T) (g : Q -> T) (x : P + Q) : T :=
    match x with inl a => f a | inr b => g b end in {|
  p_id := lift p_id p_id;
  p_stage := lift p_stage p_stage;
  p_ir_writes := lift p_ir_writes p_ir_writes;
  p_ir_reads := lift p_ir_reads p_ir_reads;
  p_claims_holds := lift p_claims_holds p_claims_holds;
  p_claims_requires := lift p_claims_requires p_claims_requires;
  p_requires_modules := lift p_requires_modules p_requires_modules;
  p_min_ir_schema := lift p_min_ir_schema p_min_ir_schema;
  p_max_ir_schema := lift p_max_ir_schema p_max_ir_schema
|}.

(** ** Graph data *)

Inductive EdgeReason :=
| IrWriteRead (writer_path : string)
| ExplicitRequires.
#[export] Instance EdgeReason_eq_dec : EqDecision EdgeReason.
Proof. solve_decision. Defined.

Record EdgeTo := { et_to : ModuleId; et_reasons : list EdgeReason }.
#[export] Instance EdgeTo_eq_dec : EqDecision EdgeTo.
Proof. solve_decision. Defined.

Record ModuleNode := {
  mn_module_id : ModuleId;
  mn_ir_reads : list string;
  mn_ir_writes : list string;
  mn_edges_to : list EdgeTo
}.
#[export] Instance ModuleNode_eq_dec : EqDecision ModuleNode.
Proof. solve_decision. Defined.

Record GlobalEdge := {
  ge_from : ModuleId;
  ge_from_stage : StageId;
  ge_to : ModuleId;
  ge_to_stage : StageId;
  ge_reason : EdgeReason
}.

Record SerialEdge := { se_from : ModuleId; se_to : ModuleId; se_reason : EdgeReason }.

Definition contains (l : list string) (x : string) : bool := existsb (String.eqb x) l.

Lemma contains_spec l x : contains l x = true <-> x ∈ l.
Proof.
  unfold contains. rewrite existsb_exists, list_elem_of_In. split.
  - intros (y & Hy & ->%String.eqb_eq). done.
  - intros Hx. exists x. split; [done|]. apply String.eqb_refl.
Qed.

Definition reason_tag (r : EdgeReason) : nat :=
  match r with IrWriteRead _ => 0 | ExplicitRequires => 1 end.

(** The comparison of the edge sorts: [from], [to], reason tag, written path. *)
Definition edge_key (from to : ModuleId) (r : EdgeReason) : string * (string * (nat * string)) :=
  (from, (to, (reason_tag r, match r with IrWriteRead p => p | ExplicitRequires => "" end))).

(** Per-source adjacency: the reasons of each downstream module. *)
Notation EdgeMap := (gmap ModuleId (gmap ModuleId (list EdgeReason))) (only parsing).

Section builders.
Context {P : Type} `{Producer P}.

(** Writers paired with the readers of what they write, in loop order. *)
Definition write_read_pairs (producers : list P) : list (P * P * string) :=
  flat_map (fun writer =>
    flat_map (fun reader =>
      if String.eqb (p_id writer) (p_id reader) then []
      else (fun path => (writer, reader, path)) <$>
             base.filter (fun path => contains (p_ir_reads reader) path = true) (p_ir_writes writer))
    producers) producers.

(** [build_global_dag]. *)
Definition build_global_dag (producers : list P) : list GlobalEdge :=
  let writes := (fun '(writer, reader, path) =>
      {| ge_from := p_id writer; ge_from_stage := p_stage writer;
         ge_to := p_id reader; ge_to_stage := p_stage reader;
         ge_reason := IrWriteRead path |}) <$> write_read_pairs producers in
  let requires := flat_map (fun producer =>
      flat_map (fun required =>
        match find (fun p => String.eqb (p_id p) required) producers with
        | Some req => [{| ge_from := p_id req; ge_from_stage := p_stage req;
                          ge_to := p_id producer; ge_to_stage := p_stage producer;
                          ge_reason := ExplicitRequires |}]
        | None => []
        end) (p_requires_modules producer)) producers in
  sort_by (fun a b => rust_leb (edge_key (ge_from a) (ge_to a) (ge_reason a))
                               (edge_key (ge_from b) (ge_to b) (ge_reason b)))
    (writes ++ requires).

(** [edges_by_source.get_mut(src)] with [entry(dst).or_default()] and the check
    that the reason is new. *)
Definition add_reason (m : EdgeMap) (e : ModuleId * ModuleId * EdgeReason) : EdgeMap :=
  let '(src, dst, reason) := e in
  match m !! src with
  | None => m
  | Some by_dst =>
      let reasons := default [] (by_dst !! dst) in
      <[src := <[dst := if decide (reason ∈ reasons) then reasons else reasons ++ [reason]]>
                 by_dst]> m
  end.

Definition set_edges (nodes : gmap ModuleId ModuleNode)
    (e : ModuleId * gmap ModuleId (list EdgeReason)) : gmap ModuleId ModuleNode :=
  match nodes !! e.1 with
  | Some node =>
      <[e.1 := {| mn_module_id := mn_module_id node; mn_ir_reads := mn_ir_reads node;
                  mn_ir_writes := mn_ir_writes node;
                  mn_edges_to := (fun p => {| et_to := p.1; et_reasons := p.2 |}) <$>
                                   btree_iter e.2 |}]> nodes
  | None => nodes
  end.

Definition stage_producers (stage : StageId) (producers : list P) : list P :=
  base.filter (fun p => String.eqb (p_stage p) stage = true) producers.

Definition bare_node (p : P) : ModuleNode :=
  {| mn_module_id := p_id p; mn_ir_reads := p_ir_reads p; mn_ir_writes := p_ir_writes p;
     mn_edges_to := [] |}.

(** The edges in the order the two loops of [build_intra_stage_dag] add them. *)
Definition edge_requests (sp : list P) : list (ModuleId * ModuleId * EdgeReason) :=
  ((fun '(writer, reader, path) => (p_id writer, p_id reader, IrWriteRead path)) <$>
     write_read_pairs sp) ++
  flat_map (fun producer =>
    (fun required => (required, p_id producer, ExplicitRequires)) <$>
      p_requires_modules producer) sp.

(** The nodes before their edges are known; of equal ids the last producer stays. *)
Definition stage_nodes (sp : list P) : gmap ModuleId ModuleNode :=
  map_collect ((fun p => (p_id p, bare_node p)) <$> sp).

(** [edges_by_source] after both loops. *)
Definition stage_edge_map (sp : list P) : EdgeMap :=
  foldl add_reason (map_collect ((fun id => (id, ∅)) <$> btree_keys (stage_nodes sp)))
    (edge_requests sp).

(** [build_intra_stage_dag]. *)
Definition build_intra_stage_dag (stage : StageId) (producers : list P)
    : result (list ModuleNode) SchedulerError :=
  let sp := stage_producers stage producers in
  Ok (btree_values (foldl set_edges (stage_nodes sp) (btree_iter (stage_edge_map sp)))).
End builders.

(** [compute_serial_edges_for_stage]. *)
Definition compute_serial_edges_for_stage (modules : list LoadedModule) : list SerialEdge :=
  let writes := (fun '(writer, reader, path) =>
      {| se_from := lm_id writer; se_to := lm_id reader; se_reason := IrWriteRead path |}) <$>
      write_read_pairs modules in
  let requires := flat_map (fun module =>
      flat_map (fun required =>
        if existsb (fun m => String.eqb (lm_id m) required) modules
        then [{| se_from := required; se_to := lm_id module; se_reason := ExplicitRequires |}]
        else []) (lm_requires_modules module)) modules in
  sort_by (fun a b => rust_leb (edge_key (se_from a) (se_to a) (se_reason a))
                               (edge_key (se_from b) (se_to b) (se_reason b)))
    (writes ++ requires).

(** ** The edges a stage must have *)

Section spec.
Context {P : Type} `{Producer P}.

(** [s] must run before [d] in the stage, for the reason [r]. *)
Definition stage_edge (sp : list P) (s d : ModuleId) (r : EdgeReason) : Prop :=
  match r with
  | IrWriteRead path =>
      exists w rd, w ∈ sp /\ rd ∈ sp /\ p_id w = s /\ p_id rd = d /\ s <> d /\
        path ∈ p_ir_writes w /\ path ∈ p_ir_reads rd
  | ExplicitRequires =>
      (exists p, p ∈ sp /\ p_id p = d /\ s ∈ p_requires_modules p) /\ s ∈ p_id <$> sp
  end.

Lemma elem_of_write_read_pairs (sp : list P) w r path :
  (w, r, path) ∈ write_read_pairs sp <->
  w ∈ sp /\ r ∈ sp /\ p_id w <> p_id r /\ path ∈ p_ir_writes w /\ path ∈ p_ir_reads r.
Proof.
  unfold write_read_pairs. rewrite list_elem_of_In, in_flat_map.
  setoid_rewrite in_flat_map. setoid_rewrite <-list_elem_of_In. split.
  - intros (w' & Hw & r' & Hr & Hin).
    destruct (String.eqb_spec (p_id w') (p_id r')) as [|Hne]; [by apply elem_of_nil in Hin|].
    apply list_elem_of_fmap in Hin as (p & [= -> -> ->] & Hp).
    apply list_elem_of_filter in Hp as [Hp%contains_spec ?]. done.
  - intros (Hw & Hr & Hne & Hpw & Hpr). exists w. split; [done|]. exists r. split; [done|].
    apply String.eqb_neq in Hne. rewrite Hne. apply list_elem_of_fmap.
    exists path. split; [done|]. apply list_elem_of_filter. split; [|done].
    by apply contains_spec.
Qed.

Lemma elem_of_edge_requests (sp : list P) s d r :
  s ∈ p_id <$> sp -> ((s, d, r) ∈ edge_requests sp <-> stage_edge sp s d r).
Proof.
  intros Hs. unfold edge_requests, stage_edge.
  rewrite elem_of_app, list_elem_of_fmap, list_elem_of_In, in_flat_map.
  setoid_rewrite <-list_elem_of_In. setoid_rewrite list_elem_of_fmap. split.
  - intros [([[w rd] path] & [= -> -> ->] & Hin)|(p & Hp & req & [= -> -> ->] & Hreq)].
    + apply elem_of_write_read_pairs in Hin as (? & ? & ? & ? & ?). by exists w, rd.
    + split; [|done]. by exists p.
  - destruct r as [path|].
    + intros (w & rd & Hw & Hrd & <- & <- & Hne & Hpw & Hpr). left.
      exists (w, rd, path). split; [done|]. by apply elem_of_write_read_pairs.
    + intros [(p & Hp & <- & Hreq) _]. right. eauto.
Qed.

(** *** The accumulated reasons *)

Definition has_reason (m : EdgeMap) (s d : ModuleId) (r : EdgeReason) : Prop :=
  exists by_dst rs, m !! s = Some by_dst /\ by_dst !! d = Some rs /\ r ∈ rs.

Definition reasons_wf (m : EdgeMap) : Prop :=
  forall s by_dst d rs, m !! s = Some by_dst -> by_dst !! d = Some rs -> NoDup rs /\ rs <> [].

Lemma add_reason_dom m e : dom (add_reason m e) = dom m.
Proof.
  destruct e as [[s d] r]. unfold add_reason. destruct (m !! s) eqn:Hs; [|done].
  rewrite dom_insert_lookup_L; [done|]. rewrite Hs. done.
Qed.

Lemma add_reason_spec m e s d r :
  has_reason (add_reason m e) s d r <->
  has_reason m s d r \/ (e = (s, d, r) /\ s ∈ dom m).
Proof.
  destruct e as [[s' d'] r']. unfold has_reason, add_reason.
  destruct (m !! s') as [by_dst|] eqn:Hs.
  2: { split; [by left|]. intros [?|[[= -> -> ->] Hd]]; [done|].
       by apply not_elem_of_dom_2 in Hs. }
  assert (Hsd : s' ∈ dom m) by (by eapply elem_of_dom_2).
  set (new := if decide (r' ∈ default [] (by_dst !! d')) then _ else _).
  assert (Hnew : forall x, x ∈ new <-> x ∈ default [] (by_dst !! d') \/ x = r').
  { intros x. unfold new. case_decide; [naive_solver|].
    by rewrite elem_of_app, list_elem_of_singleton. }
  clearbody new.
  destruct (decide (s = s')) as [->|Hne]; [|rewrite lookup_insert_ne by done; naive_solver].
  rewrite lookup_insert_eq. destruct (decide (d = d')) as [->|Hnd].
  - split.
    + intros (? & rs & [= <-] & Hrs & Hr). rewrite lookup_insert_eq in Hrs.
      injection Hrs as <-. apply Hnew in Hr as [Hr| ->]; [left|by right].
      destruct (by_dst !! d') as [rs|] eqn:Hl; [|by apply elem_of_nil in Hr]. eauto.
    + intros [(b & rs & Hb & Hrs & Hr)|[[= ->] _]]; do 2 eexists; split; [done| |done|].
      * rewrite lookup_insert_eq. split; [done|]. apply Hnew. rewrite Hs in Hb.
        injection Hb as <-. rewrite Hrs. by left.
      * rewrite lookup_insert_eq. split; [done|]. apply Hnew. by right.
  - split.
    + intros (? & rs & [= <-] & Hrs & Hr). rewrite lookup_insert_ne in Hrs by done.
      left. eauto.
    + intros [(b & rs & Hb & Hrs & Hr)|[Heq _]]; [|congruence].
      rewrite Hs in Hb. injection Hb as <-. do 2 eexists. split; [done|].
      by rewrite lookup_insert_ne.
Qed.

Lemma add_reason_wf m e : reasons_wf m -> reasons_wf (add_reason m e).
Proof.
  destruct e as [[s' d'] r']. unfold reasons_wf, add_reason. intros Hwf.
  destruct (m !! s') as [by_dst|] eqn:Hs; [|done].
  intros s b d rs. destruct (decide (s = s')) as [->|]; [|rewrite lookup_insert_ne by done; eauto].
  rewrite lookup_insert_eq. intros [= <-].
  destruct (decide (d = d')) as [->|]; [|rewrite lookup_insert_ne by done; eauto].
  rewrite lookup_insert_eq. intros [= <-].
  destruct (by_dst !! d') as [rs|] eqn:Hd; simpl.
  - destruct (Hwf _ _ _ _ Hs Hd) as [Hnd Hne]. case_decide; [done|].
    split; [|by destruct rs]. apply NoDup_app. split; [done|]. split; [|apply NoDup_singleton].
    intros x Hx ->%list_elem_of_singleton. done.
  - split; [apply NoDup_singleton|done].
Qed.

Lemma foldl_add_reason m es :
  dom (foldl add_reason m es) = dom m /\
  (reasons_wf m -> reasons_wf (foldl add_reason m es)) /\
  forall s d r, has_reason (foldl add_reason m es) s d r <->
    has_reason m s d r \/ ((s, d, r) ∈ es /\ s ∈ dom m).
Proof.
  revert m; induction es as [|e es IH]; intros m; simpl.
  - split; [done|]. split; [done|]. intros s d r. split; [by left|].
    intros [?|[Hin _]]; [done|by apply elem_of_nil in Hin].
  - destruct (IH (add_reason m e)) as (Hd & Hw & Hr). rewrite add_reason_dom in Hd.
    split; [done|]. split; [intros; by apply Hw, add_reason_wf|].
    intros s d r. rewrite Hr, add_reason_spec, add_reason_dom, elem_of_cons. naive_solver.
Qed.

Lemma foldl_set_edges nodes l k :
  NoDup l.*1 ->
  foldl set_edges nodes l !! k =
  match nodes !! k, (list_to_map l : EdgeMap) !! k with
  | Some node, Some by_dst =>
      Some {| mn_module_id := mn_module_id node; mn_ir_reads := mn_ir_reads node;
              mn_ir_writes := mn_ir_writes node;
              mn_edges_to := (fun p => {| et_to := p.1; et_reasons := p.2 |}) <$>
                               btree_iter by_dst |}
  | o, _ => o
  end.
Proof.
  revert nodes; induction l as [|[s b] l IH]; intros nodes Hnd; simpl.
  - rewrite lookup_empty. by destruct (nodes !! k).
  - apply NoDup_cons in Hnd as [Hs Hnd]. rewrite IH by done.
    unfold set_edges; simpl. destruct (decide (k = s)) as [->|Hne].
    + rewrite (not_elem_of_list_to_map_1 l s), lookup_insert_eq by done.
      destruct (nodes !! s) as [node|] eqn:Hn; [by rewrite lookup_insert_eq|by rewrite Hn].
    + rewrite (lookup_insert_ne (M := gmap string)) by done.
      destruct (nodes !! s); [by rewrite lookup_insert_ne|done].
Qed.
End spec.

(** ** The graph of one stage *)

Section stage_graph.
Context {P : Type} `{Producer P}.

(** What the graph of a stage is, given the producers of the stage. *)
Record stage_graph (sp : list P) (nodes : list ModuleNode) : Prop := {
  sg_sorted : sorted_by rust_leb (mn_module_id <$> nodes);
  sg_nodup : NoDup (mn_module_id <$> nodes);
  sg_ids : forall id, id ∈ mn_module_id <$> nodes <-> id ∈ p_id <$> sp;
  sg_node : forall n, n ∈ nodes -> exists p, p ∈ sp /\ mn_module_id n = p_id p /\
    mn_ir_reads n = p_ir_reads p /\ mn_ir_writes n = p_ir_writes p;
  sg_edges_sorted : forall n, n ∈ nodes ->
    sorted_by rust_leb (et_to <$> mn_edges_to n) /\ NoDup (et_to <$> mn_edges_to n);
  sg_reasons : forall n e, n ∈ nodes -> e ∈ mn_edges_to n ->
    et_reasons e <> [] /\ NoDup (et_reasons e);
  sg_edge : forall n d r, n ∈ nodes ->
    ((exists e, e ∈ mn_edges_to n /\ et_to e = d /\ r ∈ et_reasons e) <->
     stage_edge sp (mn_module_id n) d r)
}.

Lemma sg_edge_target sp nodes n e :
  stage_graph sp nodes -> n ∈ nodes -> e ∈ mn_edges_to n -> et_to e ∈ mn_module_id <$> nodes.
Proof.
  intros Hg Hn He. destruct (sg_reasons _ _ Hg n e Hn He) as [Hne _].
  destruct (et_reasons e) as [|r rs] eqn:Hr; [done|].
  assert (Hs : stage_edge sp (mn_module_id n) (et_to e) r).
  { apply (sg_edge _ _ Hg n); [done|]. exists e. split; [done|]. split; [done|].
    rewrite Hr. left. }
  rewrite (sg_ids _ _ Hg). destruct r.
  - destruct Hs as (w & rd & _ & Hrd & _ & <- & _). by apply list_elem_of_fmap_2.
  - destruct Hs as [(p & Hp & <- & _) _]. by apply list_elem_of_fmap_2.
Qed.

Lemma edges_fst (b : gmap ModuleId (list EdgeReason)) :
  et_to <$> ((fun p => {| et_to := p.1; et_reasons := p.2 |}) <$> btree_iter b) = btree_keys b.
Proof. unfold btree_keys. rewrite <-list_fmap_compose. done. Qed.

Lemma stage_nodes_lookup sp k n :
  stage_nodes sp !! k = Some n -> exists p, p ∈ sp /\ k = p_id p /\ n = bare_node p.
Proof. intros (p & [= -> ->] & Hp)%map_collect_elem%list_elem_of_fmap. eauto. Qed.

Lemma stage_nodes_dom sp k : is_Some (stage_nodes sp !! k) <-> k ∈ p_id <$> sp.
Proof. unfold stage_nodes. by rewrite map_collect_is_Some, <-list_fmap_compose. Qed.

Lemma stage_edge_map_spec sp :
  (forall k, k ∈ dom (stage_edge_map sp) <-> k ∈ p_id <$> sp) /\
  reasons_wf (stage_edge_map sp) /\
  (forall s d r, has_reason (stage_edge_map sp) s d r <->
     (s, d, r) ∈ edge_requests sp /\ s ∈ p_id <$> sp).
Proof.
  unfold stage_edge_map. set (m0 := map_collect _).
  assert (H0 : forall id, m0 !! id = if decide (id ∈ p_id <$> sp) then Some ∅ else None).
  { intros id. unfold m0. rewrite map_collect_const. apply decide_ext.
    by rewrite elem_of_btree_keys, stage_nodes_dom. }
  assert (Hd0 : forall k, k ∈ dom m0 <-> k ∈ p_id <$> sp).
  { intros k. rewrite elem_of_dom, H0. by case_decide; split. }
  destruct (foldl_add_reason m0 (edge_requests sp)) as (Hdom & Hwf & Hreason).
  assert (Hempty : forall s b d, m0 !! s = Some b -> b !! d = None).
  { intros s b d. rewrite H0. case_decide; [|done]. intros [= <-]. apply lookup_empty. }
  rewrite Hdom. split; [done|]. split.
  - apply Hwf. intros s b d rs Hs Hd. by rewrite (Hempty s b d Hs) in Hd.
  - intros s d r. rewrite Hreason, Hd0. split; [|by right].
    intros [(b & rs & Hs & Hd & _)|?]; [|done]. by rewrite (Hempty s b d Hs) in Hd.
Qed.

(** The finished node of each id. *)
Definition finished_nodes (sp : list P) : gmap ModuleId ModuleNode :=
  foldl set_edges (stage_nodes sp) (btree_iter (stage_edge_map sp)).

Definition finished_node (p : P) (b : gmap ModuleId (list EdgeReason)) : ModuleNode :=
  {| mn_module_id := p_id p; mn_ir_reads := p_ir_reads p; mn_ir_writes := p_ir_writes p;
     mn_edges_to := (fun q => {| et_to := q.1; et_reasons := q.2 |}) <$> btree_iter b |}.

Lemma finished_nodes_lookup sp k n :
  finished_nodes sp !! k = Some n -> exists p b,
    p ∈ sp /\ k = p_id p /\ stage_edge_map sp !! k = Some b /\ n = finished_node p b.
Proof.
  unfold finished_nodes. rewrite foldl_set_edges by apply NoDup_btree_keys.
  destruct (stage_nodes sp !! k) as [n0|] eqn:Hn0; [|done].
  destruct (stage_nodes_lookup sp k n0 Hn0) as (p & Hp & -> & ->).
  destruct (stage_edge_map_spec sp) as (Hdom & _).
  assert (Hs : is_Some (stage_edge_map sp !! p_id p))
    by (by apply elem_of_dom, Hdom, list_elem_of_fmap_2).
  destruct Hs as [b Hb].
  rewrite (elem_of_list_to_map_1 _ (p_id p) b);
    [intros [= <-]; by exists p, b|apply NoDup_btree_keys|by apply elem_of_btree_iter].
Qed.

Lemma finished_nodes_dom sp k : is_Some (finished_nodes sp !! k) <-> k ∈ p_id <$> sp.
Proof.
  rewrite <-stage_nodes_dom. unfold finished_nodes.
  rewrite foldl_set_edges by apply NoDup_btree_keys.
  destruct (stage_nodes sp !! k); [|done]. by destruct (_ !! k).
Qed.

Lemma finished_nodes_values sp n :
  n ∈ btree_values (finished_nodes sp) -> exists p b,
    p ∈ sp /\ stage_edge_map sp !! p_id p = Some b /\ n = finished_node p b.
Proof.
  intros [k Hk]%elem_of_btree_values.
  apply finished_nodes_lookup in Hk as (p & b & Hp & -> & Hb & ->). by exists p, b.
Qed.

Lemma finished_nodes_ids sp :
  mn_module_id <$> btree_values (finished_nodes sp) = btree_keys (finished_nodes sp).
Proof.
  apply btree_values_keys. intros k n Hk.
  by apply finished_nodes_lookup in Hk as (p & b & _ & -> & _ & ->).
Qed.

Lemma finished_node_edge sp p b d r :
  p ∈ sp -> stage_edge_map sp !! p_id p = Some b ->
  (exists e, e ∈ mn_edges_to (finished_node p b) /\ et_to e = d /\ r ∈ et_reasons e) <->
  stage_edge sp (p_id p) d r.
Proof.
  intros Hp Hb. assert (Hpin : p_id p ∈ p_id <$> sp) by (by apply list_elem_of_fmap_2).
  rewrite <-(elem_of_edge_requests sp _ d r Hpin).
  transitivity (has_reason (stage_edge_map sp) (p_id p) d r).
  - unfold has_reason. rewrite Hb. split.
    + intros (e & He & <- & Hr). apply list_elem_of_fmap in He as ([d' rs] & -> & Hd).
      apply elem_of_btree_iter in Hd. eauto.
    + intros (b' & rs & [= <-] & Hd & Hr). exists {| et_to := d; et_reasons := rs |}.
      split; [|done]. apply list_elem_of_fmap. exists (d, rs).
      split; [done|]. by apply elem_of_btree_iter.
  - destruct (stage_edge_map_spec sp) as (_ & _ & Hr). rewrite Hr. tauto.
Qed.

Lemma build_intra_stage_dag_graph stage (producers : list P) :
  exists nodes, build_intra_stage_dag stage producers = Ok nodes /\
    stage_graph (stage_producers stage producers) nodes.
Proof.
  unfold build_intra_stage_dag. set (sp := stage_producers stage producers).
  fold (finished_nodes sp). eexists; split; [done|].
  destruct (stage_edge_map_spec sp) as (_ & Hwf & _).
  constructor; rewrite ?finished_nodes_ids.
  - apply btree_keys_sorted.
  - apply NoDup_btree_keys.
  - intros id. by rewrite elem_of_btree_keys, finished_nodes_dom.
  - intros n (p & b & Hp & _ & ->)%finished_nodes_values. by exists p.
  - intros n (p & b & Hp & _ & ->)%finished_nodes_values. cbn [finished_node mn_edges_to].
    rewrite edges_fst. split; [apply btree_keys_sorted|apply NoDup_btree_keys].
  - intros n e (p & b & Hp & Hb & ->)%finished_nodes_values He.
    apply list_elem_of_fmap in He as ([d rs] & -> & Hd%elem_of_btree_iter).
    by destruct (Hwf _ _ _ _ Hb Hd).
  - intros n d r (p & b & Hp & Hb & ->)%finished_nodes_values.
    by apply finished_node_edge.
Qed.
End stage_graph.

(** The graph of a stage is exactly the declared order: one node per module
    of the stage, sorted by id; from each node one edge per downstream module,
    sorted, each with a non-empty list of distinct reasons; and a reason is
    recorded if and only if the source writes a path that the target reads (for
    two different modules) or the target requires the source by name. *)
Theorem intra_stage_dag_correct {P} `{Producer P} stage (producers : list P) :
  exists nodes, build_intra_stage_dag stage producers = Ok nodes /\
    stage_graph (stage_producers stage producers) nodes /\
    forall n e, n ∈ nodes -> e ∈ mn_edges_to n -> et_to e ∈ mn_module_id <$> nodes.
Proof.
  destruct (build_intra_stage_dag_graph stage producers) as (nodes & Hb & Hg).
  exists nodes. split; [done|]. split; [done|]. intros n e. by eapply sg_edge_target.
Qed.

(** ** The global edge list and the serial-edge report *)

Definition to_serial (e : GlobalEdge) : SerialEdge :=
  {| se_from := ge_from e; se_to := ge_to e; se_reason := ge_reason e |}.

Lemma find_existsb {A} (f : A -> bool) l :
  existsb f l = match find f l with Some _ => true | None => false end.
Proof. induction l as [|x l IH]; simpl; [done|]. by destruct (f x). Qed.

Lemma serial_edges_of_global (modules : list LoadedModule) :
  compute_serial_edges_for_stage modules = to_serial <$> build_global_dag modules.
Proof.
  unfold compute_serial_edges_for_stage, build_global_dag.
  rewrite <-(sort_by_fmap to_serial (fun a b =>
    rust_leb (edge_key (se_from a) (se_to a) (se_reason a))
             (edge_key (se_from b) (se_to b) (se_reason b)))); [|done].
  f_equal. rewrite fmap_app. f_equal.
  - rewrite <-list_fmap_compose. apply list_fmap_ext. by intros ? [[? ?] ?].
  - assert (Hfm : forall {A B C} (f : B -> C) (g : A -> list B) l,
      f <$> flat_map g l = flat_map (fun x => f <$> g x) l).
    { intros A B C f g l. induction l; simpl; [done|]. rewrite fmap_app. by f_equal. }
    rewrite Hfm. apply flat_map_ext. intros m. rewrite Hfm. apply flat_map_ext. intros required.
    rewrite find_existsb. destruct (find _ modules) as [q|] eqn:Hf; [|done].
    apply find_some in Hf as [_ Hq%String.eqb_eq]. unfold to_serial. simpl in *. by rewrite Hq.
Qed.

Lemma elem_of_serial_edges (modules : list LoadedModule) s d r :
  {| se_from := s; se_to := d; se_reason := r |} ∈ compute_serial_edges_for_stage modules <->
  stage_edge modules s d r.
Proof.
  unfold compute_serial_edges_for_stage. rewrite elem_of_sort_by, elem_of_app, list_elem_of_fmap.
  rewrite list_elem_of_In, in_flat_map. setoid_rewrite in_flat_map.
  setoid_rewrite <-list_elem_of_In. unfold stage_edge. split.
  - intros [([[w rd] path] & [= -> -> ->] & Hin)|(m & Hm & req & Hreq & Hin)].
    + apply elem_of_write_read_pairs in Hin as (? & ? & ? & ? & ?). by exists w, rd.
    + destruct (existsb _ modules) eqn:Hex; [|by apply elem_of_nil in Hin].
      apply list_elem_of_singleton in Hin as [= -> -> ->]. split; [by exists m|].
      apply existsb_exists in Hex as (q & Hq & <-%String.eqb_eq).
      by apply (list_elem_of_fmap_2 lm_id), list_elem_of_In.
  - destruct r as [path|].
    + intros (w & rd & Hw & Hrd & <- & <- & Hne & Hpw & Hpr). left.
      exists (w, rd, path). split; [done|]. by apply elem_of_write_read_pairs.
    + intros [(p & Hp & <- & Hreq) Hs]. right. exists p. split; [done|]. exists s.
      split; [done|].
      assert (Hex : existsb (fun m => String.eqb (lm_id m) s) modules = true).
      { apply list_elem_of_fmap in Hs as (q & -> & Hq). apply existsb_exists. exists q.
        split; [by apply list_elem_of_In|apply String.eqb_refl]. }
      rewrite Hex. by left.
Qed.

(** The serial-edge report explains the stage graph exactly: for the modules
    of one stage, an edge with its reason is reported if and only if the graph
    that the scheduler sorts has that edge for that reason; and the report is the
    projection of the global edge list of those modules, in the same order. *)
Theorem serial_edges_explain_graph stage (modules : list LoadedModule) :
  Forall (fun m => lm_stage m = stage) modules ->
  compute_serial_edges_for_stage modules = to_serial <$> build_global_dag modules /\
  exists nodes, build_intra_stage_dag stage modules = Ok nodes /\
    forall s d r,
      {| se_from := s; se_to := d; se_reason := r |} ∈ compute_serial_edges_for_stage modules <->
      exists n e, n ∈ nodes /\ mn_module_id n = s /\ e ∈ mn_edges_to n /\ et_to e = d /\
        r ∈ et_reasons e.
Proof.
  intros Hstage. split; [apply serial_edges_of_global|].
  assert (Hsp : stage_producers stage modules = modules).
  { unfold stage_producers. induction Hstage as [|m ms Hm Hms IH]; [done|].
    rewrite filter_cons_True; [by f_equal|]. by apply String.eqb_eq. }
  destruct (build_intra_stage_dag_graph stage modules) as (nodes & Hb & Hg).
  rewrite Hsp in Hg. exists nodes. split; [done|]. intros s d r. rewrite elem_of_serial_edges.
  split.
  - intros Hse. assert (Hs : s ∈ mn_module_id <$> nodes).
    { apply (sg_ids _ _ Hg). destruct r; [|by destruct Hse].
      destruct Hse as (w & _ & Hw & _ & <- & _). by apply list_elem_of_fmap_2. }
    apply list_elem_of_fmap in Hs as (n & -> & Hn).
    apply (sg_edge _ _ Hg n d r Hn) in Hse as (e & ? & ? & ?). eauto 10.
  - intros (n & e & Hn & <- & He & Hd & Hr). apply (sg_edge _ _ Hg n d r Hn). eauto.
Qed.

(** A small module for concrete inputs. *)
Definition sample_module (id stage : string) (reads writes requires : list string) : LoadedModule :=
  builder_build {| b_id := id; b_version := SemVer_default; b_stage := stage; b_wasm_path := "";
    b_ir_reads := reads; b_ir_writes := writes; b_claims := []; b_requires_claims := [];
    b_incompatible_with := []; b_requires_modules := requires;
    b_min_host_version := SemVer_default; b_min_ir_schema := SemVer_default;
    b_max_ir_schema := SemVer_default; b_config_schema := {| cs_entries := ∅ |};
    b_layer_parallel_safe := false; b_placeholder_wasm := false; b_provenance := External;
    b_region_splits := []; b_paint_only := false |}.

Definition sample_stage : list LoadedModule :=
  [sample_module "b" "Layer::Infill" ["X"] [] []; sample_module "a" "Layer::Infill" [] ["X"] ["b"]].

Lemma serial_edges_explain_graph_witness :
  Forall (fun m => lm_stage m = "Layer::Infill") sample_stage /\
  exists nodes, build_intra_stage_dag "Layer::Infill" sample_stage = Ok nodes /\
    {| se_from := "a"; se_to := "b"; se_reason := IrWriteRead "X" |}
      ∈ compute_serial_edges_for_stage sample_stage /\
    exists n e, n ∈ nodes /\ mn_module_id n = "a" /\ e ∈ mn_edges_to n /\ et_to e = "b" /\
      IrWriteRead "X" ∈ et_reasons e.
Proof.
  assert (Hs : Forall (fun m => lm_stage m = "Layer::Infill") sample_stage)
    by (repeat constructor).
  split; [exact Hs|].
  destruct (serial_edges_explain_graph "Layer::Infill" sample_stage Hs) as (_ & nodes & Hb & Hiff).
  exists nodes. split; [exact Hb|].
  assert (Hin : {| se_from := "a"; se_to := "b"; se_reason := IrWriteRead "X" |}
      ∈ compute_serial_edges_for_stage sample_stage).
  { vm_compute. apply list_elem_of_here. }
  split; [exact Hin|]. apply Hiff. exact Hin.
Defined.
