(* ===== verification/Topology.v ===== *)
(** The two topological sorts of the scheduler: the execution order of a stage
    ([topology.rs], always the least ready module first) and the cycle check of
    the startup validation ([validation.rs], a plain work queue).  Both are
    instances of the Kahn loop of [Graph]. *)
From Stdlib Require Import Ascii.
From stdpp Require Import prelude gmap strings list.
From S2P Require Import Prelude Graph Ir Manifest Dag.

#[local] Open Scope string_scope.
#[local] Open Scope list_scope.

(** ** Shared pieces *)

Definition edge_targets (n : ModuleNode) : list ModuleId := et_to <$> mn_edges_to n.
Definition node_ids (nodes : list ModuleNode) : list ModuleId := mn_module_id <$> nodes.

Lemma length_node_ids nodes : length (node_ids nodes) = length nodes.
Proof. apply length_fmap. Qed.

(** Every node with degree zero, before the edges are counted. *)
Definition zero_degrees (nodes : list ModuleNode) : gmap ModuleId nat :=
  map_collect ((fun id => (id, 0)) <$> node_ids nodes).

(** [u] must run before [v]. *)
Definition node_edge (nodes : list ModuleNode) (u v : ModuleId) : Prop :=
  v ∈ node_ids nodes /\ exists n, n ∈ nodes /\ mn_module_id n = u /\ v ∈ edge_targets n.

Definition node_acyclic (nodes : list ModuleNode) : Prop := forall x, ~ tc (node_edge nodes) x x.

(** ** [topology::topological_sort] *)

Module Topo.
Definition adjacency (nodes : list ModuleNode) : gmap ModuleId (gset ModuleId) :=
  map_collect ((fun n => (mn_module_id n, list_to_set (edge_targets n))) <$> nodes).

Definition downstream (nodes : list ModuleNode) (id : ModuleId) : list ModuleId :=
  match adjacency nodes !! id with
  | Some downstream_ids => btree_elems downstream_ids
  | None => []
  end.

Definition in_degree (nodes : list ModuleNode) : gmap ModuleId nat :=
  foldl bump (zero_degrees nodes) (flat_map btree_elems (btree_values (adjacency nodes))).

Definition initial_ready (deg : gmap ModuleId nat) : gset ModuleId :=
  list_to_set ((base.filter (fun p => p.2 = 0) (btree_iter deg)).*1).

Definition topological_sort (nodes : list ModuleNode)
    : exec (result (list ModuleId) (list ModuleId)) :=
  let deg := in_degree nodes in
  let! r := kahn_loop (downstream nodes) (length nodes) deg (initial_ready deg) [] in
  Done (if Nat.eqb (length r.2) (length nodes) then Ok r.2
        else Err ((base.filter (fun p => 0 < p.2) (btree_iter r.1)).*1)).
End Topo.

(** ** [validation::topological_sort] *)

Module Fifo.
Definition find_node (nodes : list ModuleNode) (id : ModuleId) : option ModuleNode :=
  find (fun n => String.eqb (mn_module_id n) id) nodes.

Definition targets_of (nodes : list ModuleNode) (id : ModuleId) : list ModuleId :=
  match find_node nodes id with
  | Some node => edge_targets node
  | None => []
  end.

Definition in_degree (nodes : list ModuleNode) : gmap ModuleId nat :=
  foldl bump (zero_degrees nodes) (flat_map edge_targets nodes).

Definition initial_queue (deg : gmap ModuleId nat) : list ModuleId :=
  (base.filter (fun p => p.2 = 0) (btree_iter deg)).*1.

Definition topological_sort (nodes : list ModuleNode)
    : exec (result (list ModuleId) (list ModuleId)) :=
  let deg := in_degree nodes in
  let! r := kahn_loop (targets_of nodes) (length nodes) deg (initial_queue deg) [] in
  Done (if Nat.eqb (length r.2) (length nodes) then Ok r.2
        else Err (base.filter (fun id => id ∉ r.2) (node_ids nodes))).
End Fifo.

(** ** Counting *)

(** The node ids without repetition: the keys of the in-degree map. *)
Definition distinct_ids (nodes : list ModuleNode) : list ModuleId := btree_keys (zero_degrees nodes).

Lemma elem_of_distinct_ids nodes id : id ∈ distinct_ids nodes <-> id ∈ node_ids nodes.
Proof.
  unfold distinct_ids. rewrite elem_of_btree_keys. unfold zero_degrees.
  rewrite map_collect_const. by case_decide; split.
Qed.

Lemma NoDup_distinct_ids nodes : NoDup (distinct_ids nodes).
Proof. apply NoDup_btree_keys. Qed.

Lemma length_distinct_ids nodes : length (distinct_ids nodes) <= length nodes.
Proof.
  rewrite <-length_node_ids. apply submseteq_length, NoDup_submseteq.
  - apply NoDup_distinct_ids.
  - intros id. by rewrite elem_of_distinct_ids.
Qed.

Lemma distinct_ids_perm nodes : NoDup (node_ids nodes) -> distinct_ids nodes ≡ₚ node_ids nodes.
Proof.
  intros Hnd. apply NoDup_Permutation; [apply NoDup_distinct_ids|done|].
  intros id. apply elem_of_distinct_ids.
Qed.

Lemma counted_degrees nodes targets v :
  foldl bump (zero_degrees nodes) targets !! v =
  if decide (v ∈ node_ids nodes) then Some (occ v targets) else None.
Proof.
  rewrite foldl_bump. unfold zero_degrees. rewrite map_collect_const. by case_decide.
Qed.

Lemma zero_entries (deg : gmap ModuleId nat) v :
  v ∈ (base.filter (fun p => p.2 = 0) (btree_iter deg)).*1 <-> deg !! v = Some 0.
Proof.
  rewrite list_elem_of_fmap. split.
  - intros ([k n] & -> & [Hn Hin]%list_elem_of_filter). apply elem_of_btree_iter in Hin.
    simpl in *. by subst.
  - intros Hv. exists (v, 0). split; [done|]. apply list_elem_of_filter.
    split; [done|]. by apply elem_of_btree_iter.
Qed.

Lemma NoDup_fst_filter {K V} (Q : K * V -> Prop) `{forall x, Decision (Q x)} (l : list (K * V)) :
  NoDup l.*1 -> NoDup (base.filter Q l).*1.
Proof.
  intros Hnd. eapply sublist_NoDup; [exact Hnd|]. apply fmap_sublist, filter_sublist.
Qed.

(** *** [topology.rs] *)

Lemma adjacency_is_Some nodes id : is_Some (Topo.adjacency nodes !! id) <-> id ∈ node_ids nodes.
Proof. unfold Topo.adjacency. by rewrite map_collect_is_Some, <-list_fmap_compose. Qed.

Lemma adjacency_lookup nodes id s :
  Topo.adjacency nodes !! id = Some s ->
  exists n, n ∈ nodes /\ mn_module_id n = id /\ s = list_to_set (edge_targets n).
Proof. intros (n & [= -> ->] & Hn)%map_collect_elem%list_elem_of_fmap. eauto. Qed.

Lemma adjacency_keys nodes : btree_keys (Topo.adjacency nodes) = distinct_ids nodes.
Proof.
  apply (sorted_by_unique rust_leb); try apply btree_keys_sorted; [apply rust_leb_antisym|].
  apply NoDup_Permutation; [apply NoDup_btree_keys|apply NoDup_distinct_ids|].
  intros id. by rewrite elem_of_btree_keys, adjacency_is_Some, elem_of_distinct_ids.
Qed.

Lemma adjacency_targets nodes :
  flat_map btree_elems (btree_values (Topo.adjacency nodes)) =
  flat_map (Topo.downstream nodes) (distinct_ids nodes).
Proof.
  rewrite <-adjacency_keys. unfold btree_values, btree_keys, Topo.downstream.
  assert (Hall : forall k s, (k, s) ∈ btree_iter (Topo.adjacency nodes) ->
                   Topo.adjacency nodes !! k = Some s) by (intros; by apply elem_of_btree_iter).
  induction (btree_iter (Topo.adjacency nodes)) as [|[k s] l IH]; simpl; [done|].
  rewrite (Hall k s) by left. f_equal. apply IH. intros. apply Hall. by right.
Qed.

Lemma topo_degrees nodes v :
  Topo.in_degree nodes !! v =
  if decide (v ∈ node_ids nodes)
  then Some (npred (Topo.downstream nodes) (distinct_ids nodes) [] v) else None.
Proof.
  unfold Topo.in_degree. by rewrite counted_degrees, adjacency_targets, npred_occ.
Qed.

(** The run of [topology::topological_sort], whatever the nodes are. *)
Lemma topo_run nodes :
  exists deg l,
    kahn_loop (Topo.downstream nodes) (length nodes) (Topo.in_degree nodes)
      (Topo.initial_ready (Topo.in_degree nodes)) [] = Done (deg, l) /\
    kahn_outcome (Q := gset ModuleId) (Topo.downstream nodes) (distinct_ids nodes) (fun _ => 0) deg l.
Proof.
  apply kahn_loop_correct.
  - apply NoDup_distinct_ids.
  - intros v Hv. rewrite topo_degrees, decide_True; [done|]. by apply elem_of_distinct_ids.
  - intros v Hv. rewrite topo_degrees, decide_False; [done|]. by rewrite <-elem_of_distinct_ids.
  - apply NoDup_elements.
  - intros v. simpl. rewrite elem_of_elements. unfold Topo.initial_ready.
    by rewrite elem_of_list_to_set, zero_entries.
  - apply length_distinct_ids.
Qed.

(** *** [validation.rs] *)

Lemma find_node_Some nodes id n :
  Fifo.find_node nodes id = Some n -> n ∈ nodes /\ mn_module_id n = id.
Proof.
  intros [Hin Heq%String.eqb_eq]%find_some. split; [by apply list_elem_of_In|done].
Qed.

Lemma find_node_is_Some nodes id : id ∈ node_ids nodes -> is_Some (Fifo.find_node nodes id).
Proof.
  intros (n & -> & Hn)%list_elem_of_fmap.
  destruct (Fifo.find_node nodes (mn_module_id n)) eqn:Hf; [done|exfalso].
  eapply find_none in Hf; [|by apply list_elem_of_In]. simpl in Hf.
  by rewrite String.eqb_refl in Hf.
Qed.

(** The nodes that [find] can return, one for each distinct id. *)
Definition first_nodes (nodes : list ModuleNode) : list ModuleNode :=
  omap (Fifo.find_node nodes) (distinct_ids nodes).

Lemma first_nodes_targets nodes :
  flat_map (Fifo.targets_of nodes) (distinct_ids nodes) = flat_map edge_targets (first_nodes nodes).
Proof.
  unfold first_nodes, Fifo.targets_of.
  induction (distinct_ids nodes) as [|id ids IH]; simpl; [done|].
  rewrite IH. by destruct (Fifo.find_node nodes id).
Qed.

Lemma first_nodes_ids nodes : node_ids (first_nodes nodes) = distinct_ids nodes.
Proof.
  unfold first_nodes, node_ids.
  assert (Hall : forall id, id ∈ distinct_ids nodes -> id ∈ node_ids nodes)
    by (intros; by apply elem_of_distinct_ids).
  induction (distinct_ids nodes) as [|id ids IH]; simpl; [done|].
  destruct (find_node_is_Some nodes id) as [n Hn]; [apply Hall; left|]. rewrite Hn. simpl.
  f_equal; [by apply find_node_Some in Hn as [_ <-]|]. apply IH. intros. apply Hall. by right.
Qed.

Lemma first_nodes_submseteq nodes : first_nodes nodes ⊆+ nodes.
Proof.
  apply NoDup_submseteq.
  - apply (NoDup_fmap_1 mn_module_id). change (NoDup (node_ids (first_nodes nodes))).
    rewrite first_nodes_ids. apply NoDup_distinct_ids.
  - intros n Hn. unfold first_nodes in Hn. apply list_elem_of_omap in Hn as (id & _ & Hf).
    by apply find_node_Some in Hf as [? _].
Qed.

(** Edges of later nodes with a repeated id: counted, never relaxed. *)
Definition fifo_extra (nodes : list ModuleNode) (v : ModuleId) : nat :=
  occ v (flat_map edge_targets nodes) -
  npred (Fifo.targets_of nodes) (distinct_ids nodes) [] v.

Lemma occ_flat_map_submseteq {B} (f : B -> list ModuleId) l1 l2 v :
  l1 ⊆+ l2 -> occ v (flat_map f l1) <= occ v (flat_map f l2).
Proof.
  intros Hsub. apply submseteq_Permutation in Hsub as [k Hk].
  assert (Hp : flat_map f l2 ≡ₚ flat_map f (l1 ++ k)) by (by rewrite Hk).
  rewrite (occ_perm v _ _ Hp), flat_map_app, occ_app. lia.
Qed.

Lemma fifo_degrees nodes v :
  Fifo.in_degree nodes !! v =
  if decide (v ∈ node_ids nodes)
  then Some (fifo_extra nodes v + npred (Fifo.targets_of nodes) (distinct_ids nodes) [] v)
  else None.
Proof.
  unfold Fifo.in_degree. rewrite counted_degrees. case_decide; [|done]. f_equal.
  unfold fifo_extra. rewrite npred_occ, first_nodes_targets.
  pose proof (occ_flat_map_submseteq edge_targets _ _ v (first_nodes_submseteq nodes)). lia.
Qed.

Lemma fifo_extra_zero nodes v : NoDup (node_ids nodes) -> fifo_extra nodes v = 0.
Proof.
  intros Hnd. unfold fifo_extra. rewrite npred_occ, first_nodes_targets.
  assert (Hp : first_nodes nodes ≡ₚ nodes).
  { apply submseteq_length_Permutation; [apply first_nodes_submseteq|].
    rewrite <-length_node_ids, <-(length_node_ids (first_nodes nodes)).
    by rewrite first_nodes_ids, distinct_ids_perm. }
  assert (Hf : flat_map edge_targets (first_nodes nodes) ≡ₚ flat_map edge_targets nodes)
    by (by rewrite Hp).
  rewrite (occ_perm v _ _ Hf). lia.
Qed.

Lemma fifo_run nodes :
  exists deg l,
    kahn_loop (Fifo.targets_of nodes) (length nodes) (Fifo.in_degree nodes)
      (Fifo.initial_queue (Fifo.in_degree nodes)) [] = Done (deg, l) /\
    kahn_outcome (Q := list ModuleId) (Fifo.targets_of nodes) (distinct_ids nodes)
      (fifo_extra nodes) deg l.
Proof.
  apply kahn_loop_correct.
  - apply NoDup_distinct_ids.
  - intros v Hv. rewrite fifo_degrees, decide_True; [done|]. by apply elem_of_distinct_ids.
  - intros v Hv. rewrite fifo_degrees, decide_False; [done|]. by rewrite <-elem_of_distinct_ids.
  - apply NoDup_fst_filter, NoDup_btree_keys.
  - intros v. apply zero_entries.
  - apply length_distinct_ids.
Qed.

(** ** Edges *)

Lemma NoDup_node_unique nodes n1 n2 :
  NoDup (node_ids nodes) -> n1 ∈ nodes -> n2 ∈ nodes ->
  mn_module_id n1 = mn_module_id n2 -> n1 = n2.
Proof.
  intros Hnd [i Hi]%list_elem_of_lookup [j Hj]%list_elem_of_lookup Heq.
  assert (i = j) as ->; [|congruence].
  eapply (NoDup_lookup (node_ids nodes) i j (mn_module_id n1)); [done| |];
    unfold node_ids; rewrite list_lookup_fmap; [by rewrite Hi|by rewrite Hj, Heq].
Qed.

Section edges.
Context (nodes : list ModuleNode) (nodes_NoDup : NoDup (node_ids nodes)).

Lemma elem_of_downstream u v :
  v ∈ Topo.downstream nodes u <->
  exists n, n ∈ nodes /\ mn_module_id n = u /\ v ∈ edge_targets n.
Proof.
  unfold Topo.downstream. destruct (Topo.adjacency nodes !! u) as [s|] eqn:Hs.
  - apply adjacency_lookup in Hs as (n & Hn & Hu & ->).
    rewrite elem_of_btree_elems, elem_of_list_to_set. split; [by eauto|].
    intros (n' & Hn' & Hu' & Hv). by rewrite (NoDup_node_unique nodes n n') by congruence.
  - split; [intros Hv; by apply elem_of_nil in Hv|]. intros (n & Hn & <- & _).
    assert (Hi : is_Some (Topo.adjacency nodes !! mn_module_id n))
      by (by apply adjacency_is_Some, list_elem_of_fmap_2).
    rewrite Hs in Hi. by destruct Hi.
Qed.

Lemma elem_of_targets_of u v :
  v ∈ Fifo.targets_of nodes u <->
  exists n, n ∈ nodes /\ mn_module_id n = u /\ v ∈ edge_targets n.
Proof.
  unfold Fifo.targets_of. destruct (Fifo.find_node nodes u) as [n|] eqn:Hf.
  - apply find_node_Some in Hf as [Hn Hu]. split; [by eauto|].
    intros (n' & Hn' & Hu' & Hv). by rewrite (NoDup_node_unique nodes n n') by congruence.
  - split; [intros Hv; by apply elem_of_nil in Hv|]. intros (n & Hn & <- & _).
    destruct (find_node_is_Some nodes (mn_module_id n)) as [? Hs];
      [by apply list_elem_of_fmap_2|congruence].
Qed.

Lemma topo_edge u v : edge (Topo.downstream nodes) (distinct_ids nodes) u v <-> node_edge nodes u v.
Proof.
  unfold edge, node_edge. rewrite !elem_of_distinct_ids, elem_of_downstream.
  split; [tauto|]. intros (Hv & n & Hn & <- & Ht). split; [by apply list_elem_of_fmap_2|].
  split; [done|]. by exists n.
Qed.

Lemma fifo_edge u v : edge (Fifo.targets_of nodes) (distinct_ids nodes) u v <-> node_edge nodes u v.
Proof.
  unfold edge, node_edge. rewrite !elem_of_distinct_ids, elem_of_targets_of.
  split; [tauto|]. intros (Hv & n & Hn & <- & Ht). split; [by apply list_elem_of_fmap_2|].
  split; [done|]. by exists n.
Qed.

Lemma acyclic_iff (R : relation ModuleId) :
  (forall u v, R u v <-> node_edge nodes u v) -> ((forall x, ~ tc R x x) <-> node_acyclic nodes).
Proof.
  intros HR. unfold node_acyclic.
  assert (Htc : forall x y, tc R x y <-> tc (node_edge nodes) x y).
  { intros x y. split; apply tc_congruence with (f := id); intros; by apply HR. }
  by setoid_rewrite Htc.
Qed.
End edges.

(** ** What an order and a failure mean *)

(** The predecessors of every listed module are listed before it. *)
Definition respects_edges (nodes : list ModuleNode) (l : list ModuleId) : Prop :=
  forall l1 v l2 u, l = l1 ++ v :: l2 -> node_edge nodes u v -> u ∈ l1.

(** A complete order that respects every edge. *)
Definition valid_order (nodes : list ModuleNode) (l : list ModuleId) : Prop :=
  l ≡ₚ node_ids nodes /\ respects_edges nodes l.

(** Each position holds the least of the modules whose predecessors are all placed. *)
Definition least_first (nodes : list ModuleNode) (l : list ModuleId) : Prop :=
  forall l1 x l2 y, l = l1 ++ x :: l2 -> y ∈ node_ids nodes -> y ∉ l1 ->
    (forall u, node_edge nodes u y -> u ∈ l1) -> rust_leb x y = true.

(** The modules left over: each waits for another one that is left over, while
    the remaining modules can be ordered. *)
Definition stuck_set (nodes : list ModuleNode) (rest : list ModuleId) : Prop :=
  rest <> [] /\ NoDup rest /\
  (forall v, v ∈ rest -> v ∈ node_ids nodes /\ exists u, u ∈ rest /\ node_edge nodes u v) /\
  exists l, NoDup l /\ respects_edges nodes l /\
    forall v, v ∈ l <-> v ∈ node_ids nodes /\ v ∉ rest.

(** The modules left over are determined by the graph. *)
Lemma stuck_set_unique nodes rest1 rest2 :
  stuck_set nodes rest1 -> stuck_set nodes rest2 -> rest1 ≡ₚ rest2.
Proof.
  assert (Hsub : forall r1 r2, stuck_set nodes r1 -> stuck_set nodes r2 ->
            forall v, v ∈ r1 -> v ∈ r2).
  { intros r1 r2 (_ & _ & Hs1 & _) (_ & _ & _ & l & _ & Hl & Hmem) v Hv.
    destruct (decide (v ∈ r2)) as [|Hn]; [done|exfalso].
    assert (Hvl : v ∈ l) by (apply Hmem; split; [by apply Hs1|done]).
    refine (ordered_not_stuck (node_edge nodes) (fun w => w ∈ r1) l Hl _ v Hvl Hv).
    intros w _ Hw. destruct (Hs1 w Hw) as (_ & u & ? & ?). by exists u. }
  intros H1 H2. apply NoDup_Permutation; [by apply H1|by apply H2|].
  intros v. split; by apply Hsub.
Qed.

Section outcome.
Context {Q : Type} {wq : WorkQueue ModuleId Q}.
Context (nodes : list ModuleNode) (nodes_NoDup : NoDup (node_ids nodes)).
Context (succs : ModuleId -> list ModuleId) (extra : ModuleId -> nat).
Context (succs_edge : forall u v, edge succs (distinct_ids nodes) u v <-> node_edge nodes u v)
        (extra_zero : forall v, extra v = 0).

Lemma outcome_complete deg l :
  kahn_outcome (Q := Q) succs (distinct_ids nodes) extra deg l ->
  (length l = length nodes <-> node_acyclic nodes).
Proof.
  intros Hko. rewrite <-(acyclic_iff nodes _ succs_edge).
  rewrite <-(kahn_outcome_complete succs (distinct_ids nodes) extra
               (NoDup_distinct_ids nodes) deg l (fun v _ => extra_zero v) Hko).
  by rewrite (distinct_ids_perm nodes nodes_NoDup), length_node_ids.
Qed.

Lemma outcome_respects deg l :
  kahn_outcome (Q := Q) succs (distinct_ids nodes) extra deg l -> respects_edges nodes l.
Proof.
  intros Hko l1 v l2 u Hl Huv. apply succs_edge in Huv as (Hu & _ & Huv).
  by eapply (ko_topo _ _ _ _ _ Hko).
Qed.

Lemma outcome_valid_order deg l :
  kahn_outcome (Q := Q) succs (distinct_ids nodes) extra deg l ->
  length l = length nodes -> valid_order nodes l.
Proof.
  intros Hko Hlen. split; [|by eapply outcome_respects].
  rewrite <-(distinct_ids_perm nodes nodes_NoDup). apply submseteq_length_Permutation.
  - apply NoDup_submseteq; [apply Hko|apply Hko].
  - rewrite (distinct_ids_perm nodes nodes_NoDup), length_node_ids. lia.
Qed.

Lemma outcome_stuck deg l rest :
  kahn_outcome (Q := Q) succs (distinct_ids nodes) extra deg l ->
  length l <> length nodes -> NoDup rest ->
  (forall v, v ∈ rest <-> v ∈ node_ids nodes /\ v ∉ l) -> stuck_set nodes rest.
Proof.
  intros Hko Hlen Hnd Hrest. split; [|split; [done|split]].
  - intros ->. apply Hlen. rewrite <-length_node_ids, <-(distinct_ids_perm nodes nodes_NoDup).
    apply Permutation_length, NoDup_Permutation; [apply Hko|apply NoDup_distinct_ids|].
    intros v. split; [apply Hko|]. intros Hv%elem_of_distinct_ids.
    destruct (decide (v ∈ l)); [done|].
    exfalso. by apply (elem_of_nil v), Hrest.
  - intros v [Hv Hvl]%Hrest. split; [done|].
    destruct (ko_stuck _ _ _ _ _ Hko v) as [He|(u & Hu & Huv & Hul)];
      [by apply elem_of_distinct_ids|done|by rewrite extra_zero in He|].
    exists u. rewrite Hrest, <-elem_of_distinct_ids. split; [done|].
    apply succs_edge. split; [done|]. split; [by apply elem_of_distinct_ids|done].
  - exists l. split; [apply Hko|]. split; [by eapply outcome_respects|].
    intros v. rewrite Hrest. split.
    + intros Hv. split; [by apply elem_of_distinct_ids, Hko|tauto].
    + intros [Hv Hn]. destruct (decide (v ∈ l)); [done|]. by destruct Hn.
Qed.
End outcome.

(** ** Results *)

Lemma topo_result nodes :
  exists r, Topo.topological_sort nodes = Done r /\
  (NoDup (node_ids nodes) ->
   match r with
   | Ok l => node_acyclic nodes /\ valid_order nodes l /\ least_first nodes l
   | Err rest => ~ node_acyclic nodes /\ stuck_set nodes rest /\ sorted_by rust_leb rest
   end).
Proof.
  unfold Topo.topological_sort. destruct (topo_run nodes) as (deg & l & -> & Hko). simpl.
  eexists; split; [done|]. intros Hnd. pose proof (topo_edge nodes Hnd) as Hedge.
  destruct (Nat.eqb_spec (length l) (length nodes)) as [Hlen|Hlen].
  - split; [by apply (outcome_complete nodes Hnd _ _ Hedge (fun _ => eq_refl) _ _ Hko)|].
    split; [by apply (outcome_valid_order nodes Hnd _ _ Hedge _ _ Hko)|].
    intros l1 x l2 y Hl Hy Hyl Hpred. eapply kahn_order_least; [apply Hko|exact Hl|].
    split; [by apply elem_of_distinct_ids|]. split; [done|]. split; [done|].
    intros u Hu Huv. apply Hpred, Hedge. split; [done|]. split; [by apply elem_of_distinct_ids|done].
  - set (rest := (base.filter _ _).*1).
    assert (Hrest : forall v, v ∈ rest <-> v ∈ node_ids nodes /\ v ∉ l).
    { intros v. rewrite <-elem_of_distinct_ids. unfold rest. rewrite list_elem_of_fmap. split.
      - intros ([k n] & -> & [Hn Hin]%list_elem_of_filter). simpl in *.
        apply elem_of_btree_iter in Hin. assert (Hk : k ∈ distinct_ids nodes)
          by (apply (ko_dom _ _ _ _ _ Hko); by rewrite Hin).
        split; [done|]. rewrite (ko_zero _ _ _ _ _ Hko) by done. rewrite Hin. intros [=]; lia.
      - intros [Hv Hvl]. pose proof (proj2 (ko_dom _ _ _ _ _ Hko v) Hv) as [n Hn].
        exists (v, n). split; [done|]. apply list_elem_of_filter. simpl.
        split; [|by apply elem_of_btree_iter].
        destruct n; [|lia]. destruct Hvl. by apply (ko_zero _ _ _ _ _ Hko). }
    split; [by rewrite <-(outcome_complete nodes Hnd _ _ Hedge (fun _ => eq_refl) _ _ Hko)|].
    split; [|].
    + apply (outcome_stuck nodes Hnd _ _ Hedge (fun _ => eq_refl) _ _ rest Hko); auto.
      apply NoDup_fst_filter, NoDup_btree_keys.
    + change (sorted_by rust_leb rest). apply (sorted_by_sublist _ _ (btree_keys deg));
        [|apply btree_keys_sorted]. apply fmap_sublist, filter_sublist.
Qed.

Lemma fifo_result nodes :
  exists r, Fifo.topological_sort nodes = Done r /\
  (NoDup (node_ids nodes) ->
   match r with
   | Ok l => node_acyclic nodes /\ valid_order nodes l
   | Err rest => ~ node_acyclic nodes /\ stuck_set nodes rest
   end).
Proof.
  unfold Fifo.topological_sort. destruct (fifo_run nodes) as (deg & l & -> & Hko). simpl.
  eexists; split; [done|]. intros Hnd. pose proof (fifo_edge nodes Hnd) as Hedge.
  pose proof (fun v => fifo_extra_zero nodes v Hnd) as Hex.
  destruct (Nat.eqb_spec (length l) (length nodes)) as [Hlen|Hlen].
  - split; [by apply (outcome_complete nodes Hnd _ _ Hedge Hex _ _ Hko)|].
    by apply (outcome_valid_order nodes Hnd _ _ Hedge _ _ Hko).
  - split; [by rewrite <-(outcome_complete nodes Hnd _ _ Hedge Hex _ _ Hko)|].
    apply (outcome_stuck nodes Hnd _ _ Hedge Hex _ _ _ Hko); auto.
    + by apply NoDup_filter.
    + intros v. rewrite list_elem_of_filter. tauto.
Qed.

(** [C8].  The execution order of a stage.  The sort always returns: no degree
    underflows and [length nodes] rounds are enough.  For nodes with distinct ids it
    succeeds exactly when the graph is acyclic; the order then lists every module
    once, after all the modules it depends on, and at every position the least
    module id that is ready.  Otherwise it returns, in ascending order, the
    non-empty set of modules that wait for one another in cycles. *)
Theorem topological_sort_correct nodes :
  exists r, Topo.topological_sort nodes = Done r /\
  (NoDup (node_ids nodes) ->
   match r with
   | Ok l => node_acyclic nodes /\ valid_order nodes l /\ least_first nodes l
   | Err rest => ~ node_acyclic nodes /\ stuck_set nodes rest /\ sorted_by rust_leb rest
   end).
Proof. apply topo_result. Qed.

(** Whether [u] lists [v] as a target. *)
Definition node_target (nodes : list ModuleNode) (u v : ModuleId) : Prop :=
  exists n, n ∈ nodes /\ mn_module_id n = u /\ v ∈ edge_targets n.

(** The targets as a list of pairs. *)
Definition target_pairs (nodes : list ModuleNode) : list (ModuleId * ModuleId) :=
  flat_map (fun n => (fun t => (mn_module_id n, t)) <$> edge_targets n) nodes.

Lemma elem_of_target_pairs nodes u v : (u, v) ∈ target_pairs nodes <-> node_target nodes u v.
Proof.
  unfold target_pairs, node_target. rewrite list_elem_of_In, in_flat_map. split.
  - intros (n & Hn%list_elem_of_In & Hin%list_elem_of_In).
    apply list_elem_of_fmap in Hin as (t & [= -> ->] & Ht). by exists n.
  - intros (n & Hn & <- & Ht). exists n. split; [by apply list_elem_of_In|].
    apply list_elem_of_In, list_elem_of_fmap. by exists v.
Qed.

Lemma adjacency_ext nodes1 nodes2 :
  NoDup (node_ids nodes1) -> node_ids nodes1 ≡ₚ node_ids nodes2 ->
  (forall u v, node_target nodes1 u v <-> node_target nodes2 u v) ->
  Topo.adjacency nodes1 = Topo.adjacency nodes2.
Proof.
  intros Hnd Hids Htgt. assert (Hnd2 : NoDup (node_ids nodes2)) by (by rewrite <-Hids).
  assert (Hd : forall u v, v ∈ Topo.downstream nodes1 u <-> v ∈ Topo.downstream nodes2 u).
  { intros u v. rewrite !elem_of_downstream by done. apply Htgt. }
  apply map_eq. intros id. specialize (Hd id). unfold Topo.downstream in Hd.
  assert (Hsome : is_Some (Topo.adjacency nodes1 !! id) <-> is_Some (Topo.adjacency nodes2 !! id))
    by (by rewrite !adjacency_is_Some, Hids).
  destruct (Topo.adjacency nodes1 !! id) as [s1|], (Topo.adjacency nodes2 !! id) as [s2|];
    [|by destruct Hsome as [[? ?] _]|by destruct Hsome as [_ [? ?]]|done].
  f_equal. apply set_eq. intros v. by rewrite <-!elem_of_btree_elems.
Qed.

(** The order of a stage is a function of the graph alone: it does not depend
    on the order in which the modules were loaded, nor on the order or repetition
    of the edges a node lists. *)
Theorem topological_sort_deterministic nodes1 nodes2 :
  NoDup (node_ids nodes1) -> node_ids nodes1 ≡ₚ node_ids nodes2 ->
  (forall u v, node_target nodes1 u v <-> node_target nodes2 u v) ->
  Topo.topological_sort nodes1 = Topo.topological_sort nodes2.
Proof.
  intros Hnd Hp Htgt. pose proof (adjacency_ext nodes1 nodes2 Hnd Hp Htgt) as Hadj.
  assert (Hz : zero_degrees nodes1 = zero_degrees nodes2).
  { apply map_eq. intros id. unfold zero_degrees. rewrite !map_collect_const.
    apply decide_ext. by rewrite Hp. }
  assert (Hd : Topo.in_degree nodes1 = Topo.in_degree nodes2)
    by (unfold Topo.in_degree; by rewrite Hadj, Hz).
  unfold Topo.topological_sort.
  rewrite Hd, <-!length_node_ids, (Permutation_length Hp).
  assert (Hs : forall x, Topo.downstream nodes1 x = Topo.downstream nodes2 x)
    by (intros; unfold Topo.downstream; by rewrite Hadj).
  assert (Hk : forall fuel deg (q : gset ModuleId) l,
             kahn_loop (Topo.downstream nodes1) fuel deg q l =
             kahn_loop (Topo.downstream nodes2) fuel deg q l).
  { induction fuel as [|fuel IH]; intros deg q l; simpl; [done|].
    destruct (pop_first q) as [[x q']|]; [|done]. rewrite Hs.
    destruct (relax_all _ _); simpl; [|done|done]. apply IH. }
  by rewrite Hk.
Qed.

(** ** The two sorts agree *)

(** The startup cycle check and the execution-order sort are the same test:
    on nodes with distinct ids both always return, they succeed on the same
    graphs, and when they fail they leave over the same modules. *)
Theorem topological_sorts_agree nodes :
  NoDup (node_ids nodes) ->
  exists r1 r2, Topo.topological_sort nodes = Done r1 /\ Fifo.topological_sort nodes = Done r2 /\
    match r1, r2 with
    | Ok l1, Ok l2 => l1 ≡ₚ l2 /\ valid_order nodes l1 /\ valid_order nodes l2
    | Err rest1, Err rest2 => rest1 ≡ₚ rest2
    | _, _ => False
    end.
Proof.
  intros Hnd. destruct (topo_result nodes) as (r1 & H1 & S1), (fifo_result nodes) as (r2 & H2 & S2).
  exists r1, r2. split; [done|]. split; [done|]. specialize (S1 Hnd). specialize (S2 Hnd).
  destruct r1 as [l1|rest1], r2 as [l2|rest2].
  - destruct S1 as (_ & V1 & _), S2 as (_ & V2). split; [|done].
    by rewrite (proj1 V1), (proj1 V2).
  - naive_solver.
  - naive_solver.
  - destruct S1 as (_ & S1 & _), S2 as (_ & S2). by eapply stuck_set_unique.
Qed.

(** *** Concrete graphs *)

Definition sample_node (id : ModuleId) (targets : list ModuleId) : ModuleNode :=
  {| mn_module_id := id; mn_ir_reads := []; mn_ir_writes := [];
     mn_edges_to := (fun t => {| et_to := t; et_reasons := [ExplicitRequires] |}) <$> targets |}.

Definition sample_graph : list ModuleNode :=
  [sample_node "c" []; sample_node "b" ["c"]; sample_node "a" ["c"; "c"; "zz"]].

Definition sample_cycle : list ModuleNode :=
  [sample_node "a" ["b"]; sample_node "b" ["c"]; sample_node "c" ["b"]].

Lemma topological_sort_correct_witness :
  NoDup (node_ids sample_graph) /\ Topo.topological_sort sample_graph = Done (Ok ["a"; "b"; "c"]) /\
    node_acyclic sample_graph /\ least_first sample_graph ["a"; "b"; "c"] /\
    Topo.topological_sort sample_cycle = Done (Err ["b"; "c"]) /\ ~ node_acyclic sample_cycle.
Proof.
  assert (Hnd : NoDup (node_ids sample_graph)) by (apply (bool_decide_unpack _); exact I).
  assert (Hrun : Topo.topological_sort sample_graph = Done (Ok ["a"; "b"; "c"]))
    by (vm_compute; reflexivity).
  destruct (topological_sort_correct sample_graph) as (r & Hr & Hspec).
  rewrite Hrun in Hr. injection Hr as <-. destruct (Hspec Hnd) as (Hac & _ & Hleast).
  assert (Hnd' : NoDup (node_ids sample_cycle)) by (apply (bool_decide_unpack _); exact I).
  assert (Hrun' : Topo.topological_sort sample_cycle = Done (Err ["b"; "c"]))
    by (vm_compute; reflexivity).
  destruct (topological_sort_correct sample_cycle) as (r' & Hr' & Hspec').
  rewrite Hrun' in Hr'. injection Hr' as <-. destruct (Hspec' Hnd') as (Hcyc & _).
  repeat split; assumption.
Defined.

Lemma topological_sort_deterministic_witness :
  NoDup (node_ids sample_graph) /\
    Topo.topological_sort sample_graph =
  Topo.topological_sort [sample_node "a" ["zz"; "c"]; sample_node "b" ["c"; "c"]; sample_node "c" []].
Proof.
  assert (Hnd : NoDup (node_ids sample_graph)) by (apply (bool_decide_unpack _); exact I).
  split; [exact Hnd|]. apply topological_sort_deterministic.
  - exact Hnd.
  - apply (bool_decide_unpack _). vm_compute. exact I.
  - intros u v. rewrite <-!elem_of_target_pairs.
    rewrite <-!(elem_of_list_to_set (C := gset (ModuleId * ModuleId))).
    match goal with |- _ ∈ ?s <-> _ ∈ ?t =>
      assert (Heq : s = t) by (apply (bool_decide_unpack _); vm_compute; exact I) end.
    rewrite Heq. reflexivity.
Defined.

Lemma topological_sorts_agree_witness :
  NoDup (node_ids sample_cycle) /\
    exists r1 r2, Topo.topological_sort sample_cycle = Done r1 /\
    Fifo.topological_sort sample_cycle = Done r2 /\
    match r1, r2 with Err rest1, Err rest2 => rest1 ≡ₚ rest2 | _, _ => False end.
Proof.
  assert (Hnd : NoDup (node_ids sample_cycle)) by (apply (bool_decide_unpack _); exact I).
  split; [exact Hnd|].
  destruct (topological_sorts_agree sample_cycle Hnd) as (r1 & r2 & H1 & H2 & Hm).
  exists r1, r2. split; [exact H1|]. split; [exact H2|].
  assert (Hrun : Topo.topological_sort sample_cycle = Done (Err ["b"; "c"]))
    by (vm_compute; reflexivity).
  rewrite Hrun in H1. injection H1 as <-. destruct r2; [destruct Hm|exact Hm].
Defined.
