(* ===== verification/Validation.v ===== *)
(** Startup validation of the module graph ([validation.rs]): claim holders and
    fill roles, the diagnostics report, and the fourteen passes that
    [validate_startup_dag] runs in order.  What the passes mean is stated and
    proved in [ValidationSpec]. *)
From Stdlib Require Import Ascii.
From stdpp Require Import prelude gmap strings list.
From S2P Require Import Prelude Graph Ir StageOrder Manifest Dag Topology.

#[local] Open Scope string_scope.
#[local] Open Scope list_scope.

(** ** Fill roles *)

Definition FILL_CLAIM_IDS : list string :=
  ["claim:top-fill"; "claim:bottom-fill"; "claim:bridge-fill"; "claim:sparse-fill"].

Record FillHolders := {
  fh_top : string;
  fh_bottom : string;
  fh_bridge : string;
  fh_sparse : string
}.

Definition holder_for (holders : FillHolders) (claim : string) : option string :=
  if String.eqb claim "claim:top-fill" then Some (fh_top holders)
  else if String.eqb claim "claim:bottom-fill" then Some (fh_bottom holders)
  else if String.eqb claim "claim:bridge-fill" then Some (fh_bridge holders)
  else if String.eqb claim "claim:sparse-fill" then Some (fh_sparse holders)
  else None.

Definition module_id_matches_holder (module_id holder : string) : bool :=
  if String.eqb module_id holder then true
  else match strip_prefix "com.core." module_id with
       | Some short => String.eqb short holder
       | None => false
       end.

Definition resolve_held_claims (module_id : string) (declared : list string)
    (holders : FillHolders) : list string :=
  base.filter (fun claim =>
      (String.eqb claim "claim:raft-fill"
       || match holder_for holders claim with
          | Some h => module_id_matches_holder module_id h
          | None => false
          end) = true)
    (base.filter (fun claim =>
        (contains FILL_CLAIM_IDS claim || String.eqb claim "claim:raft-fill") = true) declared).

(** ** Requests and reports *)

Record StageDag := { sd_stage : StageId; sd_nodes : list ModuleNode }.

Record ClaimHolder := { ch_claim : string; ch_module_id : ModuleId; ch_scope : ConflictScope }.

(** [batch_calls] and [diagnostics] are recorded for other consumers; the
    validation never reads them. *)
Record ModuleAccessAudit := {
  maa_module_id : ModuleId;
  maa_runtime_reads : list string;
  maa_runtime_writes : list string;
  maa_batch_calls : list (string * Z)
}.

Record DagValidationRequest := {
  dvr_modules : list LoadedModule;
  dvr_stage_dags : list StageDag;
  dvr_host_ir_schema_version : SemVer;
  dvr_host_version : SemVer;
  dvr_claim_holders : list ClaimHolder;
  dvr_access_audits : list ModuleAccessAudit
}.

Inductive DagValidationPass :=
| StageIdValidation
| GlobalClaimConflicts
| PerRegionClaimConflicts
| IncompatibilityDeclarations
| MissingDependencies
| IrVersionCompatibility
| CycleDetection
| WriteConflicts
| UnfulfilledReads
| DeadWrites
| PassUndeclaredAccess
| CrossStageDependencyLegality
| TransitiveDependencyLegality
| HostVersionCompatibility.
#[export] Instance DagValidationPass_eq_dec : EqDecision DagValidationPass.
Proof. solve_decision. Defined.

Record DagValidationDiagnostic := {
  dvd_pass : DagValidationPass;
  dvd_level : DiagnosticLevel;
  dvd_detail : SchedulerError
}.
#[export] Instance DagValidationDiagnostic_eq_dec : EqDecision DagValidationDiagnostic.
Proof. solve_decision. Defined.

Record DagValidationReport := {
  dvr_errors : list DagValidationDiagnostic;
  dvr_warnings : list DagValidationDiagnostic
}.

Definition empty_report : DagValidationReport := {| dvr_errors := []; dvr_warnings := [] |}.

Definition push_error (pass : DagValidationPass) (report : DagValidationReport)
    (detail : SchedulerError) : DagValidationReport :=
  {| dvr_errors := dvr_errors report ++
       [{| dvd_pass := pass; dvd_level := Error; dvd_detail := detail |}];
     dvr_warnings := dvr_warnings report |}.

Definition push_warning (pass : DagValidationPass) (report : DagValidationReport)
    (detail : SchedulerError) : DagValidationReport :=
  {| dvr_errors := dvr_errors report;
     dvr_warnings := dvr_warnings report ++
       [{| dvd_pass := pass; dvd_level := Warning; dvd_detail := detail |}] |}.

Definition is_valid (report : DagValidationReport) : bool :=
  match dvr_errors report with [] => true | _ => false end.

(** A pass pushes its details in the order its loops meet them. *)
Definition push_errors (pass : DagValidationPass) (details : list SchedulerError)
    (report : DagValidationReport) : DagValidationReport :=
  foldl (push_error pass) report details.

Definition push_warnings (pass : DagValidationPass) (details : list SchedulerError)
    (report : DagValidationReport) : DagValidationReport :=
  foldl (push_warning pass) report details.

Definition modules_by_id (modules : list LoadedModule) : gmap ModuleId LoadedModule :=
  map_collect ((fun m => (lm_id m, m)) <$> modules).

(** [semver_lt]: the lexicographic order of the three numbers. *)
Definition semver_lt (left right : SemVer) : bool :=
  rust_ltb (sv_major left, (sv_minor left, sv_patch left))
           (sv_major right, (sv_minor right, sv_patch right)).

(** ** Pass 1: stage ids *)

Definition stage_id_details (req : DagValidationRequest) : list SchedulerError :=
  flat_map (fun m =>
    match stage_order_index !! lm_stage m with
    | Some _ => []
    | None => [UnknownStage (lm_id m) (lm_stage m)]
    end) (dvr_modules req) ++
  flat_map (fun d =>
    match stage_order_index !! sd_stage d with
    | Some _ => []
    | None =>
        [UnknownStage (match sd_nodes d with
                       | node :: _ => mn_module_id node
                       | [] => "<stage-dag>"
                       end) (sd_stage d)]
    end) (dvr_stage_dags req).

Definition validate_stage_ids (req : DagValidationRequest) : DagValidationReport -> DagValidationReport :=
  push_errors StageIdValidation (stage_id_details req).

(** ** Passes 2 and 3: claim conflicts *)

Definition FAMILY_SCOPED_SUPPORT_CLAIMS : list string :=
  ["support-generator"; "support-planner"; "support-family:traditional"; "support-family:tree"].

Definition non_transitionable_claims : list string :=
  ["perimeter-generator"; "seam-placer"; "layer-planner"; "mesh-analyzer"].

Definition scope_key (scope : ConflictScope) : string :=
  match scope with
  | Global => "global"
  | Region object_id region_id layer =>
      "region:" +:+ object_id +:+ ":" +:+ region_id +:+ ":" +:+
      match layer with None => "none" | Some value => show_uint value end
  end.

Definition scope_key_without_layer (scope : ConflictScope) : string :=
  match scope with
  | Global => "global"
  | Region object_id region_id _ => "region:" +:+ object_id +:+ ":" +:+ region_id +:+ ":_"
  end.

(** [splitn(4, ':')]: the first piece is skipped, missing pieces are empty. *)
Definition region_scope_from_key (key : string) : ConflictScope :=
  let parts := splitn 4 ":" key in
  Region (default "" (parts !! 1)) (default "" (parts !! 2))
    (match parts !! 3 with
     | Some value => if String.eqb value "none" then None else parse_uint u32_max value
     | None => None
     end).

Definition is_global (scope : ConflictScope) : bool :=
  match scope with Global => true | Region _ _ _ => false end.

Definition claim_scope_key (global_only : bool) (h : ClaimHolder) : string :=
  if global_only then scope_key (ch_scope h)
  else if contains non_transitionable_claims (ch_claim h)
  then scope_key_without_layer (ch_scope h)
  else scope_key (ch_scope h).

Definition holders_by_claim (global_only : bool) (holders : list ClaimHolder)
    : gmap (string * string) (list ModuleId) :=
  foldl push_entry ∅
    ((fun h => ((ch_claim h, claim_scope_key global_only h), ch_module_id h)) <$>
     base.filter (fun h => Bool.eqb (is_global (ch_scope h)) global_only = true) holders).

(** All [(l[i], l[j])] with [i < j]. *)
Fixpoint pairs {A} (l : list A) : list (A * A) :=
  match l with
  | [] => []
  | x :: l' => ((fun y => (x, y)) <$> l') ++ pairs l'
  end.

Definition uncovered_fill_claims (by_claim : gmap (string * string) (list ModuleId))
    : list SchedulerError :=
  flat_map (fun fill_claim =>
    if existsb (fun key => String.eqb key.1 fill_claim) (btree_keys by_claim) then []
    else [MissingDependency ("fill-role-claim:" +:+ fill_claim) ("no module holds " +:+ fill_claim)])
  FILL_CLAIM_IDS.

Definition claim_conflicts_of (global_only : bool)
    (e : (string * string) * list ModuleId) : list SchedulerError :=
  let '((claim, key), modules) := e in
  let sorted_modules := dedup (sort modules) in
  if Nat.ltb (length sorted_modules) 2 then []
  else if global_only && contains FILL_CLAIM_IDS claim then []
  else if global_only && contains FAMILY_SCOPED_SUPPORT_CLAIMS claim then []
  else
    let scope := if global_only then Global else region_scope_from_key key in
    (fun p => ClaimConflict claim p.1 p.2 scope) <$> pairs sorted_modules.

(** [validate_claim_conflicts]; the coverage check reports under pass 2. *)
Definition validate_claim_conflicts (req : DagValidationRequest) (pass : DagValidationPass)
    (global_only : bool) (report : DagValidationReport) : DagValidationReport :=
  let by_claim := holders_by_claim global_only (dvr_claim_holders req) in
  let report :=
    if global_only then push_errors GlobalClaimConflicts (uncovered_fill_claims by_claim) report
    else report in
  push_errors pass (flat_map (claim_conflicts_of global_only) (btree_iter by_claim)) report.

(** ** Pass 4: incompatibilities *)

Definition incompatibility_details (by_id : gmap ModuleId LoadedModule) : list SchedulerError :=
  flat_map (fun m =>
    flat_map (fun conflicting =>
      match by_id !! conflicting with
      | Some _ => [IncompatibleModules (lm_id m) conflicting
          ("module '" +:+ lm_id m +:+ "' declares '" +:+ conflicting +:+ "' as incompatible")]
      | None => []
      end) (lm_incompatible_with m)) (btree_values by_id).

Definition validate_incompatibilities (by_id : gmap ModuleId LoadedModule)
    : DagValidationReport -> DagValidationReport :=
  push_errors IncompatibilityDeclarations (incompatibility_details by_id).

(** ** Pass 5: missing dependencies *)

Definition missing_dependency_details (req : DagValidationRequest)
    (by_id : gmap ModuleId LoadedModule) : list SchedulerError :=
  let available_claims : gset string := list_to_set (ch_claim <$> dvr_claim_holders req) in
  flat_map (fun m =>
    flat_map (fun required =>
      match by_id !! required with
      | Some _ => []
      | None => [MissingDependency (lm_id m) required]
      end) (lm_requires_modules m) ++
    flat_map (fun claim =>
      if decide (claim ∈ available_claims) then [] else [MissingDependency (lm_id m) claim])
      (lm_requires_claims m)) (dvr_modules req).

Definition validate_missing_dependencies (req : DagValidationRequest)
    (by_id : gmap ModuleId LoadedModule) : DagValidationReport -> DagValidationReport :=
  push_errors MissingDependencies (missing_dependency_details req by_id).

(** ** Passes 6 and 14: versions *)

Definition ir_version_details (req : DagValidationRequest) : list SchedulerError :=
  flat_map (fun m =>
    if semver_lt (dvr_host_ir_schema_version req) (lm_min_ir_schema m)
       || negb (semver_lt (dvr_host_ir_schema_version req) (lm_max_ir_schema m))
    then [IrVersionIncompatible (lm_id m) "host-ir-schema" (lm_min_ir_schema m)
            (dvr_host_ir_schema_version req)]
    else []) (dvr_modules req).

Definition validate_ir_versions (req : DagValidationRequest)
    : DagValidationReport -> DagValidationReport :=
  push_errors IrVersionCompatibility (ir_version_details req).

Definition host_version_details (req : DagValidationRequest) : list SchedulerError :=
  flat_map (fun m =>
    if semver_lt (dvr_host_version req) (lm_min_host_version m)
    then [HostVersionIncompatible (lm_id m) (lm_min_host_version m) (dvr_host_version req)]
    else []) (dvr_modules req).

Definition validate_host_version (req : DagValidationRequest)
    : DagValidationReport -> DagValidationReport :=
  push_errors HostVersionCompatibility (host_version_details req).

(** ** Reachability inside one stage *)

(** [flat_map] for a body that may fail. *)
Fixpoint exec_flat_map {A B} (f : A -> exec (list B)) (l : list A) : exec (list B) :=
  match l with
  | [] => Done []
  | x :: l' => let! a := f x in let! r := exec_flat_map f l' in Done (a ++ r)
  end.

Definition target_map (nodes : list ModuleNode) : gmap ModuleId (list ModuleId) :=
  map_collect ((fun n => (mn_module_id n, edge_targets n)) <$> nodes).

Definition targets_in (adjacency : gmap ModuleId (list ModuleId)) (id : ModuleId) : list ModuleId :=
  default [] (adjacency !! id).

(** The search from one node; every queue entry comes from the start list or from
    one adjacency list, which bounds the number of rounds. *)
Definition reachable_ids (adjacency : gmap ModuleId (list ModuleId)) (start : list ModuleId)
    : exec (gset ModuleId) :=
  bfs_loop (targets_in adjacency)
    (length start + unvisited_weight (targets_in adjacency) (btree_keys adjacency) ∅) start ∅.

Fixpoint reachability_loop (adjacency : gmap ModuleId (list ModuleId)) (nodes : list ModuleNode)
    (reachability : gmap ModuleId (gset ModuleId)) : exec (gmap ModuleId (gset ModuleId)) :=
  match nodes with
  | [] => Done reachability
  | node :: rest =>
      let! visited := reachable_ids adjacency (targets_in adjacency (mn_module_id node)) in
      reachability_loop adjacency rest (<[mn_module_id node := visited]> reachability)
  end.

Definition compute_reachability (nodes : list ModuleNode) : exec (gmap ModuleId (gset ModuleId)) :=
  reachability_loop (target_map nodes) nodes ∅.

Definition can_reach (reachability : gmap ModuleId (gset ModuleId)) (from to : ModuleId) : bool :=
  match reachability !! from with
  | Some reachable => bool_decide (to ∈ reachable)
  | None => false
  end.

(** ** Pass 7: cycles *)

Definition cycle_details (req : DagValidationRequest) : exec (list SchedulerError) :=
  exec_flat_map (fun d =>
    let! r := Fifo.topological_sort (sd_nodes d) in
    Done (match r with Ok _ => [] | Err cycle => [CyclicDependency cycle] end))
  (dvr_stage_dags req).

Definition validate_cycles (req : DagValidationRequest) (report : DagValidationReport)
    : exec DagValidationReport :=
  let! details := cycle_details req in Done (push_errors CycleDetection details report).

(** ** Pass 8: write conflicts *)

Definition shared_paths (left right : list string) : list string :=
  let right_set : gset string := list_to_set right in
  btree_elems (list_to_set (base.filter (fun path => path ∈ right_set) left) : gset string).

Definition family_support_modules (req : DagValidationRequest) : gset ModuleId :=
  list_to_set (ch_module_id <$>
    base.filter (fun h => contains FAMILY_SCOPED_SUPPORT_CLAIMS (ch_claim h) = true)
      (dvr_claim_holders req)).

(** Fields that the support aggregation merges across families. *)
Definition aggregated_support_field (field : string) : bool :=
  String.eqb field "SupportPlanIR" || starts_with "SupportPlanIR." field
  || String.eqb field "SupportIR" || starts_with "SupportIR." field.

(** Whether an order resolves the conflict of [left] and [right] on [field]. *)
Definition write_orderable (family : gset ModuleId)
    (reach : gmap ModuleId (gset ModuleId)) (left right : ModuleNode) (field : string) : bool :=
  (contains (mn_ir_reads right) field
     && can_reach reach (mn_module_id left) (mn_module_id right))
  || (contains (mn_ir_reads left) field
     && can_reach reach (mn_module_id right) (mn_module_id left))
  || (bool_decide (mn_module_id left ∈ family) && bool_decide (mn_module_id right ∈ family)
     && aggregated_support_field field).

Definition write_conflict_details (req : DagValidationRequest) : exec (list SchedulerError) :=
  let family := family_support_modules req in
  exec_flat_map (fun d =>
    let! reach := compute_reachability (sd_nodes d) in
    Done (flat_map (fun p =>
      flat_map (fun field =>
        if write_orderable family reach p.1 p.2 field then []
        else [WriteConflict field (mn_module_id p.1) (mn_module_id p.2) (sd_stage d) false])
      (shared_paths (mn_ir_writes p.1) (mn_ir_writes p.2))) (pairs (sd_nodes d))))
  (dvr_stage_dags req).

Definition validate_write_conflicts (req : DagValidationRequest) (report : DagValidationReport)
    : exec DagValidationReport :=
  let! details := write_conflict_details req in Done (push_errors WriteConflicts details report).

(** ** Passes 9 and 10: reads without a writer, writes without a reader *)

Definition stage_rank (stage : StageId) : option nat := stage_order_index !! stage.

#[global] Arguments stage_rank _ : simpl never.

(** [sorted_stage_dags]: by canonical index ([usize::MAX] for an unknown stage),
    then by name. *)
Definition usize_max : Z := 18446744073709551615.
Definition sorted_stage_dags (dags : list StageDag) : list StageDag :=
  let key d := (match stage_rank (sd_stage d) with
                | Some i => Z.of_nat i | None => usize_max end, sd_stage d) in
  sort_by (fun a b => rust_leb (key a) (key b)) dags.

(** [writers_by_field] and [readers_by_field]. *)
Definition accesses_by_field (fields : ModuleNode -> list string) (dags : list StageDag)
    : gmap string (list (StageId * ModuleId)) :=
  foldl push_entry ∅
    (flat_map (fun d => flat_map (fun node =>
       (fun field => (field, (sd_stage d, mn_module_id node))) <$> fields node) (sd_nodes d))
     (sorted_stage_dags dags)).

Definition writers_by_field (dags : list StageDag) : gmap string (list (StageId * ModuleId)) :=
  accesses_by_field mn_ir_writes dags.
Definition readers_by_field (dags : list StageDag) : gmap string (list (StageId * ModuleId)) :=
  accesses_by_field mn_ir_reads dags.

(** A writer that makes a read of [module], scheduled in [stage], available. *)
Definition read_supplied (reach : gmap ModuleId (gset ModuleId)) (stage : StageId)
    (module : LoadedModule) (writer : StageId * ModuleId) : bool :=
  if String.eqb writer.2 (lm_id module) then false
  else match stage_rank stage, stage_rank writer.1 with
       | Some reader_index, Some writer_index =>
           if Nat.ltb writer_index reader_index then true
           else if String.eqb writer.1 (lm_stage module)
           then can_reach reach writer.2 (lm_id module)
           else false
       | _, _ => false
       end.

Definition unfulfilled_read_details (req : DagValidationRequest) : exec (list SchedulerError) :=
  let all_writers := writers_by_field (dvr_stage_dags req) in
  let by_id := modules_by_id (dvr_modules req) in
  exec_flat_map (fun d =>
    let! reach := compute_reachability (sd_nodes d) in
    Done (flat_map (fun node =>
      match by_id !! mn_module_id node with
      | None => []
      | Some m =>
          flat_map (fun field =>
            if existsb (read_supplied reach (sd_stage d) m) (default [] (all_writers !! field))
            then [] else [UnfulfilledRead (lm_id m) field None]) (lm_ir_reads m)
      end) (sd_nodes d)))
  (dvr_stage_dags req).

Definition validate_unfulfilled_reads (req : DagValidationRequest) (report : DagValidationReport)
    : exec DagValidationReport :=
  let! details := unfulfilled_read_details req in Done (push_errors UnfulfilledReads details report).

(** A reader that consumes a write of [node], scheduled in [stage]. *)
Definition write_consumed (reach : gmap ModuleId (gset ModuleId)) (stage : StageId)
    (node : ModuleNode) (reader : StageId * ModuleId) : bool :=
  match stage_rank stage, stage_rank reader.1 with
  | Some writer_index, Some reader_index =>
      if Nat.ltb writer_index reader_index then true
      else if String.eqb reader.1 stage then can_reach reach (mn_module_id node) reader.2
      else false
  | _, _ => false
  end.

Definition dead_write_details (req : DagValidationRequest) : exec (list SchedulerError) :=
  let all_readers := readers_by_field (dvr_stage_dags req) in
  exec_flat_map (fun d =>
    let! reach := compute_reachability (sd_nodes d) in
    Done (flat_map (fun node =>
      flat_map (fun field =>
        if existsb (write_consumed reach (sd_stage d) node) (default [] (all_readers !! field))
        then [] else [DeadWrite (mn_module_id node) field]) (mn_ir_writes node)) (sd_nodes d)))
  (dvr_stage_dags req).

Definition validate_dead_writes (req : DagValidationRequest) (report : DagValidationReport)
    : exec DagValidationReport :=
  let! details := dead_write_details req in Done (push_warnings DeadWrites details report).

(** ** Pass 11: undeclared access *)

Definition ir_root (path : string) : string :=
  match split_once "." path with Some (root, _) => root | None => path end.

Definition read_is_declared (declared : list string) (runtime_path : string) : bool :=
  existsb (fun declared_path => String.eqb (ir_root declared_path) (ir_root runtime_path)) declared.

Definition undeclared_access_details (req : DagValidationRequest)
    (by_id : gmap ModuleId LoadedModule) : list SchedulerError :=
  flat_map (fun audit =>
    match by_id !! maa_module_id audit with
    | None => []
    | Some m =>
        flat_map (fun path =>
          if read_is_declared (lm_ir_reads m) path then []
          else [UndeclaredAccess (lm_id m) Read path]) (maa_runtime_reads audit) ++
        flat_map (fun path =>
          if contains (lm_ir_writes m) path then []
          else [UndeclaredAccess (lm_id m) Write path]) (maa_runtime_writes audit)
    end) (dvr_access_audits req).

Definition validate_undeclared_access (req : DagValidationRequest)
    (by_id : gmap ModuleId LoadedModule) : DagValidationReport -> DagValidationReport :=
  push_errors PassUndeclaredAccess (undeclared_access_details req by_id).

(** ** Pass 12: requirements on a later stage *)

Definition cross_stage_details (modules : list LoadedModule) (by_id : gmap ModuleId LoadedModule)
    : list SchedulerError :=
  flat_map (fun m =>
    match stage_rank (lm_stage m) with
    | None => []
    | Some module_index =>
        flat_map (fun required_module =>
          match by_id !! required_module with
          | None => []
          | Some required =>
              match stage_rank (lm_stage required) with
              | None => []
              | Some required_index =>
                  if Nat.ltb module_index required_index
                  then [CrossStageDependency (lm_id m) (lm_id required) (lm_stage m)
                          (lm_stage required)]
                  else []
              end
          end) (lm_requires_modules m)
    end) modules.

Definition validate_cross_stage_dependencies (modules : list LoadedModule)
    (by_id : gmap ModuleId LoadedModule) : DagValidationReport -> DagValidationReport :=
  push_errors CrossStageDependencyLegality (cross_stage_details modules by_id).

(** ** Pass 13: transitive requirements on a later stage *)

Section transitive.
Context (by_id : gmap ModuleId LoadedModule) (module : LoadedModule) (module_index : nat).

Definition next_paths (path : list ModuleId) (current : LoadedModule) : list (list ModuleId) :=
  (fun next_id => path ++ [next_id]) <$>
    base.filter (fun next_id => next_id ∉ path) (sort (lm_requires_modules current)).

(** [while let Some(path) = queue.pop_front()], left at the first error. *)
Fixpoint transitive_loop (fuel : nat) (queue : list (list ModuleId))
    (visited_edges : gset (list ModuleId)) : exec (option SchedulerError) :=
  match queue with
  | [] => Done None
  | path :: queue' =>
      match fuel with
      | O => OutOfFuel
      | S fuel' =>
          match last path with
          | None => transitive_loop fuel' queue' visited_edges
          | Some current_id =>
              if decide (path ∈ visited_edges) then transitive_loop fuel' queue' visited_edges
              else
                let visited_edges := {[path]} ∪ visited_edges in
                match by_id !! current_id with
                | None => transitive_loop fuel' queue' visited_edges
                | Some current =>
                    match stage_rank (lm_stage current) with
                    | None => transitive_loop fuel' queue' visited_edges
                    | Some current_index =>
                        if Nat.ltb module_index current_index
                        then Done (Some (TransitiveStageDependency (lm_id module) path
                                           (lm_stage module) (lm_stage current)))
                        else transitive_loop fuel' (queue' ++ next_paths path current) visited_edges
                    end
                end
          end
      end
  end.

(** The rounds a path can cause when it can still grow by [k] modules, with at
    most [b] requirements per module. *)
Fixpoint path_cost (b k : nat) : nat :=
  match k with
  | O => 1
  | S k' => 1 + b * path_cost b k'
  end.

Definition max_requires : nat :=
  foldr (fun m acc => Nat.max (length (lm_requires_modules m)) acc) 0 (btree_values by_id).

Definition transitive_fuel : nat :=
  length (lm_requires_modules module) * path_cost max_requires (size by_id).

Definition transitive_search : exec (option SchedulerError) :=
  transitive_loop transitive_fuel
    ((fun required => [lm_id module; required]) <$> lm_requires_modules module) ∅.
End transitive.

Definition transitive_details (modules : list LoadedModule) (by_id : gmap ModuleId LoadedModule)
    : exec (list SchedulerError) :=
  exec_flat_map (fun m =>
    match stage_rank (lm_stage m) with
    | None => Done []
    | Some module_index =>
        let! found := transitive_search by_id m module_index in
        Done (match found with Some e => [e] | None => [] end)
    end) modules.

Definition validate_transitive_dependencies (modules : list LoadedModule)
    (by_id : gmap ModuleId LoadedModule) (report : DagValidationReport)
    : exec DagValidationReport :=
  let! details := transitive_details modules by_id in
  Done (push_errors TransitiveDependencyLegality details report).

(** ** All passes *)

Definition validate_startup_dag (req : DagValidationRequest) : exec DagValidationReport :=
  let by_id := modules_by_id (dvr_modules req) in
  let report := validate_stage_ids req empty_report in
  let report := validate_claim_conflicts req GlobalClaimConflicts true report in
  let report := validate_claim_conflicts req PerRegionClaimConflicts false report in
  let report := validate_incompatibilities by_id report in
  let report := validate_missing_dependencies req by_id report in
  let report := validate_ir_versions req report in
  let report := validate_host_version req report in
  let! report := validate_cycles req report in
  let! report := validate_write_conflicts req report in
  let! report := validate_unfulfilled_reads req report in
  let! report := validate_dead_writes req report in
  let report := validate_undeclared_access req by_id report in
  let report := validate_cross_stage_dependencies (dvr_modules req) by_id report in
  validate_transitive_dependencies (dvr_modules req) by_id report.
