(* ===== verification/Reachability.v ===== *)
(** The two searches of the startup validation: the reachability map of a stage
    is the transitive closure of its edges, and the path search over module
    requirements always returns and finds a later stage exactly when one can be
    reached. *)
From Stdlib Require Import Ascii.
From stdpp Require Import prelude gmap strings list relations.
From S2P Require Import Prelude Graph Ir StageOrder Manifest Dag Topology Validation.

#[local] Open Scope string_scope.
#[local] Open Scope list_scope.

(** ** Monadic [flat_map] *)

Lemma exec_flat_map_Done {A B} (f : A -> exec (list B)) (g : A -> list B) l :
  (forall x, x ∈ l -> f x = Done (g x)) -> exec_flat_map f l = Done (flat_map g l).
Proof.
  induction l as [|x l IH]; intros Hf; simpl; [done|]. rewrite Hf by left. simpl.
  rewrite IH; [done|]. intros y Hy. apply Hf. by right.
Qed.

(** If every body returns, the whole returns the concatenation. *)
Lemma exec_flat_map_total {A B} (f : A -> exec (list B)) (P : A -> list B -> Prop) l :
  (forall x, x ∈ l -> exists r, f x = Done r /\ P x r) ->
  exists r, exec_flat_map f l = Done r /\
    (forall e, e ∈ r <-> exists x s, x ∈ l /\ f x = Done s /\ P x s /\ e ∈ s).
Proof.
  induction l as [|x l IH]; intros Hf; simpl.
  - exists []. split; [done|]. intros e. rewrite elem_of_nil. split; [done|].
    intros (x & _ & Hx & _). by apply elem_of_nil in Hx.
  - destruct (Hf x) as (a & Ha & HP); [left|].
    destruct IH as (r & Hr & Hmem); [intros y Hy; apply Hf; by right|].
    rewrite Ha. simpl. rewrite Hr. simpl. exists (a ++ r). split; [done|]. intros e.
    rewrite elem_of_app, Hmem. split.
    + intros [He|(y & s & Hy & Hs & Hp & He)].
      * exists x, a. split; [left|done].
      * exists y, s. split; [by right|done].
    + intros (y & s & [->|Hy]%elem_of_cons & Hs & Hp & He); [left|right; eauto 10].
      rewrite Ha in Hs. by injection Hs as ->.
Qed.

Lemma flat_map_nil {A B} (f : A -> list B) l :
  flat_map f l = [] <-> forall x, x ∈ l -> f x = [].
Proof.
  induction l as [|x l IH]; simpl.
  - split; [|done]. intros _ x Hx. by apply elem_of_nil in Hx.
  - split.
    + intros [Hx Hl]%app_eq_nil y [->|Hy]%elem_of_cons; [done|]. by apply IH.
    + intros Hall. rewrite (Hall x) by left. apply IH. intros y Hy. apply Hall. by right.
Qed.

Lemma tc_inv_l {A} (R : relation A) x z : tc R x z -> exists y, R x y /\ rtc R y z.
Proof.
  inversion 1 as [? ? Hxz|? y ? Hxy Hyz]; subst.
  - exists z. split; [done|apply rtc_refl].
  - exists y. split; [done|by apply tc_rtc].
Qed.

(** ** The reachability map *)

Section reachability.
Context (nodes : list ModuleNode).

Definition stage_target (u v : ModuleId) : Prop := v ∈ targets_in (target_map nodes) u.

(** A non-empty chain of edges. *)
Definition reaches (u v : ModuleId) : Prop := tc stage_target u v.

Lemma targets_in_nonempty u : targets_in (target_map nodes) u <> [] -> u ∈ btree_keys (target_map nodes).
Proof.
  unfold targets_in. rewrite elem_of_btree_keys. by destruct (target_map nodes !! u).
Qed.

Lemma reachable_ids_spec start :
  exists r, reachable_ids (target_map nodes) start = Done r /\
    forall x, x ∈ r <-> exists s, s ∈ start /\ rtc stage_target s x.
Proof.
  apply (bfs_loop_spec (targets_in (target_map nodes)) (btree_keys (target_map nodes)) start).
  - apply targets_in_nonempty.
  - done.
  - by right.
  - intros x [Hx|Hx]; [by apply elem_of_empty in Hx|]. exists x. split; [done|apply rtc_refl].
  - intros x y Hx. by apply elem_of_empty in Hx.
Qed.

Lemma reachability_loop_spec ns reach :
  exists reach', reachability_loop (target_map nodes) ns reach = Done reach' /\
    forall u, (u ∈ node_ids ns -> exists s, reach' !! u = Some s /\ forall v, v ∈ s <-> reaches u v) /\
              (u ∉ node_ids ns -> reach' !! u = reach !! u).
Proof.
  revert reach; induction ns as [|n ns IH]; intros reach; simpl.
  - exists reach. split; [done|]. intros u. split; [|done]. intros Hu. by apply elem_of_nil in Hu.
  - destruct (reachable_ids_spec (targets_in (target_map nodes) (mn_module_id n)))
      as (s & -> & Hs). simpl.
    destruct (IH (<[mn_module_id n := s]> reach)) as (reach' & -> & Hr).
    exists reach'. split; [done|]. intros u. unfold node_ids in *. simpl.
    destruct (Hr u) as [Hin Hout]. rewrite elem_of_cons.
    destruct (decide (u ∈ mn_module_id <$> ns)) as [Hu|Hu]; [split; [auto|tauto]|].
    specialize (Hout Hu). split.
    + intros [->|?]; [|done]. rewrite lookup_insert_eq in Hout. exists s. split; [done|].
      intros v. rewrite Hs. unfold reaches. split.
      * intros (w & Hw & Hr'). apply tc_rtc_r with w; [by apply tc_once|done].
      * intros Ht. apply tc_inv_l in Ht as (w & Hw & Hr'). eauto.
    + intros Hne. rewrite Hout, lookup_insert_ne; [done|]. intros Heq. apply Hne. by left.
Qed.

Lemma compute_reachability_spec :
  exists reach, compute_reachability nodes = Done reach /\
    forall u v, can_reach reach u v = true <-> reaches u v.
Proof.
  destruct (reachability_loop_spec nodes ∅) as (reach & Hrun & Hr).
  exists reach. split; [done|]. intros u v. unfold can_reach. destruct (Hr u) as [Hin Hout].
  destruct (decide (u ∈ node_ids nodes)) as [Hu|Hu].
  - destruct (Hin Hu) as (s & -> & Hs). by rewrite bool_decide_eq_true, Hs.
  - rewrite (Hout Hu), lookup_empty. split; [done|]. intros Ht.
    apply tc_inv_l in Ht as (w & Hw & _). exfalso. apply Hu.
    assert (Hk : u ∈ btree_keys (target_map nodes)).
    { apply targets_in_nonempty. intros He. unfold stage_target in Hw. rewrite He in Hw.
      by apply elem_of_nil in Hw. }
    apply elem_of_btree_keys in Hk. unfold target_map in Hk.
    by rewrite map_collect_is_Some, <-list_fmap_compose in Hk.
Qed.
End reachability.

(** With distinct ids the closure is that of the edges of the nodes. *)
Lemma stage_target_node_target nodes u v :
  NoDup (node_ids nodes) -> (stage_target nodes u v <-> node_target nodes u v).
Proof.
  intros Hnd. unfold stage_target, targets_in, node_target.
  assert (Hl : forall n, target_map nodes !! u = Some n <->
             (u, n) ∈ (fun n => (mn_module_id n, edge_targets n)) <$> nodes)
    by (intros; apply map_collect_lookup; by rewrite <-list_fmap_compose).
  split.
  - destruct (target_map nodes !! u) as [l|] eqn:Hu; [|intros Hv; by apply elem_of_nil in Hv].
    pose proof (proj1 (Hl l) eq_refl) as Hin.
    apply list_elem_of_fmap in Hin as (n & [= -> ->] & Hn). intros Hv. by exists n.
  - intros (n & Hn & Hu & Hv).
    rewrite (proj2 (Hl (edge_targets n))); [done|].
    apply list_elem_of_fmap. exists n. by rewrite Hu.
Qed.

(** The reachability map of a stage is computed for every graph, cyclic or
    not, and holds exactly the pairs joined by a non-empty chain of edges. *)
Theorem compute_reachability_correct nodes :
  NoDup (node_ids nodes) ->
  exists reach, compute_reachability nodes = Done reach /\
    forall u v, can_reach reach u v = true <-> tc (node_target nodes) u v.
Proof.
  intros Hnd. destruct (compute_reachability_spec nodes) as (reach & Hrun & Hr).
  exists reach. split; [done|]. intros u v. rewrite Hr. unfold reaches.
  split; apply tc_congruence with (f := id); intros; by apply stage_target_node_target.
Qed.

Lemma compute_reachability_correct_witness :
  NoDup (node_ids sample_cycle) /\
  exists reach, compute_reachability sample_cycle = Done reach /\
    can_reach reach "b" "b" = true /\ can_reach reach "b" "a" = false /\
    ~ tc (node_target sample_cycle) "b" "a".
Proof.
  assert (Hnd : NoDup (node_ids sample_cycle)) by (apply (bool_decide_unpack _); exact I).
  split; [exact Hnd|].
  destruct (compute_reachability_correct sample_cycle Hnd) as (reach & Hrun & Hr).
  exists reach. split; [exact Hrun|].
  vm_compute in Hrun. injection Hrun as Hreach.
  assert (Hbb : can_reach reach "b" "b" = true) by (rewrite <-Hreach; vm_compute; reflexivity).
  assert (Hba : can_reach reach "b" "a" = false) by (rewrite <-Hreach; vm_compute; reflexivity).
  split; [exact Hbb|]. split; [exact Hba|].
  rewrite <-Hr, Hba. discriminate.
Defined.

(** ** Transitive requirements *)

Section transitive_spec.
Context (by_id : gmap ModuleId LoadedModule) (module : LoadedModule) (mi : nat).

(** [a], scheduled no later than the module, requires [b]. *)
Definition early_requires (a b : ModuleId) : Prop :=
  exists ma k, by_id !! a = Some ma /\ stage_rank (lm_stage ma) = Some k /\ k <= mi /\
    b ∈ lm_requires_modules ma.

Definition in_later_stage (x : ModuleId) : Prop :=
  exists mx k, by_id !! x = Some mx /\ stage_rank (lm_stage mx) = Some k /\ mi < k.

(** A module of a later stage lies behind a chain of requirements. *)
Definition depends_on_later : Prop :=
  exists r x, r ∈ lm_requires_modules module /\ rtc early_requires r x /\ in_later_stage x.

(** *** Paths *)

Record path_ok (p : list ModuleId) (x : ModuleId) : Prop := {
  po_tail : exists tail, p = lm_id module :: tail ++ [x] /\ NoDup (tail ++ [x]) /\
    forall y, y ∈ tail -> is_Some (by_id !! y);
  po_chain : exists r, r ∈ lm_requires_modules module /\ rtc early_requires r x
}.

Lemma path_ok_last p x : path_ok p x -> last p = Some x.
Proof.
  intros [(tail & -> & _) _]. change (lm_id module :: tail ++ [x]) with ([lm_id module] ++ tail ++ [x]).
  by rewrite (assoc_L (++)), last_snoc.
Qed.

Lemma path_ok_snoc p x n :
  path_ok p x -> early_requires x n -> n ∉ p -> path_ok (p ++ [n]) n.
Proof.
  intros [(tail & -> & Hnd & Hk) (r & Hr & Hrx)] Hxn Hn. constructor.
  - exists (tail ++ [x]). split; [done|]. split.
    + apply NoDup_app. split; [done|]. split; [|apply NoDup_singleton].
      intros y Hy ->%list_elem_of_singleton. apply Hn. by right.
    + intros y [Hy| ->%list_elem_of_singleton]%elem_of_app; [auto|].
      destruct Hxn as (mx & k & Hx & _). by rewrite Hx.
  - exists r. split; [done|]. by eapply rtc_r.
Qed.

(** A path never outgrows the number of known modules. *)
Lemma path_ok_length p x :
  path_ok p x ->
  length p <= size by_id + 2 /\ (is_Some (by_id !! x) -> length p < size by_id + 2).
Proof.
  intros [(tail & -> & Hnd & Hk) _]. simpl. rewrite length_app. simpl.
  assert (Hlen : forall l, NoDup l -> (forall y, y ∈ l -> is_Some (by_id !! y)) ->
            length l <= size by_id).
  { intros l Hl Hin. rewrite <-size_dom.
    assert (Hs : size (list_to_set l : gset ModuleId) <= size (dom by_id)).
    { apply subseteq_size. intros y Hy%elem_of_list_to_set. by apply elem_of_dom, Hin. }
    by rewrite size_list_to_set in Hs. }
  split.
  - specialize (Hlen tail (proj1 (proj1 (NoDup_app _ _) Hnd)) Hk). lia.
  - intros Hx. specialize (Hlen (tail ++ [x]) Hnd). rewrite length_app in Hlen. simpl in Hlen.
    enough (length tail + 1 <= size by_id) by lia. apply Hlen.
    intros y [Hy| ->%list_elem_of_singleton]%elem_of_app; auto.
Qed.

Definition paths_cost (queue : list (list ModuleId)) : nat :=
  list_sum ((fun p => path_cost (max_requires by_id) (size by_id + 2 - length p)) <$> queue).

Lemma paths_cost_cons p q :
  paths_cost (p :: q) =
  path_cost (max_requires by_id) (size by_id + 2 - length p) + paths_cost q.
Proof. done. Qed.

Lemma paths_cost_app q1 q2 : paths_cost (q1 ++ q2) = paths_cost q1 + paths_cost q2.
Proof. unfold paths_cost. by rewrite fmap_app, list_sum_app. Qed.

Lemma path_cost_pos b k : 1 <= path_cost b k.
Proof. destruct k; simpl; lia. Qed.

Lemma max_requires_bound x mx :
  by_id !! x = Some mx -> length (lm_requires_modules mx) <= max_requires by_id.
Proof.
  intros Hx. assert (Hin : mx ∈ btree_values by_id) by (apply elem_of_btree_values; eauto).
  unfold max_requires. induction (btree_values by_id) as [|m l IH]; [by apply elem_of_nil in Hin|].
  simpl. apply elem_of_cons in Hin as [->|Hin]; [lia|]. specialize (IH Hin). lia.
Qed.

Lemma next_paths_cost p x mx :
  path_ok p x -> by_id !! x = Some mx ->
  paths_cost (next_paths p mx) < path_cost (max_requires by_id) (size by_id + 2 - length p).
Proof.
  intros Hp Hx. destruct (path_ok_length p x Hp) as [_ Hlt].
  specialize (Hlt ltac:(by rewrite Hx)).
  destruct (size by_id + 2 - length p) as [|k] eqn:Hk; [lia|]. simpl.
  assert (Hgen : forall l, paths_cost ((fun n => p ++ [n]) <$> l) =
            length l * path_cost (max_requires by_id) k).
  { induction l as [|n l IH]; [done|]. rewrite fmap_cons, paths_cost_cons, IH, length_app.
    cbn [length]. replace (size by_id + 2 - (length p + 1)) with k by lia. lia. }
  unfold next_paths. rewrite Hgen.
  enough (length (base.filter (fun n => n ∉ p) (sort (lm_requires_modules mx))) <= max_requires by_id)
    by nia.
  transitivity (length (sort (lm_requires_modules mx))); [apply length_filter|].
  unfold sort. rewrite length_sort_by. by eapply max_requires_bound.
Qed.

(** *** The search invariant *)

Record search_inv (queue : list (list ModuleId)) (visited : gset (list ModuleId)) : Prop := {
  si_ok : forall p, p ∈ visited \/ p ∈ queue -> exists x, path_ok p x;
  si_start : forall r, r ∈ lm_requires_modules module ->
    [lm_id module; r] ∈ visited \/ [lm_id module; r] ∈ queue;
  si_next : forall p x n, p ∈ visited -> last p = Some x -> early_requires x n -> n ∉ p ->
    p ++ [n] ∈ visited \/ p ++ [n] ∈ queue;
  si_prefix : forall p n, p ++ [n] ∈ visited \/ p ++ [n] ∈ queue -> 2 <= length p -> p ∈ visited;
  si_early : forall p x, p ∈ visited -> last p = Some x -> ~ in_later_stage x
}.

Lemma search_inv_skip p queue visited :
  search_inv (p :: queue) visited -> p ∈ visited -> search_inv queue visited.
Proof.
  intros [Hok Hs Hn Hp He] Hv. constructor; [| | | |done].
  - intros q [Hq|Hq]; apply Hok; [auto|right; by right].
  - intros r Hr. destruct (Hs r Hr) as [?|[<-|?]%elem_of_cons]; auto.
  - intros q x n Hq Hl Hxn Hnq. destruct (Hn q x n Hq Hl Hxn Hnq) as [?|[<-|?]%elem_of_cons]; auto.
  - intros q n [Hq|Hq] Hlen; (apply (Hp q n); [|done]); [auto|right; by right].
Qed.

Lemma search_inv_step p x queue visited exts :
  search_inv (p :: queue) visited -> path_ok p x -> ~ in_later_stage x ->
  (forall q, q ∈ exts <-> exists n, q = p ++ [n] /\ early_requires x n /\ n ∉ p) ->
  search_inv (queue ++ exts) ({[p]} ∪ visited).
Proof.
  intros [Hok Hs Hn Hp He] Hpx Hx Hext. pose proof (path_ok_last p x Hpx) as Hlast.
  constructor.
  - intros q Hq. rewrite elem_of_union, elem_of_singleton, elem_of_app, Hext in Hq.
    destruct Hq as [[->|Hq]|[Hq|(n & -> & Hxn & Hnp)]].
    + by exists x.
    + apply Hok. by left.
    + apply Hok. right. by right.
    + exists n. by eapply path_ok_snoc.
  - intros r Hr. rewrite elem_of_union, elem_of_singleton, elem_of_app.
    destruct (Hs r Hr) as [?|[<-|?]%elem_of_cons]; auto.
  - intros q y n Hq Hl Hyn Hnq. rewrite elem_of_union, elem_of_singleton, elem_of_app.
    apply elem_of_union in Hq as [->%elem_of_singleton|Hq].
    + rewrite Hlast in Hl. injection Hl as <-. right. right. apply Hext. eauto.
    + destruct (Hn q y n Hq Hl Hyn Hnq) as [?|[<-|?]%elem_of_cons]; auto.
  - intros q n Hq Hlen. rewrite elem_of_union, elem_of_singleton.
    rewrite elem_of_union, elem_of_singleton, elem_of_app, Hext in Hq.
    destruct Hq as [[Hq|Hq]|[Hq|(n' & Hq & _)]].
    + right. apply (Hp q n); [|done]. right. rewrite Hq. left.
    + right. apply (Hp q n); auto.
    + right. apply (Hp q n); [|done]. right. by right.
    + left. by apply app_inj_tail in Hq as [-> _].
  - intros q y Hq Hl. apply elem_of_union in Hq as [->%elem_of_singleton|Hq]; [|by eapply He].
    rewrite Hlast in Hl. by injection Hl as <-.
Qed.

Context (module_known : by_id !! lm_id module = Some module)
        (module_rank : stage_rank (lm_stage module) = Some mi).

(** When the search is exhausted, every module behind the requirements was met. *)
Lemma search_inv_exhausted visited :
  search_inv [] visited -> ~ depends_on_later.
Proof using module_known module_rank.
  intros [Hok Hs Hn Hp He] (r & x & Hr & Hrx & Hx).
  assert (Hnil : forall q : list ModuleId, q ∈ visited \/ q ∈ [] -> q ∈ visited).
  { intros q [?|Hq]; [done|by apply elem_of_nil in Hq]. }
  assert (Hself : ~ in_later_stage (lm_id module)).
  { intros (mx & k & Hm & Hk & Hlt). rewrite module_known in Hm. injection Hm as <-.
    rewrite module_rank in Hk. injection Hk as <-. lia. }
  assert (Hmet : x = lm_id module \/ exists p, p ∈ visited /\ last p = Some x).
  { clear Hx. pattern x. refine (rtc_ind_r _ r _ _ x Hrx); clear x Hrx;
      [|intros y z Hry Hyz IH].
    - right. exists [lm_id module; r]. split; [by apply Hnil, Hs|done].
    - destruct IH as [->|(p & Hpv & Hlast)].
      + right. exists [lm_id module; z]. split; [|done]. apply Hnil, Hs.
        destruct Hyz as (ma & k & Ha & _ & _ & Hz). rewrite module_known in Ha. by injection Ha as <-.
      + destruct (decide (z ∈ p)) as [Hzp|Hzp].
        * apply list_elem_of_split in Hzp as (l1 & l2 & ->).
          destruct l1 as [|w l1].
          { left. destruct (Hok _ (or_introl Hpv)) as (y' & [(tail & Heq & _) _]).
            by injection Heq as -> _. }
          right. exists ((w :: l1) ++ [z]). split; [|by rewrite last_snoc].
          clear Hlast. induction l2 as [|u l2 IHl] using rev_ind; [done|].
          apply IHl. eapply (Hp _ u).
          -- left. rewrite <-(assoc_L (++)). simpl. by rewrite <-app_comm_cons in Hpv.
          -- rewrite length_app. simpl. lia.
        * right. exists (p ++ [z]). split; [by eapply Hnil, Hn|by rewrite last_snoc]. }
  destruct Hmet as [->|(p & Hpv & Hlast)]; [done|]. by eapply He.
Qed.

Lemma transitive_loop_spec fuel queue visited :
  search_inv queue visited -> paths_cost queue <= fuel ->
  exists r, transitive_loop by_id module mi fuel queue visited = Done r /\
    (is_Some r <-> depends_on_later).
Proof using module_known module_rank.
  revert queue visited; induction fuel as [|fuel IH]; intros [|p queue] visited Hinv Hcost;
    cbn [transitive_loop].
  1, 3: exists None; split; [reflexivity|]; split; [intros [? Hs]; discriminate Hs|];
        intros Hd; exfalso; exact (search_inv_exhausted visited Hinv Hd).
  - rewrite paths_cost_cons in Hcost.
    pose proof (path_cost_pos (max_requires by_id) (size by_id + 2 - length p)). lia.
  - rewrite paths_cost_cons in Hcost.
    pose proof (path_cost_pos (max_requires by_id) (size by_id + 2 - length p)) as Hpos.
    destruct (si_ok _ _ Hinv p) as (x & Hpx); [right; left|].
    rewrite (path_ok_last p x Hpx).
    case_decide as Hv; [apply IH; [by eapply search_inv_skip|lia]|].
    assert (Hleaf : ~ in_later_stage x -> (forall n, ~ early_requires x n) ->
      exists r, transitive_loop by_id module mi fuel queue ({[p]} ∪ visited) = Done r /\
        (is_Some r <-> depends_on_later)).
    { intros Hx Hno. apply IH; [|lia]. rewrite <-(app_nil_r queue).
      eapply search_inv_step; [done|done|done|]. intros q. rewrite elem_of_nil.
      split; [done|]. intros (n & _ & Hxn & _). by apply (Hno n). }
    destruct (by_id !! x) as [mx|] eqn:Hx.
    2: { apply Hleaf; [intros (m & k & Hm & _)|intros n (m & k & Hm & _)]; congruence. }
    destruct (stage_rank (lm_stage mx)) as [k|] eqn:Hk.
    2: { apply Hleaf; [intros (m & k & Hm & Hk' & _)|intros n (m & k & Hm & Hk' & _)]; congruence. }
    destruct (Nat.ltb_spec mi k) as [Hlt|Hle].
    + eexists; split; [done|]. split; [|done]. intros _.
      destruct Hpx as [_ (r & Hr & Hrx)]. exists r, x. split; [done|]. split; [done|].
      by exists mx, k.
    + apply IH.
      * eapply search_inv_step; [done|done| |].
        -- intros (m & k' & Hm & Hk' & Hlt). assert (m = mx) by congruence. subst.
           assert (k' = k) by congruence. lia.
        -- intros q. unfold next_paths. rewrite list_elem_of_fmap.
           setoid_rewrite list_elem_of_filter. unfold sort. setoid_rewrite elem_of_sort_by.
           split.
           ++ intros (n & -> & Hn & Hin). exists n. split; [done|]. split; [|done].
              by exists mx, k.
           ++ intros (n & -> & (m & k' & Hm & _ & _ & Hin) & Hn). exists n.
              split; [done|]. split; [done|]. congruence.
      * rewrite paths_cost_app. pose proof (next_paths_cost p x mx Hpx Hx). lia.
Qed.

(** The search returns within its bound and reports exactly the dependencies on a
    later stage. *)
Lemma transitive_search_spec :
  exists r, transitive_search by_id module mi = Done r /\ (is_Some r <-> depends_on_later).
Proof using module_known module_rank.
  unfold transitive_search. apply transitive_loop_spec.
  - assert (Hstart : forall p, p ∈ (fun r => [lm_id module; r]) <$> lm_requires_modules module ->
      exists r, p = [lm_id module; r] /\ r ∈ lm_requires_modules module)
      by (by intros p (r & -> & Hr)%list_elem_of_fmap; exists r).
    constructor.
    + intros p [Hp|Hp]; [by apply elem_of_empty in Hp|].
      apply Hstart in Hp as (r & -> & Hr). exists r. constructor.
      * exists []. split; [done|]. split; [apply NoDup_singleton|].
        intros y Hy. by apply elem_of_nil in Hy.
      * exists r. split; [done|apply rtc_refl].
    + intros r Hr. right. by apply (list_elem_of_fmap_2 (fun r => [lm_id module; r])).
    + intros p x n Hp. by apply elem_of_empty in Hp.
    + intros p n [Hp|Hp] Hlen; [by apply elem_of_empty in Hp|].
      apply Hstart in Hp as (r & Heq & _). apply (f_equal length) in Heq.
      rewrite length_app in Heq. simpl in Heq. lia.
    + intros p x Hp. by apply elem_of_empty in Hp.
  - unfold transitive_fuel. induction (lm_requires_modules module) as [|r l IH]; [done|].
    rewrite fmap_cons, paths_cost_cons. cbn [length].
    replace (size by_id + 2 - 2) with (size by_id) by lia. lia.
Qed.
End transitive_spec.
