(* ===== verification/ValidationSpec.v ===== *)
(** What the startup validation promises: the declarative conditions on a module
    set and its stage graphs, the meaning of each pass, and the refinement theorem
    that [validate_startup_dag] returns a valid report exactly when they hold. *)
From Stdlib Require Import Ascii.
From stdpp Require Import prelude gmap strings list relations.
From S2P Require Import Prelude Text Graph Ir StageOrder Manifest Dag Topology Validation Reachability.

#[local] Open Scope string_scope.
#[local] Open Scope list_scope.

(** ** Lists of details *)

Lemma flat_map_nil_iff {A B} (f : A -> list B) (Q : A -> Prop) l :
  (forall x, x ∈ l -> (f x = [] <-> Q x)) -> (flat_map f l = [] <-> forall x, x ∈ l -> Q x).
Proof. intros Hf. rewrite flat_map_nil. split; intros Hall x Hx; apply Hf; auto. Qed.

Lemma if_nil {A} (b : bool) (x : A) : (if b then [] else [x]) = [] <-> b = true.
Proof. by destruct b. Qed.

Lemma if_nil' {A} (b : bool) (x : A) : (if b then [x] else []) = [] <-> b = false.
Proof. by destruct b. Qed.

Lemma push_errors_errors pass details report :
  dvr_errors (push_errors pass details report) =
  dvr_errors report ++
    ((fun d => {| dvd_pass := pass; dvd_level := Error; dvd_detail := d |}) <$> details).
Proof.
  unfold push_errors. revert report; induction details as [|d ds IH]; intros report; simpl.
  - by rewrite app_nil_r.
  - rewrite IH. simpl. by rewrite <-(assoc_L (++)).
Qed.

Lemma push_errors_valid pass details report :
  is_valid (push_errors pass details report) = true <-> is_valid report = true /\ details = [].
Proof.
  unfold is_valid. rewrite push_errors_errors. destruct (dvr_errors report), details; simpl;
    naive_solver.
Qed.

Lemma push_warnings_valid pass details report :
  is_valid (push_warnings pass details report) = is_valid report.
Proof.
  unfold is_valid, push_warnings. revert report; induction details as [|d ds IH]; intros report;
    simpl; [done|]. by rewrite IH.
Qed.

(** ** Maps of the passes *)

Lemma modules_by_id_None modules id :
  modules_by_id modules !! id = None <-> id ∉ lm_id <$> modules.
Proof.
  rewrite eq_None_not_Some. unfold modules_by_id.
  by rewrite map_collect_is_Some, <-list_fmap_compose.
Qed.

Lemma modules_by_id_Some modules id m :
  NoDup (lm_id <$> modules) ->
  modules_by_id modules !! id = Some m <-> m ∈ modules /\ lm_id m = id.
Proof.
  intros Hnd. unfold modules_by_id.
  rewrite map_collect_lookup by (by rewrite <-list_fmap_compose). rewrite list_elem_of_fmap.
  split; [by intros (m' & [= -> ->] & ?)|]. intros [Hm <-]. by exists m.
Qed.

Lemma semver_lt_irrefl v : semver_lt v v = false.
Proof. unfold semver_lt, rust_ltb. by rewrite rust_leb_refl. Qed.

(** ** The conditions *)

Section conditions.
Context (req : DagValidationRequest).

Definition known_module (id : ModuleId) (m : LoadedModule) : Prop :=
  m ∈ dvr_modules req /\ lm_id m = id.

(** A writer of [field] that runs before [m] reads it in stage [d]. *)
Definition read_available (d : StageDag) (m : LoadedModule) (field : string) : Prop :=
  exists d' n r w, d' ∈ dvr_stage_dags req /\ n ∈ sd_nodes d' /\ field ∈ mn_ir_writes n /\
    mn_module_id n <> lm_id m /\
    stage_rank (sd_stage d) = Some r /\ stage_rank (sd_stage d') = Some w /\
    (w < r \/ (sd_stage d' = lm_stage m /\ reaches (sd_nodes d) (mn_module_id n) (lm_id m))).

(** An order of [n1] and [n2] that settles their writes of [field]. *)
Definition write_settled (d : StageDag) (n1 n2 : ModuleNode) (field : string) : Prop :=
  (field ∈ mn_ir_reads n2 /\ reaches (sd_nodes d) (mn_module_id n1) (mn_module_id n2)) \/
  (field ∈ mn_ir_reads n1 /\ reaches (sd_nodes d) (mn_module_id n2) (mn_module_id n1)) \/
  (mn_module_id n1 ∈ family_support_modules req /\ mn_module_id n2 ∈ family_support_modules req /\
   aggregated_support_field field = true).

(** A module set and stage graphs that may start. *)
Record startup_ok : Prop := {
  ok_module_stages : forall m, m ∈ dvr_modules req -> lm_stage m ∈ STAGE_ORDER;
  ok_dag_stages : forall d, d ∈ dvr_stage_dags req -> sd_stage d ∈ STAGE_ORDER;
  ok_fill_coverage : forall claim, claim ∈ FILL_CLAIM_IDS ->
    exists h, h ∈ dvr_claim_holders req /\ ch_scope h = Global /\ ch_claim h = claim;
  ok_global_claims : forall h1 h2, h1 ∈ dvr_claim_holders req -> h2 ∈ dvr_claim_holders req ->
    ch_scope h1 = Global -> ch_scope h2 = Global -> ch_claim h1 = ch_claim h2 ->
    ch_claim h1 ∉ FILL_CLAIM_IDS -> ch_claim h1 ∉ FAMILY_SCOPED_SUPPORT_CLAIMS ->
    ch_module_id h1 = ch_module_id h2;
  ok_region_claims : forall h1 h2, h1 ∈ dvr_claim_holders req -> h2 ∈ dvr_claim_holders req ->
    ch_scope h1 <> Global -> ch_scope h2 <> Global -> ch_claim h1 = ch_claim h2 ->
    claim_scope_key false h1 = claim_scope_key false h2 ->
    ch_module_id h1 = ch_module_id h2;
  ok_incompatible : forall m id, m ∈ dvr_modules req -> id ∈ lm_incompatible_with m ->
    id ∉ lm_id <$> dvr_modules req;
  ok_requires_modules : forall m id, m ∈ dvr_modules req -> id ∈ lm_requires_modules m ->
    id ∈ lm_id <$> dvr_modules req;
  ok_requires_claims : forall m claim, m ∈ dvr_modules req -> claim ∈ lm_requires_claims m ->
    claim ∈ ch_claim <$> dvr_claim_holders req;
  ok_ir_versions : forall m, m ∈ dvr_modules req ->
    semver_lt (dvr_host_ir_schema_version req) (lm_min_ir_schema m) = false /\
    semver_lt (dvr_host_ir_schema_version req) (lm_max_ir_schema m) = true;
  ok_host_version : forall m, m ∈ dvr_modules req ->
    semver_lt (dvr_host_version req) (lm_min_host_version m) = false;
  ok_acyclic : forall d, d ∈ dvr_stage_dags req -> node_acyclic (sd_nodes d);
  ok_writes : forall d n1 n2 field, d ∈ dvr_stage_dags req -> (n1, n2) ∈ pairs (sd_nodes d) ->
    field ∈ mn_ir_writes n1 -> field ∈ mn_ir_writes n2 -> write_settled d n1 n2 field;
  ok_reads : forall d n m field, d ∈ dvr_stage_dags req -> n ∈ sd_nodes d ->
    known_module (mn_module_id n) m -> field ∈ lm_ir_reads m -> read_available d m field;
  ok_access : forall a m, a ∈ dvr_access_audits req -> known_module (maa_module_id a) m ->
    (forall path, path ∈ maa_runtime_reads a ->
       exists declared, declared ∈ lm_ir_reads m /\ ir_root declared = ir_root path) /\
    (forall path, path ∈ maa_runtime_writes a -> path ∈ lm_ir_writes m);
  ok_cross_stage : forall m m' i j, m ∈ dvr_modules req -> m' ∈ dvr_modules req ->
    lm_id m' ∈ lm_requires_modules m -> stage_rank (lm_stage m) = Some i ->
    stage_rank (lm_stage m') = Some j -> j <= i;
  ok_transitive : forall m i, m ∈ dvr_modules req -> stage_rank (lm_stage m) = Some i ->
    ~ depends_on_later (modules_by_id (dvr_modules req)) m i
}.

(** ** Each pass *)

Lemma stage_rank_cases {T} stage (x : T) :
  match stage_order_index !! stage with Some _ => [] | None => [x] end = [] <->
  stage ∈ STAGE_ORDER.
Proof.
  rewrite <-stage_order_index_is_Some. destruct (stage_order_index !! stage); [by split|].
  split; [done|by intros [? ?]].
Qed.

Lemma stage_id_pass :
  stage_id_details req = [] <->
  (forall m, m ∈ dvr_modules req -> lm_stage m ∈ STAGE_ORDER) /\
  (forall d, d ∈ dvr_stage_dags req -> sd_stage d ∈ STAGE_ORDER).
Proof.
  unfold stage_id_details. rewrite app_nil.
  by rewrite 2!(flat_map_nil_iff _ _ _ (fun x _ => stage_rank_cases _ _)).
Qed.

Lemma fill_pass :
  uncovered_fill_claims (holders_by_claim true (dvr_claim_holders req)) = [] <->
  forall claim, claim ∈ FILL_CLAIM_IDS ->
    exists h, h ∈ dvr_claim_holders req /\ ch_scope h = Global /\ ch_claim h = claim.
Proof.
  unfold uncovered_fill_claims. apply flat_map_nil_iff. intros claim _. rewrite if_nil.
  rewrite existsb_exists. split.
  - intros ([c k] & Hin%list_elem_of_In & <-%String.eqb_eq).
    apply elem_of_btree_keys, push_entry_is_Some in Hin as [[? Hn]|Hin]; [done|].
    rewrite <-list_fmap_compose in Hin.
    apply list_elem_of_fmap in Hin as (h & [= -> ->] & Hh). apply list_elem_of_filter in Hh as [Hg Hh].
    exists h. split; [done|]. split; [|done]. by destruct (ch_scope h).
  - intros (h & Hh & Hg & <-). exists (ch_claim h, claim_scope_key true h).
    split; [|apply String.eqb_refl].
    apply list_elem_of_In, elem_of_btree_keys, push_entry_is_Some. right.
    rewrite <-list_fmap_compose. apply list_elem_of_fmap. exists h.
    split; [done|]. apply list_elem_of_filter. by rewrite Hg.
Qed.

Lemma elem_of_holders b claim key id :
  id ∈ default [] (holders_by_claim b (dvr_claim_holders req) !! (claim, key)) <->
  exists h, h ∈ dvr_claim_holders req /\ is_global (ch_scope h) = b /\ ch_claim h = claim /\
    claim_scope_key b h = key /\ ch_module_id h = id.
Proof.
  unfold holders_by_claim. rewrite push_entry_fold, lookup_empty. cbn [default from_option].
  rewrite elem_of_nil, list_elem_of_fmap. split.
  - intros [?|(h & [= -> -> ->] & Hh)]; [done|].
    apply list_elem_of_filter in Hh as [Hb%Bool.eqb_prop Hh]. by exists h.
  - intros (h & Hh & Hb & <- & <- & <-). right. exists h. split; [done|].
    apply list_elem_of_filter. rewrite Hb. by rewrite Bool.eqb_reflx.
Qed.
Lemma fmap_nil_iff {A B} (f : A -> B) l : f <$> l = [] <-> l = [].
Proof. by destruct l. Qed.

Lemma pairs_nil {A} (l : list A) : pairs l = [] <-> length l < 2.
Proof. destruct l as [|x [|y l]]; simpl; split; intros; (done || lia). Qed.

Lemma one_value (l : list string) :
  length (dedup (sort l)) < 2 <-> forall x y, x ∈ l -> y ∈ l -> x = y.
Proof.
  assert (Hin : forall x, x ∈ dedup (sort l) <-> x ∈ l)
    by (intros x; unfold sort; by rewrite elem_of_dedup, elem_of_sort_by).
  assert (Hnd : NoDup (dedup (sort l)))
    by (eapply NoDup_dedup_sorted; [apply rust_leb_antisym|apply sort_sorted]).
  destruct (dedup (sort l)) as [|a [|b r]]; simpl.
  - split; [|lia]. intros _ x y Hx. apply Hin, elem_of_nil in Hx. done.
  - split; [|lia]. intros _ x y Hx%Hin%list_elem_of_singleton Hy%Hin%list_elem_of_singleton. congruence.
  - split; [lia|]. intros Hall. apply NoDup_cons in Hnd as [Hni _]. exfalso. apply Hni.
    rewrite (Hall a b); [left|apply Hin; left|apply Hin; right; left].
Qed.

Lemma conflicts_nil b claim key modules :
  claim_conflicts_of b ((claim, key), modules) = [] <->
  (b = true /\ (claim ∈ FILL_CLAIM_IDS \/ claim ∈ FAMILY_SCOPED_SUPPORT_CLAIMS)) \/
  forall x y, x ∈ modules -> y ∈ modules -> x = y.
Proof.
  unfold claim_conflicts_of. rewrite <-one_value, <-!contains_spec.
  destruct (Nat.ltb_spec (length (dedup (sort modules))) 2) as [Hlt|Hge]; [by split; auto|].
  destruct b; cbn [andb].
  - destruct (contains FILL_CLAIM_IDS claim); [by split; auto|].
    destruct (contains FAMILY_SCOPED_SUPPORT_CLAIMS claim); [by split; auto|].
    rewrite fmap_nil_iff, pairs_nil. split; [lia|].
    intros [[_ [?|?]]|?]; [discriminate|discriminate|lia].
  - rewrite fmap_nil_iff, pairs_nil. split; [lia|].
    intros [[? _]|?]; [discriminate|lia].
Qed.

Lemma conflict_pass b :
  flat_map (claim_conflicts_of b) (btree_iter (holders_by_claim b (dvr_claim_holders req))) = [] <->
  forall h1 h2, h1 ∈ dvr_claim_holders req -> h2 ∈ dvr_claim_holders req ->
    is_global (ch_scope h1) = b -> is_global (ch_scope h2) = b -> ch_claim h1 = ch_claim h2 ->
    claim_scope_key b h1 = claim_scope_key b h2 ->
    (b = true /\ (ch_claim h1 ∈ FILL_CLAIM_IDS \/ ch_claim h1 ∈ FAMILY_SCOPED_SUPPORT_CLAIMS)) \/
    ch_module_id h1 = ch_module_id h2.
Proof.
  rewrite flat_map_nil. split.
  - intros Hall h1 h2 H1 H2 Hb1 Hb2 Hc Hk.
    assert (Hm1 : ch_module_id h1 ∈ default [] (holders_by_claim b (dvr_claim_holders req)
              !! (ch_claim h1, claim_scope_key b h1))) by (apply elem_of_holders; by exists h1).
    assert (Hm2 : ch_module_id h2 ∈ default [] (holders_by_claim b (dvr_claim_holders req)
              !! (ch_claim h1, claim_scope_key b h1))) by (apply elem_of_holders; by exists h2).
    apply elem_of_default_lookup in Hm1 as (l & Hl & Hm1). rewrite Hl in Hm2. simpl in Hm2.
    apply elem_of_btree_iter, Hall, conflicts_nil in Hl as [?|Heq]; [by left|]. right. auto.
  - intros Hall [[claim key] l] Hl%elem_of_btree_iter. apply conflicts_nil.
    destruct (decide (b = true /\ (claim ∈ FILL_CLAIM_IDS \/ claim ∈ FAMILY_SCOPED_SUPPORT_CLAIMS)))
      as [|Hex]; [by left|right]. intros x y Hx Hy.
    assert (Hin : forall id, id ∈ l -> exists h, h ∈ dvr_claim_holders req /\
              is_global (ch_scope h) = b /\ ch_claim h = claim /\
              claim_scope_key b h = key /\ ch_module_id h = id).
    { intros id Hid. apply elem_of_holders. by rewrite Hl. }
    destruct (Hin x Hx) as (h1 & H1 & Hb1 & Hc1 & Hk1 & <-).
    destruct (Hin y Hy) as (h2 & H2 & Hb2 & Hc2 & Hk2 & <-).
    destruct (Hall h1 h2 H1 H2 Hb1 Hb2) as [He|?]; [congruence|congruence| |done].
    by rewrite Hc1 in He.
Qed.

Lemma is_global_true s : is_global s = true <-> s = Global.
Proof. by destruct s. Qed.

Lemma is_global_false s : is_global s = false <-> s <> Global.
Proof. by destruct s. Qed.

Lemma global_conflict_pass :
  flat_map (claim_conflicts_of true) (btree_iter (holders_by_claim true (dvr_claim_holders req))) = [] <->
  forall h1 h2, h1 ∈ dvr_claim_holders req -> h2 ∈ dvr_claim_holders req ->
    ch_scope h1 = Global -> ch_scope h2 = Global -> ch_claim h1 = ch_claim h2 ->
    ch_claim h1 ∉ FILL_CLAIM_IDS -> ch_claim h1 ∉ FAMILY_SCOPED_SUPPORT_CLAIMS ->
    ch_module_id h1 = ch_module_id h2.
Proof.
  rewrite conflict_pass. split.
  - intros Hall h1 h2 H1 H2 Hg1 Hg2 Hc Hf Hs.
    destruct (Hall h1 h2) as [[_ [?|?]]|?]; try done; try by apply is_global_true.
    unfold claim_scope_key. by rewrite Hg1, Hg2.
  - intros Hall h1 h2 H1 H2 Hg1%is_global_true Hg2%is_global_true Hc _.
    destruct (decide (ch_claim h1 ∈ FILL_CLAIM_IDS)); [by left; auto|].
    destruct (decide (ch_claim h1 ∈ FAMILY_SCOPED_SUPPORT_CLAIMS)); [by left; auto|].
    right. by apply Hall.
Qed.

Lemma region_conflict_pass :
  flat_map (claim_conflicts_of false) (btree_iter (holders_by_claim false (dvr_claim_holders req))) = [] <->
  forall h1 h2, h1 ∈ dvr_claim_holders req -> h2 ∈ dvr_claim_holders req ->
    ch_scope h1 <> Global -> ch_scope h2 <> Global -> ch_claim h1 = ch_claim h2 ->
    claim_scope_key false h1 = claim_scope_key false h2 ->
    ch_module_id h1 = ch_module_id h2.
Proof.
  rewrite conflict_pass. setoid_rewrite is_global_false. split.
  - intros Hall h1 h2 H1 H2 Hg1 Hg2 Hc Hk. by destruct (Hall h1 h2) as [[? _]|?].
  - intros Hall h1 h2 H1 H2 Hg1 Hg2 Hc Hk. right. by apply Hall.
Qed.

Context (modules_NoDup : NoDup (lm_id <$> dvr_modules req)).
Let by_id := modules_by_id (dvr_modules req).

Lemma by_id_known id m : by_id !! id = Some m <-> known_module id m.
Proof using modules_NoDup. by apply modules_by_id_Some. Qed.

Lemma by_id_unknown {T} id (f : LoadedModule -> list T) :
  (match by_id !! id with Some m => f m | None => [] end = [] <->
   forall m, known_module id m -> f m = []).
Proof using modules_NoDup.
  setoid_rewrite <-by_id_known. destruct (by_id !! id) as [m|]; split; intros Hall; auto; try done.
  - intros m' [= <-]. done.
Qed.

Lemma incompatible_pass :
  incompatibility_details by_id = [] <->
  forall m id, m ∈ dvr_modules req -> id ∈ lm_incompatible_with m -> id ∉ lm_id <$> dvr_modules req.
Proof using modules_NoDup.
  unfold incompatibility_details.
  rewrite (flat_map_nil_iff _ (fun m => forall id, id ∈ lm_incompatible_with m ->
    id ∉ lm_id <$> dvr_modules req)).
  - split.
    + intros Hall m id Hm. apply Hall, elem_of_btree_values. exists (lm_id m).
      by apply by_id_known.
    + intros Hall m [k Hk]%elem_of_btree_values. apply by_id_known in Hk as [Hm _]. eauto.
  - intros m _. apply flat_map_nil_iff. intros id _.
    rewrite <-modules_by_id_None. fold by_id. by destruct (by_id !! id).
Qed.

Lemma missing_pass :
  missing_dependency_details req by_id = [] <->
  (forall m id, m ∈ dvr_modules req -> id ∈ lm_requires_modules m -> id ∈ lm_id <$> dvr_modules req) /\
  (forall m claim, m ∈ dvr_modules req -> claim ∈ lm_requires_claims m ->
     claim ∈ ch_claim <$> dvr_claim_holders req).
Proof using Type.
  unfold missing_dependency_details.
  rewrite (flat_map_nil_iff _ (fun m =>
    (forall id, id ∈ lm_requires_modules m -> id ∈ lm_id <$> dvr_modules req) /\
    (forall claim, claim ∈ lm_requires_claims m -> claim ∈ ch_claim <$> dvr_claim_holders req))).
  - naive_solver.
  - intros m _. rewrite app_nil. f_equiv; apply flat_map_nil_iff.
    + intros id _. destruct (by_id !! id) eqn:Hid.
      * split; [|done]. intros _. destruct (decide (id ∈ lm_id <$> dvr_modules req)); [done|].
        exfalso. apply modules_by_id_None in n. unfold by_id in Hid. congruence.
      * apply modules_by_id_None in Hid. by split.
    + intros claim _. case_decide as Hc; rewrite elem_of_list_to_set in Hc; by split.
Qed.
Lemma ir_version_pass :
  ir_version_details req = [] <-> forall m, m ∈ dvr_modules req ->
    semver_lt (dvr_host_ir_schema_version req) (lm_min_ir_schema m) = false /\
    semver_lt (dvr_host_ir_schema_version req) (lm_max_ir_schema m) = true.
Proof using Type.
  apply flat_map_nil_iff. intros m _.
  rewrite if_nil', orb_false_iff, negb_false_iff. done.
Qed.

Lemma host_version_pass :
  host_version_details req = [] <-> forall m, m ∈ dvr_modules req ->
    semver_lt (dvr_host_version req) (lm_min_host_version m) = false.
Proof using Type. apply flat_map_nil_iff. intros m _. by rewrite if_nil'. Qed.

Lemma read_is_declared_spec declared path :
  read_is_declared declared path = true <->
  exists d, d ∈ declared /\ ir_root d = ir_root path.
Proof using Type.
  unfold read_is_declared. rewrite existsb_exists. split.
  - intros (d & Hd%list_elem_of_In & Heq%String.eqb_eq). eauto.
  - intros (d & Hd & Heq). exists d. split; [by apply list_elem_of_In|]. by apply String.eqb_eq.
Qed.

Lemma access_pass :
  undeclared_access_details req by_id = [] <->
  forall a m, a ∈ dvr_access_audits req -> known_module (maa_module_id a) m ->
    (forall path, path ∈ maa_runtime_reads a ->
       exists declared, declared ∈ lm_ir_reads m /\ ir_root declared = ir_root path) /\
    (forall path, path ∈ maa_runtime_writes a -> path ∈ lm_ir_writes m).
Proof using modules_NoDup.
  unfold undeclared_access_details.
  rewrite (flat_map_nil_iff _ (fun a => forall m, known_module (maa_module_id a) m ->
    (forall path, path ∈ maa_runtime_reads a ->
       exists declared, declared ∈ lm_ir_reads m /\ ir_root declared = ir_root path) /\
    (forall path, path ∈ maa_runtime_writes a -> path ∈ lm_ir_writes m))); [naive_solver|].
  intros a _. rewrite by_id_unknown.
  assert (Hm : forall m : LoadedModule,
    flat_map (fun path => if read_is_declared (lm_ir_reads m) path then []
                          else [UndeclaredAccess (lm_id m) Read path]) (maa_runtime_reads a) ++
    flat_map (fun path => if contains (lm_ir_writes m) path then []
                          else [UndeclaredAccess (lm_id m) Write path]) (maa_runtime_writes a) = [] <->
    (forall path, path ∈ maa_runtime_reads a ->
       exists declared, declared ∈ lm_ir_reads m /\ ir_root declared = ir_root path) /\
    (forall path, path ∈ maa_runtime_writes a -> path ∈ lm_ir_writes m)).
  { intros m. rewrite app_nil. f_equiv; apply flat_map_nil_iff; intros path _; rewrite if_nil.
    - apply read_is_declared_spec.
    - apply contains_spec. }
  split; intros Hall m Hk; apply Hm; auto.
Qed.

Lemma cross_stage_pass :
  cross_stage_details (dvr_modules req) by_id = [] <->
  forall m m' i j, m ∈ dvr_modules req -> m' ∈ dvr_modules req ->
    lm_id m' ∈ lm_requires_modules m -> stage_rank (lm_stage m) = Some i ->
    stage_rank (lm_stage m') = Some j -> j <= i.
Proof using modules_NoDup.
  unfold cross_stage_details.
  rewrite (flat_map_nil_iff _ (fun m => forall m' i j, m' ∈ dvr_modules req ->
    lm_id m' ∈ lm_requires_modules m -> stage_rank (lm_stage m) = Some i ->
    stage_rank (lm_stage m') = Some j -> j <= i)); [naive_solver|].
  intros m _. destruct (stage_rank (lm_stage m)) as [i|]; [|by split].
  rewrite (flat_map_nil_iff _ (fun id => forall m' j, known_module id m' ->
    stage_rank (lm_stage m') = Some j -> j <= i)).
  - unfold known_module. split; [naive_solver|]. intros Hall id Hid m' j [Hm' <-] Hj. by eapply Hall.
  - intros id _. rewrite by_id_unknown. split.
    + intros Hall m' j Hk Hj. specialize (Hall m' Hk). rewrite Hj, if_nil' in Hall.
      by apply Nat.ltb_ge.
    + intros Hall m' Hk. destruct (stage_rank (lm_stage m')) as [j|] eqn:Hj; [|done].
      rewrite if_nil'. apply Nat.ltb_ge. eauto.
Qed.
(** *** Passes that search a graph *)

Lemma exec_flat_map_nil {A B} (f : A -> exec (list B)) (Q : A -> Prop) l :
  (forall x, x ∈ l -> exists s, f x = Done s /\ (s = [] <-> Q x)) ->
  exists r, exec_flat_map f l = Done r /\ (r = [] <-> forall x, x ∈ l -> Q x).
Proof using Type.
  induction l as [|x l IH]; intros Hf; simpl.
  - exists []. split; [done|]. split; [|done]. intros _ x Hx. by apply elem_of_nil in Hx.
  - destruct (Hf x) as (s & -> & Hs); [left|].
    destruct IH as (r & -> & Hr); [intros y Hy; apply Hf; by right|]. simpl.
    exists (s ++ r). split; [done|]. rewrite app_nil, Hs, Hr. split.
    + intros [Hx Hall] y [->|Hy]%elem_of_cons; auto.
    + intros Hall. split; [apply Hall; left|]. intros y Hy. apply Hall. by right.
Qed.

Context (nodes_NoDup : forall d, d ∈ dvr_stage_dags req -> NoDup (node_ids (sd_nodes d))).

Lemma cycle_pass :
  exists r, cycle_details req = Done r /\
    (r = [] <-> forall d, d ∈ dvr_stage_dags req -> node_acyclic (sd_nodes d)).
Proof using nodes_NoDup.
  apply exec_flat_map_nil. intros d Hd.
  destruct (fifo_result (sd_nodes d)) as (r & -> & Hr). specialize (Hr (nodes_NoDup d Hd)).
  simpl. eexists. split; [done|]. destruct r; naive_solver.
Qed.

Lemma elem_of_shared_paths l1 l2 x : x ∈ shared_paths l1 l2 <-> x ∈ l1 /\ x ∈ l2.
Proof using Type.
  unfold shared_paths.
  rewrite elem_of_btree_elems, elem_of_list_to_set, list_elem_of_filter, elem_of_list_to_set. tauto.
Qed.

Lemma write_orderable_spec d reach n1 n2 field :
  (forall u v, can_reach reach u v = true <-> reaches (sd_nodes d) u v) ->
  write_orderable (family_support_modules req) reach n1 n2 field = true <->
  write_settled d n1 n2 field.
Proof using Type.
  intros Hr. unfold write_orderable, write_settled.
  rewrite !orb_true_iff, !andb_true_iff, !Hr, !contains_spec, !bool_decide_eq_true. tauto.
Qed.

Lemma write_pass :
  exists r, write_conflict_details req = Done r /\
    (r = [] <-> forall d n1 n2 field, d ∈ dvr_stage_dags req -> (n1, n2) ∈ pairs (sd_nodes d) ->
       field ∈ mn_ir_writes n1 -> field ∈ mn_ir_writes n2 -> write_settled d n1 n2 field).
Proof using Type.
  destruct (exec_flat_map_nil (fun d =>
    let! reach := compute_reachability (sd_nodes d) in
    Done (flat_map (fun p =>
      flat_map (fun field =>
        if write_orderable (family_support_modules req) reach p.1 p.2 field then []
        else [WriteConflict field (mn_module_id p.1) (mn_module_id p.2) (sd_stage d) false])
      (shared_paths (mn_ir_writes p.1) (mn_ir_writes p.2))) (pairs (sd_nodes d))))
    (fun d => forall n1 n2 field, (n1, n2) ∈ pairs (sd_nodes d) ->
       field ∈ mn_ir_writes n1 -> field ∈ mn_ir_writes n2 -> write_settled d n1 n2 field)
    (dvr_stage_dags req)) as (r & Hrun & Hr).
  - intros d _. destruct (compute_reachability_spec (sd_nodes d)) as (reach & -> & Hreach). simpl.
    eexists. split; [done|].
    rewrite (flat_map_nil_iff _ (fun p => forall field, field ∈ mn_ir_writes p.1 ->
       field ∈ mn_ir_writes p.2 -> write_settled d p.1 p.2 field)).
    + split; [intros Hall n1 n2 field Hp; exact (Hall (n1, n2) Hp field)|].
      intros Hall [n1 n2] Hp field. by apply Hall.
    + intros [n1 n2] _.
      rewrite (flat_map_nil_iff _ (fun field => write_settled d n1 n2 field)).
      * setoid_rewrite elem_of_shared_paths. naive_solver.
      * intros field _. rewrite if_nil. by apply write_orderable_spec.
  - exists r. split; [done|]. rewrite Hr. naive_solver.
Qed.

Lemma elem_of_accesses fields dags field stage id :
  (stage, id) ∈ default [] (accesses_by_field fields dags !! field) <->
  exists d n, d ∈ dags /\ n ∈ sd_nodes d /\ field ∈ fields n /\ stage = sd_stage d /\
    id = mn_module_id n.
Proof using Type.
  unfold accesses_by_field. rewrite push_entry_fold, lookup_empty. cbn [default from_option].
  rewrite elem_of_nil, list_elem_of_In, in_flat_map. split.
  - intros [?|(d & Hd%list_elem_of_In & Hin)]; [done|].
    apply in_flat_map in Hin as (n & Hn%list_elem_of_In & Hin%list_elem_of_In).
    apply list_elem_of_fmap in Hin as (f & [= -> -> ->] & Hf).
    unfold sorted_stage_dags in Hd. apply elem_of_sort_by in Hd. by exists d, n.
  - intros (d & n & Hd & Hn & Hf & -> & ->). right. exists d. split.
    + apply list_elem_of_In. unfold sorted_stage_dags. by apply elem_of_sort_by.
    + apply in_flat_map. exists n. split; [by apply list_elem_of_In|].
      apply list_elem_of_In, list_elem_of_fmap. by exists field.
Qed.

Lemma read_available_spec d reach m field :
  (forall u v, can_reach reach u v = true <-> reaches (sd_nodes d) u v) ->
  existsb (read_supplied reach (sd_stage d) m)
    (default [] (writers_by_field (dvr_stage_dags req) !! field)) = true <->
  read_available d m field.
Proof using Type.
  intros Hr. rewrite existsb_exists. unfold read_available. split.
  - intros ([stage id] & Hin%list_elem_of_In & Hs). unfold writers_by_field in Hin.
    apply elem_of_accesses in Hin as (d' & n & Hd' & Hn & Hf & -> & ->).
    unfold read_supplied in Hs; cbn [fst snd] in Hs.
    destruct (String.eqb_spec (mn_module_id n) (lm_id m)) as [|Hne]; [done|].
    destruct (stage_rank (sd_stage d)) as [r|]; [|done].
    destruct (stage_rank (sd_stage d')) as [w|] eqn:Hw; [|done].
    exists d', n, r, w. do 6 (split; [done|]).
    destruct (Nat.ltb_spec w r); [by left|right].
    destruct (String.eqb_spec (sd_stage d') (lm_stage m)); [|done]. split; [done|]. by apply Hr.
  - intros (d' & n & r & w & Hd' & Hn & Hf & Hne & Hrank & Hw & Hcase).
    exists (sd_stage d', mn_module_id n). split.
    + apply list_elem_of_In. unfold writers_by_field. apply elem_of_accesses. by exists d', n.
    + unfold read_supplied; cbn [fst snd].
      destruct (String.eqb_spec (mn_module_id n) (lm_id m)) as [|_]; [done|].
      rewrite Hrank, Hw. destruct (Nat.ltb_spec w r); [done|].
      destruct Hcase as [?|[He Hreach]]; [lia|]. rewrite He, String.eqb_refl. by apply Hr.
Qed.

Lemma read_pass :
  exists r, unfulfilled_read_details req = Done r /\
    (r = [] <-> forall d n m field, d ∈ dvr_stage_dags req -> n ∈ sd_nodes d ->
       known_module (mn_module_id n) m -> field ∈ lm_ir_reads m -> read_available d m field).
Proof using modules_NoDup.
  unfold unfulfilled_read_details.
  match goal with |- context [exec_flat_map ?f _] =>
    destruct (exec_flat_map_nil f (fun d => forall n m field, n ∈ sd_nodes d ->
       known_module (mn_module_id n) m -> field ∈ lm_ir_reads m -> read_available d m field)
       (dvr_stage_dags req)) as (r & Hrun & Hr) end; cycle 1.
  - exists r. split; [exact Hrun|]. rewrite Hr. naive_solver.
  - intros d _. destruct (compute_reachability_spec (sd_nodes d)) as (reach & -> & Hreach). simpl.
    eexists. split; [done|].
    rewrite (flat_map_nil_iff _ (fun n => forall m, known_module (mn_module_id n) m ->
      forall field, field ∈ lm_ir_reads m -> read_available d m field)).
    + naive_solver.
    + intros n _. fold by_id. rewrite by_id_unknown.
      assert (Hm : forall m : LoadedModule,
        flat_map (fun field =>
            if existsb (read_supplied reach (sd_stage d) m)
                 (default [] (writers_by_field (dvr_stage_dags req) !! field))
            then [] else [UnfulfilledRead (lm_id m) field None]) (lm_ir_reads m) = [] <->
        forall field, field ∈ lm_ir_reads m -> read_available d m field).
      { intros m. apply flat_map_nil_iff. intros field _. rewrite if_nil.
        by apply read_available_spec. }
      split; intros Hall m Hk; apply Hm; auto.
Qed.

Lemma dead_write_pass : exists r, dead_write_details req = Done r.
Proof using Type.
  unfold dead_write_details.
  match goal with |- context [exec_flat_map ?f _] =>
    destruct (exec_flat_map_total f (fun _ _ => True) (dvr_stage_dags req)) as (r & Hr & _) end;
    cycle 1.
  - exists r. exact Hr.
  - intros d _. destruct (compute_reachability_spec (sd_nodes d)) as (reach & -> & _). simpl. eauto.
Qed.

Lemma transitive_pass :
  exists r, transitive_details (dvr_modules req) by_id = Done r /\
    (r = [] <-> forall m i, m ∈ dvr_modules req -> stage_rank (lm_stage m) = Some i ->
       ~ depends_on_later by_id m i).
Proof using modules_NoDup.
  unfold transitive_details.
  match goal with |- context [exec_flat_map ?f _] =>
    destruct (exec_flat_map_nil f (fun m => forall i, stage_rank (lm_stage m) = Some i ->
       ~ depends_on_later by_id m i) (dvr_modules req)) as (r & Hrun & Hr) end; cycle 1.
  - exists r. split; [exact Hrun|]. rewrite Hr. split; intros Hall m; [intros i Hm|intros Hm i];
      by apply Hall.
  - intros m Hm. destruct (stage_rank (lm_stage m)) as [i|] eqn:Hi.
    + destruct (transitive_search_spec by_id m i) as (r & -> & Hr); [by apply by_id_known|done|].
      simpl. eexists. split; [done|]. destruct r as [e|].
      * split; [done|]. intros Hno. exfalso. by apply (Hno i), Hr.
      * split; [|done]. intros _ j [= <-] Hd. by apply Hr in Hd as [? ?].
    + eexists. split; [done|]. by split.
Qed.
End conditions.

(** ** All passes *)

(** [C1].  Startup validation runs to completion on every request, and its report
    is valid exactly when the module set meets the declarative startup conditions:
    known stages, covered fill roles, at most one holder per exclusive claim and
    scope, no incompatible pair, every requirement present and never in a later
    stage (also through a chain of requirements), host and IR versions in range,
    acyclic stage graphs, every write conflict settled by an order, every read
    supplied by an earlier writer, and audited accesses declared.  The request's
    module ids, and the node ids of each stage graph, are distinct. *)
Theorem validate_startup_dag_refines (req : DagValidationRequest) :
  NoDup (lm_id <$> dvr_modules req) ->
  (forall d, d ∈ dvr_stage_dags req -> NoDup (node_ids (sd_nodes d))) ->
  exists report, validate_startup_dag req = Done report /\
    (is_valid report = true <-> startup_ok req).
Proof.
  intros Hm Hn. unfold validate_startup_dag, validate_cycles, validate_write_conflicts,
    validate_unfulfilled_reads, validate_dead_writes, validate_transitive_dependencies.
  destruct (cycle_pass req Hn) as (rc & -> & Hc), (write_pass req) as (rw & -> & Hw),
    (read_pass req Hm) as (rr & -> & Hr), (dead_write_pass req) as (rd & ->),
    (transitive_pass req Hm) as (rt & -> & Ht).
  cbn [exec_bind]. eexists. split; [reflexivity|].
  unfold validate_undeclared_access, validate_cross_stage_dependencies, validate_host_version,
    validate_ir_versions, validate_missing_dependencies, validate_incompatibilities,
    validate_claim_conflicts, validate_stage_ids.
  repeat (rewrite push_errors_valid || rewrite push_warnings_valid).
  rewrite Hc, Hw, Hr, Ht, stage_id_pass, fill_pass, global_conflict_pass, region_conflict_pass,
    (incompatible_pass req Hm), missing_pass, ir_version_pass, host_version_pass,
    (access_pass req Hm), (cross_stage_pass req Hm).
  split.
  - intros [[[[[[[[[[[[[[_ [? ?]] ?] ?] ?] ?] [? ?]] ?] ?] ?] ?] ?] ?] ?] ?].
    constructor; assumption.
  - intros []. cbn [is_valid empty_report dvr_errors]. repeat (split; [|assumption]).
    repeat split; assumption.
Qed.

Definition sample_version (n : Z) : SemVer := {| sv_major := n; sv_minor := 0; sv_patch := 0 |}.

Definition startup_module (id stage : string) (reads writes requires : list string) : LoadedModule :=
  builder_build {| b_id := id; b_version := SemVer_default; b_stage := stage; b_wasm_path := "";
    b_ir_reads := reads; b_ir_writes := writes; b_claims := []; b_requires_claims := [];
    b_incompatible_with := []; b_requires_modules := requires;
    b_min_host_version := SemVer_default; b_min_ir_schema := SemVer_default;
    b_max_ir_schema := sample_version 99; b_config_schema := {| cs_entries := ∅ |};
    b_layer_parallel_safe := false; b_placeholder_wasm := false; b_provenance := External;
    b_region_splits := []; b_paint_only := false |}.

Definition fill_node : ModuleNode :=
  {| mn_module_id := "fill"; mn_ir_reads := ["PerimeterIR"]; mn_ir_writes := ["InfillIR"];
     mn_edges_to := [] |}.
Definition wall_node : ModuleNode :=
  {| mn_module_id := "wall"; mn_ir_reads := []; mn_ir_writes := ["PerimeterIR"];
     mn_edges_to := [] |}.

Definition startup_request (wall_stage : string) : DagValidationRequest :=
  {| dvr_modules := [startup_module "wall" wall_stage [] ["PerimeterIR"] [];
                     startup_module "fill" "Layer::Infill" ["PerimeterIR"] ["InfillIR"] ["wall"]];
     dvr_stage_dags := [{| sd_stage := wall_stage; sd_nodes := [wall_node] |};
                        {| sd_stage := "Layer::Infill"; sd_nodes := [fill_node] |}];
     dvr_host_ir_schema_version := sample_version 4;
     dvr_host_version := sample_version 1;
     dvr_claim_holders :=
       (fun c => {| ch_claim := c; ch_module_id := "fill"; ch_scope := Global |}) <$> FILL_CLAIM_IDS;
     dvr_access_audits := [] |}.

Lemma validate_startup_dag_refines_witness :
  (NoDup (lm_id <$> dvr_modules (startup_request "Layer::Perimeters")) /\
   startup_ok (startup_request "Layer::Perimeters")) /\
  ~ startup_ok (startup_request "Layer::Support").
Proof.
  assert (Hm : forall s, NoDup (lm_id <$> dvr_modules (startup_request s)))
    by (intros s; apply (bool_decide_unpack _); exact I).
  assert (Hn : forall s d, d ∈ dvr_stage_dags (startup_request s) -> NoDup (node_ids (sd_nodes d))).
  { intros s d Hd. apply elem_of_cons in Hd as [->|Hd%list_elem_of_singleton]; [|subst d];
      apply (bool_decide_unpack _); exact I. }
  split; [split; [apply Hm|]|].
  - destruct (validate_startup_dag_refines (startup_request "Layer::Perimeters") (Hm _) (Hn _))
      as (r & Hr & Hiff). apply Hiff. vm_compute in Hr. injection Hr as <-. vm_compute. reflexivity.
  - destruct (validate_startup_dag_refines (startup_request "Layer::Support") (Hm _) (Hn _))
      as (r & Hr & Hiff). rewrite <-Hiff. vm_compute in Hr. injection Hr as <-. vm_compute. discriminate.
Defined.

(** ** Scope keys *)

Lemma region_scope_from_parts object_id region_id tail :
  has_char ":" object_id = false -> has_char ":" region_id = false ->
  region_scope_from_key ("region:" +:+ object_id +:+ ":" +:+ region_id +:+ ":" +:+ tail) =
  Region object_id region_id
    (if String.eqb tail "none" then None else parse_uint u32_max tail).
Proof.
  intros Ho Hr. unfold region_scope_from_key.
  change ("region:" +:+ object_id +:+ ":" +:+ region_id +:+ ":" +:+ tail) with
    ("region" +:+ String ":" (object_id +:+ String ":" (region_id +:+ String ":" tail))).
  by rewrite splitn_cons, splitn_cons, splitn_cons.
Qed.

(** The printed scope key reads back as the scope it was printed from, for
    region scopes whose ids hold no colon and whose layer fits [u32]; the key
    without a layer reads back with the layer erased. *)
Theorem scope_key_roundtrip (object_id region_id : string) (layer : option Z) :
  has_char ":" object_id = false -> has_char ":" region_id = false ->
  (forall l, layer = Some l -> (0 <= l <= u32_max)%Z) ->
  region_scope_from_key (scope_key (Region object_id region_id layer)) =
    Region object_id region_id layer /\
  region_scope_from_key (scope_key_without_layer (Region object_id region_id layer)) =
    Region object_id region_id None.
Proof.
  intros Ho Hr Hl. unfold scope_key, scope_key_without_layer.
  change (region_id +:+ ":_") with (region_id +:+ ":" +:+ "_").
  rewrite !region_scope_from_parts by done. split; [|done]. f_equal.
  destruct layer as [l|]; [|done]. specialize (Hl l eq_refl).
  pose proof (parse_show_uint u32_max l Hl ltac:(done)) as Hp.
  destruct (String.eqb_spec (show_uint l) "none") as [He|]; [|done].
  rewrite He in Hp. discriminate Hp.
Qed.

Lemma scope_key_roundtrip_witness :
  has_char ":" "cube" = false /\
  region_scope_from_key (scope_key (Region "cube" "7" (Some 41%Z))) = Region "cube" "7" (Some 41%Z) /\
  scope_key (Region "cube" "7" (Some 41%Z)) = "region:cube:7:41".
Proof.
  split; [reflexivity|]. split; [|vm_compute; reflexivity].
  apply (scope_key_roundtrip "cube" "7" (Some 41%Z)); [reflexivity|reflexivity|].
  intros l [= <-]. vm_compute. split; discriminate.
Defined.

(** A colon in an object or region id makes the key ambiguous: two different
    regions get the same key, so pass 3 puts their holders in one group and reports
    a conflict between two modules that never meet in a region. *)
Theorem scope_key_colon_ambiguous :
  exists s1 s2 : ConflictScope, s1 <> s2 /\ scope_key s1 = scope_key s2 /\
    forall claim a b, a <> b ->
      flat_map (claim_conflicts_of false) (btree_iter (holders_by_claim false
        [{| ch_claim := claim; ch_module_id := a; ch_scope := s1 |};
         {| ch_claim := claim; ch_module_id := b; ch_scope := s2 |}])) <> [].
Proof.
  exists (Region "a:b" "c" None), (Region "a" "b:c" None).
  split; [discriminate|]. split; [reflexivity|]. intros claim a b Hab Hnil.
  apply Hab.
  pose (req := {| dvr_modules := []; dvr_stage_dags := []; dvr_host_version := SemVer_default;
    dvr_host_ir_schema_version := SemVer_default; dvr_access_audits := [];
    dvr_claim_holders := [{| ch_claim := claim; ch_module_id := a; ch_scope := Region "a:b" "c" None |};
         {| ch_claim := claim; ch_module_id := b; ch_scope := Region "a" "b:c" None |}] |}).
  apply (proj1 (region_conflict_pass req) Hnil
    {| ch_claim := claim; ch_module_id := a; ch_scope := Region "a:b" "c" None |}
    {| ch_claim := claim; ch_module_id := b; ch_scope := Region "a" "b:c" None |}); try done.
  - left.
  - right; left.
Qed.

(** ** Held claims *)

(** The claims a module holds in a scope are the declared ones, in order,
    that are the raft claim or a fill role whose configured holder names the
    module by its full id or by its id without the [com.core.] prefix. *)
Theorem resolve_held_claims_spec (module_id : string) (declared : list string)
    (holders : FillHolders) :
  resolve_held_claims module_id declared holders `sublist_of` declared /\
  forall claim, claim ∈ resolve_held_claims module_id declared holders <->
    claim ∈ declared /\
    (claim = "claim:raft-fill" \/
     claim ∈ FILL_CLAIM_IDS /\ exists h, holder_for holders claim = Some h /\
       (module_id = h \/ module_id = "com.core." +:+ h)).
Proof.
  unfold resolve_held_claims. split.
  - etrans; apply filter_sublist.
  - intros claim. rewrite !list_elem_of_filter, !orb_true_iff, contains_spec, String.eqb_eq.
    assert (Hm : forall h, module_id_matches_holder module_id h = true <->
              module_id = h \/ module_id = "com.core." +:+ h).
    { intros h. unfold module_id_matches_holder.
      destruct (String.eqb_spec module_id h) as [|Hne]; [split; auto|].
      rewrite <-strip_prefix_Some.
      destruct (strip_prefix "com.core." module_id) as [s|]; [|split; naive_solver].
      rewrite String.eqb_eq. split; [intros ->; by right|]. intros [?|[= ->]]; done. }
    destruct (holder_for holders claim) as [h|] eqn:Hh.
    + rewrite Hm. naive_solver.
    + naive_solver.
Qed.
