(* ===== verification/RegionSplit.v ===== *)
(** Cross-manifest aggregation of [[region_split]] declarations ([region_split.rs]):
    the first declaration of a semantic fixes its contract, later ones join or are
    reported, and tied priorities are reported. *)
From Stdlib Require Import Ascii Sorted.
From stdpp Require Import prelude gmap strings list.
From S2P Require Import Prelude Ir StageOrder Manifest.

#[local] Open Scope string_scope.
#[local] Open Scope list_scope.

(** ** Code *)

(** A name between double quotes. *)
Definition quoted (s : string) : string :=
  String (ascii_of_nat 34) (s +:+ String (ascii_of_nat 34) "").

(** The [Debug] rendering of a value type. *)
Definition show_value_type (t : RegionSplitValueType) : string :=
  match t with Flag => "Flag" | ToolIndex => "ToolIndex" | CustomString => "CustomString" end.

Notation Aggregate := (gmap string AggregatedRegionSplitEntry) (only parsing).

Definition same_contract (existing : AggregatedRegionSplitEntry) (decl : RegionSplitDeclaration)
    : bool :=
  Z.eqb (ars_priority existing) (rsd_priority decl)
  && bool_decide (ars_value_type existing = rsd_value_type decl).

Definition conflict_diagnostic (m : LoadedModule) (existing : AggregatedRegionSplitEntry)
    (decl : RegionSplitDeclaration) : LoadDiagnostic := {|
  ld_level := Warning;
  ld_path := lm_wasm_path m;
  ld_field := Some "region_split";
  ld_message :=
    "Conflicting region-split declaration for semantic " +:+ quoted (rsd_semantic decl) +:+
    ": module " +:+ quoted (lm_id m) +:+ " declares priority=" +:+ show_uint (rsd_priority decl) +:+
    "/value_type=" +:+ show_value_type (rsd_value_type decl) +:+
    " but earlier declaration has priority=" +:+ show_uint (ars_priority existing) +:+
    "/value_type=" +:+ show_value_type (ars_value_type existing) +:+
    ". Keeping first-seen entry."
|}.

(** [if !contains { push; sort }]. *)
Definition add_declaring (module_id : ModuleId) (mods : list ModuleId) : list ModuleId :=
  if existsb (String.eqb module_id) mods then mods else sort (mods ++ [module_id]).

(** One declaration of module [m]. *)
Definition record_declaration (m : LoadedModule) (st : Aggregate * list LoadDiagnostic)
    (decl : RegionSplitDeclaration) : Aggregate * list LoadDiagnostic :=
  let '(agg, diagnostics) := st in
  match agg !! rsd_semantic decl with
  | Some existing =>
      if same_contract existing decl then
        (<[rsd_semantic decl :=
             {| ars_priority := ars_priority existing;
                ars_value_type := ars_value_type existing;
                ars_declaring_modules :=
                  add_declaring (lm_id m) (ars_declaring_modules existing) |}]> agg, diagnostics)
      else (agg, diagnostics ++ [conflict_diagnostic m existing decl])
  | None =>
      (<[rsd_semantic decl :=
           {| ars_priority := rsd_priority decl;
              ars_value_type := rsd_value_type decl;
              ars_declaring_modules := [lm_id m] |}]> agg, diagnostics)
  end.

Definition record_module (st : Aggregate * list LoadDiagnostic) (m : LoadedModule)
    : Aggregate * list LoadDiagnostic :=
  foldl (record_declaration m) st (lm_region_splits m).

(** Semantic names grouped by priority. *)
Definition names_by_priority (agg : Aggregate) : gmap Z (list string) :=
  foldl push_entry ∅ ((fun e => (ars_priority e.2, e.1)) <$> btree_iter agg).

Definition tied_diagnostic (agg : Aggregate) (e : Z * list string) : list LoadDiagnostic :=
  if Nat.ltb (length e.2) 2 then []
  else
    let semantics := sort e.2 in
    let detail := (fun sname => sname +:+ " (from " +:+
      join ", " (match agg !! sname with
                 | Some entry => ars_declaring_modules entry | None => [] end) +:+ ")") <$> semantics in
    [{| ld_level := Warning; ld_path := ""; ld_field := Some "region_split";
        ld_message := "Tied region-split priority " +:+ show_uint e.1 +:+ ": " +:+
          join ", " detail +:+ ". Lex tiebreaker order: " +:+ join ", " semantics +:+ "." |}].

Definition aggregate_region_splits (modules : list LoadedModule)
    (diagnostics : list LoadDiagnostic) : Aggregate * list LoadDiagnostic :=
  let '(agg, diagnostics) := foldl record_module (∅, diagnostics) modules in
  (agg, diagnostics ++ flat_map (tied_diagnostic agg) (btree_iter (names_by_priority agg))).

Definition canonical_variant_chain_order (agg : Aggregate) : list string :=
  (sort ((fun e => (ars_priority e.2, e.1)) <$> btree_iter agg)).*2.

(** ** Specification *)

(** All declarations with their modules, in loading order. *)
Definition declarations (modules : list LoadedModule) : list (LoadedModule * RegionSplitDeclaration) :=
  flat_map (fun m => (fun d => (m, d)) <$> lm_region_splits m) modules.

Definition first_declaration (decls : list (LoadedModule * RegionSplitDeclaration)) (semantic : string)
    : option RegionSplitDeclaration :=
  snd <$> List.find (fun p => String.eqb (rsd_semantic p.2) semantic) decls.

Definition agrees (first decl : RegionSplitDeclaration) : Prop :=
  rsd_priority decl = rsd_priority first /\ rsd_value_type decl = rsd_value_type first.

(** The entry of one semantic, given the declarations seen so far. *)
Record entry_spec (decls : list (LoadedModule * RegionSplitDeclaration)) (semantic : string)
    (first : RegionSplitDeclaration) (entry : AggregatedRegionSplitEntry) : Prop := {
  es_priority : ars_priority entry = rsd_priority first;
  es_value_type : ars_value_type entry = rsd_value_type first;
  es_sorted : sorted_by rust_leb (ars_declaring_modules entry);
  es_nodup : NoDup (ars_declaring_modules entry);
  es_declaring : forall id, id ∈ ars_declaring_modules entry <->
    exists m d, (m, d) ∈ decls /\ lm_id m = id /\ rsd_semantic d = semantic /\ agrees first d
}.

Definition aggregate_spec (decls : list (LoadedModule * RegionSplitDeclaration)) (agg : Aggregate)
    : Prop :=
  forall semantic,
    match first_declaration decls semantic with
    | None => agg !! semantic = None
    | Some first => exists entry, agg !! semantic = Some entry /\ entry_spec decls semantic first entry
    end.

Definition all_agree (decls : list (LoadedModule * RegionSplitDeclaration)) : Prop :=
  forall m d first, (m, d) ∈ decls -> first_declaration decls (rsd_semantic d) = Some first ->
    agrees first d.

Lemma first_declaration_snoc decls m d semantic :
  first_declaration (decls ++ [(m, d)]) semantic =
  match first_declaration decls semantic with
  | Some first => Some first
  | None => if String.eqb (rsd_semantic d) semantic then Some d else None
  end.
Proof.
  unfold first_declaration. rewrite find_app. destruct (List.find _ decls) as [p|]; [done|].
  cbn. by destruct (String.eqb _ _).
Qed.

Lemma add_declaring_spec id mods :
  sorted_by rust_leb mods -> NoDup mods ->
  sorted_by rust_leb (add_declaring id mods) /\ NoDup (add_declaring id mods) /\
  forall x, x ∈ add_declaring id mods <-> x = id \/ x ∈ mods.
Proof.
  intros Hs Hnd. unfold add_declaring. destruct (existsb (String.eqb id) mods) eqn:He.
  - split; [done|]. split; [done|]. intros x. split; [by right|]. intros [->|?]; [|done].
    apply existsb_exists in He as (y & Hy & ->%String.eqb_eq). by apply list_elem_of_In.
  - assert (Hni : id ∉ mods).
    { intros Hin. apply not_true_iff_false in He. destruct He. apply existsb_exists.
      exists id. split; [by apply list_elem_of_In|apply String.eqb_refl]. }
    split; [apply sort_sorted|]. unfold sort. split.
    + apply NoDup_sort_by, NoDup_app. split; [done|].
      split; [|apply NoDup_singleton]. intros x Hx ->%list_elem_of_singleton. done.
    + intros x. rewrite elem_of_sort_by, elem_of_app, list_elem_of_singleton. tauto.
Qed.

Lemma first_declaration_elem decls semantic first :
  first_declaration decls semantic = Some first ->
  rsd_semantic first = semantic /\ exists m, (m, first) ∈ decls.
Proof.
  unfold first_declaration. rewrite fmap_Some. intros ([m d] & Hf & ->).
  apply find_some in Hf as [Hin Heq%String.eqb_eq]. split; [done|].
  exists m. by apply list_elem_of_In.
Qed.

Lemma same_contract_spec existing decl :
  same_contract existing decl = true <->
  rsd_priority decl = ars_priority existing /\ rsd_value_type decl = ars_value_type existing.
Proof.
  unfold same_contract. rewrite andb_true_iff, Z.eqb_eq, bool_decide_eq_true. intuition congruence.
Qed.

(** Only the entry of the declared semantic is touched. *)
Lemma entry_spec_snoc_other decls m d semantic first entry :
  rsd_semantic d <> semantic \/ ~ agrees first d ->
  entry_spec decls semantic first entry -> entry_spec (decls ++ [(m, d)]) semantic first entry.
Proof.
  intros Hne [Hp Hv Hs Hnd Hin]. constructor; try done. intros id. rewrite Hin.
  setoid_rewrite elem_of_app. setoid_rewrite list_elem_of_singleton. split.
  - intros (m' & d' & ? & ? & ? & ?). exists m', d'. auto.
  - intros (m' & d' & [?|[= -> ->]] & ? & ? & ?); [by exists m', d'|]. by destruct Hne.
Qed.

Lemma record_declaration_agg decls agg diagnostics m d :
  aggregate_spec decls agg ->
  aggregate_spec (decls ++ [(m, d)]) (record_declaration m (agg, diagnostics) d).1.
Proof.
  intros Hspec semantic. rewrite first_declaration_snoc.
  pose proof (Hspec semantic) as Hsem. pose proof (Hspec (rsd_semantic d)) as Hd.
  unfold record_declaration.
  destruct (decide (rsd_semantic d = semantic)) as [<-|Hne].
  - destruct (first_declaration decls (rsd_semantic d)) as [first|] eqn:Hf.
    + destruct Hd as (entry & Hlook & He). rewrite Hlook.
      destruct (same_contract entry d) eqn:Hsame.
      * apply same_contract_spec in Hsame as [Hp Hv]. cbn [fst]. rewrite lookup_insert_eq.
        eexists. split; [done|].
        destruct He as [Hep Hev Hs Hnd Hin]. destruct (add_declaring_spec (lm_id m) _ Hs Hnd) as (? & ? & Hadd).
        constructor; cbn; try done. intros id. rewrite Hadd, Hin.
        setoid_rewrite elem_of_app. setoid_rewrite list_elem_of_singleton. split.
        -- intros [->|(m' & d' & ? & ? & ? & ?)]; [|exists m', d'; auto].
           exists m, d. split; [by right|]. split; [done|]. split; [done|].
           split; congruence.
        -- intros (m' & d' & [?|[= -> ->]] & <- & ? & ?); [right; by exists m', d'|by left].
      * exists entry. split; [exact Hlook|]. apply entry_spec_snoc_other; [|done]. right. intros [Hp Hv].
        apply not_true_iff_false in Hsame. apply Hsame, same_contract_spec. destruct He. split; congruence.
    + rewrite Hd. cbn [fst]. rewrite String.eqb_refl, lookup_insert_eq.
      eexists. split; [done|]. constructor; cbn; try done.
      * repeat constructor.
      * apply NoDup_singleton.
      * intros id. rewrite list_elem_of_singleton. split.
        -- intros ->. exists m, d. split; [apply elem_of_app; right; left|]. done.
        -- intros (m' & d' & Hin & <- & Hs & _). apply elem_of_app in Hin as [Hin|Hin].
           ++ exfalso. unfold first_declaration in Hf. apply fmap_None in Hf.
              apply list_elem_of_In in Hin. pose proof (find_none _ _ Hf _ Hin) as Hno.
              cbn in Hno. by rewrite Hs, String.eqb_refl in Hno.
           ++ apply list_elem_of_singleton in Hin as [= -> ->]. done.
  - assert (Hlook : (record_declaration m (agg, diagnostics) d).1 !! semantic = agg !! semantic).
    { unfold record_declaration. destruct (agg !! rsd_semantic d) as [e|]; [destruct (same_contract e d)|];
        cbn [fst]; [by rewrite lookup_insert_ne|done|by rewrite lookup_insert_ne]. }
    unfold record_declaration in Hlook. rewrite Hlook.
    destruct (first_declaration decls semantic) as [first|].
    + destruct Hsem as (entry & -> & He). exists entry. split; [done|].
      apply entry_spec_snoc_other; [by left|done].
    + by destruct (String.eqb_spec (rsd_semantic d) semantic).
Qed.

Lemma record_declaration_diagnostics decls agg d0 extra m d :
  aggregate_spec decls agg -> (extra = [] <-> all_agree decls) ->
  exists extra', (record_declaration m (agg, d0 ++ extra) d).2 = d0 ++ extra' /\
    (extra' = [] <-> all_agree (decls ++ [(m, d)])).
Proof.
  intros Hspec Hextra. pose proof (Hspec (rsd_semantic d)) as Hd.
  assert (Hall : all_agree (decls ++ [(m, d)]) <-> all_agree decls /\
            forall first, first_declaration (decls ++ [(m, d)]) (rsd_semantic d) = Some first ->
              agrees first d).
  { split.
    - intros Hall. split.
      + intros m' d' first Hin Hf. apply (Hall m'); [apply elem_of_app; by left|].
        by rewrite first_declaration_snoc, Hf.
      + intros first Hf. apply (Hall m); [apply elem_of_app; right; left|done].
    - intros [Hall Hlast] m' d' first Hin Hf. apply elem_of_app in Hin as [Hin|Hin].
      + apply (Hall m'); [done|]. rewrite first_declaration_snoc in Hf.
        destruct (first_declaration decls (rsd_semantic d')) eqn:Hf'; [done|].
        exfalso. unfold first_declaration in Hf'. apply fmap_None in Hf'.
        apply list_elem_of_In in Hin. pose proof (find_none _ _ Hf' _ Hin) as Hno.
        cbn in Hno. by rewrite String.eqb_refl in Hno.
      + apply list_elem_of_singleton in Hin as [= -> ->]. auto. }
  setoid_rewrite Hall. rewrite first_declaration_snoc. unfold record_declaration.
  destruct (first_declaration decls (rsd_semantic d)) as [first|] eqn:Hf.
  - destruct Hd as (entry & -> & [Hep Hev _ _ _]). destruct (same_contract entry d) eqn:Hsame.
    + exists extra. split; [done|]. apply same_contract_spec in Hsame as [Hp Hv]. rewrite Hextra.
      split; [|by intros [? _]]. intros ?. split; [done|]. intros ? [= <-]. split; congruence.
    + exists (extra ++ [conflict_diagnostic m entry d]). split; [by rewrite (assoc_L (++))|].
      rewrite app_nil. split; [by intros [_ ?]|]. intros [_ Hag]. exfalso.
      apply not_true_iff_false in Hsame. apply Hsame, same_contract_spec.
      destruct (Hag first eq_refl). split; congruence.
  - rewrite Hd. exists extra. split; [done|]. rewrite Hextra, String.eqb_refl.
    split; [|by intros [? _]]. intros ?. split; [done|]. intros ? [= <-]. done.
Qed.

Lemma record_all decls0 decls st d0 :
  aggregate_spec decls0 st.1 ->
  (exists extra, st.2 = d0 ++ extra /\ (extra = [] <-> all_agree decls0)) ->
  let r := foldl (fun st p => record_declaration p.1 st p.2) st decls in
  aggregate_spec (decls0 ++ decls) r.1 /\
  exists extra, r.2 = d0 ++ extra /\ (extra = [] <-> all_agree (decls0 ++ decls)).
Proof.
  revert decls0 st; induction decls as [|[m d] decls IH]; intros decls0 [agg ds] Hagg Hextra; cbn [foldl].
  - by rewrite app_nil_r.
  - replace (decls0 ++ (m, d) :: decls) with ((decls0 ++ [(m, d)]) ++ decls)
      by (by rewrite <-(assoc_L (++))).
    destruct Hextra as (extra & Hds & Hextra). cbn [fst snd] in *. subst ds.
    apply IH; [by apply record_declaration_agg|by apply (record_declaration_diagnostics decls0)].
Qed.

Lemma fold_modules_declarations modules st :
  foldl record_module st modules =
  foldl (fun st p => record_declaration p.1 st p.2) st (declarations modules).
Proof.
  revert st; induction modules as [|m modules IH]; intros st; [done|]. simpl.
  rewrite foldl_app, <-IH. f_equal. unfold record_module.
  generalize (lm_region_splits m). intros l. revert st; induction l as [|d l IHl]; intros st; simpl; auto.
Qed.

(** ** Ties *)

Definition distinct_priorities (agg : Aggregate) : Prop :=
  forall s1 s2 e1 e2, agg !! s1 = Some e1 -> agg !! s2 = Some e2 ->
    ars_priority e1 = ars_priority e2 -> s1 = s2.

(** The entries pushed under a key are the values pushed with it, in order. *)
Lemma push_entry_fold_values {K V} `{Countable K} (es : list (K * V)) (m0 : gmap K (list V)) k :
  default [] (foldl push_entry m0 es !! k) =
  default [] (m0 !! k) ++ (base.filter (fun e => e.1 = k) es).*2.
Proof.
  revert m0; induction es as [|[k' v] es IH]; intros m0; simpl; [by rewrite app_nil_r|].
  rewrite IH. unfold push_entry; cbn [fst snd]. destruct (decide (k' = k)) as [->|Hne].
  - rewrite lookup_insert_eq, filter_cons_True by done. simpl. by rewrite <-(assoc_L (++)).
  - by rewrite lookup_insert_ne, filter_cons_False by done.
Qed.

Lemma elem_of_names_by_priority agg p s :
  s ∈ default [] (names_by_priority agg !! p) <->
  exists e, agg !! s = Some e /\ ars_priority e = p.
Proof.
  unfold names_by_priority. rewrite push_entry_fold, lookup_empty. cbn [default from_option].
  rewrite elem_of_nil, list_elem_of_fmap. split.
  - intros [?|([s' e] & [= -> ->] & Hin)]; [done|]. apply elem_of_btree_iter in Hin. by exists e.
  - intros (e & He & <-). right. exists (s, e). split; [done|]. by apply elem_of_btree_iter.
Qed.

Lemma NoDup_names_by_priority agg p : NoDup (default [] (names_by_priority agg !! p)).
Proof.
  unfold names_by_priority. rewrite push_entry_fold_values, lookup_empty. cbn [default from_option].
  eapply sublist_NoDup; [|apply fmap_sublist, filter_sublist].
  rewrite <-list_fmap_compose. apply NoDup_btree_keys.
Qed.

Lemma tied_nil agg :
  flat_map (tied_diagnostic agg) (btree_iter (names_by_priority agg)) = [] <-> distinct_priorities agg.
Proof.
  assert (Hshort : forall e, tied_diagnostic agg e = [] <-> length e.2 < 2).
  { intros e. unfold tied_diagnostic. destruct (Nat.ltb_spec (length e.2) 2); split; (done || lia). }
  split.
  - intros Hnil s1 s2 e1 e2 H1 H2 Hp.
    assert (Hin1 : s1 ∈ default [] (names_by_priority agg !! ars_priority e1))
      by (apply elem_of_names_by_priority; eauto).
    assert (Hin2 : s2 ∈ default [] (names_by_priority agg !! ars_priority e1))
      by (apply elem_of_names_by_priority; eauto).
    destruct (names_by_priority agg !! ars_priority e1) as [l|] eqn:Hl;
      [|by apply elem_of_nil in Hin1]. cbn in Hin1, Hin2.
    assert (Hlen : length l < 2).
    { apply (Hshort (ars_priority e1, l)). apply elem_of_btree_iter in Hl.
      destruct (tied_diagnostic agg (ars_priority e1, l)) as [|x r] eqn:Ht; [done|]. exfalso.
      assert (Hx : x ∈ flat_map (tied_diagnostic agg) (btree_iter (names_by_priority agg))).
      { apply list_elem_of_In, in_flat_map. eexists. split; [by apply list_elem_of_In|].
        rewrite Ht. by left. }
      rewrite Hnil in Hx. by apply elem_of_nil in Hx. }
    destruct l as [|a [|b l]]; simpl in Hlen; [by apply elem_of_nil in Hin1| |lia].
    apply list_elem_of_singleton in Hin1, Hin2. congruence.
  - intros Hd.
    assert (Hall : forall e, e ∈ btree_iter (names_by_priority agg) -> tied_diagnostic agg e = []).
    { intros [p l] Hl%elem_of_btree_iter. apply Hshort. cbn.
      pose proof (NoDup_names_by_priority agg p) as Hnd. rewrite Hl in Hnd. cbn in Hnd.
      destruct l as [|a [|b l]]; cbn; try lia. exfalso.
      assert (Hab : forall x, x ∈ a :: b :: l -> exists e, agg !! x = Some e /\ ars_priority e = p).
      { intros x Hx. apply elem_of_names_by_priority. by rewrite Hl. }
      destruct (Hab a) as (ea & Ha & Hpa); [left|]. destruct (Hab b) as (eb & Hb & Hpb); [right; left|].
      apply NoDup_cons in Hnd as [Hni _]. apply Hni.
      rewrite (Hd a b ea eb Ha Hb); [left|congruence]. }
    induction (btree_iter (names_by_priority agg)) as [|e l IH]; [done|]. simpl.
    rewrite (Hall e) by left. apply IH. intros e' He'. apply Hall. by right.
Qed.

(** ** The aggregate *)

(** The aggregate has an entry exactly for the semantics that some loaded
    module declares; the entry carries the contract of the first declaration in
    loading order and the sorted ids of all modules that declare the semantic with
    that contract.  Diagnostics are only appended, and none is appended exactly when
    every declaration agrees with the first one and no two semantics share a
    priority. *)
Theorem aggregate_region_splits_spec (modules : list LoadedModule)
    (diagnostics : list LoadDiagnostic) :
  let r := aggregate_region_splits modules diagnostics in
  aggregate_spec (declarations modules) r.1 /\
  exists extra, r.2 = diagnostics ++ extra /\
    (extra = [] <-> all_agree (declarations modules) /\ distinct_priorities r.1).
Proof.
  unfold aggregate_region_splits. rewrite fold_modules_declarations.
  destruct (record_all [] (declarations modules) (∅, diagnostics) diagnostics) as (Hagg & extra & Hds & Hex).
  - intros semantic. apply lookup_empty.
  - exists []. rewrite app_nil_r. split; [done|]. split; [|done].
    intros _ m d first Hin. by apply elem_of_nil in Hin.
  - destruct (foldl _ _ _) as [agg ds]. cbn [fst snd app] in *. split; [done|].
    eexists. split; [rewrite Hds; symmetry; apply (assoc_L (++))|]. by rewrite app_nil, Hex, tied_nil.
Qed.

Lemma order_names_perm agg :
  (sort ((fun e : string * AggregatedRegionSplitEntry => (ars_priority e.2, e.1)) <$> btree_iter agg)).*2
  ≡ₚ btree_keys agg.
Proof.
  unfold sort. rewrite sort_by_perm. rewrite <-list_fmap_compose. done.
Qed.

(** The canonical chain order lists every aggregated semantic once, by
    strictly increasing (priority, name). *)
Theorem canonical_variant_chain_order_spec (agg : Aggregate) :
  let order := canonical_variant_chain_order agg in
  NoDup order /\ (forall s, s ∈ order <-> is_Some (agg !! s)) /\
  forall i j s1 s2 e1 e2, i < j -> order !! i = Some s1 -> order !! j = Some s2 ->
    agg !! s1 = Some e1 -> agg !! s2 = Some e2 ->
    rust_ltb (ars_priority e1, s1) (ars_priority e2, s2) = true.
Proof.
  unfold canonical_variant_chain_order.
  assert (Hnd : NoDup (sort ((fun e => (ars_priority e.2, e.1)) <$> btree_iter agg)).*2)
    by (rewrite order_names_perm; apply NoDup_btree_keys).
  split; [exact Hnd|]. split.
  - intros s. rewrite order_names_perm. apply elem_of_btree_keys.
  - intros i j s1 s2 e1 e2 Hij H1 H2 He1 He2.
    set (l := sort _) in *.
    assert (Hl : forall k s e, l.*2 !! k = Some s -> agg !! s = Some e ->
              l !! k = Some (ars_priority e, s)).
    { intros k s e Hk He. rewrite list_lookup_fmap in Hk. apply fmap_Some in Hk as ([p s'] & Hk & ->).
      cbn in *. rewrite Hk. apply list_elem_of_lookup_2 in Hk. unfold l, sort in Hk.
      rewrite elem_of_sort_by, list_elem_of_fmap in Hk.
      destruct Hk as ([s'' e'] & [= -> ->] & Hin). apply elem_of_btree_iter in Hin. cbn in *. congruence. }
    pose proof (Hl _ _ _ H1 He1) as Hl1. pose proof (Hl _ _ _ H2 He2) as Hl2.
    assert (Hle : rust_leb (ars_priority e1, s1) (ars_priority e2, s2) = true).
    { assert (Hs : sorted_by rust_leb l) by apply sort_sorted.
      exact (sorted_by_lookup _ _ _ _ _ _ Hs Hij Hl1 Hl2). }
    unfold rust_ltb. apply negb_true_iff, not_true_iff_false. intros Hge.
    pose proof (rust_leb_antisym _ _ Hle Hge) as Heq. injection Heq as _ ->.
    assert (i = j) by (eapply NoDup_lookup; eauto). lia.
Qed.
