(* ===== verification/ConfigBinding.v ===== *)
(** Per-module configuration ([execution_plan.rs]): the config view a module may
    read, the support family of a region, planner/renderer pairing, and the JSON
    config source. *)
From Stdlib Require Import Ascii.
From stdpp Require Import prelude gmap strings list.
From S2P Require Import Prelude Ir StageOrder Manifest.

#[local] Open Scope string_scope.
#[local] Open Scope list_scope.

(** ** Declared keys *)

Definition SUPPORT_GENERATOR_CONFIG_KEY : string := "support_type".
Definition SUPPORT_FAMILY_CONFIG_KEY : string := "support_family".
Definition SUPPORT_GENERATOR_CLAIM : string := "support-generator".
Definition SUPPORT_PLANNER_CLAIM : string := "support-planner".

(** A trailing [:*] of a declared key stands for every key under the prefix. *)
Definition source_key_matches_declared (declared_key candidate : string) : bool :=
  match strip_suffix ":*" declared_key with
  | Some prefix =>
      match strip_prefix prefix candidate with
      | Some rest => starts_with ":" rest
      | None => false
      end
  | None => String.eqb declared_key candidate
  end.

Definition config_key_declared (declared : gmap string ConfigFieldEntry) (key : string) : bool :=
  existsb (fun declared_key => source_key_matches_declared declared_key key) (btree_keys declared).

(** ** Config views *)

(** A declared legacy spelling receives the canonical value. *)
Definition insert_alias (source : gmap ConfigKey ConfigValue) (declared_key : string)
    : gmap ConfigKey ConfigValue :=
  let canonical := canonical_config_key declared_key in
  if String.eqb canonical declared_key then source
  else match source !! canonical with
       | Some value => <[declared_key := value]> source
       | None => source
       end.

(** [effective]: wildcards expanded over the source keys.  The source is a
    [HashMap]; the view does not depend on the order of the expansion. *)
Definition effective_keys (source : gmap ConfigKey ConfigValue) (declared : list string)
    : list string :=
  flat_map (fun declared_key =>
    if ends_with ":*" declared_key
    then List.filter (source_key_matches_declared declared_key) (map_to_list source).*1
    else [declared_key]) declared.

Definition project_declared_config_view (resolved : ResolvedConfig) (declared : list string)
    : ConfigView :=
  let source := foldl insert_alias (to_config_map resolved) declared in
  from_declared source (effective_keys source declared).

(** A module of some support family also reads the family selection keys. *)
Definition is_support_family_module (claims : list string) : bool :=
  existsb (starts_with "support-family:") claims.

Definition push_missing (declared : list string) (key : string) : list string :=
  if existsb (String.eqb key) declared then declared else declared ++ [key].

Definition module_reads (m : LoadedModule) : list string :=
  let declared := btree_keys (cs_entries (lm_config_schema m)) in
  if is_support_family_module (lm_claims m)
  then foldl push_missing declared [SUPPORT_GENERATOR_CONFIG_KEY; SUPPORT_FAMILY_CONFIG_KEY]
  else declared.

Definition bind_module_config_view (m : LoadedModule) (resolved : ResolvedConfig) : ConfigView :=
  project_declared_config_view resolved (module_reads m).

(** ** Support families *)

Definition select_support_family (support_family support_type : option string) : string :=
  canonical_support_family
    (match support_type with Some t => Some t | None => support_family end).

Definition string_extension (region : ActiveRegion) (key : string) : option string :=
  match rc_extensions (ar_resolved_config region) !! key with
  | Some (CvString value) => Some value
  | _ => None
  end.

(** The family that the configuration of a region selects. *)
Definition selected_family (region : ActiveRegion) : string :=
  select_support_family (string_extension region SUPPORT_FAMILY_CONFIG_KEY)
    (match string_extension region SUPPORT_GENERATOR_CONFIG_KEY with
     | Some value => Some value
     | None => family_claim (rc_support_type (ar_resolved_config region))
     end).

Fixpoint family_claim_loop (claims : list string) (region : ActiveRegion)
    (has_support_family_claim : bool) : bool :=
  match claims with
  | [] => negb has_support_family_claim
  | claim :: rest =>
      match strip_prefix "support-family:" claim with
      | None => family_claim_loop rest region has_support_family_claim
      | Some family =>
          if String.eqb family (selected_family region) then true
          else family_claim_loop rest region true
      end
  end.

Definition module_claims_match_active_region (claims : list string) (region : ActiveRegion) : bool :=
  family_claim_loop claims region false.

(** ** Planner and renderer pairing *)

Record SupportFamilyPairingError := {
  missing_renderers : list string;
  missing_planners : list string
}.
#[export] Instance SupportFamilyPairingError_eq_dec : EqDecision SupportFamilyPairingError.
Proof. solve_decision. Defined.

(** The families of the modules that hold [role]. *)
Definition families_with (role : string) (modules : list LoadedModule) : gset string :=
  list_to_set (flat_map (fun m =>
    flat_map (fun claim =>
      match strip_prefix "support-family:" claim with
      | Some family => if existsb (String.eqb role) (lm_claims m) then [family] else []
      | None => []
      end) (lm_claims m)) modules).

Definition validate_support_family_pairing (modules : list LoadedModule)
    : result (list SupportFamilyPairingError) SupportFamilyPairingError :=
  let planners := families_with SUPPORT_PLANNER_CLAIM modules in
  let renderers := families_with SUPPORT_GENERATOR_CLAIM modules in
  let error := {| missing_renderers := btree_elems (planners ∖ renderers);
                  missing_planners := btree_elems (renderers ∖ planners) |} in
  match missing_renderers error, missing_planners error with
  | [], [] => Ok []
  | _, _ => Ok [error]
  end.

(** ** The JSON config source *)

Section json.
(** [serde_json]: numbers with their two conversions, and the parser. *)
Context (Number : Type) (as_i64 : Number -> option Z) (as_f64 : Number -> option f64).

#[local] Unset Elimination Schemes.
(** [serde_json::Value]; an object is the list of its entries in iteration order. *)
Inductive Value :=
| Null
| Bool (b : bool)
| Num (n : Number)
| Str (s : string)
| Array (items : list Value)
| Object (fields : list (string * Value)).
#[local] Set Elimination Schemes.

Context (from_str : string -> result Value string).

Inductive ConfigSourceParseError :=
| InvalidJson (message : string)
| NotAnObject
| UnsupportedValue (key : string).

Definition f64_zero : f64 := F64 0.

Fixpoint json_to_config_value (raw : Value) : option ConfigValue :=
  match raw with
  | Bool b => Some (CvBool b)
  | Num n =>
      match as_i64 n with
      | Some i => Some (CvInt i)
      | None =>
          match as_f64 n with
          | Some f => Some (CvFloat (if f64_is_subnormal f then f64_zero else f))
          | None => None
          end
      end
  | Str s => Some (CvString s)
  | Array items =>
      (fix convert (items : list Value) (converted : list ConfigValue) : option ConfigValue :=
         match items with
         | [] => Some (CvList converted)
         | item :: rest =>
             match json_to_config_value item with
             | Some v => convert rest (converted ++ [v])
             | None => None
             end
         end) items []
  | Null | Object _ => None
  end.

Fixpoint insert_fields (fields : list (string * Value)) (out : gmap ConfigKey ConfigValue)
    : result (gmap ConfigKey ConfigValue) ConfigSourceParseError :=
  match fields with
  | [] => Ok out
  | (key, raw) :: rest =>
      match json_to_config_value raw with
      | Some value => insert_fields rest (<[key := value]> out)
      | None => Err (UnsupportedValue key)
      end
  end.

Definition parse_cli_config_source (json : string)
    : result (gmap ConfigKey ConfigValue) ConfigSourceParseError :=
  match from_str json with
  | Err e => Err (InvalidJson e)
  | Ok (Object fields) => insert_fields fields ∅
  | Ok _ => Err NotAnObject
  end.
End json.

(** ** What a view exposes *)

Lemma canonical_canonical k : canonical_config_key (canonical_config_key k) = canonical_config_key k.
Proof.
  unfold canonical_config_key, CONFIG_KEY_ALIASES; cbn [first_alias].
  destruct (String.eqb_spec k "first_layer_line_width"); [done|].
  destruct (String.eqb_spec k "support_overhang_angle"); [done|].
  apply String.eqb_neq in n, n0. by rewrite n, n0.
Qed.

(** The value of a key under a set of declared keys. *)
Definition visible_value (source : gmap ConfigKey ConfigValue) (declared : list string)
    (key : string) : option ConfigValue :=
  if decide (key ∈ declared) then
    match source !! canonical_config_key key with
    | Some value => Some value
    | None => source !! key
    end
  else source !! key.

Lemma insert_alias_other source d key :
  key <> d \/ canonical_config_key d = d -> insert_alias source d !! key = source !! key.
Proof.
  unfold insert_alias. destruct (String.eqb_spec (canonical_config_key d) d) as [|Hne]; [done|].
  intros [Hk|?]; [|done]. destruct (source !! canonical_config_key d); [|done].
  by rewrite lookup_insert_ne.
Qed.

Lemma insert_alias_canonical source d key :
  insert_alias source d !! canonical_config_key key = source !! canonical_config_key key.
Proof.
  apply insert_alias_other. destruct (decide (canonical_config_key key = d)) as [<-|]; [|by left].
  right. apply canonical_canonical.
Qed.

Lemma insert_alias_same source d :
  insert_alias source d !! d =
  match source !! canonical_config_key d with Some v => Some v | None => source !! d end.
Proof.
  unfold insert_alias. destruct (String.eqb_spec (canonical_config_key d) d) as [->|Hne].
  - by destruct (source !! d).
  - destruct (source !! canonical_config_key d); [|done]. by rewrite lookup_insert_eq.
Qed.

Lemma insert_aliases_lookup source declared key :
  foldl insert_alias source declared !! key = visible_value source declared key.
Proof.
  revert source; induction declared as [|d declared IH]; intros source; cbn [foldl].
  - unfold visible_value. by rewrite decide_False by apply not_elem_of_nil.
  - rewrite IH. unfold visible_value. rewrite insert_alias_canonical.
    destruct (decide (key = d)) as [->|Hne].
    + rewrite insert_alias_same, (decide_True (P := d ∈ d :: declared)) by left.
      case_decide; by destruct (source !! canonical_config_key d).
    + rewrite insert_alias_other by (by left).
      destruct (decide (key ∈ declared)), (decide (key ∈ d :: declared)) as [Hd|Hd]; try done.
      * by destruct Hd; right.
      * by apply elem_of_cons in Hd as [?|?].
Qed.

Lemma source_key_matches_static d key :
  ends_with ":*" d = false -> source_key_matches_declared d key = String.eqb d key.
Proof. unfold ends_with, source_key_matches_declared. by destruct (strip_suffix ":*" d). Qed.

(** A wildcard covers the keys under its prefix, a static key itself. *)
Lemma source_key_matches_spec d key :
  source_key_matches_declared d key = true <->
  (ends_with ":*" d = false /\ d = key) \/
  exists prefix rest, d = prefix +:+ ":*" /\ key = prefix +:+ ":" +:+ rest.
Proof.
  unfold source_key_matches_declared, ends_with.
  destruct (strip_suffix ":*" d) as [prefix|] eqn:Hd.
  - apply strip_suffix_Some in Hd as ->. split.
    + destruct (strip_prefix prefix key) as [r|] eqn:Hk; [|done].
      apply strip_prefix_Some in Hk as ->. intros (rest & ->)%starts_with_true. right. by exists prefix, rest.
    + intros [[? _]|(p & r & Heq & ->)]; [done|]. apply string_app_inv_tail in Heq as <-.
      rewrite (proj2 (strip_prefix_Some prefix _ (":" +:+ r)) eq_refl). apply starts_with_true. by exists r.
  - rewrite String.eqb_eq. split; [by left|]. intros [[_ ?]|(p & r & -> & _)]; [done|].
    by rewrite (proj2 (strip_suffix_Some _ _ p) eq_refl) in Hd.
Qed.

Lemma elem_of_effective_keys source declared key :
  is_Some (source !! key) ->
  key ∈ effective_keys source declared <->
  existsb (fun d => source_key_matches_declared d key) declared = true.
Proof.
  intros Hs. rewrite existsb_elem. unfold effective_keys. rewrite list_elem_of_In, in_flat_map.
  setoid_rewrite <-list_elem_of_In. apply exist_proper. intros d. f_equiv.
  destruct (ends_with ":*" d) eqn:Hd.
  - rewrite list_elem_of_In, filter_In. split; [by intros [_ ?]|]. intros ?. split; [|done].
    apply list_elem_of_In, list_elem_of_fmap. destruct Hs as [v Hv]. exists (key, v).
    split; [done|]. by apply elem_of_map_to_list.
  - rewrite source_key_matches_static, String.eqb_eq, list_elem_of_singleton by done. done.
Qed.

(** A module's view exposes exactly the keys that one of its declared keys
    matches, literally or under a [prefix:*] wildcard.  A declared legacy spelling
    reads the canonical key when that has a value; any other exposed key reads its
    own resolved value.  Keys outside the declaration read as absent. *)
Theorem project_declared_config_view_spec (resolved : ResolvedConfig) (declared : list string)
    (key : string) :
  cv_get (project_declared_config_view resolved declared) key =
  if existsb (fun d => source_key_matches_declared d key) declared
  then visible_value (to_config_map resolved) declared key
  else None.
Proof.
  unfold cv_get, project_declared_config_view. rewrite from_declared_lookup, insert_aliases_lookup.
  destruct (visible_value (to_config_map resolved) declared key) as [v|] eqn:Hv.
  - assert (Hs : is_Some (foldl insert_alias (to_config_map resolved) declared !! key))
      by (rewrite insert_aliases_lookup, Hv; eauto).
    pose proof (elem_of_effective_keys _ declared key Hs) as Hiff.
    destruct (existsb _ declared); case_decide; naive_solver.
  - by destruct (existsb _ declared), (decide _).
Qed.

Lemma elem_of_module_reads m key :
  key ∈ module_reads m <->
  is_Some (cs_entries (lm_config_schema m) !! key) \/
  is_support_family_module (lm_claims m) = true /\
    (key = SUPPORT_GENERATOR_CONFIG_KEY \/ key = SUPPORT_FAMILY_CONFIG_KEY).
Proof.
  assert (Hpush : forall l k, key ∈ push_missing l k <-> key ∈ l \/ key = k).
  { intros l k. unfold push_missing. destruct (existsb (String.eqb k) l) eqn:He.
    - apply existsb_elem in He as (x & Hx & ->%String.eqb_eq). naive_solver.
    - by rewrite elem_of_app, list_elem_of_singleton. }
  unfold module_reads. destruct (is_support_family_module (lm_claims m)); cbn [foldl].
  - rewrite !Hpush, elem_of_btree_keys. tauto.
  - rewrite elem_of_btree_keys. naive_solver.
Qed.

(** What the execution plan demands of a bound view, see [build_execution_plan]. *)
Definition view_key_allowed (m : LoadedModule) (key : string) : bool :=
  config_key_declared (cs_entries (lm_config_schema m)) key
  || (is_support_family_module (lm_claims m)
      && (String.eqb key SUPPORT_GENERATOR_CONFIG_KEY || String.eqb key SUPPORT_FAMILY_CONFIG_KEY)).

Lemma bind_module_config_view_sound_keys (m : LoadedModule) (resolved : ResolvedConfig) :
  forall key, key ∈ cv_keys (bind_module_config_view m resolved) -> view_key_allowed m key = true.
Proof.
  intros key (v & Hv)%elem_of_cv_keys.
  change (cv_get (bind_module_config_view m resolved) key = Some v) in Hv.
  unfold bind_module_config_view in Hv. rewrite project_declared_config_view_spec in Hv.
  destruct (existsb _ (module_reads m)) eqn:He; [|done].
  apply existsb_elem in He as (d & Hd & Hmatch). unfold view_key_allowed. apply orb_true_iff.
  apply elem_of_module_reads in Hd as [Hd|[Hf Hd]].
  + left. unfold config_key_declared. apply existsb_elem. exists d.
    split; [by apply elem_of_btree_keys|done].
  + right. rewrite Hf. rewrite source_key_matches_static in Hmatch by (by destruct Hd as [-> | ->]).
    apply String.eqb_eq in Hmatch as <-. by destruct Hd as [-> | ->].
Qed.

(** Views bound by [bind_module_config_view] never leak: every key of the view
    is declared by the module's schema, or is one of the two family selection keys of
    a support-family module; and any two resolved configurations that agree on the
    module's reads give the same view. *)
Theorem bind_module_config_view_sound (m : LoadedModule) (resolved : ResolvedConfig) :
  (forall key, key ∈ cv_keys (bind_module_config_view m resolved) -> view_key_allowed m key = true) /\
  forall resolved',
    (forall key, existsb (fun d => source_key_matches_declared d key) (module_reads m) = true ->
       to_config_map resolved !! key = to_config_map resolved' !! key /\
       to_config_map resolved !! canonical_config_key key =
       to_config_map resolved' !! canonical_config_key key) ->
    bind_module_config_view m resolved = bind_module_config_view m resolved'.
Proof.
  split.
  - apply bind_module_config_view_sound_keys.
  - intros resolved' Hag. unfold bind_module_config_view.
    assert (Heq : forall key, cv_get (project_declared_config_view resolved (module_reads m)) key =
                    cv_get (project_declared_config_view resolved' (module_reads m)) key).
    { intros key. rewrite !project_declared_config_view_spec. specialize (Hag key).
      destruct (existsb _ _); [|done]. destruct (Hag eq_refl) as [Hk Hc].
      unfold visible_value. by rewrite Hk, Hc. }
    unfold cv_get in Heq. destruct (project_declared_config_view resolved _), (project_declared_config_view resolved' _).
    f_equal. by apply map_eq.
Qed.

(** ** Support-family dispatch *)

Lemma family_claim_loop_spec claims region seen :
  family_claim_loop claims region seen = true <->
  ("support-family:" +:+ selected_family region) ∈ claims \/
  (seen = false /\ is_support_family_module claims = false).
Proof.
  revert seen; induction claims as [|claim claims IH]; intros seen; cbn [family_claim_loop].
  - rewrite negb_true_iff, elem_of_nil. cbn. tauto.
  - unfold is_support_family_module in *. cbn [existsb]. rewrite elem_of_cons, orb_false_iff.
    destruct (strip_prefix "support-family:" claim) as [family|] eqn:Hs.
    + assert (Hsw : starts_with "support-family:" claim = true)
        by (apply strip_prefix_starts_with; rewrite Hs; eauto).
      rewrite Hsw. apply strip_prefix_Some in Hs as ->.
      destruct (String.eqb_spec family (selected_family region)) as [->|Hne].
      * split; [by left; left|done].
      * rewrite IH. split; [naive_solver|]. intros [[Heq|?]|[_ [? _]]]; [|by left|done].
        exfalso. apply Hne. by injection Heq as ->.
    + assert (Hsw : starts_with "support-family:" claim = false).
      { apply not_true_iff_false. rewrite <-strip_prefix_starts_with, Hs. by intros [? ?]. }
      rewrite IH, Hsw. split; [naive_solver|]. intros [[Heq|?]|?]; [|by left|right; tauto].
      exfalso. subst claim. apply not_true_iff_false in Hsw. apply Hsw, starts_with_true. eauto.
Qed.

(** The rule behind [selected_family]: an explicit [support_type] extension, then
    a non-default [support_type], then the [support_family] extension. *)
Definition family_rule (region : ActiveRegion) : string :=
  match string_extension region SUPPORT_GENERATOR_CONFIG_KEY with
  | Some value => canonical_support_family (Some value)
  | None =>
      if is_tree (rc_support_type (ar_resolved_config region)) then SUPPORT_FAMILY_TREE
      else match rc_support_type (ar_resolved_config region) with
           | NormalAuto => canonical_support_family (string_extension region SUPPORT_FAMILY_CONFIG_KEY)
           | _ => SUPPORT_FAMILY_TRADITIONAL
           end
  end.

(** Every region selects one of the two families by the documented precedence,
    and a module receives the region exactly when it declares no support family at
    all or declares the selected one; so of two modules that each declare one of the
    families, exactly one receives the region. *)
Theorem support_family_dispatch (region : ActiveRegion) :
  selected_family region = family_rule region /\
  selected_family region ∈ [SUPPORT_FAMILY_TREE; SUPPORT_FAMILY_TRADITIONAL] /\
  (forall claims, module_claims_match_active_region claims region = true <->
     (forall claim, claim ∈ claims -> starts_with "support-family:" claim = false) \/
     ("support-family:" +:+ selected_family region) ∈ claims) /\
  xorb (module_claims_match_active_region ["support-generator"; "support-family:tree"] region)
       (module_claims_match_active_region ["support-generator"; "support-family:traditional"] region) = true.
Proof.
  assert (Hfam : forall v, canonical_support_family v ∈ [SUPPORT_FAMILY_TREE; SUPPORT_FAMILY_TRADITIONAL]).
  { intros [v|]; cbn; [|right; left]. destruct (_ || _); [left|right; left]. }
  assert (Hsel : selected_family region ∈ [SUPPORT_FAMILY_TREE; SUPPORT_FAMILY_TRADITIONAL])
    by apply Hfam.
  split; [|split; [exact Hsel|split]].
  - unfold selected_family, family_rule, select_support_family.
    destruct (string_extension region SUPPORT_GENERATOR_CONFIG_KEY); [done|].
    by destruct (rc_support_type (ar_resolved_config region)).
  - intros claims. unfold module_claims_match_active_region. rewrite family_claim_loop_spec.
    assert (Hf : is_support_family_module claims = false <->
              forall claim, claim ∈ claims -> starts_with "support-family:" claim = false).
    { unfold is_support_family_module. rewrite <-not_true_iff_false, existsb_elem. split.
      - intros Hno c Hc. apply not_true_iff_false. eauto.
      - intros Hall (c & Hc & Ht). rewrite Hall in Ht; done. }
    rewrite <-Hf. naive_solver.
  - unfold module_claims_match_active_region. cbn.
    apply elem_of_cons in Hsel as [-> | ->%list_elem_of_singleton]; reflexivity.
Qed.

(** ** Pairing *)

Lemma elem_of_families_with role modules family :
  family ∈ families_with role modules <->
  exists m, m ∈ modules /\ ("support-family:" +:+ family) ∈ lm_claims m /\ role ∈ lm_claims m.
Proof.
  unfold families_with. rewrite elem_of_list_to_set, list_elem_of_In, in_flat_map. split.
  - intros (m & Hm%list_elem_of_In & Hin). apply in_flat_map in Hin as (c & Hc%list_elem_of_In & Hin).
    exists m. split; [done|]. destruct (strip_prefix "support-family:" c) as [f|] eqn:Hs; [|done].
    apply strip_prefix_Some in Hs as ->. destruct (existsb (String.eqb role) (lm_claims m)) eqn:He; [|done].
    destruct Hin as [->|[]]. split; [done|].
    apply existsb_elem in He as (x & Hx & ->%String.eqb_eq). done.
  - intros (m & Hm & Hf & Hr). exists m. split; [by apply list_elem_of_In|].
    apply in_flat_map. exists ("support-family:" +:+ family). split; [by apply list_elem_of_In|].
    rewrite (proj2 (strip_prefix_Some _ _ family) eq_refl).
    rewrite (proj2 (existsb_elem _ _)); [by left|]. exists role. split; [done|apply String.eqb_refl].
Qed.

Definition paired (modules : list LoadedModule) (family : string) : Prop :=
  family ∈ families_with SUPPORT_PLANNER_CLAIM modules <->
  family ∈ families_with SUPPORT_GENERATOR_CLAIM modules.

(** Pairing never fails: it returns no warning exactly when every family with
    a planner has a renderer and conversely, and otherwise one warning that lists, in
    order and without repetition, the families on each side that lack a partner. *)
Theorem validate_support_family_pairing_spec (modules : list LoadedModule) :
  exists warnings, validate_support_family_pairing modules = Ok warnings /\
    (warnings = [] <-> forall family, paired modules family) /\
    (warnings <> [] -> exists e, warnings = [e] /\
       NoDup (missing_renderers e) /\ NoDup (missing_planners e) /\
       sorted_by rust_leb (missing_renderers e) /\ sorted_by rust_leb (missing_planners e) /\
       forall family,
         (family ∈ missing_renderers e <->
            family ∈ families_with SUPPORT_PLANNER_CLAIM modules /\
            family ∉ families_with SUPPORT_GENERATOR_CLAIM modules) /\
         (family ∈ missing_planners e <->
            family ∈ families_with SUPPORT_GENERATOR_CLAIM modules /\
            family ∉ families_with SUPPORT_PLANNER_CLAIM modules)).
Proof.
  unfold validate_support_family_pairing, paired. cbn [missing_renderers missing_planners].
  set (P := families_with SUPPORT_PLANNER_CLAIM modules).
  set (R := families_with SUPPORT_GENERATOR_CLAIM modules).
  assert (HP : forall f, f ∈ btree_elems (P ∖ R) <-> f ∈ P /\ f ∉ R)
    by (intros f; rewrite elem_of_btree_elems; apply elem_of_difference).
  assert (HR : forall f, f ∈ btree_elems (R ∖ P) <-> f ∈ R /\ f ∉ P)
    by (intros f; rewrite elem_of_btree_elems; apply elem_of_difference).
  assert (Hall : btree_elems (P ∖ R) = [] /\ btree_elems (R ∖ P) = [] <-> forall f, f ∈ P <-> f ∈ R).
  { rewrite !list_nil_elem. split.
    - intros [H1 H2] f. split; intros Hf.
      + destruct (decide (f ∈ R)); [done|]. exfalso. apply (H1 f), HP. done.
      + destruct (decide (f ∈ P)); [done|]. exfalso. apply (H2 f), HR. done.
    - intros Heq. split; intros f Hf.
      + apply HP in Hf as [H1 H2]. exact (H2 (proj1 (Heq f) H1)).
      + apply HR in Hf as [H1 H2]. exact (H2 (proj2 (Heq f) H1)). }
  generalize (NoDup_btree_elems (P ∖ R)), (NoDup_btree_elems (R ∖ P)),
    (btree_elems_sorted (P ∖ R)), (btree_elems_sorted (R ∖ P)).
  clearbody P R. revert HP HR Hall.
  destruct (btree_elems (P ∖ R)) as [|x l], (btree_elems (R ∖ P)) as [|y k];
    intros HP HR Hall ? ? ? ?;
    (eexists; split; [reflexivity|]);
    (split; [rewrite <-Hall; split; [try discriminate; by intros _|by intros [? ?]]|]);
    intros Hne; try (by destruct Hne);
    (eexists; split; [reflexivity|]; cbn [missing_renderers missing_planners]);
    do 4 (split; [assumption|]); intros family; (split; [apply HP|apply HR]).
Qed.

(** ** The JSON config source *)

Section json_spec.
Context (Number : Type) (as_i64 : Number -> option Z) (as_f64 : Number -> option f64).
Context (from_str : string -> result (Value Number) string).
Let convert := json_to_config_value Number as_i64 as_f64.

(** No [null], no nested object, and only numbers that fit [i64] or [f64]. *)
Fixpoint supported (v : Value Number) : bool :=
  match v with
  | Bool _ _ | Str _ _ => true
  | Num _ n => match as_i64 n, as_f64 n with None, None => false | _, _ => true end
  | Array _ items => forallb supported items
  | Null _ | Object _ _ => false
  end.

Lemma convert_array items :
  convert (Array _ items) = CvList <$> mapM convert items.
Proof using Type.
  unfold convert. cbn [json_to_config_value].
  match goal with |- ?go items [] = _ =>
    assert (Hgen : forall l acc, go l acc = (fun r => CvList (acc ++ r)) <$>
              mapM (json_to_config_value Number as_i64 as_f64) l) end.
  { induction l as [|v l IH]; intros acc; simpl; [by rewrite app_nil_r|].
    destruct (json_to_config_value Number as_i64 as_f64 v) as [c|]; simpl; [|done].
    rewrite IH. destruct (mapM _ l) as [r|]; simpl; [|done]. by rewrite <-(assoc_L (++)). }
  rewrite Hgen. by destruct (mapM _ items).
Qed.

Lemma convert_supported v : is_Some (convert v) <-> supported v = true.
Proof using Type.
  revert v. fix IH 1. intros [| b | n | s | items | fields].
  - split; [intros [? H]; discriminate H|done].
  - split; [done|]. intros _. by exists (CvBool b).
  - cbn. destruct (as_i64 n), (as_f64 n);
      (split; [intros Hs; first [reflexivity|by destruct Hs]|intros Hs; first [discriminate Hs|by eexists]]).
  - split; [done|]. intros _. by exists (CvString s).
  - rewrite convert_array, fmap_is_Some. cbn [supported].
    induction items as [|v items IHi]; [split; [done|intros _; by exists []]|]. cbn [forallb].
    rewrite andb_true_iff, <-IH, <-IHi. simpl.
    destruct (convert v) as [c|]; simpl; [|split; [intros Hs; by destruct Hs|intros [Hs _]; by destruct Hs]].
    destruct (mapM convert items) as [r|]; simpl.
    + split; [intros _; split; by eexists|intros _; by eexists].
    + split; [intros Hs; by destruct Hs|intros [_ Hs]; by destruct Hs].
  - split; [intros [? H]; discriminate H|done].
Qed.

Lemma insert_fields_spec fields out :
  insert_fields Number as_i64 as_f64 fields out =
  match List.find (fun f => negb (supported f.2)) fields with
  | Some (key, _) => Err (UnsupportedValue key)
  | None => Ok (foldl (fun out f => match convert f.2 with
                                    | Some v => <[f.1 := v]> out | None => out end) out fields)
  end.
Proof using Type.
  revert out; induction fields as [|[key raw] fields IH]; intros out; [done|].
  cbn [insert_fields List.find fst snd]. pose proof (convert_supported raw) as Hs. unfold convert in Hs.
  destruct (json_to_config_value Number as_i64 as_f64 raw) as [v|] eqn:Hv.
  - rewrite (proj1 Hs) by eauto. cbn [negb foldl fst snd]. rewrite IH. unfold convert. by rewrite Hv.
  - destruct (supported raw); [|done]. destruct (proj2 Hs eq_refl) as [? [=]].
Qed.

(** Reading a JSON config source: malformed JSON and a non-object are reported
    as such; otherwise the first entry with a [null], a nested object or an
    unrepresentable number is reported by key, and without one the source is
    accepted and every key of it holds the conversion of its value. *)
Theorem parse_cli_config_source_spec (json : string) :
  match from_str json with
  | Err e => parse_cli_config_source Number as_i64 as_f64 from_str json = Err (InvalidJson e)
  | Ok (Object _ fields) =>
      match List.find (fun f => negb (supported f.2)) fields with
      | Some (key, _) =>
          parse_cli_config_source Number as_i64 as_f64 from_str json = Err (UnsupportedValue key)
      | None =>
          exists out, parse_cli_config_source Number as_i64 as_f64 from_str json = Ok out /\
            (forall key, is_Some (out !! key) <-> key ∈ fields.*1) /\
            (NoDup fields.*1 -> forall key raw, (key, raw) ∈ fields -> out !! key = convert raw)
      end
  | Ok _ => parse_cli_config_source Number as_i64 as_f64 from_str json = Err NotAnObject
  end.
Proof.
  unfold parse_cli_config_source. destruct (from_str json) as [v|e]; [|done]. destruct v; try done.
  rewrite insert_fields_spec. destruct (List.find _ fields) as [[key raw]|] eqn:Hf; [done|].
  assert (Hsup : forall f, f ∈ fields -> exists v, convert f.2 = Some v).
  { intros f Hin%list_elem_of_In. apply convert_supported.
    by apply negb_false_iff, (find_none _ _ Hf). }
  clear Hf. eexists. split; [reflexivity|].
  induction fields as [|[k raw] fields IH] using rev_ind.
  - split; [|intros _ ? ? Hin; by apply elem_of_nil in Hin]. intros key. cbn.
    rewrite lookup_empty, elem_of_nil. by split; [intros [? ?]|].
  - rewrite foldl_app, fmap_app. cbn [foldl fst snd].
    destruct (Hsup (k, raw)) as [v Hv]; [apply elem_of_app; right; left|]. cbn in Hv. rewrite Hv.
    destruct IH as [IHd IHv]; [intros f Hin; apply Hsup, elem_of_app; by left|]. split.
    + intros key. rewrite elem_of_app, <-IHd. cbn. rewrite list_elem_of_singleton.
      destruct (decide (key = k)) as [->|Hne]; [rewrite lookup_insert_eq; naive_solver|].
      rewrite lookup_insert_ne by done. naive_solver.
    + intros [Hnd [Hni _]]%NoDup_app key raw' Hin. apply elem_of_app in Hin as [Hin|Hin].
      * destruct (decide (key = k)) as [->|Hne].
        -- exfalso. apply (Hni k); [apply list_elem_of_fmap; by exists (k, raw')|left].
        -- rewrite lookup_insert_ne by done. by apply IHv.
      * apply list_elem_of_singleton in Hin as [= -> ->]. by rewrite lookup_insert_eq.
Qed.
End json_spec.
