(* ===== verification/ClaimDedup.v ===== *)
(** Claim deduplication at load time ([execution_plan.rs],
    [dedup_same_claim_modules_typed]): per stage and exclusive claim one winner, the
    other holders are dropped with a diagnostic. *)
From Stdlib Require Import Ascii.
From stdpp Require Import prelude gmap strings list.
From S2P Require Import Prelude Ir StageOrder Manifest Dag Topology Validation ConfigBinding.

#[local] Open Scope string_scope.
#[local] Open Scope list_scope.

(** ** Code *)

Definition PERIMETER_GENERATOR_CLAIM : string := "perimeter-generator".
Definition CLASSIC_PERIMETERS_MODULE_ID : string := "com.core.classic-perimeters".
Definition ARACHNE_PERIMETERS_MODULE_ID : string := "com.core.arachne-perimeters".

Definition wall_generator_preferred_module_id (wall_generator : option ConfigValue) : string :=
  match wall_generator with
  | Some (CvString value) =>
      if String.eqb value "arachne" then ARACHNE_PERIMETERS_MODULE_ID
      else CLASSIC_PERIMETERS_MODULE_ID
  | _ => CLASSIC_PERIMETERS_MODULE_ID
  end.

Section dedup.
Context (wall_generator : option ConfigValue) (spiral_vase : bool).

(** Pass 1: [(stage, claim) -> candidate ids]. *)
Definition claim_entries (m : LoadedModule) : list ((StageId * string) * ModuleId) :=
  flat_map (fun claim =>
    if contains FILL_CLAIM_IDS claim || starts_with "support-family:" claim then []
    else [((lm_stage m, claim), lm_id m)]) (lm_claims m).

Definition candidates_for (sorted : list LoadedModule) : gmap (StageId * string) (list ModuleId) :=
  foldl push_entry ∅ (flat_map claim_entries sorted).

Definition family_scoped (sorted : list LoadedModule) : gset ModuleId :=
  list_to_set (lm_id <$>
    base.filter (fun m => is_support_family_module (lm_claims m) = true) sorted).

Definition preferred_perimeters : string :=
  if spiral_vase then CLASSIC_PERIMETERS_MODULE_ID
  else wall_generator_preferred_module_id wall_generator.

(** Pass 2 for one contested claim: its winner, if one is decided. *)
Definition resolve_winner (scoped : gset ModuleId) (claim : string) (candidate_ids : list ModuleId)
    : option ModuleId :=
  if Nat.ltb (length candidate_ids) 2 then None
  else if String.eqb claim PERIMETER_GENERATOR_CLAIM
          && existsb (String.eqb preferred_perimeters) candidate_ids
  then Some preferred_perimeters
  else if String.eqb claim SUPPORT_GENERATOR_CLAIM then None
  else if String.eqb claim SUPPORT_PLANNER_CLAIM then
    let global_candidates := base.filter (fun id => id ∉ scoped) candidate_ids in
    if Nat.ltb (length global_candidates) 2 then None else head global_candidates
  else head candidate_ids.

Definition winner_for (sorted : list LoadedModule) : gmap (StageId * string) ModuleId :=
  foldl (fun winners e =>
      match resolve_winner (family_scoped sorted) e.1.2 e.2 with
      | Some id => <[e.1 := id]> winners
      | None => winners
      end) ∅ (btree_iter (candidates_for sorted)).

(** Pass 3: the first claim of a module that another module won. *)
Fixpoint losing_claim (scoped : gset ModuleId) (winners : gmap (StageId * string) ModuleId)
    (m : LoadedModule) (claims : list string) : option (string * ModuleId) :=
  match claims with
  | [] => None
  | claim :: rest =>
      if contains FILL_CLAIM_IDS claim || String.eqb claim SUPPORT_GENERATOR_CLAIM
         || (String.eqb claim SUPPORT_PLANNER_CLAIM && bool_decide (lm_id m ∈ scoped))
      then losing_claim scoped winners m rest
      else
        match winners !! (lm_stage m, claim) with
        | Some winner =>
            if String.eqb winner (lm_id m) then losing_claim scoped winners m rest
            else Some (claim, winner)
        | None => losing_claim scoped winners m rest
        end
  end.

Definition dropped_diagnostic (m : LoadedModule) (claim : string) (winner : ModuleId)
    : LoadDiagnostic := {|
  ld_level := Info;
  ld_path := lm_wasm_path m;
  ld_field := Some "claims.holds";
  ld_message := "module '" +:+ lm_id m +:+ "' in stage '" +:+ lm_stage m +:+
    "' dropped: claim '" +:+ claim +:+ "' already held by '" +:+ winner +:+
    "' (first-winner dedup; docs/04 §2)"
|}.

Definition keep_or_drop (scoped : gset ModuleId) (winners : gmap (StageId * string) ModuleId)
    (st : list LoadedModule * list LoadDiagnostic) (m : LoadedModule)
    : list LoadedModule * list LoadDiagnostic :=
  match losing_claim scoped winners m (lm_claims m) with
  | Some (claim, winner) => (st.1, st.2 ++ [dropped_diagnostic m claim winner])
  | None => (st.1 ++ [m], st.2)
  end.

Definition sorted_modules (modules : list LoadedModule) : list LoadedModule :=
  sort_by (fun a b => rust_leb (lm_id a) (lm_id b)) modules.

(** The kept modules and the diagnostics; the argument vector is left empty. *)
Definition dedup_same_claim_modules_typed (modules : list LoadedModule)
    (diagnostics : list LoadDiagnostic) : list LoadedModule * list LoadDiagnostic :=
  let sorted := sorted_modules modules in
  foldl (keep_or_drop (family_scoped sorted) (winner_for sorted)) ([], diagnostics) sorted.
End dedup.

(** [dedup_same_claim_modules] and its [_with_wall_generator] entry point. *)
Definition dedup_same_claim_modules (modules : list LoadedModule)
    (diagnostics : list LoadDiagnostic) (wall_generator : option string) (spiral_vase : bool)
    : list LoadedModule * list LoadDiagnostic :=
  dedup_same_claim_modules_typed (CvString <$> wall_generator) spiral_vase modules diagnostics.

Definition dedup_same_claim_modules_for_test (modules : list LoadedModule)
    (diagnostics : list LoadDiagnostic) : list LoadedModule * list LoadDiagnostic :=
  dedup_same_claim_modules modules diagnostics None false.

(** ** Specification *)

(** A claim with one holder per stage; support planners of a family are exempt. *)
Definition exclusive_claim (claim : string) : Prop :=
  claim ∉ FILL_CLAIM_IDS /\ starts_with "support-family:" claim = false /\
  claim <> SUPPORT_GENERATOR_CLAIM.

Definition contends (m : LoadedModule) (stage claim : string) : Prop :=
  lm_stage m = stage /\ claim ∈ lm_claims m /\
  (claim = SUPPORT_PLANNER_CLAIM -> is_support_family_module (lm_claims m) = false).

(** The claim that drops a module, with the module that won it. *)
Definition lost_claim (wall_generator : option ConfigValue) (spiral_vase : bool)
    (modules : list LoadedModule) (m : LoadedModule) : option (string * ModuleId) :=
  let sorted := sorted_modules modules in
  losing_claim (family_scoped sorted) (winner_for wall_generator spiral_vase sorted) m (lm_claims m).

Section dedup_spec.
Context (wall_generator : option ConfigValue) (spiral_vase : bool) (modules : list LoadedModule).
Let sorted := sorted_modules modules.
Let scoped := family_scoped sorted.
Let winners := winner_for wall_generator spiral_vase sorted.
Let lost := lost_claim wall_generator spiral_vase modules.

Lemma elem_of_candidates stage claim id :
  id ∈ default [] (candidates_for sorted !! (stage, claim)) <->
  claim ∉ FILL_CLAIM_IDS /\ starts_with "support-family:" claim = false /\
  exists m, m ∈ modules /\ lm_id m = id /\ lm_stage m = stage /\ claim ∈ lm_claims m.
Proof using Type.
  unfold candidates_for. rewrite push_entry_fold, lookup_empty. cbn [default from_option].
  rewrite elem_of_nil, list_elem_of_In, in_flat_map. split.
  - intros [?|(m & Hm & Hin)]; [done|]. unfold claim_entries in Hin.
    apply in_flat_map in Hin as (c & Hc & Hin).
    destruct (contains FILL_CLAIM_IDS c || starts_with "support-family:" c) eqn:Hex; [done|].
    destruct Hin as [[= <- <- <-]|[]]. apply orb_false_iff in Hex as [Hf Hs].
    split; [rewrite <-contains_spec; congruence|]. split; [done|]. exists m.
    split; [|by rewrite list_elem_of_In]. apply list_elem_of_In in Hm. by apply elem_of_sort_by in Hm.
  - intros (Hf & Hs & m & Hm & <- & <- & Hc). right. exists m. split.
    + apply list_elem_of_In. by apply elem_of_sort_by.
    + apply in_flat_map. exists claim. split; [by apply list_elem_of_In|].
      rewrite <-contains_spec in Hf. apply not_true_is_false in Hf. rewrite Hf, Hs. by left.
Qed.

Lemma winner_for_lookup key :
  winners !! key =
  candidates_for sorted !! key ≫= resolve_winner wall_generator spiral_vase scoped key.2.
Proof using Type.
  unfold winners, winner_for. fold scoped.
  set (step := fun w e => _).
  assert (Hgen : forall (es : list ((string * string) * list string)) w,
    NoDup es.*1 ->
    foldl step w es !! key =
    match List.find (fun e => bool_decide (e.1 = key)) es with
    | Some e => match resolve_winner wall_generator spiral_vase scoped e.1.2 e.2 with
                | Some id => Some id | None => w !! key end
    | None => w !! key
    end).
  { induction es as [|[k l] es IH]; intros w Hnd; [done|]. cbn [foldl List.find fst].
    cbn in Hnd. apply NoDup_cons in Hnd as [Hni Hnd]. rewrite IH by done.
    destruct (bool_decide_reflect (k = key)) as [->|Hne].
    - destruct (List.find _ es) as [[k' l']|] eqn:Hf.
      + exfalso. apply find_some in Hf as [Hin He]. cbn in He. apply bool_decide_eq_true in He as ->.
        apply Hni, list_elem_of_fmap. exists (key, l'). split; [done|]. by apply list_elem_of_In.
      + unfold step; cbn [fst snd]. destruct (resolve_winner _ _ _ _ l); [by rewrite lookup_insert_eq|done].
    - assert (Hw : step w (k, l) !! key = w !! key).
      { unfold step; cbn [fst snd]. destruct (resolve_winner _ _ _ _ l); [by rewrite lookup_insert_ne|done]. }
      by rewrite Hw. }
  rewrite Hgen by apply NoDup_btree_keys. rewrite lookup_empty.
  destruct (List.find _ _) as [[k l]|] eqn:Hf.
  - apply find_some in Hf as [Hin He]. cbn in He. apply bool_decide_eq_true in He as ->.
    apply list_elem_of_In, elem_of_btree_iter in Hin. rewrite Hin. cbn. by destruct (resolve_winner _ _ _ _ _).
  - destruct (candidates_for sorted !! key) as [l|] eqn:Hl; [|done]. exfalso.
    apply elem_of_btree_iter, list_elem_of_In in Hl.
    pose proof (find_none _ _ Hf _ Hl) as Hno. cbn in Hno. by rewrite bool_decide_true in Hno.
Qed.

Lemma losing_claim_None m claims :
  losing_claim scoped winners m claims = None <->
  forall claim, claim ∈ claims -> claim ∉ FILL_CLAIM_IDS -> claim <> SUPPORT_GENERATOR_CLAIM ->
    (claim = SUPPORT_PLANNER_CLAIM -> lm_id m ∉ scoped) ->
    forall winner, winners !! (lm_stage m, claim) = Some winner -> winner = lm_id m.
Proof using Type.
  induction claims as [|c claims IH]; cbn [losing_claim].
  - split; [|done]. intros _ c Hc. by apply elem_of_nil in Hc.
  - destruct (contains FILL_CLAIM_IDS c) eqn:Hf; cbn [orb].
    { apply contains_spec in Hf. rewrite IH. split; intros Hall c' Hc'.
      - apply elem_of_cons in Hc' as [->|Hc']; [done|]. by apply Hall.
      - apply Hall. by right. }
    destruct (String.eqb_spec c SUPPORT_GENERATOR_CLAIM) as [->|Hg]; cbn [orb].
    { rewrite IH. split; intros Hall c' Hc'.
      - apply elem_of_cons in Hc' as [->|Hc']; [done|]. by apply Hall.
      - apply Hall. by right. }
    assert (Hfill : c ∉ FILL_CLAIM_IDS) by (rewrite <-contains_spec; congruence).
    destruct (String.eqb c SUPPORT_PLANNER_CLAIM && bool_decide (lm_id m ∈ scoped)) eqn:Hp.
    { apply andb_true_iff in Hp as [->%String.eqb_eq Hin%bool_decide_eq_true].
      rewrite IH. split; intros Hall c' Hc'.
      - apply elem_of_cons in Hc' as [->|Hc']; [naive_solver|]. by apply Hall.
      - apply Hall. by right. }
    assert (Hplanner : c = SUPPORT_PLANNER_CLAIM -> lm_id m ∉ scoped).
    { intros ->. rewrite String.eqb_refl in Hp. cbn in Hp. by apply bool_decide_eq_false in Hp. }
    destruct (winners !! (lm_stage m, c)) as [w|] eqn:Hw.
    + destruct (String.eqb_spec w (lm_id m)) as [->|Hne].
      * rewrite IH. split; intros Hall c' Hc'.
        -- apply elem_of_cons in Hc' as [->|Hc']; [|by apply Hall]. intros _ _ _ w' Hw'. congruence.
        -- apply Hall. by right.
      * split; [done|]. intros Hall. exfalso. apply Hne, (Hall c); [left|done..].
    + rewrite IH. split; intros Hall c' Hc'.
      * apply elem_of_cons in Hc' as [->|Hc']; [|by apply Hall]. intros _ _ _ w' Hw'. congruence.
      * apply Hall. by right.
Qed.

Lemma dedup_fold diagnostics :
  dedup_same_claim_modules_typed wall_generator spiral_vase modules diagnostics =
  (base.filter (fun m => lost m = None) sorted,
   diagnostics ++ flat_map (fun m => match lost m with
     | Some (claim, winner) => [dropped_diagnostic m claim winner] | None => [] end) sorted).
Proof using Type.
  unfold dedup_same_claim_modules_typed. fold sorted scoped winners.
  assert (Hgen : forall l k d, foldl (keep_or_drop scoped winners) (k, d) l =
    (k ++ base.filter (fun m => lost m = None) l,
     d ++ flat_map (fun m => match lost m with
       | Some (claim, winner) => [dropped_diagnostic m claim winner] | None => [] end) l)).
  { induction l as [|m l IH]; intros k d; cbn [foldl flat_map]; [by rewrite !app_nil_r|].
    unfold keep_or_drop at 2. cbn [fst snd]. change (losing_claim _ _ m _) with (lost m).
    destruct (lost m) as [[claim winner]|] eqn:Hm.
    - by rewrite IH, filter_cons_False, <-(assoc_L (++)) by congruence.
    - by rewrite IH, filter_cons_True, <-(assoc_L (++)) by done. }
  by rewrite Hgen.
Qed.
End dedup_spec.

(** ** Winners *)

Lemma two_members {A} (l : list A) x y :
  x ∈ l -> y ∈ l -> x <> y -> 2 <= length l /\ exists h, head l = Some h.
Proof.
  intros Hx Hy Hne. destruct l as [|a [|b l]]; simpl; [by apply elem_of_nil in Hx| |].
  - apply list_elem_of_singleton in Hx, Hy. congruence.
  - split; [lia|eauto].
Qed.

Lemma resolve_winner_elem wall spiral scoped claim ids w :
  resolve_winner wall spiral scoped claim ids = Some w -> w ∈ ids.
Proof.
  assert (Hhead : forall l : list string, head l = Some w -> w ∈ l)
    by (intros [|x l]; simpl; [done|intros [= ->]; left]).
  unfold resolve_winner. destruct (Nat.ltb _ 2); [done|].
  destruct (String.eqb claim PERIMETER_GENERATOR_CLAIM && _) eqn:Hp.
  - intros [= <-]. apply andb_true_iff in Hp as [_ Hp].
    apply existsb_elem in Hp as (x & Hx & ->%String.eqb_eq). done.
  - destruct (String.eqb claim SUPPORT_GENERATOR_CLAIM); [done|].
    destruct (String.eqb claim SUPPORT_PLANNER_CLAIM); [|apply Hhead].
    destruct (Nat.ltb _ 2); [done|]. intros Hh%Hhead. apply list_elem_of_filter in Hh as [_ Hh]. exact Hh.
Qed.

Lemma resolve_winner_decides wall spiral scoped claim ids x y :
  x ∈ ids -> y ∈ ids -> x <> y -> claim <> SUPPORT_GENERATOR_CLAIM ->
  (claim = SUPPORT_PLANNER_CLAIM -> x ∉ scoped /\ y ∉ scoped) ->
  is_Some (resolve_winner wall spiral scoped claim ids).
Proof.
  intros Hx Hy Hne Hg Hp. destruct (two_members ids x y Hx Hy Hne) as [Hlen [h Hh]].
  unfold resolve_winner. destruct (Nat.ltb_spec (length ids) 2); [lia|].
  destruct (_ && _); [eauto|]. destruct (String.eqb_spec claim SUPPORT_GENERATOR_CLAIM); [done|].
  destruct (String.eqb_spec claim SUPPORT_PLANNER_CLAIM) as [He|]; [|rewrite Hh; eauto].
  destruct (Hp He) as [Hxs Hys].
  destruct (two_members (base.filter (fun id => id ∉ scoped) ids) x y) as [Hlen' [h' Hh']];
    [by apply list_elem_of_filter|by apply list_elem_of_filter|done|].
  destruct (Nat.ltb_spec (length (base.filter (fun id => id ∉ scoped) ids)) 2); [lia|].
  rewrite Hh'. eauto.
Qed.

Section dedup_theorems.
Context (wall_generator : option ConfigValue) (spiral_vase : bool) (modules : list LoadedModule).
Context (ids_NoDup : NoDup (lm_id <$> modules)).
Let sorted := sorted_modules modules.
Let scoped := family_scoped sorted.
Let winners := winner_for wall_generator spiral_vase sorted.

Lemma same_id m1 m2 : m1 ∈ modules -> m2 ∈ modules -> lm_id m1 = lm_id m2 -> m1 = m2.
Proof using ids_NoDup. intros. by apply (NoDup_fmap_inj lm_id modules). Qed.

Lemma elem_of_scoped m :
  m ∈ modules -> lm_id m ∈ scoped <-> is_support_family_module (lm_claims m) = true.
Proof using ids_NoDup.
  intros Hm. unfold scoped, family_scoped. rewrite elem_of_list_to_set, list_elem_of_fmap. split.
  - intros (m' & Hid & [Hf Hm']%list_elem_of_filter). apply elem_of_sort_by in Hm'.
    by rewrite (same_id m m').
  - intros Hf. exists m. split; [done|]. apply list_elem_of_filter. split; [done|]. by apply elem_of_sort_by.
Qed.

Lemma winner_holds stage claim w :
  winners !! (stage, claim) = Some w ->
  claim ∉ FILL_CLAIM_IDS /\ starts_with "support-family:" claim = false /\
  exists m, m ∈ modules /\ lm_id m = w /\ lm_stage m = stage /\ claim ∈ lm_claims m.
Proof using Type.
  unfold winners, sorted. rewrite winner_for_lookup. cbn [snd].
  destruct (candidates_for _ !! (stage, claim)) as [ids|] eqn:Hc; [|done]. cbn.
  intros Hw%resolve_winner_elem. apply elem_of_candidates. by rewrite Hc.
Qed.

Lemma contested_has_winner m1 m2 stage claim :
  m1 ∈ modules -> m2 ∈ modules -> m1 <> m2 -> exclusive_claim claim ->
  contends m1 stage claim -> contends m2 stage claim -> is_Some (winners !! (stage, claim)).
Proof using ids_NoDup.
  intros H1 H2 Hne (Hf & Hs & Hg) (St1 & C1 & P1) (St2 & C2 & P2).
  assert (E1 : lm_id m1 ∈ default [] (candidates_for sorted !! (stage, claim)))
    by (apply elem_of_candidates; eauto 10).
  assert (E2 : lm_id m2 ∈ default [] (candidates_for sorted !! (stage, claim)))
    by (apply elem_of_candidates; eauto 10).
  unfold winners, sorted. rewrite winner_for_lookup. fold sorted scoped. cbn [snd].
  destruct (candidates_for sorted !! (stage, claim)) as [ids|]; cbn in *; [|by apply elem_of_nil in E1].
  apply (resolve_winner_decides _ _ _ _ _ _ _ E1 E2); [|done|].
  - intros Heq. apply Hne. by apply same_id.
  - intros He. rewrite !elem_of_scoped by done. rewrite P1, P2 by done. done.
Qed.

(** A kept module won every exclusive claim it contends for that has a winner. *)
Lemma kept_wins m stage claim w :
  m ∈ modules -> losing_claim scoped winners m (lm_claims m) = None ->
  exclusive_claim claim -> contends m stage claim -> winners !! (stage, claim) = Some w -> w = lm_id m.
Proof using ids_NoDup.
  intros Hm Hl (Hf & Hs & Hg) (<- & Hc & Hp) Hw.
  eapply (proj1 (losing_claim_None wall_generator spiral_vase modules m (lm_claims m)) Hl claim);
    [done|done|done| |exact Hw].
  intros He. fold sorted scoped. rewrite elem_of_scoped by done. by rewrite Hp.
Qed.
End dedup_theorems.

Lemma elem_of_kept wall spiral modules diagnostics m :
  m ∈ (dedup_same_claim_modules_typed wall spiral modules diagnostics).1 <->
  m ∈ modules /\ lost_claim wall spiral modules m = None.
Proof.
  rewrite dedup_fold. cbn [fst]. rewrite list_elem_of_filter.
  unfold sorted_modules. rewrite elem_of_sort_by. tauto.
Qed.

(** [C20].  After deduplication no two modules of a stage hold the same exclusive
    claim: the kept holders of a claim that is neither a fill role, nor a support
    family, nor the renderer claim (and, for planners, the kept planners without a
    family) are one module.  Module ids are distinct. *)
Theorem dedup_exclusive_holder (wall_generator : option ConfigValue) (spiral_vase : bool)
    (modules : list LoadedModule) (diagnostics : list LoadDiagnostic) :
  NoDup (lm_id <$> modules) ->
  let kept := (dedup_same_claim_modules_typed wall_generator spiral_vase modules diagnostics).1 in
  forall m1 m2 stage claim, m1 ∈ kept -> m2 ∈ kept -> exclusive_claim claim ->
    contends m1 stage claim -> contends m2 stage claim -> m1 = m2.
Proof.
  intros Hnd kept m1 m2 stage claim [H1 L1]%elem_of_kept [H2 L2]%elem_of_kept Hex C1 C2.
  destruct (decide (lm_id m1 = lm_id m2)) as [Heq|Hne]; [by apply (same_id modules)|].
  destruct (contested_has_winner wall_generator spiral_vase modules Hnd m1 m2 stage claim)
    as [w Hw]; try done; [congruence|].
  exfalso. apply Hne. transitivity w; [symmetry|]; by eapply kept_wins.
Qed.

(** Deduplication keeps a sublist of the modules sorted by id and appends one
    [Info] diagnostic per dropped module, in that order; a module is dropped only when
    some other module of its stage holds one of its exclusive claims, and the
    diagnostic names that claim and holder. *)
Theorem dedup_drops_reported (wall_generator : option ConfigValue) (spiral_vase : bool)
    (modules : list LoadedModule) (diagnostics : list LoadDiagnostic) :
  let r := dedup_same_claim_modules_typed wall_generator spiral_vase modules diagnostics in
  exists dropped : list (LoadedModule * string * ModuleId),
    r.1 `sublist_of` sorted_modules modules /\
    r.1 ++ dropped.*1.*1 ≡ₚ modules /\
    r.2 = diagnostics ++ ((fun d => dropped_diagnostic d.1.1 d.1.2 d.2) <$> dropped) /\
    forall m claim winner, (m, claim, winner) ∈ dropped ->
      claim ∈ lm_claims m /\ exclusive_claim claim /\ winner <> lm_id m /\
      exists m', m' ∈ modules /\ lm_id m' = winner /\ lm_stage m' = lm_stage m /\
        claim ∈ lm_claims m'.
Proof.
  cbn zeta. rewrite dedup_fold. cbn [fst snd].
  remember (lost_claim wall_generator spiral_vase modules) as lost eqn:Hlost.
  exists (flat_map (fun m => match lost m with Some (c, w) => [(m, c, w)] | None => [] end)
            (sorted_modules modules)).
  split; [apply filter_sublist|]. split; [|split].
  - transitivity (sorted_modules modules); [|apply sort_by_perm].
    induction (sorted_modules modules) as [|m l IH]; [done|]. cbn [flat_map].
    destruct (lost m) as [[c w]|] eqn:Hm.
    + rewrite filter_cons_False by congruence. cbn [app fmap list_fmap fst].
      etrans; [symmetry; apply Permutation_middle|]. by constructor.
    + rewrite filter_cons_True by done. simpl. by constructor.
  - f_equal. induction (sorted_modules modules) as [|m l IH]; [done|]. cbn [flat_map].
    rewrite fmap_app, <-IH. f_equal.
    by destruct (lost m) as [[c w]|].
  - intros m claim winner Hin. apply list_elem_of_In, in_flat_map in Hin as (m' & Hm' & Hin).
    destruct (lost m') as [[c w]|] eqn:Hl; [|done]. destruct Hin as [[= -> -> ->]|[]].
    assert (Hlose : claim ∈ lm_claims m /\ claim <> SUPPORT_GENERATOR_CLAIM /\ winner <> lm_id m /\
      winner_for wall_generator spiral_vase (sorted_modules modules) !! (lm_stage m, claim) = Some winner).
    { subst lost. unfold lost_claim in Hl. generalize dependent (lm_claims m). induction l as [|c l IH]; cbn [losing_claim]; [done|].
      destruct (contains FILL_CLAIM_IDS c || String.eqb c SUPPORT_GENERATOR_CLAIM || _) eqn:Hskip.
      { intros Hl%IH. rewrite elem_of_cons. tauto. }
      destruct (winner_for _ _ _ !! (lm_stage m, c)) as [w|] eqn:Hw;
        [|intros Hl%IH; rewrite elem_of_cons; tauto].
      destruct (String.eqb_spec w (lm_id m)) as [|Hne]; [intros Hl%IH; rewrite elem_of_cons; tauto|].
      intros [= -> ->]. rewrite Hw. apply orb_false_iff in Hskip as [Hskip _].
      apply orb_false_iff in Hskip as [_ Hg%String.eqb_neq]. by repeat split; [left|..]. }
    destruct Hlose as (Hc & Hg & Hne & Hw). apply winner_holds in Hw as (Hf & Hs & Hm).
    split; [done|]. split; [done|]. done.
Qed.

(** When the preferred perimeter generator is a candidate of a contested stage
    — the classic one under spiral-vase mode or unless [wall_generator] says
    ["arachne"] — every kept holder of the claim in that stage is that module. *)
Theorem dedup_perimeter_choice (wall_generator : option ConfigValue) (spiral_vase : bool)
    (modules : list LoadedModule) (diagnostics : list LoadDiagnostic) (chosen other : LoadedModule)
    (stage : string) :
  NoDup (lm_id <$> modules) -> chosen ∈ modules -> other ∈ modules -> other <> chosen ->
  lm_id chosen = preferred_perimeters wall_generator spiral_vase ->
  contends chosen stage PERIMETER_GENERATOR_CLAIM -> contends other stage PERIMETER_GENERATOR_CLAIM ->
  forall m, m ∈ (dedup_same_claim_modules_typed wall_generator spiral_vase modules diagnostics).1 ->
    contends m stage PERIMETER_GENERATOR_CLAIM -> m = chosen.
Proof.
  intros Hnd Hc Ho Hne Hid Cc Co m [Hm Hl]%elem_of_kept Cm.
  assert (Hex : exclusive_claim PERIMETER_GENERATOR_CLAIM).
  { split; [|by split]. by apply (bool_decide_unpack _). }
  apply (same_id modules Hnd); [done|done|]. symmetry.
  eapply (kept_wins wall_generator spiral_vase modules Hnd m stage _ _ Hm Hl Hex Cm).
  rewrite winner_for_lookup. cbn [snd].
  assert (Hin : forall x, x ∈ modules -> contends x stage PERIMETER_GENERATOR_CLAIM -> lm_id x ∈
     default [] (candidates_for (sorted_modules modules) !! (stage, PERIMETER_GENERATOR_CLAIM))).
  { intros x Hx (Hs & Hcl & _). apply elem_of_candidates. split; [apply Hex|]. split; [done|]. eauto. }
  pose proof (Hin chosen Hc Cc) as I1. pose proof (Hin other Ho Co) as I2.
  destruct (candidates_for _ !! _) as [ids|]; cbn in I1, I2; [|by apply elem_of_nil in I1].
  cbn. unfold resolve_winner.
  destruct (two_members ids (lm_id chosen) (lm_id other) I1 I2) as [Hlen _].
  { intros Heq. apply Hne. by apply (same_id modules Hnd). }
  destruct (Nat.ltb_spec (length ids) 2); [lia|]. rewrite String.eqb_refl. cbn [andb].
  rewrite (proj2 (existsb_elem _ _)); [by rewrite Hid|].
  exists (lm_id chosen). split; [done|]. rewrite Hid. apply String.eqb_refl.
Qed.

(** ** Witnesses *)

Definition claiming (id : string) (claims : list string) : LoadedModule :=
  builder_build {| b_id := id; b_version := SemVer_default; b_stage := "Layer::Perimeters";
    b_wasm_path := ""; b_ir_reads := []; b_ir_writes := []; b_claims := claims;
    b_requires_claims := []; b_incompatible_with := []; b_requires_modules := [];
    b_min_host_version := SemVer_default; b_min_ir_schema := SemVer_default;
    b_max_ir_schema := SemVer_default; b_config_schema := {| cs_entries := ∅ |};
    b_layer_parallel_safe := false; b_placeholder_wasm := false; b_provenance := External;
    b_region_splits := []; b_paint_only := false |}.

Definition classic := claiming CLASSIC_PERIMETERS_MODULE_ID ["perimeter-generator"].
Definition arachne := claiming ARACHNE_PERIMETERS_MODULE_ID ["perimeter-generator"].

Lemma dedup_exclusive_holder_witness :
  NoDup (lm_id <$> [classic; arachne]) /\
  ~ (classic ∈ (dedup_same_claim_modules_typed None false [classic; arachne] []).1 /\
     arachne ∈ (dedup_same_claim_modules_typed None false [classic; arachne] []).1).
Proof.
  assert (Hnd : NoDup (lm_id <$> [classic; arachne])) by (apply (bool_decide_unpack _); exact I).
  split; [exact Hnd|]. intros [H1 H2].
  assert (Hex : exclusive_claim "perimeter-generator").
  { split; [apply (bool_decide_unpack _); exact I|]. split; [reflexivity|discriminate]. }
  assert (He : classic = arachne).
  { apply (dedup_exclusive_holder None false [classic; arachne] [] Hnd classic arachne
             "Layer::Perimeters" "perimeter-generator" H1 H2 Hex);
      (split; [reflexivity|]; split; [left|discriminate]). }
  discriminate He.
Defined.

Lemma dedup_perimeter_choice_witness :
  NoDup (lm_id <$> [classic; arachne]) /\
  forall m, m ∈ (dedup_same_claim_modules_typed (Some (CvString "arachne")) false [classic; arachne] []).1 ->
    contends m "Layer::Perimeters" PERIMETER_GENERATOR_CLAIM -> m = arachne.
Proof.
  assert (Hnd : NoDup (lm_id <$> [classic; arachne])) by (apply (bool_decide_unpack _); exact I).
  split; [exact Hnd|].
  apply (dedup_perimeter_choice (Some (CvString "arachne")) false [classic; arachne] [] arachne classic).
  - exact Hnd.
  - right. left.
  - left.
  - discriminate.
  - reflexivity.
  - split; [reflexivity|]. split; [left|discriminate].
  - split; [reflexivity|]. split; [left|discriminate].
Defined.

(** The winners are fixed before any module is dropped, so a module that wins
    one claim and loses another takes the won claim with it: of [a] holding [x], [b]
    holding [x] and [y], and [c] holding [y], only [a] is kept and [y] has no holder
    left, although every claim had one. *)
Theorem dedup_can_orphan_claim :
  let modules := [claiming "a" ["x"]; claiming "b" ["x"; "y"]; claiming "c" ["y"]] in
  let kept := (dedup_same_claim_modules_for_test modules []).1 in
  lm_id <$> kept = ["a"] /\
  Exists (fun m => "y" ∈ lm_claims m) modules /\ Forall (fun m => "y" ∉ lm_claims m) kept.
Proof.
  vm_compute. split; [reflexivity|]. split.
  - right. left. right. left.
  - constructor; [|constructor]. intros Hin. apply list_elem_of_singleton in Hin. discriminate.
Qed.
