(* ===== verification/ExecutionPlan.v ===== *)
(** Assembly of the immutable execution plan ([execution_plan.rs],
    [build_execution_plan]): resource bounds, module bindings, the four stage
    buckets, the always-on paint stage, and the index of active regions. *)
From Stdlib Require Import Sorted Ascii.
From stdpp Require Import prelude gmap strings list sorting.
From S2P Require Import Prelude Ir StageOrder Manifest Dag RegionSplit ConfigBinding.

#[local] Open Scope string_scope.
#[local] Open Scope list_scope.

(** ** Data *)

Record IrAccessMask := { paths : list string }.
#[export] Instance IrAccessMask_eq_dec : EqDecision IrAccessMask.
Proof. solve_decision. Defined.

Record CompiledModuleStatic := {
  cm_module_id : ModuleId;
  cm_ir_read_mask : IrAccessMask;
  cm_ir_write_mask : IrAccessMask;
  cm_config_view : ConfigView;
  cm_claims : list string;
  cm_requires_modules : list ModuleId;
  cm_region_split_semantics : gset string
}.

(** [CompiledModuleBuilder::new(id).build()]. *)
Definition compiled_module_new (module_id : ModuleId) : CompiledModuleStatic := {|
  cm_module_id := module_id;
  cm_ir_read_mask := {| paths := [] |}; cm_ir_write_mask := {| paths := [] |};
  cm_config_view := {| cv_fields := ∅ |}; cm_claims := []; cm_requires_modules := [];
  cm_region_split_semantics := ∅
|}.

Record CompiledStage := { cs_stage_id : StageId; cs_modules : list CompiledModuleStatic }.

Record SortedStageModules := { ss_stage_id : StageId; ss_module_ids : list ModuleId }.

Record ExecutionModuleBinding := { eb_module : LoadedModule; eb_config_view : ConfigView }.

(** [region_plans] is a [HashMap] that the planner only counts and passes on; it
    is the list of its entries. *)
Record ExecutionPlanRequest := {
  pr_sorted_stages : list SortedStageModules;
  pr_module_bindings : list ExecutionModuleBinding;
  pr_global_layers : list GlobalLayer;
  pr_region_plans : list (RegionKey * RegionPlan)
}.

Record ExecutionPlan := {
  ep_prepass_stages : list CompiledStage;
  ep_per_layer_stages : list CompiledStage;
  ep_layer_finalization_stage : option CompiledStage;
  ep_postpass_stages : list CompiledStage;
  ep_global_layers : list GlobalLayer;
  ep_region_plans : list (RegionKey * RegionPlan);
  ep_module_region_index : gmap (Z * ModuleId) (list ActiveRegion);
  ep_aggregated_region_split : gmap string AggregatedRegionSplitEntry
}.

Definition ExecutionPlan_default : ExecutionPlan := {|
  ep_prepass_stages := []; ep_per_layer_stages := []; ep_layer_finalization_stage := None;
  ep_postpass_stages := []; ep_global_layers := []; ep_region_plans := [];
  ep_module_region_index := ∅; ep_aggregated_region_split := ∅
|}.

Definition MAX_LAYER_INDEX : Z := 100000.

Inductive ExecutionPlanError :=
| MissingModuleBinding (stage_id : StageId) (module_id : ModuleId)
| StageMismatch (module_id : ModuleId) (expected_stage actual_stage : StageId)
| DuplicateModuleBinding (module_id : ModuleId)
| LayerIndexBudgetExceeded (layer_index budget : Z)
| RegionMapCapExceeded (entry_count cap : Z)
| UndeclaredConfigKey (module_id : ModuleId) (key : string).
#[export] Instance ExecutionPlanError_eq_dec : EqDecision ExecutionPlanError.
Proof. solve_decision. Defined.

(** ** Checks *)

Fixpoint check_layers (layers : list GlobalLayer) : result unit ExecutionPlanError :=
  match layers with
  | [] => Ok tt
  | layer :: rest =>
      if Z.leb MAX_LAYER_INDEX (gl_index layer)
      then Err (LayerIndexBudgetExceeded (gl_index layer) MAX_LAYER_INDEX)
      else check_layers rest
  end.

Definition check_region_cap (region_plans : list (RegionKey * RegionPlan))
    : result unit ExecutionPlanError :=
  let region_count := Z.of_nat (length region_plans) in
  if Z.ltb DEFAULT_REGION_MAP_CAP region_count
  then Err (RegionMapCapExceeded region_count DEFAULT_REGION_MAP_CAP) else Ok tt.

(** The declared-read guard of one binding. *)
Fixpoint check_view_keys (m : LoadedModule) (keys : list string) : result unit ExecutionPlanError :=
  match keys with
  | [] => Ok tt
  | key :: rest =>
      if negb (config_key_declared (cs_entries (lm_config_schema m)) key)
         && negb (is_support_family_module (lm_claims m)
                  && (String.eqb key SUPPORT_GENERATOR_CONFIG_KEY
                      || String.eqb key SUPPORT_FAMILY_CONFIG_KEY))
      then Err (UndeclaredConfigKey (lm_id m) key)
      else check_view_keys m rest
  end.

Fixpoint bind_modules (bindings : list ExecutionModuleBinding)
    (by_id : gmap ModuleId ExecutionModuleBinding)
    : result (gmap ModuleId ExecutionModuleBinding) ExecutionPlanError :=
  match bindings with
  | [] => Ok by_id
  | binding :: rest =>
      let module_id := lm_id (eb_module binding) in
      let? _ := check_view_keys (eb_module binding) (cv_keys (eb_config_view binding)) in
      match by_id !! module_id with
      | Some _ => Err (DuplicateModuleBinding module_id)
      | None => bind_modules rest (<[module_id := binding]> by_id)
      end
  end.

(** ** Stages *)

Definition compile_module (binding : ExecutionModuleBinding) : CompiledModuleStatic := {|
  cm_module_id := lm_id (eb_module binding);
  cm_ir_read_mask := {| paths := lm_ir_reads (eb_module binding) |};
  cm_ir_write_mask := {| paths := lm_ir_writes (eb_module binding) |};
  cm_config_view := eb_config_view binding;
  cm_claims := lm_claims (eb_module binding);
  cm_requires_modules := lm_requires_modules (eb_module binding);
  cm_region_split_semantics := lm_region_split_semantics (eb_module binding)
|}.

Fixpoint compile_modules (by_id : gmap ModuleId ExecutionModuleBinding) (stage_id : StageId)
    (module_ids : list ModuleId) : result (list CompiledModuleStatic) ExecutionPlanError :=
  match module_ids with
  | [] => Ok []
  | module_id :: rest =>
      match by_id !! module_id with
      | None => Err (MissingModuleBinding stage_id module_id)
      | Some binding =>
          if negb (String.eqb (lm_stage (eb_module binding)) stage_id)
          then Err (StageMismatch (lm_id (eb_module binding)) stage_id (lm_stage (eb_module binding)))
          else
            let? modules := compile_modules by_id stage_id rest in
            Ok (compile_module binding :: modules)
      end
  end.

Record Buckets := {
  bk_prepass : list CompiledStage;
  bk_per_layer : list CompiledStage;
  bk_finalization : option CompiledStage;
  bk_postpass : list CompiledStage
}.

Definition empty_buckets : Buckets :=
  {| bk_prepass := []; bk_per_layer := []; bk_finalization := None; bk_postpass := [] |}.

Definition place_stage (b : Buckets) (stage : CompiledStage) : Buckets :=
  if starts_with "PrePass::" (cs_stage_id stage) then
    {| bk_prepass := bk_prepass b ++ [stage]; bk_per_layer := bk_per_layer b;
       bk_finalization := bk_finalization b; bk_postpass := bk_postpass b |}
  else if starts_with "Layer::" (cs_stage_id stage) then
    {| bk_prepass := bk_prepass b; bk_per_layer := bk_per_layer b ++ [stage];
       bk_finalization := bk_finalization b; bk_postpass := bk_postpass b |}
  else if String.eqb (cs_stage_id stage) "PostPass::LayerFinalization" then
    {| bk_prepass := bk_prepass b; bk_per_layer := bk_per_layer b;
       bk_finalization := Some stage; bk_postpass := bk_postpass b |}
  else if starts_with "PostPass::" (cs_stage_id stage) then
    {| bk_prepass := bk_prepass b; bk_per_layer := bk_per_layer b;
       bk_finalization := bk_finalization b; bk_postpass := bk_postpass b ++ [stage] |}
  else b.

Fixpoint compile_stages (by_id : gmap ModuleId ExecutionModuleBinding)
    (stages : list SortedStageModules) (b : Buckets) : result Buckets ExecutionPlanError :=
  match stages with
  | [] => Ok b
  | stage :: rest =>
      let? modules := compile_modules by_id (ss_stage_id stage) (ss_module_ids stage) in
      match modules with
      | [] => compile_stages by_id rest b
      | _ => compile_stages by_id rest
               (place_stage b {| cs_stage_id := ss_stage_id stage; cs_modules := modules |})
      end
  end.

Definition paint_stage_id : string := "Layer::PaintRegionAnnotation".

Definition stages_after_paint : list string :=
  ["Layer::SlicePostProcess"; "Layer::Perimeters"; "Layer::PerimetersPostProcess"; "Layer::Infill";
   "Layer::InfillPostProcess"; "Layer::Support"; "Layer::SupportPostProcess";
   "Layer::PathOptimization"].

(** [per_layer_stages.insert(position.unwrap_or(len), paint)]. *)
Fixpoint insert_paint_at (stages : list CompiledStage) : list CompiledStage :=
  match stages with
  | [] => [{| cs_stage_id := paint_stage_id; cs_modules := [] |}]
  | s :: rest =>
      if existsb (String.eqb (cs_stage_id s)) stages_after_paint
      then {| cs_stage_id := paint_stage_id; cs_modules := [] |} :: s :: rest
      else s :: insert_paint_at rest
  end.

Definition insert_paint_stage (stages : list CompiledStage) : list CompiledStage :=
  if existsb (fun s => String.eqb (cs_stage_id s) paint_stage_id) stages then stages
  else insert_paint_at stages.

(** ** Region index *)

Definition matching_regions (claims : list string) (layer : GlobalLayer) : list ActiveRegion :=
  base.filter (fun region => module_claims_match_active_region claims region = true)
    (gl_active_regions layer).

(** [entry((layer, module)).or_default().extend(...)]. *)
Definition index_module (by_id : gmap ModuleId ExecutionModuleBinding) (layer : GlobalLayer)
    (index : gmap (Z * ModuleId) (list ActiveRegion)) (module_id : ModuleId)
    : gmap (Z * ModuleId) (list ActiveRegion) :=
  match by_id !! module_id with
  | Some binding =>
      <[(gl_index layer, module_id) :=
          default [] (index !! (gl_index layer, module_id)) ++
          matching_regions (lm_claims (eb_module binding)) layer]> index
  | None => index
  end.

Definition index_stage (by_id : gmap ModuleId ExecutionModuleBinding) (layer : GlobalLayer)
    (index : gmap (Z * ModuleId) (list ActiveRegion)) (stage : SortedStageModules)
    : gmap (Z * ModuleId) (list ActiveRegion) :=
  if starts_with "Layer::" (ss_stage_id stage)
  then foldl (index_module by_id layer) index (ss_module_ids stage)
  else index.

Definition module_region_index (by_id : gmap ModuleId ExecutionModuleBinding)
    (layers : list GlobalLayer) (stages : list SortedStageModules)
    : gmap (Z * ModuleId) (list ActiveRegion) :=
  foldl (fun index layer => foldl (index_stage by_id layer) index stages) ∅ layers.

(** ** The plan *)

(** The diagnostics change only when the plan is built. *)
Definition build_execution_plan (request : ExecutionPlanRequest)
    (diagnostics : list LoadDiagnostic)
    : result (ExecutionPlan * list LoadDiagnostic) ExecutionPlanError :=
  let? _ := check_layers (pr_global_layers request) in
  let? _ := check_region_cap (pr_region_plans request) in
  let? by_id := bind_modules (pr_module_bindings request) ∅ in
  let? buckets := compile_stages by_id (pr_sorted_stages request) empty_buckets in
  let index := module_region_index by_id (pr_global_layers request) (pr_sorted_stages request) in
  let '(aggregated, diagnostics) :=
    aggregate_region_splits (eb_module <$> pr_module_bindings request) diagnostics in
  Ok ({| ep_prepass_stages := bk_prepass buckets;
         ep_per_layer_stages := insert_paint_stage (bk_per_layer buckets);
         ep_layer_finalization_stage := bk_finalization buckets;
         ep_postpass_stages := bk_postpass buckets;
         ep_global_layers := pr_global_layers request;
         ep_region_plans := pr_region_plans request;
         ep_module_region_index := index;
         ep_aggregated_region_split := aggregated |}, diagnostics).

Definition resolve_active_regions (plan : ExecutionPlan) (layer : GlobalLayer)
    (module : CompiledModuleStatic) : list ActiveRegion :=
  default [] (ep_module_region_index plan !! (gl_index layer, cm_module_id module)).

(** ** When a plan is built *)

Record plan_valid (req : ExecutionPlanRequest) : Prop := {
  pv_layers : forall layer, layer ∈ pr_global_layers req -> (gl_index layer < MAX_LAYER_INDEX)%Z;
  pv_cap : (Z.of_nat (length (pr_region_plans req)) <= DEFAULT_REGION_MAP_CAP)%Z;
  pv_views : forall b key, b ∈ pr_module_bindings req -> key ∈ cv_keys (eb_config_view b) ->
    view_key_allowed (eb_module b) key = true;
  pv_ids : NoDup ((fun b => lm_id (eb_module b)) <$> pr_module_bindings req);
  pv_stages : forall stage id, stage ∈ pr_sorted_stages req -> id ∈ ss_module_ids stage ->
    exists b, b ∈ pr_module_bindings req /\ lm_id (eb_module b) = id /\
      lm_stage (eb_module b) = ss_stage_id stage
}.

Lemma check_layers_spec layers :
  match List.find (fun layer => Z.leb MAX_LAYER_INDEX (gl_index layer)) layers with
  | Some layer => check_layers layers = Err (LayerIndexBudgetExceeded (gl_index layer) MAX_LAYER_INDEX)
  | None => check_layers layers = Ok tt
  end.
Proof. induction layers as [|l layers IH]; cbn; [done|]. by destruct (Z.leb _ _). Qed.

Lemma check_layers_ok layers :
  check_layers layers = Ok tt <-> forall l, l ∈ layers -> (gl_index l < MAX_LAYER_INDEX)%Z.
Proof.
  induction layers as [|l layers IH]; cbn [check_layers].
  - split; [|done]. intros _ l Hl. by apply elem_of_nil in Hl.
  - destruct (Z.leb_spec MAX_LAYER_INDEX (gl_index l)).
    + split; [done|]. intros Hall. specialize (Hall l (list_elem_of_here _ _)). lia.
    + rewrite IH. split.
      * intros Hall x [->|Hx]%elem_of_cons; auto.
      * intros Hall x Hx. apply Hall. by right.
Qed.

Lemma check_view_keys_ok m keys :
  check_view_keys m keys = Ok tt <-> forall key, key ∈ keys -> view_key_allowed m key = true.
Proof.
  induction keys as [|key keys IH]; cbn [check_view_keys].
  - split; [|done]. intros _ k Hk. by apply elem_of_nil in Hk.
  - rewrite <-negb_orb. fold (view_key_allowed m key). destruct (view_key_allowed m key) eqn:Hk; cbn [negb].
    + rewrite IH. split.
      * intros Hall x [->|Hx]%elem_of_cons; auto.
      * intros Hall x Hx. apply Hall. by right.
    + split; [done|]. intros Hall. specialize (Hall key (list_elem_of_here _ _)). congruence.
Qed.

(** The table of bindings, when all of them are admitted. *)
Definition bindings_map (bindings : list ExecutionModuleBinding) : gmap ModuleId ExecutionModuleBinding :=
  map_collect ((fun b => (lm_id (eb_module b), b)) <$> bindings).

Definition bindings_ok (bindings : list ExecutionModuleBinding) : Prop :=
  (forall b key, b ∈ bindings -> key ∈ cv_keys (eb_config_view b) ->
     view_key_allowed (eb_module b) key = true) /\
  NoDup ((fun b => lm_id (eb_module b)) <$> bindings).

Lemma bind_modules_gen done_ bindings :
  NoDup ((fun b => lm_id (eb_module b)) <$> done_) ->
  (forall by_id, bind_modules bindings (bindings_map done_) = Ok by_id <->
    by_id = bindings_map (done_ ++ bindings) /\
    (forall b key, b ∈ bindings -> key ∈ cv_keys (eb_config_view b) ->
       view_key_allowed (eb_module b) key = true) /\
    NoDup ((fun b => lm_id (eb_module b)) <$> done_ ++ bindings)).
Proof.
  revert done_; induction bindings as [|b bindings IH]; intros done_ Hnd by_id; cbn [bind_modules].
  - rewrite app_nil_r. split.
    + intros [= <-]. split; [done|]. split; [|done]. intros b key Hb. by apply elem_of_nil in Hb.
    + by intros [-> _].
  - destruct (check_view_keys (eb_module b) (cv_keys (eb_config_view b))) as [[]|e] eqn:Hk; cbn [result_bind].
    2: { split; [done|]. intros (_ & Hall & _). exfalso.
         assert (check_view_keys (eb_module b) (cv_keys (eb_config_view b)) = Ok tt); [|congruence].
         apply check_view_keys_ok. intros key Hkey. apply (Hall b); [left|done]. }
    pose proof (proj1 (check_view_keys_ok _ _) Hk) as Hkeys.
    assert (Hdom : is_Some (bindings_map done_ !! lm_id (eb_module b)) <->
              lm_id (eb_module b) ∈ (fun b => lm_id (eb_module b)) <$> done_).
    { unfold bindings_map. by rewrite map_collect_is_Some, <-list_fmap_compose. }
    replace (done_ ++ b :: bindings) with ((done_ ++ [b]) ++ bindings) by (by rewrite <-(assoc_L (++))).
    destruct (bindings_map done_ !! lm_id (eb_module b)) as [b'|] eqn:Hb.
    + split; [done|]. intros (_ & _ & Hno). exfalso.
      rewrite fmap_app in Hno. apply NoDup_app in Hno as [Hno _].
      rewrite fmap_app in Hno. apply NoDup_app in Hno as (_ & Hno & _).
      apply (Hno (lm_id (eb_module b))); [apply Hdom; eauto|left].
    + assert (Hins : <[lm_id (eb_module b) := b]> (bindings_map done_) = bindings_map (done_ ++ [b]))
        by (unfold bindings_map; rewrite fmap_app; symmetry; apply map_collect_snoc).
      rewrite Hins, IH.
      * split; intros (-> & Hall & Hn); (split; [done|]); (split; [|done]).
        -- intros x key [->|Hx]%elem_of_cons; [auto|by apply Hall].
        -- intros x key Hx. apply Hall. by right.
      * rewrite fmap_app. apply NoDup_app. split; [done|]. split; [|apply NoDup_singleton].
        intros x Hx ->%list_elem_of_singleton. apply Hdom in Hx as [? ?]. done.
Qed.

Lemma bind_modules_ok bindings by_id :
  bind_modules bindings ∅ = Ok by_id <-> by_id = bindings_map bindings /\ bindings_ok bindings.
Proof. apply (bind_modules_gen []). constructor. Qed.

Lemma bindings_map_lookup bindings id b :
  NoDup ((fun b => lm_id (eb_module b)) <$> bindings) ->
  bindings_map bindings !! id = Some b <-> b ∈ bindings /\ lm_id (eb_module b) = id.
Proof.
  intros Hnd. unfold bindings_map.
  rewrite map_collect_lookup by (by rewrite <-list_fmap_compose). rewrite list_elem_of_fmap.
  split; [by intros (b' & [= -> ->] & ?)|]. intros [Hb <-]. by exists b.
Qed.

Lemma compile_modules_ok by_id stage_id ids r :
  compile_modules by_id stage_id ids = Ok r <->
  Forall2 (fun id m => exists b, by_id !! id = Some b /\ lm_stage (eb_module b) = stage_id /\
                         m = compile_module b) ids r.
Proof.
  revert r; induction ids as [|id ids IH]; intros r; cbn [compile_modules].
  - split; [intros [= <-]; constructor|]. by inversion 1.
  - destruct (by_id !! id) as [b|] eqn:Hb.
    2: { split; [done|]. inversion 1; subst. naive_solver. }
    destruct (String.eqb_spec (lm_stage (eb_module b)) stage_id) as [Hs|Hs]; cbn [negb].
    2: { split; [done|]. inversion 1; subst. naive_solver. }
    destruct (compile_modules by_id stage_id ids) as [ms|e] eqn:Hms; cbn [result_bind].
    + split.
      * intros [= <-]. constructor; [by exists b|]. by apply IH.
      * inversion 1 as [|? m ? ms' (b' & Hb' & _ & ->) Hr]; subst. apply IH in Hr.
        congruence.
    + split; [done|]. inversion 1 as [|? m ? ms' _ Hr]; subst. apply IH in Hr. done.
Qed.

(** The compiled form of a stage. *)
Definition compiled_stage (by_id : gmap ModuleId ExecutionModuleBinding)
    (stage : SortedStageModules) : CompiledStage :=
  {| cs_stage_id := ss_stage_id stage;
     cs_modules := omap (fun id => compile_module <$> by_id !! id) (ss_module_ids stage) |}.

Definition compiled_stages (by_id : gmap ModuleId ExecutionModuleBinding)
    (stages : list SortedStageModules) : list CompiledStage :=
  compiled_stage by_id <$> base.filter (fun s => ss_module_ids s <> []) stages.

Definition stage_compiles (by_id : gmap ModuleId ExecutionModuleBinding)
    (stage : SortedStageModules) : Prop :=
  forall id, id ∈ ss_module_ids stage ->
    exists b, by_id !! id = Some b /\ lm_stage (eb_module b) = ss_stage_id stage.

Lemma compile_modules_stage by_id stage r :
  compile_modules by_id (ss_stage_id stage) (ss_module_ids stage) = Ok r <->
  r = cs_modules (compiled_stage by_id stage) /\ stage_compiles by_id stage.
Proof.
  rewrite compile_modules_ok. unfold stage_compiles. cbn [compiled_stage cs_modules].
  generalize (ss_stage_id stage). intros sid. induction (ss_module_ids stage) as [|id ids IH] in r |- *.
  - split; [inversion 1; subst; split; [done|]; intros ? Hi; by apply elem_of_nil in Hi|].
    intros [-> _]. constructor.
  - split.
    + inversion 1 as [|? m ? ms (b & Hb & Hs & ->) Hr]; subst. apply IH in Hr as [-> Hall].
      cbn. rewrite Hb. split; [done|]. intros x [->|Hx]%elem_of_cons; eauto.
    + intros [-> Hall]. destruct (Hall id) as (b & Hb & Hs); [left|]. cbn. rewrite Hb. cbn.
      constructor; [by exists b|]. apply IH. split; [done|]. intros x Hx. apply Hall. by right.
Qed.

Lemma compile_stages_ok by_id stages b r :
  compile_stages by_id stages b = Ok r <->
  r = foldl place_stage b (compiled_stages by_id stages) /\
  forall stage, stage ∈ stages -> stage_compiles by_id stage.
Proof.
  revert b; induction stages as [|stage stages IH]; intros b; cbn [compile_stages].
  - split; [intros [= <-]; split; [done|]; intros ? Hi; by apply elem_of_nil in Hi|]. by intros [-> _].
  - destruct (compile_modules by_id (ss_stage_id stage) (ss_module_ids stage)) as [ms|e] eqn:Hms;
      cbn [result_bind].
    2: { split; [done|]. intros [_ Hall]. exfalso.
         assert (compile_modules by_id (ss_stage_id stage) (ss_module_ids stage) =
                 Ok (cs_modules (compiled_stage by_id stage))); [|congruence].
         apply compile_modules_stage. split; [done|]. apply Hall. left. }
    apply compile_modules_stage in Hms as [-> Hc].
    assert (Hstep : match cs_modules (compiled_stage by_id stage) with
        | [] => compile_stages by_id stages b
        | _ => compile_stages by_id stages (place_stage b
                 {| cs_stage_id := ss_stage_id stage;
                    cs_modules := cs_modules (compiled_stage by_id stage) |})
        end = compile_stages by_id stages
                (foldl place_stage b (compiled_stages by_id [stage]))).
    { unfold compiled_stages. destruct (ss_module_ids stage) as [|id ids] eqn:Hids.
      - rewrite filter_cons_False by (rewrite Hids; by intros Hx). cbn. by rewrite Hids.
      - rewrite filter_cons_True by (by rewrite Hids).
        destruct (Hc id) as (bd & Hb & _); [rewrite Hids; left|].
        unfold compiled_stage. cbn. rewrite Hids. cbn. rewrite Hb. done. }
    rewrite Hstep, IH.
    assert (Happ : compiled_stages by_id (stage :: stages) =
              compiled_stages by_id [stage] ++ compiled_stages by_id stages).
    { unfold compiled_stages. change (stage :: stages) with ([stage] ++ stages).
      by rewrite filter_app, fmap_app. }
    rewrite Happ, foldl_app. split; intros [-> Hall]; (split; [done|]).
    + intros x [->|Hx]%elem_of_cons; auto.
    + intros x Hx. apply Hall. by right.
Qed.

(** The plan of a valid request, as a closed expression. *)
Definition built_plan (req : ExecutionPlanRequest) (diagnostics : list LoadDiagnostic)
    : ExecutionPlan * list LoadDiagnostic :=
  let by_id := bindings_map (pr_module_bindings req) in
  let b := foldl place_stage empty_buckets (compiled_stages by_id (pr_sorted_stages req)) in
  let agg := aggregate_region_splits (eb_module <$> pr_module_bindings req) diagnostics in
  ({| ep_prepass_stages := bk_prepass b;
      ep_per_layer_stages := insert_paint_stage (bk_per_layer b);
      ep_layer_finalization_stage := bk_finalization b;
      ep_postpass_stages := bk_postpass b;
      ep_global_layers := pr_global_layers req;
      ep_region_plans := pr_region_plans req;
      ep_module_region_index :=
        module_region_index by_id (pr_global_layers req) (pr_sorted_stages req);
      ep_aggregated_region_split := agg.1 |}, agg.2).

Lemma plan_valid_parts req :
  plan_valid req <->
  (forall l, l ∈ pr_global_layers req -> (gl_index l < MAX_LAYER_INDEX)%Z) /\
  (Z.of_nat (length (pr_region_plans req)) <= DEFAULT_REGION_MAP_CAP)%Z /\
  bindings_ok (pr_module_bindings req) /\
  forall stage, stage ∈ pr_sorted_stages req ->
    stage_compiles (bindings_map (pr_module_bindings req)) stage.
Proof.
  split.
  - intros [Hl Hc Hv Hn Hs]. split; [done|]. split; [done|]. split; [by split|].
    intros stage Hstage id Hid. destruct (Hs stage id Hstage Hid) as (b & Hb & Hbid & Hst).
    exists b. split; [|done]. by apply bindings_map_lookup.
  - intros (Hl & Hc & [Hv Hn] & Hs). constructor; try done. intros stage id Hstage Hid.
    destruct (Hs stage Hstage id Hid) as (b & Hb & Hst). apply bindings_map_lookup in Hb as [? ?]; [|done].
    by exists b.
Qed.

Lemma build_execution_plan_ok req diagnostics r :
  build_execution_plan req diagnostics = Ok r <->
  plan_valid req /\ r = built_plan req diagnostics.
Proof.
  rewrite plan_valid_parts. unfold build_execution_plan.
  pose proof (check_layers_ok (pr_global_layers req)) as Hl.
  destruct (check_layers (pr_global_layers req)) as [[]|e]; cbn [result_bind];
    [|split; [done|intros [[Hall _] _]; by apply Hl in Hall]].
  unfold check_region_cap.
  destruct (Z.ltb_spec DEFAULT_REGION_MAP_CAP (Z.of_nat (length (pr_region_plans req)))) as [Hcap|Hcap];
    cbn [result_bind]; [split; [done|intros [(_ & ? & _) _]; lia]|].
  pose proof (bind_modules_ok (pr_module_bindings req)) as Hb.
  destruct (bind_modules (pr_module_bindings req) ∅) as [by_id|e]; cbn [result_bind].
  2: { split; [done|]. intros [(_ & _ & Hok & _) _].
       by discriminate (proj2 (Hb _) (conj eq_refl Hok)). }
  destruct (proj1 (Hb by_id) eq_refl) as [-> Hbok].
  pose proof (compile_stages_ok (bindings_map (pr_module_bindings req)) (pr_sorted_stages req) empty_buckets) as Hs.
  destruct (compile_stages _ _ _) as [buckets|e]; cbn [result_bind].
  2: { split; [done|]. intros [(_ & _ & _ & Hall) _]. by discriminate (proj2 (Hs _) (conj eq_refl Hall)). }
  destruct (proj1 (Hs buckets) eq_refl) as [-> Hsok]. unfold built_plan.
  destruct (aggregate_region_splits _ diagnostics) as [agg ds]. cbn [fst snd]. split.
  - intros [= <-]. split; [|done]. split; [by apply Hl|]. done.
  - by intros [_ ->].
Qed.

(** [C40].  A plan is built exactly for the valid requests: every layer index is under
    the budget, the region map under its cap, no bound view exposes an undeclared key,
    module ids are distinct, and every scheduled module is bound and declares the stage
    it is scheduled in.  Otherwise the first failing check is reported; the layer
    budget comes before the region cap, and that before the bindings. *)
Theorem build_execution_plan_succeeds (req : ExecutionPlanRequest)
    (diagnostics : list LoadDiagnostic) :
  ((exists r, build_execution_plan req diagnostics = Ok r) <-> plan_valid req) /\
  match List.find (fun layer => Z.leb MAX_LAYER_INDEX (gl_index layer)) (pr_global_layers req) with
  | Some layer => build_execution_plan req diagnostics =
      Err (LayerIndexBudgetExceeded (gl_index layer) MAX_LAYER_INDEX)
  | None =>
      let region_count := Z.of_nat (length (pr_region_plans req)) in
      if Z.ltb DEFAULT_REGION_MAP_CAP region_count
      then build_execution_plan req diagnostics =
             Err (RegionMapCapExceeded region_count DEFAULT_REGION_MAP_CAP)
      else forall e, bind_modules (pr_module_bindings req) ∅ = Err e ->
             build_execution_plan req diagnostics = Err e
  end.
Proof.
  split.
  - split.
    + intros (r & Hr). by apply build_execution_plan_ok in Hr as [? _].
    + intros Hv. exists (built_plan req diagnostics). by apply build_execution_plan_ok.
  - unfold build_execution_plan. pose proof (check_layers_spec (pr_global_layers req)) as Hl.
    destruct (List.find _ _) as [layer|]; rewrite Hl; cbn [result_bind]; [done|].
    unfold check_region_cap. cbn zeta. destruct (Z.ltb _ _); cbn [result_bind]; [done|].
    by intros e ->.
Qed.

(** The plan of a build whose views were all bound by [bind_module_config_view]
    never fails on an undeclared key: the binding helper discharges the declared-read
    guard. *)
Theorem bound_views_pass_guard (req : ExecutionPlanRequest) (resolved : ResolvedConfig)
    (diagnostics : list LoadDiagnostic) :
  (forall b, b ∈ pr_module_bindings req ->
     eb_config_view b = bind_module_config_view (eb_module b) resolved) ->
  forall module_id key,
    build_execution_plan req diagnostics <> Err (UndeclaredConfigKey module_id key).
Proof.
  intros Hviews module_id key. unfold build_execution_plan.
  assert (Hlayers : forall layers e, check_layers layers = Err e ->
            exists i, e = LayerIndexBudgetExceeded i MAX_LAYER_INDEX).
  { induction layers as [|l layers IH]; intros e; cbn; [done|].
    destruct (Z.leb _ _); [intros [= <-]; eauto|apply IH]. }
  destruct (check_layers _) as [[]|e] eqn:Hl; cbn [result_bind];
    [|intros [= ->]; by destruct (Hlayers _ _ Hl)].
  unfold check_region_cap. destruct (Z.ltb _ _); cbn [result_bind]; [done|].
  assert (Hbind : forall bindings by_id, (forall b, b ∈ bindings ->
            eb_config_view b = bind_module_config_view (eb_module b) resolved) ->
            bind_modules bindings by_id <> Err (UndeclaredConfigKey module_id key)).
  { induction bindings as [|b bindings IH]; intros by_id Hall; cbn [bind_modules]; [done|].
    rewrite (proj2 (check_view_keys_ok (eb_module b) (cv_keys (eb_config_view b)))).
    - cbn [result_bind]. destruct (by_id !! _); [done|]. apply IH. intros x Hx. apply Hall. by right.
    - rewrite (Hall b) by left. apply bind_module_config_view_sound_keys. }
  destruct (bind_modules _ _) as [by_id|e] eqn:Hb; cbn [result_bind];
    [|intros [= ->]; by apply (Hbind _ _ Hviews Hb)].
  assert (Hmods : forall sid ids, compile_modules by_id sid ids <> Err (UndeclaredConfigKey module_id key)).
  { intros sid. induction ids as [|id ids IH]; cbn [compile_modules]; [done|].
    destruct (by_id !! id); [|done]. destruct (negb _); [done|].
    destruct (compile_modules by_id sid ids) as [ms|err]; cbn [result_bind]; [done|].
    intros [= ->]. by apply IH. }
  assert (Hstages : forall stages b, compile_stages by_id stages b <> Err (UndeclaredConfigKey module_id key)).
  { induction stages as [|s stages IH]; intros b; cbn [compile_stages]; [done|].
    destruct (compile_modules by_id _ _) as [ms|e] eqn:Hm; cbn [result_bind];
      [destruct ms; apply IH|]. intros [= ->]. by apply (Hmods _ _ Hm). }
  destruct (compile_stages _ _ _) as [bk|e] eqn:Hc; cbn [result_bind].
  - by destruct (aggregate_region_splits _ _).
  - intros [= ->]. by apply (Hstages _ _ Hc).
Qed.

(** ** Order of the stages *)

(** The bucket of a stage id: prepass, per-layer, finalization, postpass. *)
Definition stage_bucket (id : StageId) : nat :=
  if starts_with "PrePass::" id then 0
  else if starts_with "Layer::" id then 1
  else if String.eqb id "PostPass::LayerFinalization" then 2
  else if starts_with "PostPass::" id then 3 else 4.

Definition in_bucket (k : nat) (stages : list CompiledStage) : list CompiledStage :=
  base.filter (fun s => stage_bucket (cs_stage_id s) = k) stages.

Lemma fold_place_stage b stages :
  let r := foldl place_stage b stages in
  bk_prepass r = bk_prepass b ++ in_bucket 0 stages /\
  bk_per_layer r = bk_per_layer b ++ in_bucket 1 stages /\
  bk_finalization r = match last (in_bucket 2 stages) with Some s => Some s | None => bk_finalization b end /\
  bk_postpass r = bk_postpass b ++ in_bucket 3 stages.
Proof.
  unfold in_bucket. induction stages as [|s stages IH] using rev_ind; [by rewrite !app_nil_r|].
  cbn zeta in *. rewrite foldl_app, !filter_app. cbn [foldl].
  set (r := foldl place_stage b stages) in *. destruct IH as (H0 & H1 & H2 & H3).
  unfold place_stage. rewrite !filter_cons, !filter_nil.
  assert (Hb : stage_bucket (cs_stage_id s) = if starts_with "PrePass::" (cs_stage_id s) then 0
    else if starts_with "Layer::" (cs_stage_id s) then 1
    else if String.eqb (cs_stage_id s) "PostPass::LayerFinalization" then 2
    else if starts_with "PostPass::" (cs_stage_id s) then 3 else 4) by done.
  destruct (starts_with "PrePass::" _); [|destruct (starts_with "Layer::" _);
    [|destruct (String.eqb _ _); [|destruct (starts_with "PostPass::" _)]]];
    rewrite !Hb; cbn [bk_prepass bk_per_layer bk_finalization bk_postpass decide];
    repeat (case_decide; try done); rewrite ?app_nil_r, ?last_snoc, ?H0, ?H1, ?H2, ?H3, ?(assoc_L (++));
    by split_and!.
Qed.

(** [a] comes before [b] in the canonical stage order. *)
Definition stage_before (a b : StageId) : bool :=
  match stage_order_index !! a, stage_order_index !! b with
  | Some i, Some j => Nat.ltb i j
  | _, _ => false
  end.

Definition stages_ordered (ids : list StageId) : Prop :=
  Forall (fun id => id ∈ STAGE_ORDER) ids /\ sorted_by stage_before ids.

Lemma stage_before_bucket a b :
  a ∈ STAGE_ORDER -> b ∈ STAGE_ORDER -> stage_before a b = true -> stage_bucket a <= stage_bucket b.
Proof.
  assert (Hall : Forall (fun a => Forall (fun b =>
    implb (stage_before a b) (Nat.leb (stage_bucket a) (stage_bucket b)) = true) STAGE_ORDER) STAGE_ORDER)
    by (apply (bool_decide_unpack _); vm_compute; exact I).
  rewrite Forall_forall in Hall. intros Ha Hb Hab. specialize (Hall a Ha).
  rewrite Forall_forall in Hall. specialize (Hall b Hb). rewrite Hab in Hall. by apply Nat.leb_le.
Qed.

Lemma stage_bucket_known a : a ∈ STAGE_ORDER -> stage_bucket a <= 3.
Proof.
  assert (Hall : Forall (fun a => Nat.leb (stage_bucket a) 3 = true) STAGE_ORDER)
    by (apply (bool_decide_unpack _); vm_compute; exact I).
  rewrite Forall_forall in Hall. intros Ha. by apply Nat.leb_le, Hall.
Qed.

(** The only per-layer stages that [insert_paint_at] skips are the paint stage and
    the anchored events. *)
Lemma layer_stage_cases a :
  a ∈ STAGE_ORDER -> stage_bucket a = 1 -> a <> paint_stage_id ->
  (existsb (String.eqb a) stages_after_paint = true \/ a = "Layer::AnchoredEvents") /\
  stage_before paint_stage_id a = true.
Proof.
  assert (Hall : Forall (fun a => stage_bucket a = 1 -> a <> paint_stage_id ->
      (existsb (String.eqb a) stages_after_paint = true \/ a = "Layer::AnchoredEvents") /\
      stage_before paint_stage_id a = true) STAGE_ORDER).
  { apply (bool_decide_unpack _). vm_compute. exact I. }
  rewrite Forall_forall in Hall. intros Ha. by apply Hall.
Qed.

(** A sorted list splits at a class that is closed under predecessors. *)
Lemma sorted_split {A} (R : A -> A -> Prop) (P : A -> Prop) `{forall x, Decision (P x)} l :
  StronglySorted R l -> (forall x y, x ∈ l -> y ∈ l -> R x y -> P y -> P x) ->
  l = base.filter P l ++ base.filter (fun x => ~ P x) l.
Proof.
  induction 1 as [|x l Hl IH Hx]; intros Hcl; [done|].
  destruct (decide (P x)) as [Hp|Hp].
  - rewrite filter_cons_True, (filter_cons_False (fun x => ~ P x)) by naive_solver. cbn. f_equal.
    apply IH. intros y z Hy Hz. apply Hcl; by right.
  - rewrite filter_cons_False, (filter_cons_True (fun x => ~ P x)) by done.
    assert (Hnone : base.filter P l = []).
    { apply list_nil_elem. intros y [Hpy Hy]%list_elem_of_filter. apply Hp.
      rewrite Forall_forall in Hx. apply (Hcl x y); [left|by right|by apply Hx|done]. }
    rewrite Hnone in IH |- *. cbn. f_equal. apply IH. intros y z Hy Hz. apply Hcl; by right.
Qed.

Definition stage_lt (a b : CompiledStage) : Prop := stage_before (cs_stage_id a) (cs_stage_id b) = true.

Definition known_stages (stages : list CompiledStage) : Prop :=
  Forall (fun s => cs_stage_id s ∈ STAGE_ORDER) stages.

Lemma StronglySorted_fmap_iff {A B} (f : A -> B) (R : B -> B -> Prop) l :
  StronglySorted R (f <$> l) <-> StronglySorted (fun a b => R (f a) (f b)) l.
Proof.
  induction l as [|x l IH]; [split; constructor|]. cbn. split; inversion_clear 1 as [|? ? Hl Hx];
    (constructor; [by apply IH|]); [exact (proj1 (Forall_fmap f _ _) Hx)|exact (proj2 (Forall_fmap f _ _) Hx)].
Qed.

Lemma stage_lt_irrefl s : ~ stage_lt s s.
Proof.
  unfold stage_lt, stage_before. destruct (stage_order_index !! _) as [i|]; [|done].
  rewrite Nat.ltb_irrefl. done.
Qed.

Lemma in_bucket_cons k s stages :
  in_bucket k (s :: stages) =
  if decide (stage_bucket (cs_stage_id s) = k) then s :: in_bucket k stages else in_bucket k stages.
Proof. unfold in_bucket. by rewrite filter_cons. Qed.

Lemma in_bucket_empty k s stages :
  known_stages (s :: stages) -> Forall (stage_lt s) stages -> k < stage_bucket (cs_stage_id s) ->
  in_bucket k stages = [].
Proof.
  intros [Hs Hk]%Forall_cons Hlt Hb. apply list_nil_elem. intros y [Hy Hin]%list_elem_of_filter.
  unfold known_stages in Hk. rewrite Forall_forall in Hk, Hlt.
  pose proof (stage_before_bucket _ _ Hs (Hk y Hin) (Hlt y Hin)). lia.
Qed.

(** In canonical order the buckets are consecutive. *)
Lemma buckets_concat stages :
  known_stages stages -> StronglySorted stage_lt stages ->
  stages = in_bucket 0 stages ++ in_bucket 1 stages ++ in_bucket 2 stages ++ in_bucket 3 stages.
Proof.
  intros Hk Hs. induction Hs as [|s stages Hs IH Hlt]; [done|].
  pose proof (in_bucket_empty 0 s stages Hk Hlt) as E0.
  pose proof (in_bucket_empty 1 s stages Hk Hlt) as E1.
  pose proof (in_bucket_empty 2 s stages Hk Hlt) as E2.
  apply Forall_cons in Hk as [Hks Hk]. specialize (IH Hk).
  pose proof (stage_bucket_known _ Hks) as Hle. rewrite !in_bucket_cons.
  destruct (stage_bucket (cs_stage_id s)) as [|[|[|[|k]]]]; [| | | |lia];
    repeat (first [rewrite decide_True by lia | rewrite decide_False by lia]); cbn [app].
  - by rewrite <-IH.
  - rewrite E0 in IH |- * by lia. cbn [app] in *. by rewrite <-IH.
  - rewrite E0, E1 in IH |- * by lia. cbn [app] in *. by rewrite <-IH.
  - rewrite E0, E1, E2 in IH |- * by lia. cbn [app] in *. by rewrite <-IH.
Qed.

Lemma finalization_single stages :
  StronglySorted stage_lt stages ->
  in_bucket 2 stages = option_list (last (in_bucket 2 stages)).
Proof.
  intros Hs.
  assert (Hs2 : StronglySorted stage_lt (in_bucket 2 stages)).
  { exact (sorted_by_sublist (fun a b => stage_before (cs_stage_id a) (cs_stage_id b))
      _ _ (filter_sublist _ stages) Hs). }
  assert (Hid : Forall (fun s => cs_stage_id s = "PostPass::LayerFinalization") (in_bucket 2 stages)).
  { apply Forall_forall. intros s [Hb _]%list_elem_of_filter. unfold stage_bucket in Hb.
    destruct (starts_with "PrePass::" _); [done|]. destruct (starts_with "Layer::" _); [done|].
    destruct (String.eqb_spec (cs_stage_id s) "PostPass::LayerFinalization"); [done|].
    by destruct (starts_with "PostPass::" _). }
  destruct (in_bucket 2 stages) as [|a [|b l]]; [done..|]. exfalso.
  inversion_clear Hs2 as [|? ? _ Hab]. apply Forall_cons in Hab as [Hab _].
  apply Forall_cons in Hid as [Ha Hid]. apply Forall_cons in Hid as [Hb _].
  unfold stage_lt in Hab. rewrite Ha, Hb in Hab. discriminate Hab.
Qed.

Lemma paint_position a :
  a ∈ STAGE_ORDER ->
  (stage_bucket a = 0 -> stage_before a paint_stage_id = true) /\
  (stage_bucket a <> 0 -> a <> paint_stage_id -> stage_before paint_stage_id a = true).
Proof.
  assert (Hall : Forall (fun a =>
      (stage_bucket a = 0 -> stage_before a paint_stage_id = true) /\
      (stage_bucket a <> 0 -> a <> paint_stage_id -> stage_before paint_stage_id a = true)) STAGE_ORDER).
  { apply (bool_decide_unpack _). vm_compute. exact I. }
  rewrite Forall_forall in Hall. apply Hall.
Qed.

Definition paint_stage : CompiledStage := {| cs_stage_id := paint_stage_id; cs_modules := [] |}.

(** Whether the paint stage would be inserted in front: no stage, or not the
    anchored events, leads the per-layer stages. *)
Definition paint_goes_first (stages : list CompiledStage) : Prop :=
  match stages with s :: _ => cs_stage_id s <> "Layer::AnchoredEvents" | [] => True end.

Lemma insert_paint_first stages :
  known_stages stages -> Forall (fun s => stage_bucket (cs_stage_id s) = 1) stages ->
  paint_goes_first stages -> paint_stage_id ∉ cs_stage_id <$> stages ->
  insert_paint_stage stages = paint_stage :: stages.
Proof.
  intros Hk Hb Hfirst Hno. unfold insert_paint_stage.
  destruct (existsb _ stages) eqn:He.
  - exfalso. apply existsb_elem in He as (s & Hs & Heq%String.eqb_eq).
    apply Hno. rewrite <-Heq. by apply list_elem_of_fmap_2.
  - destruct stages as [|s stages]; [done|]. cbn [insert_paint_at].
    apply Forall_cons in Hk as [Hk _]. apply Forall_cons in Hb as [Hb _].
    destruct (layer_stage_cases (cs_stage_id s) Hk Hb) as [[-> | ?] _]; [|done|done].
    intros Heq. apply Hno. rewrite <-Heq. left.
Qed.

(** The stages of a plan in execution order. *)
Definition execution_sequence (plan : ExecutionPlan) : list CompiledStage :=
  ep_prepass_stages plan ++ ep_per_layer_stages plan ++
  option_list (ep_layer_finalization_stage plan) ++ ep_postpass_stages plan.

(** [C15].  When the request lists its stages in canonical order, the plan executes
    them in canonical order: prepass, per-layer, finalization and postpass stages
    concatenate to a strictly ordered sequence that holds every non-empty requested
    stage and the always-on paint stage, and nothing else — provided the first
    non-empty per-layer stage is not the anchored events. *)
Theorem plan_execution_order (req : ExecutionPlanRequest) (diagnostics : list LoadDiagnostic)
    (plan : ExecutionPlan) (diagnostics' : list LoadDiagnostic) :
  build_execution_plan req diagnostics = Ok (plan, diagnostics') ->
  stages_ordered (ss_stage_id <$> pr_sorted_stages req) ->
  let compiled := compiled_stages (bindings_map (pr_module_bindings req)) (pr_sorted_stages req) in
  paint_goes_first (in_bucket 1 compiled) ->
  let sequence := execution_sequence plan in
  StronglySorted stage_lt sequence /\ paint_stage_id ∈ cs_stage_id <$> sequence /\
  forall s, s ∈ sequence <-> s ∈ compiled \/ (s = paint_stage /\ paint_stage_id ∉ cs_stage_id <$> compiled).
Proof.
  intros [Hv Heq]%build_execution_plan_ok [Hknown Hsorted] compiled Hfirst sequence.
  assert (Hids : cs_stage_id <$> compiled `sublist_of` ss_stage_id <$> pr_sorted_stages req).
  { unfold compiled, compiled_stages. rewrite <-list_fmap_compose.
    change (cs_stage_id ∘ compiled_stage _) with ss_stage_id. apply fmap_sublist, filter_sublist. }
  assert (Hk : known_stages compiled).
  { apply Forall_forall. intros s Hs. rewrite Forall_forall in Hknown. apply Hknown.
    eapply sublist_subseteq; [exact Hids|]. by apply list_elem_of_fmap_2. }
  assert (Hs : StronglySorted stage_lt compiled).
  { apply (StronglySorted_fmap_iff cs_stage_id (fun a b => stage_before a b = true) compiled).
    exact (sorted_by_sublist _ _ _ Hids Hsorted). }
  assert (Hseq : sequence = in_bucket 0 compiled ++ insert_paint_stage (in_bucket 1 compiled) ++
                   in_bucket 2 compiled ++ in_bucket 3 compiled).
  { unfold sequence, execution_sequence. injection Heq as -> _.
    cbn [ep_prepass_stages ep_per_layer_stages ep_layer_finalization_stage ep_postpass_stages].
    fold compiled. destruct (fold_place_stage empty_buckets compiled) as (-> & -> & -> & ->).
    cbn [empty_buckets bk_prepass bk_per_layer bk_finalization bk_postpass app].
    pose proof (finalization_single compiled Hs) as Hf.
    destruct (last (in_bucket 2 compiled)); by rewrite Hf. }
  pose proof (buckets_concat compiled Hk Hs) as Hcat.
  assert (Hb1 : Forall (fun s => stage_bucket (cs_stage_id s) = 1) (in_bucket 1 compiled))
    by (apply Forall_forall; by intros s [? _]%list_elem_of_filter).
  destruct (decide (paint_stage_id ∈ cs_stage_id <$> in_bucket 1 compiled)) as [Hp|Hp].
  - assert (Hins : insert_paint_stage (in_bucket 1 compiled) = in_bucket 1 compiled).
    { unfold insert_paint_stage. apply list_elem_of_fmap in Hp as (s & Hid & Hin).
      rewrite (proj2 (existsb_elem _ _)); [done|]. exists s. split; [done|]. by apply String.eqb_eq. }
    rewrite Hins, <-Hcat in Hseq. rewrite Hseq. split; [done|].
    assert (Hpc : paint_stage_id ∈ cs_stage_id <$> compiled).
    { apply list_elem_of_fmap in Hp as (s & -> & [_ Hin]%list_elem_of_filter). by apply list_elem_of_fmap_2. }
    split; [done|]. intros s. split; [by left|]. by intros [?|[_ ?]].
  - assert (Hkf : forall k, known_stages (in_bucket k compiled)).
    { intros k. apply Forall_forall. intros s [_ Hin]%list_elem_of_filter.
      unfold known_stages in Hk. rewrite Forall_forall in Hk. by apply Hk. }
    rewrite insert_paint_first in Hseq by done.
    set (rest := in_bucket 1 compiled ++ in_bucket 2 compiled ++ in_bucket 3 compiled) in *.
    change (sequence = in_bucket 0 compiled ++ paint_stage :: rest) in Hseq.
    assert (Hnp : paint_stage_id ∉ cs_stage_id <$> compiled).
    { intros Hin. apply Hp. apply list_elem_of_fmap in Hin as (s & Hid & Hin).
      rewrite Hid. apply list_elem_of_fmap_2, list_elem_of_filter. split; [by rewrite <-Hid|done]. }
    assert (Hpos : forall s, s ∈ compiled ->
      (stage_bucket (cs_stage_id s) = 0 -> stage_lt s paint_stage) /\
      (stage_bucket (cs_stage_id s) <> 0 -> stage_lt paint_stage s)).
    { intros s Hin. unfold known_stages in Hk. rewrite Forall_forall in Hk.
      destruct (paint_position (cs_stage_id s) (Hk s Hin)) as [H0 H1]. split; [exact H0|].
      intros Hne. apply (H1 Hne). intros Heqid. apply Hnp. rewrite <-Heqid. by apply list_elem_of_fmap_2. }
    assert (Hrest : forall s, s ∈ rest -> s ∈ compiled /\ stage_bucket (cs_stage_id s) <> 0).
    { intros s Hin. unfold rest, in_bucket in Hin. rewrite !elem_of_app, !list_elem_of_filter in Hin.
      destruct Hin as [[Hb ?]|[[Hb ?]|[Hb ?]]]; (split; [done|]); rewrite Hb; done. }
    assert (Hs' : StronglySorted stage_lt (in_bucket 0 compiled ++ rest)) by (by rewrite <-Hcat).
    apply StronglySorted_app in Hs' as (Hcross & Hs0 & Hsr).
    split; [|split].
    + rewrite Hseq. apply StronglySorted_app. split; [|split; [done|]].
      * intros x y Hx [->|Hy]%elem_of_cons; [|by apply Hcross].
        apply list_elem_of_filter in Hx as [Hb Hx]. by apply Hpos.
      * constructor; [done|]. apply Forall_forall. intros s Hin. apply Hrest in Hin as [? ?]. by apply Hpos.
    + rewrite Hseq, fmap_app. apply elem_of_app. right. left.
    + intros s. assert (Hc : s ∈ compiled <-> s ∈ in_bucket 0 compiled \/ s ∈ rest)
        by (rewrite <-elem_of_app, <-Hcat; done).
      rewrite Hseq, elem_of_app, elem_of_cons, Hc. tauto.
Qed.

(** ** Active regions *)

(** What one layer contributes to the index entry of a module. *)
Definition layer_contribution (by_id : gmap ModuleId ExecutionModuleBinding)
    (stages : list SortedStageModules) (i : Z) (id : ModuleId) (layer : GlobalLayer)
    : list ActiveRegion :=
  if decide (gl_index layer = i) then
    flat_map (fun stage =>
      if starts_with "Layer::" (ss_stage_id stage) then
        flat_map (fun id' =>
          if decide (id' = id) then
            match by_id !! id with
            | Some b => matching_regions (lm_claims (eb_module b)) layer
            | None => []
            end
          else []) (ss_module_ids stage)
      else []) stages
  else [].

Lemma foldl_contrib {A} (f : gmap (Z * ModuleId) (list ActiveRegion) -> A ->
    gmap (Z * ModuleId) (list ActiveRegion)) (g : A -> list ActiveRegion) k l m :
  (forall m x, default [] (f m x !! k) = default [] (m !! k) ++ g x) ->
  default [] (foldl f m l !! k) = default [] (m !! k) ++ flat_map g l.
Proof.
  intros Hf. revert m; induction l as [|x l IH]; intros m; cbn [foldl flat_map].
  - by rewrite app_nil_r.
  - by rewrite IH, Hf, (assoc_L (++)).
Qed.

Lemma flat_map_const_nil {A B} (l : list A) : flat_map (fun _ => [] : list B) l = [].
Proof. induction l; done. Qed.

Lemma module_region_index_lookup by_id layers stages i id :
  default [] (module_region_index by_id layers stages !! (i, id)) =
  flat_map (layer_contribution by_id stages i id) layers.
Proof.
  unfold module_region_index.
  rewrite (foldl_contrib _ (layer_contribution by_id stages i id)); [by rewrite lookup_empty|].
  intros m layer. unfold layer_contribution. destruct (decide (gl_index layer = i)) as [Hi|Hi].
  - apply foldl_contrib. intros m' stage. unfold index_stage.
    destruct (starts_with "Layer::" _); [|by rewrite app_nil_r].
    apply foldl_contrib. intros m'' id'. unfold index_module.
    destruct (decide (id' = id)) as [->|Hid].
    + destruct (by_id !! id); [|by rewrite app_nil_r]. by rewrite Hi, lookup_insert_eq.
    + rewrite app_nil_r. destruct (by_id !! id'); [|done]. rewrite lookup_insert_ne; [done|congruence].
  - rewrite (foldl_contrib _ (fun _ => [])); [by rewrite flat_map_const_nil|].
    intros m' stage. rewrite app_nil_r. unfold index_stage.
    destruct (starts_with "Layer::" _); [|done].
    rewrite (foldl_contrib _ (fun _ => [])); [by rewrite flat_map_const_nil, app_nil_r|].
    intros m'' id'. rewrite app_nil_r. unfold index_module.
    destruct (by_id !! id'); [|done]. rewrite lookup_insert_ne; [done|congruence].
Qed.

(** The module ids scheduled in per-layer stages. *)
Definition layer_module_ids (stages : list SortedStageModules) : list ModuleId :=
  flat_map (fun s => if starts_with "Layer::" (ss_stage_id s) then ss_module_ids s else []) stages.

Lemma flat_map_once {A B} `{EqDecision A} (x : A) (r : list B) l :
  NoDup l -> flat_map (fun y => if decide (y = x) then r else []) l = if decide (x ∈ l) then r else [].
Proof.
  induction 1 as [|y l Hni Hnd IH]; [done|]. cbn [flat_map]. rewrite IH.
  destruct (decide (y = x)) as [->|Hne].
  - rewrite (decide_False (P := x ∈ l)) by done. rewrite decide_True by left. apply app_nil_r.
  - destruct (decide (x ∈ l)), (decide (x ∈ y :: l)) as [Hc|Hc]; try done.
    + by destruct Hc; right.
    + by apply elem_of_cons in Hc as [?|?].
Qed.

Lemma layer_contribution_flat by_id stages i id layer :
  layer_contribution by_id stages i id layer =
  if decide (gl_index layer = i) then
    flat_map (fun id' => if decide (id' = id) then
      match by_id !! id with
      | Some b => matching_regions (lm_claims (eb_module b)) layer | None => [] end else [])
      (layer_module_ids stages)
  else [].
Proof.
  unfold layer_contribution. destruct (decide _); [|done]. unfold layer_module_ids.
  induction stages as [|s stages IH]; [done|]. cbn [flat_map]. rewrite flat_map_app, IH. f_equal.
  by destruct (starts_with "Layer::" _).
Qed.

(** In a built plan whose layers have distinct indices and whose per-layer
    stages schedule each module once, looking up a module on a layer yields, in order,
    exactly the layer's active regions that match the module's claims when the module
    is scheduled in a per-layer stage, and nothing otherwise. *)
Theorem resolve_active_regions_spec (req : ExecutionPlanRequest) (diagnostics : list LoadDiagnostic)
    (plan : ExecutionPlan) (diagnostics' : list LoadDiagnostic) :
  build_execution_plan req diagnostics = Ok (plan, diagnostics') ->
  NoDup (gl_index <$> pr_global_layers req) ->
  NoDup (layer_module_ids (pr_sorted_stages req)) ->
  forall layer b, layer ∈ pr_global_layers req -> b ∈ pr_module_bindings req ->
    resolve_active_regions plan layer (compile_module b) =
    if decide (lm_id (eb_module b) ∈ layer_module_ids (pr_sorted_stages req))
    then matching_regions (lm_claims (eb_module b)) layer else [].
Proof.
  intros [Hv Heq]%build_execution_plan_ok Hlayers Hmods layer b Hlayer Hb.
  injection Heq as -> _. unfold resolve_active_regions. cbn [ep_module_region_index cm_module_id compile_module].
  rewrite module_region_index_lookup.
  assert (Hlook : bindings_map (pr_module_bindings req) !! lm_id (eb_module b) = Some b)
    by (apply bindings_map_lookup; [apply Hv|done]).
  set (r := if decide _ then matching_regions _ layer else []).
  assert (Hone : forall l, l ∈ pr_global_layers req ->
    layer_contribution (bindings_map (pr_module_bindings req)) (pr_sorted_stages req)
      (gl_index layer) (lm_id (eb_module b)) l = if decide (gl_index l = gl_index layer) then r else []).
  { intros l Hl. rewrite layer_contribution_flat.
    destruct (decide (gl_index l = gl_index layer)) as [Hi|]; [|done].
    rewrite (NoDup_fmap_inj gl_index _ l layer Hlayers Hl Hlayer Hi).
    rewrite flat_map_once by done. by rewrite Hlook. }
  clearbody r. revert Hlayer Hone. induction (pr_global_layers req) as [|l ls IH]; [by intros ?%elem_of_nil|].
  cbn in Hlayers. apply NoDup_cons in Hlayers as [Hni Hnd]. intros Hlayer Hone.
  cbn [flat_map]. rewrite Hone by left. destruct (decide (gl_index l = gl_index layer)) as [Hi|Hi].
  - assert (Hrest : flat_map (layer_contribution (bindings_map (pr_module_bindings req))
        (pr_sorted_stages req) (gl_index layer) (lm_id (eb_module b))) ls = []).
    { assert (Hnone : forall x, x ∈ ls -> gl_index x <> gl_index layer).
      { intros x Hx Hxi. apply Hni. rewrite Hi, <-Hxi. by apply list_elem_of_fmap_2. }
      clear -Hnone. induction ls as [|x ls IHl]; [done|]. cbn [flat_map].
      rewrite layer_contribution_flat, decide_False by (apply Hnone; left).
      apply IHl. intros y Hy. apply Hnone. by right. }
    by rewrite Hrest, app_nil_r.
  - apply elem_of_cons in Hlayer as [->|Hlayer]; [done|]. cbn. apply IH; [done..|].
    intros x Hx. apply Hone. by right.
Qed.

(** ** Witnesses and a boundary case *)

Definition sample_binding (id stage : string) : ExecutionModuleBinding :=
  {| eb_module := sample_module id stage [] [] [];
     eb_config_view := bind_module_config_view (sample_module id stage [] [] [])
       {| rc_support_type := NormalAuto; rc_top_fill_holder := ""; rc_bottom_fill_holder := "";
          rc_bridge_fill_holder := ""; rc_sparse_fill_holder := ""; rc_fill_authored_coloring := [];
          rc_rendered := {["wall_count" := CvInt 2]}; rc_extensions := ∅ |} |}.

Definition sample_config : ResolvedConfig :=
  {| rc_support_type := NormalAuto; rc_top_fill_holder := ""; rc_bottom_fill_holder := "";
     rc_bridge_fill_holder := ""; rc_sparse_fill_holder := ""; rc_fill_authored_coloring := [];
     rc_rendered := {["wall_count" := CvInt 2]}; rc_extensions := ∅ |}.

Definition sample_layer : GlobalLayer :=
  {| gl_index := 0; gl_z := F32 0;
     gl_active_regions :=
       [{| ar_object_id := "cube"; ar_region_id := 0; ar_resolved_config := sample_config;
           ar_effective_layer_height := F32 0; ar_nonplanar_shell := None;
           ar_is_catchup_layer := false; ar_catchup_z_bottom := F32 0; ar_tool_index := 0 |}];
     gl_has_nonplanar := false; gl_is_sync_layer := true; gl_is_raft := false |}.

Definition sample_plan_request (layer_stage : string) : ExecutionPlanRequest :=
  {| pr_sorted_stages := [{| ss_stage_id := "PrePass::Slice"; ss_module_ids := ["slice"] |};
                          {| ss_stage_id := layer_stage; ss_module_ids := ["layer"] |}];
     pr_module_bindings := [sample_binding "slice" "PrePass::Slice"; sample_binding "layer" layer_stage];
     pr_global_layers := [sample_layer];
     pr_region_plans := [] |}.

Lemma bound_views_pass_guard_witness :
  build_execution_plan (sample_plan_request "Layer::Infill") [] <>
    Err (UndeclaredConfigKey "layer" "wall_count").
Proof.
  apply (bound_views_pass_guard (sample_plan_request "Layer::Infill") sample_config []).
  intros b Hb. apply elem_of_cons in Hb as [->|Hb%list_elem_of_singleton]; [reflexivity|].
  subst b. reflexivity.
Defined.

Lemma plan_execution_order_witness :
  exists plan diagnostics,
    build_execution_plan (sample_plan_request "Layer::Infill") [] = Ok (plan, diagnostics) /\
    StronglySorted stage_lt (execution_sequence plan).
Proof.
  destruct (build_execution_plan (sample_plan_request "Layer::Infill") []) as [[plan ds]|e] eqn:Hbuild;
    [|vm_compute in Hbuild; discriminate Hbuild].
  exists plan, ds. split; [reflexivity|].
  assert (Hord : stages_ordered (ss_stage_id <$> pr_sorted_stages (sample_plan_request "Layer::Infill"))).
  { split.
    - apply (bool_decide_unpack _). vm_compute. exact I.
    - repeat constructor. }
  apply (plan_execution_order (sample_plan_request "Layer::Infill") [] plan ds Hbuild Hord).
  vm_compute. discriminate.
Defined.

Lemma resolve_active_regions_spec_witness :
  exists plan diagnostics,
    build_execution_plan (sample_plan_request "Layer::Infill") [] = Ok (plan, diagnostics) /\
    resolve_active_regions plan sample_layer (compile_module (sample_binding "layer" "Layer::Infill")) =
      gl_active_regions sample_layer /\
    resolve_active_regions plan sample_layer (compile_module (sample_binding "slice" "PrePass::Slice")) = [].
Proof.
  destruct (build_execution_plan (sample_plan_request "Layer::Infill") []) as [[plan ds]|e] eqn:Hbuild;
    [|vm_compute in Hbuild; discriminate Hbuild].
  exists plan, ds. split; [reflexivity|].
  assert (Hl : NoDup (gl_index <$> pr_global_layers (sample_plan_request "Layer::Infill")))
    by (apply (bool_decide_unpack _); exact I).
  assert (Hm : NoDup (layer_module_ids (pr_sorted_stages (sample_plan_request "Layer::Infill"))))
    by (apply (bool_decide_unpack _); exact I).
  pose proof (resolve_active_regions_spec _ [] plan ds Hbuild Hl Hm sample_layer) as Hspec.
  split.
  - rewrite (Hspec (sample_binding "layer" "Layer::Infill")); [vm_compute; reflexivity|left|right; left].
  - rewrite (Hspec (sample_binding "slice" "PrePass::Slice")); [vm_compute; reflexivity|left|left].
Defined.

(** The insertion point of the paint stage skips the anchored-events stage: when
    that is the first per-layer stage with a module, paint annotation is placed after
    it, although it comes first in the canonical order. *)
Theorem paint_after_anchored_events :
  exists plan diagnostics,
    build_execution_plan (sample_plan_request "Layer::AnchoredEvents") [] = Ok (plan, diagnostics) /\
    cs_stage_id <$> ep_per_layer_stages plan = ["Layer::AnchoredEvents"; paint_stage_id] /\
    stage_before paint_stage_id "Layer::AnchoredEvents" = true.
Proof.
  eexists _, _. split; [vm_compute; reflexivity|]. split; vm_compute; reflexivity.
Qed.
