(* ===== verification/Registry.v ===== *)
(** The registry of configuration keys ([slicer-config/src/lib.rs], with the row types of
    [slicer-ir/src/resolved_config.rs] and the scopes of [slicer-config/src/ingestion.rs]).

    Every key may be declared by several parties: the typed fields of the host, its speed
    table, its runtime keys, and any number of modules.  Assembly reconciles the
    declarations of each key into one entry or rejects the whole registry. *)
From Stdlib Require Import Sorted.
From stdpp Require Import prelude gmap strings list.
From S2P Require Import Prelude Text Ir Float64.

#[local] Open Scope string_scope.
#[local] Open Scope list_scope.

(** ** Scopes *)

Inductive ConfigScope :=
| ScopeGlobal
| ScopeObject (object_id : ObjectId)
| ScopeLayerRange (object_id : ObjectId) (range_index : Z)
| ScopeModifier (object_id modifier_id : string)
| ScopePaintSemantic (semantic : string)
| ScopeTool (tool : Z).
#[export] Instance ConfigScope_eq_dec : EqDecision ConfigScope.
Proof. solve_decision. Defined.
#[export] Instance ConfigScope_countable : Countable ConfigScope.
Proof.
  refine (inj_countable'
    (fun s => match s with
              | ScopeGlobal => inl (inl (inl tt))
              | ScopeObject o => inl (inl (inr o))
              | ScopeLayerRange o i => inl (inr (o, i))
              | ScopeModifier o m => inr (inl (inl (o, m)))
              | ScopePaintSemantic p => inr (inl (inr p))
              | ScopeTool t => inr (inr t)
              end)
    (fun e => match e with
              | inl (inl (inl _)) => ScopeGlobal
              | inl (inl (inr o)) => ScopeObject o
              | inl (inr (o, i)) => ScopeLayerRange o i
              | inr (inl (inl (o, m))) => ScopeModifier o m
              | inr (inl (inr p)) => ScopePaintSemantic p
              | inr (inr t) => ScopeTool t
              end) _).
  by intros [].
Defined.

(** The family whose policy judges a scope. *)
Definition scope_denial_label (scope : ConfigScope) : string :=
  match scope with
  | ScopeGlobal => "global"
  | ScopeObject _ => "object"
  | ScopeLayerRange _ _ => "layer_range"
  | ScopeModifier _ _ => "modifier"
  | ScopePaintSemantic _ => "paint_semantic"
  | ScopeTool _ => "tool"
  end.

Definition ALLOWED_DENIED_SCOPES : list string :=
  ["global"; "object"; "layer_range"; "modifier"; "paint_semantic"; "tool"].
Definition PER_REGION_SCOPES : list string := ["object"; "layer_range"; "modifier"; "paint_semantic"; "tool"].

(** ** Declarations *)

Record HostKeyMeta := {
  hm_display : option string;
  hm_group : option string;
  hm_unit : option string;
  hm_description : option string;
  hm_min : option f64;
  hm_max : option f64;
  hm_values : list string;
  hm_wire_type : option string;
  hm_advanced : bool;
  hm_omit_from_config_block : bool
}.

Definition HostKeyMeta_NONE : HostKeyMeta := {|
  hm_display := None; hm_group := None; hm_unit := None; hm_description := None; hm_min := None; hm_max := None;
  hm_values := []; hm_wire_type := None; hm_advanced := false; hm_omit_from_config_block := false
|}.

Record HostConfigKey := {
  hk_key : string;
  hk_field_type : string;
  hk_scope : string;
  hk_default : option string;
  hk_meta : HostKeyMeta;
  hk_denied_scopes : list string
}.

Record HostRuntimeKey := {
  hr_key : string;
  hr_field_type : string;
  hr_scope : string;
  hr_default : option string;
  hr_meta : HostKeyMeta;
  hr_selector : bool;
  hr_denied_scopes : list string
}.

Record ModuleDeclaration := {
  md_module_id : ModuleId;
  md_schema : ConfigSchema;
  md_claim_exclusive_group : option string
}.

Record ModuleKeyMeta := {
  mk_display : option string;
  mk_description : option string;
  mk_group : option string;
  mk_unit : option string;
  mk_tags : list string;
  mk_advanced : bool
}.

Definition ModuleKeyMeta_from_field (field : ConfigFieldEntry) : ModuleKeyMeta :=
  {| mk_display := cfe_display field; mk_description := cfe_description field; mk_group := cfe_group field;
     mk_unit := cfe_unit field; mk_tags := cfe_tags field; mk_advanced := cfe_advanced field |}.

Record HostChannels := {
  hc_host_keys : list HostConfigKey;
  hc_speed_keys : list HostConfigKey;
  hc_runtime_keys : list HostRuntimeKey
}.

Record Declaration := {
  dc_provenance : string;
  dc_module_id : option string;
  dc_claim_exclusive_group : option string;
  dc_field_type : string;
  dc_default : option string;
  dc_min : option f64;
  dc_max : option f64;
  dc_values : option (list string);
  dc_denied_scopes : list string;
  dc_selector : bool;
  dc_omit_from_config_block : bool;
  dc_base_key : option string;
  dc_host_meta : option HostKeyMeta;
  dc_module_meta : option ModuleKeyMeta;
  dc_is_host : bool
}.

Definition declaration_from_host_parts (provenance field_type : string) (default : option string) (selector : bool)
    (meta : HostKeyMeta) (denied_scopes : list string) : Declaration :=
  let field_type := match hm_wire_type meta with Some wire_type => wire_type | None => field_type end in
  let values := if String.eqb field_type "enum" || match hm_values meta with [] => false | _ => true end
                then Some (hm_values meta) else None in
  {| dc_provenance := provenance; dc_module_id := None; dc_claim_exclusive_group := None;
     dc_field_type := field_type; dc_default := default; dc_min := hm_min meta; dc_max := hm_max meta;
     dc_values := values; dc_denied_scopes := denied_scopes; dc_selector := selector;
     dc_omit_from_config_block := hm_omit_from_config_block meta; dc_base_key := None;
     dc_host_meta := Some meta; dc_module_meta := None; dc_is_host := true |}.

Definition HOST_PROVENANCE : string := "host".
Definition SPEED_PROVENANCE : string := "speed".
Definition RUNTIME_PROVENANCE : string := "runtime".

Definition host_declaration (row : HostConfigKey) (provenance : string) : Declaration :=
  declaration_from_host_parts provenance (hk_field_type row) (hk_default row) false (hk_meta row)
    (hk_denied_scopes row).

Definition runtime_declaration (row : HostRuntimeKey) : Declaration :=
  declaration_from_host_parts RUNTIME_PROVENANCE (hr_field_type row) (hr_default row) (hr_selector row) (hr_meta row)
    (hr_denied_scopes row).

Definition module_declaration (module : ModuleDeclaration) (field : ConfigFieldEntry) : Declaration :=
  {| dc_provenance := md_module_id module; dc_module_id := Some (md_module_id module);
     dc_claim_exclusive_group := md_claim_exclusive_group module; dc_field_type := cfe_field_type field;
     dc_default := cfe_default field; dc_min := cfe_min field; dc_max := cfe_max field; dc_values := cfe_values field;
     dc_denied_scopes := cfe_denied_scopes field; dc_selector := cfe_selector field;
     dc_omit_from_config_block := cfe_omit_from_config_block field; dc_base_key := cfe_base_key field;
     dc_host_meta := None; dc_module_meta := Some (ModuleKeyMeta_from_field field); dc_is_host := false |}.

(** ** The registry *)

Record RegistryEntry := {
  re_key : string;
  re_field_type : string;
  re_default : option string;
  re_min : option f64;
  re_max : option f64;
  re_values : option (list string);
  re_denied_scopes : list string;
  re_selector : bool;
  re_omit_from_config_block : bool;
  re_base_key : option string;
  re_host_meta : option HostKeyMeta;
  re_module_meta : option ModuleKeyMeta;
  re_provenance : list string
}.

Record ConfigSchemaRegistry := { entries : gmap string RegistryEntry }.

Definition entry (registry : ConfigSchemaRegistry) (key : string) : option RegistryEntry := entries registry !! key.
Definition keys (registry : ConfigSchemaRegistry) : list string := btree_keys (entries registry).

Inductive RegistryWarning :=
| ClaimExclusiveDivergence (key first_module first_value second_module second_value : string)
| ClaimExclusiveBoundsDivergence (key first_module : string) (first_min first_max : option f64)
    (second_module : string) (second_min second_max : option f64)
| BoundsIntersection (key : string) (effective_min effective_max : option f64) (declarers : list string)
| ModuleDefaultForHostKey (key module_id : string).

Inductive RegistryLoadError :=
| TypeDisagreement (key : string) (declarers : list string)
| EnumDomainDisagreement (key : string) (declarers : list string)
| SelectorStatablePerRegion (key : string)
| BaseKeyMissing (key base : string)
| BaseKeyNotPercentCompatible (key base : string)
| BaseKeyCycle (key base : string)
| UnknownDeniedScope (key scope : string).

Record AssemblyOutcome := { ao_registry : ConfigSchemaRegistry; ao_warnings : list RegistryWarning }.

(** The keys statable at a scope. *)
Definition admission_set (registry : ConfigSchemaRegistry) (scope : ConfigScope) : gset ConfigKey :=
  list_to_set (re_key <$> base.filter (fun e => existsb (String.eqb (scope_denial_label scope)) (re_denied_scopes e) = false)
                            (btree_values (entries registry))).

(** ** Reconciliation *)

Definition sorted_provenance (declarations : list Declaration) : list string :=
  btree_elems (list_to_set (dc_provenance <$> declarations)).

Definition contains_scope (scopes : list string) (scope : string) : bool := existsb (String.eqb scope) scopes.

Definition validate_denied_scopes (key : string) (declarations : list Declaration) : result unit RegistryLoadError :=
  for_each (fun d => for_each (fun scope => if contains_scope ALLOWED_DENIED_SCOPES scope then Ok tt
                                            else Err (UnknownDeniedScope key scope)) (dc_denied_scopes d)) declarations.

Definition validate_selectors (key : string) (declarations : list Declaration) : result unit RegistryLoadError :=
  for_each (fun d => if dc_selector d && existsb (fun scope => negb (contains_scope (dc_denied_scopes d) scope)) PER_REGION_SCOPES
                     then Err (SelectorStatablePerRegion key) else Ok tt) declarations.

Definition effective_bound (values : list (option f64)) (maximum : bool) : option f64 :=
  foldl (fun current value =>
           Some match current with
                | None => value
                | Some previous => if maximum then f64_max previous value else f64_min previous value
                end) None (omap id values).

(** The first host declaration and the module declarations. *)
Definition find_host (declarations : list Declaration) : option Declaration := List.find dc_is_host declarations.
Definition module_declarations (declarations : list Declaration) : list Declaration :=
  base.filter (fun d => dc_is_host d = false) declarations.

Definition first_some {A B} (f : A -> option B) (l : list A) : option B := head (omap f l).

Definition selected_base_key (declarations : list Declaration) : option string :=
  match find_host declarations ≫= dc_base_key with
  | Some base_key => Some base_key
  | None => first_some dc_base_key (module_declarations declarations)
  end.

Definition selected_values (declarations : list Declaration) : option (list string) :=
  match find_host declarations ≫= dc_values with
  | Some values => Some values
  | None => first_some dc_values (module_declarations declarations)
  end.

Definition declarer (d : Declaration) : string := default (dc_provenance d) (dc_module_id d).

(** [Option<f64>] compared with [!=]: a NaN differs from itself. *)
Definition bound_differs (a b : option f64) : bool :=
  match a, b with
  | Some a, Some b => negb (f64_eqb a b)
  | None, None => false
  | _, _ => true
  end.

Definition claim_exclusive_pair (key : string) (first second : Declaration) : list RegistryWarning :=
  match dc_claim_exclusive_group first with
  | None => []
  | Some _ =>
      if negb (bool_decide (dc_claim_exclusive_group first = dc_claim_exclusive_group second)) then []
      else
        match dc_default first, dc_default second with
        | Some first_value, Some second_value =>
            if String.eqb first_value second_value then []
            else [ClaimExclusiveDivergence key (declarer first) first_value (declarer second) second_value]
        | _, _ => []
        end ++
        (if bound_differs (dc_min first) (dc_min second) || bound_differs (dc_max first) (dc_max second)
         then [ClaimExclusiveBoundsDivergence key (declarer first) (dc_min first) (dc_max first)
                 (declarer second) (dc_min second) (dc_max second)] else [])
  end.

(** Every pair of modules, in order. *)
Fixpoint claim_exclusive_warnings (key : string) (modules : list Declaration) : list RegistryWarning :=
  match modules with
  | [] => []
  | first :: modules => flat_map (claim_exclusive_pair key first) modules ++ claim_exclusive_warnings key modules
  end.

Definition is_bounded (d : Declaration) : bool :=
  match dc_min d, dc_max d with None, None => false | _, _ => true end.

Definition bounds_warning (key : string) (declarations : list Declaration) : list RegistryWarning :=
  if Nat.ltb 1 (length (base.filter (fun d => is_bounded d = true) declarations))
  then [BoundsIntersection key (effective_bound (dc_min <$> declarations) true)
          (effective_bound (dc_max <$> declarations) false) (sorted_provenance declarations)]
  else [].

Definition host_default_warnings (key : string) (declarations : list Declaration) : list RegistryWarning :=
  match find_host declarations with
  | None => []
  | Some _ =>
      flat_map (fun m => match dc_default m with Some _ => [ModuleDefaultForHostKey key (declarer m)] | None => [] end)
        (module_declarations declarations)
  end.

Definition denied_union (declarations : list Declaration) : list string :=
  base.filter (fun scope => existsb (fun d => contains_scope (dc_denied_scopes d) scope) declarations = true)
    ALLOWED_DENIED_SCOPES.

Definition reconcile (key : string) (first : Declaration) (declarations : list Declaration) : RegistryEntry :=
  {| re_key := key; re_field_type := dc_field_type first;
     re_default := match find_host declarations with
                   | Some d => dc_default d
                   | None => head (module_declarations declarations) ≫= dc_default
                   end;
     re_min := effective_bound (dc_min <$> declarations) true;
     re_max := effective_bound (dc_max <$> declarations) false;
     re_values := selected_values declarations;
     re_denied_scopes := denied_union declarations;
     re_selector := existsb dc_selector declarations;
     re_omit_from_config_block := existsb dc_omit_from_config_block declarations;
     re_base_key := selected_base_key declarations;
     re_host_meta := find_host declarations ≫= dc_host_meta;
     re_module_meta := head (module_declarations declarations) ≫= dc_module_meta;
     re_provenance := sorted_provenance declarations |}.

(** One turn of the loop over the declared keys. *)
Definition assemble_key (st : gmap string RegistryEntry * list RegistryWarning) (kd : string * list Declaration)
    : result (gmap string RegistryEntry * list RegistryWarning) RegistryLoadError :=
  let '(entries, warnings) := st in
  let '(key, declarations) := kd in
  let? _ := validate_denied_scopes key declarations in
  let? _ := validate_selectors key declarations in
  match declarations with
  | [] => Ok st
  | first :: _ =>
      if existsb (fun d => negb (String.eqb (dc_field_type d) (dc_field_type first))) declarations
      then Err (TypeDisagreement key (sorted_provenance declarations))
      else if String.eqb (dc_field_type first) "enum"
              && existsb (fun d => negb (bool_decide (dc_values d = dc_values first))) declarations
      then Err (EnumDomainDisagreement key (sorted_provenance declarations))
      else
        Ok (<[key := reconcile key first declarations]> entries,
            warnings ++ bounds_warning key declarations ++ host_default_warnings key declarations
              ++ claim_exclusive_warnings key (module_declarations declarations))
  end.

(** *** Base keys *)

Definition base_key_of (entries : gmap string RegistryEntry) (key : string) : option string :=
  entries !! key ≫= re_base_key.

Definition check_base_key (entries : gmap string RegistryEntry) (ke : string * RegistryEntry) : result unit RegistryLoadError :=
  match re_base_key ke.2 with
  | None => Ok tt
  | Some base =>
      match entries !! base with
      | None => Err (BaseKeyMissing ke.1 base)
      | Some base_entry =>
          if String.eqb (re_field_type base_entry) "float" || String.eqb (re_field_type base_entry) "float_or_percent"
          then Ok tt else Err (BaseKeyNotPercentCompatible ke.1 base)
      end
  end.

(** The walk along base keys; [true] when a key is met twice. *)
Fixpoint base_walk (fuel : nat) (entries : gmap string RegistryEntry) (visited : gset string) (current : string)
    : exec bool :=
  match fuel with
  | O => OutOfFuel
  | S fuel =>
      if bool_decide (current ∈ visited) then Done true
      else match base_key_of entries current with
           | None => Done false
           | Some next => base_walk fuel entries ({[current]} ∪ visited) next
           end
  end.

Definition check_base_cycle (entries : gmap string RegistryEntry) (ke : string * RegistryEntry)
    : exec (result unit RegistryLoadError) :=
  match re_base_key ke.2 with
  | None => Done (Ok tt)
  | Some base =>
      let! cycle := base_walk (S (S (size entries))) entries {[ke.1]} base in
      Done (if cycle : bool then Err (BaseKeyCycle ke.1 base) else Ok tt)
  end.

Definition validate_base_keys (entries : gmap string RegistryEntry) : exec (result unit RegistryLoadError) :=
  match for_each (check_base_key entries) (btree_iter entries) with
  | Err e => Done (Err e)
  | Ok _ => for_each_exec (check_base_cycle entries) (btree_iter entries)
  end.

(** *** Assembly *)

Definition module_leb (first second : ModuleDeclaration) : bool := rust_leb (md_module_id first) (md_module_id second).

(** All declarations in the order in which they are considered. *)
Definition declared (modules : list ModuleDeclaration) (host : HostChannels) : list (string * Declaration) :=
  ((fun row => (hk_key row, host_declaration row HOST_PROVENANCE)) <$> hc_host_keys host) ++
  ((fun row => (hk_key row, host_declaration row SPEED_PROVENANCE)) <$> hc_speed_keys host) ++
  ((fun row => (hr_key row, runtime_declaration row)) <$> hc_runtime_keys host) ++
  flat_map (fun module => (fun kf => (kf.1, module_declaration module kf.2)) <$> btree_iter (cs_entries (md_schema module)))
    (sort_by module_leb modules).

Definition declarations_by_key (modules : list ModuleDeclaration) (host : HostChannels) : gmap string (list Declaration) :=
  foldl push_entry ∅ (declared modules host).

Definition assemble_registry (modules : list ModuleDeclaration) (host : HostChannels)
    : exec (result AssemblyOutcome RegistryLoadError) :=
  match try_fold assemble_key (∅, []) (btree_iter (declarations_by_key modules host)) with
  | Err e => Done (Err e)
  | Ok (entries, warnings) =>
      let! checked := validate_base_keys entries in
      Done (match checked with
            | Err e => Err e
            | Ok _ => Ok {| ao_registry := {| entries := entries |}; ao_warnings := warnings |}
            end)
  end.

(** ** The order of the modules does not matter *)

Lemma module_leb_trans m1 m2 m3 : module_leb m1 m2 = true -> module_leb m2 m3 = true -> module_leb m1 m3 = true.
Proof. apply rust_leb_trans. Qed.
Lemma module_leb_total m1 m2 : module_leb m1 m2 = true \/ module_leb m2 m1 = true.
Proof. apply rust_leb_total. Qed.

Lemma sort_modules_perm (modules modules' : list ModuleDeclaration) :
  NoDup (md_module_id <$> modules) -> modules ≡ₚ modules' -> sort_by module_leb modules = sort_by module_leb modules'.
Proof.
  intros Hnd Hp. apply (sorted_by_unique_on module_leb).
  - intros x y Hx%elem_of_sort_by Hy%elem_of_sort_by Hxy Hyx.
    eapply (NoDup_fmap_inj md_module_id); [done.. |]. by apply rust_leb_antisym.
  - apply sort_by_sorted; [apply module_leb_trans | apply module_leb_total].
  - apply sort_by_sorted; [apply module_leb_trans | apply module_leb_total].
  - by rewrite !sort_by_perm.
Qed.

(** The order in which the modules are given decides nothing: not the registry, not the
    warnings, not which error is reported. *)
Theorem assembly_order_independent (modules modules' : list ModuleDeclaration) (host : HostChannels)
    (Hids : NoDup (md_module_id <$> modules)) (Hperm : modules ≡ₚ modules') :
  assemble_registry modules host = assemble_registry modules' host.
Proof.
  unfold assemble_registry, declarations_by_key, declared. by rewrite (sort_modules_perm modules modules').
Qed.

(** ** What the registry promises *)

(** The declarations of one key agree. *)
Record consistent (declarations : list Declaration) : Prop := {
  cs_vocabulary : forall d scope, d ∈ declarations -> scope ∈ dc_denied_scopes d -> scope ∈ ALLOWED_DENIED_SCOPES;
  cs_selectors : forall d scope, d ∈ declarations -> dc_selector d = true -> scope ∈ PER_REGION_SCOPES ->
    scope ∈ dc_denied_scopes d;
  cs_types : forall d d', d ∈ declarations -> d' ∈ declarations -> dc_field_type d = dc_field_type d';
  cs_domains : forall d d', d ∈ declarations -> d' ∈ declarations -> dc_field_type d = "enum" ->
    dc_values d = dc_values d'
}.

Definition within (min max : option f64) (v : f64) : bool :=
  match min with Some m => f64_leb m v | None => true end && match max with Some m => f64_leb v m | None => true end.

Definition no_nan (bound : option f64) : Prop := forall m, bound = Some m -> f64_is_nan m = false.

(** What an entry makes of the declarations of its key. *)
Record reconciled (key : string) (declarations : list Declaration) (e : RegistryEntry) : Prop := {
  rcn_key : re_key e = key;
  rcn_type : forall d, d ∈ declarations -> re_field_type e = dc_field_type d;
  rcn_domain : forall d, d ∈ declarations -> re_field_type e = "enum" -> re_values e = dc_values d;
  rcn_denied : forall scope, scope ∈ re_denied_scopes e <-> exists d, d ∈ declarations /\ scope ∈ dc_denied_scopes d;
  rcn_selector : re_selector e = true <-> exists d, d ∈ declarations /\ dc_selector d = true;
  rcn_omit : re_omit_from_config_block e = true <-> exists d, d ∈ declarations /\ dc_omit_from_config_block d = true;
  rcn_provenance : forall p, p ∈ re_provenance e <-> exists d, d ∈ declarations /\ dc_provenance d = p;
  rcn_host_default : forall d before after, declarations = before ++ d :: after -> dc_is_host d = true ->
    (forall d', d' ∈ before -> dc_is_host d' = false) -> re_default e = dc_default d;
  rcn_module_default : forall d after, declarations = d :: after -> (forall d', d' ∈ declarations -> dc_is_host d' = false) ->
    re_default e = dc_default d;
  rcn_bounds : (forall d, d ∈ declarations -> no_nan (dc_min d) /\ no_nan (dc_max d)) -> forall v, f64_is_nan v = false ->
    within (re_min e) (re_max e) v = true <-> forall d, d ∈ declarations -> within (dc_min d) (dc_max d) v = true
}.

(** *** Bounds *)

Section bounds.
Context (maximum : bool) (v : f64) (Hv : f64_is_nan v = false).

Let test (m : f64) : bool := if maximum then f64_leb m v else f64_leb v m.
Let opt_test (m : option f64) : bool := match m with Some m => test m | None => true end.

Lemma test_combine a b :
  f64_is_nan a = false -> f64_is_nan b = false ->
  f64_is_nan (if maximum then f64_max a b else f64_min a b) = false /\
  test (if maximum then f64_max a b else f64_min a b) = test a && test b.
Proof using Hv.
  intros Ha Hb. unfold test. destruct maximum.
  - destruct (f64_max_key a b Ha Hb) as [Hn Hk]. split; [done |]. rewrite !f64_leb_spec, Hk by done.
    apply Bool.eq_true_iff_eq. rewrite andb_true_iff, !Z.leb_le. lia.
  - destruct (f64_min_key a b Ha Hb) as [Hn Hk]. split; [done |]. rewrite !f64_leb_spec, Hk by done.
    apply Bool.eq_true_iff_eq. rewrite andb_true_iff, !Z.leb_le. lia.
Qed.

Lemma effective_bound_test values :
  Forall no_nan values -> opt_test (effective_bound values maximum) = forallb opt_test values.
Proof using Hv.
  intros Hnn. unfold effective_bound.
  assert (Hgen : forall current, no_nan current ->
    opt_test (foldl (fun current value => Some match current with
                | None => value
                | Some previous => if maximum then f64_max previous value else f64_min previous value
                end) current (omap id values)) = opt_test current && forallb opt_test values);
    [|by rewrite Hgen].
  induction Hnn as [|[m|] values Hm Hnn IH]; intros current Hcur; cbn [omap list_omap id foldl forallb].
  - by rewrite andb_true_r.
  - specialize (Hm m eq_refl). rewrite IH.
    + cbn [opt_test]. destruct current as [c|]; cbn [opt_test]; [|done].
      rewrite (proj2 (test_combine c m (Hcur c eq_refl) Hm)), andb_assoc. done.
    + intros x [= <-]. destruct current as [c|]; [|done]. apply (test_combine c m); [by apply Hcur | done].
  - by rewrite IH.
Qed.
End bounds.

Lemma bounds_intersect (declarations : list Declaration) v :
  (forall d, d ∈ declarations -> no_nan (dc_min d) /\ no_nan (dc_max d)) -> f64_is_nan v = false ->
  within (effective_bound (dc_min <$> declarations) true) (effective_bound (dc_max <$> declarations) false) v = true <->
  forall d, d ∈ declarations -> within (dc_min d) (dc_max d) v = true.
Proof.
  intros Hnn Hv. unfold within.
  rewrite (effective_bound_test true v Hv), (effective_bound_test false v Hv).
  - rewrite andb_true_iff, !forallb_forall. setoid_rewrite <-list_elem_of_In. setoid_rewrite list_elem_of_fmap.
    split.
    + intros [Hmin Hmax] d Hd. by rewrite (Hmin _ (ex_intro _ d (conj eq_refl Hd))), (Hmax _ (ex_intro _ d (conj eq_refl Hd))).
    + intros Hall. split; intros x (d & -> & Hd); specialize (Hall d Hd); by apply andb_true_iff in Hall as [? ?].
  - apply Forall_fmap, Forall_forall. intros d Hd. by apply Hnn.
  - apply Forall_fmap, Forall_forall. intros d Hd. by apply Hnn.
Qed.

(** *** One key *)

Lemma contains_scope_true scopes scope : contains_scope scopes scope = true <-> scope ∈ scopes.
Proof.
  unfold contains_scope. rewrite existsb_elem. split.
  - intros (x & Hx & <-%String.eqb_eq). done.
  - intros H. exists scope. split; [done | apply String.eqb_refl].
Qed.

Lemma find_host_Some before d after :
  dc_is_host d = true -> (forall d', d' ∈ before -> dc_is_host d' = false) -> find_host (before ++ d :: after) = Some d.
Proof.
  intros Hd. unfold find_host. induction before as [|d' before IH]; intros Hb; cbn; [by rewrite Hd |].
  rewrite (Hb d') by left. apply IH. intros. apply Hb. by right.
Qed.

Lemma find_host_None declarations :
  (forall d, d ∈ declarations -> dc_is_host d = false) ->
  find_host declarations = None /\ module_declarations declarations = declarations.
Proof.
  intros Hall. split.
  - unfold find_host. induction declarations as [|d ds IH]; [done |]. cbn. rewrite (Hall d) by left.
    apply IH. intros. apply Hall. by right.
  - unfold module_declarations. apply list_filter_all, Forall_forall. done.
Qed.

Lemma selected_values_agree declarations d :
  d ∈ declarations -> (forall d', d' ∈ declarations -> dc_values d' = dc_values d) ->
  selected_values declarations = dc_values d.
Proof.
  intros Hd Hall. unfold selected_values.
  assert (Hf : forall f, find_host declarations = Some f -> f ∈ declarations).
  { intros f Hf. apply find_some in Hf as [Hf _]. by apply list_elem_of_In. }
  destruct (find_host declarations) as [f|] eqn:He; cbn.
  - rewrite (Hall f (Hf f eq_refl)). destruct (dc_values d) eqn:Hv; [done |].
    unfold first_some. replace (omap dc_values (module_declarations declarations)) with (@nil (list string)); [done |].
    symmetry. apply list_nil_elem. intros x (m & Hm & Hx)%list_elem_of_omap.
    apply list_elem_of_filter in Hm as [_ Hm]. rewrite (Hall m Hm) in Hx. congruence.
  - assert (Hhost : forall d', d' ∈ declarations -> dc_is_host d' = false).
    { intros d' Hd'. destruct (dc_is_host d') eqn:Hh; [|done].
      eapply find_none in He; [|by apply list_elem_of_In]. congruence. }
    rewrite (proj2 (find_host_None declarations Hhost)). clear Hf He Hhost. unfold first_some.
    destruct (dc_values d) as [vs|] eqn:Hv.
    + destruct declarations as [|d0 ds]; [by apply not_elem_of_nil in Hd |]. cbn.
      by rewrite (Hall d0 ltac:(left)).
    + replace (omap dc_values declarations) with (@nil (list string)); [done |].
      symmetry. apply list_nil_elem. intros x (m & Hm & Hx)%list_elem_of_omap. rewrite (Hall m Hm) in Hx. congruence.
Qed.

(** An entry reconciles the declarations it is made from. *)
Lemma reconcile_reconciles key first declarations :
  declarations = first :: tail declarations -> consistent declarations ->
  reconciled key declarations (reconcile key first declarations).
Proof.
  intros Hne Hc. assert (Hfirst : first ∈ declarations) by (rewrite Hne; left). constructor; cbn [reconcile re_key
    re_field_type re_default re_min re_max re_values re_denied_scopes re_selector re_omit_from_config_block re_provenance].
  - done.
  - intros d Hd. by apply (cs_types _ Hc).
  - intros d Hd Ht. apply selected_values_agree; [done |]. intros d' Hd'. apply (cs_domains _ Hc); [done..|].
    by rewrite (cs_types _ Hc d' first).
  - intros scope. unfold denied_union. rewrite list_elem_of_filter, existsb_elem.
    setoid_rewrite contains_scope_true. split; [naive_solver |]. intros (d & Hd & Hs). split; [eauto |].
    by eapply (cs_vocabulary _ Hc).
  - apply existsb_elem.
  - apply existsb_elem.
  - intros p. unfold sorted_provenance. rewrite elem_of_btree_elems, elem_of_list_to_set, list_elem_of_fmap. naive_solver.
  - intros d before after -> Hh Hb. by rewrite find_host_Some.
  - intros d after Hd Hh. destruct (find_host_None declarations Hh) as [-> ->]. by rewrite Hd.
  - intros Hnn v Hv. by apply bounds_intersect.
Qed.

(** Why a key is rejected. *)
Definition key_defect (key : string) (declarations : list Declaration) (e : RegistryLoadError) : Prop :=
  match e with
  | UnknownDeniedScope k scope =>
      k = key /\ scope ∉ ALLOWED_DENIED_SCOPES /\ exists d, d ∈ declarations /\ scope ∈ dc_denied_scopes d
  | SelectorStatablePerRegion k =>
      k = key /\ exists d scope, d ∈ declarations /\ dc_selector d = true /\ scope ∈ PER_REGION_SCOPES /\
        scope ∉ dc_denied_scopes d
  | TypeDisagreement k declarers =>
      k = key /\ declarers = sorted_provenance declarations /\
      exists d d', d ∈ declarations /\ d' ∈ declarations /\ dc_field_type d <> dc_field_type d'
  | EnumDomainDisagreement k declarers =>
      k = key /\ declarers = sorted_provenance declarations /\
      exists d d', d ∈ declarations /\ d' ∈ declarations /\ dc_field_type d = "enum" /\ dc_values d <> dc_values d'
  | _ => False
  end.

Lemma key_defect_inconsistent key declarations e : key_defect key declarations e -> ~ consistent declarations.
Proof.
  intros Hd [Hv Hs Ht He]. destruct e; cbn in Hd; try done.
  - destruct Hd as (_ & _ & d & d' & Hin & Hin' & Hne). by apply Hne, Ht.
  - destruct Hd as (_ & _ & d & d' & Hin & Hin' & Henum & Hne). by apply Hne, He.
  - destruct Hd as (_ & d & scope & Hin & Hsel & Hp & Hn). by apply Hn, Hs.
  - destruct Hd as (_ & Hn & d & Hin & Hsc). by eapply Hn, Hv.
Qed.

Lemma for_each_Err {A E} (f : A -> result unit E) l e : for_each f l = Err e -> exists x, x ∈ l /\ f x = Err e.
Proof.
  induction l as [|x l IH]; cbn; [done |]. destruct (f x) as [[]|e'] eqn:Hx; cbn.
  - intros (y & Hy & He)%IH. exists y. split; [by right | done].
  - intros [= ->]. exists x. split; [by left | done].
Qed.

Lemma validate_denied_scopes_cases key declarations :
  match validate_denied_scopes key declarations with
  | Ok _ => forall d scope, d ∈ declarations -> scope ∈ dc_denied_scopes d -> scope ∈ ALLOWED_DENIED_SCOPES
  | Err e => key_defect key declarations e
  end.
Proof.
  unfold validate_denied_scopes. destruct (for_each _ declarations) as [[]|e] eqn:He.
  - rewrite for_each_Ok in He. intros d scope Hd Hs. specialize (He d Hd). rewrite for_each_Ok in He.
    specialize (He scope Hs). cbv beta in He. destruct (contains_scope _ scope) eqn:Hc; [|done].
    by apply contains_scope_true.
  - apply for_each_Err in He as (d & Hd & (scope & Hs & He)%for_each_Err).
    destruct (contains_scope _ scope) eqn:Hc; [done |]. injection He as <-. cbn. split_and!; [done | |eauto].
    intros Hin%contains_scope_true. congruence.
Qed.

Lemma validate_selectors_cases key declarations :
  match validate_selectors key declarations with
  | Ok _ => forall d scope, d ∈ declarations -> dc_selector d = true -> scope ∈ PER_REGION_SCOPES ->
      scope ∈ dc_denied_scopes d
  | Err e => key_defect key declarations e
  end.
Proof.
  unfold validate_selectors. destruct (for_each _ declarations) as [[]|e] eqn:He.
  - rewrite for_each_Ok in He. intros d scope Hd Hsel Hs. specialize (He d Hd). cbv beta in He. rewrite Hsel in He.
    destruct (existsb _ PER_REGION_SCOPES) eqn:Hex; [done |]. apply contains_scope_true.
    destruct (contains_scope (dc_denied_scopes d) scope) eqn:Hc; [done |].
    rewrite (proj2 (existsb_elem _ _)) in Hex; [done |]. exists scope. by rewrite Hc.
  - apply for_each_Err in He as (d & Hd & He).
    destruct (dc_selector d) eqn:Hsel; [|done]. cbn [andb] in He.
    destruct (existsb _ PER_REGION_SCOPES) eqn:Hex; [|done]. injection He as <-.
    apply existsb_elem in Hex as (scope & Hs & Hn%negb_true_iff). cbn. split; [done |]. exists d, scope.
    split_and!; [done.. |]. intros Hin%contains_scope_true. congruence.
Qed.

(** One turn of the loop adds the entry of a consistent key, or reports its defect. *)
Lemma assemble_key_cases entries warnings key declarations :
  declarations <> [] ->
  match assemble_key (entries, warnings) (key, declarations) with
  | Ok (entries', _) => consistent declarations /\
      exists e, entries' = <[key := e]> entries /\ reconciled key declarations e /\
        re_base_key e = selected_base_key declarations
  | Err e => key_defect key declarations e
  end.
Proof.
  intros Hne. unfold assemble_key.
  pose proof (validate_denied_scopes_cases key declarations) as Hden.
  destruct (validate_denied_scopes key declarations) as [[]|e]; [|done]. cbn [result_bind].
  pose proof (validate_selectors_cases key declarations) as Hsel.
  destruct (validate_selectors key declarations) as [[]|e]; [|done]. cbn [result_bind].
  destruct declarations as [|first ds] eqn:Hds; [done |]. rewrite <-Hds in *.
  assert (Hfirst : first ∈ declarations) by (rewrite Hds; left).
  destruct (existsb (fun d => negb (String.eqb (dc_field_type d) (dc_field_type first))) declarations) eqn:Hty.
  { apply existsb_elem in Hty as (d & Hd & Ht%negb_true_iff%String.eqb_neq). cbn. split_and!; [done..|]. by exists d, first. }
  assert (Htypes : forall d, d ∈ declarations -> dc_field_type d = dc_field_type first).
  { intros d Hd. apply String.eqb_eq. destruct (String.eqb _ _) eqn:He; [done |].
    rewrite (proj2 (existsb_elem _ _)) in Hty; [done |]. exists d. by rewrite He. }
  destruct (String.eqb (dc_field_type first) "enum" && _) eqn:Hen.
  { apply andb_true_iff in Hen as [Henum%String.eqb_eq (d & Hd & Hv%negb_true_iff%bool_decide_eq_false)%existsb_elem].
    cbn. split_and!; [done..|]. exists d, first. by rewrite (Htypes d). }
  assert (Hcons : consistent declarations).
  { constructor; [exact Hden | exact Hsel | |].
    - intros d d' Hd Hd'. by rewrite (Htypes d), (Htypes d').
    - intros d d' Hd Hd' Henum. rewrite (Htypes d) in Henum by done. rewrite (proj2 (String.eqb_eq _ _) Henum) in Hen.
      cbn [andb] in Hen.
      assert (Hv : forall x, x ∈ declarations -> dc_values x = dc_values first); [|by rewrite (Hv d), (Hv d')].
      intros x Hx. destruct (decide (dc_values x = dc_values first)) as [|Hn]; [done |].
      rewrite (proj2 (existsb_elem _ _)) in Hen; [done |]. exists x. by rewrite bool_decide_eq_false_2. }
  split; [done |]. eexists. split; [done |]. split; [|done].
  apply reconcile_reconciles; [|done]. by rewrite Hds.
Qed.

(** All keys. *)
Definition entries_of (decls : gmap string (list Declaration)) (entries : gmap string RegistryEntry) : Prop :=
  forall key, match decls !! key with
  | Some ds => consistent ds /\ exists e, entries !! key = Some e /\ reconciled key ds e /\
                 re_base_key e = selected_base_key ds
  | None => entries !! key = None
  end.

(** The state of the loop after some keys. *)
Definition assembled_so_far (done : list (string * list Declaration)) (entries : gmap string RegistryEntry) : Prop :=
  (forall key ds, (key, ds) ∈ done -> consistent ds /\ exists e, entries !! key = Some e /\ reconciled key ds e /\
     re_base_key e = selected_base_key ds) /\
  (forall key, key ∉ done.*1 -> entries !! key = None).

Lemma assembled_snoc done key ds entries e :
  key ∉ done.*1 -> consistent ds -> reconciled key ds e -> re_base_key e = selected_base_key ds ->
  assembled_so_far done entries -> assembled_so_far (done ++ [(key, ds)]) (<[key := e]> entries).
Proof.
  intros Hnew Hcons Hrec Hbase [Hd Hn]. split.
  - intros k ds' [Hin | [= -> ->]%list_elem_of_singleton]%elem_of_app.
    + rewrite lookup_insert_ne; [by apply Hd |]. intros <-. apply Hnew, list_elem_of_fmap. by exists (key, ds').
    + rewrite lookup_insert_eq. eauto.
  - intros k. rewrite fmap_app, not_elem_of_app. cbn. rewrite list_elem_of_singleton. intros [Hk Hne].
    rewrite lookup_insert_ne by done. by apply Hn.
Qed.

Lemma assemble_entries_cases (decls : gmap string (list Declaration)) :
  (forall key ds, decls !! key = Some ds -> ds <> []) ->
  match try_fold assemble_key (∅, []) (btree_iter decls) with
  | Ok (entries, _) => entries_of decls entries
  | Err e => exists key ds, decls !! key = Some ds /\ key_defect key ds e
  end.
Proof.
  intros Hne.
  assert (H : match try_fold assemble_key (∅, []) (btree_iter decls) with
              | Ok st => assembled_so_far (btree_iter decls) st.1
              | Err e => exists key ds, decls !! key = Some ds /\ key_defect key ds e
              end).
  { apply (try_fold_inv assemble_key (fun seen st => assembled_so_far seen st.1)).
    { split; [by intros ? ? ?%not_elem_of_nil | done]. }
    intros seen [k ds] todo [en w] Hl HI. cbn [fst] in HI.
    assert (Hin : decls !! k = Some ds) by (apply elem_of_btree_iter; rewrite Hl; set_solver).
    pose proof (assemble_key_cases en w k ds (Hne _ _ Hin)) as Hc.
    destruct (assemble_key (en, w) (k, ds)) as [[en' w']|e']; [|by exists k, ds].
    destruct Hc as (Hcons & e0 & -> & Hr & Hb). cbn [fst]. apply assembled_snoc; [|done..].
    pose proof (NoDup_btree_keys decls) as Hnd. unfold btree_keys in Hnd. rewrite Hl, fmap_app in Hnd.
    apply NoDup_app in Hnd as (_ & Hdisj & _). intros Hk. apply (Hdisj k); [exact Hk | left]. }
  destruct (try_fold assemble_key (∅, []) (btree_iter decls)) as [[entries warnings]|e]; [|done].
  cbn [fst] in H. rename H into Hout.
  destruct Hout as [Hd Hn]. intros key. destruct (decls !! key) as [ds|] eqn:Hk.
  - apply Hd. by apply elem_of_btree_iter.
  - apply Hn. intros ((k & ds) & -> & Hin)%list_elem_of_fmap. apply elem_of_btree_iter in Hin. cbn in Hk. congruence.
Qed.

(** *** Base keys *)

(** [base_step m b k]: the base key of [k] is [b]. *)
Definition base_step (m : gmap string RegistryEntry) : relation string := fun b k => base_key_of m k = Some b.

Lemma tc_last {A} (R : relation A) x z : tc R x z -> exists w, rtc R x w /\ R w z.
Proof.
  induction 1 as [x z Hxz | x y z Hxy Hyz (w & Hw & Hwz)]; [by exists x; split; [constructor |] |].
  exists w. split; [|done]. by eapply rtc_l.
Qed.

Lemma tc_irreflexive_Acc {A} (R : relation A) x : Acc R x -> ~ tc R x x.
Proof.
  induction 1 as [x _ IH]. intros (w & Hxw & Hwx)%tc_last.
  apply (IH w Hwx). eapply tc_rtc_r; [by apply tc_once | done].
Qed.

(** The walk along base keys ends, and finds a cycle exactly when there is one. *)
Lemma base_walk_spec (m : gmap string RegistryEntry) fuel (visited : gset string) current :
  (size (dom m ∖ visited) < fuel)%nat -> (forall v, v ∈ visited -> tc (base_step m) current v) ->
  exists cycle, base_walk fuel m visited current = Done cycle /\
    (cycle = false -> Acc (base_step m) current) /\
    (cycle = true -> exists x, rtc (base_step m) x current /\ tc (base_step m) x x).
Proof.
  revert visited current. induction fuel as [|fuel IH]; intros visited current Hfuel Hvis; [lia |]. cbn [base_walk].
  case_bool_decide as Hin.
  { exists true. split; [done |]. split; [done |]. intros _. exists current. split; [done | by apply Hvis]. }
  destruct (base_key_of m current) as [next|] eqn:Hnext.
  - assert (Hdom : current ∈ dom m).
    { apply elem_of_dom. unfold base_key_of in Hnext. destruct (m !! current); [done | discriminate]. }
    destruct (IH ({[current]} ∪ visited) next) as (cycle & Hw & Hf & Ht).
    + assert (Hlt : (size (dom m ∖ ({[current]} ∪ visited)) < size (dom m ∖ visited))%nat); [|lia].
      apply subset_size. set_solver.
    + assert (Hstep : base_step m next current) by done.
      intros v [->%elem_of_singleton | Hv]%elem_of_union; [by apply tc_once |]. eapply tc_l; [done | by apply Hvis].
    + exists cycle. split; [done |]. split.
      * intros Hc. constructor. intros b Hb. unfold base_step in Hb. rewrite Hnext in Hb. injection Hb as <-. by apply Hf.
      * intros Hc. destruct (Ht Hc) as (x & Hx & Hxx). exists x. split; [|done]. eapply rtc_r; [done |]. exact Hnext.
  - exists false. split; [done |]. split; [|done]. intros _. constructor. intros b Hb. unfold base_step in Hb. congruence.
Qed.

Lemma for_each_exec_cases {A E} (f : A -> exec (result unit E)) (Good : A -> Prop) (Bad : A -> E -> Prop) l :
  (forall x, x ∈ l -> exists r, f x = Done r /\ match r with Ok _ => Good x | Err e => Bad x e end) ->
  exists r, for_each_exec f l = Done r /\
    match r with Ok _ => forall x, x ∈ l -> Good x | Err e => exists x, x ∈ l /\ Bad x e end.
Proof.
  induction l as [|x l IH]; intros Hall.
  { exists (Ok tt). split; [done |]. by intros ? ?%not_elem_of_nil. }
  destruct (Hall x) as (r & Hr & Hx); [by left |]. cbn [for_each_exec]. rewrite Hr. cbn [exec_bind].
  destruct r as [[]|e].
  - destruct IH as (r & Hl & Hrest); [intros; apply Hall; by right |]. exists r. split; [done |].
    destruct r as [u|e]; [by intros y [-> |Hy]%elem_of_cons; [|apply Hrest] |].
    destruct Hrest as (y & Hy & Hb). exists y. split; [by right | done].
  - exists (Err e). split; [done |]. exists x. split; [by left | done].
Qed.

(** A base key is declared, takes absolute values, and the chain of bases ends. *)
Definition bases_sound (m : gmap string RegistryEntry) : Prop :=
  (forall key e base, m !! key = Some e -> re_base_key e = Some base ->
     exists be, m !! base = Some be /\ re_field_type be ∈ ["float"; "float_or_percent"]) /\
  well_founded (base_step m).

Definition base_defect (m : gmap string RegistryEntry) (e : RegistryLoadError) : Prop :=
  match e with
  | BaseKeyMissing key base => base_key_of m key = Some base /\ m !! base = None
  | BaseKeyNotPercentCompatible key base =>
      base_key_of m key = Some base /\ exists be, m !! base = Some be /\ re_field_type be ∉ ["float"; "float_or_percent"]
  | BaseKeyCycle key base => base_key_of m key = Some base /\ exists x, rtc (base_step m) x key /\ tc (base_step m) x x
  | _ => False
  end.

Lemma base_defect_unsound m e : base_defect m e -> ~ bases_sound m.
Proof.
  intros Hd [Hs Hwf].
  assert (Hb : forall key base, base_key_of m key = Some base ->
    exists be, m !! base = Some be /\ re_field_type be ∈ ["float"; "float_or_percent"]).
  { intros key base (entry & He & Hbase)%bind_Some. by eapply Hs. }
  destruct e; cbn in Hd; try done.
  - destruct Hd as [(be & Hbe & _)%Hb Hn]. congruence.
  - destruct Hd as [(be & Hbe & Ht)%Hb (be' & Hbe' & Hn)]. congruence.
  - destruct Hd as (_ & x & _ & Hx). by apply (tc_irreflexive_Acc _ x (Hwf x)).
Qed.

(** The second pass over one entry. *)
Lemma check_base_cycle_cases (m : gmap string RegistryEntry) key e :
  m !! key = Some e ->
  exists r, check_base_cycle m (key, e) = Done r /\
    match r with Ok _ => Acc (base_step m) key | Err e => base_defect m e end.
Proof.
  intros He. unfold check_base_cycle. cbn [fst snd].
  assert (Hkb : base_key_of m key = re_base_key e) by (unfold base_key_of; by rewrite He).
  destruct (re_base_key e) as [base|] eqn:Hb.
  - destruct (base_walk_spec m (S (S (size m))) {[key]} base) as (cycle & Hw & Hf & Ht).
    + assert (Hle : (size (dom m ∖ {[key]} : gset string) <= size (dom m : gset string))%nat)
        by (apply subseteq_size; set_solver).
      rewrite size_dom in Hle. lia.
    + intros v ->%elem_of_singleton. by apply tc_once.
    + rewrite Hw. cbn [exec_bind]. eexists. split; [done |]. destruct cycle.
      * cbn. split; [done |]. destruct (Ht eq_refl) as (x & Hx & Hxx). exists x. split; [|done]. by eapply rtc_r.
      * cbn. constructor. intros b Hbs. unfold base_step in Hbs. rewrite Hkb in Hbs. injection Hbs as <-. by apply Hf.
  - eexists. split; [done |]. cbn. constructor. intros b Hbs. unfold base_step in Hbs. congruence.
Qed.

(** The first pass over one entry. *)
Lemma check_base_key_cases (m : gmap string RegistryEntry) key e :
  m !! key = Some e ->
  match check_base_key m (key, e) with
  | Ok _ => forall base, re_base_key e = Some base ->
      exists be, m !! base = Some be /\ re_field_type be ∈ ["float"; "float_or_percent"]
  | Err e => base_defect m e
  end.
Proof.
  intros He. assert (Hkb : base_key_of m key = re_base_key e) by (unfold base_key_of; by rewrite He).
  unfold check_base_key. cbn [snd fst]. destruct (re_base_key e) as [base|]; [|done].
  destruct (m !! base) as [be|] eqn:Hbe; [|done].
  destruct (String.eqb_spec (re_field_type be) "float") as [Ht1|Hn1]; cbn [orb].
  { intros b [= <-]. exists be. split; [done |]. rewrite Ht1. by left. }
  destruct (String.eqb_spec (re_field_type be) "float_or_percent") as [Ht2|Hn2].
  { intros b [= <-]. exists be. split; [done |]. rewrite Ht2. by right; left. }
  cbn. split; [done |]. exists be. split; [done |]. set_solver.
Qed.

Lemma validate_base_keys_cases (m : gmap string RegistryEntry) :
  exists r, validate_base_keys m = Done r /\ match r with Ok _ => bases_sound m | Err e => base_defect m e end.
Proof.
  unfold validate_base_keys. destruct (for_each (check_base_key m) (btree_iter m)) as [[]|e] eqn:Hfe.
  - rewrite for_each_Ok in Hfe.
    destruct (for_each_exec_cases (check_base_cycle m) (fun ke => Acc (base_step m) ke.1) (fun _ e => base_defect m e)
      (btree_iter m)) as (r & Hr & Hcase).
    { intros [k e] Hke%elem_of_btree_iter. by apply check_base_cycle_cases. }
    exists r. split; [done |]. destruct r as [u|e]; [|by destruct Hcase as (ke & _ & Hd)]. split.
    + intros key e base He. pose proof (check_base_key_cases m key e He) as Hc.
      rewrite (Hfe (key, e)) in Hc by by apply elem_of_btree_iter. apply Hc.
    + intros key. destruct (m !! key) as [e|] eqn:He.
      * apply (Hcase (key, e)). by apply elem_of_btree_iter.
      * constructor. intros b Hb. unfold base_step, base_key_of in Hb. by rewrite He in Hb.
  - apply for_each_Err in Hfe as ([k e'] & Hke%elem_of_btree_iter & He). exists (Err e). split; [done |].
    pose proof (check_base_key_cases m k e' Hke) as Hc. by rewrite He in Hc.
Qed.

(** *** The whole registry *)

Lemma declarations_nonempty modules host key ds : declarations_by_key modules host !! key = Some ds -> ds <> [].
Proof.
  unfold declarations_by_key. intros Hds ->.
  assert (Hgen : forall es (m0 : gmap string (list Declaration)), m0 !! key <> Some [] -> foldl push_entry m0 es !! key <> Some []).
  { induction es as [|[k d] es IH]; intros m0 H0; [done |]. cbn [foldl]. apply IH. unfold push_entry. cbn [fst snd].
    destruct (decide (k = key)) as [-> | Hne]; [rewrite lookup_insert_eq | by rewrite lookup_insert_ne].
    intros [= He]. by destruct (default [] (m0 !! key)). }
  by apply (Hgen (declared modules host) ∅) in Hds.
Qed.

Lemma assemble_registry_cases modules host :
  exists r, assemble_registry modules host = Done r /\
  match r with
  | Ok out => entries_of (declarations_by_key modules host) (entries (ao_registry out)) /\
              bases_sound (entries (ao_registry out))
  | Err e =>
      (exists key ds, declarations_by_key modules host !! key = Some ds /\ key_defect key ds e) \/
      (exists m, entries_of (declarations_by_key modules host) m /\ base_defect m e)
  end.
Proof.
  unfold assemble_registry.
  pose proof (assemble_entries_cases (declarations_by_key modules host) (declarations_nonempty modules host)) as H.
  destruct (try_fold assemble_key _ _) as [[m warnings]|e]; [|by eexists; split; [done | left]].
  destruct (validate_base_keys_cases m) as (r & -> & Hr). cbn [exec_bind]. eexists. split; [done |].
  destruct r as [u|e]; [done |]. right. by exists m.
Qed.

(** [C12].  Assembling the registry ends, and succeeds exactly when it may.  On success there is one
    entry for every declared key; its declarations agree on type and enum values, deny only
    scopes of the vocabulary, and deny every per-region scope of a selector; the entry
    reconciles them: denied scopes are united, a value is within its bounds exactly when it
    is within those of every declaration, and the default is that of the host if the host
    declares the key; base keys are declared, absolute and without cycles.  An error names
    a defect that is there: of the declarations of the key it names, or of a base key. *)
Theorem registry_exact (modules : list ModuleDeclaration) (host : HostChannels) :
  exists r, assemble_registry modules host = Done r /\
  match r with
  | Ok out =>
      (forall key, match declarations_by_key modules host !! key with
       | Some ds => consistent ds /\ exists e, entry (ao_registry out) key = Some e /\ reconciled key ds e
       | None => entry (ao_registry out) key = None
       end) /\ bases_sound (entries (ao_registry out))
  | Err e =>
      (exists key ds, declarations_by_key modules host !! key = Some ds /\ key_defect key ds e /\ ~ consistent ds) \/
      (exists m, entries_of (declarations_by_key modules host) m /\ base_defect m e /\ ~ bases_sound m)
  end.
Proof.
  destruct (assemble_registry_cases modules host) as (r & -> & Hr). exists r. split; [done |].
  destruct r as [out|e].
  - destruct Hr as [He Hb]. split; [|done]. intros key. specialize (He key).
    destruct (declarations_by_key modules host !! key) as [ds|]; [|done].
    destruct He as (Hc & e & He & Hrec & _). eauto.
  - destruct Hr as [(key & ds & Hds & Hd) | (m & Hm & Hd)].
    + left. exists key, ds. split_and!; [done.. | exact (key_defect_inconsistent key ds e Hd)].
    + right. exists m. split_and!; [done.. | exact (base_defect_unsound m e Hd)].
Qed.

(** A key may be stated at a scope exactly when it is declared and none of its declarers
    denies the family of the scope. *)
Theorem admission_by_declarers (modules : list ModuleDeclaration) (host : HostChannels) (out : AssemblyOutcome)
    (Hout : assemble_registry modules host = Done (Ok out)) (key : string) (scope : ConfigScope) :
  key ∈ admission_set (ao_registry out) scope <->
  exists ds, declarations_by_key modules host !! key = Some ds /\
    forall d, d ∈ ds -> scope_denial_label scope ∉ dc_denied_scopes d.
Proof.
  destruct (assemble_registry_cases modules host) as (r & Hr & Hcases). rewrite Hout in Hr. injection Hr as <-.
  destruct Hcases as [He _]. unfold admission_set. rewrite elem_of_list_to_set, list_elem_of_fmap. split.
  - intros (e & -> & [Hden Hin]%list_elem_of_filter). apply elem_of_btree_values in Hin as (k & Hk).
    pose proof (He k) as Hek. destruct (declarations_by_key modules host !! k) as [ds|] eqn:Hds; [|congruence].
    destruct Hek as (_ & e' & He' & Hrec & _). rewrite Hk in He'. injection He' as <-.
    rewrite (rcn_key _ _ _ Hrec). exists ds. split; [done |]. intros d Hd Hs.
    assert (Hin : scope_denial_label scope ∈ re_denied_scopes e) by (apply (rcn_denied _ _ _ Hrec); eauto).
    apply contains_scope_true in Hin. unfold contains_scope in Hin. congruence.
  - intros (ds & Hds & Hall). pose proof (He key) as Hek. rewrite Hds in Hek.
    destruct Hek as (_ & e & Hk & Hrec & _). exists e. split; [by rewrite (rcn_key _ _ _ Hrec) |].
    apply list_elem_of_filter. split; [|apply elem_of_btree_values; eauto].
    destruct (existsb _ _) eqn:Hex; [|done]. exfalso.
    assert (Hin : scope_denial_label scope ∈ re_denied_scopes e) by by apply contains_scope_true.
    apply (rcn_denied _ _ _ Hrec) in Hin as (d & Hd & Hs). by apply (Hall d).
Qed.

(** ** An example *)

Definition module_field (field_type : string) (dflt base : option string) (denied : list string) : ConfigFieldEntry :=
  {| cfe_field_type := field_type; cfe_default := dflt; cfe_parsed_default := None; cfe_min := None; cfe_max := None;
     cfe_step := None; cfe_display := None; cfe_description := None; cfe_group := None; cfe_unit := None;
     cfe_values := None; cfe_max_length := None;
     cfe_min_list_length := None; cfe_max_list_length := None; cfe_advanced := false; cfe_tags := []; cfe_selector := false; cfe_base_key := base;
     cfe_denied_scopes := denied; cfe_omit_from_config_block := false |}.

Definition brim_module : ModuleDeclaration :=
  {| md_module_id := "brim";
     md_schema := {| cs_entries := {[ "brim_width" := module_field "float_or_percent" (Some "50%") (Some "layer_height") [];
                                      "brim_gap" := module_field "int" (Some "3") None ["object"] ]} |};
     md_claim_exclusive_group := None |}.

Definition skirt_module : ModuleDeclaration :=
  {| md_module_id := "skirt";
     md_schema := {| cs_entries := {[ "brim_gap" := module_field "int" (Some "4") None ["tool"] ]} |};
     md_claim_exclusive_group := None |}.

Definition no_host : HostChannels := {| hc_host_keys := []; hc_speed_keys := []; hc_runtime_keys := [] |}.

Definition denied_of (r : exec (result AssemblyOutcome RegistryLoadError)) (key : string) : option (list string) :=
  match r with Done (Ok out) => re_denied_scopes <$> entry (ao_registry out) key | _ => None end.

(** Two modules declare one key: whichever comes first, both denials count. *)
Lemma assembly_order_independent_witness :
  let modules := [brim_module; {| md_module_id := "host"; md_schema := {| cs_entries :=
    {[ "layer_height" := module_field "float" (Some "0.2") None [] ]} |}; md_claim_exclusive_group := None |}; skirt_module] in
  assemble_registry modules no_host = assemble_registry (reverse modules) no_host /\
  denied_of (assemble_registry modules no_host) "brim_gap" = Some ["object"; "tool"].
Proof.
  cbv zeta. split; [|vm_compute; reflexivity]. apply assembly_order_independent.
  - apply (bool_decide_unpack _). vm_compute. exact I.
  - symmetry. apply reverse_Permutation.
Defined.
