(* ===== verification/TypedConfig.v ===== *)
(** The interface to the typed configuration ([slicer_ir::ResolvedConfig]) that expansion and
    resolution are written against.

    A configuration has fields, each bound to a config key, and an overflow map of extensions.
    The laws say what a write does to what the configuration shows; [ResolvedFields]
    implements them from the field declarations. *)
From stdpp Require Import prelude gmap strings list.
From S2P Require Import Prelude Ir Float64.

#[local] Open Scope string_scope.
#[local] Open Scope list_scope.

Inductive ConfigResolutionError :=
| TypeMismatch (key expected actual : string)
| OutOfRange (key : string) (value : f64) (min max : option f64) (index : option nat)
| SupportLayerHeightTooFine (object_id : string) (support_layer_height_mm effective_layer_height_mm : f32).

(** [variant_name] and [config_value_name]. *)
Definition variant_name (v : ConfigValue) : string :=
  match v with
  | CvBool _ => "Bool"
  | CvInt _ => "Int"
  | CvFloat _ => "Float"
  | CvString _ => "String"
  | CvList _ => "List"
  | CvPercent _ => "Percent"
  | CvFloatOrPercent _ _ => "FloatOrPercent"
  end.

Class TypedConfig := {
  config : Type;
  config_default : config;
  (** [Ok(false)] when no field is bound to the key. *)
  apply_cli_key : config -> ConfigKey -> ConfigValue -> result (config * bool) ConfigResolutionError;
  to_config_map : config -> gmap ConfigKey ConfigValue;
  extensions : config -> gmap ConfigKey ConfigValue;
  with_extensions : config -> gmap ConfigKey ConfigValue -> config;
  typed_field_keys : list ConfigKey;
  layer_height : config -> f64;
  first_layer_height : config -> f64
}.

Class TypedConfigLaws (T : TypedConfig) := {
  (** The map key under which the field bound to a config key is shown. *)
  cell : ConfigKey -> option ConfigKey;
  (** What the field shows after a write, or why the write is refused. *)
  stored : ConfigKey -> ConfigValue -> result (option ConfigValue) ConfigResolutionError;
  (** What the fields show. *)
  rendered : config -> gmap ConfigKey ConfigValue;
  to_config_map_rendered c : to_config_map c = extensions c ∪ rendered c;
  apply_untyped c key v : cell key = None -> apply_cli_key c key v = Ok (c, false);
  apply_refused c key v s e : cell key = Some s -> stored key v = Err e -> apply_cli_key c key v = Err e;
  apply_stored c key v s shown : cell key = Some s -> stored key v = Ok shown ->
    exists c', apply_cli_key c key v = Ok (c', true) /\ extensions c' = extensions c /\
      forall k, rendered c' !! k = if decide (k = s) then shown else rendered c !! k;
  cell_of_rendered c k : is_Some (rendered c !! k) -> cell k = None \/ cell k = Some k;
  cell_typed k s : cell k = Some s -> k ∈ typed_field_keys;
  default_extensions : extensions config_default = ∅;
  extensions_with c m : extensions (with_extensions c m) = m;
  rendered_with c m : rendered (with_extensions c m) = rendered c;
  layer_height_shown c : rendered c !! "layer_height" = Some (CvFloat (layer_height c));
  first_layer_height_shown c : rendered c !! "first_layer_height" = Some (CvFloat (first_layer_height c))
}.

(** An insertion into the extensions. *)
Definition insert_extension `{TypedConfig} (c : config) (key : ConfigKey) (v : ConfigValue) : config :=
  with_extensions c (<[key := v]> (extensions c)).

Section laws.
Context {T : TypedConfig} {L : TypedConfigLaws T}.

Lemma extensions_insert c key v : extensions (insert_extension c key v) = <[key := v]> (extensions c).
Proof. apply extensions_with. Qed.

Lemma rendered_insert c key v : rendered (insert_extension c key v) = rendered c.
Proof. apply rendered_with. Qed.

Lemma config_map_lookup c key :
  to_config_map c !! key = match extensions c !! key with Some v => Some v | None => rendered c !! key end.
Proof. rewrite to_config_map_rendered, lookup_union. by destruct (extensions c !! key), (rendered c !! key). Qed.

(** The three outcomes of a write. *)
Lemma apply_cases c key v :
  match cell key with
  | None => apply_cli_key c key v = Ok (c, false)
  | Some s =>
      match stored key v with
      | Err e => apply_cli_key c key v = Err e
      | Ok shown => exists c', apply_cli_key c key v = Ok (c', true) /\ extensions c' = extensions c /\
          forall k, rendered c' !! k = if decide (k = s) then shown else rendered c !! k
      end
  end.
Proof.
  destruct (cell key) as [s|] eqn:Hs; [|by apply apply_untyped].
  destruct (stored key v) as [shown|e] eqn:Hv; [by eapply apply_stored | by eapply apply_refused].
Qed.
End laws.
