(* ===== verification/ResolvedFields.v ===== *)
(** The typed print configuration ([slicer-ir/src/resolved_config.rs]).

    The fields, their types, config keys, defaults, extractors and metadata are the rows that
    the source gives to [declare_resolved_config!]; what the macro makes of them (the default,
    [apply_cli_key], [to_config_map], [typed_field_keys], [host_config_keys]) is written once
    for all rows.  The file implements the interface of [TypedConfig].

    [Display] of floats, which only reaches declared defaults, is an argument. *)
From Stdlib Require Import Ascii Eqdep_dec SpecFloat.
From stdpp Require Import prelude gmap strings list.
From S2P Require Import Prelude Text Ir Float32 Float64 Registry TypedConfig.

#[local] Open Scope string_scope.
#[local] Open Scope list_scope.

(** ** Field types *)

Inductive WallGenerator := Classic | Arachne.
Inductive InfillType := Grid | Triangles | Honeycomb | Gyroid | Lightning | Line | Concentric.

Inductive fty :=
| TF64 | TF32 | TU32 | TBool | TString | TFloatOrPercent | TStrings | TFloats
| TWallGenerator | TInfillType | TSupportType
| TOpt (t : fty).

(** [ResolvedFloatOrPercent]: the value and whether it is a percentage. *)
Definition ResolvedFloatOrPercent : Type := f64 * bool.
Definition ResolvedFloatOrPercent_default : ResolvedFloatOrPercent := (F0, false).

Fixpoint rep (t : fty) : Type :=
  match t with
  | TF64 => f64
  | TF32 => f32
  | TU32 => Z
  | TBool => bool
  | TString => string
  | TFloatOrPercent => ResolvedFloatOrPercent
  | TStrings => list string
  | TFloats => list f64
  | TWallGenerator => WallGenerator
  | TInfillType => InfillType
  | TSupportType => SupportType
  | TOpt t => option (rep t)
  end.

#[export] Instance WallGenerator_eq_dec : EqDecision WallGenerator.
Proof. solve_decision. Defined.
#[export] Instance InfillType_eq_dec : EqDecision InfillType.
Proof. solve_decision. Defined.

(** Floats are compared by their bits. *)
#[export] Instance rep_eq_dec (t : fty) : EqDecision (rep t).
Proof. induction t; cbn; apply _. Defined.

(** ** Extractors *)

Definition int_as_f32 (i : Z) : f32 := encode (binary_normalize 24 128 i 0 false).

Definition f64_u32_max : f64 := int_as_f64 u32_max.

Definition mismatch {A} (key expected : string) (value : ConfigValue) : result A ConfigResolutionError :=
  Err (TypeMismatch key expected (variant_name value)).

Definition extract_float (key : string) (value : ConfigValue) : result f32 ConfigResolutionError :=
  match value with
  | CvFloat f => Ok (narrow f)
  | CvInt i => Ok (int_as_f32 i)
  | other => mismatch key "Float" other
  end.

Definition extract_float_or_percent (key : string) (value : ConfigValue)
    : result ResolvedFloatOrPercent ConfigResolutionError :=
  match value with
  | CvFloat f => Ok (f, false)
  | CvInt i => Ok (int_as_f64 i, false)
  | CvFloatOrPercent value is_percent => Ok (value, is_percent)
  | other => mismatch key "FloatOrPercent" other
  end.

Definition extract_f64 (key : string) (value : ConfigValue) : result f64 ConfigResolutionError :=
  match value with
  | CvFloat f => Ok f
  | CvInt i => Ok (int_as_f64 i)
  | other => mismatch key "Float" other
  end.

Definition extract_int_as_u32 (key : string) (value : ConfigValue) : result Z ConfigResolutionError :=
  match value with
  | CvInt i => if Z.leb 0 i && Z.leb i u32_max then Ok i
               else Err (OutOfRange key (int_as_f64 i) (Some F0) (Some f64_u32_max) None)
  | other => mismatch key "Int" other
  end.

Definition extract_bool (key : string) (value : ConfigValue) : result bool ConfigResolutionError :=
  match value with
  | CvBool b => Ok b
  | CvInt 0 => Ok false
  | CvInt 1 => Ok true
  | other => mismatch key "Bool" other
  end.

Definition extract_string (key : string) (value : ConfigValue) : result string ConfigResolutionError :=
  match value with
  | CvString s => Ok s
  | other => mismatch key "String" other
  end.

(** [key[i]], the name of a list element. *)
Definition element_key (key : string) (i : nat) : string := key +:+ "[" +:+ show_uint (Z.of_nat i) +:+ "]".

(** The elements of a list, the first refused one reported; a bare value is a list of one. *)
Fixpoint elements_from {A} (element : string -> ConfigValue -> result A ConfigResolutionError) (key : string)
    (i : nat) (items : list ConfigValue) : result (list A) ConfigResolutionError :=
  match items with
  | [] => Ok []
  | v :: items =>
      let? x := element (element_key key i) v in
      let? xs := elements_from element key (S i) items in Ok (x :: xs)
  end.

Definition extract_list {A} (element : string -> ConfigValue -> result A ConfigResolutionError) (key : string)
    (value : ConfigValue) : result (list A) ConfigResolutionError :=
  match value with
  | CvList items => elements_from element key 0 items
  | other => let? x := element key other in Ok [x]
  end.

Definition extract_string_list : string -> ConfigValue -> result (list string) ConfigResolutionError :=
  extract_list extract_string.

Definition float_element (key : string) (v : ConfigValue) : result f64 ConfigResolutionError :=
  match v with
  | CvFloat f => Ok f
  | CvInt n => Ok (int_as_f64 n)
  | CvString s => match parse_f64 (trim s) with Some x => Ok x | None => Err (TypeMismatch key "Float" "String") end
  | CvBool b => Ok (int_as_f64 (if b then 1 else 0)%Z)
  | other => mismatch key "Float" other
  end.

Definition extract_float_list : string -> ConfigValue -> result (list f64) ConfigResolutionError :=
  extract_list float_element.

Definition float_scalar (key : string) (value : ConfigValue) : result f32 ConfigResolutionError :=
  match value with
  | CvFloat f => Ok (narrow f)
  | CvInt i => Ok (int_as_f32 i)
  | CvString s => match parse_f32 (trim s) with Some x => Ok x | None => Err (TypeMismatch key "Float" "String") end
  | other => mismatch key "Float" other
  end.

Definition extract_float_or_first (key : string) (value : ConfigValue) : result f32 ConfigResolutionError :=
  match value with
  | CvList items =>
      match head items with
      | Some first => float_scalar (key +:+ "[0]") first
      | None => Err (TypeMismatch key "non-empty List" "empty List")
      end
  | other => float_scalar key other
  end.

Inductive extractor : fty -> Type :=
| ExF64 : extractor TF64
| ExFloat : extractor TF32
| ExFloatOrFirst : extractor TF32
| ExU32 : extractor TU32
| ExBool : extractor TBool
| ExString : extractor TString
| ExFloatOrPercent : extractor TFloatOrPercent
| ExStrings : extractor TStrings
| ExFloats : extractor TFloats.

Definition extract {t} (ex : extractor t) : string -> ConfigValue -> result (rep t) ConfigResolutionError :=
  match ex in extractor t return string -> ConfigValue -> result (rep t) ConfigResolutionError with
  | ExF64 => extract_f64
  | ExFloat => extract_float
  | ExFloatOrFirst => extract_float_or_first
  | ExU32 => extract_int_as_u32
  | ExBool => extract_bool
  | ExString => extract_string
  | ExFloatOrPercent => extract_float_or_percent
  | ExStrings => extract_string_list
  | ExFloats => extract_float_list
  end.

(** ** Rows *)

Definition SCOPE_PRINT : string := "print".
Definition SCOPE_FILAMENT : string := "filament".
Definition SCOPE_PRINTER : string := "printer".

(** A row of the declaration: a field without a config key; a field bound to one; an optional
    field bound to one, absent by default. *)
Inductive row : fty -> Type :=
| Plain t (name : string) (dflt : rep t) : row t
| Cli {t} (scope key : string) (ex : extractor t) (dflt : rep t) (meta : HostKeyMeta) : row t
| CliOpt {t} (scope key : string) (ex : extractor t) (meta : HostKeyMeta) : row (TOpt t).

(** Literals; every one in the rows is a decimal. *)
Definition lit64 (s : string) : f64 := default F0 (parse_f64 s).
Definition lit32 (s : string) : f32 := default ZERO (parse_f32 s).

(** [HostKeyMeta { display, description, group, ..NONE }], and the other fields given. *)
Definition described (display group description : string) : HostKeyMeta :=
  {| hm_display := Some display; hm_group := Some group; hm_unit := None; hm_description := Some description;
     hm_min := None; hm_max := None; hm_values := []; hm_wire_type := None; hm_advanced := false;
     hm_omit_from_config_block := false |}.
Definition with_unit (unit : string) (m : HostKeyMeta) : HostKeyMeta :=
  {| hm_display := hm_display m; hm_group := hm_group m; hm_unit := Some unit; hm_description := hm_description m;
     hm_min := hm_min m; hm_max := hm_max m; hm_values := hm_values m; hm_wire_type := hm_wire_type m;
     hm_advanced := hm_advanced m; hm_omit_from_config_block := hm_omit_from_config_block m |}.
Definition with_min (min : string) (m : HostKeyMeta) : HostKeyMeta :=
  {| hm_display := hm_display m; hm_group := hm_group m; hm_unit := hm_unit m; hm_description := hm_description m;
     hm_min := Some (lit64 min); hm_max := hm_max m; hm_values := hm_values m; hm_wire_type := hm_wire_type m;
     hm_advanced := hm_advanced m; hm_omit_from_config_block := hm_omit_from_config_block m |}.
Definition with_max (max : string) (m : HostKeyMeta) : HostKeyMeta :=
  {| hm_display := hm_display m; hm_group := hm_group m; hm_unit := hm_unit m; hm_description := hm_description m;
     hm_min := hm_min m; hm_max := Some (lit64 max); hm_values := hm_values m; hm_wire_type := hm_wire_type m;
     hm_advanced := hm_advanced m; hm_omit_from_config_block := hm_omit_from_config_block m |}.
Definition with_values (values : list string) (m : HostKeyMeta) : HostKeyMeta :=
  {| hm_display := hm_display m; hm_group := hm_group m; hm_unit := hm_unit m; hm_description := hm_description m;
     hm_min := hm_min m; hm_max := hm_max m; hm_values := values; hm_wire_type := hm_wire_type m;
     hm_advanced := hm_advanced m; hm_omit_from_config_block := hm_omit_from_config_block m |}.
Definition with_wire_type (wire_type : string) (m : HostKeyMeta) : HostKeyMeta :=
  {| hm_display := hm_display m; hm_group := hm_group m; hm_unit := hm_unit m; hm_description := hm_description m;
     hm_min := hm_min m; hm_max := hm_max m; hm_values := hm_values m; hm_wire_type := Some wire_type;
     hm_advanced := hm_advanced m; hm_omit_from_config_block := hm_omit_from_config_block m |}.
Definition omitted (m : HostKeyMeta) : HostKeyMeta :=
  {| hm_display := hm_display m; hm_group := hm_group m; hm_unit := hm_unit m; hm_description := hm_description m;
     hm_min := hm_min m; hm_max := hm_max m; hm_values := hm_values m; hm_wire_type := hm_wire_type m;
     hm_advanced := hm_advanced m; hm_omit_from_config_block := true |}.

Inductive field :=
| fd_layer_height | fd_line_width | fd_first_layer_height | fd_initial_layer_line_width | fd_filament_diameter
| fd_wall_count | fd_outer_wall_speed | fd_inner_wall_speed | fd_wall_generator | fd_arachne_min_feature_size
| fd_infill_type | fd_infill_density | fd_infill_angle | fd_infill_speed | fd_solid_infill_speed
| fd_top_shell_layers | fd_bottom_shell_layers | fd_top_fill_holder | fd_bottom_fill_holder
| fd_bridge_fill_holder | fd_sparse_fill_holder | fd_fill_authored_coloring | fd_gcode_resolution
| fd_infill_resolution | fd_infill_overlap | fd_support_resolution | fd_min_segment_length
| fd_gcode_xy_decimals | fd_perimeter_arc_tolerance | fd_slice_closing_radius | fd_flat_bridge_closing_join
| fd_support_enabled | fd_disable_m73 | fd_support_type | fd_support_threshold_angle
| fd_support_layer_height_mm | fd_support_expansion | fd_support_top_z_distance | fd_support_bottom_z_distance
| fd_support_threshold_overlap | fd_support_line_width | fd_bridge_no_support | fd_enforce_support_layers
| fd_support_critical_regions_only | fd_support_remove_small_overhang | fd_support_object_first_layer_gap
| fd_support_sharp_tails | fd_nonplanar_max_angle_deg | fd_nonplanar_shell_count | fd_nonplanar_amplitude
| fd_smoothificator_target_height | fd_smoothificator_adaptive | fd_bed_shape | fd_retract_length
| fd_wipe_tower_enabled | fd_mmu_segmented_region_max_width | fd_mmu_segmented_region_interlocking_depth
| fd_mmu_segmented_region_interlocking_beam | fd_machine_max_acceleration_extruding
| fd_machine_max_acceleration_travel | fd_machine_max_speed_x | fd_machine_max_speed_y
| fd_machine_max_speed_z | fd_machine_max_speed_e | fd_machine_max_jerk_x | fd_machine_max_jerk_y
| fd_machine_max_jerk_z | fd_machine_max_jerk_e | fd_filament_density.

(** The type of a field. *)
Definition ty (f : field) : fty :=
  match f with
  | fd_layer_height | fd_line_width | fd_first_layer_height => TF64
  | fd_initial_layer_line_width | fd_support_threshold_overlap | fd_support_line_width => TFloatOrPercent
  | fd_filament_diameter | fd_outer_wall_speed | fd_inner_wall_speed | fd_infill_density | fd_infill_angle
  | fd_infill_speed | fd_solid_infill_speed | fd_gcode_resolution | fd_infill_resolution | fd_infill_overlap
  | fd_support_resolution | fd_min_segment_length | fd_perimeter_arc_tolerance | fd_slice_closing_radius
  | fd_support_threshold_angle | fd_support_layer_height_mm | fd_support_expansion | fd_support_top_z_distance
  | fd_support_bottom_z_distance | fd_support_object_first_layer_gap | fd_retract_length
  | fd_mmu_segmented_region_max_width | fd_mmu_segmented_region_interlocking_depth => TF32
  | fd_wall_count | fd_top_shell_layers | fd_bottom_shell_layers | fd_gcode_xy_decimals
  | fd_enforce_support_layers => TU32
  | fd_wall_generator => TWallGenerator
  | fd_arachne_min_feature_size | fd_nonplanar_max_angle_deg | fd_nonplanar_amplitude
  | fd_smoothificator_target_height | fd_machine_max_acceleration_extruding
  | fd_machine_max_acceleration_travel | fd_machine_max_speed_x | fd_machine_max_speed_y
  | fd_machine_max_speed_z | fd_machine_max_speed_e | fd_machine_max_jerk_x | fd_machine_max_jerk_y
  | fd_machine_max_jerk_z | fd_machine_max_jerk_e => TOpt TF32
  | fd_infill_type => TInfillType
  | fd_top_fill_holder | fd_bottom_fill_holder | fd_bridge_fill_holder | fd_sparse_fill_holder
  | fd_flat_bridge_closing_join => TString
  | fd_fill_authored_coloring => TStrings
  | fd_support_enabled | fd_disable_m73 | fd_bridge_no_support | fd_support_critical_regions_only
  | fd_support_remove_small_overhang | fd_support_sharp_tails | fd_wipe_tower_enabled
  | fd_mmu_segmented_region_interlocking_beam => TBool
  | fd_support_type => TSupportType
  | fd_nonplanar_shell_count => TOpt TU32
  | fd_smoothificator_adaptive => TOpt TBool
  | fd_bed_shape | fd_filament_density => TFloats
  end.

(** The fields in the order of their rows. *)
Definition all_fields : list field := [
  fd_layer_height; fd_line_width; fd_first_layer_height; fd_initial_layer_line_width; fd_filament_diameter;
  fd_wall_count; fd_outer_wall_speed; fd_inner_wall_speed; fd_wall_generator; fd_arachne_min_feature_size;
  fd_infill_type; fd_infill_density; fd_infill_angle; fd_infill_speed; fd_solid_infill_speed;
  fd_top_shell_layers; fd_bottom_shell_layers; fd_top_fill_holder; fd_bottom_fill_holder;
  fd_bridge_fill_holder; fd_sparse_fill_holder; fd_fill_authored_coloring; fd_gcode_resolution;
  fd_infill_resolution; fd_infill_overlap; fd_support_resolution; fd_min_segment_length; fd_gcode_xy_decimals;
  fd_perimeter_arc_tolerance; fd_slice_closing_radius; fd_flat_bridge_closing_join; fd_support_enabled;
  fd_disable_m73; fd_support_type; fd_support_threshold_angle; fd_support_layer_height_mm;
  fd_support_expansion; fd_support_top_z_distance; fd_support_bottom_z_distance; fd_support_threshold_overlap;
  fd_support_line_width; fd_bridge_no_support; fd_enforce_support_layers; fd_support_critical_regions_only;
  fd_support_remove_small_overhang; fd_support_object_first_layer_gap; fd_support_sharp_tails;
  fd_nonplanar_max_angle_deg; fd_nonplanar_shell_count; fd_nonplanar_amplitude;
  fd_smoothificator_target_height; fd_smoothificator_adaptive; fd_bed_shape; fd_retract_length;
  fd_wipe_tower_enabled; fd_mmu_segmented_region_max_width; fd_mmu_segmented_region_interlocking_depth;
  fd_mmu_segmented_region_interlocking_beam; fd_machine_max_acceleration_extruding;
  fd_machine_max_acceleration_travel; fd_machine_max_speed_x; fd_machine_max_speed_y; fd_machine_max_speed_z;
  fd_machine_max_speed_e; fd_machine_max_jerk_x; fd_machine_max_jerk_y; fd_machine_max_jerk_z;
  fd_machine_max_jerk_e; fd_filament_density
].

Definition declared_row (f : field) : row (ty f) :=
  match f return row (ty f) with
  | fd_layer_height => Cli SCOPE_PRINT "layer_height" ExF64 (lit64 "0.2") HostKeyMeta_NONE
  | fd_line_width => Cli SCOPE_PRINT "line_width" ExF64 (lit64 "0.0") HostKeyMeta_NONE
  | fd_first_layer_height => Cli SCOPE_PRINT "first_layer_height" ExF64 (lit64 "0.2") HostKeyMeta_NONE
  | fd_initial_layer_line_width => Cli SCOPE_PRINT "initial_layer_line_width" ExFloatOrPercent
      ResolvedFloatOrPercent_default HostKeyMeta_NONE
  | fd_filament_diameter => Cli SCOPE_FILAMENT "filament_diameter" ExFloatOrFirst (lit32 "1.75") HostKeyMeta_NONE
  | fd_wall_count => Cli SCOPE_PRINT "wall_count" ExU32 2%Z HostKeyMeta_NONE
  | fd_outer_wall_speed => Cli SCOPE_PRINT "outer_wall_speed" ExFloat (lit32 "50.0") HostKeyMeta_NONE
  | fd_inner_wall_speed => Cli SCOPE_PRINT "inner_wall_speed" ExFloat (lit32 "50.0") HostKeyMeta_NONE
  | fd_wall_generator => Plain TWallGenerator "wall_generator" Classic
  | fd_arachne_min_feature_size => CliOpt SCOPE_PRINT "arachne_min_feature_size" ExFloat
      (with_min "0.0" (with_unit "mm" (described "Arachne min feature size" "Arachne"
          "Smallest wall feature size (mm) Arachne preserves. Empty/absent uses Arachne's built-in threshold.")))
  | fd_infill_type => Plain TInfillType "infill_type" Grid
  | fd_infill_density => Cli SCOPE_PRINT "infill_density" ExFloat (lit32 "0.2") HostKeyMeta_NONE
  | fd_infill_angle => Cli SCOPE_PRINT "infill_angle" ExFloat (lit32 "45.0") HostKeyMeta_NONE
  | fd_infill_speed => Cli SCOPE_PRINT "infill_speed" ExFloat (lit32 "50.0") HostKeyMeta_NONE
  | fd_solid_infill_speed => Cli SCOPE_PRINT "solid_infill_speed" ExFloat (lit32 "50.0") HostKeyMeta_NONE
  | fd_top_shell_layers => Cli SCOPE_PRINT "top_shell_layers" ExU32 3%Z HostKeyMeta_NONE
  | fd_bottom_shell_layers => Cli SCOPE_PRINT "bottom_shell_layers" ExU32 3%Z HostKeyMeta_NONE
  | fd_top_fill_holder => Cli SCOPE_PRINT "top_fill_holder" ExString "rectilinear-infill" HostKeyMeta_NONE
  | fd_bottom_fill_holder => Cli SCOPE_PRINT "bottom_fill_holder" ExString "rectilinear-infill" HostKeyMeta_NONE
  | fd_bridge_fill_holder => Cli SCOPE_PRINT "bridge_fill_holder" ExString "rectilinear-infill" HostKeyMeta_NONE
  | fd_sparse_fill_holder => Cli SCOPE_PRINT "sparse_fill_holder" ExString "rectilinear-infill" HostKeyMeta_NONE
  | fd_fill_authored_coloring => Cli SCOPE_PRINT "fill_authored_coloring" ExStrings []
      (described "Fill authored coloring" "Infill"
          "Fill-role claims (e.g. claim:sparse-fill) whose holder may author per-path tool indices. Empty: no module may author tools.")
  | fd_gcode_resolution => Cli SCOPE_PRINT "gcode_resolution" ExFloat (lit32 "0.0125")
      (with_min "0.0" (with_unit "mm" (described "G-code resolution" "Quality"
          "G-code path resolution — Douglas-Peucker tolerance for walls and brim (mm).")))
  | fd_infill_resolution => Cli SCOPE_PRINT "infill_resolution" ExFloat (lit32 "0.04")
      (with_min "0.0" (with_unit "mm" (described "Infill resolution" "Quality"
          "Douglas-Peucker simplification tolerance for infill / bridge / top / bottom paths (mm).")))
  | fd_infill_overlap => Cli SCOPE_PRINT "infill_overlap" ExFloat (lit32 "0.45") HostKeyMeta_NONE
  | fd_support_resolution => Cli SCOPE_PRINT "support_resolution" ExFloat (lit32 "0.0375")
      (with_min "0.0" (with_unit "mm" (described "Support resolution" "Quality"
          "Support path-simplification tolerance (mm).")))
  | fd_min_segment_length => Cli SCOPE_PRINT "min_segment_length" ExFloat (lit32 "0.05")
      (with_min "0.0" (with_unit "mm" (described "Minimum segment length" "Quality"
          "Segments shorter than this (mm) are dropped from G-code paths.")))
  | fd_gcode_xy_decimals => Cli SCOPE_PRINT "gcode_xy_decimals" ExU32 3%Z
      (with_max "6.0" (with_min "1.0" (described "G-code XY decimals" "Output"
          "Decimal places for X/Y coordinates in emitted G-code.")))
  | fd_perimeter_arc_tolerance => Cli SCOPE_PRINT "perimeter_arc_tolerance" ExFloat (lit32 "0.0125") HostKeyMeta_NONE
  | fd_slice_closing_radius => Cli SCOPE_PRINT "slice_closing_radius" ExFloat (lit32 "0.049") HostKeyMeta_NONE
  | fd_flat_bridge_closing_join => Cli SCOPE_PRINT "flat_bridge_closing_join" ExString "miter"
      (with_wire_type "enum" (with_values ["miter"; "square"; "round"] (described "Flat bridge closing join" "Quality"
          "Polygon-closing join used when detecting flat bridges. Unknown values fall back to miter.")))
  | fd_support_enabled => Cli SCOPE_PRINT "enable_support" ExBool false HostKeyMeta_NONE
  | fd_disable_m73 => Cli SCOPE_PRINT "disable_m73" ExBool false HostKeyMeta_NONE
  | fd_support_type => Plain TSupportType "support_type" NormalAuto
  | fd_support_threshold_angle => Cli SCOPE_PRINT "support_threshold_angle" ExFloat (lit32 "30.0") HostKeyMeta_NONE
  | fd_support_layer_height_mm => Cli SCOPE_PRINT "support_layer_height_mm" ExFloat (lit32 "0.0")
      (with_max "1.0" (with_min "0.0" (with_unit "mm" (described "Support Layer Height" "Support"
          "Support layer height in mm; 0 uses the object's effective layer height. Non-zero values must not be thinner than the object's layers."))))
  | fd_support_expansion => Cli SCOPE_PRINT "support_expansion" ExFloat (lit32 "0.0") HostKeyMeta_NONE
  | fd_support_top_z_distance => Cli SCOPE_PRINT "support_top_z_distance" ExFloat (lit32 "0.2") HostKeyMeta_NONE
  | fd_support_bottom_z_distance => Cli SCOPE_PRINT "support_bottom_z_distance" ExFloat (lit32 "0.2") HostKeyMeta_NONE
  | fd_support_threshold_overlap => Cli SCOPE_PRINT "support_threshold_overlap" ExFloatOrPercent (lit64 "50.0",
      true) HostKeyMeta_NONE
  | fd_support_line_width => Cli SCOPE_PRINT "support_line_width" ExFloatOrPercent
      ResolvedFloatOrPercent_default HostKeyMeta_NONE
  | fd_bridge_no_support => Cli SCOPE_PRINT "bridge_no_support" ExBool false HostKeyMeta_NONE
  | fd_enforce_support_layers => Cli SCOPE_PRINT "enforce_support_layers" ExU32 0%Z HostKeyMeta_NONE
  | fd_support_critical_regions_only => Cli SCOPE_PRINT "support_critical_regions_only" ExBool false HostKeyMeta_NONE
  | fd_support_remove_small_overhang => Cli SCOPE_PRINT "support_remove_small_overhang" ExBool true HostKeyMeta_NONE
  | fd_support_object_first_layer_gap => Cli SCOPE_PRINT "support_object_first_layer_gap" ExFloat (lit32 "0.2")
      HostKeyMeta_NONE
  | fd_support_sharp_tails => Cli SCOPE_PRINT "support_sharp_tails" ExBool true
      (described "Support sharp tails" "Support"
          "Keep pointed support tails instead of trimming them.")
  | fd_nonplanar_max_angle_deg => CliOpt SCOPE_PRINT "nonplanar_max_angle_deg" ExFloat
      (with_min "0.0" (with_unit "deg" (described "Nonplanar max angle" "Nonplanar"
          "Maximum surface angle (deg) the nonplanar module adapts to. Has an effect only while a nonplanar module is installed.")))
  | fd_nonplanar_shell_count => CliOpt SCOPE_PRINT "nonplanar_shell_count" ExU32
      (with_min "0.0" (described "Nonplanar shell count" "Nonplanar"
          "Number of nonplanar shells. Has an effect only while a nonplanar module is installed."))
  | fd_nonplanar_amplitude => CliOpt SCOPE_PRINT "nonplanar_amplitude" ExFloat
      (with_min "0.0" (with_unit "mm" (described "Nonplanar amplitude" "Nonplanar"
          "Nonplanar wave amplitude (mm). Has an effect only while a nonplanar module is installed.")))
  | fd_smoothificator_target_height => CliOpt SCOPE_PRINT "smoothificator_target_height" ExFloat
      (with_min "0.0" (with_unit "mm" (described "Smoothificator target height" "Smoothificator"
          "Target layer height (mm) the smoothificator post-processes toward. Has an effect only while a smoothificator module is installed.")))
  | fd_smoothificator_adaptive => CliOpt SCOPE_PRINT "smoothificator_adaptive" ExBool
      (described "Smoothificator adaptive" "Smoothificator"
          "Let the smoothificator pick per-region target heights. Has an effect only while a smoothificator module is installed.")
  | fd_bed_shape => Cli SCOPE_PRINT "bed_shape" ExFloats (lit64 <$> ["0.0"; "0.0"; "250.0"; "0.0"; "250.0";
      "250.0"; "0.0"; "250.0"]) HostKeyMeta_NONE
  | fd_retract_length => Cli SCOPE_PRINT "retract_length" ExFloat (lit32 "2.0") HostKeyMeta_NONE
  | fd_wipe_tower_enabled => Cli SCOPE_PRINT "wipe_tower_enabled" ExBool false HostKeyMeta_NONE
  | fd_mmu_segmented_region_max_width => Cli SCOPE_PRINT "mmu_segmented_region_max_width" ExFloat (lit32 "0.0")
      (omitted (HostKeyMeta_NONE))
  | fd_mmu_segmented_region_interlocking_depth => Cli SCOPE_PRINT "mmu_segmented_region_interlocking_depth"
      ExFloat (lit32 "0.0")
      (omitted (HostKeyMeta_NONE))
  | fd_mmu_segmented_region_interlocking_beam => Cli SCOPE_PRINT "mmu_segmented_region_interlocking_beam" ExBool false
      (omitted (described "MMU segmented region interlocking beam" "Multimaterial"
          "Skip Phase 5 width limiting entirely (interlocking-beam behaviour)."))
  | fd_machine_max_acceleration_extruding => CliOpt SCOPE_PRINTER "machine_max_acceleration_extruding"
      ExFloatOrFirst HostKeyMeta_NONE
  | fd_machine_max_acceleration_travel => CliOpt SCOPE_PRINTER "machine_max_acceleration_travel" ExFloatOrFirst
      HostKeyMeta_NONE
  | fd_machine_max_speed_x => CliOpt SCOPE_PRINTER "machine_max_speed_x" ExFloatOrFirst HostKeyMeta_NONE
  | fd_machine_max_speed_y => CliOpt SCOPE_PRINTER "machine_max_speed_y" ExFloatOrFirst HostKeyMeta_NONE
  | fd_machine_max_speed_z => CliOpt SCOPE_PRINTER "machine_max_speed_z" ExFloatOrFirst HostKeyMeta_NONE
  | fd_machine_max_speed_e => CliOpt SCOPE_PRINTER "machine_max_speed_e" ExFloatOrFirst HostKeyMeta_NONE
  | fd_machine_max_jerk_x => CliOpt SCOPE_PRINTER "machine_max_jerk_x" ExFloatOrFirst HostKeyMeta_NONE
  | fd_machine_max_jerk_y => CliOpt SCOPE_PRINTER "machine_max_jerk_y" ExFloatOrFirst HostKeyMeta_NONE
  | fd_machine_max_jerk_z => CliOpt SCOPE_PRINTER "machine_max_jerk_z" ExFloatOrFirst HostKeyMeta_NONE
  | fd_machine_max_jerk_e => CliOpt SCOPE_PRINTER "machine_max_jerk_e" ExFloatOrFirst HostKeyMeta_NONE
  | fd_filament_density => Cli SCOPE_FILAMENT "filament_density" ExFloats [] HostKeyMeta_NONE
  end.

#[export] Instance field_eq_dec : EqDecision field.
Proof. solve_decision. Defined.

(** ** What the rows generate *)

(** The config key a field is bound to; [stringify!] of the field where there is none. *)
Definition row_key {t} (r : row t) : string :=
  match r with Plain _ name _ => name | Cli _ key _ _ _ => key | CliOpt _ key _ _ => key end.

Definition row_default {t} (r : row t) : rep t :=
  match r in row t return rep t with
  | Plain _ _ dflt => dflt
  | Cli _ _ _ dflt _ => dflt
  | CliOpt _ _ _ _ => None
  end.

(** What the match arm of a row assigns; a plain row has no arm. *)
Definition row_extract {t} (r : row t) : option (string -> ConfigValue -> result (rep t) ConfigResolutionError) :=
  match r in row t return option (string -> ConfigValue -> result (rep t) ConfigResolutionError) with
  | Plain _ _ _ => None
  | Cli _ _ ex _ _ => Some (extract ex)
  | CliOpt _ _ ex _ => Some (fun key v => let? x := extract ex key v in Ok (Some x))
  end.

Definition map_key (f : field) : string := row_key (declared_row f).

Definition is_bound (f : field) : bool :=
  match row_extract (declared_row f) with Some _ => true | None => false end.

(** [ResolvedConfig]: a value for every field, and the extensions. *)
Record ResolvedConfig := {
  get : forall f : field, rep (ty f);
  rf_extensions : gmap string ConfigValue
}.

Definition ResolvedConfig_default : ResolvedConfig :=
  {| get := fun f => row_default (declared_row f); rf_extensions := ∅ |}.

(** An assignment to a field. *)
Definition set (c : ResolvedConfig) (f : field) (x : rep (ty f)) : ResolvedConfig :=
  {| get := fun g => match decide (f = g) with
                     | left e => eq_rect f (fun f => rep (ty f)) x g e
                     | right _ => get c g
                     end;
     rf_extensions := rf_extensions c |}.

(** The first match arm for a key; the last arm is the one of [wall_loops]. *)
Definition bound_field (key : string) : option field :=
  match List.find (fun f => is_bound f && String.eqb (map_key f) key) all_fields with
  | Some f => Some f
  | None => if String.eqb key "wall_loops" then Some fd_wall_count else None
  end.

Definition apply_cli_key (c : ResolvedConfig) (key : string) (value : ConfigValue)
    : result (ResolvedConfig * bool) ConfigResolutionError :=
  match bound_field key with
  | Some f =>
      match row_extract (declared_row f) with
      | Some ex => let? x := ex key value in Ok (set c f x, true)
      | None => Ok (c, false)
      end
  | None => Ok (c, false)
  end.

(** *** The config map *)

(** [Debug] of the two enums. *)
Definition show_wall_generator (g : WallGenerator) : string := match g with Classic => "Classic" | Arachne => "Arachne" end.
Definition show_infill_type (i : InfillType) : string :=
  match i with
  | Grid => "Grid" | Triangles => "Triangles" | Honeycomb => "Honeycomb" | Gyroid => "Gyroid"
  | Lightning => "Lightning" | Line => "Line" | Concentric => "Concentric"
  end.

(** [HostMapField::to_config_value]; the arm of an optional field looks inside it. *)
Fixpoint to_config_value (t : fty) : rep t -> option ConfigValue :=
  match t return rep t -> option ConfigValue with
  | TF64 => fun x => Some (CvFloat x)
  | TF32 => fun x => Some (CvFloat (widen x))
  | TU32 => fun n => Some (CvInt n)
  | TBool => fun b => Some (CvBool b)
  | TString => fun s => Some (CvString s)
  | TFloatOrPercent => fun x => Some (CvFloatOrPercent x.1 x.2)
  | TStrings => fun l => Some (CvList (CvString <$> l))
  | TFloats => fun l => match l with [] => None | _ => Some (CvList (CvFloat <$> l)) end
  | TWallGenerator => fun g => Some (CvString (show_wall_generator g))
  | TInfillType => fun i => Some (CvString (show_infill_type i))
  | TSupportType => fun s => Some (CvString (as_canonical_str s))
  | TOpt t => fun o => match o with Some x => to_config_value t x | None => None end
  end.

Definition shown (c : ResolvedConfig) (f : field) : option ConfigValue := to_config_value (ty f) (get c f).

(** The arms of all the rows. *)
Definition rendered_fields (c : ResolvedConfig) : gmap string ConfigValue :=
  foldl (fun m f => match shown c f with Some v => <[map_key f := v]> m | None => m end) ∅ all_fields.

Definition to_config_map (c : ResolvedConfig) : gmap string ConfigValue :=
  foldl (fun m (kv : string * ConfigValue) => <[kv.1 := kv.2]> m) (rendered_fields c) (btree_iter (rf_extensions c)).

Definition typed_field_keys : list string := (map_key <$> all_fields) ++ ["wall_loops"].

(** *** Host config keys *)

(** The wire type of a Rust type, of those a bound row may have, and a default on the wire. *)
Fixpoint WIRE_TYPE (t : fty) : string :=
  match t with
  | TF64 | TF32 => "float"
  | TU32 => "int"
  | TBool => "bool"
  | TString => "string"
  | TFloatOrPercent => "float_or_percent"
  | TStrings => "string-list"
  | TFloats => "float-list"
  | TOpt t => WIRE_TYPE t
  | TWallGenerator | TInfillType | TSupportType => ""
  end.

Definition DEFAULT_WALL_GENERATOR : string := "classic".
Definition WHOLE_PRINT_ONLY_SCOPES : list string := ["object"; "layer_range"; "modifier"; "paint_semantic"; "tool"].
Definition TOOL_CAPABLE_SCOPES : list string := ["object"; "layer_range"; "modifier"; "paint_semantic"].

Definition host_key_denied_scopes (key : string) : list string :=
  if existsb (String.eqb key)
       ["bed_shape"; "disable_m73"; "gcode_xy_decimals"; "machine_max_acceleration_extruding";
        "machine_max_acceleration_travel"; "machine_max_jerk_e"; "machine_max_jerk_x"; "machine_max_jerk_y";
        "machine_max_jerk_z"; "machine_max_speed_e"; "machine_max_speed_x"; "machine_max_speed_y";
        "machine_max_speed_z"]
  then WHOLE_PRINT_ONLY_SCOPES
  else if existsb (String.eqb key) ["filament_density"; "filament_diameter"; "retract_length"]
  then TOOL_CAPABLE_SCOPES
  else [].

Section wire.
Context (show_f64 : f64 -> string) (show_f32 : f32 -> string).

Fixpoint wire_default (t : fty) : rep t -> option string :=
  match t return rep t -> option string with
  | TF64 => fun x => Some (show_f64 x)
  | TF32 => fun x => Some (show_f32 x)
  | TU32 => fun n => Some (show_uint n)
  | TBool => fun b : bool => Some (if b then "true" else "false")
  | TString => fun s => Some s
  | TFloatOrPercent => fun x : f64 * bool => Some (if x.2 then show_f64 x.1 +:+ "%" else show_f64 x.1)
  | TStrings => fun l => Some (join "," l)
  | TFloats => fun l => Some (join "," (show_f64 <$> l))
  | TOpt t => fun o => match o with Some x => wire_default t x | None => None end
  | TWallGenerator | TInfillType | TSupportType => fun _ => None
  end.

Definition host_key (f : field) : option HostConfigKey :=
  match declared_row f with
  | Plain _ _ _ => None
  | Cli scope key _ _ meta | CliOpt scope key _ meta =>
      Some {| hk_key := key; hk_field_type := WIRE_TYPE (ty f); hk_scope := scope;
              hk_default := wire_default (ty f) (get ResolvedConfig_default f); hk_meta := meta;
              hk_denied_scopes := host_key_denied_scopes key |}
  end.

Definition host_config_keys : list HostConfigKey :=
  omap host_key all_fields ++
  [{| hk_key := "wall_loops"; hk_field_type := "int"; hk_scope := SCOPE_PRINT; hk_default := None;
      hk_meta := HostKeyMeta_NONE; hk_denied_scopes := [] |}].
End wire.

(** *** Keys read by the host at run time *)

Definition runtime_key (key field_type scope : string) (dflt : option string) (meta : HostKeyMeta) (selector : bool)
    (denied_scopes : list string) : HostRuntimeKey :=
  {| hr_key := key; hr_field_type := field_type; hr_scope := scope; hr_default := dflt; hr_meta := meta;
     hr_selector := selector; hr_denied_scopes := denied_scopes |}.

Definition HOST_RUNTIME_KEYS : list HostRuntimeKey := [
  runtime_key "use_relative_e_distances" "bool" SCOPE_PRINTER (Some "true") HostKeyMeta_NONE false WHOLE_PRINT_ONLY_SCOPES;
  runtime_key "thumbnail_path" "string" SCOPE_PRINTER (Some "") (omitted (described "Thumbnail path" "Output"
      "File path the slicer writes its thumbnail plate into; empty disables thumbnails.")) false WHOLE_PRINT_ONLY_SCOPES;
  runtime_key "wall_generator" "string" SCOPE_PRINT (Some DEFAULT_WALL_GENERATOR) HostKeyMeta_NONE true WHOLE_PRINT_ONLY_SCOPES;
  runtime_key "gcode_flavor" "string" SCOPE_PRINTER None HostKeyMeta_NONE false [];
  runtime_key "printer_model" "string" SCOPE_PRINTER None HostKeyMeta_NONE false [];
  runtime_key "filament_colour" "string-list" SCOPE_FILAMENT None HostKeyMeta_NONE false [];
  runtime_key "extruder_colour" "string-list" SCOPE_PRINTER None HostKeyMeta_NONE false [];
  runtime_key "filament_cost" "string-list" SCOPE_FILAMENT None HostKeyMeta_NONE false [];
  runtime_key "printable_area" "float-list" SCOPE_PRINTER None HostKeyMeta_NONE false [];
  runtime_key "support_type" "string" SCOPE_PRINT None HostKeyMeta_NONE false [];
  runtime_key "support_family" "string" SCOPE_PRINT None HostKeyMeta_NONE false [];
  runtime_key "thumbnails" "string" SCOPE_PRINT None HostKeyMeta_NONE false [];
  runtime_key "machine_max_acceleration_retracting" "float-list" SCOPE_PRINTER None HostKeyMeta_NONE false [];
  runtime_key "extruder" "int" SCOPE_PRINT None HostKeyMeta_NONE false [];
  runtime_key "filament_max_volumetric_speed" "float" SCOPE_FILAMENT (Some "0.0") (with_min "0.0" HostKeyMeta_NONE) false TOOL_CAPABLE_SCOPES;
  runtime_key "support_filament" "int" SCOPE_PRINT None (with_min "0.0" HostKeyMeta_NONE) false [];
  runtime_key "support_interface_filament" "int" SCOPE_PRINT None (with_min "0.0" HostKeyMeta_NONE) false []
].

(** ** Classification of keys *)

Inductive DeclaredKeyKind := Boolean | NonBoolean | Undeclared.

Definition classify_declared_key (key : string) : DeclaredKeyKind :=
  match apply_cli_key ResolvedConfig_default key (CvBool true) with
  | Ok (_, true) => Boolean
  | Ok (_, false) => Undeclared
  | Err _ => NonBoolean
  end.

Definition is_declared_float_or_percent_key (key : string) : bool :=
  match apply_cli_key ResolvedConfig_default key (CvFloatOrPercent F0 true) with
  | Ok (_, true) => true
  | _ => false
  end.

(** ** Equality *)

(** The fields [PartialEq] compares. *)
Definition compared_fields : list field := [
  fd_layer_height; fd_line_width; fd_first_layer_height; fd_initial_layer_line_width; fd_filament_diameter;
  fd_wall_count; fd_outer_wall_speed; fd_inner_wall_speed; fd_wall_generator; fd_arachne_min_feature_size;
  fd_infill_type; fd_infill_density; fd_infill_overlap; fd_infill_angle; fd_infill_speed;
  fd_solid_infill_speed; fd_top_shell_layers; fd_bottom_shell_layers; fd_top_fill_holder;
  fd_bottom_fill_holder; fd_bridge_fill_holder; fd_sparse_fill_holder; fd_fill_authored_coloring;
  fd_gcode_resolution; fd_infill_resolution; fd_support_resolution; fd_min_segment_length;
  fd_gcode_xy_decimals; fd_perimeter_arc_tolerance; fd_slice_closing_radius; fd_flat_bridge_closing_join;
  fd_support_enabled; fd_support_type; fd_support_threshold_angle; fd_support_layer_height_mm;
  fd_support_expansion; fd_support_top_z_distance; fd_support_bottom_z_distance; fd_support_threshold_overlap;
  fd_support_line_width; fd_bridge_no_support; fd_enforce_support_layers; fd_support_critical_regions_only;
  fd_support_remove_small_overhang; fd_support_object_first_layer_gap; fd_support_sharp_tails;
  fd_nonplanar_max_angle_deg; fd_nonplanar_shell_count; fd_nonplanar_amplitude;
  fd_smoothificator_target_height; fd_smoothificator_adaptive; fd_bed_shape; fd_retract_length;
  fd_wipe_tower_enabled; fd_mmu_segmented_region_max_width; fd_mmu_segmented_region_interlocking_depth;
  fd_mmu_segmented_region_interlocking_beam; fd_machine_max_acceleration_extruding;
  fd_machine_max_acceleration_travel; fd_machine_max_speed_x; fd_machine_max_speed_y; fd_machine_max_speed_z;
  fd_machine_max_speed_e; fd_machine_max_jerk_x; fd_machine_max_jerk_y; fd_machine_max_jerk_z;
  fd_machine_max_jerk_e; fd_filament_density
].

Definition ResolvedConfig_eqb (a b : ResolvedConfig) : bool :=
  forallb (fun f => bool_decide (get a f = get b f)) compared_fields && bool_decide (rf_extensions a = rf_extensions b).

(** ** Filaments *)

Definition filament_density_for (c : ResolvedConfig) (tool_index : Z) : option f64 :=
  let density : list f64 := get c fd_filament_density in
  match density !! Z.to_nat tool_index with
  | Some d => Some d
  | None => head density
  end.

Section messages.
Context (show_f64 : f64 -> string) (debug_string : string -> string).

Definition KEY : string := "filament_max_volumetric_speed".

Definition speed_scalar (value : ConfigValue) : result f64 string :=
  match value with
  | CvFloat f => Ok f
  | CvInt i => Ok (int_as_f64 i)
  | CvString s =>
      match parse_f64 (trim s) with
      | Some x => Ok x
      | None => Err ("config key '" +:+ KEY +:+ "': expected a numeric value, got " +:+ debug_string s)
      end
  | other =>
      Err ("config key '" +:+ KEY +:+ "': expected Float, Int, a numeric String, or a non-empty " +:+
           "List whose first element is numeric, got " +:+ variant_name other)
  end.

Definition filament_max_volumetric_speed (c : ResolvedConfig) : result f64 string :=
  match rf_extensions c !! KEY with
  | None => Ok F0
  | Some stated =>
      let? value := match stated with
                    | CvList items =>
                        match head items with
                        | Some first => speed_scalar first
                        | None => Err ("config key '" +:+ KEY +:+ "': expected a non-empty List, got an empty List")
                        end
                    | other => speed_scalar other
                    end in
      if negb (f64_is_finite value)
      then Err ("config key '" +:+ KEY +:+ "': value " +:+ show_f64 value +:+
                " must be finite (NaN and ±Inf are not a maximum)")
      else if f64_ltb value F0
      then Err ("config key '" +:+ KEY +:+ "': value " +:+ show_f64 value +:+
                " must be non-negative (0 = unavailable)")
      else Ok value
  end.
End messages.

(** ** The rows *)

Lemma elem_of_all_fields f : f ∈ all_fields.
Proof. apply (bool_decide_unpack _). destruct f; vm_compute; exact I. Qed.

Lemma map_keys_distinct : NoDup (map_key <$> all_fields).
Proof. apply (bool_decide_unpack _). vm_compute. exact I. Qed.

Lemma wall_loops_not_row f : map_key f <> "wall_loops".
Proof. destruct f; vm_compute; discriminate. Qed.

Lemma map_key_inj f g : map_key f = map_key g -> f = g.
Proof. apply (NoDup_fmap_inj map_key all_fields); [apply map_keys_distinct | apply elem_of_all_fields | apply elem_of_all_fields]. Qed.

Lemma get_set c f x : get (set c f x) f = x.
Proof.
  unfold set. cbn [get]. destruct (decide (f = f)) as [e|]; [|done].
  symmetry. exact (eq_rect_eq_dec field_eq_dec (fun f => rep (ty f)) x e).
Qed.

Lemma get_set_ne c f x g : f <> g -> get (set c f x) g = get c g.
Proof. intros Hne. unfold set. cbn [get]. by destruct (decide (f = g)). Qed.

Lemma find_None_false {A} (p : A -> bool) l x : List.find p l = None -> x ∈ l -> p x = false.
Proof. intros Hf Hx. apply (find_none p l Hf), list_elem_of_In, Hx. Qed.

Lemma bound_field_spec key f :
  bound_field key = Some f <->
  (is_bound f = true /\ map_key f = key) \/ (key = "wall_loops" /\ f = fd_wall_count).
Proof.
  unfold bound_field. destruct (List.find _ all_fields) as [g|] eqn:Hf.
  - apply find_some in Hf as [_ [Hb Hk%String.eqb_eq]%andb_true_iff]. split.
    + intros [= <-]. by left.
    + intros [[_ Hk'] | [-> _]]; [|by apply wall_loops_not_row in Hk].
      f_equal. apply map_key_inj. congruence.
  - assert (Hno : forall f, ~ (is_bound f = true /\ map_key f = key)).
    { intros g [Hb Hk]. pose proof (find_None_false _ _ g Hf (elem_of_all_fields g)) as Hn. cbv beta in Hn.
      by rewrite Hb, (proj2 (String.eqb_eq _ _) Hk) in Hn. }
    destruct (String.eqb_spec key "wall_loops") as [->|Hk]; split.
    + intros [= <-]. by right.
    + intros [H | [_ ->]]; [by apply Hno in H | done].
    + done.
    + intros [H | [H _]]; [by apply Hno in H | done].
Qed.

Lemma bound_field_bound key f : bound_field key = Some f -> is_bound f = true.
Proof. intros [[H _] | [_ ->]]%bound_field_spec; [exact H | reflexivity]. Qed.

(** What the rows show at a key. *)
Lemma rendered_fields_lookup c k v :
  rendered_fields c !! k = Some v <-> exists f, map_key f = k /\ shown c f = Some v.
Proof.
  assert (Hgen : forall (l : list field) (m : gmap string ConfigValue), NoDup (map_key <$> l) -> forall k,
    foldl (fun m f => match shown c f with Some v => <[map_key f := v]> m | None => m end) m l !! k =
    match List.find (fun f => String.eqb (map_key f) k) l with
    | Some f => match shown c f with Some v => Some v | None => m !! k end
    | None => m !! k
    end).
  { induction l as [|f l IH]; intros m Hnd k'; [done |]. apply NoDup_cons in Hnd as [Hf Hnd].
    cbn [foldl List.find]. rewrite IH by done. destruct (String.eqb_spec (map_key f) k') as [<-|Hk].
    - destruct (List.find _ l) as [g|] eqn:Hg.
      + apply find_some in Hg as [Hin Hk%String.eqb_eq]. exfalso. apply Hf. rewrite <-Hk.
        apply list_elem_of_fmap_2. by apply list_elem_of_In.
      + destruct (shown c f); [by rewrite lookup_insert_eq | done].
    - destruct (List.find _ l) as [g|]; [destruct (shown c g); [done |] |];
        (destruct (shown c f); [by rewrite lookup_insert_ne | done]). }
  unfold rendered_fields. rewrite Hgen by apply map_keys_distinct. rewrite lookup_empty.
  destruct (List.find _ all_fields) as [f|] eqn:Hf.
  - apply find_some in Hf as [_ Hk%String.eqb_eq]. split.
    + intros Hv. exists f. split; [done |]. by destruct (shown c f).
    + intros (g & Hg & Hv). assert (g = f) as -> by (apply map_key_inj; congruence). by rewrite Hv.
  - split; [done |]. intros (g & Hg & _). pose proof (find_None_false _ _ g Hf (elem_of_all_fields g)) as Hn. cbv beta in Hn.
    by rewrite (proj2 (String.eqb_eq _ _) Hg) in Hn.
Qed.

Lemma rendered_at c f : rendered_fields c !! map_key f = shown c f.
Proof.
  apply option_eq. intros v. rewrite rendered_fields_lookup. split.
  - intros (g & ->%map_key_inj & Hv). exact Hv.
  - intros Hv. by exists f.
Qed.

Lemma to_config_map_union c : to_config_map c = rf_extensions c ∪ rendered_fields c.
Proof.
  unfold to_config_map. generalize (rendered_fields c) as m. intros m. apply map_eq. intros k.
  assert (Hgen : forall l : list (string * ConfigValue), NoDup l.*1 ->
    foldl (fun m (kv : string * ConfigValue) => <[kv.1 := kv.2]> m) m l !! k =
    match List.find (fun kv => String.eqb kv.1 k) l with Some kv => Some kv.2 | None => m !! k end).
  { clear c. revert m. intros m l. revert m. induction l as [|[k' v'] l IH]; intros m Hnd; [done |].
    apply NoDup_cons in Hnd as [Hk Hnd]. cbn [foldl List.find fst snd]. rewrite IH by done.
    destruct (String.eqb_spec k' k) as [->|Hne].
    - destruct (List.find _ l) as [[k'' v'']|] eqn:Hf; [|by rewrite lookup_insert_eq].
      apply find_some in Hf as [Hin Heq%String.eqb_eq]. cbn in Heq. subst k''. exfalso. apply Hk.
      apply list_elem_of_fmap. exists (k, v''). split; [done | by apply list_elem_of_In].
    - destruct (List.find _ l); [done | by rewrite lookup_insert_ne]. }
  rewrite Hgen by apply NoDup_btree_keys. rewrite lookup_union. destruct (List.find _ _) as [[k' v]|] eqn:Hf.
  - apply find_some in Hf as [Hin Heq%String.eqb_eq]. cbn in *. subst k'. apply list_elem_of_In, elem_of_btree_iter in Hin.
    rewrite Hin. by destruct (m !! k).
  - destruct (rf_extensions c !! k) as [v|] eqn:Hv; [|by destruct (m !! k)].
    apply elem_of_btree_iter in Hv. apply (find_None_false _ _ _ Hf) in Hv. cbn in Hv. by rewrite String.eqb_refl in Hv.
Qed.

(** ** The interface *)

#[export] Instance resolved_config : TypedConfig := {|
  TypedConfig.config := ResolvedConfig;
  TypedConfig.config_default := ResolvedConfig_default;
  TypedConfig.apply_cli_key := apply_cli_key;
  TypedConfig.to_config_map := to_config_map;
  TypedConfig.extensions := rf_extensions;
  TypedConfig.with_extensions := fun c m => {| get := get c; rf_extensions := m |};
  TypedConfig.typed_field_keys := typed_field_keys;
  TypedConfig.layer_height := fun c => get c fd_layer_height;
  TypedConfig.first_layer_height := fun c => get c fd_first_layer_height
|}.

Definition field_cell (key : string) : option string := map_key <$> bound_field key.

Definition field_stored (key : string) (v : ConfigValue) : result (option ConfigValue) ConfigResolutionError :=
  match bound_field key with
  | Some f =>
      match row_extract (declared_row f) with
      | Some ex => let? x := ex key v in Ok (to_config_value (ty f) x)
      | None => Ok None
      end
  | None => Ok None
  end.

Lemma field_apply_untyped c key v : field_cell key = None -> apply_cli_key c key v = Ok (c, false).
Proof. unfold field_cell, apply_cli_key. by destruct (bound_field key). Qed.

Lemma field_apply_refused c key v s e :
  field_cell key = Some s -> field_stored key v = Err e -> apply_cli_key c key v = Err e.
Proof.
  unfold field_cell, field_stored, apply_cli_key. destruct (bound_field key) as [f|]; [|done]. intros _.
  destruct (row_extract (declared_row f)) as [ex|]; [|done]. destruct (ex key v) as [x|e']; [done |].
  intros He. cbn [result_bind] in *. congruence.
Qed.

Lemma field_apply_stored c key v s shown' :
  field_cell key = Some s -> field_stored key v = Ok shown' ->
  exists c', apply_cli_key c key v = Ok (c', true) /\ rf_extensions c' = rf_extensions c /\
    forall k, rendered_fields c' !! k = if decide (k = s) then shown' else rendered_fields c !! k.
Proof.
  unfold field_cell, field_stored, apply_cli_key. destruct (bound_field key) as [f|] eqn:Hf; [|done].
  intros Hs. assert (s = map_key f) as -> by (unfold fmap, option_fmap, option_map in Hs; congruence). clear Hs.
  pose proof (bound_field_bound _ _ Hf) as Hb. unfold is_bound in Hb.
  destruct (row_extract (declared_row f)) as [ex|]; [|done]. destruct (ex key v) as [x|e']; [|done].
  cbn [result_bind]. intros Hs. assert (shown' = to_config_value (ty f) x) as -> by congruence. clear Hs.
  exists (set c f x). split_and!; [done | done |]. intros k. case_decide as Hk.
  - subst k. rewrite rendered_at. unfold shown. by rewrite get_set.
  - apply option_eq. intros v'. rewrite !rendered_fields_lookup.
    split; intros (g & Hg & Hv); exists g; (split; [exact Hg |]); revert Hv; unfold shown;
      (rewrite get_set_ne by (intros <-; congruence)); exact id.
Qed.

Lemma field_cell_of_rendered c k :
  is_Some (rendered_fields c !! k) -> field_cell k = None \/ field_cell k = Some k.
Proof.
  intros [v (f & Hk & _)%rendered_fields_lookup]. unfold field_cell.
  destruct (bound_field k) as [g|] eqn:Hg; [|by left]. right. unfold fmap, option_fmap, option_map. f_equal.
  apply bound_field_spec in Hg as [[_ Hg] | [Hw _]]; [exact Hg |]. subst k. by apply wall_loops_not_row in Hw.
Qed.

Lemma field_cell_typed k s : field_cell k = Some s -> k ∈ typed_field_keys.
Proof.
  unfold field_cell. destruct (bound_field k) as [g|] eqn:Hg; [|done]. intros _.
  unfold typed_field_keys. apply elem_of_app. apply bound_field_spec in Hg as [[_ <-] | [-> _]].
  - left. apply list_elem_of_fmap_2, elem_of_all_fields.
  - right. by apply list_elem_of_singleton.
Qed.

Lemma rendered_extended c m : rendered_fields {| get := get c; rf_extensions := m |} = rendered_fields c.
Proof. unfold rendered_fields. f_equal. Qed.

#[export] Instance resolved_config_laws : TypedConfigLaws resolved_config := {|
  cell := field_cell;
  stored := field_stored;
  rendered := rendered_fields;
  to_config_map_rendered := to_config_map_union;
  apply_untyped := field_apply_untyped;
  apply_refused := field_apply_refused;
  apply_stored := field_apply_stored;
  cell_of_rendered := field_cell_of_rendered;
  cell_typed := field_cell_typed;
  default_extensions := eq_refl ∅;
  extensions_with := fun c m => eq_refl;
  rendered_with := rendered_extended;
  layer_height_shown := fun c => rendered_at c fd_layer_height;
  first_layer_height_shown := fun c => rendered_at c fd_first_layer_height
|}.

(** ** Properties *)

Lemma compared_field f : f ∈ compared_fields <-> f <> fd_disable_m73.
Proof.
  destruct (decide (f ∈ compared_fields)) as [Hin|Hout].
  - split; [|done]. intros _ ->. revert Hin. apply (bool_decide_unpack _). vm_compute. exact I.
  - split; [done |]. intros Hne. exfalso. apply Hout. clear Hout.
    apply (bool_decide_unpack _). destruct f; try (vm_compute; exact I). by destruct Hne.
Qed.

(** Two configurations are equal to [PartialEq] exactly when they agree on the extensions and
    on every field but [disable_m73], which it does not compare. *)
Theorem equality_exact a b :
  ResolvedConfig_eqb a b = true <->
  (forall f, f <> fd_disable_m73 -> get a f = get b f) /\ rf_extensions a = rf_extensions b.
Proof.
  unfold ResolvedConfig_eqb. rewrite andb_true_iff, bool_decide_eq_true, forallb_forall. apply and_iff_compat_r.
  split; intros H f Hf.
  - apply compared_field in Hf. apply list_elem_of_In, H in Hf. by apply bool_decide_eq_true in Hf.
  - apply bool_decide_eq_true, H. apply compared_field. by apply list_elem_of_In.
Qed.

(** A key is classified by the type of the field its match arm assigns.  It is undeclared
    exactly when no arm has it.  It is boolean exactly when the field is [bool], optional
    [bool] or a list of floats: the extractor of a list takes a bare boolean for the list of
    one number.  The keys that take an absolute value or a percentage are those of fields of
    that type. *)
Theorem keys_classified_by_type key :
  classify_declared_key key =
    match bound_field key with
    | Some f => match ty f with TBool | TOpt TBool | TFloats => Boolean | _ => NonBoolean end
    | None => Undeclared
    end /\
  is_declared_float_or_percent_key key =
    match bound_field key with
    | Some f => match ty f with TFloatOrPercent => true | _ => false end
    | None => false
    end.
Proof.
  unfold classify_declared_key, is_declared_float_or_percent_key, apply_cli_key.
  destruct (bound_field key) as [f|] eqn:Hf; [|done]. apply bound_field_bound in Hf.
  destruct f; (discriminate Hf || split; reflexivity).
Qed.
