(* ===== verification/Expansion.v ===== *)
(** Expansion of relative and automatic configuration values ([expand_automatic_values] and
    [config_block_map] of [slicer-config/src/lib.rs]).

    A value may be a percentage of another key, or a sentinel that stands for another key.
    The code resolves every key recursively, with a memo table and a guard against cycles;
    the theorems compare it with the evaluation relation [expands], which has neither. *)
From stdpp Require Import prelude gmap strings list.
From S2P Require Import Prelude Text Ir Float64 Registry TypedConfig.

#[local] Open Scope string_scope.
#[local] Open Scope list_scope.

Record ExpansionContext := {
  nozzle_diameter_mm : f64;
  tool_bases : gmap Z (gmap string f64)
}.

Inductive ExpansionError :=
| UnknownBaseKey (key base_key : string)
| MissingAutoBase (key base_key : string)
| NonPositiveBase (key base_key : string) (value : f64).

Definition BOTTOM_AUTO_BASES : list (string * string) :=
  [("support_interface_bottom_layers", "support_interface_top_layers");
   ("support_bottom_interface_spacing", "support_interface_spacing")].

(** ** Views of a value *)

Definition percent_magnitude (value : ConfigValue) : option f64 :=
  match value with
  | CvPercent percent => Some percent
  | CvFloatOrPercent value true => Some value
  | _ => None
  end.

Definition absolute_number (value : ConfigValue) : option f64 :=
  match value with
  | CvFloat value => Some value
  | CvInt value => Some (int_as_f64 value)
  | CvFloatOrPercent value false => Some value
  | _ => None
  end.

Definition base_number (value : ConfigValue) : option f64 :=
  match value with
  | CvList items => head items ≫= absolute_number
  | other => absolute_number other
  end.

Definition absolute_like (original : ConfigValue) (value : f64) : ConfigValue :=
  match original with
  | CvFloatOrPercent _ _ => CvFloatOrPercent value false
  | _ => CvFloat value
  end.

Definition is_plain_zero (value : ConfigValue) : bool :=
  match value with
  | CvFloat value => f64_eqb value F0
  | CvInt value => Z.eqb value 0
  | CvFloatOrPercent value false => f64_eqb value F0
  | _ => false
  end.

Definition is_plain_minus_one (value : ConfigValue) : bool :=
  match value with
  | CvFloat value => f64_eqb value FM1
  | CvInt value => Z.eqb value (-1)
  | CvFloatOrPercent value false => f64_eqb value FM1
  | _ => false
  end.

Definition validate_base (key base_key : string) (value : f64) : result f64 ExpansionError :=
  if f64_is_finite value && f64_ltb F0 value then Ok value else Err (NonPositiveBase key base_key value).

(** ** The rule of a key *)

(** How a value is to be replaced. *)
Inductive rule :=
| Literal                                  (* the value stands *)
| NozzleTimes (factor : option f64)        (* the nozzle diameter, times a factor *)
| AutoBase (base_key : string)             (* the value of another key *)
| PercentOf (percent : f64) (base_key : string).

Definition rule_of (registry : ConfigSchemaRegistry) (key : string) (value : ConfigValue) : rule :=
  if String.eqb key "line_width" && is_plain_zero value then NozzleTimes (Some F1_125)
  else if String.eqb key "support_line_width" && is_plain_zero value then NozzleTimes None
  else
    match list_find (fun a : string * string => (String.eqb a.1 key && is_plain_minus_one value) = true) BOTTOM_AUTO_BASES with
    | Some (_, (_, base_key)) => AutoBase base_key
    | None =>
        match percent_magnitude value, entry registry key ≫= re_base_key with
        | Some percent, Some base_key => PercentOf percent base_key
        | _, _ => Literal
        end
    end.

(** ** The resolver *)

Section resolver.
Context (registry : ConfigSchemaRegistry) (source : gmap string ConfigValue) (context : ExpansionContext)
        (tool_index : option Z).

Record resolver := { rs_expanded : gmap string ConfigValue; rs_visiting : gset string }.

Definition tool_base (base_key : string) : option f64 :=
  tool_index ≫= fun tool => tool_bases context !! tool ≫= fun bases => bases !! base_key.

Definition required_nozzle (key : string) : result f64 ExpansionError :=
  validate_base key "nozzle_diameter" (nozzle_diameter_mm context).

(** [required_base] over a way to expand the base key. *)
Definition required_base (expand : string -> resolver -> exec (result (option ConfigValue * resolver) ExpansionError))
    (key base_key : string) (st : resolver) : exec (result (f64 * resolver) ExpansionError) :=
  match tool_base base_key with
  | Some value => Done (let? base := validate_base key base_key value in Ok (base, st))
  | None =>
      let! out := expand base_key st in
      Done (let? vs := out in
            let '(value, st) := vs in
            match value with
            | Some value =>
                match base_number value with
                | Some number => let? base := validate_base key base_key number in Ok (base, st)
                | None => Err (UnknownBaseKey key base_key)
                end
            | None =>
                if String.eqb base_key "nozzle_diameter"
                then let? base := required_nozzle key in Ok (base, st)
                else Err (UnknownBaseKey key base_key)
            end)
  end.

(** A continuation inside both the loop and the error layer. *)
Definition then_ok {A B} (m : exec (result A ExpansionError)) (k : A -> result B ExpansionError)
    : exec (result B ExpansionError) :=
  let! out := m in Done (let? x := out in k x).

Definition apply_rule (expand : string -> resolver -> exec (result (option ConfigValue * resolver) ExpansionError))
    (key : string) (value : ConfigValue) (st : resolver) : exec (result (ConfigValue * resolver) ExpansionError) :=
  match rule_of registry key value with
  | NozzleTimes factor =>
      then_ok (required_base expand key "nozzle_diameter" st) (fun '(base, st) =>
        Ok (CvFloat (match factor with Some factor => f64_mul factor base | None => base end), st))
  | AutoBase base_key =>
      then_ok (expand base_key st) (fun '(value, st) =>
        match value with Some value => Ok (value, st) | None => Err (MissingAutoBase key base_key) end)
  | PercentOf percent base_key =>
      then_ok (required_base expand key base_key st) (fun '(base, st) =>
        Ok (absolute_like value (f64_mul (f64_div percent F100) base), st))
  | Literal => Done (Ok (value, st))
  end.

Fixpoint expand_key (fuel : nat) (key : string) (st : resolver)
    : exec (result (option ConfigValue * resolver) ExpansionError) :=
  match fuel with
  | O => OutOfFuel
  | S fuel =>
      match rs_expanded st !! key with
      | Some value => Done (Ok (Some value, st))
      | None =>
          match source !! key with
          | None => Done (Ok (None, st))
          | Some value =>
              if bool_decide (key ∈ rs_visiting st) then Done (Ok (Some value, st))
              else
                let st := {| rs_expanded := rs_expanded st; rs_visiting := {[key]} ∪ rs_visiting st |} in
                then_ok (apply_rule (expand_key fuel) key value st) (fun '(result, st) =>
                  Ok (Some result, {| rs_expanded := <[key := result]> (rs_expanded st);
                                      rs_visiting := rs_visiting st ∖ {[key]} |}))
          end
      end
  end.

Definition expansion_fuel : nat := S (size source).

(** The loop over all keys of the snapshot. *)
Definition expand_all : exec (result resolver ExpansionError) :=
  fold_exec (fun st key => then_ok (expand_key expansion_fuel key st) (fun '(_, st) => Ok st))
    {| rs_expanded := ∅; rs_visiting := ∅ |} (btree_keys source).
End resolver.

(** ** Writing the results back *)

Section write_back.
Context {T : TypedConfig}.

Definition write_expanded (source : gmap string ConfigValue) (candidate : config) (ke : string * ConfigValue) : config :=
  let '(key, expanded) := ke in
  if bool_decide (source !! key = Some expanded) then candidate
  else
    match extensions candidate !! key with
    | Some _ => insert_extension candidate key expanded
    | None =>
        match apply_cli_key candidate key expanded with
        | Ok (candidate, true) =>
            if String.eqb key "support_line_width" then insert_extension candidate key expanded else candidate
        | Ok (_, false) | Err _ => insert_extension candidate key expanded
        end
    end.

Definition expand_automatic_values (registry : ConfigSchemaRegistry) (cfg : config) (context : ExpansionContext)
    (tool_index : option Z) : exec (result config ExpansionError) :=
  let source := to_config_map cfg in
  then_ok (expand_all registry source context tool_index) (fun st =>
    Ok (foldl (write_expanded source) cfg (btree_iter (rs_expanded st)))).

(** The configuration block of the print. *)
Definition config_block_map (registry : ConfigSchemaRegistry) (resolved : config) : gmap string ConfigValue :=
  let effective := to_config_map resolved in
  let block := foldl (fun block (ke : string * RegistryEntry) =>
                   if re_omit_from_config_block ke.2 then block
                   else match effective !! ke.1 with Some value => <[ke.1 := value]> block | None => block end)
                 ∅ (btree_iter (entries registry)) in
  foldl (fun block key =>
           match entries registry !! key with
           | Some _ => block
           | None => match effective !! key with Some value => <[key := value]> block | None => block end
           end) block typed_field_keys.
End write_back.

(** ** Evaluation without a memo table *)

Section evaluation.
Context (registry : ConfigSchemaRegistry) (source : gmap string ConfigValue) (context : ExpansionContext)
        (tool_index : option Z).

Notation tool_base := (tool_base context tool_index).
Notation rule_of := (rule_of registry).

(** The key a value is computed from, if any. *)
Definition needs (key : string) (value : ConfigValue) : option string :=
  match rule_of key value with
  | Literal => None
  | AutoBase base_key => Some base_key
  | NozzleTimes _ => match tool_base "nozzle_diameter" with Some _ => None | None => Some "nozzle_diameter" end
  | PercentOf _ base_key => match tool_base base_key with Some _ => None | None => Some base_key end
  end.

(** The number a base key supplies, from what the key evaluates to. *)
Definition base_from (key base_key : string) (out : option ConfigValue) : result f64 ExpansionError :=
  match tool_base base_key with
  | Some value => validate_base key base_key value
  | None =>
      match out with
      | Some value => match base_number value with
                      | Some number => validate_base key base_key number
                      | None => Err (UnknownBaseKey key base_key)
                      end
      | None => if String.eqb base_key "nozzle_diameter" then required_nozzle context key
                else Err (UnknownBaseKey key base_key)
      end
  end.

(** The value of a key, from what the key it needs evaluates to. *)
Definition finish (key : string) (value : ConfigValue) (out : option ConfigValue) : result ConfigValue ExpansionError :=
  match rule_of key value with
  | Literal => Ok value
  | AutoBase base_key => match out with Some value => Ok value | None => Err (MissingAutoBase key base_key) end
  | NozzleTimes factor =>
      let? base := base_from key "nozzle_diameter" out in
      Ok (CvFloat (match factor with Some factor => f64_mul factor base | None => base end))
  | PercentOf percent base_key =>
      let? base := base_from key base_key out in
      Ok (absolute_like value (f64_mul (f64_div percent F100) base))
  end.

Inductive expands : string -> result (option ConfigValue) ExpansionError -> Prop :=
| expands_absent key : source !! key = None -> expands key (Ok None)
| expands_alone key value :
    source !! key = Some value -> needs key value = None ->
    expands key (let? v := finish key value None in Ok (Some v))
| expands_from key value base_key out :
    source !! key = Some value -> needs key value = Some base_key -> expands base_key out ->
    expands key (let? out := out in let? v := finish key value out in Ok (Some v)).

Lemma expands_functional key r1 r2 : expands key r1 -> expands key r2 -> r1 = r2.
Proof.
  intros H1. revert r2. induction H1 as [key Hs | key value Hs Hn | key value b out Hs Hn Hout IH]; intros r2 H2;
    inversion H2; simplify_eq; try congruence.
  by rewrite (IH _ ltac:(eassumption)).
Qed.

Lemma expands_present key out : is_Some (source !! key) -> expands key (Ok out) -> is_Some out.
Proof.
  intros [v Hs] H. remember (Ok out) as r eqn:Hr. destruct H as [k Hn | k v' Hn _ | k v' b o Hn _ _].
  - congruence.
  - destruct (finish k v' None); cbn in Hr; simplify_eq. eauto.
  - destruct o as [o|]; cbn in Hr; [|done]. destruct (finish k v' o); cbn in Hr; simplify_eq. eauto.
Qed.

(** [depends b k]: the value of [k] is computed from that of [b]. *)
Definition depends : relation string := fun b k => exists value, source !! k = Some value /\ needs k value = Some b.

Lemma apply_rule_finish (expand : string -> resolver -> exec (result (option ConfigValue * resolver) ExpansionError))
    key value st :
  apply_rule registry context tool_index expand key value st =
  match needs key value with
  | None => Done (let? v := finish key value None in Ok (v, st))
  | Some base_key =>
      then_ok (expand base_key st) (fun '(out, st) => let? v := finish key value out in Ok (v, st))
  end.
Proof.
  assert (Hreq : forall k b, required_base context tool_index expand k b st =
    match tool_base b with
    | Some _ => Done (let? base := base_from k b None in Ok (base, st))
    | None => then_ok (expand b st) (fun '(out, st) => let? base := base_from k b out in Ok (base, st))
    end).
  { intros k b. unfold required_base, base_from, then_ok.
    destruct (Expansion.tool_base context tool_index b) as [x|]; [done |].
    destruct (expand b st) as [[[[v|] st']|e]| |]; cbn [exec_bind result_bind]; try done.
    - by destruct (base_number v).
    - by destruct (String.eqb b "nozzle_diameter"). }
  unfold apply_rule, needs, finish. destruct (Expansion.rule_of registry key value) as [|factor|b|percent b].
  - done.
  - rewrite Hreq. destruct (Expansion.tool_base context tool_index "nozzle_diameter"); unfold then_ok; cbn [exec_bind].
    + by destruct (base_from key "nozzle_diameter" None).
    + destruct (expand _ st) as [[[out st']|e]| |]; cbn [exec_bind result_bind]; try done.
      by destruct (base_from key "nozzle_diameter" out).
  - unfold then_ok. destruct (expand b st) as [[[[v|] st']|e]| |]; done.
  - rewrite Hreq. destruct (Expansion.tool_base context tool_index b); unfold then_ok; cbn [exec_bind].
    + by destruct (base_from key b None).
    + destruct (expand b st) as [[[out st']|e]| |]; cbn [exec_bind result_bind]; try done.
      by destruct (base_from key b out).
Qed.

Definition memo_ok (st : resolver) : Prop :=
  forall k v, rs_expanded st !! k = Some v -> expands k (Ok (Some v)).

(** What a completed key leaves behind. *)
Lemma record_expanded key v st st' :
  rs_expanded st !! key = None -> key ∉ rs_visiting st -> memo_ok st' ->
  rs_visiting st' = {[key]} ∪ rs_visiting st -> rs_expanded st ⊆ rs_expanded st' -> expands key (Ok (Some v)) ->
  let st'' := {| rs_expanded := <[key := v]> (rs_expanded st'); rs_visiting := rs_visiting st' ∖ {[key]} |} in
  memo_ok st'' /\ rs_visiting st'' = rs_visiting st /\ rs_expanded st ⊆ rs_expanded st''.
Proof.
  intros Hexp Hnot Hm Hv Hsub Hev. cbn. split_and!.
  - intros k v' Hk. cbn in Hk. apply lookup_insert_Some in Hk as [[<- <-] | [_ Hk]]; [done | by apply Hm].
  - rewrite Hv. set_solver.
  - apply map_subseteq_spec. intros k v' Hk. destruct (decide (k = key)) as [-> | Hne]; [congruence |].
    rewrite lookup_insert_ne by done. by eapply lookup_weaken.
Qed.

Context (Hwf : well_founded depends).

(** The recursion ends and computes the evaluation; the memo table and the cycle guard are
    invisible. *)
Lemma expand_key_expands fuel key st :
  (size (dom source ∖ rs_visiting st) < fuel)%nat -> memo_ok st ->
  (forall v, v ∈ rs_visiting st -> tc depends key v) ->
  exists r, expand_key registry source context tool_index fuel key st = Done r /\
    match r with
    | Ok (out, st') => expands key (Ok out) /\ memo_ok st' /\ rs_visiting st' = rs_visiting st /\
        rs_expanded st ⊆ rs_expanded st' /\ forall v, out = Some v -> rs_expanded st' !! key = Some v
    | Err e => expands key (Err e)
    end.
Proof using Hwf.
  revert key st. induction fuel as [|fuel IH]; intros key st Hfuel Hmemo Hvis; [lia |]. cbn [expand_key].
  destruct (rs_expanded st !! key) as [v|] eqn:Hexp.
  { eexists. split; [done |]. split_and!; [by apply Hmemo | done.. | by intros ? [= <-]]. }
  destruct (source !! key) as [value|] eqn:Hsrc.
  2: { eexists. split; [done |]. split_and!; [by apply expands_absent | done..]. }
  assert (Hnot : key ∉ rs_visiting st) by (intros Hin; by apply (tc_irreflexive_Acc _ key (Hwf key)), Hvis).
  rewrite bool_decide_eq_false_2 by done. rewrite apply_rule_finish.
  destruct (needs key value) as [b|] eqn:Hneeds.
  - set (st1 := {| rs_expanded := rs_expanded st; rs_visiting := {[key]} ∪ rs_visiting st |}).
    assert (Hdep : depends b key) by by exists value.
    assert (Hin : key ∈ dom source) by (apply elem_of_dom; eauto).
    destruct (IH b st1) as (r & Hr & Hcase).
    { assert ((size (dom source ∖ ({[key]} ∪ rs_visiting st)) < size (dom source ∖ rs_visiting st))%nat);
        [apply subset_size; set_solver | cbn; lia]. }
    { exact Hmemo. }
    { intros v [->%elem_of_singleton | Hv]%elem_of_union; [by apply tc_once |]. eapply tc_l; [done | by apply Hvis]. }
    rewrite Hr. unfold then_ok. cbn [exec_bind]. eexists. split; [done |]. destruct r as [[out st']|e]; cbn [result_bind].
    + destruct Hcase as (Hev & Hm & Hv & Hsub & _).
      pose proof (expands_from key value b (Ok out) Hsrc Hneeds Hev) as Hkey. cbn [result_bind] in Hkey.
      destruct (finish key value out) as [v|e]; cbn [result_bind] in *; [|done].
      destruct (record_expanded key v st st') as (H1 & H2 & H3); [done.. |].
      split_and!; [done.. |]. intros ? [= <-]. apply lookup_insert_eq.
    + exact (expands_from key value b (Err e) Hsrc Hneeds Hcase).
  - pose proof (expands_alone key value Hsrc Hneeds) as Hkey. unfold then_ok. cbn [exec_bind]. eexists. split; [done |].
    destruct (finish key value None) as [v|e]; cbn [result_bind] in *; [|done].
    destruct (record_expanded key v st {| rs_expanded := rs_expanded st; rs_visiting := {[key]} ∪ rs_visiting st |})
      as (H1 & H2 & H3); [done.. |].
    split_and!; [done.. |]. intros ? [= <-]. apply lookup_insert_eq.
Qed.

(** The loop over the snapshot. *)
Lemma expand_all_expands :
  exists r, expand_all registry source context tool_index = Done r /\
    match r with
    | Ok st => forall key, match source !! key with
               | Some _ => exists v, rs_expanded st !! key = Some v /\ expands key (Ok (Some v))
               | None => rs_expanded st !! key = None
               end
    | Err e => exists key, is_Some (source !! key) /\ expands key (Err e)
    end.
Proof using Hwf.
  unfold expand_all, expansion_fuel.
  assert (Hgen : forall ks seen st, (forall k, k ∈ ks -> is_Some (source !! k)) -> memo_ok st -> rs_visiting st = ∅ ->
    (forall k, k ∈ seen -> is_Some (rs_expanded st !! k)) ->
    exists r, fold_exec (fun st key => then_ok (expand_key registry source context tool_index (S (size source)) key st)
        (fun '(_, st) => Ok st)) st ks = Done r /\
      match r with
      | Ok st => memo_ok st /\ forall k, k ∈ seen ++ ks -> is_Some (rs_expanded st !! k)
      | Err e => exists key, is_Some (source !! key) /\ expands key (Err e)
      end).
  { induction ks as [|k ks IH]; intros seen st Hks Hm Hv Hseen; cbn [fold_exec].
    { eexists. split; [done |]. by rewrite app_nil_r. }
    destruct (expand_key_expands (S (size source)) k st) as (r & Hr & Hcase).
    { assert (Hle : (size (dom source ∖ rs_visiting st) <= size (dom source : gset string))%nat) by (apply subseteq_size; set_solver).
      rewrite size_dom in Hle. lia. }
    { done. } { rewrite Hv. set_solver. }
    unfold then_ok at 1. rewrite Hr. cbn [exec_bind]. destruct r as [[out st']|e]; cbn [result_bind].
    - destruct Hcase as (Hev & Hm' & Hv' & Hsub & Hout).
      destruct (IH (seen ++ [k]) st') as (r & Hr' & Hcase'); [intros; apply Hks; by right | done | by rewrite Hv' | |].
      { intros k' [Hin | ->%list_elem_of_singleton]%elem_of_app.
        - destruct (Hseen k' Hin) as [v Hk']. exists v. by eapply lookup_weaken.
        - destruct out as [v|]; [by exists v; apply Hout |].
          by destruct (expands_present k None (Hks k ltac:(left)) Hev). }
      exists r. split; [done |]. destruct r as [st''|e]; [|done]. by rewrite <-app_assoc in Hcase'.
    - eexists. split; [done |]. exists k. split; [by apply Hks; left | done]. }
  destruct (Hgen (btree_keys source) [] {| rs_expanded := ∅; rs_visiting := ∅ |}) as (r & Hr & Hcase).
  { intros k Hk. by apply elem_of_btree_keys. } { by intros k v Hk. } { done. } { by intros k Hk%not_elem_of_nil. }
  exists r. split; [done |]. destruct r as [st|e]; [|done]. destruct Hcase as [Hm Hall].
  intros key. destruct (source !! key) as [value|] eqn:Hkey.
  - destruct (Hall key) as [v Hv]; [by apply elem_of_btree_keys |]. exists v. split; [done | by apply Hm].
  - destruct (rs_expanded st !! key) as [v|] eqn:Hv; [|done]. exfalso. apply Hm in Hv.
    pose proof (expands_functional key _ _ Hv (expands_absent key Hkey)) as He. discriminate He.
Qed.
End evaluation.

(** ** The automatic keys do not close a cycle *)

(** The keys a sentinel stands for have no base key of their own. *)
Definition auto_bases_plain (registry : ConfigSchemaRegistry) : Prop :=
  forall base, base ∈ ["nozzle_diameter"; "support_interface_top_layers"; "support_interface_spacing"] ->
    base_key_of (entries registry) base = None.

Lemma depends_well_founded registry source context tool_index :
  bases_sound (entries registry) -> auto_bases_plain registry ->
  well_founded (depends registry source context tool_index).
Proof.
  intros [_ Hwf] Hauto.
  set (autos := ["nozzle_diameter"; "support_interface_top_layers"; "support_interface_spacing"]) in *.
  assert (Hleaf : forall base, base ∈ autos -> Acc (depends registry source context tool_index) base).
  { intros base Hb. constructor. intros b (value & _ & Hn). exfalso. unfold needs in Hn.
    assert (Hr : rule_of registry base value = Literal); [|by rewrite Hr in Hn].
    pose proof (Hauto base Hb) as Hnone. unfold base_key_of in Hnone. unfold rule_of, entry. rewrite Hnone.
    unfold autos in Hb. rewrite !elem_of_cons, elem_of_nil in Hb.
    destruct Hb as [-> | [-> | [-> | []]]]; cbn; by destruct (percent_magnitude value). }
  intros k. induction (Hwf k) as [k _ IH]. constructor. intros b (value & _ & Hn).
  assert (Hcase : b ∈ autos \/ base_step (entries registry) b k); [|by destruct Hcase as [Hb | Hb]; [apply Hleaf | apply IH]].
  unfold needs, rule_of in Hn. unfold base_step, base_key_of.
  destruct (String.eqb k "line_width" && is_plain_zero value).
  { left. destruct (tool_base context tool_index "nozzle_diameter"); [done |]. injection Hn as <-. left. }
  destruct (String.eqb k "support_line_width" && is_plain_zero value).
  { left. destruct (tool_base context tool_index "nozzle_diameter"); [done |]. injection Hn as <-. left. }
  destruct (list_find _ BOTTOM_AUTO_BASES) as [[i [a base]]|] eqn:Hf.
  { left. injection Hn as <-. apply list_find_Some in Hf as (Hi & _ & _).
    destruct i as [|[|i]]; [| |done]; cbn in Hi; injection Hi as <- <-; unfold autos; set_solver. }
  destruct (percent_magnitude value) as [percent|]; [|done]. unfold entry in Hn.
  destruct (entries registry !! k ≫= re_base_key) as [base|] eqn:Hbase; [|done].
  right. destruct (tool_base context tool_index base); [done |]. by injection Hn as <-.
Qed.

(** ** What the configuration shows afterwards *)

Section shown.
Context {T : TypedConfig} {L : TypedConfigLaws T}.

(** What a key shows once its value [v] was expanded to [v']: an extension and a key
    without a field take it as it is; a field stores it as its type does. *)
Definition written (cfg : config) (key : string) (v v' : ConfigValue) : option ConfigValue :=
  if bool_decide (v = v') then Some v
  else
    match extensions cfg !! key, cell key with
    | None, Some _ =>
        match stored key v' with
        | Err _ => Some v'
        | Ok shown => if String.eqb key "support_line_width" then Some v' else shown
        end
    | _, _ => Some v'
    end.

Definition same_at (key : string) (c c' : config) : Prop :=
  extensions c' !! key = extensions c !! key /\ rendered c' !! key = rendered c !! key.

Lemma insert_extension_shown c key v :
  to_config_map (insert_extension c key v) !! key = Some v /\
  forall k, k <> key -> same_at k c (insert_extension c key v).
Proof.
  split.
  - rewrite config_map_lookup, extensions_insert. by rewrite lookup_insert_eq.
  - intros k Hk. split; [by rewrite extensions_insert, lookup_insert_ne | by rewrite rendered_insert].
Qed.

Lemma write_expanded_shown cfg c key v v' :
  to_config_map cfg !! key = Some v -> same_at key cfg c ->
  to_config_map (write_expanded (to_config_map cfg) c (key, v')) !! key = written cfg key v v' /\
  forall k, k <> key -> same_at k c (write_expanded (to_config_map cfg) c (key, v')).
Proof.
  intros Hsrc [Hext Hren]. unfold write_expanded, written. rewrite Hsrc.
  destruct (decide (v = v')) as [<- | Hne].
  { rewrite !bool_decide_eq_true_2 by done. split; [|done]. by rewrite config_map_lookup, Hext, Hren, <-config_map_lookup. }
  rewrite !bool_decide_eq_false_2 by congruence. rewrite Hext.
  destruct (extensions cfg !! key) as [x|] eqn:Hx; [apply insert_extension_shown |].
  assert (Hcell : cell key = None \/ cell key = Some key).
  { apply (cell_of_rendered cfg). rewrite config_map_lookup, Hx in Hsrc. by rewrite Hsrc. }
  pose proof (apply_cases c key v') as Happ. destruct Hcell as [Hcell | Hcell]; rewrite Hcell in Happ |- *.
  { rewrite Happ. apply insert_extension_shown. }
  destruct (stored key v') as [shown|e]; [|rewrite Happ; apply insert_extension_shown].
  destruct Happ as (c' & -> & Hext' & Hren'). cbn iota.
  assert (Hothers : forall k, k <> key -> same_at k c c').
  { intros k Hk. split; [by rewrite Hext' |]. by rewrite Hren', decide_False. }
  destruct (String.eqb key "support_line_width").
  - destruct (insert_extension_shown c' key v') as [H1 H2]. split; [done |]. intros k Hk.
    destruct (H2 k Hk) as [He Hr], (Hothers k Hk) as [He' Hr']. by split; [rewrite He | rewrite Hr].
  - split; [|done]. rewrite config_map_lookup, Hext', Hext, Hren'. by rewrite decide_True.
Qed.

(** All writes. *)
Lemma write_all_shown cfg (kvs : list (string * ConfigValue)) c :
  NoDup kvs.*1 -> (forall key, key ∈ kvs.*1 -> is_Some (to_config_map cfg !! key)) ->
  (forall key, key ∈ kvs.*1 -> same_at key cfg c) ->
  (forall key v v', (key, v') ∈ kvs -> to_config_map cfg !! key = Some v ->
     to_config_map (foldl (write_expanded (to_config_map cfg)) c kvs) !! key = written cfg key v v') /\
  (forall key, key ∉ kvs.*1 -> same_at key c (foldl (write_expanded (to_config_map cfg)) c kvs)).
Proof.
  revert c. induction kvs as [|[k v1] kvs IH]; intros c Hnd Hsrc Hsame.
  { split; [by intros ? ? ? ?%not_elem_of_nil | done]. }
  cbn [fmap list_fmap fst] in *. apply NoDup_cons in Hnd as [Hk Hnd].
  destruct (Hsrc k ltac:(left)) as [v Hv].
  destruct (write_expanded_shown cfg c k v v1 Hv (Hsame k ltac:(left))) as [Hhere Hothers].
  set (c1 := write_expanded (to_config_map cfg) c (k, v1)) in *.
  destruct (IH c1 Hnd) as [Hin Hout].
  { intros. apply Hsrc. by right. }
  { intros key Hkey. destruct (Hsame key ltac:(by right)) as [He Hr].
    destruct (Hothers key ltac:(intros ->; done)) as [He' Hr']. by split; [rewrite He' | rewrite Hr']. }
  cbn [foldl]. fold c1. split.
  - intros key w v' [[= -> ->] | Hkv]%elem_of_cons Hw; [|by apply Hin].
    assert (w = v) as -> by congruence. rewrite config_map_lookup.
    destruct (Hout k Hk) as [-> ->]. by rewrite <-config_map_lookup.
  - intros key [Hne Hkey]%not_elem_of_cons. destruct (Hout key Hkey) as [He Hr], (Hothers key Hne) as [He' Hr'].
    by split; [rewrite He | rewrite Hr].
Qed.

(** What expansion does to a configuration. *)
Lemma expansion_outcome (registry : ConfigSchemaRegistry) (cfg : config) (context : ExpansionContext)
    (tool_index : option Z) (Hbases : bases_sound (entries registry)) (Hauto : auto_bases_plain registry) :
  exists r, expand_automatic_values registry cfg context tool_index = Done r /\
  match r with
  | Ok cfg' =>
      forall key, match to_config_map cfg !! key with
      | Some v => exists v', expands registry (to_config_map cfg) context tool_index key (Ok (Some v')) /\
                    to_config_map cfg' !! key = written cfg key v v'
      | None => to_config_map cfg' !! key = None
      end
  | Err e => exists key, is_Some (to_config_map cfg !! key) /\
               expands registry (to_config_map cfg) context tool_index key (Err e)
  end.
Proof.
  unfold expand_automatic_values.
  destruct (expand_all_expands registry (to_config_map cfg) context tool_index) as (r & -> & Hcase);
    [by apply depends_well_founded |].
  unfold then_ok. cbn [exec_bind]. eexists. split; [done |]. destruct r as [st|e]; cbn [result_bind]; [|done].
  destruct (write_all_shown cfg (btree_iter (rs_expanded st)) cfg) as [Hin Hout].
  { apply NoDup_btree_keys. }
  { intros key Hkey. apply elem_of_btree_keys in Hkey as [v Hv]. specialize (Hcase key).
    destruct (to_config_map cfg !! key); [done | congruence]. }
  { by intros key _. }
  intros key. specialize (Hcase key). destruct (to_config_map cfg !! key) as [v|] eqn:Hv.
  - destruct Hcase as (v' & Hexp & Hev). exists v'. split; [done |]. apply Hin; [by apply elem_of_btree_iter | done].
  - rewrite config_map_lookup. destruct (Hout key) as [-> ->].
    + intros Hkey. apply elem_of_btree_keys in Hkey as [v' Hv']. congruence.
    + by rewrite <-config_map_lookup.
Qed.

(** Expanding a configuration ends, whatever the registry's base keys (they are declared
    and acyclic in every registry that was assembled).  It fails, and then changes nothing,
    only when some key does not evaluate, with the error of that key.  Otherwise every key
    shows the value it evaluates to, as its field stores it; no key appears or vanishes. *)
Theorem expansion_exact (registry : ConfigSchemaRegistry) (cfg : config) (context : ExpansionContext)
    (tool_index : option Z) (Hbases : bases_sound (entries registry)) (Hauto : auto_bases_plain registry) :
  exists r, expand_automatic_values registry cfg context tool_index = Done r /\
  match r with
  | Ok cfg' =>
      forall key, match to_config_map cfg !! key with
      | Some v => exists v', expands registry (to_config_map cfg) context tool_index key (Ok (Some v')) /\
                    to_config_map cfg' !! key = written cfg key v v'
      | None => to_config_map cfg' !! key = None
      end
  | Err e => exists key, is_Some (to_config_map cfg !! key) /\
               expands registry (to_config_map cfg) context tool_index key (Err e)
  end.
Proof. by apply expansion_outcome. Qed.
End shown.

(** ** The configuration block *)

Lemma fold_pick {A} (eff : gmap string ConfigValue) (keep : A -> option string) (l : list A)
    (m : gmap string ConfigValue) k :
  foldl (fun m x => match keep x with
                    | Some key => match eff !! key with Some v => <[key := v]> m | None => m end
                    | None => m
                    end) m l !! k =
  if decide (Some k ∈ keep <$> l) then match eff !! k with Some v => Some v | None => m !! k end else m !! k.
Proof.
  revert m. induction l as [|x l IH]; intros m; cbn [foldl fmap list_fmap].
  { by rewrite decide_False by apply not_elem_of_nil. }
  rewrite IH. destruct (keep x) as [key|]; cycle 1.
  { destruct (decide (Some k ∈ keep <$> l)); [by rewrite decide_True by (by right) |].
    rewrite decide_False; [done |]. by intros [? | ?]%elem_of_cons. }
  destruct (decide (key = k)) as [-> | Hne].
  - rewrite (decide_True (P := Some k ∈ Some k :: _)) by left.
    destruct (eff !! k) as [v|]; [|by case_decide]. rewrite lookup_insert_eq. by case_decide.
  - assert (Hm : match eff !! key with Some v => <[key:=v]> m | None => m end !! k = m !! k)
      by (destruct (eff !! key); [by rewrite lookup_insert_ne | done]).
    rewrite Hm. destruct (decide (Some k ∈ keep <$> l)); [by rewrite decide_True by (by right) |].
    rewrite decide_False; [done |]. intros [? | ?]%elem_of_cons; [congruence | done].
Qed.

Lemma foldl_ext {A B} (f g : B -> A -> B) (l : list A) b :
  (forall b x, f b x = g b x) -> foldl f b l = foldl g b l.
Proof. intros H. revert b. induction l as [|x l IH]; intros b; cbn; [done |]. by rewrite H. Qed.

(** The block shows exactly the values of the declared keys that are not omitted, and of the
    typed keys without a declaration; an undeclared extension never reaches it. *)
Theorem config_block_exact {T : TypedConfig} (registry : ConfigSchemaRegistry) (resolved : config) (key : string) :
  config_block_map registry resolved !! key =
  match entry registry key with
  | Some e => if re_omit_from_config_block e then None else to_config_map resolved !! key
  | None => if decide (key ∈ typed_field_keys) then to_config_map resolved !! key else None
  end.
Proof.
  unfold config_block_map. set (eff := to_config_map resolved).
  set (keep1 := fun ke : string * RegistryEntry => if re_omit_from_config_block ke.2 then None else Some ke.1).
  set (keep2 := fun k : string => match entries registry !! k with Some _ => None | None => Some k end).
  rewrite (foldl_ext _ (fun m x => match keep2 x with
      | Some key => match eff !! key with Some v => <[key := v]> m | None => m end | None => m end))
    by (intros b x; unfold keep2; by destruct (entries registry !! x)).
  rewrite (foldl_ext (fun block (ke : string * RegistryEntry) => if re_omit_from_config_block ke.2 then block else _)
    (fun m x => match keep1 x with
      | Some key => match eff !! key with Some v => <[key := v]> m | None => m end | None => m end))
    by (intros b x; unfold keep1; by destruct (re_omit_from_config_block x.2)).
  rewrite !fold_pick, lookup_empty.
  assert (H1 : Some key ∈ keep1 <$> btree_iter (entries registry) <->
    exists e, entry registry key = Some e /\ re_omit_from_config_block e = false).
  { rewrite list_elem_of_fmap. unfold keep1, entry. split.
    - intros ([k e] & Hk & Hin). apply elem_of_btree_iter in Hin. cbn in Hk.
      destruct (re_omit_from_config_block e) eqn:Ho; [done |]. injection Hk as ->. eauto.
    - intros (e & He & Ho). exists (key, e). split; [cbn; by rewrite Ho | by apply elem_of_btree_iter]. }
  assert (H2 : Some key ∈ keep2 <$> typed_field_keys <-> entry registry key = None /\ key ∈ typed_field_keys).
  { rewrite list_elem_of_fmap. unfold keep2, entry. split.
    - intros (k & Hk & Hin). destruct (entries registry !! k) eqn:He; [done |]. by injection Hk as ->.
    - intros [He Hin]. exists key. by rewrite He. }
  destruct (decide (Some key ∈ keep2 <$> typed_field_keys)) as [[He Hin]%H2 | Hn2].
  - rewrite He, (decide_True (P := key ∈ typed_field_keys)) by done.
    rewrite decide_False by (intros (e & He' & _)%H1; congruence). by destruct (eff !! key).
  - destruct (entry registry key) as [e|] eqn:He.
    + destruct (re_omit_from_config_block e) eqn:Ho.
      * rewrite decide_False; [done |]. intros (e' & He' & Ho')%H1. congruence.
      * rewrite decide_True by (apply H1; eauto). by destruct (eff !! key).
    + rewrite decide_False by (intros (e & He' & _)%H1; congruence).
      rewrite decide_False; [done |]. intros Hin. by apply Hn2, H2.
Qed.
