(* ===== verification/EditDistance.v ===== *)
(** The edit distance behind the suggestions for unknown keys ([levenshtein] of
    [slicer-config/src/ingestion.rs]): the row-by-row computation finds the least number of
    insertions, deletions and substitutions.  Strings are sequences of single-byte
    characters. *)
From Stdlib Require Import Ascii.
From stdpp Require Import prelude strings list.
From S2P Require Import Prelude.

#[local] Open Scope string_scope.
#[local] Open Scope list_scope.

Definition chars (s : string) : list ascii := String.list_ascii_of_string s.

(** One cell of the current row from the cells to its left, above, and diagonally above. *)
Definition cell (first_char second_char : ascii) (diagonal above left : nat) : nat :=
  if Ascii.eqb first_char second_char then diagonal else S (Nat.min (Nat.min diagonal above) left).

(** The rest of the current row; [left] is the cell just computed. *)
Fixpoint row_cells (first_char : ascii) (second : list ascii) (previous : list nat) (left : nat) : list nat :=
  match second, previous with
  | second_char :: second, diagonal :: ((above :: _) as previous) =>
      let c := cell first_char second_char diagonal above left in
      c :: row_cells first_char second previous c
  | _, _ => []
  end.

Definition next_row (second : list ascii) (previous : list nat) (ic : nat * ascii) : list nat :=
  S ic.1 :: row_cells ic.2 second previous (S ic.1).

Definition levenshtein (first second : string) : nat :=
  let second_chars := chars second in
  List.last (foldl (next_row second_chars) (seq 0 (S (length second_chars))) (enumerate (chars first))) 0.

Example levenshtein_examples :
  levenshtein "wall_count" "wall_cuont" = 2 /\ levenshtein "" "abc" = 3 /\ levenshtein "kitten" "sitting" = 3 /\
  levenshtein "abc" "abc" = 0.
Proof. by vm_compute. Qed.

(** ** Editing *)

(** [edits n l m]: [l] becomes [m] by [n] insertions, deletions and substitutions. *)
Inductive edits : nat -> list ascii -> list ascii -> Prop :=
| edits_nil : edits 0 [] []
| edits_keep c n l m : edits n l m -> edits n (c :: l) (c :: m)
| edits_substitute a b n l m : edits n l m -> edits (S n) (a :: l) (b :: m)
| edits_insert b n l m : edits n l m -> edits (S n) l (b :: m)
| edits_delete a n l m : edits n l m -> edits (S n) (a :: l) m.

Lemma edits_app n k l m l' m' : edits n l m -> edits k l' m' -> edits (n + k) (l ++ l') (m ++ m').
Proof. induction 1; intros Hk; cbn; [done | constructor; auto..]. Qed.

Lemma edits_rev n l m : edits n l m -> edits n (rev l) (rev m).
Proof.
  assert (Hsnoc : forall k n l m l' m', edits n l m -> edits k l' m' -> edits (k + n) (l ++ l') (m ++ m')).
  { intros k n' l1 m1 l' m' H1 H2. rewrite Nat.add_comm. by apply edits_app. }
  induction 1 as [| c n l m _ IH | a b n l m _ IH | b n l m _ IH | a n l m _ IH]; cbn [rev].
  - constructor.
  - apply (Hsnoc 0); [done |]. repeat constructor.
  - apply (Hsnoc 1); [done |]. repeat constructor.
  - rewrite <-(app_nil_r (rev l)). apply (Hsnoc 1); [done |]. repeat constructor.
  - rewrite <-(app_nil_r (rev m)). apply (Hsnoc 1); [done |]. repeat constructor.
Qed.

(** The recursion that the rows tabulate. *)
Fixpoint distance (l : list ascii) : list ascii -> nat :=
  fix distance_l (m : list ascii) : nat :=
    match l, m with
    | [], _ => length m
    | _, [] => length l
    | a :: l', b :: m' => cell a b (distance l' m') (distance l' m) (distance_l m')
    end.

Lemma distance_nil_l m : distance [] m = length m.
Proof. by destruct m. Qed.

Lemma distance_nil_r l : distance l [] = length l.
Proof. by destruct l. Qed.

Lemma distance_cons a l b m :
  distance (a :: l) (b :: m) = cell a b (distance l m) (distance l (b :: m)) (distance (a :: l) m).
Proof. done. Qed.

(** A letter changes the distance by one at most. *)
Lemma distance_step l m :
  (forall b, distance l (b :: m) <= S (distance l m) /\ distance l m <= S (distance l (b :: m))) /\
  (forall a, distance (a :: l) m <= S (distance l m) /\ distance l m <= S (distance (a :: l) m)).
Proof.
  revert m. induction l as [|a l IHl]; intros m; induction m as [|b m IHm].
  - split; intros; cbn; lia.
  - split; [intros b'; rewrite !distance_nil_l; cbn; lia |]. intros a. rewrite distance_cons. unfold cell.
    destruct IHm as [_ IHm]. specialize (IHm a). rewrite !distance_nil_l in *. cbn [length] in *.
    destruct (Ascii.eqb a b); lia.
  - split; [|intros a'; rewrite !distance_nil_r; cbn; lia]. intros b. rewrite distance_cons, distance_nil_r. unfold cell.
    destruct (IHl []) as [Hb _]. specialize (Hb b). rewrite !distance_nil_r in *. cbn [length].
    destruct (Ascii.eqb a b); lia.
  - destruct IHm as [IHb IHa]. destruct (IHl m) as [Hlb Hla], (IHl (b :: m)) as [Hlb' Hla'].
    split.
    + intros b'. rewrite (distance_cons a l b' (b :: m)). unfold cell. specialize (Hlb' b'). specialize (Hla' a).
      destruct (Ascii.eqb a b'); lia.
    + intros a'. rewrite (distance_cons a' (a :: l) b m). unfold cell. specialize (IHa a'). specialize (IHb b).
      destruct (Ascii.eqb a' b); lia.
Qed.

Lemma distance_edits l m : edits (distance l m) l m.
Proof.
  revert m. induction l as [|a l IHl]; intros m.
  { rewrite distance_nil_l. induction m as [|b m IHm]; cbn; by constructor. }
  induction m as [|b m IHm].
  { cbn [distance]. clear IHl. change (edits (length (a :: l)) (a :: l) []). generalize (a :: l) as k.
    induction k as [|c k IHk]; cbn; by constructor. }
  rewrite distance_cons. unfold cell. destruct (Ascii.eqb_spec a b) as [-> | Hne]; [by constructor |].
  destruct (Nat.min_spec (Nat.min (distance l m) (distance l (b :: m))) (distance (a :: l) m)) as [[_ ->] | [_ ->]];
    [|by constructor].
  destruct (Nat.min_spec (distance l m) (distance l (b :: m))) as [[_ ->] | [_ ->]]; by constructor.
Qed.

Lemma edits_distance n l m : edits n l m -> distance l m <= n.
Proof.
  induction 1 as [| c n l m _ IH | a b n l m _ IH | b n l m _ IH | a n l m _ IH].
  - done.
  - rewrite distance_cons. unfold cell. by rewrite Ascii.eqb_refl.
  - rewrite distance_cons. unfold cell. destruct (Ascii.eqb a b); lia.
  - destruct (distance_step l m) as [H _]. specialize (H b). lia.
  - destruct (distance_step l m) as [_ H]. specialize (H a). lia.
Qed.

(** ** The rows *)

(** The row of a prefix of the first string: its distances to the prefixes of the second.
    Prefixes are kept reversed. *)
Definition row_of (l pre second : list ascii) : list nat :=
  (fun j => distance l (rev (firstn j second) ++ pre)) <$> seq 0 (S (length second)).

Lemma row_of_cons l pre c second : row_of l pre (c :: second) = distance l pre :: row_of l (c :: pre) second.
Proof.
  unfold row_of. cbn [length]. rewrite <-cons_seq. cbn [fmap list_fmap]. f_equal.
  rewrite <-seq_shift. rewrite <-list_fmap_compose. apply list_fmap_ext. intros i j _. cbn. by rewrite <-app_assoc.
Qed.

Lemma row_cells_row a l pre second :
  row_cells a second (row_of l pre second) (distance (a :: l) pre) = tail (row_of (a :: l) pre second).
Proof.
  revert pre. induction second as [|c second IH]; intros pre; [done |].
  rewrite !row_of_cons. cbn [tail]. 
  assert (Hhead : forall x, exists rest, row_of x (c :: pre) second = distance x (c :: pre) :: rest).
  { intros x. destruct second; [by eexists | rewrite row_of_cons; by eexists]. }
  destruct (Hhead l) as [rest Hrest]. specialize (IH (c :: pre)). rewrite Hrest in *. cbn [row_cells].
  rewrite <-distance_cons, IH. destruct (Hhead (a :: l)) as [rest' ->]. done.
Qed.

Lemma rows_distance first second l :
  foldl (next_row second) (row_of l [] second) (zip (seq (length l) (length first)) first) = row_of (rev first ++ l) [] second.
Proof.
  revert l. induction first as [|a first IH]; intros l; [done |]. cbn [length seq zip zip_with foldl].
  assert (Hrow : next_row second (row_of l [] second) (length l, a) = row_of (a :: l) [] second).
  { unfold next_row. cbn [fst snd]. pose proof (row_cells_row a l [] second) as Hc.
    rewrite distance_nil_r in Hc. cbn [length] in Hc. rewrite Hc.
    unfold row_of at 2. cbn [seq fmap list_fmap]. unfold row_of. cbn [seq fmap list_fmap tail].
    f_equal. }
  rewrite Hrow. change (S (length l)) with (length (a :: l)). rewrite IH. cbn [rev]. by rewrite <-app_assoc.
Qed.

(** The distance is the least number of edits that lead from one string to the other. *)
Theorem levenshtein_least (first second : string) :
  edits (levenshtein first second) (chars first) (chars second) /\
  forall n, edits n (chars first) (chars second) -> levenshtein first second <= n.
Proof.
  assert (Heq : levenshtein first second = distance (rev (chars first)) (rev (chars second))).
  { unfold levenshtein, enumerate. set (f := chars first). set (s := chars second).
    assert (H0 : seq 0 (S (length s)) = row_of [] [] s).
    { unfold row_of. rewrite <-(list_fmap_id (seq 0 (S (length s)))) at 1. apply list_fmap_ext.
      intros i j Hj. apply lookup_seq in Hj as [-> Hlt]. cbn [Nat.add]. rewrite app_nil_r, distance_nil_l, length_rev, length_firstn. unfold id. lia. }
    rewrite H0. pose proof (rows_distance f s []) as Hr. cbn [length] in Hr. rewrite Hr, app_nil_r.
    unfold row_of. rewrite seq_S, fmap_app. cbn [fmap list_fmap]. rewrite last_last. cbn [Nat.add].
    by rewrite app_nil_r, firstn_all. }
  rewrite Heq. split.
  - rewrite <-(rev_involutive (chars first)) at 2. rewrite <-(rev_involutive (chars second)) at 2.
    apply edits_rev, distance_edits.
  - intros n Hn. by apply edits_distance, edits_rev.
Qed.
