(* ===== verification/Ingestion.v ===== *)
(** Ingestion of authored configuration values ([slicer-config/src/ingestion.rs]): values are
    typed by the declaration of their key and collected by scope.  A call either commits all
    of its values or none.

    Strings are sequences of single-byte characters, and [Display] of floats and [Debug] of
    lists, which only reach diagnostics, are arguments. *)
From Stdlib Require Import Ascii.
From stdpp Require Import prelude gmap strings list sorting.
From S2P Require Import Prelude Text Ir Float32 Float64 Registry EditDistance.

#[local] Open Scope string_scope.
#[local] Open Scope list_scope.

(** ** Data *)

Record ScopeDelta := { values : gmap ConfigKey ConfigValue }.

Record LayerConfigRange := {
  lr_scope : ConfigScope;
  lr_min_z : f64;
  lr_max_z : f64;
  lr_delta : ScopeDelta
}.

Record ScopedConfig := {
  deltas : gmap ConfigScope ScopeDelta;
  layer_ranges : gmap ObjectId (list LayerConfigRange)
}.

Definition delta (c : ScopedConfig) (scope : ConfigScope) : option ScopeDelta := deltas c !! scope.
Definition global (c : ScopedConfig) : option ScopeDelta := delta c ScopeGlobal.
Definition ranges_for (c : ScopedConfig) (object_id : ObjectId) : list LayerConfigRange :=
  default [] (layer_ranges c !! object_id).

Record LayerRangeInput := {
  li_object_id : ObjectId;
  li_source_index : Z;
  li_min_z : f64;
  li_max_z : f64;
  li_values : gmap string string
}.

Inductive IngestionWarning :=
| UnrecognizedKey (wire_key key : string) (suggestion : option string)
| UntypedValue (key declared_type authored : string).

Inductive ConfigIngestionError :=
| MalformedScopeKey (wire_key expected : string)
| ValueMismatch (key expected authored : string).

(** Of the errors of resolution only a denied key can arise here. *)
Inductive LayerRangeLoadError :=
| RangeDenied (key : string) (scope : ConfigScope)
| ConflictingOverlap (object_id key : string) (first_range second_range : Z)
| InvalidInterval (object_id : string) (range_index : Z) (min_z max_z : f64)
| UnknownObject (object_id : string)
| InvalidLayerHeight (object_id : string) (range_index : Z) (layer_height : f64)
| RangeIngestion (error : ConfigIngestionError).

(** ** Layer ranges *)

(** The bound and its [f32] image, whichever is smaller; the authored bound where the image
    is not finite. *)
Definition narrower (bound : f64) : f64 :=
  let narrowed := narrow bound in if f32_is_finite narrowed then widen narrowed else bound.
Definition effective (bound : f64) : f64 := f64_min bound (narrower bound).

Definition covers (r : LayerConfigRange) (layer_top_z : f64) : bool :=
  f64_leb (effective (lr_min_z r)) layer_top_z && f64_ltb layer_top_z (effective (lr_max_z r)).

Definition valid_layer_range_interval (min_z max_z : f64) : bool :=
  f64_is_finite min_z && f64_is_finite max_z && f64_leb F0 min_z && f64_ltb min_z max_z.

Definition LayerConfigRange_new (object_id : ObjectId) (range_index : Z) (min_z max_z : f64) (d : ScopeDelta)
    : result LayerConfigRange LayerRangeLoadError :=
  if valid_layer_range_interval min_z max_z
  then Ok {| lr_scope := ScopeLayerRange object_id range_index; lr_min_z := min_z; lr_max_z := max_z; lr_delta := d |}
  else Err (InvalidInterval object_id range_index min_z max_z).

(** ** Wire keys *)

(** A prefix alone, or a key that starts with it and a colon. *)
Definition has_scope_prefix (prefix wire_key : string) : bool :=
  String.eqb wire_key prefix || starts_with (prefix +:+ ":") wire_key.

Definition decode_wire_key (wire_key : string) : result (ConfigScope * ConfigKey) ConfigIngestionError :=
  let parts := split ":" wire_key in
  if has_scope_prefix "object_config" wire_key then
    match parts with
    | [_; object_id; key] =>
        if String.eqb object_id "" || String.eqb key ""
        then Err (MalformedScopeKey wire_key "object_config:<object_id>:<key>")
        else Ok (ScopeObject object_id, key)
    | _ => Err (MalformedScopeKey wire_key "object_config:<object_id>:<key>")
    end
  else if has_scope_prefix "paint_config" wire_key then
    match parts with
    | [_; semantic; key] =>
        if String.eqb semantic "" || String.eqb key ""
        then Err (MalformedScopeKey wire_key "paint_config:<semantic>:<key>")
        else Ok (ScopePaintSemantic semantic, key)
    | _ => Err (MalformedScopeKey wire_key "paint_config:<semantic>:<key>")
    end
  else if has_scope_prefix "tool_config" wire_key then
    match parts with
    | [_; tool; key] =>
        match parse_uint u32_max tool with
        | Some tool => if String.eqb key "" then Err (MalformedScopeKey wire_key "tool_config:<u32>:<key>")
                       else Ok (ScopeTool tool, key)
        | None => Err (MalformedScopeKey wire_key "tool_config:<u32>:<key>")
        end
    | _ => Err (MalformedScopeKey wire_key "tool_config:<u32>:<key>")
    end
  else Ok (ScopeGlobal, wire_key).

(** ** Reading values *)

Definition parse_i64 (s : string) : option Z := parse_int (2 ^ 63 - 1) s.

Definition parse_finite_float (value : string) : option f64 :=
  let trimmed := trim value in
  let trimmed := trim (default trimmed (strip_suffix "%" trimmed)) in
  match parse_f64 trimmed with
  | Some value => if f64_is_finite value then Some value else None
  | None => None
  end.

Definition parse_bool (value : string) : option bool :=
  let trimmed := trim value in
  if eq_ignore_ascii_case trimmed "true" || String.eqb trimmed "1" then Some true
  else if eq_ignore_ascii_case trimmed "false" || String.eqb trimmed "0" then Some false
  else None.

Definition parse_percent (value : string) : option f64 := strip_suffix "%" (trim value) ≫= parse_finite_float.

Definition parse_float_or_percent (value : string) : option (f64 * bool) :=
  let trimmed := trim value in
  match strip_suffix "%" trimmed with
  | Some number => (fun x => (x, true)) <$> parse_finite_float number
  | None => (fun x => (x, false)) <$> parse_finite_float trimmed
  end.

Definition parse_point_pair (value : string) : option (f64 * f64) :=
  split_once "x" (trim value) ≫= fun '(x, y) =>
  parse_finite_float x ≫= fun x => parse_finite_float y ≫= fun y => Some (x, y).

(** ** Typing values *)

Section typing.
Context (show_f64 : f64 -> string) (debug_list : list ConfigValue -> string).

Definition authored_text (value : ConfigValue) : string :=
  match value with
  | CvBool b => if b then "true" else "false"
  | CvInt value => show_int value
  | CvFloat value => show_f64 value
  | CvString value => value
  | CvList value => debug_list value
  | CvPercent value => show_f64 value +:+ "%"
  | CvFloatOrPercent value is_percent => if is_percent then show_f64 value +:+ "%" else show_f64 value
  end.

(** One entry of a float list; a text may hold several numbers and point pairs. *)
Definition float_entry (entry : string) : option (list ConfigValue) :=
  match parse_point_pair entry with
  | Some (x, y) => Some [CvFloat x; CvFloat y]
  | None => (fun value => [CvFloat value]) <$> parse_finite_float entry
  end.

Fixpoint collect {A B} (f : A -> option B) (l : list A) : option (list B) :=
  match l with
  | [] => Some []
  | x :: l => f x ≫= fun y => collect f l ≫= fun ys => Some (y :: ys)
  end.

Definition float_item (item : ConfigValue) : option (list ConfigValue) :=
  match item with
  | CvFloat value => if f64_is_finite value then Some [CvFloat value] else None
  | CvInt value => Some [CvFloat (int_as_f64 value)]
  | CvString text =>
      (@List.concat ConfigValue) <$> collect float_entry (filter (fun part => String.eqb (trim part) "" = false) (split "," (trim text)))
  | _ => None
  end.

Definition int_item (item : ConfigValue) : option ConfigValue :=
  match item with
  | CvInt value => Some (CvInt value)
  | CvString value => CvInt <$> parse_i64 value
  | _ => None
  end.

Definition string_item (item : ConfigValue) : option ConfigValue :=
  match item with CvString value => Some (CvString value) | _ => None end.

Definition coerce_list (authored : ConfigValue) (convert : ConfigValue -> option ConfigValue) : option ConfigValue :=
  match authored with
  | CvList items => CvList <$> collect convert items
  | _ => None
  end.

(** The value a declared type makes of an authored one. *)
Definition coerced (authored : ConfigValue) (field_type : string) : option ConfigValue :=
  if String.eqb field_type "bool" then
    match authored with
    | CvBool value => Some (CvBool value)
    | CvInt 0 => Some (CvBool false)
    | CvInt 1 => Some (CvBool true)
    | CvString value => CvBool <$> parse_bool value
    | _ => None
    end
  else if String.eqb field_type "int" then
    match authored with
    | CvInt value => Some (CvInt value)
    | CvFloat value => if f64_is_finite value && f64_is_integral value then Some (CvInt (f64_as_i64 value)) else None
    | CvString value => CvInt <$> parse_i64 (trim value)
    | _ => None
    end
  else if String.eqb field_type "float" then
    match authored with
    | CvFloat value => if f64_is_finite value then Some (CvFloat value) else None
    | CvInt value => Some (CvFloat (int_as_f64 value))
    | CvString value => CvFloat <$> parse_finite_float value
    | _ => None
    end
  else if String.eqb field_type "string" || String.eqb field_type "enum" then
    match authored with CvString value => Some (CvString value) | _ => None end
  else if String.eqb field_type "percent" then
    match authored with
    | CvPercent value => Some (CvPercent value)
    | CvFloatOrPercent value _ => if f64_is_finite value then Some (CvPercent value) else None
    | CvInt value => Some (CvPercent (int_as_f64 value))
    | CvFloat value => if f64_is_finite value then Some (CvPercent value) else None
    | CvString value => CvPercent <$> parse_percent value
    | _ => None
    end
  else if String.eqb field_type "float_or_percent" then
    match authored with
    | CvFloatOrPercent value is_percent => Some (CvFloatOrPercent value is_percent)
    | CvPercent value => if f64_is_finite value then Some (CvFloatOrPercent value true) else None
    | CvInt value => Some (CvFloatOrPercent (int_as_f64 value) false)
    | CvFloat value => if f64_is_finite value then Some (CvFloatOrPercent value false) else None
    | CvString value => (fun '(value, is_percent) => CvFloatOrPercent value is_percent) <$> parse_float_or_percent value
    | _ => None
    end
  else if String.eqb field_type "float-list" then
    let entries := match authored with CvList items => items | other => [other] end in
    (fun flat => CvList (List.concat flat)) <$> collect float_item entries
  else if String.eqb field_type "int-list" then coerce_list authored int_item
  else if String.eqb field_type "string-list" then coerce_list authored string_item
  else None.

Definition coerce_value (key : string) (authored : ConfigValue) (field_type : string)
    : result ConfigValue ConfigIngestionError :=
  match coerced authored field_type with
  | Some value => Ok value
  | None => Err (ValueMismatch key field_type (authored_text authored))
  end.

(** *** Values that are numbers but not finite *)

Definition is_non_finite_float_text (value : string) : bool :=
  match parse_f64 (trim value) with Some value => negb (f64_is_finite value) | None => false end.

Definition is_non_finite_percent_text (value : string) : bool :=
  match strip_suffix "%" (trim value) with Some number => is_non_finite_float_text number | None => false end.

Definition is_non_finite_float_or_percent_text (value : string) : bool :=
  match strip_suffix "%" (trim value) with
  | Some number => is_non_finite_float_text number
  | None => is_non_finite_float_text value
  end.

Definition is_non_finite_scalar_value (authored : ConfigValue) (field_type : string) : bool :=
  if String.eqb field_type "float" then
    match authored with
    | CvFloat value => negb (f64_is_finite value)
    | CvString value => is_non_finite_float_text value
    | _ => false
    end
  else if String.eqb field_type "percent" then
    match authored with
    | CvFloatOrPercent value _ | CvFloat value => negb (f64_is_finite value)
    | CvString value => is_non_finite_percent_text value
    | _ => false
    end
  else if String.eqb field_type "float_or_percent" then
    match authored with
    | CvPercent value | CvFloat value => negb (f64_is_finite value)
    | CvString value => is_non_finite_float_or_percent_text value
    | _ => false
    end
  else false.

Definition is_non_finite_type_mismatch (authored : ConfigValue) (field_type : string) : bool :=
  match authored with
  | CvList items =>
      if ends_with "-list" field_type then
        if String.eqb field_type "float-list"
        then existsb (fun item => is_non_finite_scalar_value item "float") items else false
      else existsb (fun item => is_non_finite_scalar_value item field_type) items
  | _ => is_non_finite_scalar_value authored field_type
  end.

(** The items of a list for a scalar key, when the first one alone has no value. *)
Fixpoint coerce_items (key : string) (items : list ConfigValue) (field_type : string)
    : result (option (list ConfigValue)) ConfigIngestionError :=
  match items with
  | [] => Ok (Some [])
  | item :: items =>
      match coerce_value key item field_type with
      | Ok value => let? rest := coerce_items key items field_type in Ok ((fun rest => value :: rest) <$> rest)
      | Err error => if is_non_finite_scalar_value item field_type then Err error else Ok None
      end
  end.

Definition coerce_scalar_list (key : string) (authored : ConfigValue) (field_type : string)
    : result (option ConfigValue) ConfigIngestionError :=
  match authored with
  | CvList items =>
      if ends_with "-list" field_type then Ok None
      else
        match head items ≫= fun first => coerced first field_type with
        | Some value => Ok (Some value)
        | None => let? items := coerce_items key items field_type in Ok (CvList <$> items)
        end
  | _ => Ok None
  end.
End typing.

(** ** The ingestor *)

Record ConfigIngestor := {
  ig_deltas : gmap ConfigScope ScopeDelta;
  ig_layer_ranges : gmap ObjectId (list LayerConfigRange);
  ig_warnings : list IngestionWarning;
  ig_untyped_global_keys : gset ConfigKey;
  ig_tolerant : bool
}.

Definition with_mode (tolerant : bool) : ConfigIngestor :=
  {| ig_deltas := ∅; ig_layer_ranges := ∅; ig_warnings := []; ig_untyped_global_keys := ∅; ig_tolerant := tolerant |}.

Record PendingEntry := {
  pe_scope : ConfigScope;
  pe_key : ConfigKey;
  pe_value : option ConfigValue;
  pe_warning : option IngestionWarning
}.

Record IngestionOutcome := {
  io_scoped : ScopedConfig;
  io_selector_values : gmap ConfigKey ConfigValue;
  io_warnings : list IngestionWarning
}.

(** [Ord] of optional strings and of triples, as [then_with] composes them. *)
Definition option_string_leb (a b : option string) : bool :=
  match a, b with
  | None, _ => true
  | Some _, None => false
  | Some a, Some b => rust_leb a b
  end.

Definition warning_leb (first second : IngestionWarning) : bool :=
  match first, second with
  | UnrecognizedKey w1 k1 s1, UnrecognizedKey w2 k2 s2 =>
      if String.eqb w1 w2 then if String.eqb k1 k2 then option_string_leb s1 s2 else rust_leb k1 k2 else rust_leb w1 w2
  | UntypedValue k1 t1 a1, UntypedValue k2 t2 a2 =>
      if String.eqb k1 k2 then if String.eqb t1 t2 then rust_leb a1 a2 else rust_leb t1 t2 else rust_leb k1 k2
  | UnrecognizedKey _ _ _, UntypedValue _ _ _ => true
  | UntypedValue _ _ _, UnrecognizedKey _ _ _ => false
  end.

Definition delta_values (deltas : gmap ConfigScope ScopeDelta) (scope : ConfigScope) : gmap ConfigKey ConfigValue :=
  match deltas !! scope with Some d => values d | None => ∅ end.

Definition commit_entry (ig : ConfigIngestor) (e : PendingEntry) : ConfigIngestor :=
  {| ig_deltas :=
       match pe_value e with
       | Some value => <[pe_scope e := {| values := <[pe_key e := value]> (delta_values (ig_deltas ig) (pe_scope e)) |}]>
                         (ig_deltas ig)
       | None => ig_deltas ig
       end;
     ig_layer_ranges := ig_layer_ranges ig;
     ig_warnings := ig_warnings ig ++ option_list (pe_warning e);
     ig_untyped_global_keys :=
       match pe_scope e, pe_warning e with
       | ScopeGlobal, Some (UntypedValue _ _ _) => {[pe_key e]} ∪ ig_untyped_global_keys ig
       | _, _ => ig_untyped_global_keys ig
       end;
     ig_tolerant := ig_tolerant ig |}.

Definition with_warnings (ig : ConfigIngestor) (warnings : list IngestionWarning) : ConfigIngestor :=
  {| ig_deltas := ig_deltas ig; ig_layer_ranges := ig_layer_ranges ig; ig_warnings := warnings;
     ig_untyped_global_keys := ig_untyped_global_keys ig; ig_tolerant := ig_tolerant ig |}.

Definition commit (ig : ConfigIngestor) (pending : list PendingEntry) : ConfigIngestor :=
  let ig := foldl commit_entry ig pending in with_warnings ig (sort_by warning_leb (ig_warnings ig)).

(** [collect::<Result<Vec<_>, _>>()]. *)
Fixpoint collect_result {A B E} (f : A -> result B E) (l : list A) : result (list B) E :=
  match l with
  | [] => Ok []
  | x :: l => let? y := f x in let? ys := collect_result f l in Ok (y :: ys)
  end.

Section ingestor.
Context (registry : ConfigSchemaRegistry).
Context (show_f64 : f64 -> string) (debug_list : list ConfigValue -> string).

(** An exact entry, or the wildcard of the key's prefix. *)
Definition registry_entry (key : string) : option RegistryEntry :=
  match entry registry key with
  | Some e => Some e
  | None => match rsplit_once ":" key with
            | Some (base, _) => entry registry (base +:+ ":*")
            | None => None
            end
  end.

Definition suggestion_leb (first second : nat * string) : bool :=
  if Nat.eqb first.1 second.1 then rust_leb first.2 second.2 else Nat.leb first.1 second.1.

(** [min_by] keeps the first of equal candidates. *)
Definition suggestion (key : string) : option string :=
  let candidates := omap (fun candidate => let distance := levenshtein key candidate in
                                           if Nat.leb distance 2 then Some (distance, candidate) else None) (keys registry) in
  match candidates with
  | [] => None
  | first :: rest => Some (foldl (fun best c => if suggestion_leb best c then best else c) first rest).2
  end.

Definition declared_entry (key : string) : option RegistryEntry :=
  match registry_entry key with
  | Some e => Some e
  | None => if String.eqb (canonical_config_key key) key then None else registry_entry (canonical_config_key key)
  end.

Definition prepare_entry (tolerant : bool) (scope : ConfigScope) (key wire_key : string) (authored : ConfigValue)
    : result PendingEntry ConfigIngestionError :=
  match declared_entry key with
  | None => Ok {| pe_scope := scope; pe_key := key; pe_value := None;
                  pe_warning := Some (UnrecognizedKey wire_key key (suggestion key)) |}
  | Some e =>
      match coerce_value show_f64 debug_list key authored (re_field_type e) with
      | Ok value => Ok {| pe_scope := scope; pe_key := key; pe_value := Some value; pe_warning := None |}
      | Err error =>
          if tolerant then
            if is_non_finite_type_mismatch authored (re_field_type e) then Err error
            else
              let? value := coerce_scalar_list show_f64 debug_list key authored (re_field_type e) in
              Ok {| pe_scope := scope; pe_key := key; pe_value := Some (default authored value);
                    pe_warning := Some (UntypedValue key (re_field_type e) (authored_text show_f64 debug_list authored)) |}
          else Err error
      end
  end.

(** The flat form: the scope is in the key. *)
Definition prepare_flat (tolerant : bool) (kv : string * ConfigValue) : result PendingEntry ConfigIngestionError :=
  let? sk := decode_wire_key kv.1 in
  let '(scope, key) := sk in prepare_entry tolerant scope key kv.1 kv.2.

Definition ingest_flat (ig : ConfigIngestor) (vs : gmap ConfigKey ConfigValue) : ConfigIngestor * result unit ConfigIngestionError :=
  match collect_result (prepare_flat (ig_tolerant ig)) (btree_iter vs) with
  | Err e => (ig, Err e)
  | Ok pending => (commit ig pending, Ok tt)
  end.

Definition ingest_delta (ig : ConfigIngestor) (scope : ConfigScope) (vs : gmap ConfigKey ConfigValue)
    : ConfigIngestor * result unit ConfigIngestionError :=
  match collect_result (fun kv => prepare_entry (ig_tolerant ig) scope kv.1 kv.1 kv.2) (btree_iter vs) with
  | Err e => (ig, Err e)
  | Ok pending => (commit ig pending, Ok tt)
  end.

Definition finish (ig : ConfigIngestor) : IngestionOutcome :=
  {| io_scoped := {| deltas := ig_deltas ig; layer_ranges := ig_layer_ranges ig |};
     io_selector_values :=
       match ig_deltas ig !! ScopeGlobal with
       | Some d => map_collect (base.filter (fun kv => match registry_entry kv.1 with
                     | Some e => re_selector e && negb (bool_decide (kv.1 ∈ ig_untyped_global_keys ig))
                     | None => false
                     end = true) (btree_iter (values d)))
       | None => ∅
       end;
     io_warnings := ig_warnings ig |}.

(** *** Layer ranges *)

Record PendingLayerRange := {
  pl_range_index : Z;
  pl_min_z : f64;
  pl_max_z : f64;
  pl_delta : ScopeDelta
}.

Definition range_input_leb (first second : LayerRangeInput) : bool :=
  if Z.eqb (f64_total_key (li_min_z first)) (f64_total_key (li_min_z second)) then
    if Z.eqb (f64_total_key (li_max_z first)) (f64_total_key (li_max_z second))
    then Z.leb (li_source_index first) (li_source_index second)
    else f64_total_leb (li_max_z first) (li_max_z second)
  else f64_total_leb (li_min_z first) (li_min_z second).

(** The typed values of one range, with the warnings so far. *)
Definition range_value (tolerant : bool) (scope : ConfigScope) (st : gmap ConfigKey ConfigValue * list IngestionWarning)
    (kv : string * string) : result (gmap ConfigKey ConfigValue * list IngestionWarning) ConfigIngestionError :=
  let? e := prepare_entry tolerant scope kv.1 kv.1 (CvString kv.2) in
  Ok (match pe_value e with Some value => <[pe_key e := value]> st.1 | None => st.1 end,
      st.2 ++ option_list (pe_warning e)).

Definition F64_NAN : f64 := F64 9221120237041090560.

(** The height a range may not state, if it states one. *)
Definition unusable_layer_height (vs : gmap ConfigKey ConfigValue) : option f64 :=
  match vs !! "layer_height" with
  | None => None
  | Some (CvFloat height) => if f64_is_finite height && f64_ltb F0 height then None else Some height
  | Some (CvInt height) => Some (int_as_f64 height)
  | Some _ => Some F64_NAN
  end.

Definition first_denied (admission : gset ConfigKey) (vs : gmap ConfigKey ConfigValue) : option ConfigKey :=
  head (filter (fun key => key ∉ admission) (btree_keys vs)).

(** One authored range; [as u32] of its position. *)
Definition prepare_range (tolerant : bool) (object_id : ObjectId)
    (st : list PendingLayerRange * list IngestionWarning) (ir : nat * LayerRangeInput)
    : result (list PendingLayerRange * list IngestionWarning) LayerRangeLoadError :=
  let '(ranges, warnings) := st in
  let '(index, input) := ir in
  let range_index := (Z.of_nat index `mod` 2 ^ 32)%Z in
  let scope := ScopeLayerRange object_id range_index in
  if negb (valid_layer_range_interval (li_min_z input) (li_max_z input))
  then Err (InvalidInterval object_id range_index (li_min_z input) (li_max_z input))
  else
    match try_fold (range_value tolerant scope) (∅, warnings) (btree_iter (li_values input)) with
    | Err e => Err (RangeIngestion e)
    | Ok (vs, warnings) =>
        match unusable_layer_height vs with
        | Some layer_height => Err (InvalidLayerHeight object_id range_index layer_height)
        | None =>
            match first_denied (admission_set registry scope) vs with
            | Some key => Err (RangeDenied key scope)
            | None =>
                Ok (ranges ++ [{| pl_range_index := range_index; pl_min_z := li_min_z input; pl_max_z := li_max_z input;
                                  pl_delta := {| values := vs |} |}], warnings)
            end
        end
    end.

Definition prepare_object (tolerant : bool) (st : gmap ObjectId (list PendingLayerRange) * list IngestionWarning)
    (og : ObjectId * list LayerRangeInput)
    : result (gmap ObjectId (list PendingLayerRange) * list IngestionWarning) LayerRangeLoadError :=
  let? out := try_fold (prepare_range tolerant og.1) ([], st.2) (enumerate (sort_by range_input_leb og.2)) in
  Ok (<[og.1 := out.1]> st.1, out.2).

(** Unequal values of two ranges that overlap. *)
Definition overlap_conflict (first second : PendingLayerRange) : option ConfigKey :=
  if f64_ltb (pl_min_z first) (pl_max_z second) && f64_ltb (pl_min_z second) (pl_max_z first) then
    head (omap (fun kv : string * ConfigValue =>
        if String.eqb kv.1 "layer_height" then None
        else match values (pl_delta second) !! kv.1 with
             | Some second_value => if bool_decide (kv.2 = second_value) then None else Some kv.1
             | None => None
             end) (btree_iter (values (pl_delta first))))
  else None.

Fixpoint check_overlaps (object_id : ObjectId) (ranges : list PendingLayerRange) : result unit LayerRangeLoadError :=
  match ranges with
  | [] => Ok tt
  | first :: ranges =>
      let? _ := for_each (fun second => match overlap_conflict first second with
          | Some key => Err (ConflictingOverlap object_id key (pl_range_index first) (pl_range_index second))
          | None => Ok tt
          end) ranges in
      check_overlaps object_id ranges
  end.

Definition validate_layer_range_overlaps (pending : gmap ObjectId (list PendingLayerRange)) : result unit LayerRangeLoadError :=
  for_each (fun og => check_overlaps og.1 og.2) (btree_iter pending).

Definition build_ranges (object_id : ObjectId) (ranges : list PendingLayerRange)
    : result (list LayerConfigRange) LayerRangeLoadError :=
  collect_result (fun r => LayerConfigRange_new object_id (pl_range_index r) (pl_min_z r) (pl_max_z r) (pl_delta r)) ranges.

Definition group_inputs (inputs : list LayerRangeInput) : gmap ObjectId (list LayerRangeInput) :=
  foldl push_entry ∅ ((fun i => (li_object_id i, i)) <$> inputs).

Definition checked_ranges (tolerant : bool) (inputs : list LayerRangeInput)
    : result (list (ObjectId * list LayerConfigRange) * list IngestionWarning) LayerRangeLoadError :=
  let? prepared := try_fold (prepare_object tolerant) (∅, []) (btree_iter (group_inputs inputs)) in
  let '(pending, warnings) := prepared in
  let? _ := validate_layer_range_overlaps pending in
  let? committed := collect_result (fun og => let? ranges := build_ranges og.1 og.2 in Ok (og.1, ranges))
                      (btree_iter pending) in
  Ok (committed, warnings).

Definition ingest_layer_ranges (ig : ConfigIngestor) (inputs : list LayerRangeInput)
    : ConfigIngestor * result unit LayerRangeLoadError :=
  match checked_ranges (ig_tolerant ig) inputs with
  | Err e => (ig, Err e)
  | Ok (committed, warnings) =>
      ({| ig_deltas := ig_deltas ig;
          ig_layer_ranges := foldl (fun m (og : ObjectId * list LayerConfigRange) => <[og.1 := og.2]> m)
                               (ig_layer_ranges ig) committed;
          ig_warnings := sort_by warning_leb (ig_warnings ig ++ warnings);
          ig_untyped_global_keys := ig_untyped_global_keys ig;
          ig_tolerant := ig_tolerant ig |}, Ok tt)
  end.
End ingestor.

(** ** Typed values *)

(** A value of a declared type. *)
Definition has_type (field_type : string) (v : ConfigValue) : Prop :=
  if String.eqb field_type "bool" then exists b, v = CvBool b
  else if String.eqb field_type "int" then exists i, v = CvInt i
  else if String.eqb field_type "float" then exists x, v = CvFloat x
  else if String.eqb field_type "string" || String.eqb field_type "enum" then exists s, v = CvString s
  else if String.eqb field_type "percent" then exists x, v = CvPercent x
  else if String.eqb field_type "float_or_percent" then exists x p, v = CvFloatOrPercent x p
  else if String.eqb field_type "float-list" then
    exists l, v = CvList l /\ Forall (fun item => exists x, item = CvFloat x) l
  else if String.eqb field_type "int-list" then exists l, v = CvList l /\ Forall (fun item => exists i, item = CvInt i) l
  else if String.eqb field_type "string-list" then
    exists l, v = CvList l /\ Forall (fun item => exists s, item = CvString s) l
  else False.

Lemma collect_Some {A B} (f : A -> option B) l l' : collect f l = Some l' <-> Forall2 (fun x y => f x = Some y) l l'.
Proof.
  revert l'. induction l as [|x l IH]; intros l'; cbn [collect].
  - split; [by intros [= <-] | by intros ->%Forall2_nil_inv_l].
  - destruct (f x) as [y|] eqn:Hx; cbn [mbind option_bind].
    + destruct (collect f l) as [ys|]; cbn [mbind option_bind].
      * split; [intros [= <-]; constructor; [done | by apply IH] |].
        intros (y' & l'' & Hy & Hl & ->)%Forall2_cons_inv_l. apply IH in Hl. congruence.
      * split; [done |]. intros (y' & l'' & Hy & Hl & ->)%Forall2_cons_inv_l. by apply IH in Hl.
    + split; [done |]. intros (y' & l'' & Hy & Hl & ->)%Forall2_cons_inv_l. congruence.
Qed.

Lemma collect_Forall {A B} (f : A -> option B) (P : B -> Prop) l l' :
  (forall x y, f x = Some y -> P y) -> collect f l = Some l' -> Forall P l'.
Proof.
  intros Hf Hc%collect_Some. induction Hc as [|x y l l' Hxy _ IH]; constructor; [by eapply Hf | done].
Qed.

Definition is_float (v : ConfigValue) : Prop := exists x, v = CvFloat x.

Lemma float_entry_floats entry vs : float_entry entry = Some vs -> Forall is_float vs.
Proof.
  unfold float_entry, is_float. destruct (parse_point_pair entry) as [[x y]|].
  - intros [= <-]. repeat constructor; eauto.
  - destruct (parse_finite_float entry); [|done]. intros [= <-]. repeat constructor; eauto.
Qed.

Lemma concat_Forall {A} (P : A -> Prop) (ls : list (list A)) : Forall (Forall P) ls -> Forall P (List.concat ls).
Proof. induction 1; cbn; [constructor | by apply Forall_app]. Qed.

Lemma float_item_floats item vs : float_item item = Some vs -> Forall is_float vs.
Proof.
  destruct item; cbn; try done.
  - intros [= <-]. repeat constructor. by eexists.
  - destruct (f64_is_finite x); [|done]. intros [= <-]. repeat constructor. by eexists.
  - intros (ls & Hl & ->)%fmap_Some. apply concat_Forall. eapply collect_Forall; [|exact Hl]. apply float_entry_floats.
Qed.

(** What a declared type makes of any value is of that type. *)
Lemma coerced_has_type authored field_type v : coerced authored field_type = Some v -> has_type field_type v.
Proof.
  unfold coerced, has_type.
  destruct (String.eqb field_type "bool").
  { destruct authored as [b|[|[]|]| | | | |]; try done; try (by intros [= <-]; eauto).
    destruct (parse_bool s); [|done]. intros [= <-]. eauto. }
  destruct (String.eqb field_type "int").
  { destruct authored; try done; try (by intros [= <-]; eauto).
    - destruct (_ && _); [|done]. intros [= <-]. eauto.
    - destruct (parse_i64 _); [|done]. intros [= <-]. eauto. }
  destruct (String.eqb field_type "float").
  { destruct authored; try done; try (by intros [= <-]; eauto).
    - destruct (f64_is_finite _); [|done]. intros [= <-]. eauto.
    - destruct (parse_finite_float _); [|done]. intros [= <-]. eauto. }
  destruct (_ || _); [destruct authored; try done; intros [= <-]; eauto |].
  destruct (String.eqb field_type "percent").
  { destruct authored; try done; try (by intros [= <-]; eauto).
    - destruct (f64_is_finite _); [|done]. intros [= <-]. eauto.
    - destruct (parse_percent _); [|done]. intros [= <-]. eauto.
    - destruct (f64_is_finite _); [|done]. intros [= <-]. eauto. }
  destruct (String.eqb field_type "float_or_percent").
  { destruct authored; try done; try (by intros [= <-]; eauto).
    - destruct (f64_is_finite _); [|done]. intros [= <-]. eauto.
    - destruct (parse_float_or_percent _) as [[x p]|]; [|done]. intros [= <-]. eauto.
    - destruct (f64_is_finite _); [|done]. intros [= <-]. eauto. }
  destruct (String.eqb field_type "float-list").
  { cbv zeta. intros (flat & Hc & ->)%fmap_Some. eexists. split; [done |]. apply concat_Forall.
    eapply collect_Forall; [|exact Hc]. apply float_item_floats. }
  destruct (String.eqb field_type "int-list").
  { destruct authored; try done. cbn. intros (l' & Hc & ->)%fmap_Some. eexists. split; [done |].
    eapply collect_Forall; [|exact Hc]. intros [] y; cbn; try done; [intros [= <-]; eauto |].
    destruct (parse_i64 _); [|done]. intros [= <-]. eauto. }
  destruct (String.eqb field_type "string-list"); [|done].
  destruct authored; try done. cbn. intros (l' & Hc & ->)%fmap_Some. eexists. split; [done |].
  eapply collect_Forall; [|exact Hc]. intros [] y; cbn; try done. intros [= <-]; eauto.
Qed.
