(* ===== verification/IngestionSpec.v ===== *)
(** What ingestion guarantees ([slicer-config/src/ingestion.rs]): the invariant of the ingestor
    over any sequence of calls, the exact effect of a flat map and of a list of layer ranges,
    the meaning of wire keys, and the layers that adjacent ranges cover. *)
From Stdlib Require Import Ascii.
From stdpp Require Import prelude gmap strings list sorting.
From S2P Require Import Prelude Text Ir Float32 Float64 Registry EditDistance Ingestion.

#[local] Open Scope string_scope.
#[local] Open Scope list_scope.

(** ** What the ingestor keeps *)

Lemma collect_result_cases {A B E} (f : A -> result B E) l :
  match collect_result f l with
  | Ok ys => Forall2 (fun x y => f x = Ok y) l ys
  | Err e => exists before x after, l = before ++ x :: after /\ f x = Err e /\ Forall (fun x => is_ok (f x) = true) before
  end.
Proof.
  induction l as [|x l IH]; cbn [collect_result]; [constructor |].
  destruct (f x) as [y|e] eqn:Hx; cbn [result_bind].
  - destruct (collect_result f l) as [ys|e]; cbn [result_bind]; [by constructor |].
    destruct IH as (before & z & after & -> & Hz & Hb). exists (x :: before), z, after. split_and!; [done.. |].
    constructor; [by rewrite Hx | done].
  - exists [], x, l. by split_and!.
Qed.

Section kept.
Context (registry : ConfigSchemaRegistry).
Context (show_f64 : f64 -> string) (debug_list : list ConfigValue -> string).

Notation prepare_entry := (prepare_entry registry show_f64 debug_list).
Notation declared_entry := (declared_entry registry).

Lemma prepare_entry_key tolerant scope key wire authored pe :
  prepare_entry tolerant scope key wire authored = Ok pe -> pe_scope pe = scope /\ pe_key pe = key.
Proof.
  unfold Ingestion.prepare_entry. destruct (declared_entry key) as [e|]; [|by intros [= <-]].
  destruct (coerce_value _ _ _ _ _) as [v|err]; [by intros [= <-] |].
  destruct tolerant; [|done]. destruct (is_non_finite_type_mismatch _ _); [done |].
  destruct (coerce_scalar_list _ _ _ _ _); [|done]. by intros [= <-].
Qed.

(** What a tolerant ingestor keeps besides typed values: a list of typed items for a scalar
    key, or, as authored, what the declared type can make nothing of.  A number that is not
    finite is not kept in this way. *)
Definition kept_untyped (field_type : string) (v : ConfigValue) : Prop :=
  (exists items, v = CvList items /\ Forall (has_type field_type) items) \/
  (coerced v field_type = None /\ is_non_finite_type_mismatch v field_type = false).

(** A value of a declared key: of its declared type, or kept untyped in tolerant mode only. *)
Definition kept_value (tolerant : bool) (key : ConfigKey) (v : ConfigValue) : Prop :=
  exists e, declared_entry key = Some e /\
    (has_type (re_field_type e) v \/ tolerant = true /\ kept_untyped (re_field_type e) v).

Lemma coerce_items_typed key items field_type l :
  coerce_items show_f64 debug_list key items field_type = Ok (Some l) -> Forall (has_type field_type) l.
Proof.
  revert l. induction items as [|item items IH]; intros l; cbn [coerce_items]; [by intros [= <-]|].
  unfold coerce_value. destruct (coerced item field_type) as [v|] eqn:Hv.
  - destruct (coerce_items _ _ _ items _) as [[rest|]|e]; cbn [result_bind fmap option_fmap option_map]; [|done..].
    intros [= <-]. constructor; [by eapply coerced_has_type | by apply IH].
  - by case_match.
Qed.

Lemma coerce_scalar_list_typed key authored field_type v :
  coerce_scalar_list show_f64 debug_list key authored field_type = Ok (Some v) ->
  has_type field_type v \/ kept_untyped field_type v.
Proof.
  unfold coerce_scalar_list. destruct authored as [| | | |items| |]; try done.
  destruct (ends_with "-list" field_type); [done |].
  destruct (head items ≫= _) as [w|] eqn:Hw.
  - intros [= <-]. destruct (head items) as [first|]; [|done]. cbn in Hw. left. by eapply coerced_has_type.
  - destruct (coerce_items _ _ _ _ _) as [[l|]|e] eqn:Hl; cbn [result_bind fmap option_fmap option_map]; [|done..].
    intros [= <-]. right. left. exists l. split; [done |]. by eapply coerce_items_typed.
Qed.

Lemma prepare_entry_kept tolerant scope key wire authored pe v :
  prepare_entry tolerant scope key wire authored = Ok pe -> pe_value pe = Some v -> kept_value tolerant (pe_key pe) v.
Proof.
  intros Hp Hv. pose proof (prepare_entry_key _ _ _ _ _ _ Hp) as [_ Hk]. rewrite Hk.
  unfold Ingestion.prepare_entry in Hp. destruct (declared_entry key) as [e|] eqn:He; [|by injection Hp as <-].
  exists e. split; [done |]. unfold coerce_value in Hp.
  destruct (coerced authored (re_field_type e)) as [w|] eqn:Hc.
  - injection Hp as <-. injection Hv as <-. left. by eapply coerced_has_type.
  - destruct tolerant; [|done]. destruct (is_non_finite_type_mismatch _ _) eqn:Hf; [done |].
    destruct (coerce_scalar_list _ _ _ _ _) as [[w|]|err] eqn:Hs; cbn [result_bind] in Hp; [| |done];
      injection Hp as <-; injection Hv as <-; cbn [default].
    + apply coerce_scalar_list_typed in Hs as [Hs | Hs]; [by left | by right].
    + right. split; [done |]. by right.
Qed.

(** *** Layer ranges *)

(** One committed range of an object, at its position. *)
Record range_ok (tolerant : bool) (o : ObjectId) (i : nat) (r : LayerConfigRange) : Prop := {
  ro_scope : lr_scope r = ScopeLayerRange o (Z.of_nat i `mod` 2 ^ 32)%Z;
  ro_interval : valid_layer_range_interval (lr_min_z r) (lr_max_z r) = true;
  ro_admitted : forall k v, values (lr_delta r) !! k = Some v -> k ∈ admission_set registry (lr_scope r);
  ro_height : unusable_layer_height (values (lr_delta r)) = None;
  ro_kept : forall k v, values (lr_delta r) !! k = Some v -> kept_value tolerant k v
}.

Definition overlapping (r1 r2 : LayerConfigRange) : Prop :=
  f64_ltb (lr_min_z r1) (lr_max_z r2) = true /\ f64_ltb (lr_min_z r2) (lr_max_z r1) = true.

(** The ranges of an object: in order, and agreeing where they overlap. *)
Record ranges_ok (tolerant : bool) (o : ObjectId) (rs : list LayerConfigRange) : Prop := {
  ros_each : forall i r, rs !! i = Some r -> range_ok tolerant o i r;
  ros_sorted : forall i j r1 r2, (i < j)%nat -> rs !! i = Some r1 -> rs !! j = Some r2 ->
    f64_total_leb (lr_min_z r1) (lr_min_z r2) = true;
  ros_agree : forall i j r1 r2 k v1 v2, (i < j)%nat -> rs !! i = Some r1 -> rs !! j = Some r2 -> overlapping r1 r2 ->
    k <> "layer_height" -> values (lr_delta r1) !! k = Some v1 -> values (lr_delta r2) !! k = Some v2 -> v1 = v2
}.

Definition as_range (o : ObjectId) (p : PendingLayerRange) : LayerConfigRange :=
  {| lr_scope := ScopeLayerRange o (pl_range_index p); lr_min_z := pl_min_z p; lr_max_z := pl_max_z p;
     lr_delta := pl_delta p |}.

Lemma first_denied_None admission (vs : gmap ConfigKey ConfigValue) k v :
  first_denied admission vs = None -> vs !! k = Some v -> k ∈ admission.
Proof.
  unfold first_denied. intros Hn Hk. destruct (decide (k ∈ admission)) as [|Hd]; [done |]. exfalso.
  destruct (filter (fun key => key ∉ admission) (btree_keys vs)) as [|x l] eqn:Hf; [|done].
  assert (Hin : k ∈ filter (fun key => key ∉ admission) (btree_keys vs)).
  { apply list_elem_of_filter. split; [done |]. apply elem_of_btree_keys. eauto. }
  rewrite Hf in Hin. by apply not_elem_of_nil in Hin.
Qed.

Lemma range_values_kept (tolerant : bool) scope kvs vs0 w0 vs w :
  (forall k v, vs0 !! k = Some v -> kept_value tolerant k v) ->
  try_fold (range_value registry show_f64 debug_list tolerant scope) (vs0, w0) kvs = Ok (vs, w) ->
  forall k v, vs !! k = Some v -> kept_value tolerant k v.
Proof.
  intros H0. revert vs0 w0 H0. induction kvs as [|[k s] kvs IH]; intros vs0 w0 H0; cbn [try_fold]; [by intros [= <- _] |].
  unfold range_value at 1. cbn [fst snd].
  destruct (prepare_entry tolerant scope k k (CvString s)) as [pe|e] eqn:Hpe; cbn [result_bind]; [|done].
  apply IH. destruct (pe_value pe) as [v|] eqn:Hv; [|done]. intros k' v'. rewrite lookup_insert_Some.
  intros [[<- <-] | [_ Hk']]; [by eapply prepare_entry_kept | by eapply H0].
Qed.

Lemma prepare_range_ok tolerant o ranges warnings index input ranges' warnings' :
  prepare_range registry show_f64 debug_list tolerant o (ranges, warnings) (index, input) = Ok (ranges', warnings') ->
  exists p, ranges' = ranges ++ [p] /\ range_ok tolerant o index (as_range o p) /\
    pl_min_z p = li_min_z input /\ pl_max_z p = li_max_z input.
Proof.
  unfold prepare_range. destruct (valid_layer_range_interval _ _) eqn:Hiv; [|done]. cbn [negb].
  destruct (try_fold _ _ _) as [[vs w]|e] eqn:Hvs; [|done].
  destruct (unusable_layer_height vs) eqn:Hh; [done |]. destruct (first_denied _ vs) eqn:Hd; [done |].
  intros [= <- <-]. eexists. split; [done |]. split; [|done]. constructor; cbn.
  - done.
  - done.
  - intros k v. by apply first_denied_None.
  - done.
  - eapply range_values_kept; [|exact Hvs]. by intros k v Hk.
Qed.

(** The ranges of an object are put in the order of their bounds. *)
Definition range_input_key (i : LayerRangeInput) : Z * (Z * Z) :=
  (f64_total_key (li_min_z i), (f64_total_key (li_max_z i), li_source_index i)).

Lemma range_input_leb_key a b : range_input_leb a b = rust_leb (range_input_key a) (range_input_key b).
Proof.
  unfold range_input_leb, range_input_key, f64_total_leb. cbn [rust_leb pair_ord]. unfold pair_leb.
  cbn [fst snd rust_leb pair_ord Z_ord]. unfold pair_leb. cbn [fst snd rust_leb Z_ord].
  destruct (Z.eqb_spec (f64_total_key (li_min_z a)) (f64_total_key (li_min_z b))) as [->|Hm].
  - rewrite Z.leb_refl. destruct (Z.eqb_spec (f64_total_key (li_max_z a)) (f64_total_key (li_max_z b))) as [->|Hx].
    + by rewrite Z.leb_refl.
    + destruct (Z.leb_spec (f64_total_key (li_max_z a)) (f64_total_key (li_max_z b))); [|done].
      destruct (Z.leb_spec (f64_total_key (li_max_z b)) (f64_total_key (li_max_z a))); [lia | done].
  - destruct (Z.leb_spec (f64_total_key (li_min_z a)) (f64_total_key (li_min_z b))); [|done].
    destruct (Z.leb_spec (f64_total_key (li_min_z b)) (f64_total_key (li_min_z a))); [lia | done].
Qed.

Lemma range_inputs_sorted l : sorted_by range_input_leb (sort_by range_input_leb l).
Proof.
  apply sort_by_sorted.
  - intros x y z. rewrite !range_input_leb_key. apply rust_leb_trans.
  - intros x y. rewrite !range_input_leb_key. apply rust_leb_total.
Qed.

Lemma range_input_leb_min a b : range_input_leb a b = true -> f64_total_leb (li_min_z a) (li_min_z b) = true.
Proof.
  unfold range_input_leb. destruct (Z.eqb_spec (f64_total_key (li_min_z a)) (f64_total_key (li_min_z b))) as [Hm|]; [|done].
  intros _. unfold f64_total_leb. rewrite Hm. apply Z.leb_refl.
Qed.

(** The ranges prepared of a list of inputs, position by position. *)
Definition prepared_of (tolerant : bool) (o : ObjectId) (inputs : list LayerRangeInput) (ps : list PendingLayerRange) : Prop :=
  length ps = length inputs /\
  forall i p, ps !! i = Some p ->
    range_ok tolerant o i (as_range o p) /\ exists input, inputs !! i = Some input /\ pl_min_z p = li_min_z input /\ pl_max_z p = li_max_z input.

Lemma prepare_ranges_ok tolerant o inputs warnings :
  match try_fold (prepare_range registry show_f64 debug_list tolerant o) ([], warnings) (enumerate inputs) with
  | Ok st => prepared_of tolerant o inputs st.1
  | Err _ => True
  end.
Proof.
  pose proof (try_fold_inv (prepare_range registry show_f64 debug_list tolerant o)
    (fun done st => prepared_of tolerant o done.*2 st.1) (fun _ => True) (enumerate inputs) ([], warnings)) as Hinv.
  assert (Henum : (enumerate inputs).*2 = inputs).
  { unfold enumerate. apply snd_zip. by rewrite length_seq. }
  cbv beta in Hinv. rewrite Henum in Hinv. apply Hinv; [split; [done |]; by intros i p ?|]. clear Hinv.
  intros l [idx input] todo [ranges w] Hl [Hlen Hps]. cbn [fst] in *.
  destruct (prepare_range _ _ _ _ _ _ _) as [[ranges' w']|e] eqn:Hp; [|done].
  apply prepare_range_ok in Hp as (p & -> & Hok & Hmin). cbn [fst].
  rewrite length_fmap in Hlen.
  assert (Hidx : idx = length l).
  { assert (Hat : enumerate inputs !! length l = Some (idx, input))
      by (rewrite Hl, lookup_app_r by lia; by rewrite Nat.sub_diag).
    by apply enumerate_lookup in Hat as [-> _]. }
  rewrite fmap_app. split; [rewrite !length_app, length_fmap; cbn; lia |].
  intros i p'. rewrite lookup_app_Some. intros [Hi | [Hge Hi]].
  - destruct (Hps _ _ Hi) as (Hr & inp & Hin & Hm). split; [done |]. exists inp.
    by rewrite lookup_app_l by (rewrite length_fmap; apply lookup_lt_Some in Hi; lia).
  - apply list_lookup_singleton_Some in Hi as [Hz <-].
    assert (i = length l) as -> by lia. rewrite <-Hidx at 1. split; [done |]. exists input.
    by rewrite lookup_app_r, length_fmap, Nat.sub_diag by (rewrite length_fmap; lia).
Qed.
(** Pending ranges that overlap agree on every key but [layer_height]. *)
Definition agree (p q : PendingLayerRange) : Prop :=
  f64_ltb (pl_min_z p) (pl_max_z q) = true -> f64_ltb (pl_min_z q) (pl_max_z p) = true ->
  forall k v1 v2, k <> "layer_height" ->
    values (pl_delta p) !! k = Some v1 -> values (pl_delta q) !! k = Some v2 -> v1 = v2.

Lemma overlap_conflict_None p q : overlap_conflict p q = None -> agree p q.
Proof.
  unfold overlap_conflict, agree. intros Hc H1 H2 k v1 v2 Hk Hv1 Hv2. rewrite H1, H2 in Hc. cbn [andb] in Hc.
  destruct (decide (v1 = v2)) as [|Hne]; [done |]. exfalso.
  destruct (omap _ _) as [|x l] eqn:Ho in Hc; [|done]. apply (not_elem_of_nil (A := ConfigKey) k). rewrite <-Ho.
  apply list_elem_of_omap. exists (k, v1). split; [by apply elem_of_btree_iter |]. cbn [fst snd].
  rewrite (proj2 (String.eqb_neq _ _)) by done. rewrite Hv2. by rewrite bool_decide_eq_false_2.
Qed.

Lemma overlap_conflict_Some p q k : overlap_conflict p q = Some k -> ~ agree p q.
Proof.
  unfold overlap_conflict, agree. destruct (f64_ltb (pl_min_z p) (pl_max_z q)) eqn:H1; [|done].
  destruct (f64_ltb (pl_min_z q) (pl_max_z p)) eqn:H2; [|done]. cbn [andb]. intros Hh.
  assert (Hin : k ∈ omap (fun kv : string * ConfigValue =>
    if String.eqb kv.1 "layer_height" then None
    else match values (pl_delta q) !! kv.1 with
         | Some second_value => if bool_decide (kv.2 = second_value) then None else Some kv.1
         | None => None
         end) (btree_iter (values (pl_delta p)))).
  { destruct (omap _ _) as [|x l]; [done |]. injection Hh as ->. by left. }
  clear Hh. apply list_elem_of_omap in Hin as ([k' v1] & Hk%elem_of_btree_iter & Hf). cbn [fst snd] in Hf.
  destruct (String.eqb_spec k' "layer_height") as [|Hl]; [done |].
  destruct (values (pl_delta q) !! k') as [v2|] eqn:Hv2; [|done].
  destruct (bool_decide_reflect (v1 = v2)); [done |]. intros Ha. apply n. by eapply Ha.
Qed.

Lemma check_overlaps_Ok o ps : check_overlaps o ps = Ok tt <-> ForallOrdPairs agree ps.
Proof.
  induction ps as [|p ps IH]; cbn [check_overlaps]; [split; [constructor | done] |].
  assert (Hf : for_each (fun second => match overlap_conflict p second with
                 | Some key => Err (ConflictingOverlap o key (pl_range_index p) (pl_range_index second))
                 | None => Ok tt end) ps = Ok tt <-> Forall (agree p) ps).
  { rewrite for_each_Ok, Forall_forall. split; intros H q Hq; specialize (H q Hq).
    - apply overlap_conflict_None. by destruct (overlap_conflict p q).
    - destruct (overlap_conflict p q) as [k|] eqn:Hc; [|done]. by apply overlap_conflict_Some in Hc. }
  destruct (for_each _ ps) as [[]|e]; cbn [result_bind].
  - rewrite IH. split; [intros H; constructor; [by apply Hf | done] | by inversion 1].
  - split; [done |]. inversion 1 as [|? ? H1 H2]; subst. by apply Hf in H1.
Qed.

Lemma ForallOrdPairs_lookup {A} (R : A -> A -> Prop) l i j x y :
  ForallOrdPairs R l -> (i < j)%nat -> l !! i = Some x -> l !! j = Some y -> R x y.
Proof.
  intros Hp. revert i j. induction Hp as [|z l Hz Hl IH]; intros i j Hij Hi Hj; [done |].
  destruct j as [|j]; [lia |]. destruct i as [|i]; cbn in *.
  - injection Hi as ->. rewrite Forall_forall in Hz. by eapply Hz, list_elem_of_lookup_2.
  - eapply (IH i j); [lia | done | done].
Qed.

(** A validated interval makes a range. *)
Lemma build_ranges_Ok tolerant o inputs ps :
  prepared_of tolerant o inputs ps -> build_ranges o ps = Ok (as_range o <$> ps).
Proof.
  intros [_ Hps]. unfold build_ranges.
  assert (Hall : Forall (fun p => valid_layer_range_interval (pl_min_z p) (pl_max_z p) = true) ps).
  { apply Forall_lookup. intros i p Hp. destruct (Hps i p Hp) as [Hok _]. by apply ro_interval in Hok. }
  clear Hps. induction Hall as [|p ps Hp _ IH]; [done |]. cbn [collect_result fmap list_fmap].
  unfold LayerConfigRange_new at 1. rewrite Hp. cbn [result_bind]. by rewrite IH.
Qed.

(** The ranges of one object, from its inputs in order. *)
Lemma as_ranges_ok tolerant o inputs ps :
  sorted_by range_input_leb inputs -> prepared_of tolerant o inputs ps -> ForallOrdPairs agree ps ->
  ranges_ok tolerant o (as_range o <$> ps).
Proof.
  intros Hs [Hlen Hps] Ha. constructor.
  - intros i r. rewrite list_lookup_fmap. intros (p & Hp & ->)%fmap_Some. by destruct (Hps i p Hp).
  - intros i j r1 r2 Hij. rewrite !list_lookup_fmap. intros (p & Hp & ->)%fmap_Some (q & Hq & ->)%fmap_Some.
    destruct (Hps i p Hp) as (_ & inp & Hi & Hmi & _), (Hps j q Hq) as (_ & inq & Hj & Hmj & _). cbn.
    rewrite Hmi, Hmj. apply range_input_leb_min. by eapply sorted_by_lookup.
  - intros i j r1 r2 k v1 v2 Hij. rewrite !list_lookup_fmap. intros (p & Hp & ->)%fmap_Some (q & Hq & ->)%fmap_Some.
    intros [H1 H2] Hk Hv1 Hv2. pose proof (ForallOrdPairs_lookup _ _ _ _ _ _ Ha Hij Hp Hq H1 H2) as Hpq. by eapply Hpq.
Qed.
Definition inputs_of (o : ObjectId) (inputs : list LayerRangeInput) : list LayerRangeInput :=
  filter (fun i => li_object_id i = o) inputs.

Lemma group_inputs_lookup inputs o :
  group_inputs inputs !! o = match inputs_of o inputs with [] => None | l => Some l end.
Proof.
  unfold group_inputs, inputs_of.
  induction inputs as [|i inputs IH] using rev_ind; [done |].
  rewrite fmap_app, foldl_app, filter_app. cbn [foldl fmap list_fmap]. unfold push_entry at 1. cbn [fst snd].
  set (m := foldl push_entry ∅ ((fun i => (li_object_id i, i)) <$> inputs)) in *.
  destruct (decide (li_object_id i = o)) as [<-|Ho].
  - rewrite lookup_insert_eq, IH, (list_filter_all _ [i]) by (by constructor).
    by destruct (filter _ inputs).
  - rewrite lookup_insert_ne, filter_cons_False, filter_nil by done. by rewrite app_nil_r.
Qed.

Lemma group_inputs_Some inputs o l : group_inputs inputs !! o = Some l -> l = inputs_of o inputs /\ l <> [].
Proof. rewrite group_inputs_lookup. destruct (inputs_of o inputs); [done | by intros [= <-]]. Qed.

(** The prepared objects are the named ones. *)
Definition prepared (tolerant : bool) (grouped : list (ObjectId * list LayerRangeInput))
    (pending : gmap ObjectId (list PendingLayerRange)) : Prop :=
  forall o, match pending !! o with
    | Some ps => exists l, (o, l) ∈ grouped /\ prepared_of tolerant o (sort_by range_input_leb l) ps
    | None => o ∉ grouped.*1
    end.

Lemma prepare_objects_ok tolerant grouped :
  match try_fold (prepare_object registry show_f64 debug_list tolerant) (∅, []) grouped with
  | Ok st => prepared tolerant grouped st.1
  | Err _ => True
  end.
Proof.
  apply (try_fold_inv _ (fun done st => prepared tolerant done st.1)).
  { intros o. cbn [fst]. rewrite lookup_empty. apply not_elem_of_nil. }
  intros l [o l'] todo [pending w] _ Hp. unfold prepare_object. cbn [fst snd] in *.
  pose proof (prepare_ranges_ok tolerant o (sort_by range_input_leb l') w) as Hr.
  destruct (try_fold _ _ _) as [[ps w']|e]; cbn [result_bind]; [|done]. cbn [fst] in Hr |- *. intros o'.
  destruct (decide (o' = o)) as [->|Ho].
  - rewrite lookup_insert_eq. exists l'. split; [|done]. apply elem_of_app. right. by apply list_elem_of_singleton.
  - rewrite lookup_insert_ne by done. specialize (Hp o'). destruct (pending !! o') as [ps'|].
    + destruct Hp as (l'' & Hin & Hof). exists l''. split; [|done]. apply elem_of_app. by left.
    + rewrite fmap_app, elem_of_app. intros [|Hin]; [done |]. apply list_elem_of_singleton in Hin. done.
Qed.

Lemma pending_bounds tolerant o inputs ps :
  prepared_of tolerant o inputs ps ->
  (fun r => (lr_min_z r, lr_max_z r)) <$> (as_range o <$> ps) = (fun i => (li_min_z i, li_max_z i)) <$> inputs.
Proof.
  intros [Hlen Hps]. apply list_eq_same_length with (length inputs); [by rewrite length_fmap | by rewrite !length_fmap |].
  intros i x y _. rewrite !list_lookup_fmap.
  intros Hx (input & Hi & ->)%fmap_Some. destruct (ps !! i) as [p|] eqn:Hp; [|done].
  destruct (Hps i p Hp) as (_ & input' & Hi' & Hm & HM). rewrite Hi in Hi'. injection Hi' as <-.
  injection Hx as <-. cbn. by rewrite Hm, HM.
Qed.

Definition as_entry (og : ObjectId * list PendingLayerRange) : ObjectId * list LayerConfigRange :=
  (og.1, as_range og.1 <$> og.2).

(** A checked input gives every named object its ranges. *)
Lemma checked_ranges_ok tolerant inputs committed w :
  checked_ranges registry show_f64 debug_list tolerant inputs = Ok (committed, w) ->
  NoDup committed.*1 /\
  (forall o, o ∈ committed.*1 <-> inputs_of o inputs <> []) /\
  forall o rs, (o, rs) ∈ committed -> ranges_ok tolerant o rs /\
    (fun r => (lr_min_z r, lr_max_z r)) <$> rs = (fun i => (li_min_z i, li_max_z i)) <$> sort_by range_input_leb (inputs_of o inputs).
Proof.
  unfold checked_ranges. pose proof (prepare_objects_ok tolerant (btree_iter (group_inputs inputs))) as Hprep.
  destruct (try_fold _ _ _) as [[pending w']|e]; cbn [result_bind]; [|done]. cbn [fst] in Hprep.
  unfold validate_layer_range_overlaps.
  destruct (for_each _ (btree_iter pending)) as [[]|e] eqn:Hov; cbn [result_bind]; [|done].
  rewrite for_each_Ok in Hov.
  assert (Hnamed : forall o ps, pending !! o = Some ps ->
    inputs_of o inputs <> [] /\ prepared_of tolerant o (sort_by range_input_leb (inputs_of o inputs)) ps).
  { intros o ps Hps. specialize (Hprep o). rewrite Hps in Hprep. destruct Hprep as (l & Hl & Hof).
    apply elem_of_btree_iter, group_inputs_Some in Hl as [-> Hl]. done. }
  pose proof (collect_result_cases (fun og : ObjectId * list PendingLayerRange =>
    let? ranges := build_ranges og.1 og.2 in Ok (og.1, ranges)) (btree_iter pending)) as Hc.
  destruct (collect_result _ _) as [committed'|e]; cbn [result_bind]; [|done]. intros [= <- <-].
  assert (Heq : committed' = as_entry <$> btree_iter pending).
  { assert (Hall : Forall (fun og => pending !! og.1 = Some og.2) (btree_iter pending)).
    { apply Forall_forall. intros [o ps] Hin. by apply elem_of_btree_iter in Hin. }
    clear Hov Hprep. induction Hc as [|[o ps] y l ys Hy _ IH]; [done |].
    apply Forall_cons in Hall as [Ho Hall]. cbn [fst snd] in *. rewrite (build_ranges_Ok tolerant o _ ps (proj2 (Hnamed o ps Ho))) in Hy.
    injection Hy as <-. cbn. f_equal. by apply IH. }
  rewrite Heq. clear Hc Heq committed'. rewrite <-list_fmap_compose.
  change ((fst ∘ as_entry) <$> btree_iter pending) with (btree_keys pending). split_and!.
  - apply NoDup_btree_keys.
  - intros o. rewrite elem_of_btree_keys. split.
    + intros [ps Hps]. by apply Hnamed in Hps as [].
    + intros Ho. specialize (Hprep o). destruct (pending !! o) as [ps|]; [done |]. exfalso. apply Hprep.
      change (o ∈ btree_keys (group_inputs inputs)). apply elem_of_btree_keys. rewrite group_inputs_lookup.
      destruct (inputs_of o inputs); [done | by eexists].
  - intros o rs Hin. apply list_elem_of_fmap in Hin as ([o' ps] & [= -> ->] & Hps).
    pose proof (Hov _ Hps) as Ho. cbn [fst snd] in *. apply elem_of_btree_iter, Hnamed in Hps as [_ Hps].
    split; [|by apply pending_bounds with tolerant]. eapply as_ranges_ok; [apply range_inputs_sorted | exact Hps |].
    by apply check_overlaps_Ok in Ho.
Qed.
(** *** Entries *)

(** The value a list of entries leaves at a key of a scope: the last one. *)
Definition entry_value (scope : ConfigScope) (key : ConfigKey) (e : PendingEntry) : option ConfigValue :=
  if bool_decide (pe_scope e = scope) && String.eqb (pe_key e) key then pe_value e else None.

Definition last_value (scope : ConfigScope) (key : ConfigKey) (pending : list PendingEntry) : option ConfigValue :=
  last (omap (entry_value scope key) pending).

Lemma delta_values_insert ds scope d scope' :
  delta_values (<[scope := d]> ds) scope' = if bool_decide (scope = scope') then values d else delta_values ds scope'.
Proof.
  unfold delta_values. case_bool_decide as Hs; [subst; by rewrite lookup_insert_eq | by rewrite lookup_insert_ne].
Qed.

Lemma commit_entry_lookup ig e scope key :
  delta_values (ig_deltas (commit_entry ig e)) scope !! key =
    match entry_value scope key e with
    | Some v => Some v
    | None => delta_values (ig_deltas ig) scope !! key
    end.
Proof.
  unfold commit_entry, entry_value. cbn [ig_deltas]. destruct (pe_value e) as [v|]; [|by destruct (_ && _)].
  rewrite delta_values_insert. case_bool_decide as Hs; cbn [andb]; [|done]. cbn [values]. subst scope.
  destruct (String.eqb_spec (pe_key e) key) as [<-|Hk]; [by rewrite lookup_insert_eq | by rewrite lookup_insert_ne].
Qed.

Lemma omap_singleton_last {A B} (f : A -> option B) l x :
  last (omap f (l ++ [x])) = match f x with Some y => Some y | None => last (omap f l) end.
Proof.
  rewrite omap_app. cbn. destruct (f x); [apply last_snoc | by rewrite app_nil_r].
Qed.

Lemma commit_lookup ig pending scope key :
  delta_values (ig_deltas (commit ig pending)) scope !! key =
    match last_value scope key pending with
    | Some v => Some v
    | None => delta_values (ig_deltas ig) scope !! key
    end.
Proof.
  unfold commit, last_value. cbn [ig_deltas with_warnings].
  induction pending as [|e pending IH] using rev_ind; [done |].
  rewrite foldl_app, omap_singleton_last. cbn [foldl]. rewrite commit_entry_lookup, IH. by destruct (entry_value _ _ e).
Qed.

Lemma commit_rest ig pending :
  ig_layer_ranges (commit ig pending) = ig_layer_ranges ig /\ ig_tolerant (commit ig pending) = ig_tolerant ig.
Proof.
  unfold commit. cbn [ig_layer_ranges ig_tolerant with_warnings].
  induction pending as [|e pending IH] using rev_ind; [done |]. by rewrite foldl_app.
Qed.

Definition kept_entries (tolerant : bool) (pending : list PendingEntry) : Prop :=
  Forall (fun pe => forall v, pe_value pe = Some v -> kept_value tolerant (pe_key pe) v) pending.

Lemma last_value_kept tolerant scope key pending v :
  kept_entries tolerant pending -> last_value scope key pending = Some v -> kept_value tolerant key v.
Proof.
  intros Hall Hl%last_Some_elem_of. apply list_elem_of_omap in Hl as (e & He & Hv). unfold entry_value in Hv.
  destruct (_ && _) eqn:Hb; [|done]. apply andb_true_iff in Hb as [_ <-%String.eqb_eq].
  unfold kept_entries in Hall. rewrite Forall_forall in Hall. by apply Hall.
Qed.
(** *** Calls *)

Inductive ingest_call :=
| CallFlat (vs : gmap ConfigKey ConfigValue)
| CallDelta (scope : ConfigScope) (vs : gmap ConfigKey ConfigValue)
| CallRanges (inputs : list LayerRangeInput).

Definition run_call (ig : ConfigIngestor) (c : ingest_call) : ConfigIngestor :=
  match c with
  | CallFlat vs => (ingest_flat registry show_f64 debug_list ig vs).1
  | CallDelta scope vs => (ingest_delta registry show_f64 debug_list ig scope vs).1
  | CallRanges inputs => (ingest_layer_ranges registry show_f64 debug_list ig inputs).1
  end.

(** What an ingestor keeps, whatever it was given. *)
Record ingestor_ok (ig : ConfigIngestor) : Prop := {
  io_kept : forall scope k v, delta_values (ig_deltas ig) scope !! k = Some v -> kept_value (ig_tolerant ig) k v;
  io_ranges : forall o rs, ig_layer_ranges ig !! o = Some rs -> ranges_ok (ig_tolerant ig) o rs
}.

Lemma commit_ok ig pending : kept_entries (ig_tolerant ig) pending -> ingestor_ok ig -> ingestor_ok (commit ig pending).
Proof.
  intros Hp [Hk Hr]. destruct (commit_rest ig pending) as [HR HT]. constructor; rewrite HT.
  - intros scope k v. rewrite commit_lookup. destruct (last_value scope k pending) as [v'|] eqn:Hl; [|apply Hk].
    intros [= <-]. by eapply last_value_kept.
  - rewrite HR. exact Hr.
Qed.

Lemma collected_kept {A} (f : A -> result PendingEntry ConfigIngestionError) tolerant l pending :
  (forall x pe v, f x = Ok pe -> pe_value pe = Some v -> kept_value tolerant (pe_key pe) v) ->
  collect_result f l = Ok pending -> kept_entries tolerant pending.
Proof.
  intros Hf Hc. pose proof (collect_result_cases f l) as H. rewrite Hc in H.
  induction H as [|x pe l pending Hx _ IH]; constructor; [|apply IH].
  - intros v. by apply (Hf x).
  - clear IH. revert Hc. cbn. rewrite Hx. cbn. destruct (collect_result f l); [|done]. cbn. by intros [= <-].
Qed.

Lemma prepare_flat_kept tolerant kv pe v :
  prepare_flat registry show_f64 debug_list tolerant kv = Ok pe -> pe_value pe = Some v -> kept_value tolerant (pe_key pe) v.
Proof.
  unfold prepare_flat. destruct (decode_wire_key kv.1) as [[scope key]|e]; cbn [result_bind]; [|done].
  apply prepare_entry_kept.
Qed.

(** The committed objects replace theirs. *)
Lemma fold_replace_lookup (committed : list (ObjectId * list LayerConfigRange)) (m : gmap ObjectId (list LayerConfigRange)) o :
  NoDup committed.*1 ->
  (forall rs, (o, rs) ∈ committed -> foldl (fun m (og : ObjectId * list LayerConfigRange) => <[og.1 := og.2]> m) m committed !! o = Some rs) /\
  (o ∉ committed.*1 -> foldl (fun m (og : ObjectId * list LayerConfigRange) => <[og.1 := og.2]> m) m committed !! o = m !! o).
Proof.
  induction committed as [|[o' rs'] l IH] using rev_ind; intros Hnd.
  - split; [by intros rs ?%not_elem_of_nil | done].
  - rewrite fmap_app in Hnd. apply NoDup_app in Hnd as (Hnd & Hd & _). destruct (IH Hnd) as [IH1 IH2].
    rewrite foldl_app. cbn [foldl fst snd]. split.
    + intros rs [Hin | Hin]%elem_of_app.
      * rewrite lookup_insert_ne; [by apply IH1 |]. intros ->. apply (Hd o); [|by left].
        apply list_elem_of_fmap. by exists (o, rs).
      * apply list_elem_of_singleton in Hin as [= -> ->]. by rewrite lookup_insert_eq.
    + rewrite fmap_app, not_elem_of_app. intros [Hl Ho]. rewrite lookup_insert_ne; [by apply IH2 |].
      intros ->. apply Ho. by left.
Qed.

Lemma run_call_ok ig c : ingestor_ok ig -> ingestor_ok (run_call ig c) /\ ig_tolerant (run_call ig c) = ig_tolerant ig.
Proof.
  intros Hig. destruct c as [vs|scope vs|inputs]; cbn [run_call].
  - unfold ingest_flat. destruct (collect_result _ _) as [pending|e] eqn:Hc; [|done]. cbn [fst].
    split; [|apply commit_rest]. apply commit_ok; [|done]. eapply collected_kept; [|exact Hc]. apply prepare_flat_kept.
  - unfold ingest_delta. destruct (collect_result _ _) as [pending|e] eqn:Hc; [|done]. cbn [fst].
    split; [|apply commit_rest]. apply commit_ok; [|done]. eapply collected_kept; [|exact Hc].
    intros kv pe v. apply prepare_entry_kept.
  - unfold ingest_layer_ranges. destruct (checked_ranges _ _ _ _ _) as [[committed w]|e] eqn:Hc; [|done]. cbn [fst].
    apply checked_ranges_ok in Hc as (Hnd & Hnamed & Hrs). split; [|done]. destruct Hig as [Hk Hr].
    constructor; cbn [ig_deltas ig_tolerant ig_layer_ranges]; [exact Hk |]. intros o rs.
    destruct (fold_replace_lookup committed (ig_layer_ranges ig) o Hnd) as [H1 H2].
    destruct (decide (o ∈ committed.*1)) as [Ho|Ho]; [|rewrite H2 by done; apply Hr].
    apply list_elem_of_fmap in Ho as ([o' rs'] & -> & Hin). rewrite (H1 _ Hin). intros [= <-]. by apply Hrs.
Qed.
End kept.

(** *** Properties *)


(** *** Wire keys *)

(** The prefix of a scope, and the text between the colons. *)
Definition scoped_key (prefix name key : string) : string := prefix +:+ String ":" (name +:+ String ":" key).

(** A name or key that may stand between colons. *)
Definition plain (s : string) : Prop := s <> "" /\ has_char ":" s = false.

Definition SCOPE_PREFIXES : list string := ["object_config"; "paint_config"; "tool_config"].

(** What a wire key means. *)
Inductive wire_meaning : string -> ConfigScope -> ConfigKey -> Prop :=
| wire_object o k : plain o -> plain k -> wire_meaning (scoped_key "object_config" o k) (ScopeObject o) k
| wire_paint p k : plain p -> plain k -> wire_meaning (scoped_key "paint_config" p k) (ScopePaintSemantic p) k
| wire_tool d t k : has_char ":" d = false -> parse_uint u32_max d = Some t -> plain k ->
    wire_meaning (scoped_key "tool_config" d k) (ScopeTool t) k
| wire_global k : (forall p, p ∈ SCOPE_PREFIXES -> has_scope_prefix p k = false) -> wire_meaning k ScopeGlobal k.

Lemma has_scope_prefix_cases prefix w :
  has_scope_prefix prefix w = true <-> w = prefix \/ exists r, w = prefix +:+ String ":" r.
Proof.
  unfold has_scope_prefix. rewrite orb_true_iff, String.eqb_eq, starts_with_true.
  apply or_iff_compat_l. split; intros [r ->]; exists r; by rewrite string_app_assoc.
Qed.

Lemma has_char_mid c a b : has_char c (a +:+ String c b) = true.
Proof.
  induction a as [|d a IH]; [change (Ascii.eqb c c || has_char c b = true); by rewrite Ascii.eqb_refl |].
  change (Ascii.eqb c d || has_char c (a +:+ String c b) = true). by rewrite IH, orb_true_r.
Qed.

(** The parts of a scoped key with two colons. *)
Lemma scoped_parts prefix w a o k :
  has_char ":" prefix = false -> has_scope_prefix prefix w = true ->
  split ":" w = [a; o; k] <-> a = prefix /\ w = scoped_key prefix o k /\ has_char ":" o = false /\ has_char ":" k = false.
Proof.
  intros Hp Hpre. rewrite split_parts. unfold scoped_key. split.
  - intros (_ & Hall & Hw). rewrite !Forall_cons in Hall. destruct Hall as (Ha & Ho & Hk & _).
    change (w = a +:+ String ":" (o +:+ String ":" k)) in Hw.
    assert (a = prefix) as ->; [|done]. apply has_scope_prefix_cases in Hpre as [-> | [r Hr]].
    + exfalso. revert Hp. rewrite Hw. by rewrite has_char_mid.
    + pose proof (proj2 (split_once_Some ":" w a _) (conj Hw Ha)) as H1.
      pose proof (proj2 (split_once_Some ":" w prefix _) (conj Hr Hp)) as H2. congruence.
  - intros (-> & -> & Ho & Hk). split_and!; [done | by repeat constructor | done].
Qed.

Lemma scoped_key_prefix p prefix o k :
  has_char ":" p = false -> has_char ":" prefix = false -> has_scope_prefix p (scoped_key prefix o k) = String.eqb p prefix.
Proof.
  intros Hp Hx. apply Bool.eq_true_iff_eq. rewrite has_scope_prefix_cases, String.eqb_eq. unfold scoped_key. split.
  - intros [Hw | [r Hr]].
    + exfalso. revert Hp. rewrite <-Hw. by rewrite has_char_mid.
    + pose proof (proj2 (split_once_Some ":" _ p _) (conj Hr Hp)) as H1.
      rewrite (proj2 (split_once_Some ":" _ prefix _) (conj eq_refl Hx)) in H1. congruence.
  - intros ->. right. by eexists.
Qed.

Lemma split_scoped prefix o k :
  has_char ":" prefix = false -> has_char ":" o = false -> has_char ":" k = false ->
  split ":" (scoped_key prefix o k) = [prefix; o; k].
Proof.
  intros Hp Ho Hk. apply (scoped_parts prefix); [done | | done]. by rewrite scoped_key_prefix, String.eqb_refl.
Qed.

Lemma decode_meaning w scope key : wire_meaning w scope key -> decode_wire_key w = Ok (scope, key).
Proof.
  unfold decode_wire_key. destruct 1 as [o k [Ho Hco] [Hk Hck] | p k [Hp Hcp] [Hk Hck] | d t k Hcd Ht [Hk Hck] | k Hno].
  - rewrite scoped_key_prefix, split_scoped by done. cbn [String.eqb Ascii.eqb Bool.eqb].
    by rewrite (proj2 (String.eqb_neq _ _) Ho), (proj2 (String.eqb_neq _ _) Hk).
  - rewrite !scoped_key_prefix, split_scoped by done. cbn [String.eqb Ascii.eqb Bool.eqb].
    by rewrite (proj2 (String.eqb_neq _ _) Hp), (proj2 (String.eqb_neq _ _) Hk).
  - rewrite !scoped_key_prefix, split_scoped by done. cbn [String.eqb Ascii.eqb Bool.eqb].
    by rewrite Ht, (proj2 (String.eqb_neq _ _) Hk).
  - rewrite !Hno by (unfold SCOPE_PREFIXES; set_solver). done.
Qed.

Lemma decode_Ok w :
  match decode_wire_key w with
  | Ok (scope, key) => wire_meaning w scope key
  | Err e => exists expected, e = MalformedScopeKey w expected
  end.
Proof.
  unfold decode_wire_key.
  destruct (has_scope_prefix "object_config" w) eqn:H1; [|destruct (has_scope_prefix "paint_config" w) eqn:H2];
    [| | destruct (has_scope_prefix "tool_config" w) eqn:H3].
  4: { constructor. intros p. unfold SCOPE_PREFIXES. set_unfold. by intros [-> | [-> | [-> | []]]]. }
  all: destruct (split ":" w) as [|a [|o [|k [|]]]] eqn:Hs; try (by eexists).
  - apply (scoped_parts "object_config" w a o k eq_refl H1) in Hs as (-> & Hw & Ho & Hk).
    destruct (String.eqb_spec o ""), (String.eqb_spec k ""); cbn [orb]; try (by eexists). rewrite Hw. by constructor.
  - apply (scoped_parts "paint_config" w a o k eq_refl H2) in Hs as (-> & Hw & Ho & Hk).
    destruct (String.eqb_spec o ""), (String.eqb_spec k ""); cbn [orb]; try (by eexists). rewrite Hw. by constructor.
  - apply (scoped_parts "tool_config" w a o k eq_refl H3) in Hs as (-> & Hw & Ho & Hk).
    destruct (parse_uint u32_max o) as [t|] eqn:Ht; [|by eexists].
    destruct (String.eqb_spec k ""); [by eexists |]. rewrite Hw. by constructor.
Qed.

(** A wire key is accepted exactly when it has a meaning, and the scope and key it decodes to
    are what it means; a refused key is reported itself.  In particular, every object or paint
    semantic named without a colon can be addressed, and a key with no scope prefix is global. *)
Theorem wire_keys_decode_exactly wire_key :
  match decode_wire_key wire_key with
  | Ok (scope, key) => wire_meaning wire_key scope key /\
      forall scope' key', wire_meaning wire_key scope' key' -> scope' = scope /\ key' = key
  | Err e => (exists expected, e = MalformedScopeKey wire_key expected) /\
      forall scope key, ~ wire_meaning wire_key scope key
  end.
Proof.
  pose proof (decode_Ok wire_key) as Hok. pose proof (decode_meaning wire_key) as Hm.
  destruct (decode_wire_key wire_key) as [[scope key]|e]; (split; [exact Hok |]).
  - intros scope' key' H%Hm. by injection H.
  - intros scope key H%Hm. done.
Qed.

(** *** Flat maps *)

Lemma last_omap_cases {A B} (f : A -> option B) l :
  match last (omap f l) with
  | Some v => exists l1 x l2, l = l1 ++ x :: l2 /\ f x = Some v /\ Forall (fun y => f y = None) l2
  | None => Forall (fun y => f y = None) l
  end.
Proof.
  induction l as [|x l IH] using rev_ind; [constructor |]. rewrite omap_singleton_last.
  destruct (f x) as [v|] eqn:Hx; [exists l, x, []; by split_and! |].
  destruct (last (omap f l)) as [v|].
  - destruct IH as (l1 & y & l2 & -> & Hy & Hl2). exists l1, y, (l2 ++ [x]). split_and!; [by rewrite <-app_assoc | done |].
    apply Forall_app. split; [done | by constructor].
  - apply Forall_app. split; [done | by constructor].
Qed.

Section flat.
Context (registry : ConfigSchemaRegistry).
Context (show_f64 : f64 -> string) (debug_list : list ConfigValue -> string).
Context (tolerant : bool) (vs : gmap ConfigKey ConfigValue).

(** A wire key of the map states a value of a key of a scope. *)
Definition states (scope : ConfigScope) (key : ConfigKey) (wire : string) (v : ConfigValue) : Prop :=
  exists authored pe, vs !! wire = Some authored /\ wire_meaning wire scope key /\
    prepare_entry registry show_f64 debug_list tolerant scope key wire authored = Ok pe /\ pe_value pe = Some v.

Definition stated (scope : ConfigScope) (key : ConfigKey) (kv : string * ConfigValue) : option ConfigValue :=
  match prepare_flat registry show_f64 debug_list tolerant kv with
  | Ok pe => entry_value scope key pe
  | Err _ => None
  end.

Lemma stated_spec scope key wire authored v :
  vs !! wire = Some authored -> stated scope key (wire, authored) = Some v <-> states scope key wire v.
Proof.
  intros Hw. unfold stated, prepare_flat, states. cbn [fst snd].
  pose proof (decode_Ok wire) as Hok. pose proof (decode_meaning wire) as Hm.
  destruct (decode_wire_key wire) as [[sc k]|e]; cbn [result_bind].
  - split.
    + destruct (prepare_entry _ _ _ _ _ _ _ _) as [pe|e] eqn:Hpe; [|done]. unfold entry_value.
      pose proof (prepare_entry_key _ _ _ _ _ _ _ _ _ Hpe) as [-> ->].
      case_bool_decide as Hsc; [|done]. destruct (String.eqb_spec k key) as [->|]; [|done]. subst sc. cbn [andb].
      intros Hv. exists authored, pe. by split_and!.
    + intros (a' & pe & Ha & Hmean & Hpe & Hv). apply Hm in Hmean. injection Hmean as -> ->.
      rewrite Hw in Ha. injection Ha as <-. rewrite Hpe. unfold entry_value.
      pose proof (prepare_entry_key _ _ _ _ _ _ _ _ _ Hpe) as [-> ->].
      by rewrite bool_decide_eq_true_2, String.eqb_refl.
  - split; [done |]. intros (a' & pe & Ha & Hmean & _). by apply Hm in Hmean.
Qed.

Lemma collected_value scope key pending :
  Forall2 (fun kv pe => prepare_flat registry show_f64 debug_list tolerant kv = Ok pe) (btree_iter vs) pending ->
  last_value scope key pending = last (omap (stated scope key) (btree_iter vs)).
Proof.
  intros Hp. unfold last_value. f_equal. induction Hp as [|kv pe l pending Hkv _ IH]; [done |].
  cbn. unfold stated at 1. rewrite Hkv. by rewrite IH.
Qed.

Lemma last_stated scope key :
  match last (omap (stated scope key) (btree_iter vs)) with
  | Some v => exists wire, states scope key wire v /\ forall wire' v', states scope key wire' v' -> rust_leb wire' wire = true
  | None => forall wire v, ~ states scope key wire v
  end.
Proof.
  pose proof (last_omap_cases (stated scope key) (btree_iter vs)) as H.
  assert (Hin : forall wire authored, (wire, authored) ∈ btree_iter vs <-> vs !! wire = Some authored)
    by (intros; apply elem_of_btree_iter).
  destruct (last _) as [v|].
  - destruct H as (l1 & [wire authored] & l2 & Hl & Hv & Hl2). exists wire.
    assert (Hw : vs !! wire = Some authored) by (apply Hin; rewrite Hl; apply elem_of_app; right; by left).
    split; [by apply (stated_spec _ _ _ authored) |]. intros wire' v' Hs'.
    pose proof Hs' as (authored' & _ & Hw' & _). apply (stated_spec _ _ _ authored' _ Hw') in Hs'.
    apply Hin in Hw'. rewrite Hl in Hw'. apply elem_of_app in Hw' as [Hw' | Hw'].
    + pose proof (btree_iter_sorted vs) as Hsort. rewrite Hl in Hsort. unfold sorted_by in Hsort.
      apply StronglySorted_app_1_elem_of with (x1 := (wire', authored')) (x2 := (wire, authored)) in Hsort; [done | done | by left].
    + apply elem_of_cons in Hw' as [[= -> ->] | Hw']; [apply rust_leb_refl |].
      rewrite Forall_forall in Hl2. by rewrite (Hl2 _ Hw') in Hs'.
  - intros wire v Hs. pose proof Hs as (authored & _ & Hw & _). apply (stated_spec _ _ _ authored _ Hw) in Hs.
    rewrite Forall_forall in H. apply Hin in Hw. by rewrite (H _ Hw) in Hs.
Qed.
End flat.

(** [C23].  A flat map is ingested whole or not at all.  When it is refused the ingestor is unchanged,
    and the error is that of the least wire key that has one.  When it is accepted, a key of a
    scope holds what the greatest wire key that states it says, and keeps its value if no wire
    key of the map states it; the layer ranges are left alone. *)
Theorem flat_map_ingested_exactly registry show_f64 debug_list ig vs :
  match ingest_flat registry show_f64 debug_list ig vs with
  | (ig', Ok _) =>
      ig_layer_ranges ig' = ig_layer_ranges ig /\
      forall scope key v, delta_values (ig_deltas ig') scope !! key = Some v <->
        (exists wire, states registry show_f64 debug_list (ig_tolerant ig) vs scope key wire v /\
           forall wire' v', states registry show_f64 debug_list (ig_tolerant ig) vs scope key wire' v' ->
             rust_leb wire' wire = true) \/
        ((forall wire v', ~ states registry show_f64 debug_list (ig_tolerant ig) vs scope key wire v') /\
         delta_values (ig_deltas ig) scope !! key = Some v)
  | (ig', Err e) =>
      ig' = ig /\ exists wire authored, vs !! wire = Some authored /\
        prepare_flat registry show_f64 debug_list (ig_tolerant ig) (wire, authored) = Err e /\
        forall wire' authored', vs !! wire' = Some authored' -> rust_ltb wire' wire = true ->
          is_ok (prepare_flat registry show_f64 debug_list (ig_tolerant ig) (wire', authored')) = true
  end.
Proof.
  unfold ingest_flat.
  pose proof (collect_result_cases (prepare_flat registry show_f64 debug_list (ig_tolerant ig)) (btree_iter vs)) as Hc.
  destruct (collect_result _ _) as [pending|e].
  - split; [apply commit_rest |]. intros scope key v. rewrite commit_lookup, (collected_value _ _ _ _ _ scope key _ Hc).
    pose proof (last_stated registry show_f64 debug_list (ig_tolerant ig) vs scope key) as Hl.
    destruct (last _) as [v'|].
    + destruct Hl as (wire & Hs & Hmax). split.
      * intros [= <-]. left. by exists wire.
      * intros [(wire' & Hs' & Hmax') | [Hno _]]; [|by apply Hno in Hs].
        assert (wire' = wire) as -> by (apply rust_leb_antisym; eauto).
        destruct Hs as (a & pe & Ha & _ & Hpe & Hv), Hs' as (a' & pe' & Ha' & _ & Hpe' & Hv'). congruence.
    + split; [intros Hv; right; by split |]. intros [(wire & Hs & _) | [_ Hv]]; [by apply Hl in Hs | done].
  - split; [done |]. destruct Hc as (before & [wire authored] & after & Hl & He & Hb).
    exists wire, authored. assert (Hin : (wire, authored) ∈ btree_iter vs) by (rewrite Hl; apply elem_of_app; right; by left).
    split_and!; [by apply elem_of_btree_iter in Hin | done |]. intros wire' authored' Hw' Hlt.
    apply elem_of_btree_iter in Hw'. rewrite Hl in Hw'. apply elem_of_app in Hw' as [Hw' | Hw'].
    + rewrite Forall_forall in Hb. by apply (Hb (wire', authored')).
    + exfalso. pose proof (btree_iter_sorted vs) as Hsort. rewrite Hl in Hsort. apply StronglySorted_app in Hsort as (_ & _ & Hsort).
      unfold rust_ltb in Hlt. apply negb_true_iff in Hlt.
      apply elem_of_cons in Hw' as [[= -> ->] | Hw']; [by rewrite rust_leb_refl in Hlt |].
      apply StronglySorted_inv in Hsort as [_ Hall]. rewrite Forall_forall in Hall.
      pose proof (Hall _ Hw') as Hle. unfold entry_leb in Hle. cbn in Hle, Hlt. congruence.
Qed.

(** *** Layer ranges *)

(** The ranges of the named objects are replaced, the others keep theirs, or, when the input
    is refused, nothing changes.  The new ranges of an object are its inputs in the order of
    their bounds and source index, none lost or added; they satisfy [ranges_ok]. *)
Theorem layer_ranges_replaced registry show_f64 debug_list ig inputs :
  match ingest_layer_ranges registry show_f64 debug_list ig inputs with
  | (ig', Err _) => ig' = ig
  | (ig', Ok _) =>
      ig_deltas ig' = ig_deltas ig /\
      forall o, match inputs_of o inputs with
        | [] => ig_layer_ranges ig' !! o = ig_layer_ranges ig !! o
        | l => exists rs, ig_layer_ranges ig' !! o = Some rs /\ ranges_ok registry (ig_tolerant ig) o rs /\
                 (fun r => (lr_min_z r, lr_max_z r)) <$> rs = (fun i => (li_min_z i, li_max_z i)) <$> sort_by range_input_leb l
        end
  end.
Proof.
  unfold ingest_layer_ranges. destruct (checked_ranges _ _ _ _ _) as [[committed w]|e] eqn:Hc; [|done].
  apply checked_ranges_ok in Hc as (Hnd & Hnamed & Hrs). cbn [ig_deltas ig_layer_ranges]. split; [done |]. intros o.
  destruct (fold_replace_lookup committed (ig_layer_ranges ig) o Hnd) as [H1 H2].
  destruct (inputs_of o inputs) as [|i l] eqn:Ho.
  - apply H2. intros Hin. apply Hnamed in Hin. done.
  - assert (Hin : o ∈ committed.*1) by (apply Hnamed; by rewrite Ho).
    apply list_elem_of_fmap in Hin as ([o' rs] & -> & Hin). exists rs. split; [by apply H1 |].
    rewrite <-Ho. by apply Hrs.
Qed.

Lemma effective_spec b :
  f64_is_nan b = false ->
  f64_is_nan (effective b) = false /\ (f64_key (effective b) <= f64_key b)%Z /\
  (f32_is_finite (narrow b) = true -> f64_ltb (widen (narrow b)) (effective b) = false).
Proof.
  intros Hb. unfold effective, narrower. destruct (f32_is_finite (narrow b)).
  - destruct (f64_is_nan (widen (narrow b))) eqn:Hn.
    + unfold f64_min. rewrite Hb, Hn. split_and!; [done | lia |]. intros _.
      destruct (f64_ltb _ b) eqn:Hl; [|done]. apply f64_ltb_key in Hl as [Hl _]. congruence.
    + destruct (f64_min_key b (widen (narrow b)) Hb Hn) as [H1 H2]. split_and!; [done | lia |]. intros _.
      rewrite f64_ltb_spec by done. apply Z.ltb_ge. lia.
  - destruct (f64_min_key b b Hb Hb) as [H1 H2]. split_and!; [done | lia | done].
Qed.

Lemma interval_finite a b : valid_layer_range_interval a b = true -> f64_is_nan a = false /\ f64_is_nan b = false.
Proof.
  unfold valid_layer_range_interval. rewrite !andb_true_iff. intros [[[Ha Hb] _] _].
  by split; apply f64_finite_not_nan.
Qed.

(** [C37].  Two ranges that meet at a bound share out the layers between them: every layer top from
    the lower bound of the first to the upper bound of the second, as [covers] takes them, is
    in exactly one of the two.  A range covers no top at or above its authored upper bound, nor
    the [f32] image of that bound. *)
Theorem adjacent_ranges_partition r1 r2 z
  (H1 : valid_layer_range_interval (lr_min_z r1) (lr_max_z r1) = true)
  (H2 : valid_layer_range_interval (lr_min_z r2) (lr_max_z r2) = true)
  (Hmeet : lr_max_z r1 = lr_min_z r2) :
  (f64_leb (effective (lr_min_z r1)) z = true -> f64_ltb z (effective (lr_max_z r2)) = true ->
     xorb (covers r1 z) (covers r2 z) = true) /\
  (covers r1 z = true -> covers r2 z = false) /\
  (covers r1 z = true -> f64_ltb z (lr_max_z r1) = true) /\
  (f32_is_finite (narrow (lr_max_z r1)) = true -> covers r1 (widen (narrow (lr_max_z r1))) = false).
Proof.
  destruct (interval_finite _ _ H1) as [Ha1 Hb1], (interval_finite _ _ H2) as [Ha2 Hb2].
  destruct (effective_spec _ Hb1) as (Hn & Hle & Hf). unfold covers. rewrite <-Hmeet. split_and!.
  - intros Hlo Hhi. rewrite Hlo, Hhi, andb_true_r, andb_true_l. pose proof Hlo as (_ & Hz & _)%f64_leb_key.
    rewrite f64_leb_spec, f64_ltb_spec by done.
    destruct (Z.ltb_spec (f64_key z) (f64_key (effective (lr_max_z r1)))) as [Hlt|Hge];
      destruct (Z.leb_spec (f64_key (effective (lr_max_z r1))) (f64_key z)); try lia; done.
  - intros [_ Hlt]%andb_true_iff. apply f64_ltb_key in Hlt as (Hz & _ & Hlt).
    apply andb_false_iff. left. rewrite f64_leb_spec by done. apply Z.leb_gt. lia.
  - intros [_ Hlt]%andb_true_iff. apply f64_ltb_key in Hlt as (Hz & _ & Hlt).
    rewrite f64_ltb_spec by done. apply Z.ltb_lt. lia.
  - intros Hfin. apply andb_false_iff. right. by apply Hf.
Qed.

(** [0, 0.7) and [0.7, 1) of one object; the top of a layer at 0.7, as it arrives. *)
Definition bound_0_7 : f64 := F64 4604480259023595110.
Definition below_0_7 : LayerConfigRange :=
  {| lr_scope := ScopeLayerRange "o" 0%Z; lr_min_z := F0; lr_max_z := bound_0_7; lr_delta := {| values := ∅ |} |}.
Definition above_0_7 : LayerConfigRange :=
  {| lr_scope := ScopeLayerRange "o" 1%Z; lr_min_z := bound_0_7; lr_max_z := int_as_f64 1; lr_delta := {| values := ∅ |} |}.

Lemma adjacent_ranges_partition_witness :
  let top := widen (narrow bound_0_7) in
  covers below_0_7 top = false /\ covers above_0_7 top = true /\ f64_ltb top bound_0_7 = true.
Proof.
  destruct (adjacent_ranges_partition below_0_7 above_0_7 (widen (narrow bound_0_7))) as (Hx & _ & _ & Himg).
  1-3: by vm_compute.
  assert (Hno : covers below_0_7 (widen (narrow bound_0_7)) = false) by (apply Himg; by vm_compute).
  split_and!; [exact Hno | | by vm_compute].
  rewrite Hno in Hx. apply Hx; by vm_compute.
Defined.
