(* ===== verification/Resolution.v ===== *)
(** Resolution of the scopes of a configuration ([slicer-config/src/resolution.rs]): the deltas
    of the applicable scopes are applied in order of precedence to the default configuration,
    the declared defaults are added below them, and the result is expanded.

    A configuration is any implementation of [TypedConfig]. *)
From Stdlib Require Import Ascii.
From stdpp Require Import prelude gmap strings list sorting.
From S2P Require Import Prelude Text Ir Float32 Float64 Registry ResolvedFields TypedConfig Expansion Ingestion.

#[local] Open Scope string_scope.
#[local] Open Scope list_scope.

Record ResolutionTarget := {
  rt_object_id : string;
  rt_modifier_ids : list string;
  rt_paint_semantics : list string;
  rt_tool_index : option Z;
  rt_layer_top_z : option f64
}.

Inductive ResolutionError :=
| Application (error : ConfigResolutionError)
| ExpansionFailed (error : ExpansionError)
| InvalidObjectHeight (object_id : string) (value : option f64)
| ScopeDenied (key : string) (scope : ConfigScope).

(** ** Validation of a value *)

Definition SPELLINGS : list (string * bool) :=
  [("1", true); ("true", true); ("yes", true); ("on", true); ("enabled", true);
   ("0", false); ("false", false); ("no", false); ("off", false); ("disabled", false)].

Definition cli_bool_spelling (value : string) : option bool :=
  let trimmed := trim value in
  snd <$> List.find (fun sp => eq_ignore_ascii_case trimmed sp.1) SPELLINGS.

Definition type_mismatch {A} (key expected : string) (value : ConfigValue) : result A ResolutionError :=
  Err (Application (TypeMismatch key expected (variant_name value))).

Definition at_least (min : option f64) (value : f64) : bool := match min with Some min => f64_leb min value | None => true end.
Definition at_most (max : option f64) (value : f64) : bool := match max with Some max => f64_leb value max | None => true end.

Definition check_extension_scalar (key : string) (value : f64) (e : RegistryEntry) (index : option nat)
    : result unit ResolutionError :=
  if f64_is_finite value && at_least (re_min e) value && at_most (re_max e) value then Ok tt
  else Err (Application (OutOfRange key value (re_min e) (re_max e) index)).

Definition check_extension_percent (key : string) (value : f64) (e : RegistryEntry) : result unit ResolutionError :=
  if f64_is_finite value && at_least (re_min e) value then Ok tt
  else Err (Application (OutOfRange key value (re_min e) (re_max e) None)).

(** A list for a key that is not one stands for its first element. *)
Definition enveloped (value : ConfigValue) (field_type : string) : ConfigValue :=
  match value with
  | CvList items => if ends_with "-list" field_type then value else default value (head items)
  | other => other
  end.

(** Text for a float: the sentinel nil, a percentage, a number. *)
Definition validate_float_text (key text : string) (e : RegistryEntry) : result unit ResolutionError :=
  let trimmed := trim text in
  if eq_ignore_ascii_case trimmed "nil" then Ok tt
  else
    match strip_suffix "%" trimmed with
    | Some percent =>
        match parse_f64 (trim percent) with
        | Some number => if f64_is_finite number then check_extension_percent key number e
                         else type_mismatch key "Float" (CvString text)
        | None => type_mismatch key "Float" (CvString text)
        end
    | None =>
        match parse_f64 trimmed with
        | Some number => if f64_is_finite number then check_extension_scalar key number e None
                         else type_mismatch key "Float" (CvString text)
        | None => type_mismatch key "Float" (CvString text)
        end
    end.

Definition validate_typed (key : string) (value : ConfigValue) (e : RegistryEntry) : result unit ResolutionError :=
  let field_type := re_field_type e in
  if String.eqb field_type "bool" then
    match value with
    | CvBool _ | CvInt 0 | CvInt 1 => Ok tt
    | CvString text => match cli_bool_spelling text with Some _ => Ok tt | None => type_mismatch key "Bool" value end
    | other => type_mismatch key "Bool" other
    end
  else if String.eqb field_type "int" then
    match value with
    | CvInt number => check_extension_scalar key (int_as_f64 number) e None
    | CvFloat number => if f64_is_finite number && f64_is_integral number then check_extension_scalar key number e None
                        else type_mismatch key "Int" value
    | other => type_mismatch key "Int" other
    end
  else if String.eqb field_type "float" then
    match value with
    | CvFloat number => check_extension_scalar key number e None
    | CvInt number => check_extension_scalar key (int_as_f64 number) e None
    | CvString text => validate_float_text key text e
    | other => type_mismatch key "Float" other
    end
  else if String.eqb field_type "string" || String.eqb field_type "enum" then
    match value with CvString _ => Ok tt | other => type_mismatch key "String" other end
  else if String.eqb field_type "percent" then
    match value with CvPercent number => check_extension_percent key number e | other => type_mismatch key "Percent" other end
  else if String.eqb field_type "float_or_percent" then
    match value with
    | CvFloatOrPercent number is_percent =>
        if is_percent then check_extension_percent key number e else check_extension_scalar key number e None
    | CvFloat number => check_extension_scalar key number e None
    | CvInt number => check_extension_scalar key (int_as_f64 number) e None
    | CvPercent number => check_extension_percent key number e
    | other => type_mismatch key "FloatOrPercent" other
    end
  else if String.eqb field_type "int-list" then
    match value with
    | CvList items =>
        for_each (fun ii : nat * ConfigValue => match ii.2 with
          | CvInt number => check_extension_scalar key (int_as_f64 number) e (Some ii.1)
          | other => type_mismatch key "Int" other
          end) (enumerate items)
    | other => type_mismatch key "List" other
    end
  else if String.eqb field_type "float-list" then
    match value with
    | CvList items =>
        for_each (fun ii : nat * ConfigValue => match ii.2 with
          | CvFloat number => check_extension_scalar key number e (Some ii.1)
          | CvInt number => check_extension_scalar key (int_as_f64 number) e (Some ii.1)
          | other => type_mismatch key "Float" other
          end) (enumerate items)
    | CvFloat number => check_extension_scalar key number e (Some 0)
    | CvInt number => check_extension_scalar key (int_as_f64 number) e (Some 0)
    | other => type_mismatch key "List" other
    end
  else if String.eqb field_type "string-list" then
    match value with
    | CvList items => for_each (fun item => match item with CvString _ => Ok tt | other => type_mismatch key "String" other end) items
    | CvString _ => Ok tt
    | other => type_mismatch key "List" other
    end
  else Ok tt.

Definition validate_extension (registry : ConfigSchemaRegistry) (key : string) (value : ConfigValue)
    : result unit ResolutionError :=
  match registry_entry registry key with
  | None => Ok tt
  | Some e => validate_typed key (enveloped value (re_field_type e)) e
  end.

(** ** Declared defaults *)

Definition parse_registry_default (e : RegistryEntry) (dflt : string) : option ConfigValue :=
  let trimmed := trim dflt in
  let field_type := re_field_type e in
  if String.eqb field_type "bool" then
    (if String.eqb trimmed "true" then Some (CvBool true) else if String.eqb trimmed "false" then Some (CvBool false) else None)
  else if String.eqb field_type "int" then CvInt <$> parse_i64 trimmed
  else if String.eqb field_type "float" then CvFloat <$> parse_f64 trimmed
  else if String.eqb field_type "string" || String.eqb field_type "enum" then Some (CvString dflt)
  else if String.eqb field_type "percent" then CvPercent <$> parse_f64 (trim (default trimmed (strip_suffix "%" trimmed)))
  else if String.eqb field_type "float_or_percent" then
    match strip_suffix "%" trimmed with
    | Some magnitude => (fun value => CvFloatOrPercent value true) <$> parse_f64 (trim magnitude)
    | None => (fun value => CvFloatOrPercent value false) <$> parse_f64 trimmed
    end
  else if String.eqb field_type "int-list" then CvList <$> collect (fun item => CvInt <$> parse_i64 (trim item)) (split "," dflt)
  else if String.eqb field_type "float-list" then CvList <$> collect (fun item => CvFloat <$> parse_f64 (trim item)) (split "," dflt)
  else if String.eqb field_type "string-list" then
    Some (CvList (if String.eqb dflt "" then [] else CvString <$> split "," dflt))
  else None.

Definition render_type_name (field_type : string) : string :=
  if String.eqb field_type "bool" then "Bool"
  else if String.eqb field_type "int" then "Int"
  else if String.eqb field_type "float" then "Float"
  else if String.eqb field_type "string" || String.eqb field_type "enum" then "String"
  else if String.eqb field_type "percent" then "Percent"
  else if String.eqb field_type "float_or_percent" then "FloatOrPercent"
  else if String.eqb field_type "int-list" then "List<Int>"
  else if String.eqb field_type "float-list" then "List<Float>"
  else if String.eqb field_type "string-list" then "List<String>"
  else "registry-declared type".

(** ** The scope stack *)

Section resolution.
Context {T : TypedConfig} (registry : ConfigSchemaRegistry) (debug_string : string -> string).

Definition lift {A} (r : result A ConfigResolutionError) : result A ResolutionError :=
  match r with Ok x => Ok x | Err e => Err (Application e) end.

Definition reject_both_spellings (d : ScopeDelta) : result unit ResolutionError :=
  for_each (fun a : string * string =>
      match values d !! a.1, values d !! a.2 with
      | Some _, Some _ => Err (Application (TypeMismatch (a.2 +:+ " and " +:+ a.1) "one config key" "both config keys supplied"))
      | _, _ => Ok tt
      end) CONFIG_KEY_ALIASES.

Definition check_admitted (scope : ConfigScope) (d : ScopeDelta) : result unit ResolutionError :=
  let admission := admission_set registry scope in
  for_each (fun key => let key := canonical_config_key key in
                       if decide (key ∈ admission) then Ok tt else Err (ScopeDenied key scope)) (btree_keys (values d)).

Definition apply_value (cfg : config) (kv : string * ConfigValue) : result config ResolutionError :=
  let key := canonical_config_key kv.1 in
  let? _ := validate_extension registry key kv.2 in
  let? out := lift (apply_cli_key cfg key kv.2) in
  let '(cfg, applied) := out in
  if applied then Ok cfg else Ok (insert_extension cfg key kv.2).

Definition apply_delta (cfg : config) (scope : ConfigScope) (delta : option ScopeDelta) : result config ResolutionError :=
  match delta with
  | None => Ok cfg
  | Some d =>
      let? _ := reject_both_spellings d in
      let? _ := check_admitted scope d in
      try_fold apply_value cfg (btree_iter (values d))
  end.

(** The default of one declared key, below every authored value. *)
Definition seed_default (cfg : config) (key : string) : result config ResolutionError :=
  if has_char "*" key then Ok cfg
  else
    match entry registry key with
    | None => Ok cfg
    | Some e =>
        if re_selector e then Ok cfg
        else if decide (canonical_config_key key ∈ typed_field_keys) then Ok cfg
        else
          match re_default e with
          | None => Ok cfg
          | Some dflt =>
              match parse_registry_default e dflt with
              | None => Err (Application (TypeMismatch key (render_type_name (re_field_type e))
                                            ("unrenderable default " +:+ debug_string dflt)))
              | Some value =>
                  let? _ := validate_extension registry key value in
                  match extensions cfg !! key with
                  | Some _ => Ok cfg
                  | None => Ok (insert_extension cfg key value)
                  end
              end
          end
    end.

Definition seed_registry_defaults (cfg : config) : result config ResolutionError :=
  try_fold seed_default cfg (keys registry).

(** The scopes that apply to a target, the weakest first, with their deltas. *)
Definition scope_stack (scoped : ScopedConfig) (target : ResolutionTarget) : list (ConfigScope * option ScopeDelta) :=
  let at_scope scope := (scope, delta scoped scope) in
  [at_scope ScopeGlobal; at_scope (ScopeObject (rt_object_id target))] ++
  match rt_layer_top_z target with
  | Some layer_top_z =>
      (fun r => (lr_scope r, Some (lr_delta r))) <$>
        filter (fun r => covers r layer_top_z = true) (ranges_for scoped (rt_object_id target))
  | None => []
  end ++
  ((fun m => at_scope (ScopeModifier (rt_object_id target) m)) <$> rt_modifier_ids target) ++
  ((fun s => at_scope (ScopePaintSemantic s)) <$> dedup (sort (rt_paint_semantics target))) ++
  match rt_tool_index target with Some tool => [at_scope (ScopeTool tool)] | None => [] end.

Definition merge_stack (stack : list (ConfigScope * option ScopeDelta)) : result config ResolutionError :=
  try_fold (fun cfg (sd : ConfigScope * option ScopeDelta) => apply_delta cfg sd.1 sd.2) config_default stack.

Definition resolve_scope_stack (scoped : ScopedConfig) (target : ResolutionTarget) (expansion : ExpansionContext)
    : exec (result config ResolutionError) :=
  match (let? cfg := merge_stack (scope_stack scoped target) in seed_registry_defaults cfg) with
  | Err e => Done (Err e)
  | Ok cfg =>
      let! out := expand_automatic_values registry cfg expansion (rt_tool_index target) in
      Done (match out with Ok cfg => Ok cfg | Err e => Err (ExpansionFailed e) end)
  end.
End resolution.

(** ** Precedence *)

Section precedence.
Context {T : TypedConfig} {L : TypedConfigLaws T} (registry : ConfigSchemaRegistry) (debug_string : string -> string).

Notation apply_value := (apply_value registry).
Notation apply_delta := (apply_delta registry).

(** The writes of a stack of deltas, under canonical keys, the weakest first. *)
Definition canonical_write (kv : string * ConfigValue) : string * ConfigValue := (canonical_config_key kv.1, kv.2).

Definition delta_writes (sd : ConfigScope * option ScopeDelta) : list (string * ConfigValue) :=
  match sd.2 with Some d => canonical_write <$> btree_iter (values d) | None => [] end.

Definition writes (stack : list (ConfigScope * option ScopeDelta)) : list (string * ConfigValue) :=
  List.concat (delta_writes <$> stack).

(** What a write leaves in an extension, and in what a field shows. *)
Definition extension_write (key : string) (kv : string * ConfigValue) : option ConfigValue :=
  if String.eqb kv.1 key && bool_decide (cell kv.1 = None) then Some kv.2 else None.

Definition field_write (s : string) (kv : string * ConfigValue) : option (option ConfigValue) :=
  if bool_decide (cell kv.1 = Some s)
  then match stored kv.1 kv.2 with Ok shown => Some shown | Err _ => None end
  else None.

Definition last_extension (key : string) (ws : list (string * ConfigValue)) : option ConfigValue :=
  last (omap (extension_write key) ws).
Definition last_shown (s : string) (ws : list (string * ConfigValue)) : option (option ConfigValue) :=
  last (omap (field_write s) ws).

(** The field bound to the key of a write takes the value. *)
Definition storable (kv : string * ConfigValue) : Prop :=
  forall s, cell kv.1 = Some s -> exists shown, stored kv.1 kv.2 = Ok shown.

Lemma apply_value_Ok cfg kv cfg' :
  apply_value cfg kv = Ok cfg' ->
  validate_extension registry (canonical_write kv).1 kv.2 = Ok tt /\
  storable (canonical_write kv) /\
  (forall key, extensions cfg' !! key =
     match extension_write key (canonical_write kv) with Some v => Some v | None => extensions cfg !! key end) /\
  (forall s, rendered cfg' !! s =
     match field_write s (canonical_write kv) with Some shown => shown | None => rendered cfg !! s end).
Proof.
  unfold Resolution.apply_value, extension_write, field_write, canonical_write, storable. cbn [fst snd].
  set (key := canonical_config_key kv.1). destruct (validate_extension registry key kv.2) as [[]|e]; [|done].
  cbn [result_bind]. pose proof (apply_cases cfg key kv.2) as Hc. destruct (cell key) as [s|] eqn:Hs.
  - destruct (stored key kv.2) as [shown|e]; [|by rewrite Hc].
    destruct Hc as (c' & -> & Hext & Hren). cbn [lift result_bind]. intros [= <-]. split_and!; [done | by eauto | |].
    + intros k. rewrite Hext. by rewrite bool_decide_eq_false_2, andb_false_r by done.
    + intros s'. rewrite Hren. case_decide as Heq.
      * subst s'. by rewrite bool_decide_eq_true_2.
      * rewrite bool_decide_eq_false_2; [done | congruence].
  - rewrite Hc. cbn [lift result_bind]. intros [= <-]. split_and!; [done | done | |].
    + intros k. rewrite extensions_insert, bool_decide_eq_true_2, andb_true_r by done.
      destruct (String.eqb_spec key k) as [->|Hne]; [by rewrite lookup_insert_eq | by rewrite lookup_insert_ne].
    + intros s'. rewrite rendered_insert. by rewrite bool_decide_eq_false_2.
Qed.

(** A run of writes from a configuration to another. *)
Record wrote (ws : list (string * ConfigValue)) (cfg cfg' : config) : Prop := {
  wr_valid : forall kv, kv ∈ ws -> validate_extension registry kv.1 kv.2 = Ok tt /\ storable kv;
  wr_extension : forall key, extensions cfg' !! key =
    match last_extension key ws with Some v => Some v | None => extensions cfg !! key end;
  wr_shown : forall s, rendered cfg' !! s =
    match last_shown s ws with Some shown => shown | None => rendered cfg !! s end
}.

Lemma wrote_nil cfg : wrote [] cfg cfg.
Proof. constructor; [by intros kv ?%not_elem_of_nil | done | done]. Qed.

Lemma last_omap_app {A B} (f : A -> option B) l1 l2 :
  last (omap f (l1 ++ l2)) = match last (omap f l2) with Some y => Some y | None => last (omap f l1) end.
Proof. by rewrite omap_app, last_app. Qed.

Lemma wrote_app ws1 ws2 c1 c2 c3 : wrote ws1 c1 c2 -> wrote ws2 c2 c3 -> wrote (ws1 ++ ws2) c1 c3.
Proof.
  intros [V1 E1 S1] [V2 E2 S2]. constructor.
  - intros kv [H | H]%elem_of_app; [by apply V1 | by apply V2].
  - intros key. rewrite E2, E1. unfold last_extension. rewrite last_omap_app. by destruct (last (omap _ ws2)).
  - intros s. rewrite S2, S1. unfold last_shown. rewrite last_omap_app. by destruct (last (omap _ ws2)).
Qed.

Lemma apply_values_wrote kvs cfg cfg' : try_fold apply_value cfg kvs = Ok cfg' -> wrote (canonical_write <$> kvs) cfg cfg'.
Proof.
  revert cfg. induction kvs as [|kv kvs IH]; intros cfg; cbn [try_fold fmap list_fmap].
  - intros [= <-]. apply wrote_nil.
  - destruct (apply_value cfg kv) as [c|e] eqn:Hkv; cbn [result_bind]; [|done]. intros Hrest.
    apply (wrote_app [canonical_write kv] _ _ c); [|by apply IH]. apply apply_value_Ok in Hkv as (Hv & Hst & He & Hs).
    constructor.
    + intros kv' Hin. apply list_elem_of_singleton in Hin as ->. done.
    + intros key. unfold last_extension. cbn. rewrite He. by destruct (extension_write key _).
    + intros s. unfold last_shown. cbn. rewrite Hs. by destruct (field_write s _).
Qed.

(** Every key a delta states is admitted at its scope, and no key is stated under both its
    spellings. *)
Definition statable (sd : ConfigScope * option ScopeDelta) : Prop :=
  forall d, sd.2 = Some d ->
    (forall key, is_Some (values d !! key) -> canonical_config_key key ∈ admission_set registry sd.1) /\
    (forall legacy canonical, (legacy, canonical) ∈ CONFIG_KEY_ALIASES ->
       values d !! legacy = None \/ values d !! canonical = None).

Lemma apply_delta_wrote cfg sd cfg' :
  apply_delta cfg sd.1 sd.2 = Ok cfg' -> statable sd /\ wrote (delta_writes sd) cfg cfg'.
Proof.
  destruct sd as [scope [d|]]; unfold Resolution.apply_delta, delta_writes, statable; cbn [fst snd].
  - destruct (reject_both_spellings d) as [[]|e] eqn:Hb; [|done].
    destruct (check_admitted registry scope d) as [[]|e] eqn:Ha; [|done]. cbn [result_bind].
    intros Hw%apply_values_wrote. split; [|done]. intros d' [= <-]. split.
    + intros key Hk. unfold check_admitted in Ha. rewrite for_each_Ok in Ha.
      apply elem_of_btree_keys, Ha in Hk. cbv zeta in Hk. by destruct (decide _).
    + intros legacy canonical Hin. unfold reject_both_spellings in Hb. rewrite for_each_Ok in Hb.
      apply Hb in Hin. cbn [fst snd] in Hin.
      destruct (values d !! legacy); [|by left]. destruct (values d !! canonical); [done | by right].
  - intros [= <-]. split; [done | apply wrote_nil].
Qed.

Lemma merge_stack_wrote stack cfg cfg' :
  try_fold (fun cfg (sd : ConfigScope * option ScopeDelta) => apply_delta cfg sd.1 sd.2) cfg stack = Ok cfg' ->
  Forall statable stack /\ wrote (writes stack) cfg cfg'.
Proof.
  revert cfg. induction stack as [|sd stack IH]; intros cfg; cbn [try_fold].
  - intros [= <-]. split; [constructor | apply wrote_nil].
  - destruct (apply_delta cfg sd.1 sd.2) as [c|e] eqn:Hsd; cbn [result_bind]; [|done]. intros Hrest.
    apply apply_delta_wrote in Hsd as [Hst Hw]. destruct (IH _ Hrest) as [Hall Hws].
    split; [by constructor |]. unfold writes. cbn [fmap list_fmap List.concat]. by apply wrote_app with c.
Qed.

(** *** Declared defaults *)

(** The value a declared key gets when no scope states it. *)
Definition seeded (key : string) : option ConfigValue :=
  if has_char "*" key then None
  else
    match entry registry key with
    | Some e => if re_selector e || bool_decide (canonical_config_key key ∈ typed_field_keys) then None
                else re_default e ≫= parse_registry_default e
    | None => None
    end.

(** A declared default that cannot seed its key. *)
Inductive bad_default (key : string) : ResolutionError -> Prop :=
| default_unrenderable e dflt :
    entry registry key = Some e -> has_char "*" key = false -> re_selector e = false ->
    canonical_config_key key ∉ typed_field_keys -> re_default e = Some dflt ->
    parse_registry_default e dflt = None ->
    bad_default key (Application (TypeMismatch key (render_type_name (re_field_type e))
                                    ("unrenderable default " +:+ debug_string dflt)))
| default_invalid v err :
    seeded key = Some v -> validate_extension registry key v = Err err -> bad_default key err.

Lemma seed_default_Ok cfg key cfg' :
  seed_default registry debug_string cfg key = Ok cfg' ->
  rendered cfg' = rendered cfg /\
  forall k, extensions cfg' !! k =
    match extensions cfg !! k with Some v => Some v | None => if decide (k = key) then seeded k else None end.
Proof.
  assert (Hsame : seeded key = None -> rendered cfg = rendered cfg /\ forall k, extensions cfg !! k =
    match extensions cfg !! k with Some v => Some v | None => if decide (k = key) then seeded k else None end).
  { intros Hn. split; [done |]. intros k. destruct (extensions cfg !! k); [done |]. case_decide; [by subst | done]. }
  unfold seed_default. revert Hsame. unfold seeded at 1.
  destruct (has_char "*" key) eqn:Hstar; [intros Hsame [= <-]; by apply Hsame |].
  destruct (entry registry key) as [e|] eqn:He; [|intros Hsame [= <-]; by apply Hsame].
  destruct (re_selector e) eqn:Hsel; [intros Hsame [= <-]; by apply Hsame |]. cbn [orb].
  destruct (decide (canonical_config_key key ∈ typed_field_keys)) as [Hty|Hty].
  { rewrite bool_decide_eq_true_2 by done. intros Hsame [= <-]. by apply Hsame. }
  rewrite bool_decide_eq_false_2 by done.
  destruct (re_default e) as [dflt|] eqn:Hd; [|intros Hsame [= <-]; by apply Hsame]. cbn [mbind option_bind].
  destruct (parse_registry_default e dflt) as [v|] eqn:Hv; [|done]. intros _.
  destruct (validate_extension registry key v) as [[]|err]; [|done]. cbn [result_bind].
  assert (Hseeded : seeded key = Some v).
  { unfold seeded. rewrite Hstar, He, Hsel, bool_decide_eq_false_2, Hd by done. exact Hv. }
  destruct (extensions cfg !! key) as [v0|] eqn:Hk; intros [= <-].
  - split; [done |]. intros k. destruct (extensions cfg !! k) eqn:Hk'; [done |]. case_decide; [congruence | done].
  - split; [apply rendered_insert |]. intros k. rewrite extensions_insert.
    destruct (decide (k = key)) as [->|Hne].
    + by rewrite lookup_insert_eq, Hk, Hseeded.
    + rewrite lookup_insert_ne by done. by destruct (extensions cfg !! k).
Qed.

Lemma seed_registry_defaults_Ok cfg cfg' :
  seed_registry_defaults registry debug_string cfg = Ok cfg' ->
  rendered cfg' = rendered cfg /\
  forall k, extensions cfg' !! k = match extensions cfg !! k with Some v => Some v | None => seeded k end.
Proof.
  unfold seed_registry_defaults.
  assert (Hgen : forall l c, try_fold (seed_default registry debug_string) c l = Ok cfg' ->
    rendered cfg' = rendered c /\
    forall k, extensions cfg' !! k =
      match extensions c !! k with Some v => Some v | None => if decide (k ∈ l) then seeded k else None end).
  { induction l as [|key l IH]; intros c; cbn [try_fold].
    - intros [= <-]. split; [done |]. intros k. destruct (extensions c !! k); [done |].
      by rewrite decide_False by apply not_elem_of_nil.
    - destruct (seed_default _ _ c key) as [c1|e] eqn:Hs; cbn [result_bind]; [|done]. intros Hrest.
      destruct (seed_default_Ok _ _ _ Hs) as [Hr1 He1], (IH _ Hrest) as [Hr2 He2]. split; [by rewrite Hr2 |].
      intros k. rewrite He2, He1. destruct (extensions c !! k); [done |].
      destruct (decide (k = key)) as [->|Hne].
      + rewrite (decide_True (P := key ∈ key :: l)) by left. destruct (seeded key); [done | by case_decide].
      + destruct (decide (k ∈ l)) as [Hl|Hl]; [by rewrite decide_True by (by right) |].
        rewrite decide_False; [done |]. by intros [? | ?]%elem_of_cons. }
  intros Hf. destruct (Hgen _ _ Hf) as [Hr He]. split; [done |]. intros k. rewrite He.
  destruct (extensions cfg !! k); [done |]. case_decide as Hk; [done |].
  unfold seeded. destruct (has_char "*" k); [done |]. destruct (entry registry k) as [e|] eqn:Hek; [|done].
  exfalso. apply Hk. unfold keys. apply elem_of_btree_keys. by exists e.
Qed.

(** *** Refused defaults *)

Lemma try_fold_Err {S A E} (f : S -> A -> result S E) l st e :
  try_fold f st l = Err e -> exists st' x, x ∈ l /\ f st' x = Err e.
Proof.
  revert st. induction l as [|x l IH]; intros st; cbn [try_fold]; [done |].
  destruct (f st x) as [st'|e'] eqn:Hx; cbn [result_bind].
  - intros (st'' & y & Hy & He)%IH. exists st'', y. split; [by right | done].
  - intros [= <-]. exists st, x. split; [by left | done].
Qed.

Lemma try_fold_Ok_each {S A E} (f : S -> A -> result S E) l st st' x :
  try_fold f st l = Ok st' -> x ∈ l -> exists s s', f s x = Ok s'.
Proof.
  revert st. induction l as [|y l IH]; intros st; cbn [try_fold]; [by intros _ ?%not_elem_of_nil |].
  destruct (f st y) as [s|e] eqn:Hy; cbn [result_bind]; [|done]. intros Hl [->|Hx]%elem_of_cons; [eauto | by eapply IH].
Qed.

Lemma seed_default_sound cfg key cfg' err :
  seed_default registry debug_string cfg key = Ok cfg' -> ~ bad_default key err.
Proof.
  unfold seed_default. intros Hok [e dflt He Hstar Hsel Hty Hd Hp | v err' Hs Hv].
  - by rewrite Hstar, He, Hsel, decide_False, Hd, Hp in Hok by done.
  - unfold seeded in Hs. destruct (has_char "*" key); [done |]. destruct (entry registry key) as [e|]; [|done].
    destruct (re_selector e); [done |]. cbn [orb] in Hs. case_bool_decide; [done |]. rewrite decide_False in Hok by done.
    destruct (re_default e) as [dflt|]; [|done]. cbn [mbind option_bind] in Hs. by rewrite Hs, Hv in Hok.
Qed.

Lemma seed_default_Err cfg key err : seed_default registry debug_string cfg key = Err err -> bad_default key err.
Proof.
  unfold seed_default. destruct (has_char "*" key) eqn:Hstar; [done |].
  destruct (entry registry key) as [e|] eqn:He; [|done]. destruct (re_selector e) eqn:Hsel; [done |].
  destruct (decide _) as [|Hty]; [done |]. destruct (re_default e) as [dflt|] eqn:Hd; [|done].
  destruct (parse_registry_default e dflt) as [v|] eqn:Hp; [|intros [= <-]; by econstructor].
  destruct (validate_extension registry key v) as [[]|err'] eqn:Hv; cbn [result_bind].
  - by destruct (extensions cfg !! key).
  - intros [= <-]. apply default_invalid with v; [|done]. unfold seeded.
    by rewrite Hstar, He, Hsel, bool_decide_eq_false_2, Hd by done.
Qed.

Lemma bad_default_declared key err : bad_default key err -> key ∈ keys registry.
Proof.
  unfold keys. rewrite elem_of_btree_keys. intros [e dflt He | v err' Hs _]; [by exists e |].
  unfold seeded in Hs. destruct (has_char "*" key); [done |].
  destruct (entry registry key) as [e|] eqn:He; [by exists e | done].
Qed.

Lemma seed_registry_defaults_sound cfg cfg' key err :
  seed_registry_defaults registry debug_string cfg = Ok cfg' -> ~ bad_default key err.
Proof.
  intros Hok Hbad. pose proof (bad_default_declared _ _ Hbad) as Hkey.
  destruct (try_fold_Ok_each _ _ _ _ key Hok Hkey) as (s & s' & Hs). by eapply seed_default_sound.
Qed.

(** *** Statements *)

(** Where a target finds a statement: a range by its index among the ranges of the object, a
    modifier by its place in the target's list, a paint semantic by its name. *)
Inductive place :=
| AtGlobal
| AtObject
| AtRange (index : nat)
| AtModifier (priority : nat)
| AtPaint (semantic : string)
| AtTool (tool : Z).

Definition rank (p : place) : nat :=
  match p with AtGlobal => 0 | AtObject => 1 | AtRange _ => 2 | AtModifier _ => 3 | AtPaint _ => 4 | AtTool _ => 5 end.

Definition precedes {A} `{RustOrd A} (x y : A) : Prop := rust_leb x y = true /\ x <> y.

(** Precedence: a tool over paint over modifiers over layer ranges over the object over the
    global scope; a later range or modifier over an earlier one, a paint semantic over those
    that sort before it. *)
Definition weaker (p q : place) : Prop :=
  (rank p < rank q)%nat \/
  match p, q with
  | AtRange i, AtRange j | AtModifier i, AtModifier j => (i < j)%nat
  | AtPaint s, AtPaint t => precedes s t
  | _, _ => False
  end.

(** The delta a target reads at a place, and its scope. *)
Inductive reads (scoped : ScopedConfig) (target : ResolutionTarget) : place -> ConfigScope -> ScopeDelta -> Prop :=
| reads_global d : delta scoped ScopeGlobal = Some d -> reads scoped target AtGlobal ScopeGlobal d
| reads_object d :
    delta scoped (ScopeObject (rt_object_id target)) = Some d ->
    reads scoped target AtObject (ScopeObject (rt_object_id target)) d
| reads_range i r z :
    rt_layer_top_z target = Some z -> ranges_for scoped (rt_object_id target) !! i = Some r -> covers r z = true ->
    reads scoped target (AtRange i) (lr_scope r) (lr_delta r)
| reads_modifier i m d :
    rt_modifier_ids target !! i = Some m -> delta scoped (ScopeModifier (rt_object_id target) m) = Some d ->
    reads scoped target (AtModifier i) (ScopeModifier (rt_object_id target) m) d
| reads_paint s d :
    s ∈ rt_paint_semantics target -> delta scoped (ScopePaintSemantic s) = Some d ->
    reads scoped target (AtPaint s) (ScopePaintSemantic s) d
| reads_tool n d :
    rt_tool_index target = Some n -> delta scoped (ScopeTool n) = Some d ->
    reads scoped target (AtTool n) (ScopeTool n) d.

(** A statement: its place, and the key as it is spelled there.  Of two spellings at one place
    the one that sorts later counts. *)
Definition states (scoped : ScopedConfig) (target : ResolutionTarget) (at_ : place * string) (v : ConfigValue) : Prop :=
  exists scope d, reads scoped target at_.1 scope d /\ values d !! at_.2 = Some v.

Definition below (a b : place * string) : Prop := weaker a.1 b.1 \/ a.1 = b.1 /\ precedes a.2 b.2.

(** The strongest statement about the keys that satisfy [about]. *)
Definition strongest scoped target (about : string -> Prop) (at_ : place * string) (v : ConfigValue) : Prop :=
  states scoped target at_ v /\ about (canonical_config_key at_.2) /\
  forall at' v', states scoped target at' v' -> about (canonical_config_key at'.2) -> at' = at_ \/ below at' at_.

Definition unstated scoped target (about : string -> Prop) : Prop :=
  forall at_ v, states scoped target at_ v -> ~ about (canonical_config_key at_.2).

(** What a field is bound to, and what a key without a field is. *)
Definition about_field (s key : string) : Prop := cell key = Some s.
Definition about_extension (k key : string) : Prop := key = k /\ cell k = None.

(** Why a resolution is refused. *)
Inductive defect (scoped : ScopedConfig) (target : ResolutionTarget) : ResolutionError -> Prop :=
| key_denied p scope d stated :
    reads scoped target p scope d -> is_Some (values d !! stated) ->
    canonical_config_key stated ∉ admission_set registry scope ->
    defect scoped target (ScopeDenied (canonical_config_key stated) scope)
| both_spellings p scope d legacy canonical :
    reads scoped target p scope d -> (legacy, canonical) ∈ CONFIG_KEY_ALIASES ->
    is_Some (values d !! legacy) -> is_Some (values d !! canonical) ->
    defect scoped target (Application (TypeMismatch (canonical +:+ " and " +:+ legacy) "one config key" "both config keys supplied"))
| value_invalid at_ v err :
    states scoped target at_ v -> validate_extension registry (canonical_config_key at_.2) v = Err err ->
    defect scoped target err
| value_unstorable at_ v s a :
    states scoped target at_ v -> cell (canonical_config_key at_.2) = Some s ->
    stored (canonical_config_key at_.2) v = Err a -> defect scoped target (Application a)
| default_unusable key err : bad_default key err -> defect scoped target err.

(** A merged configuration shows, for every field, what the strongest statement about it left,
    or else its default; and holds, for every other key, the value of the strongest statement,
    or else the declared default. *)
Record merged (scoped : ScopedConfig) (target : ResolutionTarget) (cfg : config) : Prop := {
  mg_sound : forall err, ~ defect scoped target err;
  mg_shown : forall s,
    (exists at_ v shown, strongest scoped target (about_field s) at_ v /\
       stored (canonical_config_key at_.2) v = Ok shown /\ rendered cfg !! s = shown) \/
    (unstated scoped target (about_field s) /\ rendered cfg !! s = rendered config_default !! s);
  mg_extension : forall key,
    (exists at_ v, strongest scoped target (about_extension key) at_ v /\ extensions cfg !! key = Some v) \/
    (unstated scoped target (about_extension key) /\ extensions cfg !! key = seeded key)
}.

Lemma validate_typed_Err key v e err : validate_typed key v e = Err err -> exists a, err = Application a.
Proof.
  assert (Hs : forall n i err, check_extension_scalar key n e i = Err err -> exists a, err = Application a)
    by (intros n i err'; unfold check_extension_scalar; case_match; [done |]; intros [= <-]; eauto).
  assert (Hp : forall n err, check_extension_percent key n e = Err err -> exists a, err = Application a)
    by (intros n err'; unfold check_extension_percent; case_match; [done |]; intros [= <-]; eauto).
  assert (Hm : forall expected w err, @type_mismatch unit key expected w = Err err -> exists a, err = Application a)
    by (intros expected w err'; unfold type_mismatch; intros [= <-]; eauto).
  assert (Hl : forall {A} (f : A -> result unit ResolutionError) l err,
    (forall x err, f x = Err err -> exists a, err = Application a) -> for_each f l = Err err -> exists a, err = Application a)
    by (intros A f l err' Hf Hl; apply for_each_Err in Hl as (x & _ & Hx); by apply Hf in Hx).
  unfold validate_typed, validate_float_text.
  repeat match goal with
    | |- context [String.eqb (re_field_type e) ?s] => destruct (String.eqb (re_field_type e) s)
    | |- (if orb _ _ then _ else _) = _ -> _ => cbn [orb]
    end;
  cbn [orb]; try done;
  repeat (case_match; eauto; try done);
  try (intros He; eapply Hl in He; [exact He |]; intros x err'; repeat (case_match; eauto; try done)).
Qed.
Lemma validate_extension_Err key v err : validate_extension registry key v = Err err -> exists a, err = Application a.
Proof. unfold validate_extension. destruct (registry_entry registry key); [apply validate_typed_Err | done]. Qed.

Lemma check_admitted_Err scope d e :
  check_admitted registry scope d = Err e ->
  exists key, is_Some (values d !! key) /\ canonical_config_key key ∉ admission_set registry scope /\
    e = ScopeDenied (canonical_config_key key) scope.
Proof.
  intros He. unfold check_admitted in He. apply for_each_Err in He as (key & Hk & He). cbv zeta in He.
  apply elem_of_btree_keys in Hk. exists key. destruct (decide _); [done |]. by injection He as <-.
Qed.

(** The defects are found before expansion. *)
Lemma apply_value_Err cfg kv err :
  apply_value cfg kv = Err err ->
  validate_extension registry (canonical_config_key kv.1) kv.2 = Err err \/
  exists s a, cell (canonical_config_key kv.1) = Some s /\ stored (canonical_config_key kv.1) kv.2 = Err a /\ err = Application a.
Proof.
  unfold Resolution.apply_value. destruct (validate_extension _ _ _) as [[]|e] eqn:Hv; cbn [result_bind]; [|by intros [= <-]; left].
  pose proof (apply_cases cfg (canonical_config_key kv.1) kv.2) as Hc.
  destruct (cell (canonical_config_key kv.1)) as [s|] eqn:Hs.
  - destruct (stored _ kv.2) as [shown|a] eqn:Ha.
    + by destruct Hc as (c' & -> & _).
    + rewrite Hc. cbn [lift result_bind]. intros [= <-]. right. eauto.
  - by rewrite Hc.
Qed.

Lemma defect_before_expansion scoped target e : ~ defect scoped target (ExpansionFailed e).
Proof.
  intros Hd. remember (ExpansionFailed e) as err eqn:Herr.
  destruct Hd as [ | | at_ v err Hst He | | key err [ | v err' Hs He]]; try discriminate Herr; subst;
    apply validate_extension_Err in He as [a Ha]; discriminate Ha.
Qed.

Lemma field_write_about s kv : storable kv -> is_Some (field_write s kv) <-> about_field s kv.1.
Proof.
  intros Hst. unfold field_write, about_field.
  case_bool_decide as Hc; [|split; [by intros [] | done]].
  destruct (Hst _ Hc) as [shown ->]. by split.
Qed.

Lemma extension_write_about k kv : is_Some (extension_write k kv) <-> about_extension k kv.1.
Proof.
  unfold extension_write, about_extension. destruct (String.eqb_spec kv.1 k) as [->|Hne]; cbn [andb].
  - case_bool_decide; split; [done | by eexists | by intros [] | by intros []].
  - split; [by intros [] | by intros []].
Qed.

(** *** Sorted lists *)

Lemma last_omap_sorted {A B} (R : relation A) (f : A -> option B) l :
  StronglySorted R l ->
  match last (omap f l) with
  | Some y => exists x, x ∈ l /\ f x = Some y /\ forall x', x' ∈ l -> is_Some (f x') -> x' = x \/ R x' x
  | None => forall x, x ∈ l -> f x = None
  end.
Proof.
  induction l as [|x l IH] using rev_ind; [by intros _ x ?%not_elem_of_nil |].
  rewrite last_omap_app. intros Hs. pose proof (fun a => StronglySorted_app_1_elem_of _ _ _ a x Hs) as Hx.
  apply StronglySorted_app_1_l, IH in Hs. cbn. destruct (f x) as [y|] eqn:Hf; cbn.
  - exists x. split_and!; [set_solver | done |].
    intros x' [Hin | ->%list_elem_of_singleton]%elem_of_app _; [right; apply Hx; [done | set_solver] | by left].
  - destruct (last (omap f l)) as [y|].
    + destruct Hs as (z & Hz & Hy & Hmax). exists z. split_and!; [set_solver | done |].
      intros x' [Hin | ->%list_elem_of_singleton]%elem_of_app Hsome; [by apply Hmax | rewrite Hf in Hsome; by destruct Hsome].
    + intros x' [Hin | ->%list_elem_of_singleton]%elem_of_app; [by apply Hs | done].
Qed.

Lemma omap_fmap_compose {A B C} (f : B -> option C) (g : A -> B) (l : list A) : omap f (g <$> l) = omap (fun x => f (g x)) l.
Proof. induction l as [|x l IH]; [done |]. cbn. rewrite <-IH. by destruct (f (g x)). Qed.

Lemma StronglySorted_filter {A} (R : relation A) (P : A -> Prop) `{forall x, Decision (P x)} l :
  StronglySorted R l -> StronglySorted R (filter P l).
Proof.
  induction 1 as [|x l Hl IH Hx]; [constructor |]. rewrite filter_cons. case_decide; [|done]. constructor; [done |].
  rewrite Forall_forall in *. intros y [_ Hy]%list_elem_of_filter. by apply Hx.
Qed.

Lemma filter_fmap_compose {A B} (f : A -> B) (P : B -> Prop) `{forall y, Decision (P y)} (l : list A) :
  filter P (f <$> l) = f <$> filter (fun x => P (f x)) l.
Proof.
  induction l as [|x l IH]; [done |]. cbn [fmap list_fmap]. rewrite !filter_cons, IH. by case_decide.
Qed.

Lemma elem_of_list_concat {A} (x : A) ls : x ∈ List.concat ls <-> exists l, l ∈ ls /\ x ∈ l.
Proof. rewrite list_elem_of_In, in_concat. by setoid_rewrite list_elem_of_In. Qed.

Lemma StronglySorted_fmap_inv {A B} (f : A -> B) (R : relation B) l :
  StronglySorted R (f <$> l) -> StronglySorted (fun x y => R (f x) (f y)) l.
Proof.
  induction l as [|x l IH]; cbn; [constructor |]. intros Hs. inversion Hs as [|? ? Hl Hx]; subst.
  constructor; [by apply IH |]. exact (proj1 (Forall_fmap f _ l) Hx).
Qed.

Lemma enumerate_sorted {A} (l : list A) : StronglySorted (fun a b => (a.1 < b.1)%nat) (enumerate l).
Proof.
  induction l as [|x l IH] using rev_ind; [constructor |]. rewrite enumerate_snoc.
  apply StronglySorted_app_2; [|done | repeat constructor].
  intros [i a] b Hi%elem_of_enumerate ->%list_elem_of_singleton. cbn. by eapply lookup_lt_Some.
Qed.

Lemma enumerate_snd {A} (l : list A) : snd <$> enumerate l = l.
Proof. induction l as [|x l IH] using rev_ind; [done |]. by rewrite enumerate_snoc, fmap_app, IH. Qed.

Lemma sorted_by_precedes {A} `{RustOrd A} (l : list A) : sorted_by rust_leb l -> NoDup l -> StronglySorted precedes l.
Proof.
  induction 1 as [|x l Hl IH Hx]; [constructor |]. intros [Hn Hnd]%NoDup_cons. constructor; [by apply IH |].
  rewrite Forall_forall in *. intros y Hy. split; [by apply Hx |]. by intros ->.
Qed.

(** *** The stack and its places *)

Section stacked.
Context (scoped : ScopedConfig) (target : ResolutionTarget).

Let at_scope (p : place) (scope : ConfigScope) : place * (ConfigScope * option ScopeDelta) := (p, (scope, delta scoped scope)).

(** The stack of scopes, each with its place. *)
Definition placed_stack : list (place * (ConfigScope * option ScopeDelta)) :=
  [at_scope AtGlobal ScopeGlobal; at_scope AtObject (ScopeObject (rt_object_id target))] ++
  match rt_layer_top_z target with
  | Some z => (fun ir : nat * LayerConfigRange => (AtRange ir.1, (lr_scope ir.2, Some (lr_delta ir.2)))) <$>
                filter (fun ir => covers ir.2 z = true) (enumerate (ranges_for scoped (rt_object_id target)))
  | None => []
  end ++
  ((fun im => at_scope (AtModifier im.1) (ScopeModifier (rt_object_id target) im.2)) <$> enumerate (rt_modifier_ids target)) ++
  ((fun s => at_scope (AtPaint s) (ScopePaintSemantic s)) <$> dedup (sort (rt_paint_semantics target))) ++
  match rt_tool_index target with Some n => [at_scope (AtTool n) (ScopeTool n)] | None => [] end.

Lemma placed_stack_snd : snd <$> placed_stack = scope_stack scoped target.
Proof.
  unfold placed_stack, scope_stack. rewrite !fmap_app. f_equal. f_equal; [|f_equal; [|f_equal]].
  - destruct (rt_layer_top_z target) as [z|]; [|done]. rewrite <-list_fmap_compose.
    rewrite <-(enumerate_snd (ranges_for scoped (rt_object_id target))) at 2. rewrite filter_fmap_compose, <-list_fmap_compose. done.
  - rewrite <-list_fmap_compose. rewrite <-(enumerate_snd (rt_modifier_ids target)) at 2. by rewrite <-list_fmap_compose.
  - by rewrite <-list_fmap_compose.
  - by destruct (rt_tool_index target).
Qed.

Lemma placed_stack_reads p scope d : (p, (scope, Some d)) ∈ placed_stack <-> reads scoped target p scope d.
Proof.
  unfold placed_stack, at_scope. rewrite !elem_of_app, !elem_of_cons. split.
  - intros [[Hp | [Hp | []%not_elem_of_nil]] | [Hp | [Hp | [Hp | Hp]]]].
    + injection Hp as -> -> Hd. by constructor.
    + injection Hp as -> -> Hd. by constructor.
    + destruct (rt_layer_top_z target) as [z|] eqn:Hz; [|by apply not_elem_of_nil in Hp].
      apply list_elem_of_fmap in Hp as ([i r] & [= -> -> ->] & [Hc Hr%elem_of_enumerate]%list_elem_of_filter).
      by apply reads_range with z.
    + apply list_elem_of_fmap in Hp as ([i m] & [= -> -> Hd] & Hm%elem_of_enumerate). by constructor.
    + apply list_elem_of_fmap in Hp as (s & [= -> -> Hd] & Hs). rewrite elem_of_dedup in Hs.
      unfold sort in Hs. rewrite elem_of_sort_by in Hs. by constructor.
    + destruct (rt_tool_index target) as [n|] eqn:Hn; [|by apply not_elem_of_nil in Hp].
      apply list_elem_of_singleton in Hp. injection Hp as -> -> Hd. by constructor.
  - intros [d' Hd | d' Hd | i r z Hz Hr Hc | i m d' Hm Hd | s d' Hs Hd | n d' Hn Hd].
    + left. left. by rewrite Hd.
    + left. right. left. by rewrite Hd.
    + right. left. rewrite Hz. apply list_elem_of_fmap. exists (i, r). split; [done |].
      apply list_elem_of_filter. split; [done |]. by apply elem_of_enumerate.
    + right. right. left. apply list_elem_of_fmap. exists (i, m). cbn. rewrite Hd. split; [done |]. by apply elem_of_enumerate.
    + right. right. right. left. apply list_elem_of_fmap. exists s. rewrite Hd. split; [done |].
      apply elem_of_dedup. unfold sort. by rewrite elem_of_sort_by.
    + right. right. right. right. rewrite Hn, Hd. by apply list_elem_of_singleton.
Qed.

(** *** The places of a stack are in order *)

Definition sorted_from (n : nat) (l : list (place * (ConfigScope * option ScopeDelta))) : Prop :=
  StronglySorted (fun a b => weaker a.1 b.1) l /\ Forall (fun a => (n <= rank a.1)%nat) l.

Lemma sorted_from_app n l1 l2 :
  StronglySorted (fun a b => weaker a.1 b.1) l1 -> Forall (fun a => rank a.1 = n) l1 ->
  sorted_from (S n) l2 -> sorted_from n (l1 ++ l2).
Proof.
  rewrite !Forall_forall. intros H1 Hn [H2 Hr]. rewrite Forall_forall in Hr. split.
  - apply StronglySorted_app_2; [|done..]. intros x y Hx%Hn Hy%Hr. left. lia.
  - apply Forall_app. rewrite !Forall_forall. split; [intros x Hx%Hn | intros x Hx%Hr]; lia.
Qed.

Lemma placed_stack_sorted : StronglySorted (fun a b => weaker a.1 b.1) placed_stack.
Proof.
  enough (sorted_from 0 placed_stack) as [? _] by done. unfold placed_stack, at_scope.
  apply (sorted_from_app 0 [_] (_ :: _)); [repeat constructor | by repeat constructor |].
  apply (sorted_from_app 1 [_]); [repeat constructor | by repeat constructor |].
  apply (sorted_from_app 2); [| |apply (sorted_from_app 3); [| |apply (sorted_from_app 4)]].
  - destruct (rt_layer_top_z target) as [z|]; [|constructor].
    apply (StronglySorted_fmap _ (fun a b : nat * LayerConfigRange => (a.1 < b.1)%nat)).
    + intros x y Hxy. by right.
    + apply StronglySorted_filter, enumerate_sorted.
  - destruct (rt_layer_top_z target) as [z|]; [|constructor]. apply Forall_fmap. by apply Forall_true.
  - apply (StronglySorted_fmap _ (fun a b : nat * string => (a.1 < b.1)%nat)); [|apply enumerate_sorted].
    intros x y Hxy. by right.
  - apply Forall_fmap. by apply Forall_true.
  - apply (StronglySorted_fmap _ precedes).
    + intros x y Hxy. by right.
    + apply sorted_by_precedes; [apply dedup_sorted, sort_sorted|].
      apply (NoDup_dedup_sorted rust_leb); [apply rust_leb_antisym | apply sort_sorted].
  - apply Forall_fmap. by apply Forall_true.
  - split; destruct (rt_tool_index target); repeat constructor.
Qed.

(** *** Its writes, each with its place and spelling *)

Definition place_writes (psd : place * (ConfigScope * option ScopeDelta)) : list ((place * string) * ConfigValue) :=
  match psd.2.2 with Some d => (fun kv => ((psd.1, kv.1), kv.2)) <$> btree_iter (values d) | None => [] end.

Definition placed_writes : list ((place * string) * ConfigValue) := List.concat (place_writes <$> placed_stack).

Definition spelled (w : (place * string) * ConfigValue) : string * ConfigValue := (canonical_config_key w.1.2, w.2).

Lemma placed_writes_spelled : spelled <$> placed_writes = writes (scope_stack scoped target).
Proof.
  rewrite <-placed_stack_snd. unfold placed_writes, writes.
  induction placed_stack as [|[p [sc [d|]]] l IH]; cbn [fmap list_fmap List.concat]; [done | |done].
  rewrite fmap_app, IH. f_equal. unfold place_writes, delta_writes. cbn [fst snd]. by rewrite <-list_fmap_compose.
Qed.

Lemma placed_writes_states at_ v : (at_, v) ∈ placed_writes <-> states scoped target at_ v.
Proof.
  unfold placed_writes, states. rewrite elem_of_list_concat. split.
  - intros (l & ([p [sc [d|]]] & -> & Hin)%list_elem_of_fmap & Hw); unfold place_writes in Hw; cbn [fst snd] in Hw;
      [|by apply not_elem_of_nil in Hw].
    apply list_elem_of_fmap in Hw as ([k v'] & [= -> ->] & Hkv%elem_of_btree_iter).
    apply placed_stack_reads in Hin. by exists sc, d.
  - intros (sc & d & Hr%placed_stack_reads & Hv). exists (place_writes (at_.1, (sc, Some d))). split.
    + by apply list_elem_of_fmap_2.
    + unfold place_writes. cbn [fst snd]. apply list_elem_of_fmap. exists (at_.2, v). split; [by destruct at_ |].
      by apply elem_of_btree_iter.
Qed.

Lemma place_writes_place psd w : w ∈ place_writes psd -> w.1.1 = psd.1.
Proof.
  unfold place_writes. destruct psd.2.2; [|by intros ?%not_elem_of_nil].
  by intros (kv & -> & _)%list_elem_of_fmap.
Qed.

Lemma placed_writes_sorted : StronglySorted (fun a b => below a.1 b.1) placed_writes.
Proof.
  unfold placed_writes. induction placed_stack_sorted as [|psd l Hl IH Hp]; cbn [fmap list_fmap List.concat]; [constructor |].
  apply StronglySorted_app_2; [| |exact IH].
  - intros x y Hx%place_writes_place (l' & (psd' & -> & Hin)%list_elem_of_fmap & Hy%place_writes_place)%elem_of_list_concat.
    rewrite Forall_forall in Hp. left. rewrite Hx, Hy. by apply Hp.
  - unfold place_writes. destruct psd.2.2 as [d|]; [|constructor].
    apply (StronglySorted_fmap _ (fun a b : string * ConfigValue => precedes a.1 b.1)).
    + intros x y Hxy. by right.
    + apply StronglySorted_fmap_inv, sorted_by_precedes; [apply btree_keys_sorted | apply NoDup_btree_keys].
Qed.

(** The last write that matters is that of the strongest statement. *)
Lemma strongest_write {B} (about : string -> Prop) (f : string * ConfigValue -> option B)
    (Hf : forall kv, kv ∈ writes (scope_stack scoped target) -> is_Some (f kv) <-> about kv.1) :
  match last (omap f (writes (scope_stack scoped target))) with
  | Some y => exists at_ v, strongest scoped target about at_ v /\ f (canonical_config_key at_.2, v) = Some y
  | None => unstated scoped target about
  end.
Proof.
  assert (Hw : forall at_ v, states scoped target at_ v ->
            is_Some (f (canonical_config_key at_.2, v)) <-> about (canonical_config_key at_.2)).
  { intros at_ v Hst%placed_writes_states. apply (Hf (canonical_config_key at_.2, v)).
    rewrite <-placed_writes_spelled. by apply (list_elem_of_fmap_2 spelled _ (at_, v)). }
  rewrite <-placed_writes_spelled, omap_fmap_compose.
  pose proof (last_omap_sorted _ (fun w => f (spelled w)) _ placed_writes_sorted) as Hl.
  destruct (last _) as [y|].
  - destruct Hl as ([at_ v] & Hin%placed_writes_states & Hy & Hmax). exists at_, v. split; [|done]. split_and!; [done | |].
    + apply (Hw at_ v Hin). by exists y.
    + intros at' v' Hst Hab. pose proof (proj2 (Hw at' v' Hst) Hab) as Hsome. apply placed_writes_states in Hst.
      destruct (Hmax _ Hst Hsome) as [[= -> _] | Hb]; [by left | by right].
  - intros at_ v Hst Hab. apply (proj2 (Hw at_ v Hst)) in Hab. apply placed_writes_states in Hst.
    apply Hl in Hst. unfold spelled in Hst. cbn [fst snd] in Hst. rewrite Hst in Hab. by destruct Hab.
Qed.

(** *** Refused stacks *)

Lemma stack_reads scope d :
  (scope, Some d) ∈ scope_stack scoped target -> exists p, reads scoped target p scope d.
Proof.
  rewrite <-placed_stack_snd. intros ([p sd] & Hsd & Hin)%list_elem_of_fmap. cbn [snd] in Hsd. subst sd.
  exists p. by apply placed_stack_reads.
Qed.

Lemma reads_stack p scope d : reads scoped target p scope d -> (scope, Some d) ∈ scope_stack scoped target.
Proof. intros Hr%placed_stack_reads. rewrite <-placed_stack_snd. by apply (list_elem_of_fmap_2 snd) in Hr. Qed.

Lemma states_writes at_ v :
  states scoped target at_ v -> (canonical_config_key at_.2, v) ∈ writes (scope_stack scoped target).
Proof. intros Hst%placed_writes_states. rewrite <-placed_writes_spelled. by apply (list_elem_of_fmap_2 spelled) in Hst. Qed.

Lemma delta_defect p scope d cfg e :
  reads scoped target p scope d -> apply_delta cfg scope (Some d) = Err e -> defect scoped target e.
Proof.
  intros Hp. unfold Resolution.apply_delta.
  destruct (reject_both_spellings d) as [[]|e'] eqn:Hb; cbn [result_bind].
  - destruct (check_admitted registry scope d) as [[]|e'] eqn:Ha; cbn [result_bind].
    + intros (st & [k v] & Hkv%elem_of_btree_iter & He)%try_fold_Err.
      assert (Hst : states scoped target (p, k) v) by (exists scope, d; done).
      apply apply_value_Err in He as [He | (s & a & Hs & He & ->)]; [by eapply value_invalid | by eapply value_unstorable].
    + intros [= <-]. apply check_admitted_Err in Ha as (key & Hk & Hna & ->). by eapply key_denied.
  - intros [= <-]. unfold reject_both_spellings in Hb. apply for_each_Err in Hb as ([legacy canonical] & Hal & Hb).
    cbn [fst snd] in Hb. destruct (values d !! legacy) eqn:H1; [|done]. destruct (values d !! canonical) eqn:H2; [|done].
    injection Hb as <-. by eapply both_spellings.
Qed.

Lemma merge_stack_defect e : merge_stack registry (scope_stack scoped target) = Err e -> defect scoped target e.
Proof.
  unfold merge_stack. intros (cfg & [scope [d|]] & Hin & He)%try_fold_Err; [|done].
  apply stack_reads in Hin as [p Hp]. by eapply delta_defect.
Qed.

Lemma merged_sound cfg cfg' err :
  merge_stack registry (scope_stack scoped target) = Ok cfg -> seed_registry_defaults registry debug_string cfg = Ok cfg' ->
  ~ defect scoped target err.
Proof.
  intros [Hall [Hv _ _]]%merge_stack_wrote Hseed. rewrite Forall_forall in Hall.
  intros [p scope d stated Hr Hk Hna | p scope d legacy canonical Hr Hal H1 H2 | at_ v err' Hst He | at_ v s a Hst Hs He | key err' Hbad].
  - apply reads_stack, Hall in Hr. by apply (Hr d eq_refl) in Hk.
  - apply reads_stack, Hall in Hr. destruct (proj2 (Hr d eq_refl) legacy canonical Hal) as [Hn | Hn]; rewrite Hn in *; by destruct H1, H2.
  - apply states_writes, Hv in Hst as [Hok _]. cbn [fst snd] in Hok. congruence.
  - apply states_writes, Hv in Hst as [_ Hok]. destruct (Hok s Hs) as [shown Hsh]. cbn [fst snd] in Hsh. congruence.
  - by eapply seed_registry_defaults_sound.
Qed.

Lemma merge_and_seed :
  match (let? cfg := merge_stack registry (scope_stack scoped target) in seed_registry_defaults registry debug_string cfg) with
  | Ok cfg => merged scoped target cfg
  | Err e => defect scoped target e
  end.
Proof.
  destruct (merge_stack registry (scope_stack scoped target)) as [cfg|e] eqn:Hm; cbn [result_bind];
    [|by apply merge_stack_defect].
  destruct (seed_registry_defaults registry debug_string cfg) as [cfg'|e] eqn:Hseed.
  - pose proof (fun err => merged_sound _ _ err Hm Hseed) as Hsound. apply merge_stack_wrote in Hm as [_ [Hv He Hs]].
    apply seed_registry_defaults_Ok in Hseed as [Hr Hext]. constructor; [exact Hsound | |].
    + intros s. rewrite Hr, Hs. unfold last_shown.
      pose proof (strongest_write (about_field s) (field_write s)) as Hl. destruct (last _) as [shown|].
      * left. destruct Hl as (at_ & v & Hst & Hf); [by intros kv [_ ?]%Hv; apply field_write_about |].
        exists at_, v, shown. split; [done |]. unfold field_write in Hf. case_bool_decide; [|done]. cbn [fst snd] in Hf.
        by destruct (stored _ v) as [?|] ; [injection Hf as -> |].
      * right. split; [|done]. apply Hl. by intros kv [_ ?]%Hv; apply field_write_about.
    + intros key. rewrite Hext, He, default_extensions, lookup_empty. unfold last_extension.
      pose proof (strongest_write (about_extension key) (extension_write key)) as Hl. destruct (last _) as [v'|].
      * left. destruct Hl as (at_ & v & Hst & Hf); [by intros kv _; apply extension_write_about |].
        exists at_, v. split; [done |]. unfold extension_write in Hf. by destruct (_ && _); [injection Hf as -> |].
      * right. split; [|done]. apply Hl. by intros kv _; apply extension_write_about.
  - unfold seed_registry_defaults in Hseed. apply try_fold_Err in Hseed as (st & key & _ & Hk).
    apply seed_default_Err in Hk. by eapply default_unusable.
Qed.
End stacked.

(** There is at most one strongest statement. *)
Lemma reads_functional scoped target p s1 d1 s2 d2 :
  reads scoped target p s1 d1 -> reads scoped target p s2 d2 -> d1 = d2.
Proof. intros [] H2; inversion H2; subst; congruence. Qed.

Lemma below_asym a b : below a b -> ~ below b a.
Proof.
  unfold below, weaker, precedes.
  assert (Hs : forall x y : string, rust_leb x y = true /\ x <> y -> ~ (rust_leb y x = true /\ y <> x))
    by (intros x y [H1 Hne] [H2 _]; apply Hne; by apply rust_leb_antisym).
  destruct a as [[] x], b as [[] y]; cbn [fst snd rank];
    intros [[? | ?] | [? ?]] [[? | ?] | [? ?]]; simplify_eq; try done; try lia;
    match goal with H1 : _ /\ _, H2 : _ /\ _ |- _ => exact (Hs _ _ H1 H2) | H : _ /\ _ |- _ => exact (Hs _ _ H H) end.
Qed.

Lemma strongest_unique scoped target about a v a' v' :
  strongest scoped target about a v -> strongest scoped target about a' v' -> a = a' /\ v = v'.
Proof.
  intros (Hst & Hab & Hmax) (Hst' & Hab' & Hmax').
  assert (a' = a) as ->.
  { destruct (Hmax a' v' Hst' Hab') as [? | H1]; [done |]. destruct (Hmax' a v Hst Hab) as [? | H2]; [done |].
    by apply below_asym in H1. }
  split; [done |]. destruct Hst as (s1 & d1 & Hr & Hv), Hst' as (s2 & d2 & Hr' & Hv').
  rewrite (reads_functional _ _ _ _ _ _ _ Hr Hr') in Hv. congruence.
Qed.

(** [C7].  Resolution of a target always ends.  It is refused before expansion exactly when it has a
    defect: a scope it reads states a key denied to it or both spellings of a key, a stated
    value is invalid or not one its field takes, or a declared default is unusable; and the
    error is that of such a defect.  Otherwise each key of the result is the expansion of the
    value of the strongest statement about it (tool over paint over modifiers over layer ranges
    over the object over the global scope; a later range or modifier over an earlier one; a
    semantic over those that sort before it), of the declared default if nothing states it, or
    of the default of the field; an expansion fails only for a base without a usable value. *)
Theorem resolution_exact (scoped : ScopedConfig) (target : ResolutionTarget) (expansion : ExpansionContext)
    (Hbases : bases_sound (entries registry)) (Hauto : auto_bases_plain registry) :
  exists r, resolve_scope_stack registry debug_string scoped target expansion = Done r /\
  match r with
  | Ok cfg' => exists cfg, merged scoped target cfg /\
      forall key, match to_config_map cfg !! key with
        | Some v => exists v',
            expands registry (to_config_map cfg) expansion (rt_tool_index target) key (Ok (Some v')) /\
            to_config_map cfg' !! key = written cfg key v v'
        | None => to_config_map cfg' !! key = None
        end
  | Err (ExpansionFailed e) => exists cfg key, merged scoped target cfg /\
      expands registry (to_config_map cfg) expansion (rt_tool_index target) key (Err e)
  | Err e => defect scoped target e
  end.
Proof.
  unfold resolve_scope_stack. pose proof (merge_and_seed scoped target) as Hm.
  destruct (result_bind _ _) as [cfg|e] eqn:Hb.
  - destruct (expansion_outcome registry cfg expansion (rt_tool_index target) Hbases Hauto) as (r & -> & Hr).
    cbn [exec_bind]. eexists. split; [done |]. destruct r as [cfg'|e].
    + by exists cfg.
    + destruct Hr as (key & _ & He). by exists cfg, key.
  - exists (Err e). split; [done |]. destruct e; [done | by apply defect_before_expansion in Hm | done..].
Qed.
End precedence.

(** *** An example: the fields and run-time keys of the host, one module *)

Definition host_channels : HostChannels :=
  {| hc_host_keys := host_config_keys (fun _ => "") (fun _ => ""); hc_speed_keys := []; hc_runtime_keys := HOST_RUNTIME_KEYS |}.

Definition example_registry : ConfigSchemaRegistry :=
  match assemble_registry [brim_module] host_channels with
  | Done (Ok out) => ao_registry out
  | _ => {| entries := ∅ |}
  end.

Definition example_scopes : ScopedConfig :=
  {| deltas := {[ ScopeGlobal := {| values := {[ "layer_height" := CvFloat (lit64 "0.3"); "brim_gap" := CvInt 5 ]} |};
                  ScopeObject "part" := {| values := {[ "layer_height" := CvFloat (lit64 "0.1") ]} |};
                  ScopePaintSemantic "fine" := {| values := {[ "support_overhang_angle" := CvFloat (lit64 "45.0") ]} |} ]};
     layer_ranges := ∅ |}.

Definition example_target : ResolutionTarget :=
  {| rt_object_id := "part"; rt_modifier_ids := []; rt_paint_semantics := ["fine"]; rt_tool_index := None;
     rt_layer_top_z := None |}.

Definition example_context : ExpansionContext := {| nozzle_diameter_mm := lit64 "0.4"; tool_bases := ∅ |}.

Definition shows (r : exec (result config ResolutionError)) (key : string) : option ConfigValue :=
  match r with Done (Ok cfg) => to_config_map cfg !! key | _ => None end.

(** The object's layer height wins over the global one, the painted angle is stored under its
    canonical key, and the module's default of 50% is half the object's layer height. *)
Lemma resolution_exact_witness :
  exists cfg, resolve_scope_stack example_registry (fun s => s) example_scopes example_target example_context = Done (Ok cfg) /\
    to_config_map cfg !! "layer_height" = Some (CvFloat (lit64 "0.1")) /\
    to_config_map cfg !! "support_threshold_angle" = Some (CvFloat (lit64 "45.0")) /\
    to_config_map cfg !! "brim_gap" = Some (CvInt 5) /\
    to_config_map cfg !! "brim_width" = Some (CvFloatOrPercent (lit64 "0.05") false).
Proof.
  set (run := resolve_scope_stack example_registry (fun s => s) example_scopes example_target example_context).
  assert (Hshows : shows run <$> ["layer_height"; "support_threshold_angle"; "brim_gap"; "brim_width"] =
    [Some (CvFloat (lit64 "0.1")); Some (CvFloat (lit64 "45.0")); Some (CvInt 5); Some (CvFloatOrPercent (lit64 "0.05") false)])
    by (vm_compute; reflexivity).
  destruct (resolution_exact example_registry (fun s => s) example_scopes example_target example_context) as (r & Hr & Hcase).
  - destruct (assemble_registry_cases [brim_module] host_channels) as (r & Hr & Hcase).
    unfold example_registry. rewrite Hr. destruct r as [out|e]; [apply Hcase |].
    assert (Hok : match assemble_registry [brim_module] host_channels with Done (Ok _) => true | _ => false end = true)
      by (vm_compute; reflexivity).
    by rewrite Hr in Hok.
  - intros base. rewrite !elem_of_cons. intros [-> | [-> | [-> | []%not_elem_of_nil]]]; vm_compute; reflexivity.
  - unfold run in Hshows. rewrite Hr in Hshows. destruct r as [cfg'|e]; cbn [shows fmap list_fmap] in Hshows; [|discriminate Hshows].
    destruct Hcase as (cfg & _ & _). exists cfg'. split; [exact Hr |].
    injection Hshows as H1 H2 H3 H4. by split_and!.
Defined.
