(* ===== verification/HeightProfile.v ===== *)
(** The layer heights of an object ([slicer-config/src/resolution.rs]): the profile composed of
    the first layer, the layer ranges and the base height, the layer tops it gives, and the
    rows from which the shared Z grid is built.

    The loop that walks the layer tops has fuel: one unit per layer. *)
From Stdlib Require Import Ascii.
From stdpp Require Import prelude gmap strings list sorting.
From S2P Require Import Prelude Text Ir Float32 Float64 Registry ResolvedFields TypedConfig Expansion Ingestion Resolution.

#[local] Open Scope string_scope.
#[local] Open Scope list_scope.

Record HeightProfileSegment := { z_start : f64; z_end : f64; seg_height : f64 }.

Record ResolvedObjectLayerConfig := {
  ol_object_id : string;
  ol_object_height : f64;
  ol_layer_height : f64;
  ol_first_layer_height : f64;
  ol_support_raft_layers : Z;
  ol_layer_z_tops : list f64
}.

Definition layer_range_index (scope : ConfigScope) : Z :=
  match scope with ScopeLayerRange _ range_index => range_index | _ => 0%Z end.

Definition usable_height (height : f64) : bool := f64_is_finite height && f64_ltb F0 height.

Definition validate_height (object_id : string) (height : f64) : result unit ResolutionError :=
  if usable_height height then Ok tt
  else Err (InvalidObjectHeight object_id (if f64_is_finite height then Some height else None)).

(** ** The profile *)

Definition push_profile_segment (profile : list HeightProfileSegment) (start stop height : f64) : list HeightProfileSegment :=
  if f64_leb stop start then profile
  else
    match last profile with
    | Some l =>
        if f64_eqb (seg_height l) height && f64_eqb (z_end l) start
        then removelast profile ++ [{| z_start := z_start l; z_end := stop; seg_height := seg_height l |}]
        else profile ++ [{| z_start := start; z_end := stop; seg_height := height |}]
    | None => profile ++ [{| z_start := start; z_end := stop; seg_height := height |}]
    end.

(** One retained segment, after the gap before it. *)
Definition fill_segment (base_height : f64) (st : list HeightProfileSegment * f64) (segment : HeightProfileSegment)
    : list HeightProfileSegment * f64 :=
  let '(profile, cursor) := st in
  let profile := if f64_ltb cursor (z_start segment)
                 then push_profile_segment profile cursor (z_start segment) base_height else profile in
  (push_profile_segment profile (z_start segment) (z_end segment) (seg_height segment), z_end segment).

Definition fill_profile_gaps (retained : list HeightProfileSegment) (coverage_high object_height base_height : f64)
    : list HeightProfileSegment :=
  let target := f64_max object_height coverage_high in
  let '(profile, cursor) := foldl (fill_segment base_height) ([], F0) retained in
  if f64_ltb cursor target then push_profile_segment profile cursor target base_height else profile.

(** The ranges that state a usable height: lower bound, upper bound, index, height. *)
Definition height_range (r : LayerConfigRange) : option (f64 * f64 * Z * f64) :=
  match values (lr_delta r) !! "layer_height" with
  | Some (CvFloat height) => if usable_height height then Some (lr_min_z r, lr_max_z r, layer_range_index (lr_scope r), height)
                             else None
  | _ => None
  end.

Definition height_range_key (r : f64 * f64 * Z * f64) : Z * (Z * Z) :=
  let '(min_z, max_z, index, _) := r in (f64_total_key min_z, (f64_total_key max_z, index)).

Definition height_range_leb (first second : f64 * f64 * Z * f64) : bool :=
  rust_leb (height_range_key first) (height_range_key second).

Definition height_ranges (ranges : list LayerConfigRange) : list (f64 * f64 * Z * f64) :=
  sort_by height_range_leb (omap height_range ranges).

(** The retained segments and the end of the last one. *)
Definition retain_range (raft_offset : f64) (st : list HeightProfileSegment * f64) (r : f64 * f64 * Z * f64)
    : list HeightProfileSegment * f64 :=
  let '(retained, coverage_high) := st in
  let '(min_z, max_z, _, height) := r in
  let min_z := f64_max (f64_sub min_z raft_offset) F0 in
  let max_z := f64_sub max_z raft_offset in
  if f64_leb max_z F0 then st
  else if f64_leb max_z coverage_high then st
  else (retained ++ [{| z_start := f64_max min_z coverage_high; z_end := max_z; seg_height := height |}], max_z).

Definition compose_profile (ranges : list LayerConfigRange) (object_height raft_offset base_height first_height : f64)
    : list HeightProfileSegment :=
  let first := {| z_start := F0; z_end := first_height; seg_height := first_height |} in
  let '(retained, coverage_high) := foldl (retain_range raft_offset) ([first], first_height) (height_ranges ranges) in
  fill_profile_gaps retained coverage_high object_height base_height.

Section queries.
Context {T : TypedConfig} (registry : ConfigSchemaRegistry) (debug_string : string -> string).

(** The base scalars of an object: no modifier, paint, tool or layer. *)
Definition object_target (object_id : string) : ResolutionTarget :=
  {| rt_object_id := object_id; rt_modifier_ids := []; rt_paint_semantics := []; rt_tool_index := None;
     rt_layer_top_z := None |}.

Definition query_layer_height_profile (scoped : ScopedConfig) (object_id : string) (object_height raft_offset : f64)
    (expansion : ExpansionContext) : exec (result (list HeightProfileSegment) ResolutionError) :=
  match validate_height object_id object_height with
  | Err e => Done (Err e)
  | Ok _ =>
      let! out := resolve_scope_stack registry debug_string scoped (object_target object_id) expansion in
      Done (let? cfg := out in
            let? _ := validate_height object_id (layer_height cfg) in
            let? _ := validate_height object_id (first_layer_height cfg) in
            Ok (compose_profile (ranges_for scoped object_id) object_height raft_offset
                  (layer_height cfg) (first_layer_height cfg)))
  end.
End queries.

(** ** Layer tops *)

(** [1.0e-9]. *)
Definition TOP_TOLERANCE : f64 := F64 4472406533629990549.

Definition segment_at (segments : list HeightProfileSegment) (probe : f64) : option HeightProfileSegment :=
  List.find (fun s => f64_leb (z_start s) probe && f64_ltb probe (z_end s)) segments.

Fixpoint layer_tops_from (fuel : nat) (segments : list HeightProfileSegment) (object_height z : f64) (tops : list f64)
    : exec (list f64) :=
  match fuel with
  | O => OutOfFuel
  | S fuel =>
      match segment_at segments (f64_add z TOP_TOLERANCE) with
      | None => Done tops
      | Some s =>
          if f64_is_nan (seg_height s) || f64_leb (seg_height s) F0 then Done tops
          else
            let z := f64_add z (seg_height s) in
            if f64_leb z (f64_add object_height TOP_TOLERANCE)
            then layer_tops_from fuel segments object_height z (tops ++ [z])
            else Done tops
      end
  end.

Definition layer_top_zs (fuel : nat) (segments : list HeightProfileSegment) (object_height : f64) : exec (list f64) :=
  layer_tops_from fuel segments object_height F0 [].

(** ** The Z grid *)

Section grid.
Context {T : TypedConfig} (registry : ConfigSchemaRegistry) (debug_string : string -> string).

Definition support_raft_layers (cfg : config) : result Z ResolutionError :=
  match extensions cfg !! "support_raft_layers" with
  | None => Ok 0%Z
  | Some (CvInt value) =>
      if Z.leb 0 value && Z.leb value u32_max then Ok value
      else Err (Application (OutOfRange "support_raft_layers" (int_as_f64 value) (Some F0) (Some f64_u32_max) None))
  | Some other => type_mismatch "support_raft_layers" "Int" other
  end.

(** The scalars of one object. *)
Definition object_scalars (scoped : ScopedConfig) (expansion : ExpansionContext) (oh : string * f64)
    : exec (result (string * f64 * config * Z) ResolutionError) :=
  let '(object_id, object_height) := oh in
  let! out := resolve_scope_stack registry debug_string scoped (object_target object_id) expansion in
  Done (let? cfg := out in
        let? raft_layers := support_raft_layers cfg in
        let? _ := validate_height object_id (layer_height cfg) in
        let? _ := validate_height object_id (first_layer_height cfg) in
        Ok (object_id, object_height, cfg, raft_layers)).

(** The top of the highest raft. *)
Definition raft_top (cfg : config) (raft_layers : Z) : f64 :=
  f64_add (first_layer_height cfg) (f64_mul (f64_sub (int_as_f64 raft_layers) (int_as_f64 1)) (layer_height cfg)).

Definition raft_offset_of (configs : list (string * f64 * config * Z)) : f64 :=
  foldl f64_max F0 (omap (fun c : string * f64 * config * Z => let '(_, _, cfg, raft_layers) := c in
                            if Z.ltb 0 raft_layers then Some (raft_top cfg raft_layers) else None) configs).

Definition object_row (fuel : nat) (scoped : ScopedConfig) (expansion : ExpansionContext) (raft_offset : f64)
    (c : string * f64 * config * Z) : exec (result ResolvedObjectLayerConfig ResolutionError) :=
  let '(object_id, object_height, cfg, raft_layers) := c in
  let! profile := query_layer_height_profile registry debug_string scoped object_id object_height raft_offset expansion in
  match profile with
  | Err e => Done (Err e)
  | Ok profile =>
      let! tops := layer_top_zs fuel profile object_height in
      Done (Ok {| ol_object_id := object_id; ol_object_height := object_height; ol_layer_height := layer_height cfg;
                  ol_first_layer_height := first_layer_height cfg; ol_support_raft_layers := raft_layers;
                  ol_layer_z_tops := tops |})
  end.

(** [map(..).collect::<Result<Vec<_>, _>>()?]. *)
Fixpoint collect_exec {A B E} (f : A -> exec (result B E)) (l : list A) : exec (result (list B) E) :=
  match l with
  | [] => Done (Ok [])
  | x :: l =>
      let! y := f x in
      match y with
      | Err e => Done (Err e)
      | Ok y => let! ys := collect_exec f l in Done (let? ys := ys in Ok (y :: ys))
      end
  end.

Definition query_z_grid (fuel : nat) (scoped : ScopedConfig) (object_heights : gmap string f64)
    (expansion : ExpansionContext) : exec (result (list ResolvedObjectLayerConfig) ResolutionError) :=
  match for_each (fun oh : string * f64 => validate_height oh.1 oh.2) (btree_iter object_heights) with
  | Err e => Done (Err e)
  | Ok _ =>
      let! configs := collect_exec (object_scalars scoped expansion) (btree_iter object_heights) in
      match configs with
      | Err e => Done (Err e)
      | Ok configs => collect_exec (object_row fuel scoped expansion (raft_offset_of configs)) configs
      end
  end.
End grid.

(** ** A schedule that does not end *)

(** A layer so thin that the sum of a top and the height rounds to the top. *)
Definition thin_input : LayerRangeInput :=
  {| li_object_id := "part"; li_source_index := 0%Z; li_min_z := F0; li_max_z := lit64 "10";
     li_values := {[ "layer_height" := "1e-20" ]} |}.

Definition thin_ingested : ConfigIngestor * result unit LayerRangeLoadError :=
  ingest_layer_ranges example_registry (fun _ => "") (fun _ => "") (with_mode false) [thin_input].

Definition thin_profile : list HeightProfileSegment :=
  [{| z_start := F0; z_end := lit64 "0.2"; seg_height := lit64 "0.2" |};
   {| z_start := lit64 "0.2"; z_end := lit64 "10"; seg_height := lit64 "1e-20" |}].

(** A step of the loop, and a step that changes nothing. *)
Lemma layer_step segments object_height z s z' :
  segment_at segments (f64_add z TOP_TOLERANCE) = Some s ->
  f64_is_nan (seg_height s) || f64_leb (seg_height s) F0 = false ->
  f64_add z (seg_height s) = z' -> f64_leb z' (f64_add object_height TOP_TOLERANCE) = true ->
  forall fuel tops, layer_tops_from (S fuel) segments object_height z tops =
                    layer_tops_from fuel segments object_height z' (tops ++ [z']).
Proof. intros Hs Hh Hz Hle fuel tops. cbn [layer_tops_from]. by rewrite Hs, Hh, Hz, Hle. Qed.

Lemma stuck_never_ends segments object_height z s :
  segment_at segments (f64_add z TOP_TOLERANCE) = Some s ->
  f64_is_nan (seg_height s) || f64_leb (seg_height s) F0 = false ->
  f64_add z (seg_height s) = z -> f64_leb z (f64_add object_height TOP_TOLERANCE) = true ->
  forall fuel tops, layer_tops_from fuel segments object_height z tops = OutOfFuel.
Proof.
  intros Hs Hh Hz Hle fuel. induction fuel as [|fuel IH]; intros tops; [done |].
  by rewrite (layer_step _ _ _ s z), IH.
Qed.

(** A layer range that states a layer height of 1e-20 mm is accepted by the ingestor and by the
    profile query, and the loop over the layer tops of the object then never ends. *)
Theorem thin_layers_never_end :
  exists ig, thin_ingested = (ig, Ok tt) /\
    query_layer_height_profile example_registry (fun s => s) (io_scoped (finish example_registry ig)) "part"
      (lit64 "10") F0 example_context = Done (Ok thin_profile) /\
    forall fuel, layer_top_zs fuel thin_profile (lit64 "10") = OutOfFuel.
Proof.
  destruct thin_ingested as [ig r] eqn:Hi. exists ig.
  assert (Hr : r = Ok tt).
  { assert (H : match thin_ingested.2 with Ok tt => true | Err _ => false end = true) by (vm_compute; reflexivity).
    rewrite Hi in H. cbn [snd] in H. by destruct r as [[]|]. }
  split; [by rewrite Hr |]. split.
  - assert (H : query_layer_height_profile example_registry (fun s => s) (io_scoped (finish example_registry thin_ingested.1))
      "part" (lit64 "10") F0 example_context = Done (Ok thin_profile)) by (vm_compute; reflexivity).
    by rewrite Hi in H.
  - intros [|fuel]; [done |]. unfold layer_top_zs.
    rewrite (layer_step _ _ _ {| z_start := F0; z_end := lit64 "0.2"; seg_height := lit64 "0.2" |} (lit64 "0.2"));
      [|vm_compute; reflexivity..].
    apply (stuck_never_ends _ _ _ {| z_start := lit64 "0.2"; z_end := lit64 "10"; seg_height := lit64 "1e-20" |});
      vm_compute; reflexivity.
Qed.

(** ** The profile covers the object *)

(** Positions that are not NaN are compared by their keys. *)
Definition num (x : f64) : Prop := f64_is_nan x = false.

(** The segments lie end to end from one position to another. *)
Fixpoint tiles (a : Z) (profile : list HeightProfileSegment) (b : Z) : Prop :=
  match profile with
  | [] => a = b
  | s :: rest =>
      num (z_start s) /\ num (z_end s) /\ f64_key (z_start s) = a /\ (a < f64_key (z_end s))%Z /\
      tiles (f64_key (z_end s)) rest b
  end.

Lemma tiles_app a l1 l2 c : tiles a (l1 ++ l2) c <-> exists b, tiles a l1 b /\ tiles b l2 c.
Proof.
  revert a. induction l1 as [|s l1 IH]; intros a; cbn [app tiles].
  - split; [intros H; by exists a | by intros (b & -> & H)].
  - rewrite IH. split.
    + intros (H1 & H2 & H3 & H4 & b & H5 & H6). exists b. by split_and!.
    + intros (b & (H1 & H2 & H3 & H4 & H5) & H6). split_and!; [done.. |]. by exists b.
Qed.

Lemma tiles_le a l b : tiles a l b -> (a <= b)%Z.
Proof. revert a. induction l as [|s l IH]; intros a; cbn [tiles]; [lia |]. intros (_ & _ & _ & H & Hl). apply IH in Hl. lia. Qed.

Definition inside (s : HeightProfileSegment) (z : f64) : bool := f64_leb (z_start s) z && f64_ltb z (z_end s).

Lemma inside_key s z : num (z_start s) -> num (z_end s) -> num z ->
  inside s z = (f64_key (z_start s) <=? f64_key z)%Z && (f64_key z <? f64_key (z_end s))%Z.
Proof. intros H1 H2 H3. unfold inside. by rewrite f64_leb_spec, f64_ltb_spec. Qed.

(** A tiling is met exactly between its ends. *)
Lemma tiles_lookup a l b z : tiles a l b -> num z ->
  is_Some (segment_at l z) <-> (a <= f64_key z < b)%Z.
Proof.
  intros Ht Hz. revert a Ht. induction l as [|s l IH]; intros a; cbn [tiles].
  - intros ->. split; [by intros [? [=]] | lia].
  - intros (H1 & H2 & H3 & H4 & Hl). unfold segment_at. cbn [List.find]. fold (segment_at l z). fold (inside s z).
    rewrite inside_key by done. pose proof (tiles_le _ _ _ Hl).
    destruct (Z.leb_spec (f64_key (z_start s)) (f64_key z)), (Z.ltb_spec (f64_key z) (f64_key (z_end s))); cbn [andb];
      rewrite ?(IH _ Hl); try lia; split; try lia; by eexists.
Qed.

(** The height found at a position, up to the sign of zero. *)
Definition height_is (l : list HeightProfileSegment) (z h : f64) : Prop :=
  exists s, segment_at l z = Some s /\ f64_eqb (seg_height s) h = true.

Lemma eqb_refl x : num x -> f64_eqb x x = true.
Proof. intros Hx. by apply f64_eqb_key. Qed.

Lemma eqb_trans x y z : f64_eqb x y = true -> f64_eqb y z = true -> f64_eqb x z = true.
Proof. intros (H1 & H2 & H3)%f64_eqb_key (H4 & H5 & H6)%f64_eqb_key. apply f64_eqb_key. split_and!; [done.. | congruence]. Qed.

Lemma segment_at_app l1 l2 z :
  segment_at (l1 ++ l2) z = match segment_at l1 z with Some s => Some s | None => segment_at l2 z end.
Proof. apply find_app. Qed.

(** Extending a tiling by one interval. *)
Lemma push_tiles a l b start stop height :
  tiles a l b -> num start -> num stop -> num height -> f64_key start = b -> (b < f64_key stop)%Z ->
  tiles a (push_profile_segment l start stop height) (f64_key stop) /\
  forall z, num z ->
    ((f64_key z < b)%Z -> forall h, height_is l z h -> height_is (push_profile_segment l start stop height) z h) /\
    ((b <= f64_key z < f64_key stop)%Z -> height_is (push_profile_segment l start stop height) z height).
Proof.
  intros Ht Hs He Hh Hb Hlt. unfold push_profile_segment.
  rewrite f64_leb_spec, (proj2 (Z.leb_gt _ _)) by (done || lia).
  set (fresh := {| z_start := start; z_end := stop; seg_height := height |}).
  assert (Hfresh : tiles a (l ++ [fresh]) (f64_key stop) /\ forall z, num z ->
    ((f64_key z < b)%Z -> forall h, height_is l z h -> height_is (l ++ [fresh]) z h) /\
    ((b <= f64_key z < f64_key stop)%Z -> height_is (l ++ [fresh]) z height)).
  { split; [apply tiles_app; exists b; split; [done |]; cbn; by split_and! |]. intros z Hz. split.
    - intros _ h (s & Hat & Hsh). exists s. split; [|done]. by rewrite segment_at_app, Hat.
    - intros Hin. exists fresh. split; [|by apply eqb_refl]. rewrite segment_at_app.
      destruct (segment_at l z) as [s|] eqn:Hat.
      + assert (is_Some (segment_at l z)) as Hsome%(tiles_lookup a l b z Ht Hz) by (by eexists). lia.
      + unfold segment_at. cbn [List.find]. fold (inside fresh z). rewrite inside_key by done.
        cbn [z_start z_end fresh]. rewrite (proj2 (Z.leb_le _ _)), (proj2 (Z.ltb_lt _ _)) by lia. done. }
  destruct (last l) as [s|] eqn:Hlast; [|exact Hfresh].
  destruct (f64_eqb (seg_height s) height && f64_eqb (z_end s) start) eqn:Hm; [|exact Hfresh]. clear Hfresh.
  apply andb_true_iff in Hm as [Hhs _]. apply last_Some in Hlast as [l' ->]. rewrite removelast_last.
  apply tiles_app in Ht as (c & Hl' & Hsnoc). cbn [tiles] in Hsnoc. destruct Hsnoc as (N1 & N2 & Hc & Hcb & Hend).
  set (longer := {| z_start := z_start s; z_end := stop; seg_height := seg_height s |}).
  split; [apply tiles_app; exists c; split; [done |]; cbn; split_and!; (done || lia) |]. intros z Hz.
  assert (Hlonger : (c <= f64_key z < f64_key stop)%Z -> segment_at (l' ++ [longer]) z = Some longer).
  { intros Hin. rewrite segment_at_app. destruct (segment_at l' z) as [s'|] eqn:Hat.
    - assert (is_Some (segment_at l' z)) as Hsome%(tiles_lookup a l' c z Hl' Hz) by (by eexists). lia.
    - unfold segment_at. cbn [List.find]. fold (inside longer z). rewrite inside_key by done.
      cbn [z_start z_end longer]. rewrite (proj2 (Z.leb_le _ _)), (proj2 (Z.ltb_lt _ _)) by lia. done. }
  split.
  - intros Hzb h (s' & Hat & Hsh). rewrite segment_at_app in Hat. destruct (segment_at l' z) as [s''|] eqn:Hat'.
    + injection Hat as <-. exists s''. split; [|done]. by rewrite segment_at_app, Hat'.
    + unfold segment_at in Hat. cbn [List.find] in Hat. fold (inside s z) in Hat. rewrite inside_key in Hat by done.
      destruct (Z.leb_spec (f64_key (z_start s)) (f64_key z)), (Z.ltb_spec (f64_key z) (f64_key (z_end s)));
        cbn [andb] in Hat; try done. injection Hat as <-. exists longer. split; [apply Hlonger; lia | done].
  - intros Hin. exists longer. split; [apply Hlonger; lia | exact Hhs].
Qed.

(** Retained segments: in order from one position to another, with gaps. *)
Fixpoint laid (c : Z) (retained : list HeightProfileSegment) (d : Z) : Prop :=
  match retained with
  | [] => c = d
  | s :: rest =>
      num (z_start s) /\ num (z_end s) /\ num (seg_height s) /\
      (c <= f64_key (z_start s) <= f64_key (z_end s))%Z /\ laid (f64_key (z_end s)) rest d
  end.

Lemma laid_app c l1 l2 e : laid c (l1 ++ l2) e <-> exists d, laid c l1 d /\ laid d l2 e.
Proof.
  revert c. induction l1 as [|s l1 IH]; intros c; cbn [app laid].
  - split; [intros H; by exists c | by intros (d & -> & H)].
  - rewrite IH. split.
    + intros (H1 & H2 & H3 & [H4 H4'] & d & H5 & H6). exists d. by split_and!.
    + intros (d & (H1 & H2 & H3 & [H4 H4'] & H5) & H6). split_and!; [done.. |]. by exists d.
Qed.

Lemma laid_le c l d : laid c l d -> (c <= d)%Z.
Proof. revert c. induction l as [|s l IH]; intros c; cbn [laid]; [lia |]. intros (_ & _ & _ & H & Hl). apply IH in Hl. lia. Qed.

Lemma laid_outside c l d z : laid c l d -> num z -> (f64_key z < c \/ d <= f64_key z)%Z -> segment_at l z = None.
Proof.
  revert c. induction l as [|s l IH]; intros c; cbn [laid]; [done |]. intros (H1 & H2 & _ & H3 & Hl) Hz Hout.
  unfold segment_at. cbn [List.find]. fold (segment_at l z). fold (inside s z). rewrite inside_key by done.
  pose proof (laid_le _ _ _ Hl).
  destruct (Z.leb_spec (f64_key (z_start s)) (f64_key z)), (Z.ltb_spec (f64_key z) (f64_key (z_end s))); cbn [andb];
    try lia; apply (IH _ Hl Hz); lia.
Qed.

(** The height of the retained segment at a position, or the base height. *)
Definition retained_height (retained : list HeightProfileSegment) (base z : f64) : f64 :=
  match segment_at retained z with Some s => seg_height s | None => base end.

Lemma retained_height_cons s l base z d :
  laid (f64_key (z_end s)) l d -> num (z_start s) -> num (z_end s) -> num z ->
  (f64_key (z_start s) <= f64_key (z_end s))%Z ->
  retained_height (s :: l) base z =
    if (f64_key z <? f64_key (z_start s))%Z then base
    else if (f64_key z <? f64_key (z_end s))%Z then seg_height s else retained_height l base z.
Proof.
  intros Hl H1 H2 Hz Hle. unfold retained_height, segment_at. cbn [List.find]. fold (segment_at l z). fold (inside s z).
  rewrite inside_key by done.
  destruct (Z.leb_spec (f64_key (z_start s)) (f64_key z)), (Z.ltb_spec (f64_key z) (f64_key (z_end s))),
    (Z.ltb_spec (f64_key z) (f64_key (z_start s))); cbn [andb]; try lia; try done.
  rewrite (laid_outside _ _ _ z Hl Hz) by lia. done.
Qed.

(** A tiling that extends another by given heights. *)
Definition extends (a b : Z) (l : list HeightProfileSegment) (c : Z) (l' : list HeightProfileSegment) (h : f64 -> f64) : Prop :=
  tiles a l' c /\
  forall z, num z ->
    ((f64_key z < b)%Z -> forall k, height_is l z k -> height_is l' z k) /\
    ((b <= f64_key z < c)%Z -> height_is l' z (h z)).

Lemma extends_profile_trans a b c d l1 l2 l3 h1 h2 h :
  (b <= c)%Z -> extends a b l1 c l2 h1 -> extends a c l2 d l3 h2 ->
  (forall z, num z -> (b <= f64_key z < c)%Z -> h z = h1 z) ->
  (forall z, num z -> (c <= f64_key z < d)%Z -> h z = h2 z) ->
  extends a b l1 d l3 h.
Proof.
  intros Hbc [T1 H1] [T2 H2] E1 E2. split; [done |]. intros z Hz. destruct (H1 z Hz) as [K1 N1], (H2 z Hz) as [K2 N2]. split.
  - intros Hlt k Hk. apply K2; [lia |]. by apply K1.
  - intros Hin. destruct (Z.ltb_spec (f64_key z) c).
    + rewrite E1 by (done || lia). apply K2; [lia |]. apply N1. lia.
    + rewrite E2 by (done || lia). apply N2. lia.
Qed.

(** Pushing an interval that may be empty. *)
Lemma push_extends a l b start stop height :
  tiles a l b -> num start -> num stop -> num height -> f64_key start = b -> (b <= f64_key stop)%Z ->
  extends a b l (f64_key stop) (push_profile_segment l start stop height) (fun _ => height).
Proof.
  intros Ht Hs He Hh Hb Hle. destruct (Z.eq_dec b (f64_key stop)) as [Heq|Hne].
  - unfold push_profile_segment. rewrite f64_leb_spec, (proj2 (Z.leb_le _ _)) by (done || lia).
    split; [by rewrite <-Heq |]. intros z Hz. split; [done | lia].
  - apply push_tiles; (done || lia).
Qed.

Lemma gap_extends a l b cursor start base :
  tiles a l b -> num cursor -> num start -> num base -> f64_key cursor = b -> (b <= f64_key start)%Z ->
  extends a b l (f64_key start) (if f64_ltb cursor start then push_profile_segment l cursor start base else l) (fun _ => base).
Proof.
  intros Ht Hc Hs Hb Hkey Hle. rewrite f64_ltb_spec by done.
  destruct (Z.ltb_spec (f64_key cursor) (f64_key start)); [by apply push_extends |].
  assert (f64_key start = b) as -> by lia. split; [done |]. intros z Hz. split; [done | lia].
Qed.

Lemma fill_extends base retained l cursor d :
  num base -> num cursor -> tiles 0 l (f64_key cursor) -> laid (f64_key cursor) retained d ->
  let st := foldl (fill_segment base) (l, cursor) retained in
  num st.2 /\ f64_key st.2 = d /\ extends 0 (f64_key cursor) l d st.1 (retained_height retained base).
Proof.
  intros Hb. revert l cursor. induction retained as [|s retained IH]; intros l cursor Hc Ht; cbn [laid foldl].
  - intros Hd. cbn [fst snd]. split_and!; [done | done |]. split; [by rewrite <-Hd |]. intros z Hz. split; [done | lia].
  - intros (H1 & H2 & H3 & [H4 H4'] & Hl). cbv zeta.
    pose proof (gap_extends _ _ _ cursor (z_start s) base Ht Hc H1 Hb eq_refl H4) as Hgap.
    unfold fill_segment at 2 4 6. set (l1 := if f64_ltb cursor (z_start s) then _ else l) in *.
    pose proof (push_extends 0 l1 _ (z_start s) (z_end s) (seg_height s) (proj1 Hgap) H1 H2 H3 eq_refl H4') as Hseg.
    destruct (IH _ (z_end s) H2 (proj1 Hseg) Hl) as (Hn & Hk & Hrest).
    split_and!; [exact Hn | exact Hk |]. pose proof (laid_le _ _ _ Hl).
    set (upto := fun z => if (f64_key z <? f64_key (z_start s))%Z then base else seg_height s).
    set (all := fun z => if (f64_key z <? f64_key (z_end s))%Z then upto z else retained_height retained base z).
    assert (Hall : extends 0 (f64_key cursor) l d (foldl (fill_segment base)
      (push_profile_segment l1 (z_start s) (z_end s) (seg_height s), z_end s) retained).1 all).
    { assert (Hupto : extends 0 (f64_key cursor) l (f64_key (z_end s))
        (push_profile_segment l1 (z_start s) (z_end s) (seg_height s)) upto).
      { apply (extends_profile_trans 0 _ _ _ l l1 _ _ _ upto H4 Hgap Hseg); intros z _ Hz; unfold upto;
          destruct (Z.ltb_spec (f64_key z) (f64_key (z_start s))); (lia || reflexivity). }
      apply (extends_profile_trans 0 (f64_key cursor) (f64_key (z_end s)) _ l _ _ _ _ all ltac:(lia) Hupto Hrest); intros z _ Hz; unfold all;
        destruct (Z.ltb_spec (f64_key z) (f64_key (z_end s))); (lia || reflexivity). }
    destruct Hall as [Htiles Hat]. split; [exact Htiles |]. intros z Hz. destruct (Hat z Hz) as [K N]. split; [exact K |].
    intros Hin. rewrite (retained_height_cons s retained base z d Hl H1 H2 Hz H4').
    specialize (N Hin). unfold all, upto in N.
    destruct (Z.ltb_spec (f64_key z) (f64_key (z_start s))), (Z.ltb_spec (f64_key z) (f64_key (z_end s))); try lia; exact N.
Qed.

(** *** The retained ranges *)

(** Subtraction of the raft offset keeps the order of the bounds, as the rounding of IEEE 754
    does. *)
Definition shift_monotone (raft_offset : f64) : Prop :=
  forall x y, f64_is_finite x = true -> f64_is_finite y = true -> (f64_key x <= f64_key y)%Z ->
    (f64_key (f64_sub x raft_offset) <= f64_key (f64_sub y raft_offset))%Z.

Definition range_low (raft_offset : f64) (r : f64 * f64 * Z * f64) : f64 := f64_max (f64_sub r.1.1.1 raft_offset) F0.
Definition range_high (raft_offset : f64) (r : f64 * f64 * Z * f64) : f64 := f64_sub r.1.1.2 raft_offset.

(** A range covers a position of the object. *)
Definition range_covers (raft_offset z : f64) (r : f64 * f64 * Z * f64) : bool :=
  f64_leb (range_low raft_offset r) z && f64_ltb z (range_high raft_offset r).

(** The height of the first of the ranges that cover a position, or the base height. *)
Definition ranges_height (raft_offset : f64) (ranges : list (f64 * f64 * Z * f64)) (base z : f64) : f64 :=
  match List.find (range_covers raft_offset z) ranges with Some r => r.2 | None => base end.

Definition range_valid (r : f64 * f64 * Z * f64) : Prop :=
  f64_is_finite r.1.1.1 = true /\ f64_is_finite r.1.1.2 = true /\
  (f64_key r.1.1.1 <= f64_key r.1.1.2)%Z /\ num r.2.

Section retain.
Context (raft_offset base first_height : f64).
Context (Hraft : f64_is_finite raft_offset = true) (Hshift : shift_monotone raft_offset).
Context (Hfirst : num first_height) (Hpos : (0 < f64_key first_height)%Z).

Notation low := (range_low raft_offset).
Notation high := (range_high raft_offset).
Notation covers_at z := (range_covers raft_offset z).

Lemma num_F0 : num F0. Proof. reflexivity. Qed.
Lemma key_F0 : f64_key F0 = 0%Z. Proof. reflexivity. Qed.

Lemma low_key r : range_valid r -> num (low r) /\ f64_key (low r) = Z.max (f64_key (f64_sub r.1.1.1 raft_offset)) 0.
Proof using Hraft.
  intros (H1 & _). destruct (f64_max_key (f64_sub r.1.1.1 raft_offset) F0) as [Hn Hk]; [by apply f64_sub_not_nan | done |].
  split; [exact Hn |]. unfold range_low. by rewrite Hk.
Qed.

Lemma high_num r : range_valid r -> num (high r).
Proof using Hraft. intros (_ & H & _). by apply f64_sub_not_nan. Qed.

Lemma low_high r : range_valid r -> (0 < f64_key (high r))%Z -> (f64_key (low r) <= f64_key (high r))%Z.
Proof using Hraft Hshift.
  intros Hv Hh. rewrite (proj2 (low_key r Hv)). destruct Hv as (H1 & H2 & H3 & _).
  pose proof (Hshift _ _ H1 H2 H3). unfold range_high in *. lia.
Qed.

Lemma covers_key r z : range_valid r -> num z ->
  range_covers raft_offset z r = (f64_key (low r) <=? f64_key z)%Z && (f64_key z <? f64_key (high r))%Z.
Proof using Hraft.
  intros Hv Hz. unfold range_covers. rewrite f64_leb_spec, f64_ltb_spec; [done | done | by apply high_num | by apply low_key | done].
Qed.

Definition first_segment : HeightProfileSegment := {| z_start := F0; z_end := first_height; seg_height := first_height |}.

(** What is retained of the ranges done. *)
Record retained_ok (ranges : list (f64 * f64 * Z * f64)) (st : list HeightProfileSegment * f64) : Prop := {
  rt_num : num st.2;
  rt_laid : laid 0 st.1 (f64_key st.2);
  rt_first : (f64_key first_height <= f64_key st.2)%Z;
  rt_last : f64_key st.2 = f64_key first_height \/ exists r, r ∈ ranges /\ f64_key (high r) = f64_key st.2;
  rt_high : forall r, r ∈ ranges -> (f64_key (high r) <= f64_key st.2)%Z;
  rt_low : forall z, num z -> (0 <= f64_key z < f64_key first_height)%Z -> segment_at st.1 z = Some first_segment;
  rt_height : forall z, num z -> (f64_key first_height <= f64_key z < f64_key st.2)%Z ->
    retained_height st.1 base z = ranges_height raft_offset ranges base z
}.

Lemma find_none_all {A} (p : A -> bool) l : (forall x, x ∈ l -> p x = false) -> List.find p l = None.
Proof.
  induction l as [|x l IH]; intros H; [done |]. cbn. rewrite (H x) by left. apply IH. intros y Hy. apply H. by right.
Qed.

(** Within the coverage, a later range changes nothing. *)
Lemma later_range_hidden ranges r st z :
  retained_ok ranges st -> Forall range_valid ranges -> range_valid r ->
  (forall r', r' ∈ ranges -> (f64_key (low r') <= f64_key (low r))%Z) -> num z ->
  (f64_key first_height <= f64_key z < f64_key st.2)%Z ->
  ranges_height raft_offset (ranges ++ [r]) base z = ranges_height raft_offset ranges base z.
Proof using Hraft.
  intros Hok Hall Hv Hlow Hz Hin. unfold ranges_height. rewrite find_app.
  destruct (List.find (covers_at z) ranges) as [r'|] eqn:Hf; [done |].
  destruct (List.find (covers_at z) [r]) as [r'|] eqn:Hr; [|done]. exfalso.
  cbn [List.find] in Hr. destruct (range_covers raft_offset z r) eqn:Hc; [|done]. clear Hr.
  rewrite covers_key in Hc by done. apply andb_true_iff in Hc as [Hlo%Z.leb_le _].
  destruct (rt_last _ _ Hok) as [Hlast | (e & He & Hlast)]; [lia |].
  assert (Hve : range_valid e) by (rewrite Forall_forall in Hall; by apply Hall).
  assert (Hcov : range_covers raft_offset z e = true).
  { rewrite covers_key by done. apply andb_true_iff. specialize (Hlow e He). split; [apply Z.leb_le | apply Z.ltb_lt]; lia. }
  pose proof (find_None_false _ _ e Hf He) as Hno. cbv beta in Hno. congruence.
Qed.

Lemma retain_range_eq retained cov r :
  retain_range raft_offset (retained, cov) r =
    if f64_leb (high r) F0 then (retained, cov)
    else if f64_leb (high r) cov then (retained, cov)
    else (retained ++ [{| z_start := f64_max (low r) cov; z_end := high r; seg_height := r.2 |}], high r).
Proof. by destruct r as [[[min_z max_z] index] height]. Qed.

(** A range within the coverage is dropped. *)
Lemma retain_dropped ranges r st :
  retained_ok ranges st -> Forall range_valid ranges -> range_valid r ->
  (forall r', r' ∈ ranges -> (f64_key (low r') <= f64_key (low r))%Z) ->
  (f64_key (high r) <= f64_key st.2)%Z -> retained_ok (ranges ++ [r]) st.
Proof using Hraft.
  intros Hok Hall Hv Hlow Hle. pose proof (later_range_hidden ranges r st) as Hhid.
  destruct (Hok) as [K1 K2 K3 K4 K5 K6 K7]. constructor; [done.. | | | done |].
  - destruct K4 as [K4 | (e & He & K4)]; [by left |]. right. exists e. split; [|done]. apply elem_of_app. by left.
  - intros r' [Hr' | ->%list_elem_of_singleton]%elem_of_app; [by apply K5 | done].
  - intros z Hz Hin. rewrite Hhid by done. by apply K7.
Qed.

(** A range that reaches above the coverage is retained above it. *)
Lemma retain_kept ranges r retained cov :
  retained_ok ranges (retained, cov) -> Forall range_valid ranges -> range_valid r ->
  (forall r', r' ∈ ranges -> (f64_key (low r') <= f64_key (low r))%Z) ->
  (f64_key cov < f64_key (high r))%Z ->
  retained_ok (ranges ++ [r])
    (retained ++ [{| z_start := f64_max (low r) cov; z_end := high r; seg_height := r.2 |}], high r).
Proof using Hraft Hshift Hpos.
  intros Hok Hall Hv Hlow Hlt. pose proof (later_range_hidden ranges r (retained, cov)) as Hhid.
  pose proof (high_num r Hv) as Hhn. destruct (low_key r Hv) as [Hln _].
  destruct (Hok) as [K1 K2 K3 K4 K5 K6 K7]. cbn [fst snd] in *.
  assert (Hlh : (f64_key (low r) <= f64_key (high r))%Z) by (apply low_high; [done | lia]).
  destruct (f64_max_key (low r) cov Hln K1) as [Hmn Hmk].
  set (fresh := {| z_start := _ |}). constructor; cbn [fst snd].
  - done.
  - apply laid_app. exists (f64_key cov). split; [done |]. cbn. destruct Hv as (_ & _ & _ & Hh). split_and!; (done || lia).
  - lia.
  - right. exists r. split; [|done]. apply elem_of_app. right. by apply list_elem_of_singleton.
  - intros r' [Hr' | ->%list_elem_of_singleton]%elem_of_app; [|done]. apply K5 in Hr'. lia.
  - intros z Hz Hin. rewrite segment_at_app. by rewrite K6.
  - intros z Hz Hin. destruct (Z.ltb_spec (f64_key z) (f64_key cov)).
    + rewrite Hhid by (done || lia). rewrite <-K7 by (done || lia). unfold retained_height.
      rewrite segment_at_app. destruct (segment_at retained z) as [s|]; [done |].
      unfold segment_at. cbn [List.find]. fold (inside fresh z). rewrite inside_key by done. cbn [z_start z_end fresh].
      by rewrite (proj2 (Z.leb_gt _ _)) by lia.
    + assert (Hnone : List.find (covers_at z) ranges = None).
      { apply find_none_all. intros e He. assert (Hve : range_valid e) by (rewrite Forall_forall in Hall; by apply Hall).
        rewrite covers_key by done. apply andb_false_iff. right. apply Z.ltb_ge. specialize (K5 e He). lia. }
      unfold ranges_height, retained_height. rewrite find_app, Hnone, segment_at_app.
      rewrite (laid_outside _ _ _ z K2 Hz) by lia. unfold segment_at. cbn [List.find]. fold (inside fresh z).
      rewrite covers_key, inside_key by done. cbn [z_start z_end fresh].
      replace (f64_key (f64_max (low r) cov) <=? f64_key z)%Z with (f64_key (low r) <=? f64_key z)%Z; [by destruct (_ && _) |].
      apply Bool.eq_true_iff_eq. rewrite !Z.leb_le. lia.
Qed.

Lemma retain_step ranges r st :
  retained_ok ranges st -> Forall range_valid ranges -> range_valid r ->
  (forall r', r' ∈ ranges -> (f64_key (low r') <= f64_key (low r))%Z) ->
  retained_ok (ranges ++ [r]) (retain_range raft_offset st r).
Proof using Hraft Hshift Hpos.
  intros Hok Hall Hv Hlow. destruct st as [retained cov]. pose proof (rt_num _ _ Hok) as Hcn.
  pose proof (rt_first _ _ Hok) as Hfc. cbn [snd] in *. rewrite retain_range_eq.
  rewrite !f64_leb_spec by (done || by apply high_num).
  destruct (Z.leb_spec (f64_key (high r)) (f64_key F0)).
  - apply retain_dropped; try done. rewrite key_F0 in *. cbn [snd]. lia.
  - destruct (Z.leb_spec (f64_key (high r)) (f64_key cov)); [by apply retain_dropped | by apply retain_kept].
Qed.

Lemma retain_all ranges :
  StronglySorted (fun r r' => f64_key (low r) <= f64_key (low r'))%Z ranges -> Forall range_valid ranges ->
  retained_ok ranges (foldl (retain_range raft_offset) ([first_segment], first_height) ranges).
Proof using Hraft Hshift Hpos Hfirst.
  induction ranges as [|r ranges IH] using rev_ind; intros Hs Hall.
  - cbn [foldl]. constructor; cbn [fst snd]; try done.
    + cbn [laid first_segment z_start z_end seg_height]. rewrite key_F0. split_and!; (done || lia).
    + by left.
    + by intros r ?%not_elem_of_nil.
    + intros z Hz Hin. unfold segment_at. cbn [List.find]. fold (inside first_segment z).
      rewrite inside_key by done. cbn [z_start z_end first_segment]. rewrite key_F0.
      by rewrite (proj2 (Z.leb_le _ _)), (proj2 (Z.ltb_lt _ _)) by lia.
    + intros z Hz Hin. lia.
  - apply StronglySorted_app in Hs as (Hle & Hs & _). apply Forall_app in Hall as [Hall Hv]. apply Forall_inv in Hv.
    rewrite foldl_app. cbn [foldl]. apply retain_step; [by apply IH | exact Hall | exact Hv |].
    intros r' Hr'. apply Hle; [done | by apply list_elem_of_singleton].
Qed.
End retain.

(** *** The composed profile *)

(** The height of the layers at a position: that of the first layer below its top, then that
    of the first range, in the order of their bounds, that covers the position, or else the
    base height. *)
Definition profile_height (ranges : list LayerConfigRange) (raft_offset base first_height z : f64) : f64 :=
  if f64_ltb z first_height then first_height else ranges_height raft_offset (height_ranges ranges) base z.

Lemma height_ranges_valid ranges :
  (forall r, r ∈ ranges -> valid_layer_range_interval (lr_min_z r) (lr_max_z r) = true) ->
  Forall range_valid (height_ranges ranges).
Proof.
  intros Hv. apply Forall_forall. intros h Hh. unfold height_ranges in Hh. apply elem_of_sort_by in Hh.
  apply list_elem_of_omap in Hh as (r & Hr & Hh). apply Hv in Hr. unfold height_range in Hh.
  destruct (values (lr_delta r) !! "layer_height") as [[]|]; try done.
  destruct (usable_height x) eqn:Hx; [|done]. injection Hh as <-. unfold range_valid. cbn [fst snd].
  unfold valid_layer_range_interval in Hr. rewrite !andb_true_iff in Hr. destruct Hr as [[[H1 H2] _] H3].
  apply f64_ltb_key in H3 as (_ & _ & H3). unfold usable_height in Hx. apply andb_true_iff in Hx as [Hx _].
  split_and!; [done | done | lia | by apply f64_finite_not_nan].
Qed.

Lemma height_ranges_sorted raft_offset ranges :
  f64_is_finite raft_offset = true -> shift_monotone raft_offset -> Forall range_valid (height_ranges ranges) ->
  StronglySorted (fun r r' => f64_key (range_low raft_offset r) <= f64_key (range_low raft_offset r'))%Z (height_ranges ranges).
Proof.
  intros Hraft Hshift Hall.
  assert (Hs : sorted_by height_range_leb (height_ranges ranges)).
  { apply sort_by_sorted; [intros x y z; apply rust_leb_trans | intros x y; apply rust_leb_total]. }
  induction Hs as [|r l Hl IH Hr]; [constructor |]. apply Forall_cons in Hall as [Hv Hall]. constructor; [by apply IH |].
  rewrite Forall_forall in Hr, Hall |- *. intros r' Hr'. specialize (Hr r' Hr'). specialize (Hall r' Hr').
  rewrite (proj2 (low_key _ Hraft r Hv)), (proj2 (low_key _ Hraft r' Hall)).
  assert (Hmin : (f64_total_key r.1.1.1 <= f64_total_key r'.1.1.1)%Z).
  { destruct r as [[[a b] i] h], r' as [[[a' b'] i'] h']. unfold height_range_leb, height_range_key in Hr.
    cbn [rust_leb pair_ord] in Hr. unfold pair_leb in Hr. cbn [fst snd] in Hr |- *.
    destruct (rust_leb (f64_total_key a) (f64_total_key a')) eqn:Hle; [|done]. by apply Z.leb_le. }
  apply f64_total_key_order in Hmin. destruct Hv as (H1 & _), Hall as (H2 & _).
  pose proof (Hshift _ _ H1 H2 Hmin). lia.
Qed.

Lemma usable_key h : usable_height h = true -> num h /\ (0 < f64_key h)%Z.
Proof.
  unfold usable_height. intros [_ H]%andb_true_iff. apply f64_ltb_key in H as (_ & Hn & Hk). by rewrite key_F0 in Hk.
Qed.

Lemma compose_profile_exact ranges object_height raft_offset base first_height :
  f64_is_finite raft_offset = true -> shift_monotone raft_offset ->
  (forall r, r ∈ ranges -> valid_layer_range_interval (lr_min_z r) (lr_max_z r) = true) ->
  usable_height object_height = true -> usable_height base = true -> usable_height first_height = true ->
  exists top, num top /\ (f64_key object_height <= f64_key top)%Z /\
    tiles 0 (compose_profile ranges object_height raft_offset base first_height) (f64_key top) /\
    forall z, num z -> (0 <= f64_key z < f64_key top)%Z ->
      height_is (compose_profile ranges object_height raft_offset base first_height) z
        (profile_height ranges raft_offset base first_height z).
Proof.
  intros Hraft Hshift Hv [Hon Hop]%usable_key [Hbn _]%usable_key [Hfn Hfp]%usable_key.
  pose proof (height_ranges_valid ranges Hv) as Hall.
  pose proof (height_ranges_sorted raft_offset ranges Hraft Hshift Hall) as Hs.
  pose proof (retain_all raft_offset base first_height Hraft Hshift Hfn Hfp _ Hs Hall) as Hok.
  unfold compose_profile. fold (first_segment first_height).
  destruct (foldl (retain_range raft_offset) _ _) as [retained cov].
  destruct Hok as [K1 K2 K3 _ K5 K6 K7]. cbn [fst snd] in *.
  unfold fill_profile_gaps. destruct (f64_max_key object_height cov Hon K1) as [Htn Htk].
  set (top := f64_max object_height cov) in *. exists top.
  pose proof (fill_extends base retained [] F0 (f64_key cov) Hbn num_F0 eq_refl K2) as Hfill. cbv zeta in Hfill.
  destruct (foldl (fill_segment base) ([], F0) retained) as [l cursor]. cbn [fst snd] in Hfill.
  destruct Hfill as (Hcn & Hck & Hext).
  pose proof (gap_extends 0 l (f64_key cov) cursor top base (proj1 Hext) Hcn Htn Hbn Hck ltac:(lia)) as Hgap.
  rewrite key_F0 in Hext.
  assert (Hgen : extends 0 0 [] (f64_key top) (if f64_ltb cursor top then push_profile_segment l cursor top base else l)
    (retained_height retained base)).
  { apply (extends_profile_trans 0 0 (f64_key cov) _ [] l _ _ _ (retained_height retained base) ltac:(lia) Hext Hgap); [done |].
    intros z Hz Hin. unfold retained_height. by rewrite (laid_outside _ _ _ z K2 Hz) by lia. }
  destruct Hgen as [Htiles Hat]. split_and!; [done | lia | exact Htiles |]. intros z Hz Hin.
  destruct (Hat z Hz) as [_ Hh]. specialize (Hh Hin).
  replace (profile_height ranges raft_offset base first_height z) with (retained_height retained base z); [exact Hh |].
  unfold profile_height. rewrite f64_ltb_spec by done.
  destruct (Z.ltb_spec (f64_key z) (f64_key first_height)).
  - unfold retained_height. by rewrite K6 by (done || lia).
  - destruct (Z.ltb_spec (f64_key z) (f64_key cov)); [apply K7; (done || lia) |].
    unfold retained_height, ranges_height. rewrite (laid_outside _ _ _ z K2 Hz) by lia.
    rewrite find_none_all; [done |]. intros r Hr. rewrite Forall_forall in Hall.
    rewrite covers_key by (done || by apply Hall). apply andb_false_iff. right. apply Z.ltb_ge. specialize (K5 r Hr). lia.
Qed.

(** [C22].  The profile of an object lies end to end from zero to a top at or above the object, and
    the height of its layers at every position is the height of the first layer below its top,
    then that of the first range, in the order of their bounds, that covers the position, or
    the resolved base height.  So no position is left without a height, and where ranges
    overlap the one that starts first decides. *)
Theorem height_profile_exact {T : TypedConfig} (registry : ConfigSchemaRegistry) (debug_string : string -> string)
    (scoped : ScopedConfig) (object_id : string) (object_height raft_offset : f64) (expansion : ExpansionContext)
    (profile : list HeightProfileSegment)
    (Hranges : forall r, r ∈ ranges_for scoped object_id -> valid_layer_range_interval (lr_min_z r) (lr_max_z r) = true)
    (Hraft : f64_is_finite raft_offset = true) (Hshift : shift_monotone raft_offset)
    (Hquery : query_layer_height_profile registry debug_string scoped object_id object_height raft_offset expansion =
              Done (Ok profile)) :
  exists cfg top,
    resolve_scope_stack registry debug_string scoped (object_target object_id) expansion = Done (Ok cfg) /\
    f64_leb object_height top = true /\ tiles 0 profile (f64_key top) /\
    forall z, f64_leb F0 z = true -> f64_ltb z top = true ->
      height_is profile z (profile_height (ranges_for scoped object_id) raft_offset (layer_height cfg) (first_layer_height cfg) z).
Proof.
  unfold query_layer_height_profile, validate_height in Hquery.
  destruct (usable_height object_height) eqn:Ho; [|done].
  destruct (resolve_scope_stack _ _ _ _ _) as [[cfg|e]| |]; cbn [exec_bind result_bind] in Hquery; try done.
  destruct (usable_height (layer_height cfg)) eqn:Hb; [|done].
  destruct (usable_height (first_layer_height cfg)) eqn:Hf; [|done]. cbn [result_bind] in Hquery. injection Hquery as <-.
  destruct (compose_profile_exact _ object_height raft_offset (layer_height cfg) (first_layer_height cfg) Hraft Hshift Hranges Ho Hb Hf)
    as (top & Htn & Hle & Htiles & Hat). apply usable_key in Ho as [Hon _].
  exists cfg, top. split_and!; [done | | exact Htiles |].
  - by apply f64_leb_key.
  - intros z (_ & Hz & Hlo)%f64_leb_key (_ & _ & Hhi)%f64_ltb_key. apply Hat; [done |]. rewrite key_F0 in Hlo. lia.
Qed.

Lemma shift_monotone_zero : shift_monotone F0.
Proof. intros x y Hx Hy Hle. by rewrite !f64_sub_zero_key. Qed.

(** Two overlapping ranges over a base of 0.2: 0.3 from 1 to 3, 0.1 from 2 to 4. *)
Definition height_range_of (i : Z) (low high height : string) : LayerConfigRange :=
  {| lr_scope := ScopeLayerRange "part" i; lr_min_z := lit64 low; lr_max_z := lit64 high;
     lr_delta := {| values := {[ "layer_height" := CvFloat (lit64 height) ]} |} |}.

Definition overlapping_scopes : ScopedConfig :=
  {| deltas := ∅; layer_ranges := {[ "part" := [height_range_of 0 "1" "3" "0.3"; height_range_of 1 "2" "4" "0.1"] ]} |}.

Definition overlapping_profile : list HeightProfileSegment :=
  [{| z_start := F0; z_end := lit64 "1"; seg_height := lit64 "0.2" |};
   {| z_start := lit64 "1"; z_end := lit64 "3"; seg_height := lit64 "0.3" |};
   {| z_start := lit64 "3"; z_end := lit64 "4"; seg_height := lit64 "0.1" |};
   {| z_start := lit64 "4"; z_end := lit64 "5"; seg_height := lit64 "0.2" |}].

Lemma height_profile_exact_witness :
  query_layer_height_profile example_registry (fun s => s) overlapping_scopes "part" (lit64 "5") F0 example_context =
    Done (Ok overlapping_profile) /\
  exists top, f64_leb (lit64 "5") top = true /\ tiles 0 overlapping_profile (f64_key top).
Proof.
  assert (Hq : query_layer_height_profile example_registry (fun s => s) overlapping_scopes "part" (lit64 "5") F0 example_context =
    Done (Ok overlapping_profile)) by (vm_compute; reflexivity).
  split; [exact Hq |].
  destruct (height_profile_exact example_registry (fun s => s) overlapping_scopes "part" (lit64 "5") F0 example_context
    overlapping_profile) as (cfg & top & _ & Hle & Ht & _).
  - intros r Hr. change (r ∈ [height_range_of 0 "1" "3" "0.3"; height_range_of 1 "2" "4" "0.1"]) in Hr.
    apply elem_of_cons in Hr as [-> | Hr]; [vm_compute; reflexivity |].
    apply list_elem_of_singleton in Hr as ->. vm_compute. reflexivity.
  - reflexivity.
  - apply shift_monotone_zero.
  - exact Hq.
  - exists top. exact (conj Hle Ht).
Defined.
