(* ===== verification/Base64.v ===== *)
(** Base64 of the thumbnail writer ([thumbnail.rs], [encode_base64] and
    [decode_base64]): bytes are [Z] values below 256, and the 32-bit accumulator of
    the decoder wraps as the code's does. *)
From Stdlib Require Import Ascii.
From stdpp Require Import prelude strings list.
From S2P Require Import Prelude.

#[local] Open Scope string_scope.
#[local] Open Scope list_scope.
#[local] Open Scope Z_scope.

Definition is_byte (b : Z) : Prop := 0 <= b < 256.
Definition u32_mask (n : Z) : Z := Z.land n (Z.ones 32).

(** ** Encoding *)

Definition TABLE : string := "ABCDEFGHIJKLMNOPQRSTUVWXYZabcdefghijklmnopqrstuvwxyz0123456789+/".

Definition table_char (i : Z) : ascii := default "000"%char (String.get (Z.to_nat i) TABLE).

(** The three bytes of a chunk, missing ones being zero. *)
Definition combine3 (b0 b1 b2 : Z) : Z := Z.lor (Z.lor (Z.shiftl b0 16) (Z.shiftl b1 8)) b2.

Definition sextet (combined shift : Z) : ascii := table_char (Z.land (Z.shiftr combined shift) 63).

(** [for chunk in data.chunks(3)]. *)
Fixpoint encode_base64 (data : list Z) : string :=
  match data with
  | [] => ""
  | [b0] =>
      let combined := combine3 b0 0 0 in
      String (sextet combined 18) (String (sextet combined 12) "==")
  | [b0; b1] =>
      let combined := combine3 b0 b1 0 in
      String (sextet combined 18) (String (sextet combined 12) (String (sextet combined 6) "="))
  | b0 :: b1 :: b2 :: rest =>
      let combined := combine3 b0 b1 b2 in
      String (sextet combined 18) (String (sextet combined 12)
        (String (sextet combined 6) (String (sextet combined 0) (encode_base64 rest))))
  end.

(** ** Decoding *)

(** The [Debug] rendering of a byte taken as a Unicode scalar below 256. *)
Definition hex_lower (d : Z) : ascii :=
  ascii_of_nat (Z.to_nat (if Z.ltb d 10 then 48 + d else 87 + d)).

Definition unicode_escape (n : Z) : string :=
  "\u{" +:+ (if Z.ltb n 16 then String (hex_lower n) ""
             else String (hex_lower (n / 16)) (String (hex_lower (n mod 16)) "")) +:+ "}".

Definition debug_char (c : ascii) : string :=
  let n := Z.of_nat (nat_of_ascii c) in
  "'" +:+
  (if Z.eqb n 0 then "\0" else if Z.eqb n 9 then "\t" else if Z.eqb n 10 then "\n"
   else if Z.eqb n 13 then "\r" else if Z.eqb n 39 then "\'" else if Z.eqb n 92 then "\\"
   else if Z.ltb n 32 then unicode_escape n
   else if Z.ltb n 127 then String c ""
   else if Z.leb n 160 || Z.eqb n 173 then unicode_escape n
   else String (ascii_of_nat (Z.to_nat (192 + n / 64))) (String (ascii_of_nat (Z.to_nat (128 + n mod 64))) ""))
  +:+ "'".

Definition char_value (c : ascii) : option Z :=
  let n := Z.of_nat (nat_of_ascii c) in
  if Z.leb 65 n && Z.leb n 90 then Some (n - 65)
  else if Z.leb 97 n && Z.leb n 122 then Some (n - 97 + 26)
  else if Z.leb 48 n && Z.leb n 57 then Some (n - 48 + 52)
  else if Z.eqb n 43 then Some 62
  else if Z.eqb n 47 then Some 63
  else None.

(** [acc = (acc << 6) | val] on [u32]. *)
Definition accumulate (acc val : Z) : Z := Z.lor (u32_mask (Z.shiftl acc 6)) val.

Fixpoint decode_loop (s : string) (acc nbits : Z) (buf : list Z) : result (list Z) string :=
  match s with
  | EmptyString => Ok buf
  | String c rest =>
      if Ascii.eqb c "="%char then decode_loop rest acc nbits buf
      else
        match char_value c with
        | None => Err ("invalid base64 character " +:+ debug_char c)
        | Some val =>
            let acc := accumulate acc val in
            let nbits := nbits + 6 in
            if Z.leb 8 nbits then
              let nbits := nbits - 8 in
              decode_loop rest acc nbits (buf ++ [Z.land (Z.shiftr acc nbits) 255])
            else decode_loop rest acc nbits buf
        end
  end.

Definition decode_base64 (s : string) : result (list Z) string := decode_loop s 0 0 [].

(** ** Bit arithmetic *)

Lemma land_ones_mod a n : 0 <= n -> Z.land a (Z.ones n) = a mod 2 ^ n.
Proof. intros. by apply Z.land_ones. Qed.

(** Disjoint bits: [or] is addition. *)
Lemma lor_disjoint_add a b n :
  0 <= n -> 0 <= b < 2 ^ n -> a mod 2 ^ n = 0 -> Z.lor a b = a + b.
Proof.
  intros Hn Hb Ha. rewrite <-Z.add_lor_land.
  assert (Hl : Z.land a b = 0); [|lia].
  apply Z.bits_inj'. intros i Hi. rewrite Z.land_spec, Z.bits_0.
  destruct (Z.lt_ge_cases i n) as [Hlt|Hge].
  - rewrite <-(Z.mod_pow2_bits_low a n i) by done. by rewrite Ha, Z.bits_0.
  - rewrite <-(Z.mod_small b (2 ^ n)) by done.
    rewrite Z.mod_pow2_bits_high by lia. apply andb_false_r.
Qed.

Lemma combine3_value b0 b1 b2 :
  is_byte b0 -> is_byte b1 -> is_byte b2 -> combine3 b0 b1 b2 = b0 * 65536 + b1 * 256 + b2.
Proof.
  unfold is_byte, combine3. intros H0 H1 H2. rewrite !Z.shiftl_mul_pow2 by lia.
  change (2 ^ 16) with 65536. change (2 ^ 8) with 256.
  assert (H01 : Z.lor (b0 * 65536) (b1 * 256) = b0 * 65536 + b1 * 256).
  { apply (lor_disjoint_add _ _ 16); [lia|change (2 ^ 16) with 65536; lia|apply Z.mod_mul; lia]. }
  rewrite H01. apply (lor_disjoint_add _ _ 8); [lia|change (2 ^ 8) with 256; lia|].
  replace (b0 * 65536 + b1 * 256) with ((b0 * 256 + b1) * 2 ^ 8) by lia. apply Z.mod_mul. lia.
Qed.

Lemma sextet_value combined shift :
  0 <= shift -> sextet combined shift = table_char (combined / 2 ^ shift mod 64).
Proof.
  intros Hs. unfold sextet. change 63 with (Z.ones 6). by rewrite land_ones_mod, Z.shiftr_div_pow2.
Qed.

Lemma accumulate_low acc v n :
  0 <= acc -> 0 <= v < 64 -> 0 <= n -> n + 6 <= 32 ->
  0 <= accumulate acc v /\ accumulate acc v mod 2 ^ (n + 6) = acc mod 2 ^ n * 64 + v.
Proof.
  intros Ha Hv Hn Hn32. unfold accumulate, u32_mask. rewrite land_ones_mod by lia.
  rewrite Z.shiftl_mul_pow2 by lia. change (2 ^ 6) with 64.
  assert (Hlow : (acc * 64) mod 2 ^ 32 = (acc mod 2 ^ 26) * 64).
  { change (2 ^ 32) with (2 ^ 26 * 64). apply Z.mul_mod_distr_r; lia. }
  rewrite Hlow, (lor_disjoint_add _ v 6); [|lia|lia|apply Z.mod_mul; lia].
  pose proof (Z.mod_pos_bound acc (2 ^ 26) ltac:(lia)). split; [lia|].
  assert (Hpow : 2 ^ (n + 6) = 2 ^ n * 64) by (rewrite Z.pow_add_r by lia; lia).
  assert (0 < 2 ^ n) by (apply Z.pow_pos_nonneg; lia).
  assert (Hmm : (acc mod 2 ^ 26) mod 2 ^ n = acc mod 2 ^ n).
  { apply Z.mod_mod_divide. exists (2 ^ (26 - n)). rewrite <-Z.pow_add_r by lia. f_equal. lia. }
  rewrite Hpow, <-Hmm. set (x := acc mod 2 ^ 26).
  symmetry. apply (Z.mod_unique _ _ (x / 2 ^ n)).
  - left. pose proof (Z.mod_pos_bound x (2 ^ n) ltac:(lia)). lia.
  - pose proof (Z.div_mod x (2 ^ n) ltac:(lia)). lia.
Qed.

(** The decoder holds [p] in the low [nbits] bits of its accumulator. *)
Definition holds (acc nbits p : Z) : Prop := 0 <= acc /\ acc mod 2 ^ nbits = p.

Lemma decode_step c v rest acc nbits buf p :
  char_value c = Some v -> c <> "="%char -> 0 <= v < 64 -> 0 <= nbits <= 6 -> holds acc nbits p ->
  exists acc',
    if Z.leb 2 nbits
    then decode_loop (String c rest) acc nbits buf =
           decode_loop rest acc' (nbits - 2) (buf ++ [(p * 64 + v) / 2 ^ (nbits - 2)]) /\
         holds acc' (nbits - 2) ((p * 64 + v) mod 2 ^ (nbits - 2))
    else decode_loop (String c rest) acc nbits buf = decode_loop rest acc' (nbits + 6) buf /\
         holds acc' (nbits + 6) (p * 64 + v).
Proof.
  intros Hc Heq Hv Hn [Hacc Hp]. exists (accumulate acc v).
  destruct (accumulate_low acc v nbits) as [Hpos Hlow]; [lia..|]. rewrite Hp in Hlow.
  cbn [decode_loop]. destruct (Ascii.eqb_spec c "="%char) as [|_]; [done|]. rewrite Hc. cbn zeta.
  destruct (Z.leb_spec 2 nbits), (Z.leb_spec 8 (nbits + 6)); try lia; [|done].
  replace (nbits + 6 - 8) with (nbits - 2) by lia.
  rewrite <-Hlow. set (x := accumulate acc v) in *. split; [|split; [done|]].
  - f_equal. f_equal. f_equal. change 255 with (Z.ones 8).
    rewrite land_ones_mod, Z.shiftr_div_pow2 by lia.
    replace (nbits + 6) with (nbits - 2 + 8) by lia. rewrite Z.pow_add_r by lia.
    rewrite Z.rem_mul_r by (try apply Z.pow_nonzero; lia).
    rewrite (Z.mul_comm (2 ^ (nbits - 2))), Z.div_add by (apply Z.pow_nonzero; lia).
    rewrite (Z.div_small (x mod _)); [done|]. apply Z.mod_pos_bound, Z.pow_pos_nonneg; lia.
  - symmetry. apply Z.mod_mod_divide. exists (2 ^ 8). rewrite <-Z.pow_add_r by lia. f_equal. lia.
Qed.

(** Every sextet is printed as a character that reads back as it. *)
Lemma table_char_value i :
  0 <= i < 64 -> char_value (table_char i) = Some i /\ table_char i <> "="%char.
Proof.
  intros Hi.
  assert (Hall : Forall (fun n => char_value (table_char (Z.of_nat n)) = Some (Z.of_nat n) /\
            Ascii.eqb (table_char (Z.of_nat n)) "="%char = false) (seq 0 64))
    by (apply (bool_decide_unpack _); vm_compute; exact I).
  rewrite Forall_forall in Hall. destruct (Hall (Z.to_nat i)) as [Hv He].
  - apply elem_of_seq. lia.
  - rewrite Z2Nat.id in Hv, He by lia. split; [done|]. by apply Ascii.eqb_neq.
Qed.

(** One printed sextet: the first of a group is stored, each later one completes a
    byte and leaves [k] bits. *)
Lemma decode_sextet_first v rest acc buf :
  0 <= v < 64 -> 0 <= acc ->
  exists acc', holds acc' 6 v /\
    decode_loop (String (table_char v) rest) acc 0 buf = decode_loop rest acc' 6 buf.
Proof.
  intros Hv Hacc. destruct (table_char_value v Hv) as [Hc Hne].
  destruct (decode_step _ v rest acc 0 buf 0 Hc Hne Hv) as (acc' & Hrun & Hh);
    [lia|split; [done|apply Z.mod_1_r]|]. by exists acc'.
Qed.

Lemma decode_sextet_emit v rest acc k buf p :
  0 <= v < 64 -> 0 <= k <= 4 -> holds acc (k + 2) p ->
  exists acc', holds acc' k ((p * 64 + v) mod 2 ^ k) /\
    decode_loop (String (table_char v) rest) acc (k + 2) buf =
    decode_loop rest acc' k (buf ++ [(p * 64 + v) / 2 ^ k]).
Proof.
  intros Hv Hk Hp. destruct (table_char_value v Hv) as [Hc Hne].
  destruct (decode_step _ v rest acc (k + 2) buf p Hc Hne Hv) as (acc' & Hrun); [lia|done|].
  exists acc'. destruct (Z.leb_spec 2 (k + 2)); [|lia].
  replace (k + 2 - 2) with k in Hrun by lia. by destruct Hrun.
Qed.

Section sextets.
Context (b0 b1 b2 : Z) (H0 : is_byte b0) (H1 : is_byte b1) (H2 : is_byte b2).
Let c := combine3 b0 b1 b2.

Lemma sextet_values :
  sextet c 18 = table_char (b0 / 4) /\
  sextet c 12 = table_char (b0 mod 4 * 16 + b1 / 16) /\
  sextet c 6 = table_char (b1 mod 16 * 4 + b2 / 64) /\
  sextet c 0 = table_char (b2 mod 64).
Proof using H0 H1 H2.
  unfold c. rewrite combine3_value by done. unfold is_byte in *.
  rewrite !sextet_value by lia. cbn [Z.pow Z.pow_pos Pos.iter Z.mul Pos.mul].
  repeat split; f_equal; Z.to_euclidean_division_equations; lia.
Qed.

(** The first two sextets give the first byte, the third and fourth the others. *)
Lemma decode_two rest acc buf :
  0 <= acc ->
  exists acc', holds acc' 4 (b1 / 16) /\
    decode_loop (String (sextet c 18) (String (sextet c 12) rest)) acc 0 buf =
    decode_loop rest acc' 4 (buf ++ [b0]).
Proof using H0 H1 H2.
  intros Hacc. destruct sextet_values as (-> & -> & _ & _). unfold is_byte in *.
  assert (Hv0 : 0 <= b0 / 4 < 64) by (Z.to_euclidean_division_equations; lia).
  assert (Hv1 : 0 <= b0 mod 4 * 16 + b1 / 16 < 64) by (Z.to_euclidean_division_equations; lia).
  destruct (decode_sextet_first (b0 / 4) (String (table_char (b0 mod 4 * 16 + b1 / 16)) rest) acc buf)
    as (acc1 & Hh1 & ->); [done..|].
  destruct (decode_sextet_emit (b0 mod 4 * 16 + b1 / 16) rest acc1 4 buf (b0 / 4))
    as (acc2 & Hh2 & Hrun); [done|lia|exact Hh1|].
  exists acc2. change (4 + 2) with 6 in Hrun. change (2 ^ 4) with 16 in *. split.
  - replace (b1 / 16) with ((b0 / 4 * 64 + (b0 mod 4 * 16 + b1 / 16)) mod 16); [exact Hh2|].
    Z.to_euclidean_division_equations; lia.
  - rewrite Hrun. do 3 f_equal. Z.to_euclidean_division_equations; lia.
Qed.

Lemma decode_three rest acc buf :
  0 <= acc ->
  exists acc', holds acc' 2 (b2 / 64) /\
    decode_loop (String (sextet c 18) (String (sextet c 12) (String (sextet c 6) rest))) acc 0 buf =
    decode_loop rest acc' 2 (buf ++ [b0; b1]).
Proof using H0 H1 H2.
  intros Hacc. destruct (decode_two (String (sextet c 6) rest) acc buf Hacc) as (acc1 & Hh & ->).
  destruct sextet_values as (_ & _ & -> & _). unfold is_byte in *.
  assert (Hv2 : 0 <= b1 mod 16 * 4 + b2 / 64 < 64) by (Z.to_euclidean_division_equations; lia).
  destruct (decode_sextet_emit (b1 mod 16 * 4 + b2 / 64) rest acc1 2 (buf ++ [b0]) (b1 / 16))
    as (acc2 & Hh2 & Hrun); [done|lia|exact Hh|].
  exists acc2. change (2 + 2) with 4 in Hrun. change (2 ^ 2) with 4 in *. split.
  - replace (b2 / 64) with ((b1 / 16 * 64 + (b1 mod 16 * 4 + b2 / 64)) mod 4); [exact Hh2|].
    Z.to_euclidean_division_equations; lia.
  - rewrite Hrun, <-(assoc_L (++)). cbn [app]. do 4 f_equal. Z.to_euclidean_division_equations; lia.
Qed.

Lemma decode_four rest acc buf :
  0 <= acc ->
  exists acc', 0 <= acc' /\
    decode_loop (String (sextet c 18) (String (sextet c 12) (String (sextet c 6)
      (String (sextet c 0) rest)))) acc 0 buf =
    decode_loop rest acc' 0 (buf ++ [b0; b1; b2]).
Proof using H0 H1 H2.
  intros Hacc.
  destruct (decode_three (String (sextet c 0) rest) acc buf Hacc) as (acc1 & Hh & ->).
  destruct sextet_values as (_ & _ & _ & ->). unfold is_byte in *.
  assert (Hv3 : 0 <= b2 mod 64 < 64) by (Z.to_euclidean_division_equations; lia).
  destruct (decode_sextet_emit (b2 mod 64) rest acc1 0 (buf ++ [b0; b1]) (b2 / 64))
    as (acc2 & Hh2 & Hrun); [done|lia|exact Hh|].
  exists acc2. change (0 + 2) with 2 in Hrun. change (2 ^ 0) with 1 in *. split; [apply Hh2|].
  rewrite Hrun, <-(assoc_L (++)). cbn [app]. do 5 f_equal. rewrite Z.div_1_r.
  Z.to_euclidean_division_equations; lia.
Qed.
End sextets.

(** Induction in steps of three. *)
Lemma list_ind3 {A} (P : list A -> Prop) :
  P [] -> (forall a, P [a]) -> (forall a b, P [a; b]) ->
  (forall a b c l, P l -> P (a :: b :: c :: l)) -> forall l, P l.
Proof.
  intros Hn H1 H2 H3. fix IH 1. intros [|a [|b [|c l]]]; [done|apply H1|apply H2|apply H3, IH].
Qed.

Lemma decode_encode data acc buf :
  Forall is_byte data -> 0 <= acc -> decode_loop (encode_base64 data) acc 0 buf = Ok (buf ++ data).
Proof.
  revert acc buf. induction data as [|b0|b0 b1|b0 b1 b2 data IH] using list_ind3;
    intros acc buf Hb Hacc.
  - cbn. by rewrite app_nil_r.
  - inversion_clear Hb. assert (is_byte 0) by done. cbn [encode_base64].
    destruct (decode_two b0 0 0) with (rest := "==") (acc := acc) (buf := buf) as (acc1 & _ & ->); done.
  - inversion_clear Hb as [|? ? Hb0 Hb']. inversion_clear Hb' as [|? ? Hb1 _].
    assert (is_byte 0) by done. cbn [encode_base64].
    destruct (decode_three b0 b1 0) with (rest := "=") (acc := acc) (buf := buf) as (acc1 & _ & ->); done.
  - inversion_clear Hb as [|? ? Hb0 Hb']. inversion_clear Hb' as [|? ? Hb1 Hb''].
    inversion_clear Hb'' as [|? ? Hb2 Hrest]. cbn [encode_base64].
    destruct (decode_four b0 b1 b2 Hb0 Hb1 Hb2 (encode_base64 data) acc buf Hacc) as (acc1 & Hacc1 & ->).
    rewrite IH by done. by rewrite <-(assoc_L (++)).
Qed.

(** Decoding inverts encoding on every byte string, whatever its length modulo
    three: padding is skipped and the accumulator's 32-bit wrap-around loses nothing. *)
Theorem base64_roundtrip (data : list Z) :
  Forall is_byte data -> decode_base64 (encode_base64 data) = Ok data.
Proof. intros Hd. by apply (decode_encode data 0 []). Qed.

Lemma base64_roundtrip_witness :
  Forall is_byte [80; 78; 71; 255] /\ encode_base64 [80; 78; 71; 255] = "UE5H/w==" /\
  decode_base64 "UE5H/w==" = Ok [80; 78; 71; 255].
Proof.
  assert (Hb : Forall is_byte [80; 78; 71; 255]) by (repeat constructor; lia).
  split; [exact Hb|]. split; [vm_compute; reflexivity|].
  change "UE5H/w==" with (encode_base64 [80; 78; 71; 255]). apply base64_roundtrip. exact Hb.
Defined.
