(* ===== verification/Thumbnail.v ===== *)
(** G-code thumbnails ([thumbnail.rs]): the formats and their tags, the [thumbnails]
    config key, and the framed text block.  Strings of this file are ASCII:
    [to_uppercase] acts on ASCII characters. *)
From Stdlib Require Import Ascii.
From stdpp Require Import prelude strings list.
From S2P Require Import Prelude Ir Text Base64.

#[local] Open Scope string_scope.
#[local] Open Scope list_scope.

(** ** Formats *)

Inductive ThumbnailFormat := Png | Jpg | Qoi | BttTft | ColPic.
#[export] Instance ThumbnailFormat_eq_dec : EqDecision ThumbnailFormat.
Proof. solve_decision. Defined.

Definition tag (f : ThumbnailFormat) : string :=
  match f with
  | Png => "thumbnail"
  | Jpg => "thumbnail_JPG"
  | Qoi => "thumbnail_QOI"
  | BttTft => "thumbnail_BIQU"
  | ColPic => "thumbnail_QIDI"
  end.

Definition from_ext (ext : string) : option ThumbnailFormat :=
  if String.eqb ext "PNG" then Some Png
  else if String.eqb ext "JPG" || String.eqb ext "JPEG" then Some Jpg
  else if String.eqb ext "QOI" then Some Qoi
  else if String.eqb ext "BTT_TFT" then Some BttTft
  else if String.eqb ext "COLPIC" then Some ColPic
  else None.

Record ThumbnailSpec := { ts_width : Z; ts_height : Z; ts_format : ThumbnailFormat }.
#[export] Instance ThumbnailSpec_eq_dec : EqDecision ThumbnailSpec.
Proof. solve_decision. Defined.

Inductive ThumbnailError :=
| MalformedSpec (entry reason : string)
| Decode (message : string)
| Encode (format reason : string).
#[export] Instance ThumbnailError_eq_dec : EqDecision ThumbnailError.
Proof. solve_decision. Defined.

(** ** The [thumbnails] config key *)

Definition upper_char (c : ascii) : ascii :=
  let n := nat_of_ascii c in
  if Nat.leb 97 n && Nat.leb n 122 then ascii_of_nat (n - 32) else c.

Fixpoint to_uppercase (s : string) : string :=
  match s with
  | EmptyString => EmptyString
  | String c r => String (upper_char c) (to_uppercase r)
  end.

(** One trimmed, non-empty entry. *)
Definition parse_entry (entry : string) : result ThumbnailSpec ThumbnailError :=
  match splitn 2 "/" entry with
  | [p0; p1] =>
      let dims := trim p0 in
      let ext := to_uppercase (trim p1) in
      match splitn 2 "x" dims with
      | [d0; d1] =>
          match parse_uint u32_max (trim d0) with
          | None => Err (MalformedSpec entry ("invalid width `" +:+ trim d0 +:+ "`"))
          | Some width =>
              match parse_uint u32_max (trim d1) with
              | None => Err (MalformedSpec entry ("invalid height `" +:+ trim d1 +:+ "`"))
              | Some height =>
                  match from_ext ext with
                  | None => Err (MalformedSpec entry ("unsupported extension `" +:+ ext +:+ "`"))
                  | Some format =>
                      Ok {| ts_width := width; ts_height := height; ts_format := format |}
                  end
              end
          end
      | _ => Err (MalformedSpec entry "missing height (expected WxH/EXT)")
      end
  | _ => Err (MalformedSpec entry "missing extension (expected WxH/EXT)")
  end.

Fixpoint parse_entries (entries : list string) (specs : list ThumbnailSpec)
    : result (list ThumbnailSpec) ThumbnailError :=
  match entries with
  | [] => Ok specs
  | entry :: rest =>
      let entry := trim entry in
      if String.eqb entry "" then parse_entries rest specs
      else let? spec := parse_entry entry in parse_entries rest (specs ++ [spec])
  end.

Definition parse_thumbnails_key (value : string) : result (list ThumbnailSpec) ThumbnailError :=
  if String.eqb (trim value) "" then Ok [] else parse_entries (split "," value) [].

(** ** The block *)

Inductive ThumbnailBody :=
| Base64Body (payload : string)
| RawBody (text : string).

Record RenderedThumbnail := {
  rt_format : ThumbnailFormat;
  rt_width : Z;
  rt_height : Z;
  rt_body : ThumbnailBody
}.

Definition MAX_ROW_LENGTH : nat := 78.

Definition newline : string := String "010" "".

Definition drop_string (n : nat) (s : string) : string :=
  String.substring n (String.length s - n) s.

(** [while remaining.len() > MAX_ROW_LENGTH], then the last row. *)
Fixpoint push_rows (fuel : nat) (remaining out : string) : exec string :=
  if Nat.ltb MAX_ROW_LENGTH (String.length remaining) then
    match fuel with
    | O => OutOfFuel
    | S fuel' =>
        push_rows fuel' (drop_string MAX_ROW_LENGTH remaining)
          (out +:+ "; " +:+ String.substring 0 MAX_ROW_LENGTH remaining +:+ newline)
    end
  else if String.eqb remaining "" then Done out
  else Done (out +:+ "; " +:+ remaining +:+ newline).

Definition push_entry_block (out : string) (entry : RenderedThumbnail) : exec string :=
  match rt_body entry with
  | Base64Body s =>
      let out := out +:+ "; " +:+ tag (rt_format entry) +:+ " begin " +:+
        show_uint (rt_width entry) +:+ "x" +:+ show_uint (rt_height entry) +:+ " " +:+
        show_uint (Z.of_nat (String.length s)) +:+ newline in
      let! out := push_rows (String.length s) s out in
      Done (out +:+ "; " +:+ tag (rt_format entry) +:+ " end" +:+ newline)
  | RawBody s => Done (out +:+ s)
  end.

Fixpoint push_blocks (out : string) (entries : list RenderedThumbnail) : exec string :=
  match entries with
  | [] => Done out
  | entry :: rest => let! out := push_entry_block out entry in push_blocks out rest
  end.

Definition serialize_thumbnail_block (entries : list RenderedThumbnail) : exec string :=
  let! out := push_blocks ("; THUMBNAIL_BLOCK_START" +:+ newline) entries in
  Done (out +:+ "; THUMBNAIL_BLOCK_END" +:+ newline).

(** ** Rows of a payload *)

Definition render_rows (rows : list string) : string :=
  concat_strings ((fun r => "; " +:+ r +:+ newline) <$> rows).

(** Full rows, then one shorter or full last row. *)
Record payload_rows (s : string) (rows : list string) : Prop := {
  pr_concat : concat_strings rows = s;
  pr_bound : Forall (fun r => 1 <= String.length r <= MAX_ROW_LENGTH) rows;
  pr_full : forall i r, rows !! i = Some r -> S i < length rows -> String.length r = MAX_ROW_LENGTH
}.

Lemma push_rows_spec fuel s out :
  String.length s <= fuel ->
  exists rows, push_rows fuel s out = Done (out +:+ render_rows rows) /\ payload_rows s rows.
Proof.
  revert s out; induction fuel as [|fuel IH]; intros s out Hf; cbn [push_rows];
    destruct (Nat.ltb_spec MAX_ROW_LENGTH (String.length s)) as [Hlong|Hshort].
  1: lia.
  2: { destruct (substring_split MAX_ROW_LENGTH s) as [Hcat Hlen]; [lia|].
       set (row := String.substring 0 MAX_ROW_LENGTH s) in *. fold (drop_string MAX_ROW_LENGTH s) in Hcat.
       destruct (IH (drop_string MAX_ROW_LENGTH s) (out +:+ "; " +:+ row +:+ newline))
         as (rows & Hrun & [Hc Hb Hfull]).
       { pose proof (f_equal String.length Hcat) as Hl. rewrite string_length_app in Hl.
         unfold MAX_ROW_LENGTH in *. lia. }
       exists (row :: rows). rewrite Hrun. split.
       - f_equal. unfold render_rows. cbn [fmap list_fmap concat_strings foldr].
         by rewrite !string_app_assoc.
       - constructor.
         + change (row +:+ concat_strings rows = s). rewrite Hc. exact Hcat.
         + constructor; [unfold MAX_ROW_LENGTH in *; lia|done].
         + intros [|i] r Hi Hlt; [by injection Hi as <-|]. apply (Hfull i); [done|]. cbn in Hlt. lia. }
  all: destruct (String.eqb_spec s "") as [->|Hne].
  1, 3: exists []; rewrite string_app_nil_r; (split; [done|]); constructor; [done|constructor|done].
  all: exists [s]; unfold render_rows; cbn [fmap list_fmap concat_strings foldr]; rewrite string_app_nil_r;
    (split; [done|]); constructor; [apply string_app_nil_r| |intros [|i] r Hi Hlt; cbn in Hlt; lia];
    (constructor; [|constructor]); destruct s; [done|]; cbn in *; lia.
Qed.

(** The text of one entry, given its rows. *)
Definition entry_text (entry : RenderedThumbnail) (rows : list string) : string :=
  match rt_body entry with
  | Base64Body s =>
      "; " +:+ tag (rt_format entry) +:+ " begin " +:+ show_uint (rt_width entry) +:+ "x" +:+
      show_uint (rt_height entry) +:+ " " +:+ show_uint (Z.of_nat (String.length s)) +:+ newline +:+
      render_rows rows +:+ "; " +:+ tag (rt_format entry) +:+ " end" +:+ newline
  | RawBody s => s
  end.

Definition entry_rows (entry : RenderedThumbnail) (rows : list string) : Prop :=
  match rt_body entry with Base64Body s => payload_rows s rows | RawBody _ => rows = [] end.

Lemma push_blocks_spec entries out :
  exists rowss, Forall2 entry_rows entries rowss /\
    push_blocks out entries = Done (out +:+ concat_strings (zip_with entry_text entries rowss)).
Proof.
  revert out; induction entries as [|entry entries IH]; intros out.
  - exists []. split; [constructor|]. cbn. by rewrite string_app_nil_r.
  - assert (Hone : exists rows, entry_rows entry rows /\
              push_entry_block out entry = Done (out +:+ entry_text entry rows)).
    { unfold entry_rows, push_entry_block, entry_text. destruct (rt_body entry) as [s|s]; [|by exists []].
      destruct (push_rows_spec (String.length s) s (out +:+ "; " +:+ tag (rt_format entry) +:+ " begin " +:+
        show_uint (rt_width entry) +:+ "x" +:+ show_uint (rt_height entry) +:+ " " +:+
        show_uint (Z.of_nat (String.length s)) +:+ newline)) as (rows & Hrun & Hrows); [done|].
      exists rows. split; [done|]. rewrite Hrun. cbn [exec_bind]. f_equal. by rewrite !string_app_assoc. }
    destruct Hone as (rows & Hrows & Hrun). cbn [push_blocks]. rewrite Hrun. cbn [exec_bind].
    destruct (IH (out +:+ entry_text entry rows)) as (rowss & Hall & ->).
    exists (rows :: rowss). split; [by constructor|]. cbn. by rewrite string_app_assoc.
Qed.

(** The thumbnail writer always finishes, and its output is the start line, the
    entries in order, and the end line.  A raw entry is copied; a Base64 entry has a
    header with its tag, size and payload length, then the payload cut into rows of
    exactly [MAX_ROW_LENGTH] characters (the last one may be shorter, none is empty)
    whose concatenation is the payload — so the rows decode to the encoded bytes. *)
Theorem thumbnail_block_layout (entries : list RenderedThumbnail) :
  exists rowss, Forall2 entry_rows entries rowss /\
    serialize_thumbnail_block entries =
      Done ("; THUMBNAIL_BLOCK_START" +:+ newline +:+
            concat_strings (zip_with entry_text entries rowss) +:+
            "; THUMBNAIL_BLOCK_END" +:+ newline) /\
    forall i entry rows data, entries !! i = Some entry -> rowss !! i = Some rows ->
      rt_body entry = Base64Body (encode_base64 data) -> Forall is_byte data ->
      decode_base64 (concat_strings rows) = Ok data.
Proof.
  unfold serialize_thumbnail_block.
  destruct (push_blocks_spec entries ("; THUMBNAIL_BLOCK_START" +:+ newline)) as (rowss & Hall & ->).
  exists rowss. split; [done|]. cbn [exec_bind]. split.
  - by rewrite !string_app_assoc.
  - intros i entry rows data He Hr Hbody Hdata.
    pose proof (Forall2_lookup_lr _ _ _ _ _ _ Hall He Hr) as Hrows.
    unfold entry_rows in Hrows. rewrite Hbody in Hrows. rewrite (pr_concat _ _ Hrows).
    by apply (decode_encode data 0%Z []).
Qed.

(** ** Reading the config key back *)

Definition ext_of (f : ThumbnailFormat) : string :=
  match f with
  | Png => "PNG" | Jpg => "JPG" | Qoi => "QOI" | BttTft => "BTT_TFT" | ColPic => "COLPIC"
  end.

(** The canonical text of a spec. *)
Definition show_spec (s : ThumbnailSpec) : string :=
  show_uint (ts_width s) +:+ "x" +:+ show_uint (ts_height s) +:+ "/" +:+ ext_of (ts_format s).

Lemma trim_id s : all_chars (fun c => negb (is_whitespace c)) s = true -> trim s = s.
Proof.
  intros Hs. unfold trim.
  assert (Hst : trim_start s = s).
  { destruct s as [|c s]; [done|]. cbn in Hs |- *. apply andb_true_iff in Hs as [Hc _].
    by apply negb_true_iff in Hc as ->. }
  rewrite Hst. clear Hst. induction s as [|c s IH]; [done|]. cbn in Hs |- *.
  apply andb_true_iff in Hs as [Hc%negb_true_iff Hs]. rewrite IH by done. rewrite Hc. by destruct s.
Qed.

Lemma digit_no_char (q : ascii -> bool) s :
  (forall c, is_Some (char_digit c) -> q c = true) ->
  all_chars (fun c => bool_decide (is_Some (char_digit c))) s = true -> all_chars q s = true.
Proof. intros Hq. apply all_chars_impl. intros c Hc%bool_decide_eq_true. by apply Hq. Qed.

(** A printed number holds no character that is not a digit. *)
Lemma show_uint_all (q : ascii -> bool) n :
  (forall c, is_Some (char_digit c) -> q c = true) -> all_chars q (show_uint n) = true.
Proof. intros Hq. by apply digit_no_char, show_uint_digits. Qed.

Lemma digit_not_whitespace c : is_Some (char_digit c) -> negb (is_whitespace c) = true.
Proof.
  unfold char_digit, is_whitespace. destruct (Nat.leb_spec 48 (nat_of_ascii c)); cbn [andb];
    [|by intros [? ?]]. intros _. destruct (Nat.leb_spec (nat_of_ascii c) 13); [lia|].
  rewrite andb_false_r. destruct (Nat.eqb_spec (nat_of_ascii c) 32); [lia|done].
Qed.

Lemma digit_not_char d c : char_digit d = None -> is_Some (char_digit c) -> negb (Ascii.eqb d c) = true.
Proof. intros Hd Hc. destruct (Ascii.eqb_spec d c) as [->|]; [|done]. rewrite Hd in Hc. by destruct Hc. Qed.

Lemma show_uint_no_char d n : char_digit d = None -> has_char d (show_uint n) = false.
Proof.
  intros Hd. rewrite has_char_all_chars, show_uint_all; [done|]. intros c. by apply digit_not_char.
Qed.

Lemma show_spec_no_whitespace s : all_chars (fun c => negb (is_whitespace c)) (show_spec s) = true.
Proof.
  unfold show_spec. rewrite !all_chars_app, !(show_uint_all _ _ digit_not_whitespace). by destruct (ts_format s).
Qed.

Lemma splitn_two sep a b :
  has_char sep a = false -> splitn 2 sep (a +:+ String sep b) = [a; b].
Proof. intros Ha. by rewrite splitn_cons. Qed.

Definition spec_in_range (s : ThumbnailSpec) : Prop :=
  (0 <= ts_width s <= u32_max)%Z /\ (0 <= ts_height s <= u32_max)%Z.

Lemma parse_entry_show s : spec_in_range s -> parse_entry (show_spec s) = Ok s.
Proof.
  intros [Hw Hh]. unfold parse_entry, show_spec.
  set (d0 := show_uint (ts_width s)). set (d1 := show_uint (ts_height s)).
  set (e := ext_of (ts_format s)).
  replace (d0 +:+ "x" +:+ d1 +:+ "/" +:+ e) with ((d0 +:+ String "x" d1) +:+ String "/" e)
    by (by rewrite string_app_assoc).
  assert (Hslash : has_char "/" (d0 +:+ String "x" d1) = false).
  { rewrite has_char_all_chars, all_chars_app. cbn [all_chars].
    unfold d0, d1. by rewrite !(show_uint_all _ _ (fun c => digit_not_char "/" c eq_refl)). }
  rewrite (splitn_two "/" _ e Hslash).
  assert (Hdims : trim (d0 +:+ String "x" d1) = d0 +:+ String "x" d1).
  { apply trim_id. rewrite all_chars_app. cbn [all_chars].
    unfold d0, d1. by rewrite !(show_uint_all _ _ digit_not_whitespace). }
  rewrite Hdims, splitn_two by (by apply show_uint_no_char).
  rewrite !trim_id by (by apply show_uint_all, digit_not_whitespace || by destruct (ts_format s)).
  unfold d0, d1. rewrite !parse_show_uint by done. destruct s as [w h f]. by destruct f.
Qed.

Lemma split_no_sep sep s : has_char sep s = false -> split sep s = [s].
Proof.
  induction s as [|c s IH]; [done|]. cbn. intros [Hc Hs]%orb_false_iff.
  rewrite Ascii.eqb_sym, Hc, IH by done. done.
Qed.

Lemma split_app sep a b : has_char sep a = false -> split sep (a +:+ String sep b) = a :: split sep b.
Proof.
  induction a as [|c a IH]; cbn; [by rewrite Ascii.eqb_refl|]. intros [Hc Ha]%orb_false_iff.
  by rewrite Ascii.eqb_sym, Hc, IH.
Qed.

Lemma split_join sep l :
  l <> [] -> Forall (fun s => has_char sep s = false) l -> split sep (join (String sep "") l) = l.
Proof.
  intros Hne Hl. induction Hl as [|s l Hs Hl IH]; [done|]. destruct l as [|s' l].
  - by apply split_no_sep.
  - change (join (String sep "") (s :: s' :: l)) with
      (s +:+ String sep (join (String sep "") (s' :: l))).
    rewrite split_app by done. by rewrite IH.
Qed.

Lemma parse_entries_show specs acc :
  Forall spec_in_range specs -> parse_entries (show_spec <$> specs) acc = Ok (acc ++ specs).
Proof.
  intros Hs. revert acc; induction Hs as [|s specs Hr Hs IH]; intros acc; cbn [fmap list_fmap parse_entries].
  - by rewrite app_nil_r.
  - rewrite trim_id by apply show_spec_no_whitespace.
    destruct (String.eqb_spec (show_spec s) "") as [He|_].
    + exfalso. pose proof (show_uint_nonempty (ts_width s)) as Hne. unfold show_spec in He.
      by destruct (show_uint (ts_width s)).
    + rewrite parse_entry_show by done. cbn [result_bind]. rewrite IH. by rewrite <-(assoc_L (++)).
Qed.

Lemma show_spec_no_comma s : has_char "," (show_spec s) = false.
Proof.
  rewrite has_char_all_chars. unfold show_spec. rewrite !all_chars_app.
  rewrite !(show_uint_all _ _ (fun c => digit_not_char "," c eq_refl)). by destruct (ts_format s).
Qed.

(** The [thumbnails] key reads back what it was printed from: the canonical
    comma-separated text of any list of specs with [u32] sizes parses to that list. *)
Theorem parse_thumbnails_roundtrip (specs : list ThumbnailSpec) :
  Forall spec_in_range specs ->
  parse_thumbnails_key (join "," (show_spec <$> specs)) = Ok specs.
Proof.
  intros Hs. unfold parse_thumbnails_key. destruct specs as [|s specs]; [done|].
  assert (Hno : all_chars (fun c => negb (is_whitespace c)) (join "," (show_spec <$> s :: specs)) = true).
  { clear Hs. revert s. induction specs as [|s' specs IH]; intros s; [apply show_spec_no_whitespace|].
    change (join "," (show_spec <$> s :: s' :: specs)) with
      (show_spec s +:+ "," +:+ join "," (show_spec <$> s' :: specs)).
    rewrite !all_chars_app, show_spec_no_whitespace, IH. done. }
  rewrite trim_id by exact Hno.
  destruct (String.eqb_spec (join "," (show_spec <$> s :: specs)) "") as [He|_].
  - exfalso. pose proof (show_uint_nonempty (ts_width s)) as Hne.
    destruct specs; cbn [fmap list_fmap join] in He; unfold show_spec at 1 in He;
      by destruct (show_uint (ts_width s)).
  - rewrite split_join; [by apply (parse_entries_show (s :: specs) [])|done|].
    apply Forall_fmap, Forall_forall. intros x _. apply show_spec_no_comma.
Qed.

Lemma parse_thumbnails_roundtrip_witness :
  Forall spec_in_range [{| ts_width := 48; ts_height := 48; ts_format := Png |};
                        {| ts_width := 300; ts_height := 200; ts_format := ColPic |}] /\
  parse_thumbnails_key "48x48/PNG,300x200/COLPIC" =
    Ok [{| ts_width := 48; ts_height := 48; ts_format := Png |};
        {| ts_width := 300; ts_height := 200; ts_format := ColPic |}].
Proof.
  assert (Hr : Forall spec_in_range [{| ts_width := 48; ts_height := 48; ts_format := Png |};
                        {| ts_width := 300; ts_height := 200; ts_format := ColPic |}])
    by (repeat constructor; vm_compute; discriminate).
  split; [exact Hr|].
  change "48x48/PNG,300x200/COLPIC" with
    (join "," (show_spec <$> [{| ts_width := 48; ts_height := 48; ts_format := Png |};
                        {| ts_width := 300; ts_height := 200; ts_format := ColPic |}])).
  apply parse_thumbnails_roundtrip. exact Hr.
Defined.
