(* ===== verification/ImageCodecs.v ===== *)
(** The two raw thumbnail codecs ([thumbnail_btt.rs], [thumbnail_colpic.rs]): RGB565
    packing, the BTT TFT hexadecimal rows, and the ColPic palette and run-length
    stream with its six-bit text.  The image is a parameter: its size and its pixels
    ([image::RgbaImage]). *)
From Stdlib Require Import Ascii.
From stdpp Require Import prelude strings list.
From S2P Require Import Prelude Text Base64.

#[local] Open Scope string_scope.
#[local] Open Scope list_scope.
#[local] Open Scope Z_scope.

(** ** RGB565 *)

Definition pack_rgb565 (r g b : Z) : Z :=
  Z.lor (Z.lor (Z.shiftl (Z.shiftr r 3) 11) (Z.shiftl (Z.shiftr g 2) 5)) (Z.shiftr b 3).

Lemma pack_rgb565_value r g b :
  is_byte r -> is_byte g -> is_byte b -> pack_rgb565 r g b = r / 8 * 2048 + g / 4 * 32 + b / 8.
Proof.
  unfold is_byte, pack_rgb565. intros Hr Hg Hb.
  rewrite !Z.shiftr_div_pow2, !Z.shiftl_mul_pow2 by lia.
  change (2 ^ 3) with 8. change (2 ^ 2) with 4. change (2 ^ 11) with 2048. change (2 ^ 5) with 32.
  assert (Hrg : Z.lor (r / 8 * 2048) (g / 4 * 32) = r / 8 * 2048 + g / 4 * 32).
  { apply (lor_disjoint_add _ _ 11); [lia| |apply Z.mod_mul; lia].
    change (2 ^ 11) with 2048. Z.to_euclidean_division_equations; lia. }
  rewrite Hrg. apply (lor_disjoint_add _ _ 5); [lia| |].
  - change (2 ^ 5) with 32. Z.to_euclidean_division_equations; lia.
  - replace (r / 8 * 2048 + g / 4 * 32) with ((r / 8 * 64 + g / 4) * 2 ^ 5) by lia. apply Z.mod_mul. lia.
Qed.

(** The packed value keeps the upper bits of each channel. *)
Lemma pack_rgb565_channels r g b :
  is_byte r -> is_byte g -> is_byte b ->
  0 <= pack_rgb565 r g b < 65536 /\ pack_rgb565 r g b / 2048 = r / 8 /\
  pack_rgb565 r g b / 32 mod 64 = g / 4 /\ pack_rgb565 r g b mod 32 = b / 8.
Proof.
  intros Hr Hg Hb. rewrite pack_rgb565_value by done. unfold is_byte in *.
  split; [|split; [|split]]; Z.to_euclidean_division_equations; lia.
Qed.

(** ** Upper-case hexadecimal ([{:04X}] of a [u32]) *)

Definition hex_upper (d : Z) : ascii := ascii_of_nat (Z.to_nat (if Z.ltb d 10 then 48 + d else 55 + d)).

Fixpoint show_hex (fuel : nat) (n : Z) (acc : string) : string :=
  match fuel with
  | O => acc
  | S fuel' =>
      let acc' := String (hex_upper (n mod 16)) acc in
      if Z.ltb n 16 then acc' else show_hex fuel' (n / 16) acc'
  end.

Fixpoint pad_zeros (n : nat) (s : string) : string :=
  match n with O => s | S n' => String "0" (pad_zeros n' s) end.

Definition format_04X (n : Z) : string :=
  let s := show_hex 8 n "" in pad_zeros (4 - String.length s) s.

(** The value of a hexadecimal digit and of a text of them. *)
Definition hex_value (c : ascii) : option Z :=
  let n := Z.of_nat (nat_of_ascii c) in
  if Z.leb 48 n && Z.leb n 57 then Some (n - 48)
  else if Z.leb 65 n && Z.leb n 70 then Some (n - 55) else None.

Fixpoint read_hex (s : string) (acc : Z) : option Z :=
  match s with
  | EmptyString => Some acc
  | String c r => match hex_value c with Some d => read_hex r (acc * 16 + d) | None => None end
  end.

Lemma hex_value_upper d : 0 <= d < 16 -> hex_value (hex_upper d) = Some d.
Proof.
  intros Hd.
  assert (Hall : Forall (fun n => hex_value (hex_upper (Z.of_nat n)) = Some (Z.of_nat n)) (seq 0 16))
    by (apply (bool_decide_unpack _); vm_compute; exact I).
  rewrite Forall_forall in Hall. specialize (Hall (Z.to_nat d)). rewrite Z2Nat.id in Hall by lia.
  apply Hall, elem_of_seq. lia.
Qed.

Lemma read_pad n s : read_hex (pad_zeros n s) 0 = read_hex s 0.
Proof. induction n as [|n IH]; [done|]. cbn. exact IH. Qed.

Lemma length_pad n s : String.length (pad_zeros n s) = (n + String.length s)%nat.
Proof. induction n as [|n IH]; [done|]. cbn. by rewrite IH. Qed.

(** [m] digits suffice below [16 ^ m]; [k] more are already written. *)
Lemma show_hex_spec m fuel n acc :
  0 <= n < 16 ^ Z.of_nat m -> (1 <= m <= fuel)%nat ->
  (String.length (show_hex fuel n acc) <= m + String.length acc)%nat /\
  forall a, exists k, read_hex (show_hex fuel n acc) a = read_hex acc (a * 16 ^ k + n) /\ 0 <= k.
Proof.
  revert m n acc. induction fuel as [|fuel IH]; intros m n acc Hn Hm; [lia|]. cbn [show_hex].
  pose proof (Z.mod_pos_bound n 16 ltac:(lia)) as Hmod.
  destruct (Z.ltb_spec n 16) as [Hlt|Hge].
  - split; [cbn; lia|]. intros a. exists 1. cbn [read_hex]. rewrite hex_value_upper by done.
    rewrite Z.mod_small by lia. split; [f_equal; lia|lia].
  - destruct m as [|[|m]]; [lia|cbn in Hn; lia|].
    assert (Hdiv : 0 <= n / 16 < 16 ^ Z.of_nat (S m)).
    { split; [apply Z.div_pos; lia|]. apply Z.div_lt_upper_bound; [lia|].
      replace (Z.of_nat (S (S m))) with (1 + Z.of_nat (S m)) in Hn by lia.
      rewrite Z.pow_add_r in Hn by lia. lia. }
    destruct (IH (S m) (n / 16) (String (hex_upper (n mod 16)) acc) Hdiv) as [Hlen Hread]; [lia|].
    split; [cbn [String.length] in Hlen; lia|]. intros a. destruct (Hread a) as (k & Hr & Hk).
    exists (k + 1). rewrite Hr. cbn [read_hex]. rewrite hex_value_upper by done.
    split; [|lia]. f_equal. rewrite Z.pow_add_r by lia. pose proof (Z.div_mod n 16 ltac:(lia)). lia.
Qed.

Lemma format_04X_spec n :
  0 <= n < 65536 -> String.length (format_04X n) = 4%nat /\ read_hex (format_04X n) 0 = Some n.
Proof.
  intros Hn. unfold format_04X. destruct (show_hex_spec 4 8 n "") as [Hlen Hread]; [exact Hn|lia|].
  cbn [String.length] in Hlen. rewrite length_pad, read_pad. split; [lia|].
  destruct (Hread 0) as (k & -> & _). reflexivity.
Qed.

(** ** BTT TFT *)

Section image.
(** [width()], [height()], and the three colour channels of [get_pixel(x, y)]. *)
Context (width height : Z) (get_pixel : Z -> Z -> Z * Z * Z).

Definition crlf : string := String "013" (String "010" "").

Definition pixel_value (x y : Z) : Z :=
  let '(r, g, b) := get_pixel x y in pack_rgb565 r g b.

Definition btt_row (y : Z) (out : string) : string :=
  foldl (fun out x => out +:+ format_04X (pixel_value x y)) (out +:+ ";") (seqZ 0 width) +:+ crlf.

Definition encode_btt_tft : string :=
  foldl (fun out y => btt_row y out)
    (";" +:+ (format_04X width +:+ format_04X height) +:+ crlf) (seqZ 0 height).

(** The channels of a pixel are [u8] values. *)
Definition pixels_are_bytes : Prop :=
  forall x y, let '(r, g, b) := get_pixel x y in is_byte r /\ is_byte g /\ is_byte b.

Definition row_text (y : Z) : string :=
  ";" +:+ concat_strings ((fun x => format_04X (pixel_value x y)) <$> seqZ 0 width) +:+ crlf.

Lemma foldl_append {A} (f : A -> string) l out :
  foldl (fun out x => out +:+ f x) out l = out +:+ concat_strings (f <$> l).
Proof using Type.
  revert out; induction l as [|x l IH]; intros out; cbn [foldl fmap list_fmap concat_strings foldr].
  - by rewrite string_app_nil_r.
  - by rewrite IH, string_app_assoc.
Qed.

Lemma encode_btt_rows :
  encode_btt_tft =
  (";" +:+ (format_04X width +:+ format_04X height) +:+ crlf) +:+
  concat_strings (row_text <$> seqZ 0 height).
Proof using Type.
  unfold encode_btt_tft. rewrite <-foldl_append. generalize (seqZ 0 height). intros l.
  match goal with |- foldl _ ?a l = _ => generalize a end. intros out.
  revert out; induction l as [|y l IH]; intros out; cbn [foldl]; [done|]. rewrite IH. f_equal.
  unfold btt_row, row_text. rewrite foldl_append. by rewrite !string_app_assoc.
Qed.

Context (bytes : pixels_are_bytes).

Lemma pixel_value_spec x y :
  let '(r, g, b) := get_pixel x y in
  0 <= pixel_value x y < 65536 /\ pixel_value x y / 2048 = r / 8 /\
  pixel_value x y / 32 mod 64 = g / 4 /\ pixel_value x y mod 32 = b / 8.
Proof using bytes.
  pose proof (bytes x y) as Hb. unfold pixel_value. destruct (get_pixel x y) as [[r g] b].
  destruct Hb as (Hr & Hg & Hb). by apply pack_rgb565_channels.
Qed.

Lemma pixel_text_length x y : String.length (format_04X (pixel_value x y)) = 4%nat.
Proof using bytes.
  apply format_04X_spec. pose proof (pixel_value_spec x y) as H.
  destruct (get_pixel x y) as [[r g] b]. tauto.
Qed.

Lemma row_text_length y :
  String.length (row_text y) = (4 * Z.to_nat width + 3)%nat.
Proof using bytes.
  unfold row_text. rewrite !string_length_app.
  rewrite (length_concat_const 4) by (apply Forall_fmap, Forall_forall; intros; apply pixel_text_length).
  rewrite length_fmap, length_seqZ. cbn. lia.
Qed.
End image.

(** The BTT TFT text is a fixed grid, row by row and without a flip: the header
    takes 11 characters, each row [4 * width + 3], and the four hexadecimal digits at
    the place of a pixel hold its RGB565 value, from which the upper five, six and
    five bits of the three channels read back. *)
Theorem btt_pixel_layout (width height : Z) (get_pixel : Z -> Z -> Z * Z * Z) (x y : Z) :
  0 <= width < 65536 -> 0 <= height < 65536 -> pixels_are_bytes get_pixel ->
  0 <= x < width -> 0 <= y < height ->
  let out := encode_btt_tft width height get_pixel in
  let row := (4 * Z.to_nat width + 3)%nat in
  String.length out = (11 + Z.to_nat height * row)%nat /\
  exists v,
    read_hex (String.substring (11 + (Z.to_nat y * row + (1 + Z.to_nat x * 4))) 4 out) 0 = Some v /\
    let '(r, g, b) := get_pixel x y in v / 2048 = r / 8 /\ v / 32 mod 64 = g / 4 /\ v mod 32 = b / 8.
Proof.
  intros Hw Hh Hb Hx Hy out row. unfold out. rewrite encode_btt_rows.
  set (header := ";" +:+ _ +:+ crlf).
  assert (Hheader : String.length header = 11%nat).
  { unfold header. rewrite !string_length_app.
    rewrite (proj1 (format_04X_spec width Hw)), (proj1 (format_04X_spec height Hh)). done. }
  assert (Hrows : Forall (fun s => String.length s = row) (row_text width get_pixel <$> seqZ 0 height)).
  { apply Forall_fmap, Forall_forall. intros z _. by apply row_text_length. }
  split.
  - rewrite string_length_app, (length_concat_const row) by done.
    rewrite Hheader, length_fmap, length_seqZ. lia.
  - exists (pixel_value get_pixel x y). rewrite <-Hheader, substring_app_skip.
    rewrite <-(string_app_nil_r (concat_strings _)).
    rewrite (substring_concat_const row _ (Z.to_nat y) (row_text width get_pixel y)); [|done| |unfold row; lia].
    2: { rewrite list_lookup_fmap, lookup_seqZ_lt by lia.
         by replace (0 + Z.of_nat (Z.to_nat y)) with y by lia. }
    unfold row_text. change (1 + Z.to_nat x * 4)%nat with (String.length ";" + Z.to_nat x * 4)%nat.
    rewrite substring_app_skip.
    rewrite <-(Nat.add_0_r (Z.to_nat x * 4)).
    rewrite (substring_concat_const 4 _ (Z.to_nat x) (format_04X (pixel_value get_pixel x y))); [| | |lia].
    + pose proof (pixel_value_spec get_pixel Hb x y) as Hv. destruct (get_pixel x y) as [[r g] b].
      destruct Hv as (Hr & Hv). destruct (format_04X_spec _ Hr) as [Hlen Hread].
      rewrite <-Hlen, substring_0_all. done.
    + apply Forall_fmap, Forall_forall. intros z _. by apply pixel_text_length.
    + rewrite list_lookup_fmap, lookup_seqZ_lt by lia. by replace (0 + Z.of_nat (Z.to_nat x)) with x by lia.
Qed.

Lemma btt_pixel_layout_witness :
  pixels_are_bytes (fun x y => (255, 128, 8)) /\
  exists v, read_hex (String.substring 23 4 (encode_btt_tft 2 2 (fun x y => (255, 128, 8)))) 0 = Some v /\
    v / 2048 = 31 /\ v / 32 mod 64 = 32 /\ v mod 32 = 1.
Proof.
  assert (Hb : pixels_are_bytes (fun x y => (255, 128, 8))) by (intros x y; repeat split; lia).
  split; [exact Hb|].
  destruct (btt_pixel_layout 2 2 (fun x y => (255, 128, 8)) 0 1) as (_ & v & Hv & Hc);
    [lia|lia|exact Hb|lia|lia|].
  exists v. split; [exact Hv|exact Hc].
Defined.

(** ** ColPic: palette and run-length stream *)

Record PaletteEntry := { pe_color : Z; pe_qty : Z }.

Fixpoint bump_color (c : Z) (palette : list PaletteEntry) : option (list PaletteEntry) :=
  match palette with
  | [] => None
  | e :: rest =>
      if Z.eqb (pe_color e) c then Some ({| pe_color := pe_color e; pe_qty := pe_qty e + 1 |} :: rest)
      else (fun r => e :: r) <$> bump_color c rest
  end.

Definition count_color (maxqty : nat) (palette : list PaletteEntry) (c : Z) : list PaletteEntry :=
  match bump_color c palette with
  | Some palette' => palette'
  | None =>
      if Nat.ltb (length palette) maxqty then palette ++ [{| pe_color := c; pe_qty := 1 |}]
      else palette
  end.

Definition adlist0 (pixels : list Z) (maxqty : nat) : list PaletteEntry :=
  foldl (count_color maxqty) [] pixels.

(** [sort_by_key(Reverse(qty))]: stable, most frequent first. *)
Definition sorted_palette (pixels : list Z) (maxqty : nat) : list PaletteEntry :=
  sort_by (fun a b => Z.leb (pe_qty b) (pe_qty a)) (adlist0 pixels maxqty).

Fixpoint position (c : Z) (palette : list PaletteEntry) : option nat :=
  match palette with
  | [] => None
  | e :: rest => if Z.eqb (pe_color e) c then Some O else S <$> position c rest
  end.

Definition index_of (palette : list PaletteEntry) (c : Z) : Z :=
  Z.of_nat (default O (position c palette)).

(** Pixels equal to [c] at the head, at most [limit]. *)
Fixpoint run_length (c : Z) (pixels : list Z) (limit : nat) : nat :=
  match limit, pixels with
  | S limit', p :: rest => if Z.eqb p c then S (run_length c rest limit') else O
  | _, _ => O
  end.

(** [while i < n]: the pixels from [i] on. *)
Fixpoint rle_loop (fuel : nat) (palette : list PaletteEntry) (pixels : list Z) (last_sid : Z)
    (out : list Z) : exec (list Z) :=
  match pixels with
  | [] => Done out
  | c :: rest =>
      match fuel with
      | O => OutOfFuel
      | S fuel' =>
          let idx := index_of palette c in
          let tid := idx mod 32 in
          let sid := idx / 32 in
          let out := if Z.eqb sid last_sid then out
                     else out ++ [Z.lor (Z.shiftl 7 5) (sid mod 256)] in
          let run := S (run_length c rest 254) in
          let out := if Nat.leb run 6
                     then out ++ [Z.lor (Z.shiftl (Z.of_nat run) 5) (tid mod 256)]
                     else out ++ [tid mod 256; Z.of_nat run] in
          rle_loop fuel' palette (List.skipn run pixels) sid out
      end
  end.

Definition byte8bit_encode (pixels : list Z) (maxqty : nat) : exec (list Z) :=
  rle_loop (length pixels) (sorted_palette pixels maxqty) pixels (-1) [].

Section colpic.
Context (width height : Z) (get_pixel : Z -> Z -> Z * Z * Z).

(** The pixels row by row, without a flip. *)
Definition image_pixels : list Z :=
  flat_map (fun y => (fun x => pixel_value get_pixel x y) <$> seqZ 0 width) (seqZ 0 height).

Definition colpic_maxqty : nat := 1024.

Definition colpic_encode : exec (list Z) := byte8bit_encode image_pixels colpic_maxqty.

(** [while !data.len().is_multiple_of(3) { data.push(0) }]. *)
Definition pad_multiple_of_3 (data : list Z) : list Z :=
  data ++ replicate ((3 - length data mod 3) mod 3) 0.

Definition text_char (v : Z) : ascii :=
  let ch := v + 48 in ascii_of_nat (Z.to_nat (if Z.eqb ch 92 then 126 else ch)).

Fixpoint pack_text (data : list Z) : string :=
  match data with
  | b0 :: b1 :: b2 :: rest =>
      let combined := combine3 b0 b1 b2 in
      String (text_char (Z.land (Z.shiftr combined 18) 63))
        (String (text_char (Z.land (Z.shiftr combined 12) 63))
          (String (text_char (Z.land (Z.shiftr combined 6) 63))
            (String (text_char (Z.land (Z.shiftr combined 0) 63)) (pack_text rest))))
  | _ => ""
  end.

Definition colpic_encode_str : exec string :=
  let! data := colpic_encode in Done (pack_text (pad_multiple_of_3 data)).
End colpic.

(** ** Reading the stream back *)

(** A reader of the stream: a byte with top bits 7 selects the palette page, 1 to 6 is
    a short run, 0 is followed by the length of a long run. *)
Fixpoint read_stream (bytes : list Z) (sid : Z) : option (list Z) :=
  match bytes with
  | [] => Some []
  | b :: rest =>
      if Z.eqb (b / 32) 7 then read_stream rest (b mod 32)
      else if Z.eqb (b / 32) 0 then
        match rest with
        | run :: rest' => app (replicate (Z.to_nat run) (sid * 32 + b mod 32)) <$> read_stream rest' sid
        | [] => None
        end
      else app (replicate (Z.to_nat (b / 32)) (sid * 32 + b mod 32)) <$> read_stream rest sid
  end.

Lemma bump_color_length c palette p' : bump_color c palette = Some p' -> length p' = length palette.
Proof.
  revert p'; induction palette as [|e palette IH]; intros p'; cbn; [done|].
  destruct (Z.eqb _ c); [by intros [= <-]|]. intros (r & Hr & ->)%fmap_Some. cbn. f_equal. by apply IH.
Qed.

Lemma adlist0_length pixels maxqty : (length (adlist0 pixels maxqty) <= maxqty)%nat.
Proof.
  unfold adlist0. induction pixels as [|c pixels IH] using rev_ind; [cbn; lia|].
  rewrite foldl_app. cbn [foldl]. set (p := foldl _ [] pixels) in *. unfold count_color.
  destruct (bump_color c p) as [p'|] eqn:Hb; [by rewrite (bump_color_length _ _ _ Hb)|].
  destruct (Nat.ltb_spec (length p) maxqty); [|done]. rewrite length_app. cbn. lia.
Qed.

Lemma position_lt c palette i : position c palette = Some i -> (i < length palette)%nat.
Proof.
  revert i; induction palette as [|e palette IH]; intros i; cbn; [done|].
  destruct (Z.eqb _ c); [intros [= <-]; lia|]. intros (j & Hj & ->)%fmap_Some.
  specialize (IH j Hj). lia.
Qed.

Lemma index_of_range palette c :
  (length palette <= 1024)%nat -> 0 <= index_of palette c < 1024.
Proof.
  intros Hl. unfold index_of. destruct (position c palette) as [i|] eqn:Hp; cbn; [|lia].
  pose proof (position_lt _ _ _ Hp). lia.
Qed.

Lemma run_length_le c pixels limit : (run_length c pixels limit <= limit)%nat.
Proof.
  revert pixels; induction limit as [|limit IH]; intros [|p pixels]; cbn; try lia.
  destruct (Z.eqb p c); [specialize (IH pixels); lia|lia].
Qed.

Lemma run_length_split c pixels limit :
  pixels = replicate (run_length c pixels limit) c ++ List.skipn (run_length c pixels limit) pixels.
Proof.
  revert pixels; induction limit as [|limit IH]; intros [|p pixels]; cbn; [done..|].
  destruct (Z.eqb_spec p c) as [->|]; [|done]. cbn. f_equal. apply IH.
Qed.

(** Bytes of the stream. *)
Lemma lor_top_bits h l : 0 <= h -> 0 <= l < 32 -> Z.lor (Z.shiftl h 5) l = h * 32 + l.
Proof.
  intros Hh Hl. rewrite Z.shiftl_mul_pow2 by lia. change (2 ^ 5) with 32.
  apply (lor_disjoint_add _ _ 5); [lia|done|]. apply Z.mod_mul. lia.
Qed.

Lemma read_page sid rest cur :
  0 <= sid < 32 -> read_stream (Z.lor (Z.shiftl 7 5) (sid mod 256) :: rest) cur = read_stream rest sid.
Proof.
  intros Hs. rewrite (Z.mod_small sid 256) by lia. rewrite lor_top_bits by lia. cbn [read_stream].
  replace ((7 * 32 + sid) / 32) with 7 by (Z.to_euclidean_division_equations; lia).
  replace ((7 * 32 + sid) mod 32) with sid by (Z.to_euclidean_division_equations; lia). done.
Qed.

(** The bytes of one run and what they read as. *)
Definition run_bytes (run : nat) (tid : Z) : list Z :=
  if Nat.leb run 6 then [Z.lor (Z.shiftl (Z.of_nat run) 5) (tid mod 256)]
  else [tid mod 256; Z.of_nat run].

Lemma read_run run tid rest sid :
  (1 <= run)%nat -> 0 <= tid < 32 ->
  read_stream (run_bytes run tid ++ rest) sid =
  app (replicate run (sid * 32 + tid)) <$> read_stream rest sid.
Proof.
  intros Hrun Ht. unfold run_bytes. rewrite !(Z.mod_small tid 256) by lia.
  destruct (Nat.leb_spec run 6) as [Hs|Hl]; cbn [app].
  - rewrite lor_top_bits by lia. cbn [read_stream].
    replace ((Z.of_nat run * 32 + tid) / 32) with (Z.of_nat run)
      by (Z.to_euclidean_division_equations; lia).
    replace ((Z.of_nat run * 32 + tid) mod 32) with tid by (Z.to_euclidean_division_equations; lia).
    destruct (Z.eqb_spec (Z.of_nat run) 7); [lia|]. destruct (Z.eqb_spec (Z.of_nat run) 0); [lia|].
    by rewrite Nat2Z.id.
  - cbn [read_stream]. rewrite (Z.div_small tid 32), (Z.mod_small tid 32) by done. cbn [Z.eqb].
    by rewrite Nat2Z.id.
Qed.

(** The code appends to [out]; this is what it appends. *)
Fixpoint rle_bytes (fuel : nat) (palette : list PaletteEntry) (pixels : list Z) (last_sid : Z)
    : list Z :=
  match pixels, fuel with
  | c :: rest, S fuel' =>
      let idx := index_of palette c in
      let run := S (run_length c rest 254) in
      (if Z.eqb (idx / 32) last_sid then [] else [Z.lor (Z.shiftl 7 5) (idx / 32 mod 256)]) ++
      run_bytes run (idx mod 32) ++
      rle_bytes fuel' palette (List.skipn run pixels) (idx / 32)
  | _, _ => []
  end.

Lemma skipn_length_lt (c : Z) rest n fuel :
  (length (c :: rest) <= S fuel)%nat -> (length (List.skipn (S n) (c :: rest)) <= fuel)%nat.
Proof. intros Hl. rewrite List.length_skipn. cbn in *. lia. Qed.

Lemma rle_loop_bytes fuel palette pixels last_sid out :
  (length pixels <= fuel)%nat ->
  rle_loop fuel palette pixels last_sid out = Done (out ++ rle_bytes fuel palette pixels last_sid).
Proof.
  revert pixels last_sid out; induction fuel as [|fuel IH]; intros [|c rest] last_sid out Hf;
    cbn [rle_loop rle_bytes]; try (by rewrite app_nil_r); [cbn in Hf; lia|].
  cbv zeta. rewrite IH by (by apply skipn_length_lt). f_equal. unfold run_bytes.
  destruct (Z.eqb _ last_sid), (Nat.leb _ 6); cbn [app]; rewrite <-!(assoc_L (++)); done.
Qed.

Lemma read_rle_bytes fuel palette pixels last_sid cur :
  (length palette <= 1024)%nat -> (length pixels <= fuel)%nat ->
  (last_sid = cur \/ last_sid = -1) ->
  read_stream (rle_bytes fuel palette pixels last_sid) cur = Some (index_of palette <$> pixels).
Proof.
  intros Hp. revert pixels last_sid cur; induction fuel as [|fuel IH]; intros [|c rest] last_sid cur Hf Hcur;
    cbn [rle_bytes]; [done|cbn in Hf; lia|done|]. cbv zeta.
  pose proof (index_of_range palette c Hp) as Hidx. set (idx := index_of palette c) in *.
  assert (Hsid : 0 <= idx / 32 < 32) by (Z.to_euclidean_division_equations; lia).
  set (run := S (run_length c rest 254)) in *.
  assert (Hpage : forall bytes, read_stream
     ((if Z.eqb (idx / 32) last_sid then [] else [Z.lor (Z.shiftl 7 5) (idx / 32 mod 256)]) ++ bytes) cur =
     read_stream bytes (idx / 32)).
  { intros bytes. destruct (Z.eqb_spec (idx / 32) last_sid) as [Heq|Hne].
    - destruct Hcur as [->|Hm]; [by rewrite Heq|lia].
    - cbn [app]. by apply read_page. }
  rewrite Hpage, read_run; [|unfold run; lia|Z.to_euclidean_division_equations; lia].
  rewrite IH; [|unfold run; by apply skipn_length_lt|by left]. cbn [fmap option_fmap option_map].
  f_equal. replace (idx / 32 * 32 + idx mod 32) with idx by (pose proof (Z.div_mod idx 32 ltac:(lia)); lia).
  assert (Hsplit : c :: rest = replicate run c ++ List.skipn run (c :: rest)).
  { unfold run. cbn [replicate app List.skipn]. f_equal. apply run_length_split. }
  rewrite Hsplit at 2. by rewrite fmap_app, fmap_replicate.
Qed.

(** ** The palette *)

Lemma bump_color_None c palette : bump_color c palette = None <-> c ∉ pe_color <$> palette.
Proof.
  induction palette as [|e palette IH]; cbn; [split; [intros _; apply not_elem_of_nil|done]|].
  rewrite not_elem_of_cons, <-IH. destruct (Z.eqb_spec (pe_color e) c) as [->|Hne].
  - split; [done|]. by intros [? _].
  - rewrite fmap_None. naive_solver.
Qed.

Lemma bump_color_colors c palette p' :
  bump_color c palette = Some p' -> pe_color <$> p' = pe_color <$> palette.
Proof.
  revert p'; induction palette as [|e palette IH]; intros p'; cbn; [done|].
  destruct (Z.eqb _ c); [by intros [= <-]|]. intros (r & Hr & ->)%fmap_Some. cbn. f_equal. by apply IH.
Qed.

Lemma count_color_colors maxqty palette c :
  pe_color <$> count_color maxqty palette c =
  if decide (c ∈ pe_color <$> palette) then pe_color <$> palette
  else if Nat.ltb (length palette) maxqty then (pe_color <$> palette) ++ [c] else pe_color <$> palette.
Proof.
  unfold count_color. destruct (bump_color c palette) as [p'|] eqn:Hb.
  - rewrite (bump_color_colors _ _ _ Hb). rewrite decide_True; [done|].
    destruct (decide (c ∈ pe_color <$> palette)) as [|Hn]; [done|]. apply bump_color_None in Hn. congruence.
  - apply bump_color_None in Hb. rewrite decide_False by done.
    destruct (Nat.ltb _ _); [by rewrite fmap_app|done].
Qed.

Lemma adlist0_colors pixels maxqty :
  NoDup (pe_color <$> adlist0 pixels maxqty) /\
  (forall c, c ∈ pe_color <$> adlist0 pixels maxqty -> c ∈ pixels) /\
  (forall c, c ∈ pixels -> c ∈ pe_color <$> adlist0 pixels maxqty \/
     (length (adlist0 pixels maxqty) >= maxqty)%nat).
Proof.
  unfold adlist0. induction pixels as [|c pixels IH] using rev_ind.
  { cbn. split; [constructor|]. split; [done|]. intros c Hc. by apply elem_of_nil in Hc. }
  rewrite foldl_app. cbn [foldl]. set (p := foldl _ [] pixels) in *.
  destruct IH as (Hnd & Hsub & Hall).
  assert (Hlen : forall q : list PaletteEntry, length q = length (pe_color <$> q)) by (intros; by rewrite length_fmap).
  rewrite (Hlen (count_color _ _ _)), count_color_colors. rewrite (Hlen p) in Hall |- *.
  setoid_rewrite elem_of_app. setoid_rewrite list_elem_of_singleton.
  destruct (decide (c ∈ pe_color <$> p)) as [Hin|Hni].
  - split; [done|]. split; [intros x Hx; left; by apply Hsub|]. intros x [Hx | ->]; [by apply Hall|by left].
  - destruct (Nat.ltb_spec (length (pe_color <$> p)) maxqty) as [Hlt|Hge].
    + split; [|split].
      * apply NoDup_app. split; [done|]. split; [|apply NoDup_singleton].
        by intros x Hx ->%list_elem_of_singleton.
      * intros x [Hx | ->%list_elem_of_singleton]%elem_of_app; [left; by apply Hsub|by right].
      * intros x [Hx | ->]; [|left; apply elem_of_app; right; left].
        destruct (Hall x Hx) as [?|?]; [left; apply elem_of_app; by left|lia].
    + split; [done|]. split; [intros x Hx; left; by apply Hsub|]. intros x _. by right.
Qed.

(** With at most [maxqty] distinct colours every colour is in the palette. *)
Lemma adlist0_complete pixels maxqty c :
  (length (remove_dups pixels) <= maxqty)%nat -> c ∈ pixels -> c ∈ pe_color <$> adlist0 pixels maxqty.
Proof.
  intros Hd Hc. destruct (adlist0_colors pixels maxqty) as (Hnd & Hsub & Hall).
  destruct (Hall c Hc) as [|Hfull]; [done|].
  destruct (decide (c ∈ pe_color <$> adlist0 pixels maxqty)) as [|Hni]; [done|]. exfalso.
  assert (Hle : (length (c :: (pe_color <$> adlist0 pixels maxqty)) <= length (remove_dups pixels))%nat).
  { apply submseteq_length, NoDup_submseteq; [by constructor|].
    intros x Hx. apply elem_of_remove_dups. apply elem_of_cons in Hx as [->|Hx]; auto. }
  cbn in Hle. rewrite length_fmap in Hle. lia.
Qed.

Lemma position_Some c palette :
  c ∈ pe_color <$> palette ->
  exists i e, position c palette = Some i /\ palette !! i = Some e /\ pe_color e = c.
Proof.
  induction palette as [|e palette IH]; cbn; [by intros ?%elem_of_nil|].
  intros Hin. destruct (Z.eqb_spec (pe_color e) c) as [|Hne]; [by exists O, e|].
  apply elem_of_cons in Hin as [->|Hin]; [done|]. destruct (IH Hin) as (i & e' & -> & Hl & Hc).
  by exists (S i), e'.
Qed.

Lemma rle_bytes_are_bytes fuel palette pixels last_sid :
  (length palette <= 1024)%nat -> Forall is_byte (rle_bytes fuel palette pixels last_sid).
Proof.
  intros Hp. revert pixels last_sid; induction fuel as [|fuel IH]; intros [|c rest] last_sid;
    cbn [rle_bytes]; try constructor. cbv zeta.
  pose proof (index_of_range palette c Hp) as Hidx. set (idx := index_of palette c) in *.
  assert (Hsid : 0 <= idx / 32 < 32) by (Z.to_euclidean_division_equations; lia).
  assert (Htid : 0 <= idx mod 32 < 32) by (apply Z.mod_pos_bound; lia).
  pose proof (run_length_le c rest 254) as Hrun. unfold is_byte in *.
  apply Forall_app_2; [|apply Forall_app_2; [|apply IH]].
  - destruct (Z.eqb _ _); [constructor|]. rewrite (Z.mod_small _ 256) by lia.
    rewrite lor_top_bits by lia. repeat constructor; lia.
  - unfold run_bytes. rewrite !(Z.mod_small (idx mod 32) 256) by lia.
    destruct (Nat.leb_spec (S (run_length c rest 254)) 6).
    + rewrite lor_top_bits by lia. repeat constructor; lia.
    + repeat constructor; lia.
Qed.

(** The ColPic stream is lossless up to the palette: encoding always finishes,
    emits bytes, and reading the stream back gives the palette index of every pixel in
    order; with at most [maxqty] distinct colours (at most 1024 of them, so that a page
    number fits its five bits) each index leads to the colour of its pixel. *)
Theorem colpic_stream_roundtrip (pixels : list Z) (maxqty : nat) :
  (maxqty <= 1024)%nat ->
  exists bytes, byte8bit_encode pixels maxqty = Done bytes /\ Forall is_byte bytes /\
    let palette := sorted_palette pixels maxqty in
    read_stream bytes 0 = Some (index_of palette <$> pixels) /\
    ((length (remove_dups pixels) <= maxqty)%nat -> forall c, c ∈ pixels ->
       exists e, palette !! Z.to_nat (index_of palette c) = Some e /\ pe_color e = c).
Proof.
  intros Hq. unfold byte8bit_encode. rewrite rle_loop_bytes by done. cbn [app].
  eexists. split; [reflexivity|]. cbn zeta.
  assert (Hp : (length (sorted_palette pixels maxqty) <= 1024)%nat).
  { unfold sorted_palette. rewrite length_sort_by. pose proof (adlist0_length pixels maxqty). lia. }
  split; [by apply rle_bytes_are_bytes|]. split; [by apply read_rle_bytes; [done|done|right]|].
  intros Hd c Hc. destruct (position_Some c (sorted_palette pixels maxqty)) as (i & e & Hi & Hl & He).
  - pose proof (adlist0_complete pixels maxqty c Hd Hc) as Hin. unfold sorted_palette.
    apply list_elem_of_fmap in Hin as (e & -> & Hin). apply list_elem_of_fmap_2.
    by apply elem_of_sort_by.
  - exists e. unfold index_of. rewrite Hi. cbn. by rewrite Nat2Z.id.
Qed.

Lemma colpic_stream_roundtrip_witness :
  (3 <= 1024)%nat /\ byte8bit_encode [9; 9; 5; 7] 3 = Done [224; 64; 33; 34] /\
  read_stream [224; 64; 33; 34] 0 = Some [0; 0; 1; 2].
Proof.
  assert (Hle : (3 <= 1024)%nat) by (apply Nat.leb_le; reflexivity).
  split; [exact Hle|].
  destruct (colpic_stream_roundtrip [9; 9; 5; 7] 3 Hle) as (bytes & Hrun & _ & Hread & _).
  assert (Henc : byte8bit_encode [9; 9; 5; 7] 3 = Done [224; 64; 33; 34]) by (vm_compute; reflexivity).
  split; [exact Henc|]. rewrite Henc in Hrun. injection Hrun as <-. exact Hread.
Defined.

(** ** The palette is not sent *)

Section recolor.
Context (f : Z -> Z) (f_inj : forall a b, f a = f b -> a = b).

Definition recolor (e : PaletteEntry) : PaletteEntry :=
  {| pe_color := f (pe_color e); pe_qty := pe_qty e |}.

Lemma eqb_recolor a b : Z.eqb (f a) (f b) = Z.eqb a b.
Proof using f_inj.
  destruct (Z.eqb_spec a b) as [->|Hne]; [apply Z.eqb_refl|]. apply Z.eqb_neq. auto.
Qed.

Lemma bump_recolor c palette :
  bump_color (f c) (recolor <$> palette) = fmap (M := list) recolor <$> bump_color c palette.
Proof using f_inj.
  induction palette as [|e palette IH]; cbn [bump_color fmap list_fmap]; [done|].
  cbn [recolor pe_color pe_qty]. rewrite eqb_recolor. destruct (Z.eqb _ c); [done|].
  change (list_fmap _ _ recolor palette) with (recolor <$> palette). rewrite IH.
  by destruct (bump_color c palette).
Qed.

Lemma adlist0_recolor pixels maxqty :
  adlist0 (f <$> pixels) maxqty = recolor <$> adlist0 pixels maxqty.
Proof using f_inj.
  unfold adlist0. induction pixels as [|c pixels IH] using rev_ind; [done|].
  rewrite fmap_app, !foldl_app. cbn [fmap list_fmap foldl]. rewrite IH.
  set (p := foldl _ [] pixels). unfold count_color. rewrite bump_recolor, length_fmap.
  destruct (bump_color c p); [done|]. cbn [fmap option_fmap option_map].
  destruct (Nat.ltb _ _); [by rewrite fmap_app|done].
Qed.

Lemma index_recolor palette c : index_of (recolor <$> palette) (f c) = index_of palette c.
Proof using f_inj.
  unfold index_of. f_equal. f_equal.
  induction palette as [|e palette IH]; [done|]. cbn [fmap list_fmap position recolor pe_color].
  rewrite eqb_recolor. destruct (Z.eqb _ c); [done|]. by rewrite <-IH.
Qed.

Lemma run_length_recolor c pixels limit :
  run_length (f c) (f <$> pixels) limit = run_length c pixels limit.
Proof using f_inj.
  revert pixels; induction limit as [|limit IH]; intros [|p pixels]; cbn; [done..|].
  rewrite eqb_recolor. destruct (Z.eqb p c); [|done]. f_equal. apply IH.
Qed.

Lemma rle_bytes_recolor fuel palette pixels last_sid :
  rle_bytes fuel (recolor <$> palette) (f <$> pixels) last_sid = rle_bytes fuel palette pixels last_sid.
Proof using f_inj.
  revert pixels last_sid; induction fuel as [|fuel IH]; intros [|c rest] last_sid;
    cbn [fmap list_fmap rle_bytes]; [done..|]. cbv zeta.
  rewrite index_recolor. change (list_fmap _ _ f rest) with (f <$> rest). rewrite run_length_recolor.
  do 2 f_equal. rewrite <-IH. f_equal. cbn [List.skipn]. apply List.skipn_map.
Qed.
End recolor.

(** The stream carries no colours: any two images that differ by an injective
    change of their colours are encoded to the same bytes, so the reader of the G-code
    comment cannot tell which colours the thumbnail has. *)
Theorem colpic_stream_drops_colors (pixels : list Z) (maxqty : nat) (f : Z -> Z) :
  (forall a b, f a = f b -> a = b) ->
  byte8bit_encode (f <$> pixels) maxqty = byte8bit_encode pixels maxqty.
Proof.
  intros Hf. unfold byte8bit_encode, sorted_palette. rewrite !rle_loop_bytes by done.
  rewrite length_fmap, (adlist0_recolor f Hf).
  rewrite (sort_by_fmap (recolor f) _ (fun a b => Z.leb (pe_qty b) (pe_qty a))) by done.
  by rewrite (rle_bytes_recolor f Hf).
Qed.

Lemma colpic_stream_drops_colors_witness :
  (forall a b, a + 1 = b + 1 -> a = b) /\
  byte8bit_encode [63488; 63488] 1024 = byte8bit_encode [63489; 63489] 1024.
Proof.
  assert (Hf : forall a b, a + 1 = b + 1 -> a = b) by (intros; lia).
  split; [exact Hf|]. symmetry.
  exact (colpic_stream_drops_colors [63488; 63488] 1024 (fun c => c + 1) Hf).
Defined.

(** ** The six-bit text *)

(** A reader of the text: the remapped [~] stands for the value of a backslash. *)
Definition text_value (c : ascii) : Z :=
  let n := Z.of_nat (nat_of_ascii c) in if Z.eqb n 126 then 44 else n - 48.

Fixpoint read_text (s : string) : option (list Z) :=
  match s with
  | EmptyString => Some []
  | String c0 (String c1 (String c2 (String c3 rest))) =>
      let v := text_value c0 * 262144 + text_value c1 * 4096 + text_value c2 * 64 + text_value c3 in
      app [v / 65536; v / 256 mod 256; v mod 256] <$> read_text rest
  | _ => None
  end.

Lemma text_value_char v : 0 <= v < 64 -> text_value (text_char v) = v /\ text_char v <> "\"%char.
Proof.
  intros Hv.
  assert (Hall : Forall (fun n => text_value (text_char (Z.of_nat n)) = Z.of_nat n /\
            Ascii.eqb (text_char (Z.of_nat n)) "\"%char = false) (seq 0 64))
    by (apply (bool_decide_unpack _); vm_compute; exact I).
  rewrite Forall_forall in Hall. destruct (Hall (Z.to_nat v)) as [H1 H2]; [apply elem_of_seq; lia|].
  rewrite Z2Nat.id in H1, H2 by lia. split; [done|]. by apply Ascii.eqb_neq.
Qed.

Lemma pack_text_roundtrip data :
  Forall is_byte data -> (length data mod 3 = 0)%nat ->
  read_text (pack_text data) = Some data /\ has_char "\" (pack_text data) = false.
Proof.
  induction data as [|b0|b0 b1|b0 b1 b2 data IH] using list_ind3; intros Hb Hlen; [done|done|done|].
  inversion_clear Hb as [|? ? H0 Hb']. inversion_clear Hb' as [|? ? H1 Hb''].
  inversion_clear Hb'' as [|? ? H2 Hrest]. destruct IH as [IHr IHc]; [done| |].
  { cbn [length] in Hlen. replace (S (S (S (length data)))) with (length data + 1 * 3)%nat in Hlen by lia.
    by rewrite Nat.Div0.mod_add in Hlen. }
  cbn [pack_text]. rewrite combine3_value by done. unfold is_byte in *.
  change 63 with (Z.ones 6). rewrite !land_ones_mod, !Z.shiftr_div_pow2 by lia.
  set (v := b0 * 65536 + b1 * 256 + b2).
  change (2 ^ 6) with 64. change (2 ^ 18) with 262144. change (2 ^ 12) with 4096. change (2 ^ 0) with 1.
  assert (Hv : forall k, 0 <= v / k mod 64 < 64) by (intros; apply Z.mod_pos_bound; lia).
  cbn [read_text has_char]. rewrite !(proj1 (text_value_char _ (Hv _))), IHr, IHc. split.
  - cbn [fmap option_fmap option_map app]. unfold v. do 2 f_equal; [|f_equal; [|f_equal]];
      Z.to_euclidean_division_equations; lia.
  - rewrite orb_false_r, !orb_false_iff.
    by repeat split; apply Ascii.eqb_neq, not_eq_sym, text_value_char.
Qed.

(** The ColPic text of an image always exists, holds no backslash, and reads back
    to the encoded stream followed by fewer than three zero bytes of padding; that
    stream lists the palette index of every pixel. *)
Theorem colpic_text_roundtrip (width height : Z) (get_pixel : Z -> Z -> Z * Z * Z) :
  exists text bytes pad, colpic_encode_str width height get_pixel = Done text /\
    has_char "\" text = false /\ (pad < 3)%nat /\
    read_text text = Some (bytes ++ replicate pad 0) /\
    read_stream bytes 0 =
      Some (index_of (sorted_palette (image_pixels width height get_pixel) colpic_maxqty) <$>
            image_pixels width height get_pixel).
Proof.
  unfold colpic_encode_str, colpic_encode, colpic_maxqty, byte8bit_encode.
  set (pixels := image_pixels width height get_pixel). rewrite rle_loop_bytes by done. cbn [app exec_bind].
  set (palette := sorted_palette pixels 1024).
  assert (Hp : (length palette <= 1024)%nat).
  { unfold palette, sorted_palette. rewrite length_sort_by. apply adlist0_length. }
  set (bytes := rle_bytes (length pixels) palette pixels (-1)).
  assert (Hpad : ((3 - length bytes mod 3) mod 3 < 3)%nat) by (apply Nat.mod_upper_bound; lia).
  destruct (pack_text_roundtrip (pad_multiple_of_3 bytes)) as [Hr Hc].
  - apply Forall_app_2; [by apply rle_bytes_are_bytes|]. by apply Forall_replicate.
  - unfold pad_multiple_of_3. rewrite length_app, length_replicate.
    pose proof (Nat.div_mod_eq (length bytes) 3). pose proof (Nat.mod_upper_bound (length bytes) 3 ltac:(lia)).
    assert (Hcase : (length bytes mod 3 = 0 \/ length bytes mod 3 = 1 \/ length bytes mod 3 = 2)%nat) by lia.
    destruct Hcase as [Hm|[Hm|Hm]]; rewrite <-Nat.Div0.add_mod_idemp_l, Hm; reflexivity.
  - exists (pack_text (pad_multiple_of_3 bytes)), bytes, ((3 - length bytes mod 3) mod 3)%nat.
    split; [done|]. split; [done|]. split; [done|]. split; [exact Hr|].
    apply read_rle_bytes; [done|done|by right].
Qed.
