(* ===== verification/Blackboard.v ===== *)
(** The host-owned blackboard ([slicer-runtime/src/blackboard.rs]): write-once
    slots for the prepass products and for one output per layer, with the
    identity checks of the seam and support plans ([slicer-ir/src/slice_ir.rs])
    and the errors of [slicer-ir/src/stage_io.rs].

    The blackboard moves the products it stores and reads nothing of them but
    the entries of seam and support plans, so the other product types are
    parameters ([IrTypes]).  [estimated_size] is left out: it sums the layout
    dependent [size_of] of Rust types for a report. *)
From stdpp Require Import prelude list strings.
From S2P Require Import Prelude Ir.

(** The types of the products the blackboard and the layer arena carry. *)
Class IrTypes := {
  MeshIR : Type;
  SurfaceClassificationIR : Type;
  LayerPlanIR : Type;
  RegionMapIR : Type;
  SliceIR : Type;
  LayerSelectionIndex : Type;
  SupportGeometryIR : Type;
  SupportAnalysisIR : Type;
  LayerCollectionIR : Type;
  SeamPosition : Type;
  ScoredSeamCandidate : Type;
  SupportPlanRoleRegion : Type;
  SupportPlanSkeleton : Type;
  PerimeterIR : Type;
  InfillIR : Type;
  SupportIR : Type;
  PreparedRegionData : Type;
  OrderedEventCollection : Type;
  LayerAnnotation : Type
}.

(** ** Errors *)

Inductive BlackboardPrepassSlot :=
| SlotSurfaceClassification
| SlotLayerPlan
| SlotSeamPlan
| SlotSupportPlan
| SlotRegionMap
| SlotSliceIR
| SlotSupportGeometry
| SlotSupportAnalysis.

Inductive BlackboardError :=
| DuplicatePrepassCommit (slot : BlackboardPrepassSlot)
| DuplicateSeamPlanEntry (region_key : RegionKey)
| DuplicateSupportPlanEntry (global_layer_index : Z) (object_id : ObjectId)
    (region_id : RegionId) (variant_chain : list (string * PaintValue))
| MissingRequiredPrepass (slot : BlackboardPrepassSlot)
| DuplicateLayerCommit (layer_index : nat)
| LayerSlotOutOfRange (layer_index layer_count : nat)
| IncompleteLayerDrain (missing_indices : list nat)
| LayerOutputsAlreadyDrained.

#[export] Instance BlackboardPrepassSlot_eq_dec : EqDecision BlackboardPrepassSlot.
Proof. solve_decision. Defined.
#[export] Instance BlackboardError_eq_dec : EqDecision BlackboardError.
Proof. solve_decision. Defined.

Inductive LayerSelectionIndexCommitError := SelectionIndexAlreadyCommitted.

(** ** Seam and support plans *)

Section blackboard.
Context `{T : IrTypes}.

Record SeamPlanEntry := {
  spe_region_key : RegionKey;
  spe_chosen_candidate : SeamPosition;
  spe_scored_candidates : list ScoredSeamCandidate
}.

Record SeamPlanIR := {
  seam_schema_version : SemVer;
  seam_entries : list SeamPlanEntry
}.

(** The first element of [l] that occurs before itself or in [seen]: the loops
    [if !seen.insert(x) { return Some(x) }]. *)
Fixpoint first_repeated {A} `{EqDecision A} (seen l : list A) : option A :=
  match l with
  | [] => None
  | x :: l' => if decide (x ∈ seen) then Some x else first_repeated (x :: seen) l'
  end.

Definition duplicate_region_key (ir : SeamPlanIR) : option RegionKey :=
  first_repeated [] (spe_region_key <$> seam_entries ir).

Inductive SupportPlanDeclineReason := DeclinedPolicy | NoRoute | Blocked | UnsupportedMode.

Record SupportPlanEntry := {
  sup_global_layer_index : Z;
  sup_object_id : ObjectId;
  sup_region_id : RegionId;
  sup_family_id : string;
  sup_demand_ids : list string;
  sup_body_ids : list string;
  sup_anchor_layer_index : Z;
  sup_anchor_z : Z;
  sup_roles : list SupportPlanRoleRegion;
  sup_skeleton : option SupportPlanSkeleton;
  sup_capabilities : list string;
  sup_provenance : list string;
  sup_decline_reason : option SupportPlanDeclineReason;
  sup_variant_chain : list (string * PaintValue)
}.

Record RaftPlan := {
  raft_layers : Z;
  raft_first_layer_density : f32;
  base_raft_layers : Z;
  interface_raft_layers : Z
}.

Record SupportPlanIR := {
  sup_schema_version : SemVer;
  sup_entries : list SupportPlanEntry;
  sup_raft_plan : option RaftPlan
}.

Definition support_identity (e : SupportPlanEntry)
    : Z * ObjectId * RegionId * list (string * PaintValue) :=
  (sup_global_layer_index e, sup_object_id e, sup_region_id e, sup_variant_chain e).

Definition duplicate_region_identity (ir : SupportPlanIR)
    : option (Z * ObjectId * RegionId * list (string * PaintValue)) :=
  first_repeated [] (support_identity <$> sup_entries ir).

(** Densities compare by their bits ([to_bits]). *)
Definition raft_key (plan : RaftPlan) : Z * (Z * (Z * Z)) :=
  (raft_layers plan, (f32_bits (raft_first_layer_density plan),
     (base_raft_layers plan, interface_raft_layers plan))).

Definition raft_plan_min (a b : RaftPlan) : RaftPlan :=
  if rust_leb (raft_key a) (raft_key b) then a else b.

(** ** The blackboard *)

Record Blackboard := {
  mesh_ir : MeshIR;
  surface_classification : option SurfaceClassificationIR;
  layer_plan : option LayerPlanIR;
  seam_plan : option SeamPlanIR;
  support_plan : option SupportPlanIR;
  region_map : option RegionMapIR;
  slice_ir : option (list SliceIR);
  layer_selection_index : option LayerSelectionIndex;
  support_geometry : option SupportGeometryIR;
  support_analysis : option SupportAnalysisIR;
  layer_outputs : option (list (option LayerCollectionIR))
}.

(** Assignments to one field. *)
Definition set_surface_classification (bb : Blackboard) (v : option SurfaceClassificationIR) : Blackboard :=
  {| mesh_ir := mesh_ir bb; surface_classification := v; layer_plan := layer_plan bb;
     seam_plan := seam_plan bb; support_plan := support_plan bb;
     region_map := region_map bb; slice_ir := slice_ir bb;
     layer_selection_index := layer_selection_index bb;
     support_geometry := support_geometry bb; support_analysis := support_analysis bb;
     layer_outputs := layer_outputs bb |}.
Definition set_layer_plan (bb : Blackboard) (v : option LayerPlanIR) : Blackboard :=
  {| mesh_ir := mesh_ir bb; surface_classification := surface_classification bb;
     layer_plan := v; seam_plan := seam_plan bb; support_plan := support_plan bb;
     region_map := region_map bb; slice_ir := slice_ir bb;
     layer_selection_index := layer_selection_index bb;
     support_geometry := support_geometry bb; support_analysis := support_analysis bb;
     layer_outputs := layer_outputs bb |}.
Definition set_seam_plan (bb : Blackboard) (v : option SeamPlanIR) : Blackboard :=
  {| mesh_ir := mesh_ir bb; surface_classification := surface_classification bb;
     layer_plan := layer_plan bb; seam_plan := v; support_plan := support_plan bb;
     region_map := region_map bb; slice_ir := slice_ir bb;
     layer_selection_index := layer_selection_index bb;
     support_geometry := support_geometry bb; support_analysis := support_analysis bb;
     layer_outputs := layer_outputs bb |}.
Definition set_support_plan (bb : Blackboard) (v : option SupportPlanIR) : Blackboard :=
  {| mesh_ir := mesh_ir bb; surface_classification := surface_classification bb;
     layer_plan := layer_plan bb; seam_plan := seam_plan bb; support_plan := v;
     region_map := region_map bb; slice_ir := slice_ir bb;
     layer_selection_index := layer_selection_index bb;
     support_geometry := support_geometry bb; support_analysis := support_analysis bb;
     layer_outputs := layer_outputs bb |}.
Definition set_region_map (bb : Blackboard) (v : option RegionMapIR) : Blackboard :=
  {| mesh_ir := mesh_ir bb; surface_classification := surface_classification bb;
     layer_plan := layer_plan bb; seam_plan := seam_plan bb;
     support_plan := support_plan bb; region_map := v; slice_ir := slice_ir bb;
     layer_selection_index := layer_selection_index bb;
     support_geometry := support_geometry bb; support_analysis := support_analysis bb;
     layer_outputs := layer_outputs bb |}.
Definition set_slice_ir (bb : Blackboard) (v : option (list SliceIR)) : Blackboard :=
  {| mesh_ir := mesh_ir bb; surface_classification := surface_classification bb;
     layer_plan := layer_plan bb; seam_plan := seam_plan bb;
     support_plan := support_plan bb; region_map := region_map bb; slice_ir := v;
     layer_selection_index := layer_selection_index bb;
     support_geometry := support_geometry bb; support_analysis := support_analysis bb;
     layer_outputs := layer_outputs bb |}.
Definition set_layer_selection_index (bb : Blackboard) (v : option LayerSelectionIndex) : Blackboard :=
  {| mesh_ir := mesh_ir bb; surface_classification := surface_classification bb;
     layer_plan := layer_plan bb; seam_plan := seam_plan bb;
     support_plan := support_plan bb; region_map := region_map bb;
     slice_ir := slice_ir bb; layer_selection_index := v;
     support_geometry := support_geometry bb; support_analysis := support_analysis bb;
     layer_outputs := layer_outputs bb |}.
Definition set_support_geometry (bb : Blackboard) (v : option SupportGeometryIR) : Blackboard :=
  {| mesh_ir := mesh_ir bb; surface_classification := surface_classification bb;
     layer_plan := layer_plan bb; seam_plan := seam_plan bb;
     support_plan := support_plan bb; region_map := region_map bb;
     slice_ir := slice_ir bb; layer_selection_index := layer_selection_index bb;
     support_geometry := v; support_analysis := support_analysis bb;
     layer_outputs := layer_outputs bb |}.
Definition set_support_analysis (bb : Blackboard) (v : option SupportAnalysisIR) : Blackboard :=
  {| mesh_ir := mesh_ir bb; surface_classification := surface_classification bb;
     layer_plan := layer_plan bb; seam_plan := seam_plan bb;
     support_plan := support_plan bb; region_map := region_map bb;
     slice_ir := slice_ir bb; layer_selection_index := layer_selection_index bb;
     support_geometry := support_geometry bb; support_analysis := v;
     layer_outputs := layer_outputs bb |}.
Definition set_layer_outputs (bb : Blackboard) (v : option (list (option LayerCollectionIR))) : Blackboard :=
  {| mesh_ir := mesh_ir bb; surface_classification := surface_classification bb;
     layer_plan := layer_plan bb; seam_plan := seam_plan bb;
     support_plan := support_plan bb; region_map := region_map bb;
     slice_ir := slice_ir bb; layer_selection_index := layer_selection_index bb;
     support_geometry := support_geometry bb; support_analysis := support_analysis bb;
     layer_outputs := v |}.

Definition new (mesh : MeshIR) (layer_count : nat) : Blackboard :=
  {| mesh_ir := mesh; surface_classification := None; layer_plan := None;
     seam_plan := None; support_plan := None; region_map := None; slice_ir := None;
     layer_selection_index := None; support_geometry := None; support_analysis := None;
     layer_outputs := Some (replicate layer_count None) |}.

Definition commit_prepass {A} (slot : option A) (ir : A) (slot_name : BlackboardPrepassSlot)
    : option A * result unit BlackboardError :=
  match slot with
  | Some _ => (slot, Err (DuplicatePrepassCommit slot_name))
  | None => (Some ir, Ok tt)
  end.

Definition commit_surface_classification (bb : Blackboard) (ir : SurfaceClassificationIR)
    : Blackboard * result unit BlackboardError :=
  let '(slot, r) := commit_prepass (surface_classification bb) ir SlotSurfaceClassification in
  (set_surface_classification bb slot, r).

Definition replace_surface_classification (bb : Blackboard) (ir : SurfaceClassificationIR)
    : Blackboard * result unit BlackboardError :=
  match surface_classification bb with
  | None => (bb, Err (MissingRequiredPrepass SlotSurfaceClassification))
  | Some _ => (set_surface_classification bb (Some ir), Ok tt)
  end.

Definition commit_layer_plan (bb : Blackboard) (ir : LayerPlanIR)
    : Blackboard * result unit BlackboardError :=
  let '(slot, r) := commit_prepass (layer_plan bb) ir SlotLayerPlan in
  (set_layer_plan bb slot, r).

Definition replace_layer_plan (bb : Blackboard) (ir : LayerPlanIR)
    : Blackboard * result unit BlackboardError :=
  match layer_plan bb with
  | None => (bb, Err (MissingRequiredPrepass SlotLayerPlan))
  | Some _ => (set_layer_plan bb (Some ir), Ok tt)
  end.

Definition commit_seam_plan (bb : Blackboard) (ir : SeamPlanIR)
    : Blackboard * result unit BlackboardError :=
  match duplicate_region_key ir with
  | Some duplicate => (bb, Err (DuplicateSeamPlanEntry duplicate))
  | None =>
      let '(slot, r) := commit_prepass (seam_plan bb) ir SlotSeamPlan in
      (set_seam_plan bb slot, r)
  end.

Definition duplicate_support_error
    (id : Z * ObjectId * RegionId * list (string * PaintValue)) : BlackboardError :=
  let '(global_layer_index, object_id, region_id, variant_chain) := id in
  DuplicateSupportPlanEntry global_layer_index object_id region_id variant_chain.

Definition merge_raft_plans (current incoming : option RaftPlan) : option RaftPlan :=
  match current, incoming with
  | None, None => None
  | Some current, None => Some current
  | None, Some incoming => Some incoming
  | Some current, Some incoming => Some (raft_plan_min current incoming)
  end.

Definition commit_support_plan (bb : Blackboard) (ir : SupportPlanIR)
    : Blackboard * result unit BlackboardError :=
  match support_plan bb with
  | None =>
      match duplicate_region_identity ir with
      | Some id => (bb, Err (duplicate_support_error id))
      | None => (set_support_plan bb (Some ir), Ok tt)
      end
  | Some existing =>
      if decide (sup_schema_version existing <> sup_schema_version ir)
      then (bb, Err (DuplicatePrepassCommit SlotSupportPlan))
      else
        let merged :=
          {| sup_schema_version := sup_schema_version existing;
             sup_entries := sup_entries existing ++ sup_entries ir;
             sup_raft_plan := sup_raft_plan existing |} in
        match duplicate_region_identity merged with
        | Some id => (bb, Err (duplicate_support_error id))
        | None =>
            let merged :=
              {| sup_schema_version := sup_schema_version merged;
                 sup_entries := sup_entries merged;
                 sup_raft_plan := merge_raft_plans (sup_raft_plan merged) (sup_raft_plan ir) |} in
            (set_support_plan bb (Some merged), Ok tt)
        end
  end.

Definition commit_region_map (bb : Blackboard) (ir : RegionMapIR)
    : Blackboard * result unit BlackboardError :=
  let '(slot, r) := commit_prepass (region_map bb) ir SlotRegionMap in
  (set_region_map bb slot, r).

Definition commit_slice_ir (bb : Blackboard) (ir : list SliceIR)
    : Blackboard * result unit BlackboardError :=
  let '(slot, r) := commit_prepass (slice_ir bb) ir SlotSliceIR in
  (set_slice_ir bb slot, r).

(** The [debug_assert] of the source is compiled out of release builds. *)
Definition replace_slice_ir (bb : Blackboard) (ir : list SliceIR)
    : Blackboard * result unit BlackboardError :=
  match slice_ir bb with
  | None => (bb, Err (MissingRequiredPrepass SlotSliceIR))
  | Some _ => (set_slice_ir bb (Some ir), Ok tt)
  end.

Definition commit_layer_selection_index (bb : Blackboard) (index : LayerSelectionIndex)
    : Blackboard * result unit LayerSelectionIndexCommitError :=
  match layer_selection_index bb with
  | Some _ => (bb, Err SelectionIndexAlreadyCommitted)
  | None => (set_layer_selection_index bb (Some index), Ok tt)
  end.

Definition commit_support_geometry (bb : Blackboard) (ir : SupportGeometryIR)
    : Blackboard * result unit BlackboardError :=
  let '(slot, r) := commit_prepass (support_geometry bb) ir SlotSupportGeometry in
  (set_support_geometry bb slot, r).

Definition commit_support_analysis (bb : Blackboard) (ir : SupportAnalysisIR)
    : Blackboard * result unit BlackboardError :=
  let '(slot, r) := commit_prepass (support_analysis bb) ir SlotSupportAnalysis in
  (set_support_analysis bb slot, r).

Definition commit_layer_output (bb : Blackboard) (layer_index : nat) (ir : LayerCollectionIR)
    : Blackboard * result unit BlackboardError :=
  match layer_outputs bb with
  | None => (bb, Err LayerOutputsAlreadyDrained)
  | Some outputs =>
      match outputs !! layer_index with
      | None => (bb, Err (LayerSlotOutOfRange layer_index (length outputs)))
      | Some (Some _) => (bb, Err (DuplicateLayerCommit layer_index))
      | Some None => (set_layer_outputs bb (Some (<[layer_index := Some ir]> outputs)), Ok tt)
      end
  end.

(** The indexes of the empty slots, in order. *)
Definition missing_indices (outputs : list (option LayerCollectionIR)) : list nat :=
  omap (fun '(index, slot) => match slot with None => Some index | Some _ => None end)
       (zip (seq 0 (length outputs)) outputs).

(** The [unreachable!] arm of the source is the dropped [None]. *)
Definition drain_layer_outputs (bb : Blackboard)
    : Blackboard * result (list LayerCollectionIR) BlackboardError :=
  match layer_outputs bb with
  | None => (bb, Err LayerOutputsAlreadyDrained)
  | Some outputs =>
      match missing_indices outputs with
      | [] => (set_layer_outputs bb None, Ok (omap id outputs))
      | missing => (bb, Err (IncompleteLayerDrain missing))
      end
  end.

(** ** Calls, replies and runs *)

Inductive bb_call :=
| CommitSurfaceClassification (ir : SurfaceClassificationIR)
| ReplaceSurfaceClassification (ir : SurfaceClassificationIR)
| CommitLayerPlan (ir : LayerPlanIR)
| ReplaceLayerPlan (ir : LayerPlanIR)
| CommitSeamPlan (ir : SeamPlanIR)
| CommitSupportPlan (ir : SupportPlanIR)
| CommitRegionMap (ir : RegionMapIR)
| CommitSliceIr (ir : list SliceIR)
| ReplaceSliceIr (ir : list SliceIR)
| CommitLayerSelectionIndex (index : LayerSelectionIndex)
| CommitSupportGeometry (ir : SupportGeometryIR)
| CommitSupportAnalysis (ir : SupportAnalysisIR)
| CommitLayerOutput (layer_index : nat) (ir : LayerCollectionIR)
| DrainLayerOutputs.

Inductive bb_reply :=
| Done_ (r : result unit BlackboardError)
| Selected (r : result unit LayerSelectionIndexCommitError)
| Drained (r : result (list LayerCollectionIR) BlackboardError).

Definition bb_step (bb : Blackboard) (c : bb_call) : Blackboard * bb_reply :=
  match c with
  | CommitSurfaceClassification ir => prod_map id Done_ (commit_surface_classification bb ir)
  | ReplaceSurfaceClassification ir => prod_map id Done_ (replace_surface_classification bb ir)
  | CommitLayerPlan ir => prod_map id Done_ (commit_layer_plan bb ir)
  | ReplaceLayerPlan ir => prod_map id Done_ (replace_layer_plan bb ir)
  | CommitSeamPlan ir => prod_map id Done_ (commit_seam_plan bb ir)
  | CommitSupportPlan ir => prod_map id Done_ (commit_support_plan bb ir)
  | CommitRegionMap ir => prod_map id Done_ (commit_region_map bb ir)
  | CommitSliceIr ir => prod_map id Done_ (commit_slice_ir bb ir)
  | ReplaceSliceIr ir => prod_map id Done_ (replace_slice_ir bb ir)
  | CommitLayerSelectionIndex index => prod_map id Selected (commit_layer_selection_index bb index)
  | CommitSupportGeometry ir => prod_map id Done_ (commit_support_geometry bb ir)
  | CommitSupportAnalysis ir => prod_map id Done_ (commit_support_analysis bb ir)
  | CommitLayerOutput layer_index ir => prod_map id Done_ (commit_layer_output bb layer_index ir)
  | DrainLayerOutputs => prod_map id Drained (drain_layer_outputs bb)
  end.

(** The blackboards a print reaches, with the log of calls and replies. *)
Inductive bb_run (mesh : MeshIR) (layer_count : nat)
    : list (bb_call * bb_reply) -> Blackboard -> Prop :=
| bb_run_new : bb_run mesh layer_count [] (new mesh layer_count)
| bb_run_step log bb c bb' r :
    bb_run mesh layer_count log bb ->
    bb_step bb c = (bb', r) ->
    bb_run mesh layer_count (log ++ [(c, r)]) bb'.

(** ** Specification: a blackboard is its log

    The abstract blackboard keeps nothing but the log of the calls made and their
    replies; the slots and the reply to the next call are functions of it. *)

Definition accepted (r : bb_reply) : bool :=
  match r with
  | Done_ r => is_ok r
  | Selected r => is_ok r
  | Drained r => is_ok r
  end.

(** What the accepted calls of the log wrote, in order. *)
Definition log_values {A} (written : bb_call -> option A) (log : list (bb_call * bb_reply))
    : list A :=
  omap (fun '(c, r) => if accepted r then written c else None) log.

Definition surface_written (c : bb_call) : option SurfaceClassificationIR :=
  match c with
  | CommitSurfaceClassification ir | ReplaceSurfaceClassification ir => Some ir
  | _ => None
  end.
Definition layer_plan_written (c : bb_call) : option LayerPlanIR :=
  match c with CommitLayerPlan ir | ReplaceLayerPlan ir => Some ir | _ => None end.
Definition slice_written (c : bb_call) : option (list SliceIR) :=
  match c with CommitSliceIr ir | ReplaceSliceIr ir => Some ir | _ => None end.
Definition seam_written (c : bb_call) : option SeamPlanIR :=
  match c with CommitSeamPlan ir => Some ir | _ => None end.
Definition support_written (c : bb_call) : option SupportPlanIR :=
  match c with CommitSupportPlan ir => Some ir | _ => None end.
Definition region_map_written (c : bb_call) : option RegionMapIR :=
  match c with CommitRegionMap ir => Some ir | _ => None end.
Definition selection_written (c : bb_call) : option LayerSelectionIndex :=
  match c with CommitLayerSelectionIndex index => Some index | _ => None end.
Definition geometry_written (c : bb_call) : option SupportGeometryIR :=
  match c with CommitSupportGeometry ir => Some ir | _ => None end.
Definition analysis_written (c : bb_call) : option SupportAnalysisIR :=
  match c with CommitSupportAnalysis ir => Some ir | _ => None end.
Definition layer_written (i : nat) (c : bb_call) : option LayerCollectionIR :=
  match c with
  | CommitLayerOutput j ir => if decide (i = j) then Some ir else None
  | _ => None
  end.
Definition drain_done (c : bb_call) : option unit :=
  match c with DrainLayerOutputs => Some tt | _ => None end.

Definition spec_commit {A} (earlier : list A) (slot : BlackboardPrepassSlot) : bb_reply :=
  Done_ (match earlier with [] => Ok tt | _ => Err (DuplicatePrepassCommit slot) end).
Definition spec_replace {A} (earlier : list A) (slot : BlackboardPrepassSlot) : bb_reply :=
  Done_ (match earlier with [] => Err (MissingRequiredPrepass slot) | _ => Ok tt end).

(** One support plan out of those of the families. *)
Definition merge_plans (plans : list SupportPlanIR) : option SupportPlanIR :=
  match plans with
  | [] => None
  | plan :: _ =>
      Some {| sup_schema_version := sup_schema_version plan;
              sup_entries := concat (sup_entries <$> plans);
              sup_raft_plan := foldl merge_raft_plans None (sup_raft_plan <$> plans) |}
  end.

Definition spec_support (plans : list SupportPlanIR) (ir : SupportPlanIR) : bb_reply :=
  Done_ (if decide (Forall (fun plan => sup_schema_version plan = sup_schema_version ir)
                           (take 1 plans))
         then match first_repeated [] (support_identity <$> concat (sup_entries <$> plans ++ [ir])) with
              | Some id => Err (duplicate_support_error id)
              | None => Ok tt
              end
         else Err (DuplicatePrepassCommit SlotSupportPlan)).

(** The reply to [c] after the calls of [log]. *)
Definition spec_reply (layer_count : nat) (log : list (bb_call * bb_reply)) (c : bb_call)
    : bb_reply :=
  match c with
  | CommitSurfaceClassification _ => spec_commit (log_values surface_written log) SlotSurfaceClassification
  | ReplaceSurfaceClassification _ => spec_replace (log_values surface_written log) SlotSurfaceClassification
  | CommitLayerPlan _ => spec_commit (log_values layer_plan_written log) SlotLayerPlan
  | ReplaceLayerPlan _ => spec_replace (log_values layer_plan_written log) SlotLayerPlan
  | CommitSeamPlan ir =>
      match first_repeated [] (spe_region_key <$> seam_entries ir) with
      | Some key => Done_ (Err (DuplicateSeamPlanEntry key))
      | None => spec_commit (log_values seam_written log) SlotSeamPlan
      end
  | CommitSupportPlan ir => spec_support (log_values support_written log) ir
  | CommitRegionMap _ => spec_commit (log_values region_map_written log) SlotRegionMap
  | CommitSliceIr _ => spec_commit (log_values slice_written log) SlotSliceIR
  | ReplaceSliceIr _ => spec_replace (log_values slice_written log) SlotSliceIR
  | CommitLayerSelectionIndex _ =>
      Selected (match log_values selection_written log with
                | [] => Ok tt
                | _ => Err SelectionIndexAlreadyCommitted
                end)
  | CommitSupportGeometry _ => spec_commit (log_values geometry_written log) SlotSupportGeometry
  | CommitSupportAnalysis _ => spec_commit (log_values analysis_written log) SlotSupportAnalysis
  | CommitLayerOutput i _ =>
      Done_ (match log_values drain_done log with
             | _ :: _ => Err LayerOutputsAlreadyDrained
             | [] =>
                 if decide (layer_count <= i) then Err (LayerSlotOutOfRange i layer_count)
                 else match log_values (layer_written i) log with
                      | [] => Ok tt
                      | _ => Err (DuplicateLayerCommit i)
                      end
             end)
  | DrainLayerOutputs =>
      Drained (match log_values drain_done log with
               | _ :: _ => Err LayerOutputsAlreadyDrained
               | [] =>
                   match filter (fun i => log_values (layer_written i) log = []) (seq 0 layer_count) with
                   | [] => Ok (omap (fun i => head (log_values (layer_written i) log)) (seq 0 layer_count))
                   | missing => Err (IncompleteLayerDrain missing)
                   end
               end)
  end.

(** The slots after the calls of [log]. *)
Definition log_state (mesh : MeshIR) (layer_count : nat) (log : list (bb_call * bb_reply))
    : Blackboard :=
  {| mesh_ir := mesh;
     surface_classification := last (log_values surface_written log);
     layer_plan := last (log_values layer_plan_written log);
     seam_plan := last (log_values seam_written log);
     support_plan := merge_plans (log_values support_written log);
     region_map := last (log_values region_map_written log);
     slice_ir := last (log_values slice_written log);
     layer_selection_index := last (log_values selection_written log);
     support_geometry := last (log_values geometry_written log);
     support_analysis := last (log_values analysis_written log);
     layer_outputs :=
       match log_values drain_done log with
       | [] => Some ((fun i => head (log_values (layer_written i) log)) <$> seq 0 layer_count)
       | _ => None
       end |}.

(** ** Auxiliary lemmas *)

Lemma first_repeated_None {A} `{EqDecision A} (seen l : list A) :
  first_repeated seen l = None <-> NoDup l /\ forall x, x ∈ l -> x ∉ seen.
Proof.
  revert seen. induction l as [|x l IH]; intros seen; simpl.
  { split; [|done]. split; [constructor|set_solver]. }
  case_decide as Hx; [split; [done|]; intros [_ Hs]; by destruct (Hs x); [left|]|].
  rewrite IH, NoDup_cons. set_solver.
Qed.

Lemma log_values_snoc {A} (written : bb_call -> option A) log c r :
  log_values written (log ++ [(c, r)]) =
  log_values written log ++ (if accepted r then option_list (written c) else []).
Proof.
  unfold log_values. rewrite omap_app. f_equal. simpl.
  destruct (accepted r); [|done]. by destruct (written c).
Qed.

Lemma log_values_app {A} (written : bb_call -> option A) log1 log2 :
  log_values written (log1 ++ log2) = log_values written log1 ++ log_values written log2.
Proof. apply omap_app. Qed.

Lemma last_cons_some {A} (x : A) l : exists y, last (x :: l) = Some y.
Proof. destruct (last (x :: l)) eqn:E; [eauto|]. by apply last_None in E. Qed.

Lemma missing_indices_fmap (f : nat -> option LayerCollectionIR) n k :
  omap (fun '(index, slot) => match slot with None => Some index | Some _ => None end)
       (zip (seq k n) (f <$> seq k n)) =
  filter (fun i => f i = None) (seq k n).
Proof.
  revert k. induction n as [|n IH]; intros k; [done|]. cbn [seq fmap list_fmap zip zip_with].
  rewrite filter_cons. simpl. rewrite <-(IH (S k)).
  destruct (f k); by case_decide.
Qed.

Lemma option_head_None {A} (l : list A) : head l = None <-> l = [].
Proof. by destruct l. Qed.

Lemma missing_spec n log :
  missing_indices ((fun i => head (log_values (layer_written i) log)) <$> seq 0 n) =
  filter (fun i => log_values (layer_written i) log = []) (seq 0 n).
Proof.
  unfold missing_indices. rewrite length_fmap, length_seq.
  rewrite (missing_indices_fmap (fun i => head (log_values (layer_written i) log)) n 0).
  apply list_filter_iff. intros i. apply option_head_None.
Qed.

Lemma log_values_rejected {A} (written : bb_call -> option A) log c r :
  accepted r = false -> log_values written (log ++ [(c, r)]) = log_values written log.
Proof. intros Hr. by rewrite log_values_snoc, Hr, app_nil_r. Qed.

Lemma log_values_other {A} (written : bb_call -> option A) log c r :
  written c = None -> log_values written (log ++ [(c, r)]) = log_values written log.
Proof. intros Hc. rewrite log_values_snoc, Hc. case_match; by rewrite app_nil_r. Qed.

Lemma log_values_write {A} (written : bb_call -> option A) log c r x :
  accepted r = true -> written c = Some x ->
  log_values written (log ++ [(c, r)]) = log_values written log ++ [x].
Proof. intros Hr Hc. by rewrite log_values_snoc, Hr, Hc. Qed.

(** A rejected call leaves the log's state alone. *)
Lemma log_state_rejected mesh n log c r :
  accepted r = false -> log_state mesh n (log ++ [(c, r)]) = log_state mesh n log.
Proof.
  intros Hr. unfold log_state. rewrite !(log_values_rejected _ _ _ _ Hr).
  f_equal. case_match; [|done]. f_equal. apply list_fmap_ext. intros _ i _.
  by rewrite (log_values_rejected _ _ _ _ Hr).
Qed.

(** The layer slots of the log after a call that writes none. *)
Lemma log_layers_other n log c r :
  (forall i, layer_written i c = None) ->
  (fun i => head (log_values (layer_written i) (log ++ [(c, r)]))) <$> seq 0 n =
  (fun i => head (log_values (layer_written i) log)) <$> seq 0 n.
Proof. intros Hc. apply list_fmap_ext. intros _ i _. by rewrite log_values_other. Qed.

Lemma merge_plans_snoc plan plans ir :
  merge_plans ((plan :: plans) ++ [ir]) =
  Some {| sup_schema_version := sup_schema_version plan;
          sup_entries := concat (sup_entries <$> plan :: plans) ++ sup_entries ir;
          sup_raft_plan :=
            merge_raft_plans (foldl merge_raft_plans None (sup_raft_plan <$> plan :: plans))
                             (sup_raft_plan ir) |}.
Proof.
  cbn [merge_plans app]. do 2 f_equal.
  - rewrite app_comm_cons, fmap_app, concat_app. simpl. by rewrite app_nil_r.
  - by rewrite app_comm_cons, fmap_app, foldl_app.
Qed.

Lemma merge_raft_plans_None o : merge_raft_plans None o = o.
Proof. by destruct o. Qed.

Lemma last_option_list {A} (l : list A) x : last (l ++ option_list (Some x)) = Some x.
Proof. apply last_snoc. Qed.

(** After an accepted call, every slot but the written one reads as before. *)
Ltac accept_call E :=
  unfold log_state; cbn [mesh_ir surface_classification layer_plan seam_plan support_plan
    region_map slice_ir layer_selection_index support_geometry support_analysis layer_outputs];
  rewrite ?log_layers_other by done; rewrite !log_values_snoc;
  cbn [accepted is_ok option_list surface_written layer_plan_written slice_written seam_written
    support_written region_map_written selection_written geometry_written analysis_written
    drain_done]; rewrite ?app_nil_r, ?E; try done.

(** An operation on one slot whose values are [values]: the empty slot, then the
    filled one; a rejection keeps the state, an acceptance writes the slot. *)
Ltac slot_call values :=
  let E := fresh "E" in let y := fresh "y" in let Hy := fresh "Hy" in
  destruct values as [|? ?] eqn:E; simpl;
  [| match goal with |- context[last (?x :: ?l)] =>
       destruct (last_cons_some x l) as [y Hy]; rewrite Hy; simpl
     end];
  intros [= <- <-];
  (split; [done|]);
  unfold set_surface_classification, set_layer_plan, set_seam_plan, set_region_map,
    set_slice_ir, set_layer_selection_index, set_support_geometry, set_support_analysis;
  first [ rewrite log_state_rejected by done; unfold log_state; simpl; rewrite E; try rewrite Hy; done
        | accept_call E; by rewrite ?last_option_list ].

Lemma support_call_spec mesh n log ir bb' r :
  bb_step (log_state mesh n log) (CommitSupportPlan ir) = (bb', r) ->
  r = spec_reply n log (CommitSupportPlan ir) /\
  bb' = log_state mesh n (log ++ [(CommitSupportPlan ir, r)]).
Proof.
  simpl. unfold commit_support_plan, spec_support. simpl.
  destruct (log_values support_written log) as [|plan plans] eqn:E.
  - cbn [merge_plans app take firstn]. rewrite decide_True by constructor.
    replace (concat (sup_entries <$> [ir])) with (sup_entries ir) by (simpl; by rewrite app_nil_r).
    unfold duplicate_region_identity. case_match; simpl; intros [= <- <-]; (split; [done|]).
    + by rewrite log_state_rejected.
    + unfold set_support_plan. accept_call E. cbn. rewrite app_nil_r.
      destruct ir as [v es rp]; simpl. by destruct rp.
  - cbn [merge_plans sup_schema_version take firstn].
    destruct (decide (sup_schema_version plan <> sup_schema_version ir)) as [Hv|Hv].
    + rewrite decide_False by (by rewrite Forall_singleton).
      simpl. intros [= <- <-]. split; [done|]. by rewrite log_state_rejected.
    + apply dec_stable in Hv. rewrite decide_True by (by apply Forall_singleton).
      unfold duplicate_region_identity. cbn [sup_entries].
      rewrite (fmap_app sup_entries), concat_app. replace (concat (sup_entries <$> [ir])) with (sup_entries ir)
        by (simpl; by rewrite app_nil_r).
      case_match; simpl; intros [= <- <-]; (split; [done|]); [by rewrite log_state_rejected|].
      unfold set_support_plan. accept_call E. change (option_list (Some ir)) with [ir]. by rewrite merge_plans_snoc.
Qed.

Lemma layer_call_spec mesh n log i ir bb' r :
  bb_step (log_state mesh n log) (CommitLayerOutput i ir) = (bb', r) ->
  r = spec_reply n log (CommitLayerOutput i ir) /\
  bb' = log_state mesh n (log ++ [(CommitLayerOutput i ir, r)]).
Proof.
  simpl. unfold commit_layer_output. simpl.
  destruct (log_values drain_done log) as [|? ?] eqn:E; simpl.
  2:{ intros [= <- <-]. split; [done|]. rewrite log_state_rejected by done.
      unfold log_state. by rewrite E. }
  rewrite list_lookup_fmap, length_fmap, length_seq. case_decide as Hi.
  { rewrite lookup_seq_ge by lia. simpl. intros [= <- <-]. split; [done|].
    by rewrite log_state_rejected. }
  rewrite lookup_seq_lt by lia. simpl.
  destruct (log_values (layer_written i) log) as [|? ?] eqn:Ei; simpl; intros [= <- <-];
    (split; [done|]); [|by rewrite log_state_rejected].
  unfold set_layer_outputs. accept_call E. do 2 f_equal.
  apply list_eq_same_length with n; [by rewrite length_fmap, length_seq
    |by rewrite length_insert, length_fmap, length_seq|].
  intros j x y Hj. rewrite list_lookup_insert, !list_lookup_fmap, lookup_seq_lt by done. simpl.
  rewrite log_values_snoc. simpl. rewrite length_fmap, length_seq.
  destruct (decide (i = j)) as [->|Hne].
  - rewrite decide_True by done. rewrite (decide_True (P := j = j)) by done.
    simpl. rewrite Ei. simpl. congruence.
  - rewrite decide_False by naive_solver. rewrite (decide_False (P := j = i)) by done. simpl.
    rewrite app_nil_r. congruence.
Qed.

Lemma omap_seq_fmap {A B} (f : A -> option B) (l : list A) : omap id (f <$> l) = omap f l.
Proof. induction l as [|x l IH]; simpl; [done|]. destruct (f x); simpl; [f_equal|]; exact IH. Qed.

Lemma drain_call_spec mesh n log bb' r :
  bb_step (log_state mesh n log) DrainLayerOutputs = (bb', r) ->
  r = spec_reply n log DrainLayerOutputs /\
  bb' = log_state mesh n (log ++ [(DrainLayerOutputs, r)]).
Proof.
  cbn [bb_step spec_reply]. unfold drain_layer_outputs. cbn [log_state layer_outputs].
  destruct (log_values drain_done log) as [|? ?] eqn:E.
  2:{ intros [= <- <-]. split; [done|]. by rewrite log_state_rejected. }
  rewrite missing_spec. destruct (filter _ _) eqn:Em; intros [= <- <-].
  - split; [by rewrite omap_seq_fmap|]. unfold set_layer_outputs. accept_call E.
  - split; [done|]. by rewrite log_state_rejected.
Qed.

Lemma bb_step_spec mesh n log c bb' r :
  bb_step (log_state mesh n log) c = (bb', r) ->
  r = spec_reply n log c /\ bb' = log_state mesh n (log ++ [(c, r)]).
Proof.
  destruct c as [ir|ir|ir|ir|ir|ir|ir|ir|ir|ir|ir|ir|i ir|];
    try apply support_call_spec; try apply layer_call_spec; try apply drain_call_spec; simpl;
    unfold commit_surface_classification, replace_surface_classification, commit_layer_plan,
      replace_layer_plan, commit_seam_plan, commit_region_map, commit_slice_ir, replace_slice_ir,
      commit_layer_selection_index, commit_support_geometry, commit_support_analysis,
      spec_commit, spec_replace, duplicate_region_key; simpl.
  - slot_call (log_values surface_written log).
  - slot_call (log_values surface_written log).
  - slot_call (log_values layer_plan_written log).
  - slot_call (log_values layer_plan_written log).
  - case_match; [|slot_call (log_values seam_written log)].
    simpl. intros [= <- <-]. split; [done|]. by rewrite log_state_rejected.
  - slot_call (log_values region_map_written log).
  - slot_call (log_values slice_written log).
  - slot_call (log_values slice_written log).
  - slot_call (log_values selection_written log).
  - slot_call (log_values geometry_written log).
  - slot_call (log_values analysis_written log).
Qed.

Lemma log_state_nil mesh n : log_state mesh n [] = new mesh n.
Proof.
  unfold log_state, new. cbn. do 2 f_equal. generalize 0.
  induction n as [|n IH]; intros k; [done|]. simpl. by rewrite <-(IH (S k)).
Qed.

Lemma bb_run_log_state mesh n log bb : bb_run mesh n log bb -> bb = log_state mesh n log.
Proof.
  induction 1 as [|log bb c bb' r _ -> Hstep]; [by rewrite log_state_nil|].
  by apply bb_step_spec in Hstep as [_ ->].
Qed.

(** Induction on the log of a run. *)
Lemma bb_run_snoc mesh n log c r bb :
  bb_run mesh n (log ++ [(c, r)]) bb ->
  bb_run mesh n log (log_state mesh n log) /\ r = spec_reply n log c.
Proof.
  intros H. remember (log ++ [(c, r)]) as l eqn:Hl.
  destruct H as [|log' bb0 c' bb' r' Hrun Hstep]; [by destruct log|].
  apply app_inj_2 in Hl as [-> [= -> ->]]; [|done].
  pose proof (bb_run_log_state _ _ _ _ Hrun) as ->. split; [done|].
  by apply bb_step_spec in Hstep as [-> _].
Qed.

Lemma log_once {A} (written : bb_call -> option A) mesh n log bb :
  (forall log c, log_values written log <> [] -> is_Some (written c) ->
     accepted (spec_reply n log c) = false) ->
  bb_run mesh n log bb -> length (log_values written log) <= 1.
Proof.
  intros Honce Hrun. pose proof Hrun as Hrun'. revert bb Hrun Hrun'.
  induction log as [|[c r] log IH] using rev_ind; intros bb Hrun _; [simpl; lia|].
  apply bb_run_snoc in Hrun as [Hrun ->]. specialize (IH _ Hrun Hrun).
  rewrite log_values_snoc, length_app.
  destruct (log_values written log) as [|x l] eqn:E.
  { simpl. case_match; [|simpl; lia]. destruct (written c); simpl; lia. }
  destruct (written c) eqn:Hc; [|case_match; simpl in *; lia].
  rewrite Honce; [simpl in *; lia|by rewrite E|by eexists].
Qed.

Lemma log_values_cons {A} (written : bb_call -> option A) c r log :
  log_values written ((c, r) :: log) =
  (if accepted r then option_list (written c) else []) ++ log_values written log.
Proof. exact (eq_trans (log_values_app written [(c, r)] log)
         (f_equal (.++ log_values written log) (log_values_snoc written [] c r))). Qed.

Lemma log_values_nil_iff {A} (written : bb_call -> option A) log :
  (forall c s, (c, s) ∈ log -> accepted s = true -> written c = None) ->
  log_values written log = [].
Proof.
  induction log as [|[c s] log IH]; intros Hl; [done|].
  rewrite log_values_cons, IH by (intros c' s' Hin; apply Hl; by right).
  destruct (accepted s) eqn:Hs; [|done]. by rewrite (Hl c s) by (left || done).
Qed.

(** A run of a longer log goes through the shorter one. *)
Lemma bb_run_prefix mesh n log1 log2 bb :
  bb_run mesh n (log1 ++ log2) bb -> bb_run mesh n log1 (log_state mesh n log1).
Proof.
  revert bb. induction log2 as [|[c s] log2 IH] using rev_ind; intros bb Hrun.
  - rewrite app_nil_r in Hrun. by rewrite <-(bb_run_log_state _ _ _ _ Hrun).
  - rewrite app_assoc in Hrun. apply bb_run_snoc in Hrun as [Hrun _]. by eapply IH.
Qed.

Lemma layer_written_once mesh n log bb i :
  bb_run mesh n log bb -> length (log_values (layer_written i) log) <= 1.
Proof.
  apply log_once. intros log' c Hne [x Hc]. destruct c; try discriminate Hc. cbn in *.
  repeat case_match; simplify_eq/=; congruence.
Qed.

(** ** Properties *)

(** [C2].  The blackboard refines its log.  After any calls, in any order and with
    any outcome, the slots are those the log determines (the last accepted write of
    each prepass product, the merge of the accepted support plans, the accepted
    output of each layer until the drain), every call is answered as the log
    determines, and each write-once product, each layer and the drain is accepted
    at most once. *)
Theorem blackboard_refines_log (mesh : MeshIR) n log bb (Hrun : bb_run mesh n log bb) :
  bb = log_state mesh n log /\
  (forall c, (bb_step bb c).2 = spec_reply n log c) /\
  length (log_values seam_written log) <= 1 /\
  length (log_values region_map_written log) <= 1 /\
  length (log_values selection_written log) <= 1 /\
  length (log_values geometry_written log) <= 1 /\
  length (log_values analysis_written log) <= 1 /\
  (forall i, length (log_values (layer_written i) log) <= 1) /\
  length (log_values drain_done log) <= 1.
Proof.
  pose proof (bb_run_log_state _ _ _ _ Hrun) as ->. split; [done|]. split.
  { intros c. destruct (bb_step _ c) as [bb' r] eqn:E. by apply bb_step_spec in E as [-> _]. }
  repeat split; try intros i; (eapply log_once; [|exact Hrun]);
    intros log' c Hne [x Hc]; destruct c; try discriminate Hc; cbn [spec_reply];
    unfold spec_commit; cbn in Hc; repeat case_match; simplify_eq/=; congruence.
Qed.

Lemma drained_rejects n log c :
  log_values drain_done log <> [] ->
  (c = DrainLayerOutputs \/ exists i ir, c = CommitLayerOutput i ir) ->
  accepted (spec_reply n log c) = false.
Proof. intros Hne [->|(i & ir & ->)]; simpl; by destruct (log_values drain_done log). Qed.

Lemma after_drain mesh n log1 r log2 bb c s :
  accepted r = true ->
  bb_run mesh n (log1 ++ (DrainLayerOutputs, r) :: log2) bb ->
  (c, s) ∈ log2 -> accepted s = true ->
  c <> DrainLayerOutputs /\ forall i ir, c <> CommitLayerOutput i ir.
Proof.
  intros Hr. revert bb. induction log2 as [|[c' s'] log2 IH] using rev_ind; [set_solver|].
  intros bb Hrun Hin Hs. rewrite app_comm_cons, app_assoc in Hrun.
  apply bb_run_snoc in Hrun as [Hrun Hs'].
  apply elem_of_app in Hin as [Hin|Heq%list_elem_of_singleton]; [by eapply IH|].
  injection Heq as -> ->.
  assert (Hd : log_values drain_done (log1 ++ (DrainLayerOutputs, r) :: log2) <> []).
  { rewrite log_values_app, log_values_cons, Hr. by destruct (log_values _ log1). }
  assert (Hno : forall c'', c'' = DrainLayerOutputs \/ (exists i ir, c'' = CommitLayerOutput i ir) ->
    c'' <> c').
  { intros c'' Hc'' ->. by rewrite Hs', (drained_rejects _ _ _ Hd Hc'') in Hs. }
  split; [|intros i ir]; intros ->; [apply (Hno DrainLayerOutputs)|apply (Hno (CommitLayerOutput i ir))];
    eauto.
Qed.

Lemma collect_outputs (l : list nat) log :
  (forall i, i ∈ l -> exists ir, log_values (layer_written i) log = [ir]) ->
  length (omap (fun i => head (log_values (layer_written i) log)) l) = length l /\
  forall k i, l !! k = Some i ->
    omap (fun i => head (log_values (layer_written i) log)) l !! k =
    head (log_values (layer_written i) log).
Proof.
  induction l as [|j l IH]; intros Hl; [done|].
  destruct IH as [IHn IHk]; [intros i Hi; apply Hl; by right|].
  destruct (Hl j) as [ir Hir]; [by left|]. cbn. rewrite Hir. simpl.
  split; [by f_equal|]. intros [|k] i Hk; simpl in *; [|by apply IHk].
  injection Hk as ->. by rewrite Hir.
Qed.

(** A successful drain found one accepted output per layer. *)
Lemma drain_found mesh n log bb outputs :
  bb_run mesh n log bb ->
  spec_reply n log DrainLayerOutputs = Drained (Ok outputs) ->
  (forall i, i < n -> exists ir, log_values (layer_written i) log = [ir]) /\
  outputs = omap (fun i => head (log_values (layer_written i) log)) (seq 0 n).
Proof.
  simpl. intros Hrun. destruct (log_values drain_done log); [|done].
  destruct (filter _ _) eqn:Hm; [|done]. intros [= <-]. split; [|done]. intros i Hi.
  pose proof (layer_written_once _ _ _ _ i Hrun) as Hl.
  destruct (log_values (layer_written i) log) as [|x [|??]] eqn:E; [|by eauto|simpl in Hl; lia].
  assert (Hin : i ∈ filter (fun i => log_values (layer_written i) log = []) (seq 0 n)).
  { apply list_elem_of_filter. split; [done|]. apply elem_of_seq. lia. }
  rewrite Hm in Hin. by apply elem_of_nil in Hin.
Qed.

(** Layer outputs leave the blackboard once and whole.  A drain that succeeds
    returns one output per layer of the print, in layer order, each the only output
    ever accepted for that layer and accepted before the drain; after it no layer
    output and no other drain is accepted. *)
Theorem drain_once_complete (mesh : MeshIR) n log1 outputs log2 bb
    (Hrun : bb_run mesh n (log1 ++ (DrainLayerOutputs, Drained (Ok outputs)) :: log2) bb) :
  length outputs = n /\
  (forall i, i < n -> exists ir,
     outputs !! i = Some ir /\
     log_values (layer_written i) log1 = [ir] /\
     log_values (layer_written i)
       (log1 ++ (DrainLayerOutputs, Drained (Ok outputs)) :: log2) = [ir]) /\
  (forall c r, (c, r) ∈ log2 -> accepted r = true ->
     c <> DrainLayerOutputs /\ forall i ir, c <> CommitLayerOutput i ir).
Proof.
  assert (Hafter : forall c r, (c, r) ∈ log2 -> accepted r = true ->
     c <> DrainLayerOutputs /\ forall i ir, c <> CommitLayerOutput i ir).
  { intros c r Hin Hr. exact (after_drain _ _ _ (Drained (Ok outputs)) _ _ c r eq_refl Hrun Hin Hr). }
  assert (Hpre : bb_run mesh n (log1 ++ [(DrainLayerOutputs, Drained (Ok outputs))])
                   (log_state mesh n (log1 ++ [(DrainLayerOutputs, Drained (Ok outputs))]))).
  { apply (bb_run_prefix _ _ _ log2 bb). by rewrite <-app_assoc. }
  apply bb_run_snoc in Hpre as [Hpre Hout].
  destruct (drain_found _ _ _ _ _ Hpre (eq_sym Hout)) as [Hone ->].
  destruct (collect_outputs (seq 0 n) log1) as [Hlen Hnth].
  { intros i [_ Hi]%elem_of_seq. by apply Hone. }
  split; [by rewrite Hlen, length_seq|]. split; [|done].
  intros i Hi. destruct (Hone i Hi) as [ir Hir]. exists ir.
  split; [|split; [done|]].
  - rewrite (Hnth i i), Hir by (by rewrite lookup_seq_lt). done.
  - rewrite log_values_app, Hir, log_values_cons. simpl. f_equal.
    apply (log_values_nil_iff (layer_written i)). intros c s Hin Hs.
    destruct (Hafter c s Hin Hs) as [_ Hc]. destruct c; try done. by destruct (Hc _ _ eq_refl).
Qed.

(** ** Independence of the order of the support families *)

Lemma raft_key_inj a b : raft_key a = raft_key b -> a = b.
Proof. destruct a as [? [?] ? ?], b as [? [?] ? ?]. by intros [= -> -> -> ->]. Qed.

Lemma raft_plan_min_comm a b : raft_plan_min a b = raft_plan_min b a.
Proof.
  unfold raft_plan_min. destruct (rust_leb (raft_key a) (raft_key b)) eqn:Hab,
    (rust_leb (raft_key b) (raft_key a)) eqn:Hba; try done.
  - apply raft_key_inj. by apply rust_leb_antisym.
  - destruct (rust_leb_total (raft_key a) (raft_key b)); congruence.
Qed.

Lemma raft_plan_min_assoc a b c :
  raft_plan_min a (raft_plan_min b c) = raft_plan_min (raft_plan_min a b) c.
Proof.
  unfold raft_plan_min.
  destruct (rust_leb (raft_key b) (raft_key c)) eqn:Hbc,
    (rust_leb (raft_key a) (raft_key b)) eqn:Hab; rewrite ?Hab, ?Hbc; try done.
  - by rewrite (rust_leb_trans _ _ _ Hab Hbc).
  - case_match; [|done]. rewrite (rust_leb_trans (raft_key a) (raft_key c) (raft_key b)) in Hab;
      [done|done|]. destruct (rust_leb_total (raft_key b) (raft_key c)); congruence.
Qed.

#[local] Instance merge_raft_plans_comm : Comm (=) merge_raft_plans.
Proof. intros [a|] [b|]; simpl; try done. by rewrite raft_plan_min_comm. Qed.
#[local] Instance merge_raft_plans_assoc : Assoc (=) merge_raft_plans.
Proof. intros [a|] [b|] [c|]; simpl; try done. by rewrite raft_plan_min_assoc. Qed.

Lemma merge_raft_plans_perm r l1 l2 :
  l1 ≡ₚ l2 -> foldl merge_raft_plans r l1 = foldl merge_raft_plans r l2.
Proof.
  intros Hp. revert r. induction Hp as [|x l1 l2 _ IH|x y l|l1 l2 l3 _ IH1 _ IH2];
    intros r; simpl; [done|apply IH| |by rewrite IH1].
  by rewrite <-!(assoc_L merge_raft_plans), (comm_L merge_raft_plans x y).
Qed.

(** Committing the plans of several families one after the other. *)
Fixpoint commit_support_plans (bb : Blackboard) (plans : list SupportPlanIR)
    : Blackboard * list (result unit BlackboardError) :=
  match plans with
  | [] => (bb, [])
  | plan :: plans =>
      let '(bb, r) := commit_support_plan bb plan in
      let '(bb, rs) := commit_support_plans bb plans in
      (bb, r :: rs)
  end.

(** The plans agree on their version and plan each source region once. *)
Definition plans_compatible (plans : list SupportPlanIR) : Prop :=
  (forall p q, p ∈ plans -> q ∈ plans -> sup_schema_version p = sup_schema_version q) /\
  NoDup (support_identity <$> concat (sup_entries <$> plans)).

#[local] Instance plans_compatible_proper : Proper ((≡ₚ) ==> iff) plans_compatible.
Proof.
  intros l1 l2 Hp. unfold plans_compatible. by setoid_rewrite Hp.
Qed.

Definition held_plans (bb : Blackboard) : list SupportPlanIR := option_list (support_plan bb).

Lemma plans_compatible_head p q plans :
  sup_schema_version p = sup_schema_version q -> sup_entries p = sup_entries q ->
  plans_compatible (p :: plans) -> plans_compatible (q :: plans).
Proof.
  intros Hv He [Hver Hids]. split; [|simpl in *; by rewrite <-He].
  intros x y Hx Hy. assert (Hq : forall x, x ∈ q :: plans -> exists x', x' ∈ p :: plans /\
    sup_schema_version x' = sup_schema_version x).
  { intros z [->|Hz]%elem_of_cons; [exists p|exists z]; split; [by left|done|by right|done]. }
  destruct (Hq x Hx) as (x' & Hx' & <-), (Hq y Hy) as (y' & Hy' & <-). auto.
Qed.

(** A commit is accepted exactly when the plan is compatible with the one held. *)
Lemma commit_support_plan_spec bb ir :
  plans_compatible (held_plans bb) ->
  let '(bb', r) := commit_support_plan bb ir in
  (r = Ok tt <-> plans_compatible (held_plans bb ++ [ir])) /\
  (r = Ok tt -> support_plan bb' = merge_plans (held_plans bb ++ [ir])) /\
  (r <> Ok tt -> bb' = bb).
Proof.
  unfold commit_support_plan, held_plans, duplicate_region_identity.
  destruct (support_plan bb) as [plan|] eqn:Hp; simpl.
  - intros Hc. case_decide as Hv.
    + split; [|done]. split; [done|]. intros [Hver _]. destruct Hv.
      apply Hver; [by left|by right; left].
    + unfold plans_compatible. simpl. rewrite !app_nil_r.
      destruct (first_repeated _ _) eqn:Hf; [split; [|done]; split; [done|]|].
      * intros [_ Hnd]. assert (Hn : first_repeated [] (support_identity <$> sup_entries plan ++ sup_entries ir) = None)
          by (apply first_repeated_None; set_solver). by rewrite Hn in Hf.
      * apply first_repeated_None in Hf as [Hnd _].
        split; [|split; [intros _; simpl; by destruct (sup_raft_plan plan)|by intros []]].
        split; [intros _; split; [|done]|done].
        intros p q Hp1 Hq1. assert (Hall : forall x, x ∈ [plan; ir] ->
          sup_schema_version x = sup_schema_version plan) by set_solver.
        by rewrite (Hall p), (Hall q).
  - intros _. destruct (first_repeated _ _) eqn:Hf; unfold plans_compatible; simpl; rewrite !app_nil_r.
    + split; [|done]. split; [done|]. intros [_ Hnd].
      assert (Hn : first_repeated [] (support_identity <$> sup_entries ir) = None)
        by (apply first_repeated_None; set_solver). by rewrite Hn in Hf.
    + apply first_repeated_None in Hf as [Hnd _]. split; [|split; [|done]].
      * split; [intros _|done]. split; [set_solver|done].
      * intros _. destruct ir as [v es rp]; simpl. by destruct rp.
Qed.

Lemma plans_compatible_sublist l1 l2 :
  l1 `sublist_of` l2 -> plans_compatible l2 -> plans_compatible l1.
Proof.
  intros Hs [Hver Hnd]. split.
  - intros p q Hp Hq. apply Hver; by eapply elem_of_sublist.
  - eapply sublist_NoDup; [exact Hnd|]. apply fmap_sublist. clear -Hs.
    induction Hs; simpl; [done| |]; [by apply sublist_app|by apply sublist_inserts_l].
Qed.

Lemma merge_plans_held plans plan :
  merge_plans plans = Some plan ->
  option_list (merge_plans plans) = [plan] /\
  sup_schema_version plan = sup_schema_version (default plan (head plans)) /\
  sup_entries plan = concat (sup_entries <$> plans) /\
  sup_raft_plan plan = foldl merge_raft_plans None (sup_raft_plan <$> plans).
Proof. destruct plans as [|p plans]; [done|]. by intros [= <-]. Qed.

(** Merging first, or handing the plans over one by one, is the same. *)
Lemma merge_plans_assoc plans later :
  merge_plans (option_list (merge_plans plans) ++ later) = merge_plans (plans ++ later).
Proof.
  destruct plans as [|p plans]; [done|].
  destruct (merge_plans (p :: plans)) as [m|] eqn:Hm; [|done].
  apply merge_plans_held in Hm as (_ & Hv & He & Hr).
  trans (Some {| sup_schema_version := sup_schema_version m;
                 sup_entries := sup_entries m ++ concat (sup_entries <$> later);
                 sup_raft_plan := foldl merge_raft_plans (merge_raft_plans None (sup_raft_plan m))
                                    (sup_raft_plan <$> later) |}); [done|].
  by rewrite Hv, He, Hr, merge_raft_plans_None, <-foldl_app, <-concat_app, <-!fmap_app.
Qed.

Lemma plans_compatible_merge plans later :
  plans_compatible plans ->
  plans_compatible (option_list (merge_plans plans) ++ later) <-> plans_compatible (plans ++ later).
Proof.
  destruct plans as [|p plans]; [done|]. intros [Hver _].
  assert (Hids : forall l, concat (sup_entries <$> (p :: plans) ++ l) =
    concat (sup_entries <$> option_list (merge_plans (p :: plans)) ++ l)).
  { intros l. simpl. by rewrite fmap_app, concat_app, app_assoc. }
  unfold plans_compatible. rewrite <-Hids. split; intros [Hv Hnd]; (split; [|done]).
  - assert (Hall : forall x, x ∈ (p :: plans) ++ later ->
      sup_schema_version x = sup_schema_version p).
    { intros x [Hx|Hx]%elem_of_app; [by apply Hver; [|left]|].
      change (sup_schema_version p) with (sup_schema_version (default p (merge_plans (p :: plans)))).
      apply Hv; simpl; [by right|by left]. }
    intros x y Hx Hy. by rewrite (Hall x), (Hall y).
  - assert (Hall : forall x, x ∈ option_list (merge_plans (p :: plans)) ++ later ->
      sup_schema_version x = sup_schema_version p).
    { intros x [->%list_elem_of_singleton|Hx]%elem_of_app; [done|].
      apply Hv; [|by left]. apply elem_of_app. by right. }
    intros x y Hx Hy. by rewrite (Hall x), (Hall y).
Qed.

Lemma plans_compatible_merged plans :
  plans_compatible plans -> plans_compatible (option_list (merge_plans plans)).
Proof.
  intros Hc. rewrite <-(app_nil_r (option_list _)). apply plans_compatible_merge; [done|].
  by rewrite app_nil_r.
Qed.

Lemma merge_plans_perm plans plans' (P : Prop) :
  plans ≡ₚ plans' -> plans_compatible plans -> (plans = [] -> P) ->
  match merge_plans plans, merge_plans plans' with
  | Some p, Some p' =>
      sup_schema_version p = sup_schema_version p' /\
      sup_entries p ≡ₚ sup_entries p' /\
      sup_raft_plan p = sup_raft_plan p' /\
      NoDup (support_identity <$> sup_entries p)
  | None, None => P
  | _, _ => False
  end.
Proof.
  intros Hperm [Hver Hnd] HP. destruct plans as [|p ps].
  { symmetry in Hperm. apply Permutation_nil_r in Hperm as ->. by apply HP. }
  destruct plans' as [|p' ps']; [by apply Permutation_nil_r in Hperm|].
  cbn [merge_plans sup_schema_version sup_entries sup_raft_plan].
  split; [apply Hver; [by left|rewrite Hperm; by left]|].
  split; [by rewrite Hperm|]. split; [|done].
  apply merge_raft_plans_perm. by rewrite Hperm.
Qed.

(** A sequence of commits is accepted exactly when all plans are compatible. *)
Lemma commit_support_plans_spec bb plans :
  plans_compatible (held_plans bb) ->
  let '(bb', rs) := commit_support_plans bb plans in
  (Forall (fun r => r = Ok tt) rs <-> plans_compatible (held_plans bb ++ plans)) /\
  (Forall (fun r => r = Ok tt) rs -> support_plan bb' = merge_plans (held_plans bb ++ plans)).
Proof.
  revert bb. induction plans as [|plan plans IH]; intros bb Hc; simpl.
  - rewrite app_nil_r. split; [done|]. intros _. unfold held_plans.
    destruct (support_plan bb) as [[v es rp]|]; [|done]. simpl. rewrite app_nil_r. by destruct rp.
  - pose proof (commit_support_plan_spec bb plan Hc) as Hone.
    destruct (commit_support_plan bb plan) as [bb1 r]. destruct Hone as (Hiff & Hval & Hrej).
    assert (Hcons : held_plans bb ++ plan :: plans = (held_plans bb ++ [plan]) ++ plans)
      by by rewrite <-app_assoc.
    rewrite Hcons. destruct (decide (r = Ok tt)) as [Hr|Hr].
    + apply Hiff in Hr as Hok. specialize (Hval Hr). specialize (IH bb1).
      assert (Hheld : held_plans bb1 = option_list (merge_plans (held_plans bb ++ [plan])))
        by (unfold held_plans at 1; by rewrite Hval).
      assert (Hc1 : plans_compatible (option_list (merge_plans (held_plans bb ++ [plan])))).
      { by apply plans_compatible_merged. }
      rewrite <-Hheld in Hc1. specialize (IH Hc1).
      destruct (commit_support_plans bb1 plans) as [bb2 rs].
      rewrite Hheld, merge_plans_assoc, (plans_compatible_merge _ plans Hok) in IH.
      rewrite Forall_cons. destruct IH as [IHi IHv]. split; [rewrite <-IHi; naive_solver|].
      intros [_ Hrs]. by apply IHv.
    + destruct (commit_support_plans bb1 plans) as [bb2 rs]. rewrite Forall_cons.
      split; [|naive_solver]. split; [naive_solver|]. intros Hcomp. destruct Hr. apply Hiff.
      eapply plans_compatible_sublist; [|exact Hcomp]. by apply sublist_inserts_r.
Qed.

(** Every reachable blackboard holds a support plan that plans each region once. *)
Lemma bb_run_compatible mesh n log bb : bb_run mesh n log bb -> plans_compatible (held_plans bb).
Proof.
  induction 1 as [|log bb c bb' r _ IH Hstep]; [split; [set_solver|constructor]|].
  destruct (support_written c) as [ir|] eqn:Hc.
  - destruct c; try discriminate Hc. injection Hc as ->.
    simpl in Hstep. pose proof (commit_support_plan_spec bb ir IH) as Hspec.
    destruct (commit_support_plan bb ir) as [bb1 r1]. injection Hstep as <- <-.
    destruct Hspec as (Hiff & Hval & Hrej). simpl.
    destruct (decide (r1 = Ok tt)) as [Hr|Hr]; [|by rewrite (Hrej Hr)].
    apply Hiff in Hr as Hok. unfold held_plans. rewrite (Hval Hr).
    by apply plans_compatible_merged.
  - assert (Hsame : support_plan bb' = support_plan bb).
    { destruct c; try discriminate Hc; simpl in Hstep;
        unfold commit_surface_classification, replace_surface_classification, commit_layer_plan,
          replace_layer_plan, commit_seam_plan, commit_region_map, commit_slice_ir,
          replace_slice_ir, commit_layer_selection_index, commit_support_geometry,
          commit_support_analysis, commit_layer_output, drain_layer_outputs, commit_prepass
          in Hstep; repeat case_match; simplify_eq/=; done. }
    unfold held_plans in *. by rewrite Hsame.
Qed.

(** [C31].  The order in which the support families hand in their plans does not
    matter.  When a reachable blackboard accepts all of a list of support plans, it
    accepts them in every order, and ends with the same plan up to the order of its
    entries: the same version, the same raft configuration (the least by layer count,
    density bits and base and interface layers), and every source region planned
    once. *)
Theorem support_plans_order_independent (mesh : MeshIR) n log bb plans plans'
    (Hrun : bb_run mesh n log bb) (Hperm : plans ≡ₚ plans')
    (Hok : Forall (fun r => r = Ok tt) (commit_support_plans bb plans).2) :
  Forall (fun r => r = Ok tt) (commit_support_plans bb plans').2 /\
  match support_plan (commit_support_plans bb plans).1,
        support_plan (commit_support_plans bb plans').1 with
  | Some p, Some p' =>
      sup_schema_version p = sup_schema_version p' /\
      sup_entries p ≡ₚ sup_entries p' /\
      sup_raft_plan p = sup_raft_plan p' /\
      NoDup (support_identity <$> sup_entries p)
  | None, None => plans = []
  | _, _ => False
  end.
Proof.
  pose proof (bb_run_compatible _ _ _ _ Hrun) as Hc.
  pose proof (commit_support_plans_spec bb plans Hc) as Hp.
  pose proof (commit_support_plans_spec bb plans' Hc) as Hp'.
  destruct (commit_support_plans bb plans) as [b1 rs], (commit_support_plans bb plans') as [b2 rs'].
  simpl in *. destruct Hp as [Hiff Hval], Hp' as [Hiff' Hval'].
  pose proof (proj1 Hiff Hok) as Hcomp. rewrite Hperm in Hcomp.
  pose proof (proj2 Hiff' Hcomp) as Hok'. split; [done|].
  rewrite (Hval Hok), (Hval' Hok'). rewrite <-Hperm in Hcomp.
  eapply merge_plans_perm; [|exact Hcomp|by apply (app_nil (held_plans bb))]. by rewrite Hperm.
Qed.

(** Running a list of calls from a new blackboard. *)
Definition bb_exec (mesh : MeshIR) (n : nat) (calls : list bb_call)
    : list (bb_call * bb_reply) * Blackboard :=
  foldl (fun '(log, bb) c => let '(bb, r) := bb_step bb c in (log ++ [(c, r)], bb))
        ([], new mesh n) calls.

Lemma bb_exec_run mesh n calls log bb :
  bb_exec mesh n calls = (log, bb) -> bb_run mesh n log bb.
Proof.
  revert log bb. unfold bb_exec. induction calls as [|c calls IH] using rev_ind; intros log bb.
  { intros [= <- <-]. constructor. }
  rewrite foldl_app. simpl. destruct (foldl _ _ _) as [log' bb'] eqn:E.
  destruct (bb_step bb' c) as [bb'' r] eqn:Hs. intros [= <- <-].
  econstructor; [by apply IH|done].
Qed.
End blackboard.

(** ** Witnesses *)

#[local] Instance sample_types : IrTypes := {|
  MeshIR := nat; SurfaceClassificationIR := nat; LayerPlanIR := nat; RegionMapIR := nat;
  SliceIR := nat; LayerSelectionIndex := nat; SupportGeometryIR := nat;
  SupportAnalysisIR := nat; LayerCollectionIR := nat; SeamPosition := nat;
  ScoredSeamCandidate := nat; SupportPlanRoleRegion := nat; SupportPlanSkeleton := nat;
  PerimeterIR := nat; InfillIR := nat; SupportIR := nat; PreparedRegionData := nat;
  OrderedEventCollection := nat; LayerAnnotation := nat |}.

Definition sample_entry (layer : Z) : SupportPlanEntry :=
  {| sup_global_layer_index := layer; sup_object_id := "o"%string; sup_region_id := 0%Z;
     sup_family_id := "tree"%string; sup_demand_ids := []; sup_body_ids := [];
     sup_anchor_layer_index := 0%Z; sup_anchor_z := 0%Z; sup_roles := [];
     sup_skeleton := None; sup_capabilities := []; sup_provenance := [];
     sup_decline_reason := None; sup_variant_chain := [] |}.

Definition sample_plan (layer layers : Z) : SupportPlanIR :=
  {| sup_schema_version := SemVer_default; sup_entries := [sample_entry layer];
     sup_raft_plan := Some {| raft_layers := layers; raft_first_layer_density := F32 0;
                              base_raft_layers := 0%Z; interface_raft_layers := 0%Z |} |}.

(** Two layers filled out of order, a duplicate, an early and a late drain. *)
Definition sample_calls : list bb_call :=
  [CommitSliceIr [1]; ReplaceSliceIr [2]; CommitSliceIr [3]; CommitSupportPlan (sample_plan 1 2);
   CommitLayerOutput 1 11; DrainLayerOutputs; CommitLayerOutput 1 12; CommitLayerOutput 2 13;
   CommitLayerOutput 0 10; DrainLayerOutputs; CommitLayerOutput 0 14; DrainLayerOutputs].

Definition sample_log : list (bb_call * bb_reply) := (bb_exec 7 2 sample_calls).1.
Definition sample_bb : Blackboard := (bb_exec 7 2 sample_calls).2.

Lemma sample_run : bb_run 7 2 sample_log sample_bb.
Proof. apply (bb_exec_run (T := sample_types) 7 2 sample_calls). apply surjective_pairing. Qed.

Lemma blackboard_refines_log_witness :
  slice_ir sample_bb = Some [2] /\ sample_bb = log_state 7 2 sample_log.
Proof. split; [reflexivity|]. exact (proj1 (blackboard_refines_log (T := sample_types) 7 2 _ _ sample_run)). Defined.

Lemma drain_once_complete_witness :
  sample_log = take 9 sample_log ++ (DrainLayerOutputs, Drained (Ok [10; 11])) :: drop 10 sample_log /\
  length [10; 11] = 2.
Proof.
  split; [reflexivity|].
  exact (proj1 (drain_once_complete (T := sample_types) 7 2 (take 9 sample_log) [10; 11] (drop 10 sample_log)
                  sample_bb sample_run)).
Defined.

Lemma support_plans_order_independent_witness :
  Forall (fun r => r = Ok tt)
    (commit_support_plans (new 7 2) [sample_plan 2 1; sample_plan 1 2]).2.
Proof.
  refine (proj1 (support_plans_order_independent (T := sample_types) 7 2 [] (new 7 2) [sample_plan 1 2; sample_plan 2 1]
                   [sample_plan 2 1; sample_plan 1 2] _ _ _)).
  - constructor.
  - apply perm_swap.
  - repeat constructor.
Defined.
