(* ===== verification/LayerArena.v ===== *)
(** The per-layer arena ([LayerArena] of [slicer-runtime/src/blackboard.rs]): staging
    slots that are set once and taken, region data prepared on demand for the
    staged slice, and the queues of decisions deferred to finalization.

    Preparation itself ([prepare_slice_regions], [prepare_perimeter_source_regions]
    of [slicer-wasm-host/src/marshal/prepared.rs], polygon geometry) is a parameter:
    the arena decides when it runs and on what. *)
From stdpp Require Import prelude list strings.
From S2P Require Import Prelude Ir Blackboard.

Record SupportRoutingDiagnostic := {
  srd_family_id : string;
  srd_body_id : string;
  srd_demand_id : string;
  srd_reason : string
}.

Inductive RetractMode := Gcode | Firmware.

Record DeferredRetract := {
  dr_after_entity_index : Z;
  dr_length : f32;
  dr_speed : f32;
  dr_is_unretract : bool;
  dr_mode : RetractMode
}.

Record DeferredTravelMove := {
  dtm_after_entity_index : Z;
  dtm_x : option f32;
  dtm_y : option f32;
  dtm_z : option f32;
  dtm_f : option f32
}.

Record ToolChange := { tc_after_entity_index : Z; tc_from_tool : Z; tc_to_tool : Z }.

Record ZHop := { zh_after_entity_index : Z; zh_hop_height : f32 }.

Inductive LayerArenaSlot := ArenaSlice | ArenaPerimeter | ArenaInfill | ArenaSupport.

Inductive LayerArenaError := SlotAlreadyOccupied (slot : LayerArenaSlot).

Section arena.
Context `{T : IrTypes}.
Context (prepare_slice_regions prepare_perimeter_source_regions :
           SliceIR -> option SurfaceClassificationIR -> list PreparedRegionData).

Record LayerArena := {
  arena_slice : option SliceIR;
  arena_prepared_regions : option (list PreparedRegionData);
  arena_prepared_perimeter_source_regions : option (list PreparedRegionData);
  arena_perimeter : option PerimeterIR;
  arena_infill : option InfillIR;
  arena_support : option SupportIR;
  support_routing_diagnostics : list SupportRoutingDiagnostic;
  layer_collection : option LayerCollectionIR;
  anchored_event_collections : option (list OrderedEventCollection);
  deferred_tool_changes : list ToolChange;
  deferred_annotations : list LayerAnnotation;
  deferred_z_hops : list ZHop;
  deferred_retracts : list DeferredRetract;
  deferred_travel_moves : list DeferredTravelMove
}.

(** Assignments to one field. *)
Definition with_arena_slice (arena : LayerArena) (v : option SliceIR) : LayerArena :=
  {| arena_slice := v; arena_prepared_regions := arena_prepared_regions arena;
     arena_prepared_perimeter_source_regions := arena_prepared_perimeter_source_regions arena;
     arena_perimeter := arena_perimeter arena; arena_infill := arena_infill arena;
     arena_support := arena_support arena;
     support_routing_diagnostics := support_routing_diagnostics arena;
     layer_collection := layer_collection arena;
     anchored_event_collections := anchored_event_collections arena;
     deferred_tool_changes := deferred_tool_changes arena;
     deferred_annotations := deferred_annotations arena;
     deferred_z_hops := deferred_z_hops arena;
     deferred_retracts := deferred_retracts arena;
     deferred_travel_moves := deferred_travel_moves arena |}.
Definition with_arena_prepared_regions (arena : LayerArena) (v : option (list PreparedRegionData)) : LayerArena :=
  {| arena_slice := arena_slice arena; arena_prepared_regions := v;
     arena_prepared_perimeter_source_regions := arena_prepared_perimeter_source_regions arena;
     arena_perimeter := arena_perimeter arena; arena_infill := arena_infill arena;
     arena_support := arena_support arena;
     support_routing_diagnostics := support_routing_diagnostics arena;
     layer_collection := layer_collection arena;
     anchored_event_collections := anchored_event_collections arena;
     deferred_tool_changes := deferred_tool_changes arena;
     deferred_annotations := deferred_annotations arena;
     deferred_z_hops := deferred_z_hops arena;
     deferred_retracts := deferred_retracts arena;
     deferred_travel_moves := deferred_travel_moves arena |}.
Definition with_arena_prepared_perimeter_source_regions (arena : LayerArena) (v : option (list PreparedRegionData)) : LayerArena :=
  {| arena_slice := arena_slice arena;
     arena_prepared_regions := arena_prepared_regions arena;
     arena_prepared_perimeter_source_regions := v;
     arena_perimeter := arena_perimeter arena; arena_infill := arena_infill arena;
     arena_support := arena_support arena;
     support_routing_diagnostics := support_routing_diagnostics arena;
     layer_collection := layer_collection arena;
     anchored_event_collections := anchored_event_collections arena;
     deferred_tool_changes := deferred_tool_changes arena;
     deferred_annotations := deferred_annotations arena;
     deferred_z_hops := deferred_z_hops arena;
     deferred_retracts := deferred_retracts arena;
     deferred_travel_moves := deferred_travel_moves arena |}.
Definition with_arena_perimeter (arena : LayerArena) (v : option PerimeterIR) : LayerArena :=
  {| arena_slice := arena_slice arena;
     arena_prepared_regions := arena_prepared_regions arena;
     arena_prepared_perimeter_source_regions := arena_prepared_perimeter_source_regions arena;
     arena_perimeter := v; arena_infill := arena_infill arena;
     arena_support := arena_support arena;
     support_routing_diagnostics := support_routing_diagnostics arena;
     layer_collection := layer_collection arena;
     anchored_event_collections := anchored_event_collections arena;
     deferred_tool_changes := deferred_tool_changes arena;
     deferred_annotations := deferred_annotations arena;
     deferred_z_hops := deferred_z_hops arena;
     deferred_retracts := deferred_retracts arena;
     deferred_travel_moves := deferred_travel_moves arena |}.
Definition with_arena_infill (arena : LayerArena) (v : option InfillIR) : LayerArena :=
  {| arena_slice := arena_slice arena;
     arena_prepared_regions := arena_prepared_regions arena;
     arena_prepared_perimeter_source_regions := arena_prepared_perimeter_source_regions arena;
     arena_perimeter := arena_perimeter arena; arena_infill := v;
     arena_support := arena_support arena;
     support_routing_diagnostics := support_routing_diagnostics arena;
     layer_collection := layer_collection arena;
     anchored_event_collections := anchored_event_collections arena;
     deferred_tool_changes := deferred_tool_changes arena;
     deferred_annotations := deferred_annotations arena;
     deferred_z_hops := deferred_z_hops arena;
     deferred_retracts := deferred_retracts arena;
     deferred_travel_moves := deferred_travel_moves arena |}.
Definition with_arena_support (arena : LayerArena) (v : option SupportIR) : LayerArena :=
  {| arena_slice := arena_slice arena;
     arena_prepared_regions := arena_prepared_regions arena;
     arena_prepared_perimeter_source_regions := arena_prepared_perimeter_source_regions arena;
     arena_perimeter := arena_perimeter arena; arena_infill := arena_infill arena;
     arena_support := v; support_routing_diagnostics := support_routing_diagnostics arena;
     layer_collection := layer_collection arena;
     anchored_event_collections := anchored_event_collections arena;
     deferred_tool_changes := deferred_tool_changes arena;
     deferred_annotations := deferred_annotations arena;
     deferred_z_hops := deferred_z_hops arena;
     deferred_retracts := deferred_retracts arena;
     deferred_travel_moves := deferred_travel_moves arena |}.
Definition with_support_routing_diagnostics (arena : LayerArena) (v : list SupportRoutingDiagnostic) : LayerArena :=
  {| arena_slice := arena_slice arena;
     arena_prepared_regions := arena_prepared_regions arena;
     arena_prepared_perimeter_source_regions := arena_prepared_perimeter_source_regions arena;
     arena_perimeter := arena_perimeter arena; arena_infill := arena_infill arena;
     arena_support := arena_support arena; support_routing_diagnostics := v;
     layer_collection := layer_collection arena;
     anchored_event_collections := anchored_event_collections arena;
     deferred_tool_changes := deferred_tool_changes arena;
     deferred_annotations := deferred_annotations arena;
     deferred_z_hops := deferred_z_hops arena;
     deferred_retracts := deferred_retracts arena;
     deferred_travel_moves := deferred_travel_moves arena |}.
Definition with_layer_collection (arena : LayerArena) (v : option LayerCollectionIR) : LayerArena :=
  {| arena_slice := arena_slice arena;
     arena_prepared_regions := arena_prepared_regions arena;
     arena_prepared_perimeter_source_regions := arena_prepared_perimeter_source_regions arena;
     arena_perimeter := arena_perimeter arena; arena_infill := arena_infill arena;
     arena_support := arena_support arena;
     support_routing_diagnostics := support_routing_diagnostics arena;
     layer_collection := v;
     anchored_event_collections := anchored_event_collections arena;
     deferred_tool_changes := deferred_tool_changes arena;
     deferred_annotations := deferred_annotations arena;
     deferred_z_hops := deferred_z_hops arena;
     deferred_retracts := deferred_retracts arena;
     deferred_travel_moves := deferred_travel_moves arena |}.
Definition with_anchored_event_collections (arena : LayerArena) (v : option (list OrderedEventCollection)) : LayerArena :=
  {| arena_slice := arena_slice arena;
     arena_prepared_regions := arena_prepared_regions arena;
     arena_prepared_perimeter_source_regions := arena_prepared_perimeter_source_regions arena;
     arena_perimeter := arena_perimeter arena; arena_infill := arena_infill arena;
     arena_support := arena_support arena;
     support_routing_diagnostics := support_routing_diagnostics arena;
     layer_collection := layer_collection arena; anchored_event_collections := v;
     deferred_tool_changes := deferred_tool_changes arena;
     deferred_annotations := deferred_annotations arena;
     deferred_z_hops := deferred_z_hops arena;
     deferred_retracts := deferred_retracts arena;
     deferred_travel_moves := deferred_travel_moves arena |}.
Definition with_deferred_tool_changes (arena : LayerArena) (v : list ToolChange) : LayerArena :=
  {| arena_slice := arena_slice arena;
     arena_prepared_regions := arena_prepared_regions arena;
     arena_prepared_perimeter_source_regions := arena_prepared_perimeter_source_regions arena;
     arena_perimeter := arena_perimeter arena; arena_infill := arena_infill arena;
     arena_support := arena_support arena;
     support_routing_diagnostics := support_routing_diagnostics arena;
     layer_collection := layer_collection arena;
     anchored_event_collections := anchored_event_collections arena;
     deferred_tool_changes := v; deferred_annotations := deferred_annotations arena;
     deferred_z_hops := deferred_z_hops arena;
     deferred_retracts := deferred_retracts arena;
     deferred_travel_moves := deferred_travel_moves arena |}.
Definition with_deferred_annotations (arena : LayerArena) (v : list LayerAnnotation) : LayerArena :=
  {| arena_slice := arena_slice arena;
     arena_prepared_regions := arena_prepared_regions arena;
     arena_prepared_perimeter_source_regions := arena_prepared_perimeter_source_regions arena;
     arena_perimeter := arena_perimeter arena; arena_infill := arena_infill arena;
     arena_support := arena_support arena;
     support_routing_diagnostics := support_routing_diagnostics arena;
     layer_collection := layer_collection arena;
     anchored_event_collections := anchored_event_collections arena;
     deferred_tool_changes := deferred_tool_changes arena; deferred_annotations := v;
     deferred_z_hops := deferred_z_hops arena;
     deferred_retracts := deferred_retracts arena;
     deferred_travel_moves := deferred_travel_moves arena |}.
Definition with_deferred_z_hops (arena : LayerArena) (v : list ZHop) : LayerArena :=
  {| arena_slice := arena_slice arena;
     arena_prepared_regions := arena_prepared_regions arena;
     arena_prepared_perimeter_source_regions := arena_prepared_perimeter_source_regions arena;
     arena_perimeter := arena_perimeter arena; arena_infill := arena_infill arena;
     arena_support := arena_support arena;
     support_routing_diagnostics := support_routing_diagnostics arena;
     layer_collection := layer_collection arena;
     anchored_event_collections := anchored_event_collections arena;
     deferred_tool_changes := deferred_tool_changes arena;
     deferred_annotations := deferred_annotations arena; deferred_z_hops := v;
     deferred_retracts := deferred_retracts arena;
     deferred_travel_moves := deferred_travel_moves arena |}.
Definition with_deferred_retracts (arena : LayerArena) (v : list DeferredRetract) : LayerArena :=
  {| arena_slice := arena_slice arena;
     arena_prepared_regions := arena_prepared_regions arena;
     arena_prepared_perimeter_source_regions := arena_prepared_perimeter_source_regions arena;
     arena_perimeter := arena_perimeter arena; arena_infill := arena_infill arena;
     arena_support := arena_support arena;
     support_routing_diagnostics := support_routing_diagnostics arena;
     layer_collection := layer_collection arena;
     anchored_event_collections := anchored_event_collections arena;
     deferred_tool_changes := deferred_tool_changes arena;
     deferred_annotations := deferred_annotations arena;
     deferred_z_hops := deferred_z_hops arena; deferred_retracts := v;
     deferred_travel_moves := deferred_travel_moves arena |}.
Definition with_deferred_travel_moves (arena : LayerArena) (v : list DeferredTravelMove) : LayerArena :=
  {| arena_slice := arena_slice arena;
     arena_prepared_regions := arena_prepared_regions arena;
     arena_prepared_perimeter_source_regions := arena_prepared_perimeter_source_regions arena;
     arena_perimeter := arena_perimeter arena; arena_infill := arena_infill arena;
     arena_support := arena_support arena;
     support_routing_diagnostics := support_routing_diagnostics arena;
     layer_collection := layer_collection arena;
     anchored_event_collections := anchored_event_collections arena;
     deferred_tool_changes := deferred_tool_changes arena;
     deferred_annotations := deferred_annotations arena;
     deferred_z_hops := deferred_z_hops arena;
     deferred_retracts := deferred_retracts arena; deferred_travel_moves := v |}.

Definition new : LayerArena :=
  {| arena_slice := None; arena_prepared_regions := None;
     arena_prepared_perimeter_source_regions := None; arena_perimeter := None;
     arena_infill := None; arena_support := None; support_routing_diagnostics := [];
     layer_collection := None; anchored_event_collections := None;
     deferred_tool_changes := []; deferred_annotations := []; deferred_z_hops := [];
     deferred_retracts := []; deferred_travel_moves := [] |}.

Definition set_arena_slot {A} (slot : option A) (ir : A) (slot_name : LayerArenaSlot)
    : option A * result unit LayerArenaError :=
  match slot with
  | Some _ => (slot, Err (SlotAlreadyOccupied slot_name))
  | None => (Some ir, Ok tt)
  end.

Definition set_slice (arena : LayerArena) (ir : SliceIR) : LayerArena * result unit LayerArenaError :=
  match set_arena_slot (arena_slice arena) ir ArenaSlice with
  | (_, Err e) => (arena, Err e)
  | (slot, Ok _) =>
      let arena := with_arena_slice arena slot in
      let arena := with_arena_prepared_regions arena None in
      (with_arena_prepared_perimeter_source_regions arena None, Ok tt)
  end.

Definition take_slice (arena : LayerArena) : LayerArena * option SliceIR :=
  let arena := with_arena_prepared_regions arena None in
  let arena := with_arena_prepared_perimeter_source_regions arena None in
  (with_arena_slice arena None, arena_slice arena).

Definition ensure_prepared_regions (arena : LayerArena)
    (surface_classification : option SurfaceClassificationIR)
    : LayerArena * option (list PreparedRegionData) :=
  match arena_prepared_regions arena with
  | Some prepared => (arena, Some prepared)
  | None =>
      match arena_slice arena with
      | None => (arena, None)
      | Some slice =>
          let prepared := prepare_slice_regions slice surface_classification in
          (with_arena_prepared_regions arena (Some prepared), Some prepared)
      end
  end.

Definition ensure_prepared_perimeter_source_regions (arena : LayerArena)
    (surface_classification : option SurfaceClassificationIR)
    : LayerArena * option (list PreparedRegionData) :=
  match arena_prepared_perimeter_source_regions arena with
  | Some prepared => (arena, Some prepared)
  | None =>
      match arena_slice arena with
      | None => (arena, None)
      | Some slice =>
          let prepared := prepare_perimeter_source_regions slice surface_classification in
          (with_arena_prepared_perimeter_source_regions arena (Some prepared), Some prepared)
      end
  end.

Definition set_perimeter (arena : LayerArena) (ir : PerimeterIR) : LayerArena * result unit LayerArenaError :=
  let '(slot, r) := set_arena_slot (arena_perimeter arena) ir ArenaPerimeter in
  (with_arena_perimeter arena slot, r).

Definition take_perimeter (arena : LayerArena) : LayerArena * option PerimeterIR :=
  (with_arena_perimeter arena None, arena_perimeter arena).

Definition set_infill (arena : LayerArena) (ir : InfillIR) : LayerArena * result unit LayerArenaError :=
  let '(slot, r) := set_arena_slot (arena_infill arena) ir ArenaInfill in
  (with_arena_infill arena slot, r).

Definition take_infill (arena : LayerArena) : LayerArena * option InfillIR :=
  (with_arena_infill arena None, arena_infill arena).

Definition set_support (arena : LayerArena) (ir : SupportIR) : LayerArena * result unit LayerArenaError :=
  let '(slot, r) := set_arena_slot (arena_support arena) ir ArenaSupport in
  (with_arena_support arena slot, r).

Definition take_support (arena : LayerArena) : LayerArena * option SupportIR :=
  (with_arena_support arena None, arena_support arena).

Definition push_support_routing_diagnostic (arena : LayerArena)
    (diagnostic : SupportRoutingDiagnostic) : LayerArena :=
  with_support_routing_diagnostics arena (support_routing_diagnostics arena ++ [diagnostic]).

Definition set_layer_collection (arena : LayerArena) (ir : LayerCollectionIR) : LayerArena :=
  with_layer_collection arena (Some ir).

Definition take_layer_collection (arena : LayerArena) : LayerArena * option LayerCollectionIR :=
  (with_layer_collection arena None, layer_collection arena).

Definition set_anchored_event_collections (arena : LayerArena)
    (collections : list OrderedEventCollection) : LayerArena :=
  with_anchored_event_collections arena (Some collections).

Definition take_anchored_event_collections (arena : LayerArena)
    : LayerArena * option (list OrderedEventCollection) :=
  (with_anchored_event_collections arena None, anchored_event_collections arena).

Definition push_deferred_tool_change (arena : LayerArena) (tc : ToolChange) : LayerArena :=
  with_deferred_tool_changes arena (deferred_tool_changes arena ++ [tc]).

Definition take_deferred_tool_changes (arena : LayerArena) : LayerArena * list ToolChange :=
  (with_deferred_tool_changes arena [], deferred_tool_changes arena).

Definition push_deferred_annotation (arena : LayerArena) (ann : LayerAnnotation) : LayerArena :=
  with_deferred_annotations arena (deferred_annotations arena ++ [ann]).

Definition take_deferred_annotations (arena : LayerArena) : LayerArena * list LayerAnnotation :=
  (with_deferred_annotations arena [], deferred_annotations arena).

Definition push_deferred_z_hop (arena : LayerArena) (zh : ZHop) : LayerArena :=
  with_deferred_z_hops arena (deferred_z_hops arena ++ [zh]).

Definition take_deferred_z_hops (arena : LayerArena) : LayerArena * list ZHop :=
  (with_deferred_z_hops arena [], deferred_z_hops arena).

Definition push_deferred_retract (arena : LayerArena) (r : DeferredRetract) : LayerArena :=
  with_deferred_retracts arena (deferred_retracts arena ++ [r]).

Definition take_deferred_retracts (arena : LayerArena) : LayerArena * list DeferredRetract :=
  (with_deferred_retracts arena [], deferred_retracts arena).

Definition push_deferred_travel_move (arena : LayerArena) (tm : DeferredTravelMove) : LayerArena :=
  with_deferred_travel_moves arena (deferred_travel_moves arena ++ [tm]).

Definition take_deferred_travel_moves (arena : LayerArena) : LayerArena * list DeferredTravelMove :=
  (with_deferred_travel_moves arena [], deferred_travel_moves arena).

Definition reset (arena : LayerArena) : LayerArena :=
  {| arena_slice := None; arena_prepared_regions := None;
     arena_prepared_perimeter_source_regions := None; arena_perimeter := None;
     arena_infill := None; arena_support := None;
     support_routing_diagnostics := support_routing_diagnostics arena;
     layer_collection := None;
     anchored_event_collections := anchored_event_collections arena;
     deferred_tool_changes := []; deferred_annotations := []; deferred_z_hops := [];
     deferred_retracts := []; deferred_travel_moves := [] |}.

(** ** Calls, replies and runs *)

Inductive arena_call :=
| SetSlice (ir : SliceIR)
| TakeSlice
| SetPerimeter (ir : PerimeterIR)
| TakePerimeter
| SetInfill (ir : InfillIR)
| TakeInfill
| SetSupport (ir : SupportIR)
| TakeSupport
| EnsurePreparedRegions (sc : option SurfaceClassificationIR)
| EnsurePreparedPerimeterSourceRegions (sc : option SurfaceClassificationIR)
| PushSupportRoutingDiagnostic (d : SupportRoutingDiagnostic)
| SetLayerCollection (ir : LayerCollectionIR)
| TakeLayerCollection
| SetAnchoredEventCollections (c : list OrderedEventCollection)
| TakeAnchoredEventCollections
| PushDeferredToolChange (tc : ToolChange)
| TakeDeferredToolChanges
| PushDeferredAnnotation (ann : LayerAnnotation)
| TakeDeferredAnnotations
| PushDeferredZHop (zh : ZHop)
| TakeDeferredZHops
| PushDeferredRetract (r : DeferredRetract)
| TakeDeferredRetracts
| PushDeferredTravelMove (tm : DeferredTravelMove)
| TakeDeferredTravelMoves
| ResetArena.

Inductive arena_reply :=
| Silent
| Staged (r : result unit LayerArenaError)
| Prepared (regions : option (list PreparedRegionData))
| TookSlice (ir : option SliceIR)
| TookPerimeter (ir : option PerimeterIR)
| TookInfill (ir : option InfillIR)
| TookSupport (ir : option SupportIR)
| TookLayerCollection (ir : option LayerCollectionIR)
| TookAnchoredEventCollections (c : option (list OrderedEventCollection))
| TookDeferredToolChanges (l : list ToolChange)
| TookDeferredAnnotations (l : list LayerAnnotation)
| TookDeferredZHops (l : list ZHop)
| TookDeferredRetracts (l : list DeferredRetract)
| TookDeferredTravelMoves (l : list DeferredTravelMove).

Definition arena_step (arena : LayerArena) (c : arena_call) : LayerArena * arena_reply :=
  match c with
  | SetSlice ir => prod_map id Staged (set_slice arena ir)
  | TakeSlice => prod_map id TookSlice (take_slice arena)
  | SetPerimeter ir => prod_map id Staged (set_perimeter arena ir)
  | TakePerimeter => prod_map id TookPerimeter (take_perimeter arena)
  | SetInfill ir => prod_map id Staged (set_infill arena ir)
  | TakeInfill => prod_map id TookInfill (take_infill arena)
  | SetSupport ir => prod_map id Staged (set_support arena ir)
  | TakeSupport => prod_map id TookSupport (take_support arena)
  | EnsurePreparedRegions sc => prod_map id Prepared (ensure_prepared_regions arena sc)
  | EnsurePreparedPerimeterSourceRegions sc => prod_map id Prepared (ensure_prepared_perimeter_source_regions arena sc)
  | PushSupportRoutingDiagnostic d => (push_support_routing_diagnostic arena d, Silent)
  | SetLayerCollection ir => (set_layer_collection arena ir, Silent)
  | TakeLayerCollection => prod_map id TookLayerCollection (take_layer_collection arena)
  | SetAnchoredEventCollections c => (set_anchored_event_collections arena c, Silent)
  | TakeAnchoredEventCollections => prod_map id TookAnchoredEventCollections (take_anchored_event_collections arena)
  | PushDeferredToolChange tc => (push_deferred_tool_change arena tc, Silent)
  | TakeDeferredToolChanges => prod_map id TookDeferredToolChanges (take_deferred_tool_changes arena)
  | PushDeferredAnnotation ann => (push_deferred_annotation arena ann, Silent)
  | TakeDeferredAnnotations => prod_map id TookDeferredAnnotations (take_deferred_annotations arena)
  | PushDeferredZHop zh => (push_deferred_z_hop arena zh, Silent)
  | TakeDeferredZHops => prod_map id TookDeferredZHops (take_deferred_z_hops arena)
  | PushDeferredRetract r => (push_deferred_retract arena r, Silent)
  | TakeDeferredRetracts => prod_map id TookDeferredRetracts (take_deferred_retracts arena)
  | PushDeferredTravelMove tm => (push_deferred_travel_move arena tm, Silent)
  | TakeDeferredTravelMoves => prod_map id TookDeferredTravelMoves (take_deferred_travel_moves arena)
  | ResetArena => (reset arena, Silent)
  end.

(** The arenas a layer worker reaches, with the log of calls and replies. *)
Inductive arena_run : list (arena_call * arena_reply) -> LayerArena -> Prop :=
| arena_run_new : arena_run [] new
| arena_run_step log arena c arena' r :
    arena_run log arena ->
    arena_step arena c = (arena', r) ->
    arena_run (log ++ [(c, r)]) arena'.

(** ** Specification: an arena is its log *)

(** The entries of the log after the last one that [cut] selects. *)
Definition since {E} (cut : E -> bool) (log : list E) : list E :=
  foldl (fun later e => if cut e then [] else later ++ [e]) [] log.

(** The values [payload] reads off the calls since the last one of [cut]. *)
Definition values_since {A} (cut : arena_call * arena_reply -> bool)
    (payload : arena_call -> option A) (log : list (arena_call * arena_reply)) : list A :=
  omap (fun e => payload e.1) (since cut log).

Definition slice_set (c : arena_call) : option SliceIR :=
  match c with SetSlice ir => Some ir | _ => None end.
Definition slice_taken (e : arena_call * arena_reply) : bool :=
  match e.1 with TakeSlice | ResetArena => true | _ => false end.
Definition perimeter_set (c : arena_call) : option PerimeterIR :=
  match c with SetPerimeter ir => Some ir | _ => None end.
Definition perimeter_taken (e : arena_call * arena_reply) : bool :=
  match e.1 with TakePerimeter | ResetArena => true | _ => false end.
Definition infill_set (c : arena_call) : option InfillIR :=
  match c with SetInfill ir => Some ir | _ => None end.
Definition infill_taken (e : arena_call * arena_reply) : bool :=
  match e.1 with TakeInfill | ResetArena => true | _ => false end.
Definition support_set (c : arena_call) : option SupportIR :=
  match c with SetSupport ir => Some ir | _ => None end.
Definition support_taken (e : arena_call * arena_reply) : bool :=
  match e.1 with TakeSupport | ResetArena => true | _ => false end.
(** A slice was staged, taken or dropped. *)
Definition slice_changed (e : arena_call * arena_reply) : bool :=
  match e with
  | (SetSlice _, Staged (Ok _)) | (TakeSlice, _) | (ResetArena, _) => true
  | _ => false
  end.
Definition never_cut (e : arena_call * arena_reply) : bool := false.
Definition prepared_asked (c : arena_call) : option (option SurfaceClassificationIR) :=
  match c with EnsurePreparedRegions sc => Some sc | _ => None end.
Definition perimeter_source_asked (c : arena_call) : option (option SurfaceClassificationIR) :=
  match c with EnsurePreparedPerimeterSourceRegions sc => Some sc | _ => None end.
Definition diagnostic_pushed (c : arena_call) : option SupportRoutingDiagnostic :=
  match c with PushSupportRoutingDiagnostic d => Some d | _ => None end.
Definition collection_set (c : arena_call) : option LayerCollectionIR :=
  match c with SetLayerCollection ir => Some ir | _ => None end.
Definition collection_taken (e : arena_call * arena_reply) : bool :=
  match e.1 with TakeLayerCollection | ResetArena => true | _ => false end.
Definition anchored_set (c : arena_call) : option (list OrderedEventCollection) :=
  match c with SetAnchoredEventCollections c => Some c | _ => None end.
Definition anchored_taken (e : arena_call * arena_reply) : bool :=
  match e.1 with TakeAnchoredEventCollections => true | _ => false end.
Definition tool_change_pushed (c : arena_call) : option ToolChange :=
  match c with PushDeferredToolChange tc => Some tc | _ => None end.
Definition tool_changes_taken (e : arena_call * arena_reply) : bool :=
  match e.1 with TakeDeferredToolChanges | ResetArena => true | _ => false end.
Definition annotation_pushed (c : arena_call) : option LayerAnnotation :=
  match c with PushDeferredAnnotation ann => Some ann | _ => None end.
Definition annotations_taken (e : arena_call * arena_reply) : bool :=
  match e.1 with TakeDeferredAnnotations | ResetArena => true | _ => false end.
Definition z_hop_pushed (c : arena_call) : option ZHop :=
  match c with PushDeferredZHop zh => Some zh | _ => None end.
Definition z_hops_taken (e : arena_call * arena_reply) : bool :=
  match e.1 with TakeDeferredZHops | ResetArena => true | _ => false end.
Definition retract_pushed (c : arena_call) : option DeferredRetract :=
  match c with PushDeferredRetract r => Some r | _ => None end.
Definition retracts_taken (e : arena_call * arena_reply) : bool :=
  match e.1 with TakeDeferredRetracts | ResetArena => true | _ => false end.
Definition travel_move_pushed (c : arena_call) : option DeferredTravelMove :=
  match c with PushDeferredTravelMove tm => Some tm | _ => None end.
Definition travel_moves_taken (e : arena_call * arena_reply) : bool :=
  match e.1 with TakeDeferredTravelMoves | ResetArena => true | _ => false end.

(** The prepared regions of the staged slice, for the first classification asked. *)
Definition cached {A B C} (prepare : A -> B -> C) (slice : option A) (asked : option B) : option C :=
  match slice, asked with Some s, Some sc => Some (prepare s sc) | _, _ => None end.

(** The arena after the calls of [log]. *)
Definition arena_log_state (log : list (arena_call * arena_reply)) : LayerArena :=
  {| arena_slice := head (values_since slice_taken slice_set log);
     arena_prepared_regions := cached prepare_slice_regions
       (head (values_since slice_taken slice_set log)) (head (values_since slice_changed prepared_asked log));
     arena_prepared_perimeter_source_regions := cached prepare_perimeter_source_regions
       (head (values_since slice_taken slice_set log)) (head (values_since slice_changed perimeter_source_asked log));
     arena_perimeter := head (values_since perimeter_taken perimeter_set log);
     arena_infill := head (values_since infill_taken infill_set log);
     arena_support := head (values_since support_taken support_set log);
     support_routing_diagnostics := values_since never_cut diagnostic_pushed log;
     layer_collection := last (values_since collection_taken collection_set log);
     anchored_event_collections := last (values_since anchored_taken anchored_set log);
     deferred_tool_changes := values_since tool_changes_taken tool_change_pushed log;
     deferred_annotations := values_since annotations_taken annotation_pushed log;
     deferred_z_hops := values_since z_hops_taken z_hop_pushed log;
     deferred_retracts := values_since retracts_taken retract_pushed log;
     deferred_travel_moves := values_since travel_moves_taken travel_move_pushed log |}.

(** ** Auxiliary lemmas *)

Lemma since_snoc {E} (cut : E -> bool) log e :
  since cut (log ++ [e]) = if cut e then [] else since cut log ++ [e].
Proof. unfold since. by rewrite foldl_app. Qed.

Lemma values_since_snoc {A} cut (payload : arena_call -> option A) log c r :
  values_since cut payload (log ++ [(c, r)]) =
  if cut (c, r) then [] else values_since cut payload log ++ option_list (payload c).
Proof.
  unfold values_since. rewrite since_snoc. destruct (cut (c, r)); [done|].
  by rewrite omap_app.
Qed.

Lemma head_snoc_option {A} (l : list A) x :
  head (l ++ option_list (Some x)) = Some (default x (head l)).
Proof. by destruct l. Qed.

(** The call's own field changes; the others read as before. *)
Ltac arena_call :=
  unfold arena_log_state; rewrite !values_since_snoc;
  cbn [slice_taken perimeter_taken infill_taken support_taken slice_changed never_cut
       collection_taken anchored_taken tool_changes_taken annotations_taken z_hops_taken
       retracts_taken travel_moves_taken slice_set perimeter_set infill_set support_set
       prepared_asked perimeter_source_asked diagnostic_pushed collection_set anchored_set
       tool_change_pushed annotation_pushed z_hop_pushed retract_pushed travel_move_pushed
       fst option_list];
  rewrite ?app_nil_r, ?last_option_list, ?head_snoc_option.

Lemma arena_step_spec log c arena' r :
  arena_step (arena_log_state log) c = (arena', r) ->
  arena' = arena_log_state (log ++ [(c, r)]).
Proof.
  destruct c; simpl;
    unfold set_slice, set_perimeter, set_infill, set_support, set_arena_slot,
      ensure_prepared_regions, ensure_prepared_perimeter_source_regions; simpl.
  all: try (intros [= <- <-]; arena_call; reflexivity).
  all: try (destruct (head (values_since _ _ log)) eqn:Hh; simpl; intros [= <- <-];
            arena_call; cbn; rewrite ?Hh; reflexivity).
  all: destruct (head (values_since slice_taken _ log)) eqn:Hs,
         (head (values_since slice_changed _ log)) eqn:Ha; simpl; intros [= <- <-];
         arena_call; cbn; by rewrite ?Hs, ?Ha.
Qed.

Lemma arena_run_log_state log arena : arena_run log arena -> arena = arena_log_state log.
Proof.
  induction 1 as [|log arena c arena' r _ -> Hstep]; [done|]. by apply arena_step_spec in Hstep.
Qed.

Lemma since_never {E} (log : list E) : since (fun _ => false) log = log.
Proof. induction log as [|e log IH] using rev_ind; [done|]. by rewrite since_snoc, IH. Qed.

Lemma no_diagnostic_pushed log :
  values_since never_cut diagnostic_pushed log = [] <->
  forall d r, (PushSupportRoutingDiagnostic d, r) ∉ log.
Proof.
  unfold values_since. change never_cut with (fun _ : arena_call * arena_reply => false).
  rewrite since_never, list_nil_elem. setoid_rewrite list_elem_of_omap. split.
  - intros Hno d r Hin. by apply (Hno d); exists (PushSupportRoutingDiagnostic d, r).
  - intros Hno d ([c r] & Hin & Hd). destruct c; try discriminate Hd.
    injection Hd as ->. by apply (Hno d r).
Qed.

(** ** Properties *)

(** [C25].  The arena refines its log.  After any calls, each staging slot holds the
    first value staged since it was last taken, each deferred queue the values pushed
    since it was last taken, in order, and the prepared regions are those of the
    staged slice for the first surface classification asked for since that slice was
    staged: they are computed once, they are never those of another slice, and they
    are what every request for them returns. *)
Theorem arena_refines_log log arena (Hrun : arena_run log arena) :
  arena = arena_log_state log /\
  (forall sc, (arena_step arena (EnsurePreparedRegions sc)).2 =
     Prepared (cached prepare_slice_regions (arena_slice arena)
       (Some (default sc (head (values_since slice_changed prepared_asked log)))))) /\
  (forall sc, (arena_step arena (EnsurePreparedPerimeterSourceRegions sc)).2 =
     Prepared (cached prepare_perimeter_source_regions (arena_slice arena)
       (Some (default sc (head (values_since slice_changed perimeter_source_asked log)))))).
Proof.
  pose proof (arena_run_log_state _ _ Hrun) as ->. split; [done|].
  split; intros sc; simpl;
    unfold ensure_prepared_regions, ensure_prepared_perimeter_source_regions; simpl;
    destruct (head (values_since slice_taken slice_set log)); try done;
    by destruct (head (values_since slice_changed _ log)).
Qed.

(** [reset] does not drop everything a layer staged: the reset arena is a fresh
    one exactly when no support routing diagnostic was ever pushed on the arena and
    no anchored event collections are waiting to be taken. *)
Theorem arena_reset_fresh_iff log arena (Hrun : arena_run log arena) :
  reset arena = new <->
  (forall d r, (PushSupportRoutingDiagnostic d, r) ∉ log) /\
  values_since anchored_taken anchored_set log = [].
Proof.
  pose proof (arena_run_log_state _ _ Hrun) as ->.
  rewrite <-no_diagnostic_pushed, <-(last_None (values_since anchored_taken _ _)).
  unfold reset, new. simpl. split; [by intros [= -> ->]|by intros [-> ->]].
Qed.
End arena.

(** ** Witnesses *)

#[local] Existing Instance sample_types.

Definition sample_prepare (slice : @SliceIR sample_types)
    (sc : option (@SurfaceClassificationIR sample_types)) : list (@PreparedRegionData sample_types) :=
  [slice; default 0 sc].

Definition sample_log : list (arena_call * arena_reply) :=
  [(SetSlice 5, Staged (Ok tt)); (EnsurePreparedRegions (Some 1), Prepared (Some [5; 1]));
   (SetSlice 6, Staged (Err (SlotAlreadyOccupied ArenaSlice)));
   (EnsurePreparedRegions (Some 2), Prepared (Some [5; 1]));
   (SetAnchoredEventCollections [3], Silent)].

Lemma sample_arena_run :
  arena_run sample_prepare sample_prepare sample_log
    (arena_log_state sample_prepare sample_prepare sample_log).
Proof.
  apply (arena_run_step _ _ (take 4 sample_log) (arena_log_state sample_prepare sample_prepare (take 4 sample_log)));
    [|reflexivity].
  apply (arena_run_step _ _ (take 3 sample_log) (arena_log_state sample_prepare sample_prepare (take 3 sample_log)));
    [|reflexivity].
  apply (arena_run_step _ _ (take 2 sample_log) (arena_log_state sample_prepare sample_prepare (take 2 sample_log)));
    [|reflexivity].
  apply (arena_run_step _ _ (take 1 sample_log) (arena_log_state sample_prepare sample_prepare (take 1 sample_log)));
    [|reflexivity].
  apply (arena_run_step _ _ [] new); [constructor|reflexivity].
Qed.

Lemma arena_refines_log_witness :
  Prepared (Some [5; 1]) = (arena_step sample_prepare sample_prepare
    (arena_log_state sample_prepare sample_prepare sample_log) (EnsurePreparedRegions (Some 9))).2.
Proof.
  symmetry. exact (proj1 (proj2 (arena_refines_log (T := sample_types) sample_prepare sample_prepare
                     sample_log _ sample_arena_run)) (Some 9)).
Defined.

Lemma arena_reset_fresh_iff_witness :
  reset (arena_log_state sample_prepare sample_prepare sample_log) <> new.
Proof.
  intros H. by apply (arena_reset_fresh_iff (T := sample_types) sample_prepare sample_prepare
                        sample_log _ sample_arena_run) in H as [_ H].
Defined.
