(* ===== verification/PreparationStore.v ===== *)
(** The print-scoped preparation store
    ([slicer-wasm-host/src/preparation_store.rs]): owners, their transactions,
    atomic publication of opaque pieces, bounded reads under guards, diagnostic
    projections and disposal.

    [World] holds the stores (an [Arc] each, alive while someone holds it), the
    active invocation of every thread and a supply of [Arc] identities.  A function
    that locks a store is one step on it: [finish] and [read], which release the
    lock in between, are composed of their locked sections.  A [try_lock] that finds
    the lock taken is the argument [contended].  [usize] is 64 bits wide.

    The validation of a diagnostic scene is an argument here, [validate_scene];
    [SceneStore] runs the store with the one of [preparation_projection.rs]
    ([Projection]).  The error types that are only passed on are parameters. *)
From Stdlib Require Import Strings.Byte.
From stdpp Require Import prelude gmap strings list.
From S2P Require Import Prelude Ir.

#[local] Open Scope string_scope.
#[local] Open Scope list_scope.

(** ** Errors ([slicer-schema/src/preparation.rs], [preparation.rs]) *)

Module Transport.
Inductive t :=
| NotReady
| InvalidName
| DuplicateName
| PoisonedOutput
| RangeError
| ArithmeticOverflow
| AccessDenied.
#[export] Instance t_eq_dec : EqDecision t.
Proof. solve_decision. Defined.
End Transport.

Module ProjectionError.
Inductive t :=
| AccessDenied
| NotRequested
| UndeclaredView
| DuplicateScene
| MissingScene
| InvalidReference
| InvalidShape
| InvalidCoordinate
| ArithmeticOverflow
| PoisonedOutput.
#[export] Instance t_eq_dec : EqDecision t.
Proof. solve_decision. Defined.
End ProjectionError.

(** Types the store passes on without looking into them. *)
Class PreparationTypes := {
  PreparationDeclarationError : Type;
  PreparationInputError : Type;
  ModuleError : Type;
  SceneBody : Type
}.

Section store.
Context `{T : PreparationTypes}.

Inductive PreparationFailure :=
| Declaration (e : PreparationDeclarationError)
| TransportFailure (e : Transport.t)
| Input (e : PreparationInputError)
| ModuleFailure (e : ModuleError)
| Trap (detail : string)
| Disposed
| Busy
| InvalidOwner
| AlreadyStarted
| PublicationRejected (detail : string)
| ProjectionRejected (view : string) (error : ProjectionError.t) (field : string).

Record PreparationProjectionScene := {
  scene_id : string;
  scene_view : string;
  scene_body : SceneBody
}.

Record CommittedPreparationProjection := {
  cp_scene : PreparationProjectionScene;
  cp_owner_module_id : string;
  cp_diagnostic_bytes : Z;
  cp_layer_z : gmap Z f32
}.

Record ProjectionFault := {
  pf_view : string;
  pf_error : ProjectionError.t;
  pf_field : string
}.

Context (validate_scene : PreparationProjectionScene -> string -> gmap Z f32 ->
           result CommittedPreparationProjection ProjectionFault).

(** ** Checked arithmetic *)

Definition checked_add_u64 (a b : Z) : option Z :=
  if Z.leb (a + b) u64_max then Some (a + b)%Z else None.

Definition add (a b : Z) : result Z Transport.t :=
  match checked_add_u64 a b with
  | Some c => Ok c
  | None => Err Transport.ArithmeticOverflow
  end.

(** [checked_add] of [preparation_projection.rs]. *)
Definition checked_add (a b : Z) : result Z ProjectionError.t :=
  match checked_add_u64 a b with
  | Some c => Ok c
  | None => Err ProjectionError.ArithmeticOverflow
  end.

Definition count (value : nat) : result Z Transport.t :=
  if Z.leb (Z.of_nat value) u64_max then Ok (Z.of_nat value) else Err Transport.ArithmeticOverflow.

(** ** Data *)

Inductive Phase := Unready | Staging | Ready | DisposedPhase.
#[export] Instance Phase_eq_dec : EqDecision Phase.
Proof. solve_decision. Defined.

Record Piece := { piece_id : Z; piece_bytes : list byte; piece_len : Z }.

Record PreparedPlanMetadata := {
  m_module_id : string;
  m_phase : Phase;
  m_ready : bool;
  m_pieces : list (string * Z);
  m_retained_payload_bytes : Z;
  m_retained_name_bytes : Z;
  m_staged_payload_bytes : Z;
  m_staged_name_bytes : Z;
  m_put_calls : Z;
  m_read_calls : Z;
  m_requested_read_bytes : Z;
  m_returned_read_bytes : Z;
  m_prepare_invocations : Z
}.
Definition set_m_module_id (x : PreparedPlanMetadata) (v : string) : PreparedPlanMetadata :=
  {| m_module_id := v; m_phase := m_phase x; m_ready := m_ready x; m_pieces := m_pieces x;
     m_retained_payload_bytes := m_retained_payload_bytes x;
     m_retained_name_bytes := m_retained_name_bytes x;
     m_staged_payload_bytes := m_staged_payload_bytes x;
     m_staged_name_bytes := m_staged_name_bytes x; m_put_calls := m_put_calls x;
     m_read_calls := m_read_calls x; m_requested_read_bytes := m_requested_read_bytes x;
     m_returned_read_bytes := m_returned_read_bytes x;
     m_prepare_invocations := m_prepare_invocations x |}.
Definition set_m_phase (x : PreparedPlanMetadata) (v : Phase) : PreparedPlanMetadata :=
  {| m_module_id := m_module_id x; m_phase := v; m_ready := m_ready x;
     m_pieces := m_pieces x; m_retained_payload_bytes := m_retained_payload_bytes x;
     m_retained_name_bytes := m_retained_name_bytes x;
     m_staged_payload_bytes := m_staged_payload_bytes x;
     m_staged_name_bytes := m_staged_name_bytes x; m_put_calls := m_put_calls x;
     m_read_calls := m_read_calls x; m_requested_read_bytes := m_requested_read_bytes x;
     m_returned_read_bytes := m_returned_read_bytes x;
     m_prepare_invocations := m_prepare_invocations x |}.
Definition set_m_ready (x : PreparedPlanMetadata) (v : bool) : PreparedPlanMetadata :=
  {| m_module_id := m_module_id x; m_phase := m_phase x; m_ready := v;
     m_pieces := m_pieces x; m_retained_payload_bytes := m_retained_payload_bytes x;
     m_retained_name_bytes := m_retained_name_bytes x;
     m_staged_payload_bytes := m_staged_payload_bytes x;
     m_staged_name_bytes := m_staged_name_bytes x; m_put_calls := m_put_calls x;
     m_read_calls := m_read_calls x; m_requested_read_bytes := m_requested_read_bytes x;
     m_returned_read_bytes := m_returned_read_bytes x;
     m_prepare_invocations := m_prepare_invocations x |}.
Definition set_m_pieces (x : PreparedPlanMetadata) (v : list (string * Z)) : PreparedPlanMetadata :=
  {| m_module_id := m_module_id x; m_phase := m_phase x; m_ready := m_ready x;
     m_pieces := v; m_retained_payload_bytes := m_retained_payload_bytes x;
     m_retained_name_bytes := m_retained_name_bytes x;
     m_staged_payload_bytes := m_staged_payload_bytes x;
     m_staged_name_bytes := m_staged_name_bytes x; m_put_calls := m_put_calls x;
     m_read_calls := m_read_calls x; m_requested_read_bytes := m_requested_read_bytes x;
     m_returned_read_bytes := m_returned_read_bytes x;
     m_prepare_invocations := m_prepare_invocations x |}.
Definition set_m_retained_payload_bytes (x : PreparedPlanMetadata) (v : Z) : PreparedPlanMetadata :=
  {| m_module_id := m_module_id x; m_phase := m_phase x; m_ready := m_ready x;
     m_pieces := m_pieces x; m_retained_payload_bytes := v;
     m_retained_name_bytes := m_retained_name_bytes x;
     m_staged_payload_bytes := m_staged_payload_bytes x;
     m_staged_name_bytes := m_staged_name_bytes x; m_put_calls := m_put_calls x;
     m_read_calls := m_read_calls x; m_requested_read_bytes := m_requested_read_bytes x;
     m_returned_read_bytes := m_returned_read_bytes x;
     m_prepare_invocations := m_prepare_invocations x |}.
Definition set_m_retained_name_bytes (x : PreparedPlanMetadata) (v : Z) : PreparedPlanMetadata :=
  {| m_module_id := m_module_id x; m_phase := m_phase x; m_ready := m_ready x;
     m_pieces := m_pieces x; m_retained_payload_bytes := m_retained_payload_bytes x;
     m_retained_name_bytes := v; m_staged_payload_bytes := m_staged_payload_bytes x;
     m_staged_name_bytes := m_staged_name_bytes x; m_put_calls := m_put_calls x;
     m_read_calls := m_read_calls x; m_requested_read_bytes := m_requested_read_bytes x;
     m_returned_read_bytes := m_returned_read_bytes x;
     m_prepare_invocations := m_prepare_invocations x |}.
Definition set_m_staged_payload_bytes (x : PreparedPlanMetadata) (v : Z) : PreparedPlanMetadata :=
  {| m_module_id := m_module_id x; m_phase := m_phase x; m_ready := m_ready x;
     m_pieces := m_pieces x; m_retained_payload_bytes := m_retained_payload_bytes x;
     m_retained_name_bytes := m_retained_name_bytes x; m_staged_payload_bytes := v;
     m_staged_name_bytes := m_staged_name_bytes x; m_put_calls := m_put_calls x;
     m_read_calls := m_read_calls x; m_requested_read_bytes := m_requested_read_bytes x;
     m_returned_read_bytes := m_returned_read_bytes x;
     m_prepare_invocations := m_prepare_invocations x |}.
Definition set_m_staged_name_bytes (x : PreparedPlanMetadata) (v : Z) : PreparedPlanMetadata :=
  {| m_module_id := m_module_id x; m_phase := m_phase x; m_ready := m_ready x;
     m_pieces := m_pieces x; m_retained_payload_bytes := m_retained_payload_bytes x;
     m_retained_name_bytes := m_retained_name_bytes x;
     m_staged_payload_bytes := m_staged_payload_bytes x; m_staged_name_bytes := v;
     m_put_calls := m_put_calls x; m_read_calls := m_read_calls x;
     m_requested_read_bytes := m_requested_read_bytes x;
     m_returned_read_bytes := m_returned_read_bytes x;
     m_prepare_invocations := m_prepare_invocations x |}.
Definition set_m_put_calls (x : PreparedPlanMetadata) (v : Z) : PreparedPlanMetadata :=
  {| m_module_id := m_module_id x; m_phase := m_phase x; m_ready := m_ready x;
     m_pieces := m_pieces x; m_retained_payload_bytes := m_retained_payload_bytes x;
     m_retained_name_bytes := m_retained_name_bytes x;
     m_staged_payload_bytes := m_staged_payload_bytes x;
     m_staged_name_bytes := m_staged_name_bytes x; m_put_calls := v;
     m_read_calls := m_read_calls x; m_requested_read_bytes := m_requested_read_bytes x;
     m_returned_read_bytes := m_returned_read_bytes x;
     m_prepare_invocations := m_prepare_invocations x |}.
Definition set_m_read_calls (x : PreparedPlanMetadata) (v : Z) : PreparedPlanMetadata :=
  {| m_module_id := m_module_id x; m_phase := m_phase x; m_ready := m_ready x;
     m_pieces := m_pieces x; m_retained_payload_bytes := m_retained_payload_bytes x;
     m_retained_name_bytes := m_retained_name_bytes x;
     m_staged_payload_bytes := m_staged_payload_bytes x;
     m_staged_name_bytes := m_staged_name_bytes x; m_put_calls := m_put_calls x;
     m_read_calls := v; m_requested_read_bytes := m_requested_read_bytes x;
     m_returned_read_bytes := m_returned_read_bytes x;
     m_prepare_invocations := m_prepare_invocations x |}.
Definition set_m_requested_read_bytes (x : PreparedPlanMetadata) (v : Z) : PreparedPlanMetadata :=
  {| m_module_id := m_module_id x; m_phase := m_phase x; m_ready := m_ready x;
     m_pieces := m_pieces x; m_retained_payload_bytes := m_retained_payload_bytes x;
     m_retained_name_bytes := m_retained_name_bytes x;
     m_staged_payload_bytes := m_staged_payload_bytes x;
     m_staged_name_bytes := m_staged_name_bytes x; m_put_calls := m_put_calls x;
     m_read_calls := m_read_calls x; m_requested_read_bytes := v;
     m_returned_read_bytes := m_returned_read_bytes x;
     m_prepare_invocations := m_prepare_invocations x |}.
Definition set_m_returned_read_bytes (x : PreparedPlanMetadata) (v : Z) : PreparedPlanMetadata :=
  {| m_module_id := m_module_id x; m_phase := m_phase x; m_ready := m_ready x;
     m_pieces := m_pieces x; m_retained_payload_bytes := m_retained_payload_bytes x;
     m_retained_name_bytes := m_retained_name_bytes x;
     m_staged_payload_bytes := m_staged_payload_bytes x;
     m_staged_name_bytes := m_staged_name_bytes x; m_put_calls := m_put_calls x;
     m_read_calls := m_read_calls x; m_requested_read_bytes := m_requested_read_bytes x;
     m_returned_read_bytes := v; m_prepare_invocations := m_prepare_invocations x |}.
Definition set_m_prepare_invocations (x : PreparedPlanMetadata) (v : Z) : PreparedPlanMetadata :=
  {| m_module_id := m_module_id x; m_phase := m_phase x; m_ready := m_ready x;
     m_pieces := m_pieces x; m_retained_payload_bytes := m_retained_payload_bytes x;
     m_retained_name_bytes := m_retained_name_bytes x;
     m_staged_payload_bytes := m_staged_payload_bytes x;
     m_staged_name_bytes := m_staged_name_bytes x; m_put_calls := m_put_calls x;
     m_read_calls := m_read_calls x; m_requested_read_bytes := m_requested_read_bytes x;
     m_returned_read_bytes := m_returned_read_bytes x; m_prepare_invocations := v |}.

Record PreparationDiagnosticAccounting := {
  staged_bytes : Z;
  retained_bytes : Z;
  published_scenes : Z
}.

Record ProjectionStaging := {
  ps_views : list string;
  ps_layers : gmap Z f32;
  ps_scenes : gmap string CommittedPreparationProjection
}.

(** [metadata] and [diagnostics] are the cells the owner tokens share with their entry;
    [prepare_fuel] is the atomic of the token. *)
Record OwnerState := {
  artifact_identity : nat;
  pieces : gmap string Piece;
  metadata : PreparedPlanMetadata;
  writer_fault : option Transport.t;
  active_reads : Z;
  call_identity : option nat;
  projection : option ProjectionStaging;
  projection_failure : option ProjectionFault;
  diagnostics : PreparationDiagnosticAccounting;
  prepare_fuel : Z
}.
Definition set_artifact_identity (x : OwnerState) (v : nat) : OwnerState :=
  {| artifact_identity := v; pieces := pieces x; metadata := metadata x;
     writer_fault := writer_fault x; active_reads := active_reads x;
     call_identity := call_identity x; projection := projection x;
     projection_failure := projection_failure x; diagnostics := diagnostics x;
     prepare_fuel := prepare_fuel x |}.
Definition set_pieces (x : OwnerState) (v : gmap string Piece) : OwnerState :=
  {| artifact_identity := artifact_identity x; pieces := v; metadata := metadata x;
     writer_fault := writer_fault x; active_reads := active_reads x;
     call_identity := call_identity x; projection := projection x;
     projection_failure := projection_failure x; diagnostics := diagnostics x;
     prepare_fuel := prepare_fuel x |}.
Definition set_metadata (x : OwnerState) (v : PreparedPlanMetadata) : OwnerState :=
  {| artifact_identity := artifact_identity x; pieces := pieces x; metadata := v;
     writer_fault := writer_fault x; active_reads := active_reads x;
     call_identity := call_identity x; projection := projection x;
     projection_failure := projection_failure x; diagnostics := diagnostics x;
     prepare_fuel := prepare_fuel x |}.
Definition set_writer_fault (x : OwnerState) (v : option Transport.t) : OwnerState :=
  {| artifact_identity := artifact_identity x; pieces := pieces x; metadata := metadata x;
     writer_fault := v; active_reads := active_reads x; call_identity := call_identity x;
     projection := projection x; projection_failure := projection_failure x;
     diagnostics := diagnostics x; prepare_fuel := prepare_fuel x |}.
Definition set_active_reads (x : OwnerState) (v : Z) : OwnerState :=
  {| artifact_identity := artifact_identity x; pieces := pieces x; metadata := metadata x;
     writer_fault := writer_fault x; active_reads := v; call_identity := call_identity x;
     projection := projection x; projection_failure := projection_failure x;
     diagnostics := diagnostics x; prepare_fuel := prepare_fuel x |}.
Definition set_call_identity (x : OwnerState) (v : option nat) : OwnerState :=
  {| artifact_identity := artifact_identity x; pieces := pieces x; metadata := metadata x;
     writer_fault := writer_fault x; active_reads := active_reads x; call_identity := v;
     projection := projection x; projection_failure := projection_failure x;
     diagnostics := diagnostics x; prepare_fuel := prepare_fuel x |}.
Definition set_projection (x : OwnerState) (v : option ProjectionStaging) : OwnerState :=
  {| artifact_identity := artifact_identity x; pieces := pieces x; metadata := metadata x;
     writer_fault := writer_fault x; active_reads := active_reads x;
     call_identity := call_identity x; projection := v;
     projection_failure := projection_failure x; diagnostics := diagnostics x;
     prepare_fuel := prepare_fuel x |}.
Definition set_projection_failure (x : OwnerState) (v : option ProjectionFault) : OwnerState :=
  {| artifact_identity := artifact_identity x; pieces := pieces x; metadata := metadata x;
     writer_fault := writer_fault x; active_reads := active_reads x;
     call_identity := call_identity x; projection := projection x;
     projection_failure := v; diagnostics := diagnostics x;
     prepare_fuel := prepare_fuel x |}.
Definition set_diagnostics (x : OwnerState) (v : PreparationDiagnosticAccounting) : OwnerState :=
  {| artifact_identity := artifact_identity x; pieces := pieces x; metadata := metadata x;
     writer_fault := writer_fault x; active_reads := active_reads x;
     call_identity := call_identity x; projection := projection x;
     projection_failure := projection_failure x; diagnostics := v;
     prepare_fuel := prepare_fuel x |}.
Definition set_prepare_fuel (x : OwnerState) (v : Z) : OwnerState :=
  {| artifact_identity := artifact_identity x; pieces := pieces x; metadata := metadata x;
     writer_fault := writer_fault x; active_reads := active_reads x;
     call_identity := call_identity x; projection := projection x;
     projection_failure := projection_failure x; diagnostics := diagnostics x;
     prepare_fuel := v |}.

(** [alive]: some [Arc] of the store is still held, so [Weak::upgrade] succeeds. *)
Record StoreState := {
  alive : bool;
  disposed : bool;
  next_owner : Z;
  owners : gmap Z OwnerState
}.
Definition set_alive (x : StoreState) (v : bool) : StoreState :=
  {| alive := v; disposed := disposed x; next_owner := next_owner x; owners := owners x |}.
Definition set_disposed (x : StoreState) (v : bool) : StoreState :=
  {| alive := alive x; disposed := v; next_owner := next_owner x; owners := owners x |}.
Definition set_next_owner (x : StoreState) (v : Z) : StoreState :=
  {| alive := alive x; disposed := disposed x; next_owner := v; owners := owners x |}.
Definition set_owners (x : StoreState) (v : gmap Z OwnerState) : StoreState :=
  {| alive := alive x; disposed := disposed x; next_owner := next_owner x; owners := v |}.

(** A token: [store] is the weak reference to its store. *)
Record PreparationOwner := {
  o_store : nat;
  o_id : Z;
  o_artifact_identity : nat;
  o_stage_id : string;
  o_artifact_kind : string;
  o_declared_views : list string;
  o_input_reads : list string
}.

Record ActivePreparationInvocation := { api_owner : PreparationOwner; api_call_identity : nat }.

Record World := {
  stores : gmap nat StoreState;
  active : gmap nat ActivePreparationInvocation;
  next_ref : nat
}.

(** The fields of a frozen binding that the store reads. *)
Record FrozenPreparationBinding := {
  b_module_id : string;
  b_stage_id : string;
  b_artifact_kind : string;
  b_artifact_identity : nat;
  b_declaration : option (list string * list string)
}.

Definition same_owner (a b : PreparationOwner) : bool :=
  Nat.eqb (o_store a) (o_store b) && Z.eqb (o_id a) (o_id b).

(** [Weak::upgrade]. *)
Definition upgrade (w : World) (s : nat) : option StoreState :=
  match stores w !! s with
  | Some st => if alive st then Some st else None
  | None => None
  end.

Definition check_owner (st : StoreState) (o : PreparationOwner)
    : result OwnerState PreparationFailure :=
  match owners st !! o_id o with
  | None => Err InvalidOwner
  | Some entry =>
      if negb (Nat.eqb (artifact_identity entry) (o_artifact_identity o)) then Err InvalidOwner
      else if disposed st || bool_decide (m_phase (metadata entry) = DisposedPhase)
      then Err Disposed
      else Ok entry
  end.

Definition write_store (w : World) (s : nat) (st : StoreState) : World :=
  {| stores := <[s := st]> (stores w); active := active w; next_ref := next_ref w |}.

Definition write_entry (w : World) (st : StoreState) (o : PreparationOwner) (entry : OwnerState)
    : World :=
  write_store w (o_store o) (set_owners st (<[o_id o := entry]> (owners st))).

(** One locked section on an owner's entry: [dead] when the store is gone, [denied]
    maps the failure of [check_owner]. *)
Definition with_owner {A E} (w : World) (o : PreparationOwner) (dead : E)
    (denied : PreparationFailure -> E) (section : OwnerState -> OwnerState * result A E)
    : World * result A E :=
  match upgrade w (o_store o) with
  | None => (w, Err dead)
  | Some st =>
      match check_owner st o with
      | Err failure => (w, Err (denied failure))
      | Ok entry =>
          let '(entry, r) := section entry in (write_entry w st o entry, r)
      end
  end.

(** A reading section. *)
Definition reading {A E} (f : OwnerState -> result A E) (entry : OwnerState)
    : OwnerState * result A E := (entry, f entry).

(** ** Store authority *)

(** [PreparedOwnerStore::verify]: the token is one of this store. *)
Definition verify {A} (s : nat) (o : PreparationOwner) (w : World)
    (k : World * result A PreparationFailure) : World * result A PreparationFailure :=
  if Nat.eqb (o_store o) s then k else (w, Err InvalidOwner).

(** [PreparedOwnerStore::new]. *)
Definition new_store (w : World) : World * nat :=
  ({| stores := <[next_ref w := {| alive := true; disposed := false; next_owner := 0; owners := ∅ |}]>
                  (stores w);
      active := active w;
      next_ref := S (next_ref w) |}, next_ref w).

(** The last [Arc] of a store goes away. *)
Definition drop_store (w : World) (s : nat) : World :=
  match stores w !! s with
  | Some st => write_store w s (set_alive st false)
  | None => w
  end.

Definition new_metadata (module_id : string) : PreparedPlanMetadata :=
  {| m_module_id := module_id; m_phase := Unready; m_ready := false; m_pieces := [];
     m_retained_payload_bytes := 0; m_retained_name_bytes := 0; m_staged_payload_bytes := 0;
     m_staged_name_bytes := 0; m_put_calls := 0; m_read_calls := 0; m_requested_read_bytes := 0;
     m_returned_read_bytes := 0; m_prepare_invocations := 0 |}.

Definition no_diagnostics : PreparationDiagnosticAccounting :=
  {| staged_bytes := 0; retained_bytes := 0; published_scenes := 0 |}.

Definition new_entry (binding : FrozenPreparationBinding) : OwnerState :=
  {| artifact_identity := b_artifact_identity binding; pieces := ∅;
     metadata := new_metadata (b_module_id binding); writer_fault := None; active_reads := 0;
     call_identity := None; projection := None; projection_failure := None;
     diagnostics := no_diagnostics; prepare_fuel := 0 |}.

Definition new_owner (s : nat) (id : Z) (binding : FrozenPreparationBinding) : PreparationOwner :=
  {| o_store := s; o_id := id; o_artifact_identity := b_artifact_identity binding;
     o_stage_id := b_stage_id binding; o_artifact_kind := b_artifact_kind binding;
     o_declared_views := match b_declaration binding with None => [] | Some d => d.1 end;
     o_input_reads := match b_declaration binding with None => [] | Some d => d.2 end |}.

Definition create_owner (w : World) (s : nat) (binding : FrozenPreparationBinding)
    : World * result PreparationOwner PreparationFailure :=
  match stores w !! s with
  | None => (w, Err Disposed)
  | Some st =>
      if disposed st then (w, Err Disposed)
      else
        let id := next_owner st in
        match add id 1 with
        | Err e => (w, Err (TransportFailure e))
        | Ok next =>
            let st := set_owners st (<[id := new_entry binding]> (owners st)) in
            (write_store w s (set_next_owner st next), Ok (new_owner s id binding))
        end
  end.

Definition validate_owner (w : World) (s : nat) (o : PreparationOwner)
    (binding : FrozenPreparationBinding) : World * result unit PreparationFailure :=
  verify s o w
    (if negb (Nat.eqb (o_artifact_identity o) (b_artifact_identity binding)) then (w, Err InvalidOwner)
     else with_owner w o Disposed id (reading (fun _ => Ok tt))).

Definition current_call_identity (w : World) (thread : nat) (o : PreparationOwner) : option nat :=
  match active w !! thread with
  | Some inv => if same_owner o (api_owner inv) then Some (api_call_identity inv) else None
  | None => None
  end.

(** [Arc::new(())]. *)
Definition fresh (w : World) : World * nat :=
  ({| stores := stores w; active := active w; next_ref := S (next_ref w) |}, next_ref w).

Definition begin_section (identity : nat) (entry : OwnerState)
    : OwnerState * result unit PreparationFailure :=
  if bool_decide (m_phase (metadata entry) = Unready) then
    let entry := set_metadata entry (set_m_phase (metadata entry) Staging) in
    let entry := set_writer_fault entry None in
    let entry := set_projection_failure entry None in
    (set_call_identity entry (Some identity), Ok tt)
  else (entry, Err AlreadyStarted).

(** The identity is allocated before the section; an unused one changes nothing. *)
Definition begin (w : World) (s thread : nat) (o : PreparationOwner)
    : World * result unit PreparationFailure :=
  let '(w, identity) :=
    match current_call_identity w thread o with
    | Some identity => (w, identity)
    | None => fresh w
    end in
  verify s o w (with_owner w o Disposed id (begin_section identity)).

Definition projection_failure_of (w : World) (s : nat) (o : PreparationOwner)
    : World * result (option (string * ProjectionError.t)) PreparationFailure :=
  verify s o w
    (with_owner w o Disposed id (reading (fun entry =>
       Ok (match projection_failure entry with
           | Some fault => Some (pf_view fault, pf_error fault)
           | None => None
           end)))).

(** A handle of a plan is its owner. *)
Definition current (w : World) (s : nat) (o : PreparationOwner)
    : World * result PreparationOwner PreparationFailure :=
  verify s o w
    (with_owner w o Disposed id (reading (fun entry =>
       if m_ready (metadata entry) then Ok o else Err (TransportFailure Transport.NotReady)))).

Definition clear_metadata (m : PreparedPlanMetadata) (phase : Phase) : PreparedPlanMetadata :=
  {| m_module_id := m_module_id m; m_phase := phase; m_ready := false; m_pieces := [];
     m_retained_payload_bytes := 0; m_retained_name_bytes := 0; m_staged_payload_bytes := 0;
     m_staged_name_bytes := 0; m_put_calls := m_put_calls m; m_read_calls := m_read_calls m;
     m_requested_read_bytes := m_requested_read_bytes m;
     m_returned_read_bytes := m_returned_read_bytes m;
     m_prepare_invocations := m_prepare_invocations m |}.

Definition clear (entry : OwnerState) (phase : Phase) : OwnerState :=
  {| artifact_identity := artifact_identity entry; pieces := ∅;
     metadata := clear_metadata (metadata entry) phase;
     writer_fault := writer_fault entry; active_reads := active_reads entry;
     call_identity := None; projection := None;
     projection_failure := if bool_decide (phase = DisposedPhase) then None
                           else projection_failure entry;
     diagnostics := {| staged_bytes := 0; retained_bytes := 0;
                       published_scenes := published_scenes (diagnostics entry) |};
     prepare_fuel := prepare_fuel entry |}.

Definition entry_busy (entry : OwnerState) : bool :=
  bool_decide (m_phase (metadata entry) = Staging) || negb (Z.eqb (active_reads entry) 0).

Definition dispose_owner (w : World) (s : nat) (contended : bool) (o : PreparationOwner)
    : World * result unit PreparationFailure :=
  verify s o w
    (if contended then (w, Err Busy)
     else with_owner w o Disposed id (fun entry =>
       if entry_busy entry then (entry, Err Busy) else (clear entry DisposedPhase, Ok tt))).

Definition dispose (w : World) (s : nat) (contended : bool)
    : World * result unit PreparationFailure :=
  if contended then (w, Err Busy)
  else
    match stores w !! s with
    | None => (w, Err Busy)
    | Some st =>
        if existsb (fun e => entry_busy e.2) (map_to_list (owners st)) then (w, Err Busy)
        else
          let st := set_owners st ((fun entry => clear entry DisposedPhase) <$> owners st) in
          (write_store w s (set_disposed st true), Ok tt)
    end.

(** ** Active invocations and read guards *)

Record ReadGuard := {
  g_owner : PreparationOwner;
  g_thread : nat;
  g_invocation : option ActivePreparationInvocation;
  g_previous : option ActivePreparationInvocation
}.

Definition acquire_section (entry : OwnerState) : OwnerState * result unit Transport.t :=
  match add (active_reads entry) 1 with
  | Ok reads => (set_active_reads entry reads, Ok tt)
  | Err e => (entry, Err e)
  end.

(** [ReadGuard::acquire]. *)
Definition acquire (w : World) (thread : nat) (o : PreparationOwner)
    : World * result ReadGuard Transport.t :=
  let '(w, r) := with_owner w o Transport.AccessDenied (fun _ => Transport.AccessDenied)
                   acquire_section in
  (w, match r with
      | Ok _ => Ok {| g_owner := o; g_thread := thread; g_invocation := None; g_previous := None |}
      | Err e => Err e
      end).

(** [ReadGuard::bind_invocation]. *)
Definition bind_invocation (w : World) (g : ReadGuard) : World * ReadGuard :=
  let '(w, identity) := fresh w in
  let invocation := {| api_owner := g_owner g; api_call_identity := identity |} in
  ({| stores := stores w; active := <[g_thread g := invocation]> (active w); next_ref := next_ref w |},
   {| g_owner := g_owner g; g_thread := g_thread g; g_invocation := Some invocation;
      g_previous := active w !! g_thread g |}).

(** [PreparationOwner::active_guard]. *)
Definition active_guard (w : World) (thread : nat) (o : PreparationOwner)
    : World * result ReadGuard PreparationFailure :=
  let '(w, checked) := with_owner w o Disposed id (reading (fun _ => Ok tt)) in
  match checked with
  | Err e => (w, Err e)
  | Ok _ =>
      let '(w, acquired) := acquire w thread o in
      match acquired with
      | Err e => (w, Err (TransportFailure e))
      | Ok g => let '(w, g) := bind_invocation w g in (w, Ok g)
      end
  end.

(** Dropping a guard; [None] is the panic of the unbalanced [checked_sub]. *)
Definition drop_guard (w : World) (g : ReadGuard) : option World :=
  let w :=
    match g_invocation g with
    | None => w
    | Some _ =>
        {| stores := stores w;
           active := partial_alter (fun _ => g_previous g) (g_thread g) (active w);
           next_ref := next_ref w |}
    end in
  match upgrade w (o_store (g_owner g)) with
  | None => Some w
  | Some st =>
      match owners st !! o_id (g_owner g) with
      | None => Some w
      | Some entry =>
          if Z.ltb (active_reads entry) 1 then None
          else Some (write_entry w st (g_owner g)
                       (set_active_reads entry (active_reads entry - 1)%Z))
      end
  end.

(** [PreparationOwner::check_current_invocation]. *)
Definition check_current_invocation (w : World) (thread : nat) (o : PreparationOwner)
    (identity : nat) : result unit ProjectionError.t :=
  match current_call_identity w thread o with
  | Some active => if Nat.eqb active identity then Ok tt else Err ProjectionError.AccessDenied
  | None => Err ProjectionError.AccessDenied
  end.

(** [PreparationOwner::record_prepare_invocation]: the metadata cell is reached without
    the store, so disposal does not matter. *)
Definition record_prepare_invocation (w : World) (o : PreparationOwner)
    : World * result unit PreparationFailure :=
  match stores w !! o_store o with
  | None => (w, Ok tt)
  | Some st =>
      match owners st !! o_id o with
      | None => (w, Ok tt)
      | Some entry =>
          let m := metadata entry in
          match add (m_prepare_invocations m) 1 with
          | Err e => (w, Err (TransportFailure e))
          | Ok n => (write_entry w st o (set_metadata entry (set_m_prepare_invocations m n)), Ok tt)
          end
      end
  end.

(** [PreparationOwner::record_prepare_fuel]. *)
Definition record_prepare_fuel (w : World) (o : PreparationOwner) (fuel : Z) : World :=
  match stores w !! o_store o with
  | None => w
  | Some st =>
      match owners st !! o_id o with
      | None => w
      | Some entry => write_entry w st o (set_prepare_fuel entry fuel)
      end
  end.

(** Names and lengths of the pieces, in the order of the [BTreeMap]. *)
Definition describe_pieces (entry : OwnerState) : list (string * Z) :=
  (fun p => (p.1, piece_len p.2)) <$> btree_iter (pieces entry).

(** [PreparationOwner::staged_description]; a [StagedPreparation] is the owner and this
    list. *)
Definition staged_description (w : World) (o : PreparationOwner)
    : World * result (list (string * Z)) PreparationFailure :=
  with_owner w o Disposed id (reading (fun entry =>
    if bool_decide (m_phase (metadata entry) = Staging) then Ok (describe_pieces entry)
    else Err (TransportFailure Transport.NotReady))).

(** ** Transactions *)

Definition request_section (o : PreparationOwner) (views : list string) (layers : gmap Z f32)
    (entry : OwnerState) : OwnerState * result unit PreparationFailure :=
  match views with
  | [] => (entry, Ok tt)
  | _ =>
      let entry := set_projection entry
        (Some {| ps_views := views; ps_layers := layers; ps_scenes := ∅ |}) in
      match filter (fun view => view ∉ o_declared_views o) views with
      | [] => (entry, Ok tt)
      | view :: _ =>
          let fault := {| pf_view := view; pf_error := ProjectionError.UndeclaredView;
                          pf_field := "requested view" |} in
          (set_projection_failure entry (Some fault),
           Err (ProjectionRejected (pf_view fault) (pf_error fault) (pf_field fault)))
      end
  end.

Definition request_projections (w : World) (o : PreparationOwner) (views : list string)
    (layers : gmap Z f32) : World * result unit PreparationFailure :=
  with_owner w o Disposed id (request_section o views layers).

Record ProjectionWriter := { pw_owner : PreparationOwner; pw_call_identity : nat }.

(** [PreparationTransaction::projection_writer]. *)
Definition projection_writer (w : World) (o : PreparationOwner)
    : World * result (option ProjectionWriter) ProjectionError.t :=
  with_owner w o ProjectionError.AccessDenied (fun _ => ProjectionError.AccessDenied)
    (reading (fun entry =>
       match call_identity entry with
       | None => Err ProjectionError.AccessDenied
       | Some identity =>
           Ok (match projection entry with
               | Some _ => Some {| pw_owner := o; pw_call_identity := identity |}
               | None => None
               end)
       end)).

(** [ProjectionWriter::with_entry]. *)
Definition with_entry {A} (pw : ProjectionWriter)
    (operation : OwnerState -> OwnerState * result A ProjectionFault) (entry : OwnerState)
    : OwnerState * result A ProjectionError.t :=
  if negb (bool_decide (call_identity entry = Some (pw_call_identity pw)))
     || negb (bool_decide (m_phase (metadata entry) = Staging))
  then (entry, Err ProjectionError.AccessDenied)
  else
    match projection_failure entry, writer_fault entry with
    | None, None =>
        match operation entry with
        | (entry, Ok value) => (entry, Ok value)
        | (entry, Err fault) => (set_projection_failure entry (Some fault), Err (pf_error fault))
        end
    | _, _ => (entry, Err ProjectionError.PoisonedOutput)
    end.

Definition requested_views (w : World) (pw : ProjectionWriter)
    : World * result (list string) ProjectionError.t :=
  with_owner w (pw_owner pw) ProjectionError.AccessDenied (fun _ => ProjectionError.AccessDenied)
    (with_entry pw (reading (fun entry =>
       match projection entry with
       | Some p => Ok (ps_views p)
       | None => Err {| pf_view := ""; pf_error := ProjectionError.NotRequested;
                        pf_field := "requested_views" |}
       end))).

Definition publish_operation (o : PreparationOwner) (scene : PreparationProjectionScene)
    (entry : OwnerState) : OwnerState * result unit ProjectionFault :=
  let fault error field :=
    {| pf_view := scene_view scene; pf_error := error;
       pf_field := "scene=" +:+ scene_id scene +:+ " " +:+ field |} in
  let reject error field := (entry, Err (fault error field)) in
  match projection entry with
  | None => reject ProjectionError.NotRequested "view"
  | Some p =>
      if String.eqb (scene_view scene) "" then reject ProjectionError.InvalidReference "view"
      else if negb (bool_decide (scene_view scene ∈ o_declared_views o))
      then reject ProjectionError.UndeclaredView "view"
      else if negb (bool_decide (scene_view scene ∈ ps_views p))
      then reject ProjectionError.NotRequested "view"
      else
        match ps_scenes p !! scene_view scene with
        | Some _ => reject ProjectionError.DuplicateScene "view"
        | None =>
            if existsb (fun c => String.eqb (scene_id (cp_scene c)) (scene_id scene))
                 (btree_values (ps_scenes p))
            then reject ProjectionError.InvalidReference "scene_id"
            else
              match validate_scene scene (m_module_id (metadata entry)) (ps_layers p) with
              | Err f => (entry, Err f)
              | Ok committed =>
                  let accounting := diagnostics entry in
                  match checked_add (staged_bytes accounting) (cp_diagnostic_bytes committed) with
                  | Err e => reject e "staged_bytes"
                  | Ok staged =>
                      match checked_add (published_scenes accounting) 1 with
                      | Err e => reject e "published_scenes"
                      | Ok published =>
                          let entry := set_projection entry
                            (Some {| ps_views := ps_views p; ps_layers := ps_layers p;
                                     ps_scenes := <[scene_view scene := committed]> (ps_scenes p) |}) in
                          (set_diagnostics entry
                             {| staged_bytes := staged; retained_bytes := retained_bytes accounting;
                                published_scenes := published |}, Ok tt)
                      end
                  end
              end
        end
  end.

(** [ProjectionWriter::publish]. *)
Definition publish (w : World) (pw : ProjectionWriter) (scene : PreparationProjectionScene)
    : World * result unit ProjectionError.t :=
  with_owner w (pw_owner pw) ProjectionError.AccessDenied (fun _ => ProjectionError.AccessDenied)
    (with_entry pw (publish_operation (pw_owner pw) scene)).

(** [record_writer_fault]: the first fault is kept; a dead store or owner ignores it. *)
Definition record_writer_fault (w : World) (o : PreparationOwner) (error : Transport.t) : World :=
  (with_owner w o Disposed id (fun entry =>
     (set_writer_fault entry (Some (default error (writer_fault entry))), Ok tt))).1.

(** The fallible part of [put]. *)
Definition stage_piece (name : string) (bytes : list byte) (entry : OwnerState)
    : result OwnerState Transport.t :=
  if String.eqb name "" then Err Transport.InvalidName
  else
    match pieces entry !! name with
    | Some _ => Err Transport.DuplicateName
    | None =>
        let? len := count (length bytes) in
        let? name_len := count (String.length name) in
        let? id := count (size (pieces entry)) in
        let m := metadata entry in
        let? payload := add (m_staged_payload_bytes m) len in
        let? names := add (m_staged_name_bytes m) name_len in
        let? calls := add (m_put_calls m) 1 in
        let entry := set_pieces entry
          (<[name := {| piece_id := id; piece_bytes := bytes; piece_len := len |}]> (pieces entry)) in
        let m := set_m_staged_payload_bytes m payload in
        let m := set_m_staged_name_bytes m names in
        Ok (set_metadata entry (set_m_put_calls m calls))
    end.

Definition put_section (name : string) (bytes : list byte) (entry : OwnerState)
    : OwnerState * result unit Transport.t :=
  match writer_fault entry, projection_failure entry with
  | None, None =>
      match stage_piece name bytes entry with
      | Ok entry => (entry, Ok tt)
      | Err error => (set_writer_fault entry (Some error), Err error)
      end
  | _, _ => (entry, Err Transport.PoisonedOutput)
  end.

(** [PreparationTransaction::put]. *)
Definition put (w : World) (o : PreparationOwner) (name : string) (bytes : list byte)
    : World * result unit Transport.t :=
  with_owner w o Transport.AccessDenied (fun _ => Transport.AccessDenied) (put_section name bytes).

(** Dropping an uncompleted transaction. *)
Definition drop_transaction (w : World) (o : PreparationOwner) : World :=
  (with_owner w o Disposed id (fun entry => (clear entry Unready, Ok tt))).1.

(** The first view of the projection, for a fault that concerns all of them. *)
Definition first_view (entry : OwnerState) : string :=
  match projection entry with
  | Some p => match ps_views p with view :: _ => view | [] => "" end
  | None => ""
  end.

Definition retained_overflow (entry : OwnerState) (error : ProjectionError.t) : ProjectionFault :=
  {| pf_view := first_view entry; pf_error := error; pf_field := "retained_bytes" |}.

Definition rejection (fault : ProjectionFault) : PreparationFailure :=
  ProjectionRejected (pf_view fault) (pf_error fault) (pf_field fault).

(** The projection faults [finish] itself finds: overflowing accounting, then a
    requested view without a scene. *)
Definition finish_fault (entry : OwnerState) : option ProjectionFault :=
  match checked_add (retained_bytes (diagnostics entry)) (staged_bytes (diagnostics entry)) with
  | Err _ => Some (retained_overflow entry ProjectionError.ArithmeticOverflow)
  | Ok _ =>
      match projection entry with
      | None => None
      | Some p =>
          match filter (fun view => ps_scenes p !! view = None) (ps_views p) with
          | [] => None
          | view :: _ => Some {| pf_view := view; pf_error := ProjectionError.MissingScene;
                                 pf_field := "scene" |}
          end
      end
  end.

(** First locked section of [finish]: the staged description. *)
Definition finish_section (entry : OwnerState)
    : OwnerState * result (list (string * Z)) PreparationFailure :=
  match writer_fault entry with
  | Some _ => (entry, Err (TransportFailure Transport.PoisonedOutput))
  | None =>
      let entry :=
        match projection_failure entry with
        | Some _ => entry
        | None => set_projection_failure entry (finish_fault entry)
        end in
      match projection_failure entry with
      | Some fault => (entry, Err (rejection fault))
      | None => (entry, Ok (describe_pieces entry))
      end
  end.

Definition publish_metadata (m : PreparedPlanMetadata) (staged : list (string * Z))
    : PreparedPlanMetadata :=
  {| m_module_id := m_module_id m; m_phase := Ready; m_ready := true; m_pieces := staged;
     m_retained_payload_bytes := m_staged_payload_bytes m;
     m_retained_name_bytes := m_staged_name_bytes m; m_staged_payload_bytes := 0;
     m_staged_name_bytes := 0; m_put_calls := m_put_calls m; m_read_calls := m_read_calls m;
     m_requested_read_bytes := m_requested_read_bytes m;
     m_returned_read_bytes := m_returned_read_bytes m;
     m_prepare_invocations := m_prepare_invocations m |}.

(** Last locked section of [finish]: publication. *)
Definition publication_section (staged : list (string * Z)) (entry : OwnerState)
    : OwnerState * result unit PreparationFailure :=
  match writer_fault entry with
  | Some _ => (entry, Err (TransportFailure Transport.PoisonedOutput))
  | None =>
      match projection_failure entry with
      | Some fault => (entry, Err (rejection fault))
      | None =>
          let d := diagnostics entry in
          match checked_add (retained_bytes d) (staged_bytes d) with
          | Err error =>
              let fault := retained_overflow entry error in
              (set_projection_failure entry (Some fault), Err (rejection fault))
          | Ok retained =>
              let entry := set_diagnostics entry
                {| staged_bytes := 0; retained_bytes := retained;
                   published_scenes := published_scenes d |} in
              let entry := set_call_identity entry None in
              (set_metadata entry (publish_metadata (metadata entry) staged), Ok tt)
          end
      end
  end.

Definition finish_stage (w : World) (o : PreparationOwner)
    : World * result (list (string * Z)) PreparationFailure :=
  with_owner w o Disposed id finish_section.
Definition finish_publish (w : World) (o : PreparationOwner) (staged : list (string * Z))
    : World * result unit PreparationFailure :=
  with_owner w o Disposed id (publication_section staged).

(** A failed [finish] drops its transaction. *)
Definition abort {A} (w : World) (o : PreparationOwner) (e : PreparationFailure)
    : World * result A PreparationFailure := (drop_transaction w o, Err e).

(** [PreparationTransaction::finish]; [validate] is the caller's validation, which may
    itself work on the world. *)
Definition finish (w : World) (o : PreparationOwner) (r : result unit PreparationFailure)
    (validate : list (string * Z) -> World -> World * result unit PreparationFailure)
    : World * result PreparationOwner PreparationFailure :=
  match r with
  | Err (ModuleFailure e) => abort w o (ModuleFailure e)
  | Err (Trap detail) => abort w o (Trap detail)
  | _ =>
      let '(w, described) := finish_stage w o in
      match described with
      | Err e => abort w o e
      | Ok staged =>
          match r with
          | Err e => abort w o e
          | Ok _ =>
              let '(w, validated) := validate staged w in
              match validated with
              | Err e => abort w o e
              | Ok _ =>
                  let '(w, published) := finish_publish w o staged in
                  match published with
                  | Err e => abort w o e
                  | Ok _ => (w, Ok o)
                  end
              end
          end
      end
  end.

(** ** Readable handles *)

(** [PreparedPlanHandle::projection]. *)
Definition plan_projection (w : World) (o : PreparationOwner) (view : string)
    : World * result (option CommittedPreparationProjection) ProjectionError.t :=
  with_owner w o ProjectionError.AccessDenied (fun _ => ProjectionError.AccessDenied)
    (reading (fun entry =>
       if m_ready (metadata entry)
       then Ok (match projection entry with Some p => ps_scenes p !! view | None => None end)
       else Err ProjectionError.AccessDenied)).

Record PreparedPieceHandle := { ph_owner : PreparationOwner; ph_id : Z; ph_len : Z }.

(** [PreparedPlanHandle::open]. *)
Definition open_section (o : PreparationOwner) (name : string) (entry : OwnerState)
    : result (option PreparedPieceHandle) Transport.t :=
  if negb (m_ready (metadata entry)) then Err Transport.NotReady
  else if String.eqb name "" then Err Transport.InvalidName
  else Ok (match pieces entry !! name with
           | Some piece => Some {| ph_owner := o; ph_id := piece_id piece; ph_len := piece_len piece |}
           | None => None
           end).
Definition open_piece (w : World) (o : PreparationOwner) (name : string)
    : World * result (option PreparedPieceHandle) Transport.t :=
  with_owner w o Transport.AccessDenied (fun _ => Transport.AccessDenied)
    (reading (open_section o name)).

(** [bytes.get(start..end)]. *)
Definition slice_get (bytes : list byte) (start end_ : Z) : option (list byte) :=
  if Z.leb start end_ && Z.leb end_ (Z.of_nat (length bytes))
  then Some (take (Z.to_nat (end_ - start)) (drop (Z.to_nat start) bytes))
  else None.

(** The locked section of [PreparedPieceHandle::read]. *)
Definition read_section (h : PreparedPieceHandle) (offset max_bytes : Z) (entry : OwnerState)
    : OwnerState * result (list byte) Transport.t :=
  let out := if negb (m_ready (metadata entry)) then Err Transport.NotReady
    else
      match filter (fun piece => piece_id piece = ph_id h) (btree_values (pieces entry)) with
      | [] => Err Transport.AccessDenied
      | piece :: _ =>
          if Z.ltb (piece_len piece) offset then Err Transport.RangeError
          else
            let remaining := (piece_len piece - offset)%Z in
            let take_ := Z.min max_bytes remaining in
            match checked_add_u64 offset take_ with
            | None => Err Transport.ArithmeticOverflow
            | Some end_ =>
                match slice_get (piece_bytes piece) offset end_ with
                | None => Err Transport.ArithmeticOverflow
                | Some bounded =>
                    let m := metadata entry in
                    let? calls := add (m_read_calls m) 1 in
                    let? requested := add (m_requested_read_bytes m) max_bytes in
                    let? returned := add (m_returned_read_bytes m) take_ in
                    Ok (bounded, set_m_returned_read_bytes
                          (set_m_requested_read_bytes (set_m_read_calls m calls) requested) returned)
                end
            end
      end in
  match out with
  | Ok (bytes, m) => (set_metadata entry m, Ok bytes)
  | Err e => (entry, Err e)
  end.

(** [PreparedPieceHandle::read]: guard, section, guard dropped; [None] is a panic. *)
Definition read (w : World) (thread : nat) (h : PreparedPieceHandle) (offset max_bytes : Z)
    : option (World * result (list byte) Transport.t) :=
  let '(w, acquired) := acquire w thread (ph_owner h) in
  match acquired with
  | Err e => Some (w, Err e)
  | Ok guard =>
      let '(w, r) := with_owner w (ph_owner h) Transport.AccessDenied
                       (fun _ => Transport.AccessDenied) (read_section h offset max_bytes) in
      match drop_guard w guard with
      | Some w => Some (w, r)
      | None => None
      end
  end.

(** ** Steps of a print

    The tokens, transactions and guards in circulation.  Tokens cannot be forged:
    every call is made on one of them.  A transaction lives from [begin] until it is
    dropped or published; once [finish] holds it ([finishing], with the staged
    description) nobody else can write with it. *)
Record Sys := {
  world : World;
  known : list PreparationOwner;
  txs : list PreparationOwner;
  finishing : list (PreparationOwner * list (string * Z));
  guards : list ReadGuard
}.

Definition with_world (sys : Sys) (w : World) : Sys :=
  {| world := w; known := known sys; txs := txs sys; finishing := finishing sys;
     guards := guards sys |}.

Inductive sys_step : Sys -> Sys -> Prop :=
| step_new_store sys w s :
    new_store (world sys) = (w, s) -> sys_step sys (with_world sys w)
| step_drop_store sys s :
    sys_step sys (with_world sys (drop_store (world sys) s))
| step_create sys s binding w o :
    create_owner (world sys) s binding = (w, Ok o) ->
    sys_step sys {| world := w; known := o :: known sys; txs := txs sys;
                    finishing := finishing sys; guards := guards sys |}
| step_begin sys s thread o w r :
    o ∈ known sys -> begin (world sys) s thread o = (w, r) ->
    sys_step sys {| world := w; known := known sys;
                    txs := match r with Ok _ => o :: txs sys | Err _ => txs sys end;
                    finishing := finishing sys; guards := guards sys |}
| step_dispose_owner sys s contended o w r :
    o ∈ known sys -> dispose_owner (world sys) s contended o = (w, r) ->
    sys_step sys (with_world sys w)
| step_dispose sys s contended w r :
    dispose (world sys) s contended = (w, r) -> sys_step sys (with_world sys w)
| step_record_invocation sys o w r :
    o ∈ known sys -> record_prepare_invocation (world sys) o = (w, r) ->
    sys_step sys (with_world sys w)
| step_record_fuel sys o fuel :
    o ∈ known sys -> sys_step sys (with_world sys (record_prepare_fuel (world sys) o fuel))
| step_request sys o views layers w r :
    o ∈ txs sys -> request_projections (world sys) o views layers = (w, r) ->
    sys_step sys (with_world sys w)
| step_publish_scene sys pw scene w r :
    pw_owner pw ∈ known sys -> publish (world sys) pw scene = (w, r) ->
    sys_step sys (with_world sys w)
| step_writer_fault sys o error :
    o ∈ txs sys -> sys_step sys (with_world sys (record_writer_fault (world sys) o error))
| step_put sys o name bytes w r :
    o ∈ txs sys -> put (world sys) o name bytes = (w, r) ->
    sys_step sys (with_world sys w)
| step_abort sys l1 o l2 :
    txs sys = l1 ++ o :: l2 ->
    sys_step sys {| world := drop_transaction (world sys) o; known := known sys;
                    txs := l1 ++ l2; finishing := finishing sys; guards := guards sys |}
| step_finish sys l1 o l2 w staged :
    txs sys = l1 ++ o :: l2 -> finish_stage (world sys) o = (w, Ok staged) ->
    sys_step sys {| world := w; known := known sys; txs := l1 ++ l2;
                    finishing := (o, staged) :: finishing sys; guards := guards sys |}
| step_finish_failed sys l1 o l2 w e :
    txs sys = l1 ++ o :: l2 -> finish_stage (world sys) o = (w, Err e) ->
    sys_step sys {| world := drop_transaction w o; known := known sys; txs := l1 ++ l2;
                    finishing := finishing sys; guards := guards sys |}
| step_invalid sys l1 o staged l2 :
    finishing sys = l1 ++ (o, staged) :: l2 ->
    sys_step sys {| world := drop_transaction (world sys) o; known := known sys;
                    txs := txs sys; finishing := l1 ++ l2; guards := guards sys |}
| step_publish sys l1 o staged l2 w r :
    finishing sys = l1 ++ (o, staged) :: l2 ->
    finish_publish (world sys) o staged = (w, r) ->
    sys_step sys {| world := match r with Ok _ => w | Err _ => drop_transaction w o end;
                    known := known sys; txs := txs sys; finishing := l1 ++ l2;
                    guards := guards sys |}
| step_acquire sys thread o w g :
    o ∈ known sys -> acquire (world sys) thread o = (w, Ok g) ->
    sys_step sys {| world := w; known := known sys; txs := txs sys;
                    finishing := finishing sys; guards := g :: guards sys |}
| step_active_guard sys thread o w g :
    o ∈ known sys -> active_guard (world sys) thread o = (w, Ok g) ->
    sys_step sys {| world := w; known := known sys; txs := txs sys;
                    finishing := finishing sys; guards := g :: guards sys |}
| step_drop_guard sys l1 g l2 w :
    guards sys = l1 ++ g :: l2 -> drop_guard (world sys) g = Some w ->
    sys_step sys {| world := w; known := known sys; txs := txs sys;
                    finishing := finishing sys; guards := l1 ++ l2 |}
| step_read sys h offset max_bytes w r :
    ph_owner h ∈ known sys ->
    with_owner (world sys) (ph_owner h) Transport.AccessDenied (fun _ => Transport.AccessDenied)
      (read_section h offset max_bytes) = (w, r) ->
    sys_step sys (with_world sys w).

Definition sys_new : Sys :=
  {| world := {| stores := ∅; active := ∅; next_ref := 0 |}; known := []; txs := [];
     finishing := []; guards := [] |}.

Inductive reachable : Sys -> Prop :=
| reachable_new : reachable sys_new
| reachable_step sys sys' : reachable sys -> sys_step sys sys' -> reachable sys'.

(** ** Well-formedness *)

Definition total_payload (m : gmap string Piece) : Z :=
  map_fold (fun _ p acc => piece_len p + acc)%Z 0%Z m.
Definition total_names (m : gmap string Piece) : Z :=
  map_fold (fun n _ acc => Z.of_nat (String.length n) + acc)%Z 0%Z m.

Record pieces_ok (m : gmap string Piece) : Prop := {
  po_len : forall n p, m !! n = Some p ->
    n <> "" /\ piece_len p = Z.of_nat (length (piece_bytes p)) /\ (piece_len p <= u64_max)%Z;
  po_id : forall n p, m !! n = Some p -> (0 <= piece_id p < Z.of_nat (size m))%Z;
  po_unique : forall n1 n2 p1 p2, m !! n1 = Some p1 -> m !! n2 = Some p2 ->
                piece_id p1 = piece_id p2 -> n1 = n2
}.

(** The accounting of an entry is that of its phase: what is staged is counted as
    staged, what is published as retained, and nothing is kept otherwise. *)
Record entry_ok (e : OwnerState) : Prop := {
  eo_pieces : pieces_ok (pieces e);
  eo_ready : m_ready (metadata e) = bool_decide (m_phase (metadata e) = Ready);
  eo_accounting :
    match m_phase (metadata e) with
    | Staging =>
        m_staged_payload_bytes (metadata e) = total_payload (pieces e) /\
        m_staged_name_bytes (metadata e) = total_names (pieces e) /\
        m_retained_payload_bytes (metadata e) = 0%Z /\
        m_retained_name_bytes (metadata e) = 0%Z /\
        m_pieces (metadata e) = [] /\ retained_bytes (diagnostics e) = 0%Z
    | Ready =>
        m_staged_payload_bytes (metadata e) = 0%Z /\
        m_staged_name_bytes (metadata e) = 0%Z /\
        m_retained_payload_bytes (metadata e) = total_payload (pieces e) /\
        m_retained_name_bytes (metadata e) = total_names (pieces e) /\
        m_pieces (metadata e) = describe_pieces e /\ staged_bytes (diagnostics e) = 0%Z
    | Unready | DisposedPhase =>
        m_staged_payload_bytes (metadata e) = 0%Z /\
        m_staged_name_bytes (metadata e) = 0%Z /\
        m_retained_payload_bytes (metadata e) = 0%Z /\
        m_retained_name_bytes (metadata e) = 0%Z /\
        m_pieces (metadata e) = [] /\ pieces e = ∅ /\
        staged_bytes (diagnostics e) = 0%Z /\ retained_bytes (diagnostics e) = 0%Z
    end
}.

Definition of_entry (s : nat) (id : Z) (o : PreparationOwner) : bool :=
  Nat.eqb (o_store o) s && Z.eqb (o_id o) id.

(** Transactions, finishing ones included, and read guards of an owner. *)
Definition writers (sys : Sys) (s : nat) (id : Z) : nat :=
  length (List.filter (of_entry s id) (txs sys ++ (finishing sys).*1)).
Definition readers (sys : Sys) (s : nat) (id : Z) : nat :=
  length (List.filter (of_entry s id) (g_owner <$> guards sys)).

Definition is_token (w : World) (o : PreparationOwner) : Prop :=
  exists st e, stores w !! o_store o = Some st /\ owners st !! o_id o = Some e /\
    artifact_identity e = o_artifact_identity o.

(** ** Entries *)

Lemma pieces_ok_empty : pieces_ok ∅.
Proof. split; intros *; rewrite lookup_empty; done. Qed.

Lemma total_payload_insert m n p :
  m !! n = None -> total_payload (<[n := p]> m) = (piece_len p + total_payload m)%Z.
Proof. intros Hn. unfold total_payload. rewrite map_fold_insert_L; [done|intros; lia|done]. Qed.

Lemma total_names_insert m n p :
  m !! n = None -> total_names (<[n := p]> m) = (Z.of_nat (String.length n) + total_names m)%Z.
Proof. intros Hn. unfold total_names. rewrite map_fold_insert_L; [done|intros; lia|done]. Qed.

Lemma pieces_ok_insert m n bytes :
  pieces_ok m -> m !! n = None -> n <> "" -> (Z.of_nat (length bytes) <= u64_max)%Z ->
  pieces_ok (<[n := {| piece_id := Z.of_nat (size m); piece_bytes := bytes;
                       piece_len := Z.of_nat (length bytes) |}]> m).
Proof.
  intros [Hlen Hid Huniq] Hn Hne Hmax.
  assert (Hlt : forall n' p, m !! n' = Some p -> piece_id p <> Z.of_nat (size m)).
  { intros n' p Hp. specialize (Hid _ _ Hp). lia. }
  split.
  - intros n' p [[<- <-]|[Hd Hp]]%lookup_insert_Some; [done|by apply Hlen].
  - intros n' p. rewrite map_size_insert_None by done.
    intros [[<- <-]|[Hd Hp]]%lookup_insert_Some; simpl; [lia|]. specialize (Hid _ _ Hp). lia.
  - intros n1 n2 p1 p2 [[<- <-]|[Hd1 Hp1]]%lookup_insert_Some [[<- <-]|[Hd2 Hp2]]%lookup_insert_Some;
      simpl; intros Heq; [done|by destruct (Hlt _ _ Hp2)|by destruct (Hlt _ _ Hp1)|].
    by apply (Huniq n1 n2 p1 p2).
Qed.

(** Fields [entry_ok] depends on. *)
Definition core (e : OwnerState) :=
  (pieces e, m_phase (metadata e), m_ready (metadata e), m_pieces (metadata e),
   (m_retained_payload_bytes (metadata e), m_retained_name_bytes (metadata e),
    m_staged_payload_bytes (metadata e), m_staged_name_bytes (metadata e)),
   retained_bytes (diagnostics e),
   if bool_decide (m_phase (metadata e) = Staging) then 0%Z else staged_bytes (diagnostics e)).

Lemma entry_ok_core e e' : core e' = core e -> entry_ok e -> entry_ok e'.
Proof.
  unfold core. intros Heq [Hp Hr Ha].
  injection Heq as Hpieces Hph Hre Hmp H1 H2 H3 H4 Hd Hs. split.
  - by rewrite Hpieces.
  - by rewrite Hre, Hph.
  - unfold describe_pieces in *. rewrite Hph in *. rewrite Hpieces, Hmp, H1, H2, H3, H4, Hd.
    by destruct (m_phase (metadata e)); simpl in *; rewrite ?Hs.
Qed.

Lemma entry_ok_clear e phase :
  phase = Unready \/ phase = DisposedPhase -> entry_ok (clear e phase).
Proof.
  intros Hph. split; simpl; [apply pieces_ok_empty|by destruct Hph; subst|].
  by destruct Hph; subst; simpl.
Qed.

Lemma entry_ok_new binding : entry_ok (new_entry binding).
Proof. split; simpl; [apply pieces_ok_empty|done|done]. Qed.

Lemma begin_section_ok identity e e' r :
  begin_section identity e = (e', r) -> entry_ok e ->
  entry_ok e' /\ artifact_identity e' = artifact_identity e /\ active_reads e' = active_reads e /\
  match r with
  | Ok _ => m_phase (metadata e) = Unready /\ m_phase (metadata e') = Staging /\ pieces e' = ∅ /\
            writer_fault e' = None
  | Err _ => e' = e
  end.
Proof.
  unfold begin_section. case_bool_decide as Hph; [|by intros [= <- <-]].
  intros [= <- <-] [Hp Hr Ha]. rewrite Hph in Ha, Hr. simpl.
  destruct Ha as (H1&H2&H3&H4&H5&H6&H7&H8). split; [|done].
  split; simpl; [done|done|]. rewrite H6. unfold total_payload, total_names.
  rewrite !map_fold_empty. done.
Qed.

Lemma stage_piece_ok name bytes e e' :
  stage_piece name bytes e = Ok e' -> entry_ok e -> m_phase (metadata e) = Staging ->
  entry_ok e' /\ m_phase (metadata e') = Staging /\
  artifact_identity e' = artifact_identity e /\ active_reads e' = active_reads e /\
  writer_fault e' = writer_fault e /\ projection_failure e' = projection_failure e /\
  name <> "" /\ pieces e !! name = None /\
  pieces e' = <[name := {| piece_id := Z.of_nat (size (pieces e)); piece_bytes := bytes;
                           piece_len := Z.of_nat (length bytes) |}]> (pieces e).
Proof.
  unfold stage_piece. destruct (String.eqb_spec name "") as [|Hne]; [done|].
  destruct (pieces e !! name) eqn:Hn; [done|]. unfold count, add, checked_add_u64.
  destruct (Z.leb_spec (Z.of_nat (length bytes)) u64_max); [simpl|done].
  repeat (destruct (Z.leb _ _); [simpl|done]).
  intros [= <-] [Hp Hr Ha] Hph. rewrite Hph in Ha, Hr. simpl. rewrite Hph.
  destruct Ha as (H1&H2&H3&H4&H5&H6). split; [|done].
  split; simpl; [by apply pieces_ok_insert|by rewrite Hph|].
  rewrite Hph, total_payload_insert, total_names_insert by done. simpl.
  repeat split; try done; lia.
Qed.

Lemma put_section_ok name bytes e e' r :
  put_section name bytes e = (e', r) -> entry_ok e -> m_phase (metadata e) = Staging ->
  entry_ok e' /\ m_phase (metadata e') = Staging /\
  artifact_identity e' = artifact_identity e /\ active_reads e' = active_reads e.
Proof.
  unfold put_section. intros Hput Hok Hph.
  destruct (writer_fault e) eqn:Hw; [by injection Hput as <- <-|].
  destruct (projection_failure e) eqn:Hf; [by injection Hput as <- <-|].
  destruct (stage_piece name bytes e) eqn:Hs; injection Hput as <- <-.
  - by apply stage_piece_ok in Hs as (?&?&?&?&_).
  - split; [by eapply entry_ok_core; [|exact Hok]|done].
Qed.

Lemma publication_section_ok staged e e' r :
  publication_section staged e = (e', r) -> entry_ok e -> m_phase (metadata e) = Staging ->
  staged = describe_pieces e ->
  entry_ok e' /\ artifact_identity e' = artifact_identity e /\ active_reads e' = active_reads e /\
  match r with
  | Ok _ => m_phase (metadata e') = Ready /\ pieces e' = pieces e /\
            m_pieces (metadata e') = staged /\ writer_fault e = None
  | Err _ => m_phase (metadata e') = Staging
  end.
Proof.
  unfold publication_section. intros Hpub Hok Hph ->.
  destruct (writer_fault e) eqn:Hw; [by injection Hpub as <- <-|].
  destruct (projection_failure e) eqn:Hf; [by injection Hpub as <- <-|].
  destruct (checked_add _ _) eqn:Hc; injection Hpub as <- <-.
  - destruct Hok as [Hp Hr Ha]. rewrite Hph in Ha. destruct Ha as (H1&H2&H3&H4&H5&H6).
    split; [|done]. split; simpl; [done|done|]. by rewrite H1, H2.
  - split; [by eapply entry_ok_core; [|exact Hok]|]. done.
Qed.

(** Sections that leave the pieces and their accounting alone. *)
Definition harmless (e e' : OwnerState) : Prop :=
  core e' = core e /\ artifact_identity e' = artifact_identity e /\
  active_reads e' = active_reads e.

Lemma finish_section_harmless e e' r : finish_section e = (e', r) -> harmless e e'.
Proof.
  unfold finish_section. destruct (writer_fault e); [by intros [= <- <-]|].
  destruct (projection_failure e) eqn:Hf; [rewrite Hf; by intros [= <- <-]|].
  simpl. destruct (finish_fault e); by intros [= <- <-].
Qed.

Lemma request_section_harmless o views layers e e' r :
  request_section o views layers e = (e', r) -> harmless e e'.
Proof. unfold request_section. repeat case_match; by intros [= <- <-]. Qed.

Lemma core_staged_diagnostics e d p :
  m_phase (metadata e) = Staging -> retained_bytes d = retained_bytes (diagnostics e) ->
  core (set_diagnostics (set_projection e p) d) = core e.
Proof. intros Hph Hr. unfold core. simpl. rewrite Hph, Hr. done. Qed.

Lemma publish_operation_harmless o scene e e' r :
  m_phase (metadata e) = Staging ->
  publish_operation o scene e = (e', r) -> harmless e e'.
Proof.
  intros Hph. unfold publish_operation. repeat case_match; intros [= <- <-]; try done.
  split; [|done]. by apply core_staged_diagnostics.
Qed.

Lemma with_entry_harmless {A} pw (op : OwnerState -> OwnerState * result A ProjectionFault) e e' r :
  (forall e' r, m_phase (metadata e) = Staging -> op e = (e', r) -> harmless e e') ->
  with_entry pw op e = (e', r) -> harmless e e'.
Proof.
  intros Hop. unfold with_entry. repeat case_bool_decide; simpl; try by intros [= <- <-].
  destruct (projection_failure e), (writer_fault e); try by intros [= <- <-].
  destruct (op e) as [e1 [v|f]] eqn:He; intros [= <- <-]; [by eapply Hop|].
  by destruct (Hop e1 _ H0 eq_refl).
Qed.

Lemma read_section_harmless h offset max_bytes e e' r :
  read_section h offset max_bytes e = (e', r) -> harmless e e'.
Proof.
  unfold read_section, add. repeat case_match; intros [= <- <-]; try done; simplify_eq;
    repeat match goal with
    | H : result_bind ?m _ = Ok _ |- _ => destruct m eqn:?; simpl in H; [|done]
    end; by simplify_eq.
Qed.

(** ** Systems *)

Lemma with_owner_cases {A E} w o (dead : E) denied (k : OwnerState -> OwnerState * result A E) w' r :
  with_owner w o dead denied k = (w', r) ->
  (w' = w /\ is_ok r = false /\
   (forall st e, stores w !! o_store o = Some st -> alive st = true ->
     owners st !! o_id o = Some e -> artifact_identity e = o_artifact_identity o ->
     disposed st = true \/ m_phase (metadata e) = DisposedPhase) /\
   (r = Err dead \/ exists failure, r = Err (denied failure))) \/
  exists st e e',
    stores w !! o_store o = Some st /\ alive st = true /\ owners st !! o_id o = Some e /\
    artifact_identity e = o_artifact_identity o /\ disposed st = false /\
    m_phase (metadata e) <> DisposedPhase /\ k e = (e', r) /\ w' = write_entry w st o e'.
Proof.
  unfold with_owner, upgrade, check_owner. intros Hw.
  destruct (stores w !! o_store o) as [st|] eqn:Hst;
    [|left; injection Hw as <- <-; split_and!; [done|done|congruence|eauto]].
  destruct (alive st) eqn:Hal;
    [|left; injection Hw as <- <-; split_and!; [done|done|congruence|eauto]].
  destruct (owners st !! o_id o) as [e|] eqn:He;
    [|left; injection Hw as <- <-; split_and!; [done|done|congruence|eauto]].
  destruct (Nat.eqb_spec (artifact_identity e) (o_artifact_identity o)) as [Ha|Ha]; simpl in Hw;
    [|left; injection Hw as <- <-; split_and!; [done|done|congruence|eauto]].
  destruct (disposed st) eqn:Hd; simpl in Hw;
    [left; injection Hw as <- <-; split_and!; [done|done|intros; left; congruence|eauto]|].
  case_bool_decide as Hph;
    [left; injection Hw as <- <-; split_and!; [done|done|intros; right; congruence|eauto]|].
  destruct (k e) as [e' r'] eqn:Hk. injection Hw as <- <-. right. by exists st, e, e'.
Qed.

Definition count_key (s : nat) (id : Z) (l : list PreparationOwner) : nat :=
  length (List.filter (of_entry s id) l).

Lemma count_key_app s id l1 l2 : count_key s id (l1 ++ l2) = count_key s id l1 + count_key s id l2.
Proof. unfold count_key. by rewrite List.filter_app, length_app. Qed.

Lemma count_key_cons s id o l :
  count_key s id (o :: l) = (if of_entry s id o then 1 else 0) + count_key s id l.
Proof. unfold count_key. simpl. by destruct (of_entry s id o). Qed.

Lemma of_entry_self o : of_entry (o_store o) (o_id o) o = true.
Proof. unfold of_entry. by rewrite Nat.eqb_refl, Z.eqb_refl. Qed.

Lemma of_entry_true s id o : of_entry s id o = true <-> o_store o = s /\ o_id o = id.
Proof. unfold of_entry. by rewrite andb_true_iff, Nat.eqb_eq, Z.eqb_eq. Qed.

Lemma of_entry_other s id o : (s, id) <> (o_store o, o_id o) -> of_entry s id o = false.
Proof.
  intros Hne. destruct (of_entry s id o) eqn:He; [|done].
  apply of_entry_true in He as [<- <-]. done.
Qed.

Lemma count_key_elem s id o l : o ∈ l -> of_entry s id o = true -> 1 <= count_key s id l.
Proof.
  intros (l1 & l2 & ->)%list_elem_of_split Ho. rewrite count_key_app, count_key_cons, Ho. lia.
Qed.

Lemma count_key_zero s id l : (forall o, o ∈ l -> of_entry s id o = false) -> count_key s id l = 0.
Proof.
  induction l as [|o l IH]; intros Hl; [done|]. rewrite count_key_cons, (Hl o) by left.
  apply IH. intros o' Ho'. apply Hl. by right.
Qed.

Lemma writers_eq sys s id :
  writers sys s id = count_key s id (txs sys) + count_key s id (finishing sys).*1.
Proof. apply count_key_app. Qed.

Lemma readers_eq sys s id : readers sys s id = count_key s id (g_owner <$> guards sys).
Proof. done. Qed.

(** Tokens in circulation. *)
Definition circulating (sys : Sys) : list PreparationOwner :=
  known sys ++ txs sys ++ (finishing sys).*1 ++ (g_owner <$> guards sys).

Record entry_inv (sys : Sys) (s : nat) (id : Z) (st : StoreState) (e : OwnerState) : Prop := {
  ei_id : (id < next_owner st)%Z;
  ei_ok : entry_ok e;
  ei_disposed : disposed st = true -> m_phase (metadata e) = DisposedPhase;
  ei_live : alive st = true ->
    writers sys s id = (if bool_decide (m_phase (metadata e) = Staging) then 1 else 0) /\
    active_reads e = Z.of_nat (readers sys s id);
  ei_staged : alive st = true -> forall o staged,
    (o, staged) ∈ finishing sys -> of_entry s id o = true -> staged = describe_pieces e
}.

Record sys_inv (sys : Sys) : Prop := {
  si_ref : forall s st, stores (world sys) !! s = Some st -> s < next_ref (world sys);
  si_entry : forall s st id e, stores (world sys) !! s = Some st -> owners st !! id = Some e ->
    entry_inv sys s id st e;
  si_token : forall o, o ∈ circulating sys -> is_token (world sys) o
}.

(** A step that writes one entry and moves tokens of that owner only. *)
Lemma inv_local sys sys' st o e e' :
  sys_inv sys ->
  stores (world sys) !! o_store o = Some st -> owners st !! o_id o = Some e ->
  stores (world sys') = <[o_store o := set_owners st (<[o_id o := e']> (owners st))]>
                          (stores (world sys)) ->
  next_ref (world sys) <= next_ref (world sys') ->
  artifact_identity e' = artifact_identity e ->
  (forall o', o' ∈ circulating sys' -> o' ∈ circulating sys) ->
  (forall s id, (s, id) <> (o_store o, o_id o) ->
     writers sys' s id = writers sys s id /\ readers sys' s id = readers sys s id) ->
  (forall o' staged, (o', staged) ∈ finishing sys' ->
     of_entry (o_store o) (o_id o) o' = false -> (o', staged) ∈ finishing sys) ->
  (entry_inv sys (o_store o) (o_id o) st e -> entry_inv sys' (o_store o) (o_id o) st e') ->
  sys_inv sys'.
Proof.
  intros [Href Hentry Htok] Hst He Hw Hnr Ha Hcirc Hcnt Hfin Hkey.
  set (st' := set_owners st (<[o_id o := e']> (owners st))) in *.
  assert (Hst' : next_owner st' = next_owner st /\ disposed st' = disposed st /\ alive st' = alive st)
    by done.
  split.
  - intros s st1. rewrite Hw. intros [[<- <-]|[_ Hs]]%lookup_insert_Some.
    + specialize (Href _ _ Hst). lia.
    + specialize (Href _ _ Hs). lia.
  - intros s st1 id e1. rewrite Hw. intros [[<- <-]|[Hne Hs]]%lookup_insert_Some Hid.
    + simpl in Hid. apply lookup_insert_Some in Hid as [[<- <-]|[Hne Hid]].
      * destruct (Hkey (Hentry _ _ _ _ Hst He)) as [K1 K2 K3 K4 K5]. by split.
      * destruct (Hentry _ _ _ _ Hst Hid) as [K1 K2 K3 K4 K5].
        assert (Hk : (o_store o, id) <> (o_store o, o_id o)) by congruence.
        destruct (Hcnt _ _ Hk) as [Hcw Hcr]. split; simpl; rewrite ?Hcw, ?Hcr; try done.
        intros Hal o' staged Hin Ho'. eapply K5; [done| |exact Ho']. apply Hfin; [done|].
        apply of_entry_true in Ho' as [_ <-]. apply of_entry_other. congruence.
    + destruct (Hentry _ _ _ _ Hs Hid) as [K1 K2 K3 K4 K5].
      assert (Hk : (s, id) <> (o_store o, o_id o)) by congruence.
      destruct (Hcnt _ _ Hk) as [Hcw Hcr]. split; rewrite ?Hcw, ?Hcr; try done.
      intros Hal o' staged Hin Ho'. eapply K5; [done| |exact Ho']. apply Hfin; [done|].
      apply of_entry_true in Ho' as [<- _]. apply of_entry_other. congruence.
  - intros o' Ho'. destruct (Htok o' (Hcirc o' Ho')) as (st1 & e1 & Hs1 & He1 & Ha1).
    unfold is_token. rewrite Hw. destruct (decide (o_store o' = o_store o)) as [Hss|Hss].
    + rewrite Hss in *. simplify_eq. exists st'. rewrite lookup_insert_eq.
      destruct (decide (o_id o' = o_id o)) as [Hii|Hii].
      * exists e'. simpl. rewrite Hii in *. simplify_eq. rewrite lookup_insert_eq.
        split_and!; [done|done|congruence].
      * exists e1. simpl. by rewrite lookup_insert_ne.
    + exists st1, e1. by rewrite lookup_insert_ne.
Qed.

(** A step that leaves the stores alone and moves tokens of one owner only, whose
    store is dead if it moves a transaction or a guard. *)
Lemma inv_same_stores sys sys' o :
  sys_inv sys ->
  stores (world sys') = stores (world sys) -> next_ref (world sys) <= next_ref (world sys') ->
  (forall o', o' ∈ circulating sys' -> o' ∈ circulating sys) ->
  (forall s id, (s, id) <> (o_store o, o_id o) ->
     writers sys' s id = writers sys s id /\ readers sys' s id = readers sys s id) ->
  (forall o' staged, (o', staged) ∈ finishing sys' ->
     (o', staged) ∈ finishing sys \/ of_entry (o_store o) (o_id o) o' = true) ->
  (forall st, stores (world sys) !! o_store o = Some st -> alive st = false) ->
  sys_inv sys'.
Proof.
  intros [Href Hentry Htok] Hw Hnr Hcirc Hcnt Hfin Hdead. split.
  - intros s st. rewrite Hw. intros Hs. specialize (Href _ _ Hs). lia.
  - intros s st id e. rewrite Hw. intros Hs Hid.
    destruct (Hentry _ _ _ _ Hs Hid) as [K1 K2 K3 K4 K5].
    destruct (decide (s = o_store o)) as [->|Hne].
    { pose proof (Hdead _ Hs) as Hd. split; try done; congruence. }
    destruct (Hcnt s id) as [Hcw Hcr]; [congruence|]. split; rewrite ?Hcw, ?Hcr; try done.
    intros Hal o' staged Hin Ho'. destruct (Hfin _ _ Hin) as [Hin'|Ho]; [by eapply K5|].
    apply of_entry_true in Ho' as [<- _], Ho as [Ho _]. congruence.
  - intros o' Ho'. destruct (Htok o' (Hcirc o' Ho')) as (st1 & e1 & Hs1 & He1 & Ha1).
    exists st1, e1. by rewrite Hw.
Qed.

(** A section on an entry that moves no token. *)
Lemma inv_section {A E} sys o (dead : E) denied (k : OwnerState -> OwnerState * result A E) w' r :
  sys_inv sys ->
  with_owner (world sys) o dead denied k = (w', r) ->
  (forall st e e', stores (world sys) !! o_store o = Some st -> alive st = true ->
     owners st !! o_id o = Some e -> k e = (e', r) ->
     entry_inv sys (o_store o) (o_id o) st e ->
     entry_ok e' /\ artifact_identity e' = artifact_identity e /\
     active_reads e' = active_reads e /\
     m_phase (metadata e') = m_phase (metadata e) /\
     ((exists staged o', (o', staged) ∈ finishing sys /\ of_entry (o_store o) (o_id o) o' = true) ->
      describe_pieces e' = describe_pieces e)) ->
  sys_inv (with_world sys w').
Proof.
  intros Hinv Hw Hk. apply with_owner_cases in Hw as [(-> & _)|(st&e&e'&Hst&Hal&He&Ha&Hd&Hph&Hke&->)].
  { by destruct sys. }
  pose proof (si_entry _ Hinv _ _ _ _ Hst He) as Hei.
  destruct (Hk st e e' Hst Hal He Hke Hei) as (K1 & K2 & K3 & K4 & K5).
  eapply (inv_local sys _ st o e e'); try done.
  intros [L1 L2 L3 L4 L5]. split; [done|done|by rewrite K4| |].
  - intros _. rewrite K3, K4. by apply L4.
  - intros _ o' staged Hin Ho'. rewrite (L5 Hal o' staged Hin Ho'). symmetry. apply K5. eauto.
Qed.

Lemma describe_pieces_core e e' : core e' = core e -> describe_pieces e' = describe_pieces e.
Proof. unfold core, describe_pieces. intros Heq. injection Heq as -> _. done. Qed.

Lemma phase_core e e' : core e' = core e -> m_phase (metadata e') = m_phase (metadata e).
Proof. unfold core. intros Heq. by injection Heq. Qed.

Lemma inv_harmless {A E} sys o (dead : E) denied (k : OwnerState -> OwnerState * result A E) w' r :
  sys_inv sys ->
  with_owner (world sys) o dead denied k = (w', r) ->
  (forall e e', k e = (e', r) -> harmless e e') ->
  sys_inv (with_world sys w').
Proof.
  intros Hinv Hw Hk. eapply inv_section; [done|exact Hw|].
  intros st e e' Hst Hal He Hke Hei. destruct (Hk e e' Hke) as (Hc & Ha & Hr).
  split_and!; [by eapply entry_ok_core, Hei|done|done|by apply phase_core|].
  intros _. by apply describe_pieces_core.
Qed.

(** A transaction in circulation makes its entry a staging one. *)
Lemma tx_staging sys o st e :
  sys_inv sys -> o ∈ txs sys ++ (finishing sys).*1 ->
  stores (world sys) !! o_store o = Some st -> alive st = true -> owners st !! o_id o = Some e ->
  m_phase (metadata e) = Staging /\ disposed st = false /\
  artifact_identity e = o_artifact_identity o /\
  count_key (o_store o) (o_id o) (txs sys ++ (finishing sys).*1) = 1.
Proof.
  intros Hinv Ho Hst Hal He. destruct (si_entry _ Hinv _ _ _ _ Hst He) as [K1 K2 K3 K4 K5].
  destruct (K4 Hal) as [Hw _]. pose proof (count_key_elem _ _ _ _ Ho (of_entry_self o)) as Hc.
  rewrite writers_eq, <-count_key_app in Hw. rewrite Hw in *.
  case_bool_decide as Hph; [|lia]. split; [done|]. split.
  { destruct (disposed st); [|done]. by rewrite (K3 eq_refl) in Hph. }
  split; [|done]. assert (Hcirc : o ∈ circulating sys) by (unfold circulating; set_solver).
  destruct (si_token _ Hinv o Hcirc) as (st' & e' & Hs' & He' & Ha'). by simplify_eq.
Qed.

Lemma inv_put sys o name bytes w' r :
  sys_inv sys -> o ∈ txs sys -> put (world sys) o name bytes = (w', r) ->
  sys_inv (with_world sys w').
Proof.
  intros Hinv Ho Hput. eapply inv_section; [done|exact Hput|].
  intros st e e' Hst Hal He Hke Hei.
  destruct (tx_staging sys o st e Hinv) as (Hph & _ & _ & Hone); [set_solver|done..|].
  destruct (put_section_ok _ _ _ _ _ Hke (ei_ok _ _ _ _ _ Hei) Hph) as (K1 & K2 & K3 & K4).
  split_and!; [done|done|done|congruence|].
  intros (staged & o' & Hin & Ho'). rewrite count_key_app in Hone.
  pose proof (count_key_elem _ _ _ _ Ho (of_entry_self o)).
  assert (o' ∈ (finishing sys).*1) as Hin' by (apply list_elem_of_fmap; by exists (o', staged)).
  pose proof (count_key_elem _ _ _ _ Hin' Ho'). lia.
Qed.

(** Dropping a transaction that leaves circulation. *)
Lemma inv_drop sys sys' o :
  sys_inv sys -> o ∈ txs sys ++ (finishing sys).*1 ->
  world sys' = drop_transaction (world sys) o ->
  known sys' = known sys -> guards sys' = guards sys ->
  (forall s id, count_key s id (txs sys ++ (finishing sys).*1) =
     (if of_entry s id o then 1 else 0) + count_key s id (txs sys' ++ (finishing sys').*1)) ->
  (forall o', o' ∈ txs sys' ++ (finishing sys').*1 -> o' ∈ txs sys ++ (finishing sys).*1) ->
  (forall p, p ∈ finishing sys' -> p ∈ finishing sys) ->
  sys_inv sys'.
Proof.
  intros Hinv Ho Hw Hkn Hg Hcnt Hsub Hfin.
  assert (Hcirc : forall o', o' ∈ circulating sys' -> o' ∈ circulating sys).
  { intros o'. unfold circulating. rewrite Hkn, Hg, !elem_of_app. specialize (Hsub o').
    rewrite !elem_of_app in Hsub. tauto. }
  assert (Hother : forall s id, (s, id) <> (o_store o, o_id o) ->
     writers sys' s id = writers sys s id /\ readers sys' s id = readers sys s id).
  { intros s id Hne. specialize (Hcnt s id). rewrite (of_entry_other _ _ _ Hne) in Hcnt.
    unfold writers, readers. rewrite Hg. split; [symmetry; apply Hcnt|done]. }
  unfold drop_transaction in Hw. destruct (with_owner _ _ _ _ _) as [w' r] eqn:E. simpl in Hw.
  apply with_owner_cases in E as [(-> & _ & Hno & _)|(st&e&e'&Hst&Hal&He&Ha&Hd&Hph&Hke&->)].
  - eapply (inv_same_stores sys sys' o); try done; [by rewrite Hw..|by left; apply Hfin|].
    intros st Hst. destruct (alive st) eqn:Hal; [|done]. exfalso.
    assert (Hc : o ∈ circulating sys) by (unfold circulating; set_solver).
    destruct (si_token _ Hinv o Hc) as (st' & e & Hs & He & Ha). simplify_eq.
    destruct (tx_staging sys o st e Hinv Ho Hst Hal He) as (Hph & Hd & Hart & _).
    destruct (Hno st e Hst Hal He Hart); congruence.
  - injection Hke as <- <-.
    eapply (inv_local sys sys' st o e (clear e Unready)); try done.
    + by rewrite Hw.
    + by rewrite Hw.
    + intros o' staged Hin _. by apply Hfin.
    + intros [K1 K2 K3 K4 K5]. split; [done|by apply entry_ok_clear; left| | |].
      * rewrite Hd. done.
      * intros _. destruct (tx_staging sys o st e Hinv Ho Hst Hal He) as (_ & _ & _ & Hone).
        rewrite Hcnt, of_entry_self in Hone. simpl. split.
        -- unfold writers. change (length _) with (count_key (o_store o) (o_id o) (txs sys' ++ (finishing sys').*1)). lia.
        -- unfold readers. rewrite Hg. by apply K4.
      * intros _ o' staged Hin Ho'. exfalso.
        destruct (tx_staging sys o st e Hinv Ho Hst Hal He) as (_ & _ & _ & Hone).
        rewrite Hcnt, of_entry_self, count_key_app in Hone.
        assert (o' ∈ (finishing sys').*1) as Hin' by (apply list_elem_of_fmap; by exists (o', staged)).
        pose proof (count_key_elem _ _ _ _ Hin' Ho'). lia.
Qed.

(** Only the active invocations or the identity supply change. *)
Lemma inv_supply sys w' :
  sys_inv sys -> stores w' = stores (world sys) -> next_ref (world sys) <= next_ref w' ->
  sys_inv (with_world sys w').
Proof.
  intros [Href Hentry Htok] Hs Hn. split.
  - intros s st. simpl. rewrite Hs. intros H. specialize (Href _ _ H). lia.
  - intros s st id e. simpl. rewrite Hs. intros Hst He. by destruct (Hentry _ _ _ _ Hst He).
  - intros o Ho. destruct (Htok o Ho) as (st & e & ? & ? & ?). exists st, e. simpl. by rewrite Hs.
Qed.

Lemma inv_new_store sys w' s :
  sys_inv sys -> new_store (world sys) = (w', s) -> sys_inv (with_world sys w').
Proof.
  intros [Href Hentry Htok] [= <- <-]. split.
  - intros s st. simpl. intros [[<- <-]|[_ Hs]]%lookup_insert_Some; [lia|].
    specialize (Href _ _ Hs). lia.
  - intros s st id e. simpl. intros [[<- <-]|[_ Hs]]%lookup_insert_Some He; [by simpl in He; rewrite lookup_empty in He|].
    by destruct (Hentry _ _ _ _ Hs He).
  - intros o Ho. destruct (Htok o Ho) as (st & e & Hs & ? & ?). exists st, e. simpl.
    rewrite lookup_insert_ne; [done|]. specialize (Href _ _ Hs). lia.
Qed.

Lemma inv_drop_store sys s : sys_inv sys -> sys_inv (with_world sys (drop_store (world sys) s)).
Proof.
  intros Hinv. unfold drop_store. destruct (stores (world sys) !! s) as [st|] eqn:Hst; [|by destruct sys].
  destruct Hinv as [Href Hentry Htok]. split.
  - intros s' st'. simpl. intros [[<- <-]|[_ Hs]]%lookup_insert_Some; [by eapply Href|by eapply Href].
  - intros s' st' id e. simpl. intros [[<- <-]|[_ Hs]]%lookup_insert_Some He.
    + destruct (Hentry _ _ _ _ Hst He) as [K1 K2 K3 K4 K5]. by split.
    + by destruct (Hentry _ _ _ _ Hs He).
  - intros o Ho. destruct (Htok o Ho) as (st1 & e & Hs & He & Ha). unfold is_token. simpl.
    destruct (decide (s = o_store o)) as [->|Hne].
    + simplify_eq. exists (set_alive st false), e. by rewrite lookup_insert_eq.
    + exists st1, e. by rewrite lookup_insert_ne.
Qed.

Lemma inv_create sys s binding w' o :
  sys_inv sys -> create_owner (world sys) s binding = (w', Ok o) ->
  sys_inv {| world := w'; known := o :: known sys; txs := txs sys;
             finishing := finishing sys; guards := guards sys |}.
Proof.
  intros [Href Hentry Htok]. unfold create_owner.
  destruct (stores (world sys) !! s) as [st|] eqn:Hst; [|done].
  destruct (disposed st) eqn:Hd; [done|]. destruct (add (next_owner st) 1) as [next|] eqn:Hn; [|done].
  intros [= <- <-].
  assert (Hnext : next = (next_owner st + 1)%Z).
  { unfold add, checked_add_u64 in Hn. destruct (Z.leb _ _); [|done]. by injection Hn. }
  assert (Hnew : owners st !! next_owner st = None).
  { destruct (owners st !! next_owner st) as [e|] eqn:He; [|done].
    pose proof (ei_id _ _ _ _ _ (Hentry _ _ _ _ Hst He)). lia. }
  assert (Hfresh : forall o, o ∈ circulating sys -> of_entry s (next_owner st) o = false).
  { intros o Ho. destruct (of_entry s (next_owner st) o) eqn:Hk; [|done].
    apply of_entry_true in Hk as [<- Hk]. destruct (Htok o Ho) as (st' & e & Hs & He & _).
    simplify_eq. rewrite Hk in He. congruence. }
  split.
  - intros s' st'. simpl. intros [[<- <-]|[_ Hs]]%lookup_insert_Some; by eapply Href.
  - intros s' st' id e. simpl. intros [[<- <-]|[_ Hs]]%lookup_insert_Some He.
    + simpl in He. apply lookup_insert_Some in He as [[<- <-]|[Hne He]].
      * split; simpl; [lia|apply entry_ok_new|congruence| |].
        -- intros _. rewrite writers_eq, readers_eq. simpl.
           rewrite !(count_key_zero s (next_owner st)); [done|..];
             intros o Ho; apply Hfresh; unfold circulating; rewrite !elem_of_app; tauto.
        -- intros _ o staged Hin Ho. rewrite Hfresh in Ho; [done|].
           unfold circulating. rewrite !elem_of_app. right. right. left.
           apply list_elem_of_fmap. by exists (o, staged).
      * destruct (Hentry _ _ _ _ Hst He) as [K1 K2 K3 K4 K5]. split; simpl; try done. lia.
    + by destruct (Hentry _ _ _ _ Hs He).
  - intros o Ho. unfold is_token. simpl. unfold circulating in Ho. simpl in Ho.
    apply elem_of_cons in Ho as [->|Ho].
    + simpl. rewrite lookup_insert_eq. eexists _, _. split; [done|]. simpl.
      by rewrite lookup_insert_eq.
    + destruct (Htok o Ho) as (st1 & e & Hs & He & Ha).
      destruct (decide (s = o_store o)) as [->|Hne].
      * simplify_eq. rewrite lookup_insert_eq. eexists _, e. split; [done|]. simpl.
        rewrite lookup_insert_ne; [done|]. intros Hx. rewrite <-Hx in He. congruence.
      * exists st1, e. by rewrite lookup_insert_ne.
Qed.

Lemma inv_begin sys s thread o w' r :
  sys_inv sys -> o ∈ known sys -> begin (world sys) s thread o = (w', r) ->
  sys_inv {| world := w'; known := known sys;
             txs := match r with Ok _ => o :: txs sys | Err _ => txs sys end;
             finishing := finishing sys; guards := guards sys |}.
Proof.
  intros Hinv Ho. unfold begin.
  destruct (match current_call_identity _ _ _ with Some _ => _ | None => _ end) as [w1 identity] eqn:Hw1.
  assert (Hinv1 : sys_inv (with_world sys w1)).
  { destruct (current_call_identity _ _ _); injection Hw1 as <- <-; [by destruct sys|].
    apply inv_supply; simpl; [done|done|lia]. }
  clear Hw1 Hinv. unfold verify. destruct (Nat.eqb _ _); [|by intros [= <- <-]].
  intros Hb. pose proof Hb as Hb'.
  apply with_owner_cases in Hb' as [(-> & Herr & _)|(st&e&e'&Hst&Hal&He&Ha&Hd&Hph&Hke&->)].
  { by destruct r. }
  pose proof (si_entry _ Hinv1 _ _ _ _ Hst He) as Hei.
  destruct (begin_section_ok _ _ _ _ Hke (ei_ok _ _ _ _ _ Hei)) as (K1 & K2 & K3 & K4).
  set (sys1 := with_world sys w1) in *.
  eapply (inv_local sys1 _ st o e e'); try done.
  - intros o'. unfold circulating. simpl. rewrite !elem_of_app. destruct r; [|tauto].
    rewrite elem_of_cons. intros [?|[[->|?]|?]]; tauto.
  - intros s' id Hne. split; [|done]. rewrite !writers_eq. simpl. destruct r; [|done].
    by rewrite count_key_cons, (of_entry_other _ _ _ Hne).
  - intros [L1 L2 L3 L4 L5]. split; [done|done|by rewrite Hd| |].
    + intros _. destruct (L4 Hal) as [Lw Lr]. rewrite K3, writers_eq. simpl.
      rewrite writers_eq in Lw. destruct r as [u|].
      * destruct K4 as (Hu & Hs & _). rewrite Hu in Lw. rewrite Hs, count_key_cons, of_entry_self.
        rewrite bool_decide_eq_false_2 in Lw by done.
        rewrite bool_decide_eq_true_2 by done. simpl in Lw. split; [lia|done].
      * subst e'. done.
    + intros _ o' staged Hin Ho'. destruct r as [u|].
      * destruct K4 as (Hu & Hs & _). exfalso. destruct (L4 Hal) as [Lw _].
        rewrite Hu, writers_eq, bool_decide_eq_false_2 in Lw by done. simpl in Lw.
        assert (o' ∈ (finishing sys).*1) as Hin' by (apply list_elem_of_fmap; by exists (o', staged)).
        pose proof (count_key_elem _ _ _ _ Hin' Ho'). lia.
      * subst e'. by eapply L5.
Qed.

Lemma entry_busy_false e :
  entry_busy e = false -> m_phase (metadata e) <> Staging /\ active_reads e = 0%Z.
Proof.
  unfold entry_busy. intros [H1 H2]%orb_false_iff. apply bool_decide_eq_false in H1.
  apply negb_false_iff, Z.eqb_eq in H2. done.
Qed.

(** A disposed entry of an idle owner. *)
Lemma entry_inv_disposed sys s id st e d :
  entry_inv sys s id st e -> entry_busy e = false ->
  entry_inv sys s id (set_disposed st d) (clear e DisposedPhase).
Proof.
  intros [K1 K2 K3 K4 K5] [Hph Hr]%entry_busy_false.
  split; [done|by apply entry_ok_clear; right|done| |].
  - intros Hal. destruct (K4 Hal) as [Kw Kr]. simpl. rewrite <-Kr. split; [|done].
    rewrite Kw. by rewrite bool_decide_eq_false_2.
  - intros Hal o staged Hin Ho. exfalso. destruct (K4 Hal) as [Kw _].
    rewrite bool_decide_eq_false_2, writers_eq in Kw by done.
    assert (o ∈ (finishing sys).*1) as Hin' by (apply list_elem_of_fmap; by exists (o, staged)).
    pose proof (count_key_elem _ _ _ _ Hin' Ho). lia.
Qed.

Lemma inv_dispose_owner sys s contended o w' r :
  sys_inv sys -> dispose_owner (world sys) s contended o = (w', r) -> sys_inv (with_world sys w').
Proof.
  intros Hinv. unfold dispose_owner, verify.
  destruct (Nat.eqb _ _); [|intros [= <- <-]; by destruct sys].
  destruct contended; [intros [= <- <-]; by destruct sys|]. intros Hw.
  apply with_owner_cases in Hw as [(-> & _)|(st&e&e'&Hst&Hal&He&Ha&Hd&Hph&Hke&->)]; [by destruct sys|].
  destruct (entry_busy e) eqn:Hb; injection Hke as <- <-.
  - eapply (inv_local sys _ st o e e); try done. intros [K1 K2 K3 K4 K5]. by split.
  - eapply (inv_local sys _ st o e (clear e DisposedPhase)); try done. intros Hei.
    destruct (entry_inv_disposed _ _ _ _ _ false Hei Hb) as [K1 K2 K3 K4 K5]. by split.
Qed.

Lemma inv_dispose sys s contended w' r :
  sys_inv sys -> dispose (world sys) s contended = (w', r) -> sys_inv (with_world sys w').
Proof.
  intros Hinv. unfold dispose. destruct contended; [intros [= <- <-]; by destruct sys|].
  destruct (stores (world sys) !! s) as [st|] eqn:Hst; [|intros [= <- <-]; by destruct sys].
  destruct (existsb _ _) eqn:Hb; intros [= <- <-]; [by destruct sys|].
  assert (Hidle : forall id e, owners st !! id = Some e -> entry_busy e = false).
  { intros id e He. destruct (entry_busy e) eqn:Hbe; [|done]. exfalso.
    assert (existsb (fun e => entry_busy e.2) (map_to_list (owners st)) = true); [|congruence].
    apply existsb_elem. exists (id, e). by rewrite elem_of_map_to_list. }
  destruct Hinv as [Href Hentry Htok]. split.
  - intros s' st'. simpl. intros [[<- <-]|[_ Hs]]%lookup_insert_Some; by eapply Href.
  - intros s' st' id e. simpl. intros [[<- <-]|[_ Hs]]%lookup_insert_Some He.
    + simpl in He. rewrite lookup_fmap in He. destruct (owners st !! id) as [e0|] eqn:He0; [|done].
      injection He as <-.
      destruct (entry_inv_disposed sys s id st e0 true (Hentry _ _ _ _ Hst He0) (Hidle _ _ He0)).
      by split.
    + by destruct (Hentry _ _ _ _ Hs He).
  - intros o Ho. destruct (Htok o Ho) as (st1 & e & Hs & He & Ha). unfold is_token. simpl.
    destruct (decide (s = o_store o)) as [->|Hne].
    + simplify_eq. rewrite lookup_insert_eq. eexists _, _. split; [done|]. simpl.
      by rewrite lookup_fmap, He.
    + exists st1, e. by rewrite lookup_insert_ne.
Qed.

(** The counters of a token are written whatever the state of its owner. *)
Lemma inv_counter sys o st e e' :
  sys_inv sys -> stores (world sys) !! o_store o = Some st -> owners st !! o_id o = Some e ->
  harmless e e' -> sys_inv (with_world sys (write_entry (world sys) st o e')).
Proof.
  intros Hinv Hst He (Hc & Ha & Hr). eapply (inv_local sys _ st o e e'); try done.
  intros [K1 K2 K3 K4 K5]. rewrite <-(phase_core _ _ Hc) in K3, K4.
  split; [done|by eapply entry_ok_core|done|by rewrite Hr|].
  intros Hal o' staged Hin Ho'. rewrite (describe_pieces_core _ _ Hc). by eapply K5.
Qed.

Lemma inv_record_invocation sys o w' r :
  sys_inv sys -> record_prepare_invocation (world sys) o = (w', r) -> sys_inv (with_world sys w').
Proof.
  intros Hinv. unfold record_prepare_invocation.
  destruct (stores (world sys) !! o_store o) as [st|] eqn:Hst; [|intros [= <- <-]; by destruct sys].
  destruct (owners st !! o_id o) as [e|] eqn:He; [|intros [= <- <-]; by destruct sys].
  destruct (add _ 1); intros [= <- <-]; [|by destruct sys]. by eapply inv_counter.
Qed.

Lemma inv_record_fuel sys o fuel :
  sys_inv sys -> sys_inv (with_world sys (record_prepare_fuel (world sys) o fuel)).
Proof.
  intros Hinv. unfold record_prepare_fuel.
  destruct (stores (world sys) !! o_store o) as [st|] eqn:Hst; [|by destruct sys].
  destruct (owners st !! o_id o) as [e|] eqn:He; [|by destruct sys]. by eapply inv_counter.
Qed.

Lemma inv_writer_fault sys o error :
  sys_inv sys -> sys_inv (with_world sys (record_writer_fault (world sys) o error)).
Proof.
  intros Hinv. unfold record_writer_fault. destruct (with_owner _ _ _ _ _) as [w' r] eqn:E.
  eapply inv_harmless; [done|exact E|]. by intros e e' [= <- <-].
Qed.

Lemma count_key_middle s id l1 o l2 :
  count_key s id (l1 ++ o :: l2) = (if of_entry s id o then 1 else 0) + count_key s id (l1 ++ l2).
Proof. rewrite !count_key_app, count_key_cons. lia. Qed.

Lemma inv_abort sys l1 o l2 :
  sys_inv sys -> txs sys = l1 ++ o :: l2 ->
  sys_inv {| world := drop_transaction (world sys) o; known := known sys;
             txs := l1 ++ l2; finishing := finishing sys; guards := guards sys |}.
Proof.
  intros Hinv Htx. eapply (inv_drop sys _ o); try done.
  - rewrite Htx. set_solver.
  - intros s id. simpl. rewrite Htx, !count_key_app, count_key_cons. lia.
  - intros o'. simpl. rewrite Htx. set_solver.
Qed.

Lemma inv_invalid sys l1 o staged l2 :
  sys_inv sys -> finishing sys = l1 ++ (o, staged) :: l2 ->
  sys_inv {| world := drop_transaction (world sys) o; known := known sys;
             txs := txs sys; finishing := l1 ++ l2; guards := guards sys |}.
Proof.
  intros Hinv Hfin. eapply (inv_drop sys _ o); try done.
  - rewrite Hfin, fmap_app. set_solver.
  - intros s id. simpl. rewrite Hfin, !fmap_app, fmap_cons, !count_key_app, count_key_cons.
    simpl. lia.
  - intros o'. simpl. rewrite Hfin, !fmap_app. set_solver.
  - intros p. simpl. rewrite Hfin. set_solver.
Qed.

Lemma finish_stage_ok w o w' staged :
  finish_stage w o = (w', Ok staged) ->
  exists st e e', stores w !! o_store o = Some st /\ alive st = true /\ owners st !! o_id o = Some e /\
    disposed st = false /\ m_phase (metadata e) <> DisposedPhase /\
    finish_section e = (e', Ok staged) /\ w' = write_entry w st o e' /\
    staged = describe_pieces e /\ writer_fault e = None /\ projection_failure e = None.
Proof.
  intros Hw. apply with_owner_cases in Hw as [(_ & Herr & _)|(st&e&e'&?&?&?&?&?&?&Hke&->)]; [done|].
  exists st, e, e'. split_and!; try done.
  all: unfold finish_section in Hke; destruct (writer_fault e); [done|];
    destruct (projection_failure e) eqn:Hpf; simpl in Hke; rewrite ?Hpf in Hke; [done|];
    simpl in Hke; destruct (finish_fault e); [done|]; by injection Hke.
Qed.

Lemma inv_finish sys l1 o l2 w' staged :
  sys_inv sys -> txs sys = l1 ++ o :: l2 -> finish_stage (world sys) o = (w', Ok staged) ->
  sys_inv {| world := w'; known := known sys; txs := l1 ++ l2;
             finishing := (o, staged) :: finishing sys; guards := guards sys |}.
Proof.
  intros Hinv Htx Hf.
  apply finish_stage_ok in Hf as (st&e&e'&Hst&Hal&He&Hd&Hph&Hke&->&->&_&_).
  destruct (finish_section_harmless _ _ _ Hke) as (Hc & Ha & Hr).
  assert (Hcnt : forall s id, count_key s id (l1 ++ l2) + count_key s id (o :: (finishing sys).*1) =
    writers sys s id).
  { intros s id. rewrite writers_eq, Htx, !count_key_app, !count_key_cons. lia. }
  eapply (inv_local sys _ st o e e'); try done.
  - intros o'. unfold circulating. simpl. rewrite Htx. set_solver.
  - intros s id Hne. split; [|done]. rewrite writers_eq. apply Hcnt.
  - intros o' staged' [[= -> ->]|Hin]%elem_of_cons; [by rewrite of_entry_self|done].
  - intros [K1 K2 K3 K4 K5]. rewrite <-(phase_core _ _ Hc) in K3, K4.
    split; [done|by eapply entry_ok_core|done| |].
    + intros _. rewrite writers_eq, Hr, Hcnt. by apply K4.
    + intros _ o' staged' [[= -> ->]|Hin]%elem_of_cons Ho'; rewrite (describe_pieces_core _ _ Hc);
        [done|by eapply K5].
Qed.

Lemma inv_finish_failed sys l1 o l2 w' e :
  sys_inv sys -> txs sys = l1 ++ o :: l2 -> finish_stage (world sys) o = (w', Err e) ->
  sys_inv {| world := drop_transaction w' o; known := known sys; txs := l1 ++ l2;
             finishing := finishing sys; guards := guards sys |}.
Proof.
  intros Hinv Htx Hf.
  assert (Hinv1 : sys_inv (with_world sys w')).
  { eapply inv_harmless; [done|exact Hf|]. intros x x'. apply finish_section_harmless. }
  exact (inv_abort (with_world sys w') l1 o l2 Hinv1 Htx).
Qed.

Lemma inv_publish sys l1 o staged l2 w' r :
  sys_inv sys -> finishing sys = l1 ++ (o, staged) :: l2 ->
  finish_publish (world sys) o staged = (w', r) ->
  sys_inv {| world := match r with Ok _ => w' | Err _ => drop_transaction w' o end;
             known := known sys; txs := txs sys; finishing := l1 ++ l2; guards := guards sys |}.
Proof.
  intros Hinv Hfin Hp.
  assert (Ho : o ∈ txs sys ++ (finishing sys).*1) by (rewrite Hfin, fmap_app; set_solver).
  pose proof Hp as Hp'.
  apply with_owner_cases in Hp' as [(-> & Herr & _)|(st&e&e'&Hst&Hal&He&Ha&Hd&Hph&Hke&->)].
  { destruct r; [done|]. by eapply inv_invalid. }
  destruct (tx_staging sys o st e Hinv Ho Hst Hal He) as (Hstg & _ & _ & Hone).
  pose proof (si_entry _ Hinv _ _ _ _ Hst He) as [K1 K2 K3 K4 K5].
  assert (Hdesc : staged = describe_pieces e).
  { apply (K5 Hal o staged); [rewrite Hfin; set_solver|apply of_entry_self]. }
  destruct (publication_section_ok _ _ _ _ Hke K2 Hstg Hdesc) as (P1 & P2 & P3 & P4).
  destruct r as [u|f].
  - destruct P4 as (Hready & Hpieces & _ & _). rewrite count_key_app, Hfin, fmap_app, fmap_cons in Hone.
    rewrite count_key_app, count_key_cons in Hone. simpl in Hone. rewrite of_entry_self in Hone.
    eapply (inv_local sys _ st o e e'); try done.
    + intros o'. unfold circulating. simpl. rewrite Hfin, !fmap_app, fmap_cons.
      rewrite !elem_of_app, elem_of_cons. tauto.
    + intros s id Hne. split; [|done]. rewrite !writers_eq, Hfin. simpl.
      rewrite !fmap_app, fmap_cons, !count_key_app, count_key_cons. simpl.
      by rewrite (of_entry_other _ _ _ Hne).
    + intros o' staged' Hin _. rewrite Hfin. simpl in Hin. set_solver.
    + intros _. split; [done|done|congruence| |].
      * intros _. rewrite Hready, bool_decide_eq_false_2, writers_eq by done. simpl.
        rewrite fmap_app, count_key_app. split; [lia|]. rewrite P3. by apply K4.
      * intros _ o' staged' Hin Ho'. simpl in Hin. exfalso.
        assert (o' ∈ (l1 ++ l2).*1) as Hin' by (apply list_elem_of_fmap; by exists (o', staged')).
        pose proof (count_key_elem _ _ _ _ Hin' Ho') as Hc. rewrite fmap_app, count_key_app in Hc. lia.
  - assert (Hinv1 : sys_inv (with_world sys (write_entry (world sys) st o e'))).
    { eapply (inv_section sys o Disposed id (publication_section staged)); [done|exact Hp|].
      intros st1 e1 e1' Hst1 _ He1 Hke1 _. simplify_eq. rewrite Hke in Hke1.
      injection Hke1 as <-. split_and!; [done|done|done|congruence|].
      intros _. unfold publication_section in Hke. repeat case_match; by simplify_eq. }
    exact (inv_invalid (with_world sys (write_entry (world sys) st o e')) l1 o staged l2 Hinv1 Hfin).
Qed.

Lemma inv_acquire sys thread o w' g :
  sys_inv sys -> o ∈ known sys -> acquire (world sys) thread o = (w', Ok g) ->
  g_owner g = o /\
  sys_inv {| world := w'; known := known sys; txs := txs sys;
             finishing := finishing sys; guards := g :: guards sys |}.
Proof.
  intros Hinv Ho. unfold acquire. destruct (with_owner _ _ _ _ _) as [w1 [u|e]] eqn:E; [|done].
  intros [= <- <-]. split; [done|].
  apply with_owner_cases in E as [(_ & Herr & _)|(st&e&e'&Hst&Hal&He&Ha&Hd&Hph&Hke&->)]; [done|].
  unfold acquire_section, add, checked_add_u64 in Hke. destruct (Z.leb _ _); [|done].
  injection Hke as <-.
  eapply (inv_local sys _ st o e (set_active_reads e (active_reads e + 1)%Z)); try done.
  - intros o'. unfold circulating. simpl. set_solver.
  - intros s id Hne. split; [done|]. rewrite !readers_eq. cbn [guards].
    rewrite fmap_cons, count_key_cons. simpl. by rewrite (of_entry_other _ _ _ Hne).
  - intros [K1 K2 K3 K4 K5]. split; [done|by eapply entry_ok_core; [|exact K2]|done| |done].
    intros _. destruct (K4 Hal) as [Kw Kr]. split; [done|]. rewrite readers_eq in *. cbn [guards].
    rewrite fmap_cons, count_key_cons. simpl. rewrite of_entry_self, Kr. lia.
Qed.

Lemma inv_guards_renamed sys gs gs' w :
  sys_inv {| world := w; known := known sys; txs := txs sys; finishing := finishing sys; guards := gs |} ->
  g_owner <$> gs' = g_owner <$> gs ->
  sys_inv {| world := w; known := known sys; txs := txs sys; finishing := finishing sys; guards := gs' |}.
Proof.
  intros [Href Hentry Htok] Hg. split; [done| |].
  - intros s st id e Hs He. destruct (Hentry _ _ _ _ Hs He) as [K1 K2 K3 K4 K5].
    split; try done. intros Hal. destruct (K4 Hal). unfold writers, readers in *. simpl in *.
    by rewrite Hg.
  - intros o. unfold circulating. simpl. rewrite Hg. apply Htok.
Qed.

Lemma inv_active_guard sys thread o w' g :
  sys_inv sys -> o ∈ known sys -> active_guard (world sys) thread o = (w', Ok g) ->
  sys_inv {| world := w'; known := known sys; txs := txs sys;
             finishing := finishing sys; guards := g :: guards sys |}.
Proof.
  intros Hinv Ho. unfold active_guard. destruct (with_owner _ _ _ _ _) as [w1 [u|e]] eqn:E; [|done].
  assert (Hinv1 : sys_inv (with_world sys w1)).
  { eapply inv_harmless; [done|exact E|]. by intros x x' [= <- <-]. }
  destruct (acquire w1 thread o) as [w2 [g1|]] eqn:Hac; [|done].
  destruct (inv_acquire (with_world sys w1) thread o w2 g1 Hinv1 Ho Hac) as [Hg1 Hinv2].
  unfold bind_invocation. simpl. intros [= <- <-].
  pose proof (inv_supply _ {| stores := stores w2;
    active := <[g_thread g1 := {| api_owner := g_owner g1; api_call_identity := next_ref w2 |}]> (active w2);
    next_ref := S (next_ref w2) |} Hinv2 eq_refl (Nat.le_succ_diag_r _)) as Hinv3.
  by eapply (inv_guards_renamed sys (g1 :: guards sys)).
Qed.

(** Guards are balanced: dropping one never panics. *)
Lemma drop_guard_total sys g :
  sys_inv sys -> g ∈ guards sys -> exists w, drop_guard (world sys) g = Some w.
Proof.
  intros Hinv Hg. unfold drop_guard.
  set (w := match g_invocation g with None => _ | Some _ => _ end).
  assert (Hw : stores w = stores (world sys)) by (unfold w; by destruct (g_invocation g)).
  unfold upgrade. rewrite Hw. destruct (stores (world sys) !! _) as [st|] eqn:Hst; [|eauto].
  destruct (alive st) eqn:Hal; [|eauto]. destruct (owners st !! _) as [e|] eqn:He; [|eauto].
  destruct (ei_live _ _ _ _ _ (si_entry _ Hinv _ _ _ _ Hst He) Hal) as [_ Hr].
  assert (Hin : g_owner g ∈ g_owner <$> guards sys) by (apply list_elem_of_fmap; eauto).
  pose proof (count_key_elem _ _ _ _ Hin (of_entry_self _)) as Hc. rewrite <-readers_eq in Hc.
  destruct (Z.ltb_spec (active_reads e) 1); [lia|eauto].
Qed.

Lemma inv_drop_guard sys l1 g l2 w' :
  sys_inv sys -> guards sys = l1 ++ g :: l2 -> drop_guard (world sys) g = Some w' ->
  sys_inv {| world := w'; known := known sys; txs := txs sys;
             finishing := finishing sys; guards := l1 ++ l2 |}.
Proof.
  intros Hinv Hgs. unfold drop_guard.
  set (w := match g_invocation g with None => _ | Some _ => _ end).
  assert (Hw : stores w = stores (world sys) /\ next_ref w = next_ref (world sys))
    by (unfold w; by destruct (g_invocation g)). clearbody w. destruct Hw as [Hw Hn].
  assert (Hcirc : forall o', o' ∈ circulating {| world := w'; known := known sys; txs := txs sys;
    finishing := finishing sys; guards := l1 ++ l2 |} -> o' ∈ circulating sys).
  { intros o'. unfold circulating. simpl. rewrite Hgs, !fmap_app. set_solver. }
  assert (Hcnt : forall s id, count_key s id (g_owner <$> guards sys) =
    (if of_entry s id (g_owner g) then 1 else 0) + count_key s id (g_owner <$> (l1 ++ l2))).
  { intros s id. rewrite Hgs, !fmap_app, fmap_cons. apply count_key_middle. }
  assert (Hother : forall s id, (s, id) <> (o_store (g_owner g), o_id (g_owner g)) ->
    count_key s id (g_owner <$> (l1 ++ l2)) = count_key s id (g_owner <$> guards sys)).
  { intros s id Hne. rewrite Hcnt, (of_entry_other _ _ _ Hne). done. }
  assert (Hdead : w = w' -> (forall st, stores (world sys) !! o_store (g_owner g) = Some st ->
    alive st = false) -> sys_inv {| world := w'; known := known sys; txs := txs sys;
    finishing := finishing sys; guards := l1 ++ l2 |}).
  { intros <- Hd. eapply (inv_same_stores sys _ (g_owner g)); try done; simpl; [lia| |auto].
    intros s id Hne. split; [done|]. rewrite !readers_eq. by apply Hother. }
  unfold upgrade. rewrite Hw.
  destruct (stores (world sys) !! o_store (g_owner g)) as [st|] eqn:Hst.
  2:{ intros [= <-]. by apply Hdead. }
  destruct (alive st) eqn:Hal.
  2:{ intros [= <-]. apply Hdead; [done|]. intros st'. congruence. }
  destruct (owners st !! o_id (g_owner g)) as [e|] eqn:He.
  2:{ exfalso. assert (Hc : g_owner g ∈ circulating sys).
      { unfold circulating. rewrite Hgs, fmap_app. set_solver. }
      destruct (si_token _ Hinv _ Hc) as (st' & e & ? & ? & _). congruence. }
  destruct (Z.ltb_spec (active_reads e) 1); [done|]. intros [= <-].
  eapply (inv_local sys _ st (g_owner g) e (set_active_reads e (active_reads e - 1)%Z)); try done.
  - simpl. by rewrite Hw.
  - simpl. lia.
  - intros s id Hne. split; [done|]. rewrite !readers_eq. simpl. by apply Hother.
  - intros [K1 K2 K3 K4 K5]. split; [done|by eapply entry_ok_core; [|exact K2]|done| |done].
    intros _. destruct (K4 Hal) as [Kw Kr]. split; [done|]. rewrite readers_eq. simpl.
    rewrite readers_eq, Hcnt, of_entry_self in Kr. lia.
Qed.

Lemma sys_step_inv sys sys' : sys_inv sys -> sys_step sys sys' -> sys_inv sys'.
Proof.
  intros Hinv Hstep. destruct Hstep.
  - by eapply inv_new_store.
  - by apply inv_drop_store.
  - by eapply inv_create.
  - by eapply inv_begin.
  - by eapply inv_dispose_owner.
  - by eapply inv_dispose.
  - by eapply inv_record_invocation.
  - by apply inv_record_fuel.
  - eapply inv_harmless; [done|eassumption|]. intros e e'. apply request_section_harmless.
  - eapply inv_harmless; [done|eassumption|]. intros e e'. apply with_entry_harmless.
    intros e1 r1 Hph. by apply publish_operation_harmless.
  - by apply inv_writer_fault.
  - by eapply inv_put.
  - by apply inv_abort.
  - by eapply inv_finish.
  - by eapply inv_finish_failed.
  - by eapply inv_invalid.
  - by eapply inv_publish.
  - by eapply inv_acquire.
  - by eapply inv_active_guard.
  - by eapply inv_drop_guard.
  - eapply inv_harmless; [done|eassumption|]. intros e e'. apply read_section_harmless.
Qed.

Lemma reachable_inv sys : reachable sys -> sys_inv sys.
Proof.
  induction 1 as [|sys sys' _ IH Hstep]; [|by eapply sys_step_inv].
  split; simpl.
  - intros s st. by rewrite lookup_empty.
  - intros s st id e. by rewrite lookup_empty.
  - intros o Ho. by apply elem_of_nil in Ho.
Qed.

(** ** Published plans do not change *)

(** A published entry keeps its pieces until it is disposed of, for good. *)
Definition evolves (e e' : OwnerState) : Prop :=
  artifact_identity e' = artifact_identity e /\
  (m_phase (metadata e) = Ready ->
     (m_phase (metadata e') = Ready /\ pieces e' = pieces e) \/
     m_phase (metadata e') = DisposedPhase) /\
  (m_phase (metadata e) = DisposedPhase -> m_phase (metadata e') = DisposedPhase).

Definition world_evolves (w w' : World) : Prop :=
  forall s st id e, stores w !! s = Some st -> owners st !! id = Some e ->
    exists st' e', stores w' !! s = Some st' /\ owners st' !! id = Some e' /\ evolves e e'.

#[local] Instance evolves_preorder : PreOrder evolves.
Proof.
  split; [by intros e; split_and!; [|left|]|].
  intros e1 e2 e3 (A1 & R1 & D1) (A2 & R2 & D2). split; [congruence|]. split; [|tauto].
  intros H. destruct (R1 H) as [[H1 P1]|H1]; [|by right; auto].
  destruct (R2 H1) as [[H2 P2]|H2]; [left; split; [done|congruence]|by right].
Qed.

#[local] Instance world_evolves_preorder : PreOrder world_evolves.
Proof.
  split; [by intros w s st id e; exists st, e|].
  intros w1 w2 w3 H12 H23 s st id e Hs He.
  destruct (H12 _ _ _ _ Hs He) as (st2 & e2 & Hs2 & He2 & H2).
  destruct (H23 _ _ _ _ Hs2 He2) as (st3 & e3 & Hs3 & He3 & H3).
  exists st3, e3. split_and!; [done|done|by etrans].
Qed.

Lemma evolves_same_stores w w' : stores w' = stores w -> world_evolves w w'.
Proof. intros Hs s st id e. exists st, e. by rewrite Hs. Qed.

Lemma evolves_write w st o e e' :
  stores w !! o_store o = Some st -> owners st !! o_id o = Some e -> evolves e e' ->
  world_evolves w (write_entry w st o e').
Proof.
  intros Hst He Hev s st1 id e1 Hs1 He1. simpl. destruct (decide (s = o_store o)) as [->|Hne].
  - simplify_eq. rewrite lookup_insert_eq. eexists. 
    destruct (decide (id = o_id o)) as [->|Hid].
    + simplify_eq. exists e'. split; [done|]. simpl. by rewrite lookup_insert_eq.
    + exists e1. split; [done|]. simpl. by rewrite lookup_insert_ne.
  - exists st1, e1. by rewrite lookup_insert_ne.
Qed.

Lemma evolves_section {A E} w o (dead : E) denied (k : OwnerState -> OwnerState * result A E) w' r :
  with_owner w o dead denied k = (w', r) ->
  (forall st e e', stores w !! o_store o = Some st -> alive st = true ->
     owners st !! o_id o = Some e -> k e = (e', r) -> evolves e e') ->
  world_evolves w w'.
Proof.
  intros Hw Hk.
  apply with_owner_cases in Hw as [(-> & _)|(st&e&e'&Hst&Hal&He&Ha&Hd&Hph&Hke&->)]; [done|].
  eapply evolves_write; [done..|by eapply Hk].
Qed.

Lemma harmless_evolves e e' : harmless e e' -> evolves e e'.
Proof.
  intros (Hc & Ha & _). unfold core in Hc. injection Hc as Hp Hph _ _ _ _ _ _ _ _.
  split; [done|]. rewrite Hph. split; [by left|done].
Qed.

(** An entry that is not published evolves in any way. *)
Lemma evolves_unpublished e e' :
  artifact_identity e' = artifact_identity e ->
  m_phase (metadata e) <> Ready -> m_phase (metadata e) <> DisposedPhase -> evolves e e'.
Proof. intros. by split_and!. Qed.

Lemma evolves_drop sys o :
  sys_inv sys -> o ∈ txs sys ++ (finishing sys).*1 ->
  world_evolves (world sys) (drop_transaction (world sys) o).
Proof.
  intros Hinv Ho. unfold drop_transaction. destruct (with_owner _ _ _ _ _) as [w r] eqn:E.
  eapply evolves_section; [exact E|]. intros st e e' Hst Hal He [= <- _].
  destruct (tx_staging sys o st e Hinv Ho Hst Hal He) as (Hph & _).
  apply evolves_unpublished; [done|congruence..].
Qed.

Lemma evolves_harmless {A E} w o (dead : E) denied (k : OwnerState -> OwnerState * result A E) w' r :
  with_owner w o dead denied k = (w', r) ->
  (forall e e', k e = (e', r) -> harmless e e') ->
  world_evolves w w'.
Proof.
  intros Hw Hk. eapply evolves_section; [exact Hw|]. intros st e e' _ _ _ Hke.
  by apply harmless_evolves, Hk.
Qed.

Lemma evolves_clear e : evolves e (clear e DisposedPhase).
Proof. split; [done|]. by split; [right|]. Qed.

Lemma evolves_begin w s thread o w' r : begin w s thread o = (w', r) -> world_evolves w w'.
Proof.
  unfold begin. destruct (match current_call_identity _ _ _ with Some _ => _ | None => _ end) as [w1 i] eqn:Hw1.
  assert (Hs : world_evolves w w1).
  { apply evolves_same_stores. destruct (current_call_identity _ _ _); by injection Hw1 as <- <-. }
  unfold verify. destruct (Nat.eqb _ _); [|by intros [= <- <-]].
  intros Hb. trans w1; [done|]. eapply evolves_section; [exact Hb|].
  intros st e e' _ _ _. unfold begin_section. case_bool_decide as Hph; intros [= <- <-]; [|done].
  apply evolves_unpublished; [done|congruence..].
Qed.

Lemma evolves_dispose w s contended w' r : dispose w s contended = (w', r) -> world_evolves w w'.
Proof.
  unfold dispose. destruct contended; [by intros [= <- <-]|].
  destruct (stores w !! s) as [st|] eqn:Hst; [|by intros [= <- <-]].
  destruct (existsb _ _); intros [= <- <-]; [done|].
  intros s1 st1 id e Hs1 He. simpl. destruct (decide (s1 = s)) as [->|Hne].
  - simplify_eq. rewrite lookup_insert_eq. eexists _, (clear e DisposedPhase). split; [done|].
    simpl. rewrite lookup_fmap, He. split; [done|]. apply evolves_clear.
  - exists st1, e. by rewrite lookup_insert_ne.
Qed.

Lemma evolves_reads e n : evolves e (set_active_reads e n).
Proof. split; [done|]. split; [by left|done]. Qed.

Lemma evolves_drop_guard w g w' : drop_guard w g = Some w' -> world_evolves w w'.
Proof.
  unfold drop_guard. set (w1 := match g_invocation g with None => _ | Some _ => _ end).
  assert (Hw : stores w1 = stores w) by (unfold w1; by destruct (g_invocation g)). clearbody w1.
  unfold upgrade. destruct (stores w1 !! _) as [st|] eqn:Hst; [|intros [= <-]; by apply evolves_same_stores].
  destruct (alive st); [|intros [= <-]; by apply evolves_same_stores].
  destruct (owners st !! _) as [e|] eqn:He; [|intros [= <-]; by apply evolves_same_stores].
  destruct (Z.ltb _ _); [done|]. intros [= <-]. trans w1; [by apply evolves_same_stores|].
  eapply evolves_write; [done..|]. apply evolves_reads.
Qed.

Lemma evolves_acquire w thread o w' r : acquire w thread o = (w', r) -> world_evolves w w'.
Proof.
  unfold acquire. destruct (with_owner _ _ _ _ _) as [w1 u] eqn:E. intros [= <- <-].
  eapply evolves_section; [exact E|]. intros st e e' _ _ _. unfold acquire_section.
  destruct (add _ 1); intros [= <- _]; [apply evolves_reads|done].
Qed.

Lemma evolves_active_guard w thread o w' r : active_guard w thread o = (w', r) -> world_evolves w w'.
Proof.
  unfold active_guard. destruct (with_owner _ _ _ _ _) as [w1 u] eqn:E.
  assert (H1 : world_evolves w w1).
  { eapply evolves_section; [exact E|]. by intros st e e' _ _ _ [= <- _]. }
  destruct u; [|by intros [= <- _]].
  destruct (acquire w1 thread o) as [w2 g] eqn:Hac. apply evolves_acquire in Hac.
  destruct g; [|intros [= <- _]; by etrans].
  simpl. intros [= <- _]. trans w2; [by etrans|by apply evolves_same_stores].
Qed.

Lemma evolves_publish sys o staged w r :
  sys_inv sys -> o ∈ (finishing sys).*1 -> finish_publish (world sys) o staged = (w, r) ->
  world_evolves (world sys) w /\ world_evolves (world sys) (drop_transaction w o).
Proof.
  intros Hinv Ho Hp.
  assert (Ho' : o ∈ txs sys ++ (finishing sys).*1) by set_solver.
  assert (H1 : world_evolves (world sys) w).
  { eapply evolves_section; [exact Hp|]. intros st e e' Hst Hal He Hke.
    destruct (tx_staging sys o st e Hinv Ho' Hst Hal He) as (Hph & _).
    apply evolves_unpublished; [|congruence..].
    unfold publication_section in Hke. repeat case_match; by simplify_eq. }
  split; [done|]. unfold drop_transaction. destruct (with_owner w _ _ _ _) as [w2 r2] eqn:E. simpl.
  apply with_owner_cases in Hp as [(-> & _)|(st&e&e'&Hst&Hal&He&Ha&Hd&Hph&Hke&->)].
  { pose proof (evolves_drop sys o Hinv Ho') as Hd. unfold drop_transaction in Hd. by rewrite E in Hd. }
  apply with_owner_cases in E as [(-> & _)|(st2&e2&e2'&Hst2&_&He2&_&_&_&[= <- _]&->)]; [done|].
  simpl in Hst2. rewrite lookup_insert_eq in Hst2. injection Hst2 as <-. simpl in He2.
  rewrite lookup_insert_eq in He2. injection He2 as <-.
  intros s st1 id e1 Hs1 He1. simpl. destruct (decide (s = o_store o)) as [->|Hne].
  - simplify_eq. rewrite lookup_insert_eq. eexists.
    destruct (decide (id = o_id o)) as [->|Hid].
    + simplify_eq. exists (clear e' Unready). split; [done|]. simpl. rewrite lookup_insert_eq.
      split; [done|].
      destruct (tx_staging sys o st e Hinv Ho' Hst Hal He) as (Hs & _).
      apply evolves_unpublished; [|congruence..].
      unfold publication_section in Hke. repeat case_match; by simplify_eq.
    + exists e1. split; [done|]. simpl. by rewrite !lookup_insert_ne.
  - exists st1, e1. by rewrite !lookup_insert_ne.
Qed.

Lemma sys_step_evolves sys sys' :
  sys_inv sys -> sys_step sys sys' -> world_evolves (world sys) (world sys').
Proof.
  intros Hinv Hstep. destruct Hstep as [sys w s Hw|sys s|sys s b w o Hw|sys s th o w r Ho Hw
    |sys s c o w r Ho Hw|sys s c w r Hw|sys o w r Ho Hw|sys o f Ho|sys o vs ls w r Ho Hw
    |sys pw sc w r Ho Hw|sys o er Ho|sys o n b w r Ho Hw|sys l1 o l2 Htx|sys l1 o l2 w sg Htx Hw
    |sys l1 o l2 w er Htx Hw|sys l1 o sg l2 Hfin|sys l1 o sg l2 w r Hfin Hw|sys th o w g Ho Hw
    |sys th o w g Ho Hw|sys l1 g l2 w Hg Hw|sys h of_ mb w r Ho Hw]; simpl.
  - injection Hw as <- _. intros s1 st id e Hs He. exists st, e. simpl.
    pose proof (si_ref _ Hinv _ _ Hs). by rewrite lookup_insert_ne by lia.
  - unfold drop_store. destruct (stores (world sys) !! s) as [st|] eqn:Hst; [|done].
    intros s1 st1 id e Hs He. simpl. destruct (decide (s1 = s)) as [->|Hne].
    + simplify_eq. rewrite lookup_insert_eq. by exists (set_alive st false), e.
    + exists st1, e. by rewrite lookup_insert_ne.
  - unfold create_owner in Hw. destruct (stores (world sys) !! s) as [st|] eqn:Hst; [|done].
    destruct (disposed st); [done|]. destruct (add _ 1) as [nx|]; [|done]. injection Hw as <- <-.
    intros s1 st1 id e Hs He. simpl. destruct (decide (s1 = s)) as [->|Hne].
    + simplify_eq. rewrite lookup_insert_eq. eexists _, e. split; [done|]. simpl.
      pose proof (ei_id _ _ _ _ _ (si_entry _ Hinv _ _ _ _ Hst He)).
      by rewrite lookup_insert_ne by lia.
    + exists st1, e. by rewrite lookup_insert_ne.
  - by eapply evolves_begin.
  - unfold dispose_owner, verify in Hw. destruct (Nat.eqb _ _); [|by simplify_eq].
    destruct c; [by simplify_eq|]. eapply evolves_section; [exact Hw|].
    intros st e e' _ _ _. simpl. destruct (entry_busy e); intros; simplify_eq; [done|apply evolves_clear].
  - by eapply evolves_dispose.
  - unfold record_prepare_invocation in Hw.
    destruct (stores (world sys) !! o_store o) as [st|] eqn:Hst; [|by simplify_eq].
    destruct (owners st !! o_id o) as [e|] eqn:He; [|by simplify_eq].
    destruct (add _ 1); simplify_eq; [|done]. by eapply evolves_write, harmless_evolves.
  - unfold record_prepare_fuel. destruct (stores (world sys) !! o_store o) as [st|] eqn:Hst; [|done].
    destruct (owners st !! o_id o) as [e|] eqn:He; [|done]. by eapply evolves_write, harmless_evolves.
  - eapply evolves_harmless; [exact Hw|]. intros e e'. apply request_section_harmless.
  - eapply evolves_harmless; [exact Hw|]. intros e e'. apply with_entry_harmless.
    intros e1 r1 Hph. by apply publish_operation_harmless.
  - unfold record_writer_fault. destruct (with_owner _ _ _ _ _) as [w r] eqn:E.
    eapply evolves_harmless; [exact E|]. by intros e e' [= <- _].
  - eapply evolves_section; [exact Hw|]. intros st e e' Hst Hal He Hke.
    destruct (tx_staging sys o st e Hinv) as (Hph & _); [set_solver|done..|].
    destruct (put_section_ok _ _ _ _ _ Hke (ei_ok _ _ _ _ _ (si_entry _ Hinv _ _ _ _ Hst He)) Hph)
      as (_ & _ & Ha & _).
    apply evolves_unpublished; [done|congruence..].
  - apply evolves_drop; [done|]. rewrite Htx. set_solver.
  - eapply evolves_harmless; [exact Hw|]. intros e e'. apply finish_section_harmless.
  - assert (H1 : world_evolves (world sys) w).
    { eapply evolves_harmless; [exact Hw|]. intros e e'. apply finish_section_harmless. }
    trans w; [done|]. apply (evolves_drop (with_world sys w)); [|simpl; rewrite Htx; set_solver].
    eapply inv_harmless; [done|exact Hw|]. intros e e'. apply finish_section_harmless.
  - apply evolves_drop; [done|]. rewrite Hfin, fmap_app. set_solver.
  - destruct (evolves_publish sys o sg w r Hinv) as [H1 H2]; [rewrite Hfin, fmap_app; set_solver|done|].
    by destruct r.
  - by eapply evolves_acquire.
  - by eapply evolves_active_guard.
  - by eapply evolves_drop_guard.
  - eapply evolves_harmless; [exact Hw|]. intros e e'. apply read_section_harmless.
Qed.

Lemma steps_evolve sys sys' :
  reachable sys -> rtc sys_step sys sys' -> world_evolves (world sys) (world sys') /\ reachable sys'.
Proof.
  intros Hr Hsteps. induction Hsteps as [|sys sys1 sys2 Hstep _ IH]; [done|].
  destruct IH as [IH Hr2]; [by eapply reachable_step|]. split; [|done].
  trans (world sys1); [|done]. apply sys_step_evolves; [by apply reachable_inv|done].
Qed.

Lemma sys_step_known sys sys' o : sys_step sys sys' -> o ∈ known sys -> o ∈ known sys'.
Proof. destruct 1; simpl; set_solver. Qed.

Lemma steps_known sys sys' o : rtc sys_step sys sys' -> o ∈ known sys -> o ∈ known sys'.
Proof. induction 1; [done|]. eauto using sys_step_known. Qed.

(** ** Reading *)

(** The search by id finds the named piece. *)
Lemma find_piece m name p :
  pieces_ok m -> m !! name = Some p ->
  exists rest, filter (fun q => piece_id q = piece_id p) (btree_values m) = p :: rest.
Proof.
  intros [_ _ Huniq] Hp.
  destruct (filter _ _) as [|q rest] eqn:Hf.
  - assert (Hin : p ∈ filter (fun q => piece_id q = piece_id p) (btree_values m)).
    { apply list_elem_of_filter. split; [done|]. apply elem_of_btree_values. eauto. }
    rewrite Hf in Hin. by apply elem_of_nil in Hin.
  - assert (Hin : q ∈ filter (fun q => piece_id q = piece_id p) (btree_values m))
      by (rewrite Hf; left).
    apply list_elem_of_filter in Hin as [Hq (n & Hn)%elem_of_btree_values].
    pose proof (Huniq _ _ _ _ Hn Hp Hq) as ->. rewrite Hp in Hn. injection Hn as <-. eauto.
Qed.

(** Some accounting counter of [e] has no room for a read of [max_bytes]. *)
Definition counters_full (e : OwnerState) (max_bytes : Z) : Prop :=
  (u64_max <= m_read_calls (metadata e) \/
   u64_max < m_requested_read_bytes (metadata e) + max_bytes \/
   u64_max < m_returned_read_bytes (metadata e) + max_bytes)%Z.

Lemma read_section_spec h offset max_bytes e name p e' r :
  entry_ok e -> m_phase (metadata e) = Ready -> pieces e !! name = Some p ->
  piece_id p = ph_id h -> piece_len p = ph_len h -> (0 <= offset)%Z -> (0 <= max_bytes)%Z ->
  read_section h offset max_bytes e = (e', r) ->
  match r with
  | Ok out =>
      (offset <= ph_len h)%Z /\
      out = take (Z.to_nat (Z.min max_bytes (ph_len h - offset)))
              (drop (Z.to_nat offset) (piece_bytes p))
  | Err Transport.RangeError => (ph_len h < offset)%Z
  | Err Transport.ArithmeticOverflow => counters_full e max_bytes
  | Err _ => False
  end.
Proof.
  intros [Hok Hready _] Hph Hp Hid Hlen Hoff Hmax. unfold read_section.
  rewrite Hready, Hph. rewrite bool_decide_eq_true_2 by done. simpl.
  rewrite <-Hid. destruct (find_piece _ _ _ Hok Hp) as [rest ->].
  destruct (po_len _ Hok _ _ Hp) as (_ & Hl & Hu). rewrite <-Hlen.
  destruct (Z.ltb_spec (piece_len p) offset); [by intros [= <- <-]|].
  unfold checked_add_u64 at 1. destruct (Z.leb_spec (offset + Z.min max_bytes (piece_len p - offset)) u64_max); [|lia].
  unfold slice_get. rewrite (proj2 (Z.leb_le offset _)) by lia.
  rewrite (proj2 (Z.leb_le _ (Z.of_nat (length _)))) by lia. simpl.
  replace (offset + Z.min max_bytes (piece_len p - offset) - offset)%Z
    with (Z.min max_bytes (piece_len p - offset)) by lia.
  unfold add, checked_add_u64, counters_full.
  destruct (Z.leb_spec (m_read_calls (metadata e) + 1) u64_max); simpl; [|intros [= <- <-]; lia].
  destruct (Z.leb_spec (m_requested_read_bytes (metadata e) + max_bytes) u64_max); simpl;
    [|intros [= <- <-]; lia].
  destruct (Z.leb_spec (m_returned_read_bytes (metadata e) + Z.min max_bytes (piece_len p - offset)) u64_max); simpl; intros [= <- <-];
    [|lia]. split; [lia|done].
Qed.

(** The guard of a read is dropped without a panic, and the section sees the entry with
    one more active read. *)
Lemma read_cases sys thread h offset max_bytes :
  sys_inv sys -> ph_owner h ∈ known sys ->
  exists w' r, read (world sys) thread h offset max_bytes = Some (w', r) /\
    ((r = Err Transport.AccessDenied /\
      forall st e, stores (world sys) !! o_store (ph_owner h) = Some st -> alive st = true ->
        owners st !! o_id (ph_owner h) = Some e ->
        disposed st = true \/ m_phase (metadata e) = DisposedPhase) \/
     exists st e,
       stores (world sys) !! o_store (ph_owner h) = Some st /\
       owners st !! o_id (ph_owner h) = Some e /\ m_phase (metadata e) <> DisposedPhase /\
       ((r = Err Transport.ArithmeticOverflow /\ (u64_max <= active_reads e)%Z) \/
        exists e2, read_section h offset max_bytes (set_active_reads e (active_reads e + 1)) = (e2, r))).
Proof.
  intros Hinv Ho. unfold read.
  destruct (acquire (world sys) thread (ph_owner h)) as [w1 [g|er]] eqn:Hac.
  - destruct (inv_acquire sys thread _ w1 g Hinv Ho Hac) as [Hg Hinv1].
    destruct (with_owner w1 _ _ _ _) as [w2 r] eqn:Hrd.
    assert (Hinv2 : sys_inv (with_world {| world := w1; known := known sys; txs := txs sys;
      finishing := finishing sys; guards := g :: guards sys |} w2)).
    { eapply inv_harmless; [done|exact Hrd|]. intros x x'. apply read_section_harmless. }
    destruct (drop_guard_total _ g Hinv2) as [w3 Hd]; [left|]. simpl in Hd. rewrite Hd.
    exists w3, r. split; [done|]. unfold acquire in Hac.
    destruct (with_owner (world sys) _ _ _ acquire_section) as [w0 [u|]] eqn:Hacq; [|done].
    injection Hac as -> _.
    apply with_owner_cases in Hacq as [(_ & ? & _)|(st&e&e'&Hst&Hal&He&Ha&Hdi&Hph&Hke&->)]; [done|].
    unfold acquire_section, add, checked_add_u64 in Hke. destruct (Z.leb _ _); [|done].
    injection Hke as <-. right. exists st, e. split_and!; [done..|]. right.
    revert Hrd. unfold with_owner, upgrade. simpl. rewrite lookup_insert_eq. simpl. rewrite Hal.
    unfold check_owner. simpl. rewrite lookup_insert_eq. simpl. rewrite Ha, Nat.eqb_refl, Hdi. simpl.
    rewrite bool_decide_eq_false_2 by done.
    destruct (read_section _ _ _ _) as [e2 r2]. intros [= _ ->]. eauto.
  - eexists _, _. split; [done|]. unfold acquire in Hac.
    destruct (with_owner (world sys) _ _ _ acquire_section) as [w0 [u|er']] eqn:Hacq; [done|].
    injection Hac as -> ->. pose proof Hacq as Hacq'.
    apply with_owner_cases in Hacq as
      [(-> & _ & Hno & Hr)|(st&e&e'&Hst&Hal&He&Ha&Hdi&Hph&Hke&->)].
    + left. split; [destruct Hr as [Hr|[f Hr]]; by injection Hr as ->|].
      intros st e Hst Hal He. apply (Hno st e Hst Hal He).
      assert (Hc : ph_owner h ∈ circulating sys) by (unfold circulating; set_solver).
      destruct (si_token _ Hinv _ Hc) as (st1 & e1 & ? & ? & ?). by simplify_eq.
    + right. exists st, e. split_and!; [done..|]. left.
      unfold acquire_section, add, checked_add_u64 in Hke.
      destruct (Z.leb_spec (active_reads e + 1) u64_max); [done|]. injection Hke as _ ->.
      split; [done|lia].
Qed.

(** What a handle is of: the piece that was published under its name. *)
Lemma opened_piece sys o w h name :
  sys_inv sys -> open_piece (world sys) o name = (w, Ok (Some h)) ->
  ph_owner h = o /\
  exists st e p, stores (world sys) !! o_store o = Some st /\ owners st !! o_id o = Some e /\
    m_phase (metadata e) = Ready /\ pieces e !! name = Some p /\ entry_ok e /\
    artifact_identity e = o_artifact_identity o /\
    ph_id h = piece_id p /\ ph_len h = piece_len p.
Proof.
  intros Hinv Hop. apply with_owner_cases in Hop as
    [(_ & Herr & _)|(st&e&e'&Hst&Hal&He&Ha&Hd&Hph&Hke&->)]; [done|].
  pose proof (ei_ok _ _ _ _ _ (si_entry _ Hinv _ _ _ _ Hst He)) as Hok.
  unfold reading, open_section in Hke. injection Hke as <- Hke.
  rewrite (eo_ready _ Hok) in Hke. case_bool_decide as Hr; [|done]. simpl in Hke.
  destruct (String.eqb name ""); [done|]. destruct (pieces e !! name) as [p|] eqn:Hp; [|done].
  injection Hke as <-. simpl. split; [done|]. by exists st, e, p.
Qed.

(** ** Properties *)

(** [C24].  The store keeps its books.  In every reachable state of a print, for every
    owner: what is staged or retained is exactly the total length of its pieces and of
    their names, in the phase that says so, and nothing is kept outside staging and
    publication; piece ids are distinct and piece lengths are those of the bytes.
    While the store lives an owner is staging exactly when one transaction holds it
    (never two), its active reads are the guards alive, the description a finishing
    transaction shows to validation is that of the pieces it will publish; and no
    guard panics when it is dropped. *)
Theorem store_keeps_books sys (Hr : reachable sys) :
  (forall s st id e, stores (world sys) !! s = Some st -> owners st !! id = Some e ->
     entry_ok e /\
     (disposed st = true -> m_phase (metadata e) = DisposedPhase) /\
     (alive st = true ->
        writers sys s id = (if bool_decide (m_phase (metadata e) = Staging) then 1 else 0) /\
        active_reads e = Z.of_nat (readers sys s id) /\
        forall o staged, (o, staged) ∈ finishing sys -> of_entry s id o = true ->
          staged = describe_pieces e)) /\
  (forall g, g ∈ guards sys -> drop_guard (world sys) g <> None).
Proof.
  apply reachable_inv in Hr. split.
  - intros s st id e Hs He. destruct (si_entry _ Hr _ _ _ _ Hs He) as [K1 K2 K3 K4 K5].
    split; [done|]. split; [done|]. intros Hal. destruct (K4 Hal). split_and!; [done|done|].
    by apply K5.
  - intros g Hg. destruct (drop_guard_total _ _ Hr Hg) as [w ->]. done.
Qed.

(** [C3].  A published piece reads back as it was published, whatever happens in between.
    A handle opened in any reachable state reads, after any further steps of the print,
    exactly the requested range of the bytes staged under its name, clipped to their
    length; otherwise the offset lies past the end, the accounting counters are full,
    or the store is gone or the owner disposed of.  The read never panics and never
    returns other bytes. *)
Theorem published_piece_reads_back sys o w h name thread offset max_bytes sys'
    (Hr : reachable sys) (Ho : o ∈ known sys)
    (Hopen : open_piece (world sys) o name = (w, Ok (Some h)))
    (Hsteps : rtc sys_step sys sys') (Hoff : (0 <= offset)%Z) (Hmax : (0 <= max_bytes)%Z) :
  exists st e piece,
    stores (world sys) !! o_store o = Some st /\ owners st !! o_id o = Some e /\
    pieces e !! name = Some piece /\
    exists w' r,
      read (world sys') thread h offset max_bytes = Some (w', r) /\
      match r with
      | Ok out =>
          (offset <= Z.of_nat (length (piece_bytes piece)))%Z /\
          out = take (Z.to_nat (Z.min max_bytes (Z.of_nat (length (piece_bytes piece)) - offset)))
                  (drop (Z.to_nat offset) (piece_bytes piece))
      | Err Transport.RangeError => (Z.of_nat (length (piece_bytes piece)) < offset)%Z
      | Err Transport.ArithmeticOverflow =>
          exists st' e', stores (world sys') !! o_store o = Some st' /\
            owners st' !! o_id o = Some e' /\
            ((u64_max <= active_reads e')%Z \/ counters_full e' max_bytes)
      | Err Transport.AccessDenied =>
          forall st' e', stores (world sys') !! o_store o = Some st' -> alive st' = true ->
            owners st' !! o_id o = Some e' ->
            disposed st' = true \/ m_phase (metadata e') = DisposedPhase
      | Err _ => False
      end.
Proof.
  pose proof (reachable_inv _ Hr) as Hinv.
  destruct (opened_piece _ _ _ _ _ Hinv Hopen) as (<- & st & e & p & Hst & He & Hrd & Hp & Hok & _ & Hid & Hlen).
  destruct (steps_evolve _ _ Hr Hsteps) as [Hev Hr'].
  pose proof (reachable_inv _ Hr') as Hinv'.
  destruct (Hev _ _ _ _ Hst He) as (st' & e' & Hst' & He' & _ & Hready & _).
  exists st, e, p. split_and!; [done..|].
  destruct (read_cases sys' thread h offset max_bytes Hinv') as (w' & r & Hread & Hcase).
  { by eapply steps_known. }
  exists w', r. split; [done|].
  destruct (po_len _ (eo_pieces _ Hok) _ _ Hp) as (_ & <- & _).
  destruct Hcase as [[-> Hdead]|(st1 & e1 & Hst1 & He1 & Hph & [[-> Hfull]|[e2 Hsec]])]; [done| |].
  { exists st1, e1. split_and!; [done..|]. by left. }
  simplify_eq. destruct (Hready Hrd) as [[Hph' Hpcs]|]; [|done].
  assert (Hok1 : entry_ok (set_active_reads e' (active_reads e' + 1)%Z)).
  { eapply entry_ok_core; [|exact (ei_ok _ _ _ _ _ (si_entry _ Hinv' _ _ _ _ Hst' He'))]. done. }
  assert (Hp1 : pieces (set_active_reads e' (active_reads e' + 1)%Z) !! name = Some p)
    by (simpl; by rewrite Hpcs).
  pose proof (read_section_spec h offset max_bytes _ name p e2 r Hok1 Hph' Hp1 (eq_sym Hid)
    (eq_sym Hlen) Hoff Hmax Hsec) as Hspec. rewrite Hlen in Hspec.
  destruct r as [out|[]]; try done. exists st', e'. split_and!; [done..|]. by right.
Qed.

(** ** Transactions *)

(** The entry a token names, in a living store. *)
Definition live_entry (w : World) (o : PreparationOwner) (st : StoreState) (e : OwnerState) : Prop :=
  stores w !! o_store o = Some st /\ alive st = true /\ owners st !! o_id o = Some e.

Lemma with_owner_live {A E} w o st e (dead : E) denied (k : OwnerState -> OwnerState * result A E) :
  live_entry w o st e -> disposed st = false -> m_phase (metadata e) <> DisposedPhase ->
  artifact_identity e = o_artifact_identity o ->
  with_owner w o dead denied k = (write_entry w st o (k e).1, (k e).2).
Proof.
  intros (Hst & Hal & He) Hd Hph Ha. unfold with_owner, upgrade, check_owner.
  rewrite Hst, Hal, He, Ha, Nat.eqb_refl, Hd. simpl. rewrite bool_decide_eq_false_2 by done.
  by destruct (k e).
Qed.

Lemma live_write w o st e e' :
  live_entry w o st e ->
  live_entry (write_entry w st o e') o (set_owners st (<[o_id o := e']> (owners st))) e'.
Proof. intros (Hst & Hal & He). split_and!; simpl; by rewrite ?lookup_insert_eq. Qed.

(** What [put] checks of a name and its bytes. *)
Definition put_fits (e : OwnerState) (name : string) (bytes : list byte) : Prop :=
  name <> "" /\ pieces e !! name = None /\
  (Z.of_nat (length bytes) <= u64_max)%Z /\ (Z.of_nat (String.length name) <= u64_max)%Z /\
  (Z.of_nat (size (pieces e)) <= u64_max)%Z /\
  (total_payload (pieces e) + Z.of_nat (length bytes) <= u64_max)%Z /\
  (total_names (pieces e) + Z.of_nat (String.length name) <= u64_max)%Z /\
  (m_put_calls (metadata e) + 1 <= u64_max)%Z.

Lemma stage_piece_fits name bytes e :
  entry_ok e -> m_phase (metadata e) = Staging ->
  is_ok (stage_piece name bytes e) = true <-> put_fits e name bytes.
Proof.
  intros [_ _ Ha] Hph. rewrite Hph in Ha. destruct Ha as (H1 & H2 & _).
  unfold stage_piece, put_fits. rewrite H1, H2. unfold count, add, checked_add_u64.
  destruct (String.eqb_spec name "") as [|Hne]; [split; [done|tauto]|].
  destruct (pieces e !! name); [split; [done|]; intros (_ & ? & _); done|].
  repeat (match goal with |- context[Z.leb ?a u64_max] => destruct (Z.leb_spec a u64_max) end;
    simpl; [|split; [done|]; lia]).
  split; [|done]. done.
Qed.

(** A poisoned entry: nothing more is staged and [finish] fails. *)
Definition poisoned (e : OwnerState) : Prop :=
  writer_fault e <> None \/ projection_failure e <> None.

Lemma put_section_poisoned name bytes e :
  poisoned e -> put_section name bytes e = (e, Err Transport.PoisonedOutput).
Proof.
  unfold put_section. intros [H|H]; destruct (writer_fault e), (projection_failure e); done.
Qed.

Lemma finish_section_poisoned e : poisoned e -> is_ok (finish_section e).2 = false.
Proof.
  unfold finish_section. intros H. destruct (writer_fault e) eqn:Hw; [done|].
  destruct (projection_failure e) eqn:Hf; [by rewrite Hf|]. by destruct H.
Qed.

(** A transaction stages a piece or is poisoned.  [put] accepts a piece exactly
    when nothing failed before in the transaction, its name is new and not empty, and
    the totals of payload, names and calls stay within 64 bits; it then adds that piece
    and nothing else.  After a refusal the pieces are unchanged, every later [put] of
    the transaction is refused and its [finish] cannot publish. *)
Theorem put_accepts_or_poisons sys o st e name bytes w' r
    (Hr : reachable sys) (Ho : o ∈ txs sys) (Hlive : live_entry (world sys) o st e)
    (Hput : put (world sys) o name bytes = (w', r)) :
  (r = Ok tt <-> writer_fault e = None /\ projection_failure e = None /\ put_fits e name bytes) /\
  exists st' e', live_entry w' o st' e' /\
    match r with
    | Ok _ => pieces e' = <[name := {| piece_id := Z.of_nat (size (pieces e)); piece_bytes := bytes;
                                       piece_len := Z.of_nat (length bytes) |}]> (pieces e)
    | Err _ =>
        pieces e' = pieces e /\
        (forall name' bytes', (put w' o name' bytes').2 = Err Transport.PoisonedOutput) /\
        (forall res validate, is_ok (finish w' o res validate).2 = false)
    end.
Proof.
  apply reachable_inv in Hr. destruct Hlive as (Hst & Hal & He).
  destruct (tx_staging sys o st e Hr) as (Hph & Hd & Ha & _); [set_solver|done..|].
  pose proof (ei_ok _ _ _ _ _ (si_entry _ Hr _ _ _ _ Hst He)) as Hok.
  assert (Hlive : live_entry (world sys) o st e) by done.
  unfold put in Hput. rewrite (with_owner_live _ _ st e) in Hput by (done || congruence).
  pose proof (stage_piece_fits name bytes e Hok Hph) as Hfits.
  destruct (put_section name bytes e) as [e' r'] eqn:Hsec. injection Hput as <- <-. simpl.
  destruct (put_section_ok _ _ _ _ _ Hsec Hok Hph) as (_ & Hph' & Ha' & _).
  assert (Hpoison : poisoned e' -> pieces e' = pieces e ->
    pieces e' = pieces e /\
    (forall name' bytes', (put (write_entry (world sys) st o e') o name' bytes').2 = Err Transport.PoisonedOutput) /\
    (forall res validate, is_ok (finish (write_entry (world sys) st o e') o res validate).2 = false)).
  { intros Hp Hpc. split; [done|]. pose proof (live_write _ _ _ _ e' Hlive) as Hlive'. split.
    - intros name' bytes'. unfold put.
      rewrite (with_owner_live _ _ _ _ _ _ _ Hlive') by (done || congruence).
      by rewrite put_section_poisoned.
    - intros res validate. unfold finish, finish_stage.
      rewrite (with_owner_live _ _ _ _ _ _ _ Hlive') by (done || congruence).
      pose proof (finish_section_poisoned e' Hp) as Hfin.
      destruct (finish_section e').2 as [|err]; [done|]. by destruct res as [[]|[]]. }
  unfold put_section in Hsec.
  destruct (writer_fault e) eqn:Hwf.
  { injection Hsec as <- <-. split; [by split; [|intros (?&_)]|]. eexists _, e.
    split; [by eapply live_write|]. apply Hpoison; [left; congruence|done]. }
  destruct (projection_failure e) eqn:Hpf.
  { injection Hsec as <- <-. split; [by split; [|intros (_&?&_)]|]. eexists _, e.
    split; [by eapply live_write|]. apply Hpoison; [right; congruence|done]. }
  destruct (stage_piece name bytes e) as [e1|err] eqn:Hs; injection Hsec as <- <-.
  - split; [split; [|done]; intros _; split_and!; [done|done|by apply Hfits]|].
    eexists _, e1. split; [by eapply live_write|].
    by apply stage_piece_ok in Hs as (_ & _ & _ & _ & _ & _ & _ & _ & ->).
  - split; [split; [done|]; intros (_ & _ & Hx); by apply Hfits in Hx|].
    eexists _, _. split; [by eapply live_write|]. apply Hpoison; [by left|done].
Qed.

Lemma drop_transaction_live w o st e :
  live_entry w o st e -> disposed st = false -> m_phase (metadata e) <> DisposedPhase ->
  artifact_identity e = o_artifact_identity o ->
  exists st', live_entry (drop_transaction w o) o st' (clear e Unready).
Proof.
  intros Hl Hd Hph Ha. unfold drop_transaction. rewrite (with_owner_live _ _ _ _ _ _ _ Hl) by done.
  eexists. by eapply live_write.
Qed.

(** When the first section of [finish] lets a transaction through. *)
Lemma finish_section_ok e staged :
  (finish_section e).2 = Ok staged ->
  writer_fault e = None /\ projection_failure e = None /\ finish_fault e = None /\
  staged = describe_pieces e.
Proof.
  unfold finish_section. destruct (writer_fault e); [done|].
  destruct (projection_failure e) eqn:Hf; [by rewrite Hf|]. simpl.
  destruct (finish_fault e); [done|]. by intros [= <-].
Qed.

Lemma finish_section_clean e :
  writer_fault e = None -> projection_failure e = None -> finish_fault e = None ->
  finish_section e = (set_projection_failure e None, Ok (describe_pieces e)).
Proof. intros Hw Hp Hf. unfold finish_section. by rewrite Hw, Hp, Hf. Qed.

(** Publication succeeds once the first section did. *)
Lemma publication_clean e staged :
  writer_fault e = None -> finish_fault e = None ->
  exists e', publication_section staged (set_projection_failure e None) = (e', Ok tt) /\
    metadata e' = publish_metadata (metadata e) staged /\ pieces e' = pieces e.
Proof.
  intros Hw Hf. unfold publication_section, finish_fault in *. simpl. rewrite Hw.
  destruct (checked_add _ _); [|done]. eauto.
Qed.

(** [C10].  Publication is all or nothing.  A transaction that finishes (with a caller's
    validation that only judges the staged description) publishes exactly when the
    module succeeded, no write and no projection failed, every requested view has its
    scene and the validation accepts; the plan is then ready with precisely the staged
    pieces, their names and lengths listed and counted as retained.  In every other
    case the owner is back to unready, with nothing staged or retained. *)
Theorem finish_all_or_nothing sys o st e res verdict w' out
    (Hr : reachable sys) (Ho : o ∈ txs sys) (Hlive : live_entry (world sys) o st e)
    (Hfinish : finish (world sys) o res (fun staged w => (w, verdict staged)) = (w', out)) :
  (is_ok out = true <->
     res = Ok tt /\ writer_fault e = None /\ projection_failure e = None /\
     finish_fault e = None /\ verdict (describe_pieces e) = Ok tt) /\
  exists st' e', live_entry w' o st' e' /\
    match out with
    | Ok plan =>
        plan = o /\ m_phase (metadata e') = Ready /\ pieces e' = pieces e /\
        m_pieces (metadata e') = describe_pieces e /\
        m_retained_payload_bytes (metadata e') = total_payload (pieces e) /\
        m_retained_name_bytes (metadata e') = total_names (pieces e)
    | Err _ =>
        m_phase (metadata e') = Unready /\ pieces e' = ∅ /\ m_pieces (metadata e') = [] /\
        m_staged_payload_bytes (metadata e') = 0%Z /\ m_retained_payload_bytes (metadata e') = 0%Z
    end.
Proof.
  apply reachable_inv in Hr. destruct Hlive as (Hst & Hal & He).
  destruct (tx_staging sys o st e Hr) as (Hph & Hd & Ha & _); [set_solver|done..|].
  pose proof (ei_ok _ _ _ _ _ (si_entry _ Hr _ _ _ _ Hst He)) as Hok.
  assert (Hlive : live_entry (world sys) o st e) by done.
  assert (Habort : forall w1 e1 st1, live_entry w1 o st1 e1 -> disposed st1 = false ->
    m_phase (metadata e1) = Staging -> artifact_identity e1 = o_artifact_identity o ->
    exists st' e', live_entry (drop_transaction w1 o) o st' e' /\
      m_phase (metadata e') = Unready /\ pieces e' = ∅ /\ m_pieces (metadata e') = [] /\
      m_staged_payload_bytes (metadata e') = 0%Z /\ m_retained_payload_bytes (metadata e') = 0%Z).
  { intros w1 e1 st1 Hl1 Hd1 Hp1 Ha1. destruct (drop_transaction_live w1 o st1 e1) as [st' Hl'];
      [done|done|congruence|done|]. by exists st', (clear e1 Unready). }
  assert (Hfin : finish_stage (world sys) o =
    (write_entry (world sys) st o (finish_section e).1, (finish_section e).2)).
  { unfold finish_stage. by rewrite (with_owner_live _ _ st e) by (done || congruence). }
  destruct (finish_section_harmless e (finish_section e).1 (finish_section e).2) as (Hc & Ha1 & _);
    [by destruct (finish_section e)|].
  apply phase_core in Hc.
  pose proof (live_write _ _ _ _ (finish_section e).1 Hlive) as Hlive1.
  assert (Hab1 : exists st' e',
    live_entry (drop_transaction (write_entry (world sys) st o (finish_section e).1) o) o st' e' /\
      m_phase (metadata e') = Unready /\ pieces e' = ∅ /\ m_pieces (metadata e') = [] /\
      m_staged_payload_bytes (metadata e') = 0%Z /\ m_retained_payload_bytes (metadata e') = 0%Z)
    by (eapply Habort; [exact Hlive1|done|congruence|congruence]).
  assert (Hab0 := Habort _ _ _ Hlive Hd Hph Ha). unfold finish in Hfinish. rewrite Hfin in Hfinish.
  destruct (finish_section e).2 as [staged|err] eqn:Hst2.
  2:{ assert (Hno : ~ (writer_fault e = None /\ projection_failure e = None /\ finish_fault e = None)).
      { intros (Hw & Hp & Hf). by rewrite (finish_section_clean e Hw Hp Hf) in Hst2. }
      destruct res as [[]|[]]; injection Hfinish as <- <-;
        (split; [split; [done|]; intros (_ & ? & ? & ? & _); by destruct Hno|done]). }
  apply finish_section_ok in Hst2 as (Hw & Hp & Hf & ->).
  rewrite (finish_section_clean e Hw Hp Hf) in *. simpl in Hfinish, Hab1, Hlive1, Ha1, Hc.
  destruct res as [[]|[]]; simpl in Hfinish;
    try (injection Hfinish as <- <-; split; [split; [done|]; by intros (? & _)|done]).
  destruct (verdict (describe_pieces e)) as [[]|err] eqn:Hv; simpl in Hfinish.
  2:{ injection Hfinish as <- <-. split; [split; [done|]; by intros (_ & _ & _ & _ & ?)|done]. }
  unfold finish_publish in Hfinish.
  rewrite (with_owner_live _ _ _ _ _ _ _ Hlive1) in Hfinish by (simpl; done || congruence).
  destruct (publication_clean e (describe_pieces e) Hw Hf) as (e2 & Hpub & Hm & Hpcs).
  rewrite Hpub in Hfinish. simpl in Hfinish. injection Hfinish as <- <-.
  split; [done|]. eexists _, e2. split; [by eapply live_write|].
  rewrite Hm, Hpcs. destruct Hok as [_ _ Hacc]. rewrite Hph in Hacc.
  destruct Hacc as (H1 & H2 & _). simpl. by rewrite H1, H2.
Qed.
End store.

(** ** Witnesses *)

#[local] Instance sample_types : PreparationTypes := {|
  PreparationDeclarationError := unit; PreparationInputError := unit; ModuleError := unit;
  SceneBody := unit |}.

Definition sample_validate (scene : PreparationProjectionScene) (module_id : string)
    (layers : gmap Z f32) : result CommittedPreparationProjection ProjectionFault :=
  Ok {| cp_scene := scene; cp_owner_module_id := module_id; cp_diagnostic_bytes := 1;
        cp_layer_z := layers |}.

Definition sample_binding : FrozenPreparationBinding :=
  {| b_module_id := "m"; b_stage_id := "layer"; b_artifact_kind := "native";
     b_artifact_identity := 0; b_declaration := None |}.

Definition sample_owner : PreparationOwner := new_owner 0 0 sample_binding.
Definition sample_bytes : list byte := [x01; x02; x03].

Definition sample_world1 : World := (new_store (world sys_new)).1.
Definition sample_world2 : World := (create_owner sample_world1 0 sample_binding).1.
Definition sample_world3 : World := (begin sample_world2 0 0 sample_owner).1.
Definition sample_world4 : World := (put sample_world3 sample_owner "a" sample_bytes).1.
Definition sample_world5 : World := (finish_stage sample_world4 sample_owner).1.
Definition sample_world6 : World := (finish_publish sample_world5 sample_owner [("a", 3%Z)]).1.

(** A transaction under way, and the plan it publishes. *)
Definition sample_tx (w : World) : Sys :=
  {| world := w; known := [sample_owner]; txs := [sample_owner]; finishing := []; guards := [] |}.
Definition sample_plan : Sys :=
  {| world := sample_world6; known := [sample_owner]; txs := []; finishing := []; guards := [] |}.

Lemma sample_tx_reachable : reachable sample_validate (sample_tx sample_world3).
Proof.
  eapply reachable_step; [|eapply (step_begin _ {| world := sample_world2; known := [sample_owner];
    txs := []; finishing := []; guards := [] |} 0 0 sample_owner _ (Ok tt)); [left|reflexivity]].
  eapply reachable_step; [|eapply (step_create _ (with_world sys_new sample_world1) 0 sample_binding);
    reflexivity].
  eapply reachable_step; [constructor|]. by eapply (step_new_store _ sys_new).
Qed.

Lemma sample_put_reachable : reachable sample_validate (sample_tx sample_world4).
Proof.
  eapply reachable_step; [apply sample_tx_reachable|].
  eapply (step_put _ (sample_tx sample_world3) sample_owner "a" sample_bytes); [left|reflexivity].
Qed.

Lemma sample_plan_reachable : reachable sample_validate sample_plan.
Proof.
  eapply reachable_step; [|eapply (step_publish _ {| world := sample_world5; known := [sample_owner];
    txs := []; finishing := [(sample_owner, [("a", 3%Z)])]; guards := [] |} [] sample_owner
    [("a", 3%Z)] [] sample_world6 (Ok tt)); reflexivity].
  eapply reachable_step; [apply sample_put_reachable|].
  eapply (step_finish _ (sample_tx sample_world4) [] sample_owner []); reflexivity.
Qed.

Definition sample_store (w : World) : StoreState := default {| alive := false; disposed := true;
  next_owner := 0; owners := ∅ |} (stores w !! 0).
Definition sample_entry (w : World) : OwnerState :=
  default (new_entry sample_binding) (owners (sample_store w) !! 0%Z).

Lemma store_keeps_books_witness :
  m_retained_payload_bytes (metadata (sample_entry sample_world6)) = 3%Z /\
  entry_ok (sample_entry sample_world6).
Proof.
  split; [reflexivity|].
  exact (proj1 (proj1 (store_keeps_books sample_validate sample_plan sample_plan_reachable)
    0 (sample_store sample_world6) 0%Z (sample_entry sample_world6)
    ltac:(vm_compute; reflexivity) ltac:(vm_compute; reflexivity))).
Defined.

Lemma published_piece_reads_back_witness :
  exists st e piece,
    stores sample_world6 !! 0 = Some st /\ owners st !! 0%Z = Some e /\
    pieces e !! "a" = Some piece /\ exists w' r,
      read sample_world6 0 {| ph_owner := sample_owner; ph_id := 0; ph_len := 3 |} 1 2 = Some (w', r) /\
      match r with
      | Ok out =>
          (1 <= Z.of_nat (length (piece_bytes piece)))%Z /\
          out = take (Z.to_nat (Z.min 2 (Z.of_nat (length (piece_bytes piece)) - 1)))
                  (drop 1 (piece_bytes piece))
      | Err Transport.RangeError => (Z.of_nat (length (piece_bytes piece)) < 1)%Z
      | Err Transport.ArithmeticOverflow =>
          exists st' e', stores sample_world6 !! 0 = Some st' /\ owners st' !! 0%Z = Some e' /\
            ((u64_max <= active_reads e')%Z \/ counters_full e' 2)
      | Err Transport.AccessDenied =>
          forall st' e', stores sample_world6 !! 0 = Some st' -> alive st' = true ->
            owners st' !! 0%Z = Some e' ->
            disposed st' = true \/ m_phase (metadata e') = DisposedPhase
      | Err _ => False
      end.
Proof.
  refine (published_piece_reads_back sample_validate sample_plan sample_owner sample_world6
            {| ph_owner := sample_owner; ph_id := 0; ph_len := 3 |} "a" 0 1 2 sample_plan
            sample_plan_reachable _ _ _ _ _).
  - left.
  - reflexivity.
  - constructor.
  - lia.
  - lia.
Defined.

(** The read of the witness does return the bytes. *)
Example sample_read :
  match read sample_world6 0 {| ph_owner := sample_owner; ph_id := 0; ph_len := 3 |} 1 2 with
  | Some (_, r) => r = Ok [x02; x03]
  | None => False
  end.
Proof. vm_compute. reflexivity. Qed.

Lemma put_accepts_or_poisons_witness :
  (Ok tt : result unit Transport.t) = Ok tt <->
    writer_fault (sample_entry sample_world3) = None /\
    projection_failure (sample_entry sample_world3) = None /\
    put_fits (sample_entry sample_world3) "a" sample_bytes.
Proof.
  refine (proj1 (put_accepts_or_poisons sample_validate (sample_tx sample_world3) sample_owner
    (sample_store sample_world3) (sample_entry sample_world3) "a" sample_bytes sample_world4 (Ok tt)
    sample_tx_reachable _ _ _)).
  - left.
  - split_and!; vm_compute; reflexivity.
  - vm_compute. reflexivity.
Defined.

Lemma finish_all_or_nothing_witness :
  (Ok tt : result unit PreparationFailure) = Ok tt /\
  exists st' e', live_entry sample_world6 sample_owner st' e' /\
    sample_owner = sample_owner /\ m_phase (metadata e') = Ready /\
    pieces e' = pieces (sample_entry sample_world4) /\
    m_pieces (metadata e') = describe_pieces (sample_entry sample_world4) /\
    m_retained_payload_bytes (metadata e') = total_payload (pieces (sample_entry sample_world4)) /\
    m_retained_name_bytes (metadata e') = total_names (pieces (sample_entry sample_world4)).
Proof.
  split; [reflexivity|].
  refine (proj2 (finish_all_or_nothing sample_validate (sample_tx sample_world4) sample_owner
    (sample_store sample_world4) (sample_entry sample_world4) (Ok tt) (fun _ => Ok tt) sample_world6
    (Ok sample_owner) sample_put_reachable _ _ _)).
  - left.
  - split_and!; vm_compute; reflexivity.
  - vm_compute. reflexivity.
Defined.
