(* ===== verification/Planar.v ===== *)
(** Exact planar predicates of the diagnostic geometry
    ([slicer-wasm-host/src/preparation_projection.rs], from [point_bytes] down to
    [validate_polygon]).

    Coordinates are [i64] values in [Z]; the determinants are computed in [i128] with
    the checks of the code.  The second half states what the predicates decide, in
    terms of the points that segments contain: a rational point of the plane is
    [(X / k, Y / k)] with [0 < k], so every statement is about integers. *)
From stdpp Require Import prelude gmap list.
From S2P Require Import Prelude Ir Float32 PreparationStore.

#[local] Open Scope Z_scope.
#[local] Open Scope list_scope.

(** ** Data ([slicer-ir/src/slice_ir.rs]) *)

Record Point2 := Pt { px : Z; py : Z }.
#[export] Instance Point2_eq_dec : EqDecision Point2.
Proof. solve_decision. Defined.
#[export] Instance Point2_inhabited : Inhabited Point2 := populate (Pt 0 0).
#[export] Instance Point2_countable : Countable Point2.
Proof.
  by refine (inj_countable' (fun p => (px p, py p)) (fun q => Pt q.1 q.2) _); intros [].
Defined.

Record Polygon := { points : list Point2 }.
Record ExPolygon := { contour : Polygon; holes : list Polygon }.

(** ** Checked [i128] arithmetic *)

Definition i128_min : Z := -170141183460469231731687303715884105728.
Definition i128_max : Z := 170141183460469231731687303715884105727.

Definition in_range (lo hi v : Z) : option Z :=
  if (lo <=? v) && (v <=? hi) then Some v else None.

Definition checked_add_i128 (a b : Z) : option Z := in_range i128_min i128_max (a + b).
Definition checked_sub_i128 (a b : Z) : option Z := in_range i128_min i128_max (a - b).
Definition checked_mul_i128 (a b : Z) : option Z := in_range i128_min i128_max (a * b).
Definition checked_add_i64 (a b : Z) : option Z := in_range i64_min i64_max (a + b).
Definition checked_sub_i64 (a b : Z) : option Z := in_range i64_min i64_max (a - b).

Definition ok_or {A E} (o : option A) (e : E) : result A E :=
  match o with Some a => Ok a | None => Err e end.

(** [.ok_or(Error::InvalidCoordinate)]. *)
Definition coordinate (o : option Z) : result Z ProjectionError.t :=
  ok_or o ProjectionError.InvalidCoordinate.

(** ** The predicates *)

Definition cross (a b c : Point2) : result Z ProjectionError.t :=
  let sub (a b : Z) := coordinate (checked_sub_i128 a b) in
  let? bx := sub (px b) (px a) in
  let? cy := sub (py c) (py a) in
  let? x := coordinate (checked_mul_i128 bx cy) in
  let? by_ := sub (py b) (py a) in
  let? cx := sub (px c) (px a) in
  let? y := coordinate (checked_mul_i128 by_ cx) in
  coordinate (checked_sub_i128 x y).

Definition on_segment (a b p : Point2) : bool :=
  (Z.min (px a) (px b) <=? px p) && (px p <=? Z.max (px a) (px b)) &&
  (Z.min (py a) (py b) <=? py p) && (py p <=? Z.max (py a) (py b)).

Definition intersects (a b c d : Point2) : result bool ProjectionError.t :=
  let? ab_c := cross a b c in
  let? ab_d := cross a b d in
  let? cd_a := cross c d a in
  let? cd_b := cross c d b in
  Ok (((ab_c =? 0) && on_segment a b c) || ((ab_d =? 0) && on_segment a b d) ||
      ((cd_a =? 0) && on_segment c d a) || ((cd_b =? 0) && on_segment c d b) ||
      ((Z.sgn ab_c * Z.sgn ab_d <? 0) && (Z.sgn cd_a * Z.sgn cd_b <? 0))).

(** [zip] with the cycled list from its second element on. *)
Definition edges (points : list Point2) : list (Point2 * Point2) :=
  zip points (drop 1 points ++ take 1 points).

(** A [for] loop whose body leaves the function with an error or with [Ok(true)]. *)
Fixpoint any_of {A E} (f : A -> result bool E) (l : list A) : result bool E :=
  match l with
  | [] => Ok false
  | x :: l => let? found := f x in if found then Ok true else any_of f l
  end.

(** The check of [point] on the converted coordinates is an argument: it is
    [Projection.point]. *)
Section ring.
Context (point : Point2 -> result unit ProjectionError.t).

Definition invalid_shape : result unit ProjectionError.t := Err ProjectionError.InvalidShape.

(** First loop of [ring]: every point is finite and new. *)
Fixpoint ring_points (distinct : gset Point2) (points : list Point2)
    : result unit ProjectionError.t :=
  match points with
  | [] => Ok tt
  | p :: points =>
      let? _ := point p in
      if bool_decide (p ∈ distinct) then invalid_shape
      else ring_points ({[p]} ∪ distinct) points
  end.

(** Second loop of [ring]: the doubled signed area. *)
Fixpoint ring_area (area : Z) (es : list (Point2 * Point2)) : result Z ProjectionError.t :=
  match es with
  | [] => Ok area
  | (a, b) :: es =>
      let? x := coordinate (checked_mul_i128 (px a) (py b)) in
      let? y := coordinate (checked_mul_i128 (py a) (px b)) in
      let? term := coordinate (checked_sub_i128 x y) in
      let? area := coordinate (checked_add_i128 area term) in
      ring_area area es
  end.

(** Body of the third loop of [ring]: edge [i] against the next vertex and against
    every later edge that is not its neighbour. *)
Definition ring_edge (points : list Point2) (e : nat * (Point2 * Point2))
    : result unit ProjectionError.t :=
  let '(i, (a, b)) := e in
  let n := length points in
  let c := points !!! ((i + 2) `mod` n)%nat in
  let? turn := cross a b c in
  if (turn =? 0) && (on_segment a b c || on_segment b c a) then invalid_shape
  else
    for_each (fun '(j, (c, d)) =>
        if Nat.eqb j (i + 1) || (Nat.eqb i 0 && Nat.eqb j (n - 1)) then Ok tt
        else let? hit := intersects a b c d in if hit then invalid_shape else Ok tt)
      (drop (i + 1) (enumerate (edges points))).

Definition ring (points : list Point2) (ccw : bool) : result unit ProjectionError.t :=
  if Nat.ltb (length points) 3 then invalid_shape
  else
    let? _ := ring_points ∅ points in
    let? area := ring_area 0 (edges points) in
    let? _ := for_each (ring_edge points) (enumerate (edges points)) in
    if (area =? 0) || negb (Bool.eqb (0 <? area) ccw) then invalid_shape else Ok tt.

Definition rings_intersect (a b : list Point2) : result bool ProjectionError.t :=
  any_of (fun '(p, q) => any_of (fun '(c, d) => intersects p q c d) (edges b)) (edges a).

Fixpoint inside_loop (p : Point2) (winding : Z) (es : list (Point2 * Point2))
    : result bool ProjectionError.t :=
  match es with
  | [] => Ok (negb (winding =? 0))
  | (a, b) :: es =>
      let? side := cross a b p in
      if (side =? 0) && on_segment a b p then Ok false
      else
        let? winding :=
          if (py a <=? py p) && (py p <? py b) && (0 <? side)
          then coordinate (checked_add_i64 winding 1) else Ok winding in
        let? winding :=
          if (py p <? py a) && (py b <=? py p) && (side <? 0)
          then coordinate (checked_sub_i64 winding 1) else Ok winding in
        inside_loop p winding es
  end.

Definition strictly_inside (p : Point2) (polygon : list Point2) : result bool ProjectionError.t :=
  inside_loop p 0 (edges polygon).

(** Body of the inner loop of [validate_polygon]: [other] is an earlier hole. *)
Definition holes_apart (hole other : list Point2) : result unit ProjectionError.t :=
  let? crossing := rings_intersect other hole in
  let? bad := if crossing then Ok true
              else let? inner := strictly_inside (hole !!! 0%nat) other in
                   if inner then Ok true else strictly_inside (other !!! 0%nat) hole in
  if bad then invalid_shape else Ok tt.

Definition validate_polygon (polygon : ExPolygon) : result unit ProjectionError.t :=
  let contour := points (contour polygon) in
  let? _ := ring contour true in
  for_each (fun '(i, hole) =>
      let hole := points hole in
      let? _ := ring hole false in
      let? crossing := rings_intersect contour hole in
      let? bad := if crossing then Ok true
                  else let? inner := strictly_inside (hole !!! 0%nat) contour in Ok (negb inner) in
      if bad then invalid_shape
      else for_each (fun other => holes_apart hole (points other)) (take i (holes polygon)))
    (enumerate (holes polygon)).

End ring.

(** ** What segments contain *)

(** The point [(X / k, Y / k)] lies on the closed segment [ab]. *)
Definition segment_has (a b : Point2) (k X Y : Z) : Prop :=
  exists u, 0 <= u <= k /\ X = k * px a + u * (px b - px a) /\ Y = k * py a + u * (py b - py a).

Definition segments_meet (a b c d : Point2) : Prop :=
  exists k X Y, 0 < k /\ segment_has a b k X Y /\ segment_has c d k X Y.

(** The determinant without its checks. *)
Definition det (a b c : Point2) : Z :=
  (px b - px a) * (py c - py a) - (py b - py a) * (px c - px a).

Definition within (m : Z) (p : Point2) : Prop := Z.abs (px p) <= m /\ Z.abs (py p) <= m.

(** ** Bounds: when the checks pass *)

Lemma in_range_Some lo hi v : lo <= v <= hi -> in_range lo hi v = Some v.
Proof. intros H. unfold in_range. destruct (Z.leb_spec lo v), (Z.leb_spec v hi); simpl; auto; lia. Qed.

Lemma in_range_inv lo hi v r : in_range lo hi v = Some r -> r = v.
Proof. unfold in_range. case_match; congruence. Qed.

Lemma coordinate_inv o r : coordinate o = Ok r -> o = Some r.
Proof. destruct o; simpl; congruence. Qed.

Lemma result_bind_Ok {A B E} (m : result A E) (k : A -> result B E) b :
  result_bind m k = Ok b <-> exists a, m = Ok a /\ k a = Ok b.
Proof. destruct m; simpl; naive_solver. Qed.

(** Take a successful chain of checked operations apart. *)
Ltac unchain :=
  repeat match goal with
  | H : result_bind _ _ = Ok _ |- _ => apply result_bind_Ok in H as (? & ? & ?)
  | H : coordinate _ = Ok _ |- _ => apply coordinate_inv in H
  | H : in_range _ _ _ = Some _ |- _ => apply in_range_inv in H
  end.

Lemma cross_det a b c r : cross a b c = Ok r -> r = det a b c.
Proof.
  unfold cross, checked_sub_i128, checked_mul_i128, det. intros H. cbv zeta in H. unchain. by subst.
Qed.

Lemma cross_within m a b c :
  8 * (m * m) <= i128_max -> within m a -> within m b -> within m c -> cross a b c = Ok (det a b c).
Proof.
  intros Hm [Ha1 Ha2] [Hb1 Hb2] [Hc1 Hc2]. destruct a as [a1 a2], b as [b1 b2], c as [c1 c2].
  unfold cross, checked_sub_i128, checked_mul_i128, det; simpl in *.
  assert (forall s t, Z.abs s <= 2 * m -> Z.abs t <= 2 * m -> Z.abs (s * t) <= 4 * (m * m)) as Hmul.
  { intros s t Hs Ht. rewrite Z.abs_mul. nia. }
  pose proof (Hmul (b1 - a1) (c2 - a2) ltac:(lia) ltac:(lia)).
  pose proof (Hmul (b2 - a2) (c1 - a1) ltac:(lia) ltac:(lia)).
  assert (2 * m <= i128_max) by (unfold i128_max in *; nia).
  unfold i128_min, i128_max in *.
  rewrite !in_range_Some by lia. simpl. rewrite !in_range_Some by lia. simpl.
  by rewrite !in_range_Some by lia.
Qed.

(** ** One segment *)

Lemma on_segment_spec a b p :
  on_segment a b p = true <->
  Z.min (px a) (px b) <= px p <= Z.max (px a) (px b) /\
  Z.min (py a) (py b) <= py p <= Z.max (py a) (py b).
Proof. unfold on_segment. rewrite !andb_true_iff, !Z.leb_le. tauto. Qed.

Lemma between_scaled k u s t : 0 < k -> 0 <= u <= k -> k * t = u * s -> Z.min 0 s <= t <= Z.max 0 s.
Proof. intros Hk Hu He. split; nia. Qed.

(** A vertex on the line of a segment and in its box is on the segment. *)
Lemma on_line a b p :
  det a b p = 0 /\ on_segment a b p = true <->
  exists k, 0 < k /\ segment_has a b k (k * px p) (k * py p).
Proof.
  rewrite on_segment_spec. destruct a as [a1 a2], b as [b1 b2], p as [p1 p2].
  unfold det, segment_has; simpl. split.
  - intros [Hd [Hx Hy]].
    destruct (Z.lt_trichotomy a1 b1) as [H1 | [-> | H1]].
    + exists (b1 - a1). split; [lia |]. exists (p1 - a1). lia.
    + destruct (Z.lt_trichotomy a2 b2) as [H2 | [-> | H2]].
      * exists (b2 - a2). split; [lia |]. exists (p2 - a2). split; [lia |]. split; [|lia].
        replace p1 with b1 by lia. lia.
      * exists 1. split; [lia |]. exists 0. lia.
      * exists (a2 - b2). split; [lia |]. exists (a2 - p2). split; [lia |]. split; [|lia].
        replace p1 with b1 by lia. lia.
    + exists (a1 - b1). split; [lia |]. exists (a1 - p1). lia.
  - intros (k & Hk & u & Hu & HX & HY). split.
    { assert (k * (p1 - a1) = u * (b1 - a1)) as E1 by lia.
      assert (k * (p2 - a2) = u * (b2 - a2)) as E2 by lia.
      apply (Z.mul_reg_l _ _ k); [lia |].
      transitivity ((b1 - a1) * (k * (p2 - a2)) - (b2 - a2) * (k * (p1 - a1))); [ring |].
      rewrite E1, E2. ring. }
    pose proof (between_scaled k u (b1 - a1) (p1 - a1) Hk Hu ltac:(lia)).
    pose proof (between_scaled k u (b2 - a2) (p2 - a2) Hk Hu ltac:(lia)). lia.
Qed.

Lemma segment_start a b k : 0 <= k -> segment_has a b k (k * px a) (k * py a).
Proof. exists 0. lia. Qed.

Lemma segment_end a b k : 0 <= k -> segment_has a b k (k * px b) (k * py b).
Proof. exists k. lia. Qed.

Lemma vertex_meets a b p : 
  det a b p = 0 -> on_segment a b p = true ->
  exists k, 0 < k /\ segment_has a b k (k * px p) (k * py p).
Proof. intros. by apply on_line. Qed.

(** ** Two segments *)

Lemma segments_meet_sym a b c d : segments_meet a b c d -> segments_meet c d a b.
Proof. intros (k & X & Y & ? & ? & ?). exists k, X, Y. auto. Qed.

Lemma endpoint_meets a b c d :
  det a b c = 0 -> on_segment a b c = true -> segments_meet a b c d /\ segments_meet a b d c.
Proof.
  intros Hd Hs. destruct (vertex_meets a b c Hd Hs) as (k & Hk & H).
  split; exists k, (k * px c), (k * py c); (split; [done |]); (split; [done |]).
  - apply segment_start. lia.
  - apply segment_end. lia.
Qed.

(** A proper crossing: the ends of each segment are on different sides of the other. *)
Lemma crossing_meets a b c d :
  Z.sgn (det a b c) * Z.sgn (det a b d) < 0 -> Z.sgn (det c d a) * Z.sgn (det c d b) < 0 ->
  segments_meet a b c d.
Proof.
  intros H1 H2.
  assert (det a b c - det a b d = det c d b - det c d a) as HK
    by (unfold det; destruct a, b, c, d; simpl; ring).
  assert (forall s t : Z, Z.sgn s * Z.sgn t < 0 -> (s < 0 < t \/ t < 0 < s)) as Hsgn.
  { intros s t. destruct (Z.sgn_spec s) as [[? E] | [[? E] | [? E]]], (Z.sgn_spec t) as [[? F] | [[? F] | [? F]]];
      rewrite E, F; lia. }
  apply Hsgn in H1, H2. clear Hsgn.
  set (K := det a b c - det a b d) in *.
  assert (forall s, K * px a - s * det c d a * 0 = K * px a) as _ by lia.
  assert (K * px a + (- det c d a) * (px b - px a) = K * px c + det a b c * (px d - px c)) as Hx
    by (unfold K, det; destruct a, b, c, d; simpl; ring).
  assert (K * py a + (- det c d a) * (py b - py a) = K * py c + det a b c * (py d - py c)) as Hy
    by (unfold K, det; destruct a, b, c, d; simpl; ring).
  destruct (Z.lt_trichotomy K 0) as [HK0 | [HK0 | HK0]]; [| lia |].
  - exists (- K), (- K * px a + det c d a * (px b - px a)), (- K * py a + det c d a * (py b - py a)).
    split; [lia |]. split; [exists (det c d a) | exists (- det a b c)]; lia.
  - exists K, (K * px a + - det c d a * (px b - px a)), (K * py a + - det c d a * (py b - py a)).
    split; [lia |]. split; [exists (- det c d a) | exists (det a b c)]; lia.
Qed.

(** Four points on one line, measured along an axis on which both segments have a
    length: overlapping segments contain an end of one another. *)
Lemma collinear_overlap a1 a2 b1 b2 c1 c2 d1 d2 k u v :
  a1 <> b1 -> c1 <> d1 ->
  (b1 - a1) * (c2 - a2) = (b2 - a2) * (c1 - a1) -> (b1 - a1) * (d2 - a2) = (b2 - a2) * (d1 - a1) ->
  (d1 - c1) * (a2 - c2) = (d2 - c2) * (a1 - c1) -> (d1 - c1) * (b2 - c2) = (d2 - c2) * (b1 - c1) ->
  0 < k -> 0 <= u <= k -> 0 <= v <= k ->
  k * a1 + u * (b1 - a1) = k * c1 + v * (d1 - c1) ->
  let inside (s1 s2 t1 t2 p1 p2 : Z) :=
    Z.min s1 t1 <= p1 <= Z.max s1 t1 /\ Z.min s2 t2 <= p2 <= Z.max s2 t2 in
  inside a1 a2 b1 b2 c1 c2 \/ inside a1 a2 b1 b2 d1 d2 \/
  inside c1 c2 d1 d2 a1 a2 \/ inside c1 c2 d1 d2 b1 b2.
Proof.
  intros Hab Hcd Hc Hd Ha Hb Hk Hu Hv Hm inside.
  assert (forall s1 s2 t1 t2 p1 p2, s1 <> t1 -> (t1 - s1) * (p2 - s2) = (t2 - s2) * (p1 - s1) ->
    Z.min s1 t1 <= p1 <= Z.max s1 t1 -> inside s1 s2 t1 t2 p1 p2) as Hbox.
  { clear. intros s1 s2 t1 t2 p1 p2 Hst He Hp. split; [done |].
    destruct (Z.lt_ge_cases s1 t1).
    - pose proof (between_scaled (t1 - s1) (p1 - s1) (t2 - s2) (p2 - s2)). lia.
    - pose proof (between_scaled (s1 - t1) (s1 - p1) (t2 - s2) (p2 - s2)). lia. }
  assert (k * Z.min a1 b1 <= k * a1 + u * (b1 - a1) <= k * Z.max a1 b1) as H1.
  { destruct (Z.le_ge_cases a1 b1); [rewrite Z.min_l, Z.max_r | rewrite Z.min_r, Z.max_l]; nia. }
  assert (k * Z.min c1 d1 <= k * c1 + v * (d1 - c1) <= k * Z.max c1 d1) as H2.
  { destruct (Z.le_ge_cases c1 d1); [rewrite Z.min_l, Z.max_r | rewrite Z.min_r, Z.max_l]; nia. }
  assert (Z.min c1 d1 <= Z.max a1 b1) as H3 by (apply Z.mul_le_mono_pos_l with k; lia).
  assert (Z.min a1 b1 <= Z.max c1 d1) as H4 by (apply Z.mul_le_mono_pos_l with k; lia).
  assert ((Z.min a1 b1 <= c1 <= Z.max a1 b1) \/ (Z.min a1 b1 <= d1 <= Z.max a1 b1) \/
          (Z.min c1 d1 <= a1 <= Z.max c1 d1) \/ (Z.min c1 d1 <= b1 <= Z.max c1 d1)) as [|[|[|]]] by lia;
    auto 10.
Qed.

(** How the determinants of the ends relate to the parameters of a common point. *)
Lemma meeting_dets a b c d k u v :
  k * px a + u * (px b - px a) = k * px c + v * (px d - px c) ->
  k * py a + u * (py b - py a) = k * py c + v * (py d - py c) ->
  let D := (px b - px a) * (py d - py c) - (py b - py a) * (px d - px c) in
  k * det a b c = - v * D /\ k * det a b d = (k - v) * D /\
  k * det c d a = u * D /\ k * det c d b = (u - k) * D.
Proof.
  destruct a as [a1 a2], b as [b1 b2], c as [c1 c2], d as [d1 d2]. unfold det. simpl. intros HX HY.
  assert (k * (c1 - a1) = u * (b1 - a1) - v * (d1 - c1)) as E1 by lia.
  assert (k * (c2 - a2) = u * (b2 - a2) - v * (d2 - c2)) as E2 by lia.
  repeat split.
  - transitivity ((b1 - a1) * (k * (c2 - a2)) - (b2 - a2) * (k * (c1 - a1))); [ring |].
    rewrite E1, E2. ring.
  - transitivity ((b1 - a1) * (k * (c2 - a2) + k * (d2 - c2)) - (b2 - a2) * (k * (c1 - a1) + k * (d1 - c1)));
      [ring |].
    rewrite E1, E2. ring.
  - transitivity ((d2 - c2) * (k * (c1 - a1)) - (d1 - c1) * (k * (c2 - a2))); [ring |].
    rewrite E1, E2. ring.
  - transitivity ((d2 - c2) * (k * (c1 - a1) - k * (b1 - a1)) - (d1 - c1) * (k * (c2 - a2) - k * (b2 - a2)));
      [ring |].
    rewrite E1, E2. ring.
Qed.

(** An end of one of the segments is on the other. *)
Definition end_on_other (a b c d : Point2) : Prop :=
  (det a b c = 0 /\ on_segment a b c = true) \/ (det a b d = 0 /\ on_segment a b d = true) \/
  (det c d a = 0 /\ on_segment c d a = true) \/ (det c d b = 0 /\ on_segment c d b = true).

Lemma parallel_meet a b c d k u v :
  0 < k -> 0 <= u <= k -> 0 <= v <= k ->
  k * px a + u * (px b - px a) = k * px c + v * (px d - px c) ->
  k * py a + u * (py b - py a) = k * py c + v * (py d - py c) ->
  (px b - px a) * (py d - py c) - (py b - py a) * (px d - px c) = 0 ->
  end_on_other a b c d.
Proof.
  intros Hk Hu Hv HX HY HD. pose proof (meeting_dets a b c d k u v HX HY) as (H1 & H2 & H3 & H4).
  rewrite HD in *. assert (forall t z, k * t = z * 0 -> t = 0) as Hz by (clear -Hk; intros; nia).
  apply Hz in H1, H2, H3, H4. clear Hz.
  destruct (decide (a = b)) as [<- | Hab].
  { right; right; left. apply on_line. exists k. split; [done |]. exists v. lia. }
  destruct (decide (c = d)) as [<- | Hcd].
  { left. apply on_line. exists k. split; [done |]. exists u. lia. }
  unfold end_on_other. rewrite !on_segment_spec.
  destruct a as [a1 a2], b as [b1 b2], c as [c1 c2], d as [d1 d2]. unfold det in *. simpl in *.
  destruct (Z.eq_dec a1 b1) as [-> | Hx].
  - assert (a2 <> b2) as Hy by congruence.
    assert (c1 = d1) as -> by (clear -HD Hy; nia).
    assert (c2 <> d2) as Hy' by congruence.
    destruct (collinear_overlap a2 b1 b2 b1 c2 d1 d2 d1 k u v) as [|[|[|]]]; try tauto; lia.
  - assert (c1 <> d1) as Hx'.
    { intros ->. apply Hcd. f_equal. clear -HD Hx. nia. }
    destruct (collinear_overlap a1 a2 b1 b2 c1 c2 d1 d2 k u v) as [|[|[|]]]; try tauto; lia.
Qed.

Lemma sgn_opposite k s t : 0 < k -> k * s * (k * t) < 0 -> Z.sgn s * Z.sgn t < 0.
Proof.
  intros Hk H. rewrite <- Z.sgn_mul. apply Z.sgn_neg_iff. nia.
Qed.

Lemma meet_cases a b c d :
  segments_meet a b c d ->
  end_on_other a b c d \/
  (Z.sgn (det a b c) * Z.sgn (det a b d) < 0 /\ Z.sgn (det c d a) * Z.sgn (det c d b) < 0).
Proof.
  intros (k & X & Y & Hk & (u & Hu & -> & ->) & (v & Hv & HX & HY)).
  pose proof (meeting_dets a b c d k u v HX HY) as (H1 & H2 & H3 & H4). simpl in *.
  set (D := (px b - px a) * (py d - py c) - (py b - py a) * (px d - px c)) in *.
  destruct (Z.eq_dec D 0) as [HD | HD]; [left; by apply (parallel_meet a b c d k u v) |].
  destruct (Z.eq_dec u 0) as [-> | Hu0].
  { left. right; right; left. apply on_line. exists k. split; [done |]. exists v. lia. }
  destruct (Z.eq_dec u k) as [-> | Huk].
  { left. right; right; right. apply on_line. exists k. split; [done |]. exists v. lia. }
  destruct (Z.eq_dec v 0) as [-> | Hv0].
  { left. left. apply on_line. exists k. split; [done |]. exists u. lia. }
  destruct (Z.eq_dec v k) as [-> | Hvk].
  { left. right; left. apply on_line. exists k. split; [done |]. exists u. lia. }
  assert (0 < D * D) as HDD by nia.
  right. split; apply sgn_opposite with k; [done | | done |].
  - rewrite H1, H2. replace (- v * D * ((k - v) * D)) with (- (v * (k - v) * (D * D))) by ring.
    assert (0 < v * (k - v)) by (apply Z.mul_pos_pos; lia).
    assert (0 < v * (k - v) * (D * D)) by (by apply Z.mul_pos_pos). lia.
  - rewrite H3, H4. replace (u * D * ((u - k) * D)) with (- (u * (k - u) * (D * D))) by ring.
    assert (0 < u * (k - u)) by (apply Z.mul_pos_pos; lia).
    assert (0 < u * (k - u) * (D * D)) by (by apply Z.mul_pos_pos). lia.
Qed.

Lemma end_meets a b c d : end_on_other a b c d -> segments_meet a b c d.
Proof.
  intros [[H1 H2] | [[H1 H2] | [[H1 H2] | [H1 H2]]]].
  - by apply (endpoint_meets a b c d).
  - by apply (endpoint_meets a b d c).
  - apply segments_meet_sym. by apply (endpoint_meets c d a b).
  - apply segments_meet_sym. by apply (endpoint_meets c d b a).
Qed.

Lemma intersects_value a b c d r :
  intersects a b c d = Ok r -> (r = true <-> segments_meet a b c d).
Proof.
  unfold intersects. intros H. unchain.
  repeat match goal with Hc : cross _ _ _ = Ok _ |- _ => apply cross_det in Hc as -> end.
  simplify_eq. rewrite !orb_true_iff, !andb_true_iff, !Z.eqb_eq, !Z.ltb_lt. split.
  - intros [[[[H|H]|H]|H]|[H1 H2]]; [apply end_meets; unfold end_on_other; tauto .. |].
    by apply crossing_meets.
  - intros H. apply meet_cases in H as [H | H]; unfold end_on_other in *; tauto.
Qed.

Lemma intersects_ok m a b c d :
  8 * (m * m) <= i128_max -> within m a -> within m b -> within m c -> within m d ->
  exists r, intersects a b c d = Ok r.
Proof.
  intros Hm Ha Hb Hc Hd. unfold intersects.
  rewrite !(cross_within m) by done. simpl. eauto.
Qed.

(** [C36].  The segment intersection test is exact.  Whenever it answers, it answers
    [true] precisely if the two closed segments have a point in common, whatever the
    configuration: crossing, touching, overlapping, degenerate to points.  It answers
    for all coordinates up to [2^61] in size. *)
Theorem intersects_exact a b c d :
  (forall r, intersects a b c d = Ok r -> (r = true <-> segments_meet a b c d)) /\
  (Forall (within (2 ^ 61)) [a; b; c; d] -> exists r, intersects a b c d = Ok r).
Proof.
  split; [apply intersects_value |]. rewrite !Forall_cons. intros (? & ? & ? & ? & _).
  apply (intersects_ok (2 ^ 61)); [vm_compute; discriminate | done ..].
Qed.

(** ** Simple rings *)

(** The point [(X / k, Y / k)] is an end of both edges. *)
Definition common_end (e f : Point2 * Point2) (k X Y : Z) : Prop :=
  exists p, (p = e.1 \/ p = e.2) /\ (p = f.1 \/ p = f.2) /\ X = k * px p /\ Y = k * py p.

(** Two edges meet in common ends only. *)
Definition meet_at_ends (e f : Point2 * Point2) : Prop :=
  forall k X Y, 0 < k -> segment_has e.1 e.2 k X Y -> segment_has f.1 f.2 k X Y -> common_end e f k X Y.

(** Twice the signed area. *)
Definition area2 (es : list (Point2 * Point2)) : Z :=
  foldr (fun e s => px e.1 * py e.2 - py e.1 * px e.2 + s) 0 es.

(** A simple polygon with the given orientation: at least three vertices, all
    different, edges that meet only in the vertex they share, area of the right sign. *)
Record simple_ring (pts : list Point2) (ccw : bool) : Prop := {
  ring_size : (3 <= length pts)%nat;
  ring_distinct : NoDup pts;
  ring_meet : forall i j e f, (i < j)%nat -> edges pts !! i = Some e -> edges pts !! j = Some f ->
    meet_at_ends e f;
  ring_orientation : if ccw then 0 < area2 (edges pts) else area2 (edges pts) < 0
}.

Lemma meet_at_ends_sym e f : meet_at_ends e f -> meet_at_ends f e.
Proof.
  intros H k X Y Hk He Hf. destruct (H k X Y Hk Hf He) as (p & ? & ? & ?). exists p. tauto.
Qed.

Lemma meet_at_ends_apart e f :
  (forall p, (p = e.1 \/ p = e.2) -> (p = f.1 \/ p = f.2) -> False) ->
  meet_at_ends e f <-> ~ segments_meet e.1 e.2 f.1 f.2.
Proof.
  intros Hends. split.
  - intros H (k & X & Y & Hk & He & Hf). destruct (H k X Y Hk He Hf) as (p & ? & ? & _). by apply (Hends p).
  - intros H k X Y Hk He Hf. destruct H. by exists k, X, Y.
Qed.

Lemma scaled_point k p q : 0 < k -> k * px p = k * px q -> k * py p = k * py q -> p = q.
Proof.
  intros Hk Hx Hy. destruct p, q. simpl in *.
  apply Z.mul_reg_l in Hx, Hy; [|lia ..]. congruence.
Qed.

Lemma det_rotate a b c : det b c a = det a b c.
Proof. unfold det. destruct a, b, c; simpl; ring. Qed.

(** Two consecutive edges overlap exactly when the code says so. *)
Definition folds_back (a b c : Point2) : Prop :=
  det a b c = 0 /\ (on_segment a b c = true \/ on_segment b c a = true).

Lemma folds_back_overlap a b c : a <> b -> b <> c -> a <> c -> folds_back a b c -> ~ meet_at_ends (a, b) (b, c).
Proof.
  intros Hab Hbc Hac [Hd [Hs | Hs]] H.
  - destruct (vertex_meets a b c Hd Hs) as (k & Hk & Hc).
    destruct (H k _ _ Hk Hc (segment_end b c k ltac:(lia))) as (p & [-> | ->] & _ & Hx & Hy);
      apply scaled_point in Hy; simpl in *; congruence.
  - rewrite <- det_rotate in Hd. destruct (vertex_meets b c a Hd Hs) as (k & Hk & Ha).
    destruct (H k _ _ Hk (segment_start a b k ltac:(lia)) Ha) as (p & _ & [-> | ->] & Hx & Hy);
      apply scaled_point in Hy; simpl in *; congruence.
Qed.

Lemma consecutive_meet a b c :
  ~ folds_back a b c -> meet_at_ends (a, b) (b, c).
Proof.
  intros Hbad k X Y Hk (u & Hu & -> & ->) (v & Hv & HX & HY). simpl in *.
  destruct (Z.eq_dec v 0) as [-> | Hv0]; [exists b; simpl; split; [auto |]; split; [auto |]; lia |].
  destruct (Z.eq_dec u k) as [-> | Huk]; [exists b; simpl; split; [auto |]; split; [auto |]; lia |].
  exfalso. apply Hbad. split.
  - pose proof (meeting_dets a b b c k u v HX HY) as (H & _). simpl in H.
    replace (det a b b) with 0 in H by (unfold det; ring).
    assert ((px b - px a) * (py c - py b) - (py b - py a) * (px c - px b) = 0) as HD.
    { rewrite Z.mul_0_r in H. symmetry in H. apply Z.mul_eq_0 in H as [H | H]; [lia | done]. }
    rewrite <- HD. unfold det. ring.
  - rewrite !on_segment_spec.
    assert ((k - u) * (px a - px b) = v * (px c - px b)) as Ex by lia.
    assert ((k - u) * (py a - py b) = v * (py c - py b)) as Ey by lia.
    destruct (Z.le_ge_cases (k - u) v).
    + left. pose proof (between_scaled v (k - u) (px a - px b) (px c - px b)).
      pose proof (between_scaled v (k - u) (py a - py b) (py c - py b)). lia.
    + right. pose proof (between_scaled (k - u) v (px c - px b) (px a - px b)).
      pose proof (between_scaled (k - u) v (py c - py b) (py a - py b)). lia.
Qed.

(** ** The loops of [ring] *)

Lemma any_of_Ok {A E} (f : A -> result bool E) (P : A -> Prop) l :
  (forall x, x ∈ l -> exists r, f x = Ok r /\ (r = true <-> P x)) ->
  exists r, any_of f l = Ok r /\ (r = true <-> exists x, x ∈ l /\ P x).
Proof.
  induction l as [|x l IH]; simpl; intros Hl.
  { exists false. split; [done |]. split; [done |]. intros (x & Hx & _). by apply elem_of_nil in Hx. }
  destruct (Hl x (list_elem_of_here _ _)) as (r & -> & Hr). simpl. destruct r.
  - exists true. split; [done |]. split; [|done]. intros _. exists x.
    split; [apply list_elem_of_here | by apply Hr].
  - destruct IH as (r & -> & Hr'); [intros y Hy; apply Hl; by apply list_elem_of_further |].
    exists r. split; [done |]. rewrite Hr'. setoid_rewrite elem_of_cons. split.
    + intros (y & ? & ?). eauto.
    + intros (y & [-> | ?] & HP); [by apply Hr in HP | eauto].
Qed.

(** The outcomes of a check that cannot overflow. *)
Definition verdict (r : result unit ProjectionError.t) : Prop := r = Ok tt \/ r = invalid_shape.

Lemma for_each_verdict {A} (f : A -> result unit ProjectionError.t) l :
  (forall x, x ∈ l -> verdict (f x)) -> verdict (for_each f l).
Proof.
  unfold verdict. induction l as [|x l IH]; simpl; intros Hl; [auto |].
  destruct (Hl x (list_elem_of_here _ _)) as [-> | ->]; simpl; [|auto].
  apply IH. intros y Hy. apply Hl. by apply list_elem_of_further.
Qed.

Lemma edges_lookup pts i a b :
  edges pts !! i = Some (a, b) <->
  pts !! i = Some a /\ pts !! ((i + 1) `mod` length pts)%nat = Some b.
Proof.
  unfold edges. rewrite lookup_zip_Some. simpl.
  destruct pts as [|p pts]; [done |]. change (drop 1 (p :: pts)) with pts. simpl take.
  split; intros [Hi Hb]; (split; [done |]); apply lookup_lt_Some in Hi; simpl in Hi.
  - destruct (decide (i < length pts)%nat).
    + rewrite lookup_app_l in Hb by done. rewrite Nat.mod_small by (simpl; lia).
      by replace (i + 1)%nat with (S i) by lia.
    + assert (i = length pts) as -> by lia. rewrite lookup_app_r, Nat.sub_diag in Hb by lia.
      replace (length pts + 1)%nat with (length (p :: pts)) by (simpl; lia).
      by rewrite Nat.Div0.mod_same.
  - destruct (decide (i < length pts)%nat).
    + rewrite lookup_app_l by done. rewrite Nat.mod_small in Hb by (simpl; lia).
      by replace (i + 1)%nat with (S i) in Hb by lia.
    + assert (i = length pts) as -> by lia. rewrite lookup_app_r, Nat.sub_diag by lia.
      replace (length pts + 1)%nat with (length (p :: pts)) in Hb by (simpl; lia).
      by rewrite Nat.Div0.mod_same in Hb.
Qed.

Lemma length_edges pts : length (edges pts) = length pts.
Proof.
  unfold edges. rewrite length_zip_with, length_app, length_drop, length_take. lia.
Qed.

Lemma elem_of_edges pts a b : (a, b) ∈ edges pts -> a ∈ pts /\ b ∈ pts.
Proof.
  rewrite list_elem_of_lookup. intros [i H]. apply edges_lookup in H as [Ha Hb].
  split; by eapply list_elem_of_lookup_2.
Qed.

Section verdicts.
Context (point : Point2 -> result unit ProjectionError.t).

Lemma ring_points_spec distinct pts :
  Forall (fun p => point p = Ok tt) pts ->
  verdict (ring_points point distinct pts) /\
  (ring_points point distinct pts = Ok tt <-> NoDup pts /\ forall p, p ∈ pts -> p ∉ distinct).
Proof.
  intros Hp. revert distinct. induction Hp as [|p pts Hp _ IH]; intros distinct; simpl.
  { split; [by left |]. split; [|done]. intros _. split; [constructor | set_solver]. }
  rewrite Hp. simpl. case_bool_decide as Hd.
  { split; [by right |]. split; [done |]. intros [_ H]. destruct (H p); [set_solver | done]. }
  destruct (IH ({[p]} ∪ distinct)) as [Hv ->]. split; [done |]. rewrite NoDup_cons.
  setoid_rewrite elem_of_cons. split.
  - intros [Hnd H]. split; [split; [|done] |].
    + intros Hin. apply (H p Hin). set_solver.
    + intros q [-> | Hq]; [done |]. specialize (H q Hq). set_solver.
  - intros [[Hn Hnd] H]. split; [done |]. intros q Hq. specialize (H q).
    assert (q <> p) by (intros ->; done). set_solver.
Qed.

Lemma ring_area_spec m area es :
  0 <= m -> Forall (fun e => within m e.1 /\ within m e.2) es ->
  Z.abs area + Z.of_nat (length es) * (2 * (m * m)) <= i128_max ->
  ring_area area es = Ok (area + area2 es).
Proof.
  intros Hm. revert area. induction es as [|[a b] es IH]; intros area Hes Hb; simpl.
  { by rewrite Z.add_0_r. }
  apply Forall_cons in Hes as [[[Ha1 Ha2] [Hb1 Hb2]] Hes]. simpl in *.
  assert (forall s t, Z.abs s <= m -> Z.abs t <= m -> Z.abs (s * t) <= m * m) as Hmul.
  { intros s t Hs Ht. rewrite Z.abs_mul. apply Z.mul_le_mono_nonneg; lia. }
  pose proof (Hmul (px a) (py b) Ha1 Hb2). pose proof (Hmul (py a) (px b) Ha2 Hb1).
  rewrite Nat2Z.inj_succ, Z.mul_succ_l in Hb.
  assert (0 <= Z.of_nat (length es) * (2 * (m * m))) by (apply Z.mul_nonneg_nonneg; lia).
  unfold checked_mul_i128, checked_sub_i128, checked_add_i128, i128_min, i128_max in *.
  rewrite in_range_Some by lia. simpl. rewrite in_range_Some by lia. simpl.
  rewrite in_range_Some by lia. simpl. rewrite in_range_Some by lia. simpl.
  rewrite IH; [f_equal; lia | done | lia].
Qed.

(** What the third loop asks of one edge. *)
Lemma ring_edge_spec m pts i a b c :
  8 * (m * m) <= i128_max -> Forall (within m) pts ->
  edges pts !! i = Some (a, b) -> pts !!! ((i + 2) `mod` length pts)%nat = c -> c ∈ pts ->
  verdict (ring_edge pts (i, (a, b))) /\
  (ring_edge pts (i, (a, b)) = Ok tt <->
   ~ folds_back a b c /\
   forall j f, (i < j)%nat -> edges pts !! j = Some f -> j <> (i + 1)%nat ->
     ~ (i = 0 /\ j = length pts - 1)%nat -> ~ segments_meet a b f.1 f.2).
Proof.
  intros Hm Hpts He Hc Hcin. unfold ring_edge. rewrite Hc.
  rewrite Forall_forall in Hpts.
  assert (a ∈ pts /\ b ∈ pts) as [Ha Hb] by (eapply elem_of_edges, list_elem_of_lookup_2; done).
  rewrite (cross_within m) by auto. simpl.
  assert ((det a b c =? 0) && (on_segment a b c || on_segment b c a) = true <-> folds_back a b c) as Hfold.
  { unfold folds_back. rewrite andb_true_iff, orb_true_iff, Z.eqb_eq. tauto. }
  destruct ((det a b c =? 0) && (on_segment a b c || on_segment b c a)).
  { split; [by right |]. split; [done |]. intros [Hn _]. destruct Hn. by apply Hfold. }
  assert (~ folds_back a b c) as Hn by (rewrite <- Hfold; done). clear Hfold.
  set (body := fun '(j, (c, d)) => _).
  assert (forall j f, edges pts !! j = Some f ->
    verdict (body (j, f)) /\
    (body (j, f) = Ok tt <-> (j <> (i + 1)%nat -> ~ (i = 0 /\ j = length pts - 1)%nat ->
                              ~ segments_meet a b f.1 f.2))) as Hbody.
  { intros j [s t] Hj. unfold body.
    assert (s ∈ pts /\ t ∈ pts) as [Hs Ht] by (eapply elem_of_edges, list_elem_of_lookup_2; done).
    assert (Nat.eqb j (i + 1) || (Nat.eqb i 0 && Nat.eqb j (length pts - 1)) = true <->
            j = (i + 1)%nat \/ (i = 0 /\ j = length pts - 1)%nat) as Hskip.
    { rewrite orb_true_iff, andb_true_iff, !Nat.eqb_eq. done. }
    destruct (Nat.eqb j (i + 1) || (Nat.eqb i 0 && Nat.eqb j (length pts - 1))).
    { split; [by left |]. split; [|done]. intros _ H1 H2. destruct Hskip as [Hskip _].
      destruct (Hskip eq_refl); tauto. }
    destruct (intersects_ok m a b s t) as [r Hr]; [auto .. |].
    pose proof (intersects_value _ _ _ _ _ Hr) as Hv. rewrite Hr. simpl. unfold verdict.
    destruct r.
    - split; [auto |]. split; [done |]. intros H.
      destruct H; [naive_solver | naive_solver |]. by apply Hv.
    - split; [auto |]. split; [|done]. intros _ _ _ H. by apply Hv in H. }
  split.
  - apply for_each_verdict. intros [j f] Hj. apply elem_of_enumerate_drop in Hj as [_ Hj]. by apply Hbody.
  - rewrite for_each_Ok. split.
    + intros H. split; [done |]. intros j f Hij Hj. apply Hbody; [done |]. apply H.
      apply elem_of_enumerate_drop. split; [lia | done].
    + intros [_ H] [j f] Hj. apply elem_of_enumerate_drop in Hj as [Hij Hj].
      apply Hbody; [done |]. apply H; [lia | done].
Qed.

(** The vertices of edges [i] and [i + 1] around the ring. *)
Lemma next_edge pts i a b :
  (3 <= length pts)%nat -> NoDup pts -> edges pts !! i = Some (a, b) ->
  exists c, pts !!! ((i + 2) `mod` length pts)%nat = c /\ c ∈ pts /\
    a <> b /\ b <> c /\ a <> c /\
    edges pts !! ((i + 1) `mod` length pts)%nat = Some (b, c).
Proof.
  intros Hn Hnd He. apply edges_lookup in He as [Ha Hb].
  pose proof (lookup_lt_Some _ _ _ Ha) as Hi. set (n := length pts) in *.
  assert ((i + 2) `mod` n < n)%nat as Hlt by (apply Nat.mod_upper_bound; lia).
  destruct (lookup_lt_is_Some_2 pts _ Hlt) as [c Hc]. exists c.
  assert (((i + 1) `mod` n + 1) `mod` n = (i + 2) `mod` n)%nat as Hmod.
  { rewrite Nat.Div0.add_mod_idemp_l. f_equal. lia. }
  assert ((i + 1) `mod` n = i + 1 \/ (i + 1 = n /\ (i + 1) `mod` n = 0))%nat as H1.
  { destruct (decide (i + 1 = n)%nat) as [-> |]; [right; by rewrite Nat.Div0.mod_same |].
    left. apply Nat.mod_small. lia. }
  assert ((i + 2) `mod` n = i + 2 \/ (i + 2 = n /\ (i + 2) `mod` n = 0) \/
          (i + 2 = 1 + n /\ (i + 2) `mod` n = 1))%nat as H2.
  { destruct (decide (i + 2 = n)%nat) as [-> |]; [right; left; by rewrite Nat.Div0.mod_same |].
    destruct (decide (i + 2 = 1 + n)%nat) as [E |].
    - right; right. rewrite E. split; [done |].
      rewrite <- Nat.Div0.add_mod_idemp_r, Nat.Div0.mod_same. apply Nat.mod_small. lia.
    - left. apply Nat.mod_small. lia. }
  split; [by apply list_lookup_total_correct |]. split; [by eapply list_elem_of_lookup_2 |].
  assert (forall s t p q, pts !! s = Some p -> pts !! t = Some q -> s <> t -> p <> q) as Hne.
  { intros s t p q Hs Ht Hst ->. apply Hst. by eapply NoDup_lookup. }
  split; [eapply Hne; [exact Ha | exact Hb | lia] |].
  split; [eapply Hne; [exact Hb | exact Hc | lia] |].
  split; [eapply Hne; [exact Ha | exact Hc | lia] |].
  apply edges_lookup. split; [done |]. by fold n; rewrite Hmod.
Qed.

Lemma distant_edges_apart pts i j e f :
  NoDup pts -> (i < j)%nat -> edges pts !! i = Some e -> edges pts !! j = Some f ->
  j <> (i + 1)%nat -> ~ (i = 0 /\ j = length pts - 1)%nat ->
  forall p, (p = e.1 \/ p = e.2) -> (p = f.1 \/ p = f.2) -> False.
Proof.
  intros Hnd Hij He Hf Hj Hij' p. destruct e as [a b], f as [c d].
  apply edges_lookup in He as [Ha Hb], Hf as [Hc Hd]. simpl.
  pose proof (lookup_lt_Some _ _ _ Hc) as Hlt. set (n := length pts) in *.
  rewrite Nat.mod_small in Hb by lia.
  assert ((j + 1) `mod` n = j + 1 \/ (j + 1 = n /\ (j + 1) `mod` n = 0))%nat as H1.
  { destruct (decide (j + 1 = n)%nat) as [-> |]; [right; by rewrite Nat.Div0.mod_same |].
    left. apply Nat.mod_small. lia. }
  assert (forall s t q, pts !! s = Some q -> pts !! t = Some q -> s = t) as Hinj
    by (intros; by eapply NoDup_lookup).
  intros [-> | ->] [-> | ->]; [pose proof (Hinj _ _ _ Ha Hc) | pose proof (Hinj _ _ _ Ha Hd) |
    pose proof (Hinj _ _ _ Hb Hc) | pose proof (Hinj _ _ _ Hb Hd)]; lia.
Qed.

Lemma ring_edges_spec m pts :
  8 * (m * m) <= i128_max -> Forall (within m) pts -> (3 <= length pts)%nat -> NoDup pts ->
  verdict (for_each (ring_edge pts) (enumerate (edges pts))) /\
  (for_each (ring_edge pts) (enumerate (edges pts)) = Ok tt <->
   forall i j e f, (i < j)%nat -> edges pts !! i = Some e -> edges pts !! j = Some f -> meet_at_ends e f).
Proof.
  intros Hm Hpts Hn Hnd. split.
  { apply for_each_verdict. intros [i [a b]] He. apply elem_of_enumerate in He.
    destruct (next_edge pts i a b Hn Hnd He) as (c & Hc & Hin & _).
    by apply (ring_edge_spec m pts i a b c). }
  rewrite for_each_Ok. split.
  - intros H i j [a b] [c d] Hij He Hf.
    assert (forall s e, edges pts !! s = Some e -> ring_edge pts (s, e) = Ok tt) as Hok
      by (intros; by apply H, elem_of_enumerate).
    assert (forall s a b t, edges pts !! s = Some (a, b) -> t = ((s + 1) `mod` length pts)%nat ->
      exists c, edges pts !! t = Some (b, c) /\ meet_at_ends (a, b) (b, c)) as Hnext.
    { intros s a' b' t Hs ->. destruct (next_edge pts s a' b' Hn Hnd Hs) as (c' & Hc & Hin & _ & _ & _ & Hnx).
      exists c'. split; [done |]. apply consecutive_meet.
      by apply (ring_edge_spec m pts s a' b' c'), Hok. }
    pose proof (lookup_lt_Some _ _ _ Hf) as Hlt. rewrite length_edges in Hlt.
    destruct (decide (j = i + 1)%nat) as [-> | Hj].
    { destruct (Hnext i a b (i + 1)%nat) as (c' & Hc & Hmeet); [done | rewrite Nat.mod_small; lia |].
      by rewrite Hf in Hc; simplify_eq. }
    destruct (decide (i = 0 /\ j = length pts - 1)%nat) as [[-> ->] | Hw].
    { destruct (Hnext (length pts - 1)%nat c d 0%nat) as (c' & Hc & Hmeet); [done | |].
      - replace (length pts - 1 + 1)%nat with (length pts) by lia. by rewrite Nat.Div0.mod_same.
      - rewrite He in Hc. simplify_eq. by apply meet_at_ends_sym. }
    apply meet_at_ends_apart; [by apply (distant_edges_apart pts i j) |].
    destruct (next_edge pts i a b Hn Hnd He) as (c' & Hc & Hin & _).
    destruct (ring_edge_spec m pts i a b c' Hm Hpts He Hc Hin) as [_ Hspec].
    by apply (proj1 Hspec (Hok _ _ He)) with j.
  - intros H [i [a b]] He. apply elem_of_enumerate in He.
    destruct (next_edge pts i a b Hn Hnd He) as (c & Hc & Hin & Hab & Hbc & Hac & Hnx).
    apply (ring_edge_spec m pts i a b c); [done .. |]. split.
    + intros Hbad. apply (folds_back_overlap a b c Hab Hbc Hac Hbad).
      pose proof (lookup_lt_Some _ _ _ He) as Hi. rewrite length_edges in Hi.
      destruct (decide (i + 1 = length pts)%nat) as [E |].
      * rewrite E, Nat.Div0.mod_same in Hnx. apply meet_at_ends_sym.
        apply (H 0%nat i); [lia | done | done].
      * rewrite Nat.mod_small in Hnx by lia. apply (H i (i + 1)%nat); [lia | done | done].
    + intros j f Hij Hf Hj Hw.
      apply (meet_at_ends_apart (a, b) f); [by apply (distant_edges_apart pts i j) | by apply (H i j)].
Qed.

(** Points for which the predicates of a ring cannot overflow. *)
Definition printable (pts : list Point2) : Prop :=
  Forall (within (2 ^ 31)) pts /\ Z.of_nat (length pts) <= 2 ^ 62 /\ Forall (fun p => point p = Ok tt) pts.
Lemma printable_det : 8 * (2 ^ 31 * 2 ^ 31) <= i128_max.
Proof. by vm_compute. Qed.

Lemma ring_verdict pts ccw :
  printable pts ->
  verdict (ring point pts ccw) /\ (ring point pts ccw = Ok tt <-> simple_ring pts ccw).
Proof.
  intros (Hb & Hlen & Hp). unfold ring. destruct (Nat.ltb_spec (length pts) 3) as [Hn | Hn].
  { split; [by right |]. split; [done |]. intros []. lia. }
  destruct (ring_points_spec ∅ pts Hp) as [[Hv | Hv] Hd]; rewrite Hv in *; simpl.
  2: { split; [by right |]. split; [done |]. intros []. destruct Hd as [_ Hd]. exfalso.
       discriminate Hd. split; [done |]. set_solver. }
  assert (NoDup pts) as Hnd by (by apply Hd). clear Hd Hv.
  rewrite (ring_area_spec (2 ^ 31)); simpl.
  2: done.
  2: { apply Forall_forall. intros [a b] He. apply elem_of_edges in He as [Ha Hb'].
       rewrite Forall_forall in Hb. simpl. auto. }
  2: { rewrite length_edges. unfold i128_max. lia. }
  destruct (ring_edges_spec (2 ^ 31) pts printable_det Hb Hn Hnd) as [[Hv | Hv] Hmeet]; rewrite Hv in *; simpl.
  2: { split; [by right |]. split; [done |]. intros []. by apply Hmeet. }
  rewrite Z.add_0_l. unfold verdict, invalid_shape in *.
  destruct (Z.eqb_spec (area2 (edges pts)) 0) as [Ha | Ha]; simpl.
  { split; [by right |]. split; [done |]. intros [_ _ _ Ho]. destruct ccw; lia. }
  destruct (Z.ltb_spec 0 (area2 (edges pts))), ccw; simpl.
  - split; [by left |]. split; [|done]. intros _. split; [done .. | by apply Hmeet | done].
  - split; [by right |]. split; [done |]. intros [_ _ _ Ho]. lia.
  - split; [by right |]. split; [done |]. intros [_ _ _ Ho]. lia.
  - split; [by left |]. split; [|done]. intros _. split; [done .. | by apply Hmeet | lia].
Qed.

(** ** Point in ring *)

Definition ray_meets (p a b : Point2) : Prop :=
  exists k u, 0 < k /\ 0 <= u <= k /\ k * py p = k * py a + u * (py b - py a) /\
    k * px p < k * px a + u * (px b - px a).

(** [w] is the winding number of the edges around [p]: the edges that cross the ray
    from [p] in the direction of growing [x] upwards less those that cross it downwards. *)
Inductive winds (p : Point2) : list (Point2 * Point2) -> Z -> Prop :=
| winds_nil : winds p [] 0
| winds_up a b es w :
    py a <= py p < py b -> ray_meets p a b -> winds p es w -> winds p ((a, b) :: es) (w + 1)
| winds_down a b es w :
    py b <= py p < py a -> ray_meets p a b -> winds p es w -> winds p ((a, b) :: es) (w - 1)
| winds_past a b es w :
    ~ ((py a <= py p < py b \/ py b <= py p < py a) /\ ray_meets p a b) ->
    winds p es w -> winds p ((a, b) :: es) w.

Definition on_edge (p : Point2) (e : Point2 * Point2) : Prop :=
  exists k, 0 < k /\ segment_has e.1 e.2 k (k * px p) (k * py p).

(** [p] is inside the ring: on none of its edges, and the ring winds around it. *)
Definition encloses (pts : list Point2) (p : Point2) : Prop :=
  (forall e, e ∈ edges pts -> ~ on_edge p e) /\ exists w, winds p (edges pts) w /\ w <> 0.

Definition rings_apart (r s : list Point2) : Prop :=
  forall e f, e ∈ edges r -> f ∈ edges s -> ~ segments_meet e.1 e.2 f.1 f.2.

(** A polygon with holes: a simple contour and simple holes of the other orientation,
    pairwise without common points; every hole starts inside the contour and no hole
    starts inside another. *)
Record valid_polygon (polygon : ExPolygon) : Prop := {
  polygon_contour : simple_ring (points (contour polygon)) true;
  polygon_holes : forall h, h ∈ holes polygon -> simple_ring (points h) false;
  polygon_inside : forall h p, h ∈ holes polygon -> points h !! 0%nat = Some p ->
    rings_apart (points (contour polygon)) (points h) /\ encloses (points (contour polygon)) p;
  polygon_apart : forall i j g h p q, (i < j)%nat ->
    holes polygon !! i = Some g -> holes polygon !! j = Some h ->
    points g !! 0%nat = Some p -> points h !! 0%nat = Some q ->
    rings_apart (points g) (points h) /\ ~ encloses (points g) q /\ ~ encloses (points h) p
}.

Lemma ray_up p a b : py a <= py p < py b -> ray_meets p a b <-> 0 < det a b p.
Proof.
  intros Hy. unfold det. split.
  - intros (k & u & Hk & Hu & HY & HX).
    assert (k * ((px b - px a) * (py p - py a) - (py b - py a) * (px p - px a)) =
            (py b - py a) * (u * (px b - px a) - k * (px p - px a))) as E.
    { transitivity ((px b - px a) * (k * py p - k * py a) - k * (py b - py a) * (px p - px a)); [ring |].
      rewrite HY. ring. }
    apply (Z.mul_pos_cancel_l k); [done |]. rewrite E. apply Z.mul_pos_pos; lia.
  - intros H. exists (py b - py a), (py p - py a). lia.
Qed.

Lemma ray_down p a b : py b <= py p < py a -> ray_meets p a b <-> det a b p < 0.
Proof.
  intros Hy. unfold det. split.
  - intros (k & u & Hk & Hu & HY & HX).
    assert (k * ((px b - px a) * (py p - py a) - (py b - py a) * (px p - px a)) =
            - ((py a - py b) * (u * (px b - px a) - k * (px p - px a)))) as E.
    { transitivity ((px b - px a) * (k * py p - k * py a) - k * (py b - py a) * (px p - px a)); [ring |].
      rewrite HY. ring. }
    apply Z.opp_pos_neg, (Z.mul_pos_cancel_l k); [done |]. rewrite Z.mul_opp_r, E.
    assert (0 < (py a - py b) * (u * (px b - px a) - k * (px p - px a))) by (apply Z.mul_pos_pos; lia). lia.
  - intros H. exists (py a - py b), (py a - py p). lia.
Qed.

(** What one edge adds, as the code decides it. *)
Definition turn (p : Point2) (e : Point2 * Point2) : Z :=
  if (py e.1 <=? py p) && (py p <? py e.2) && (0 <? det e.1 e.2 p) then 1
  else if (py p <? py e.1) && (py e.2 <=? py p) && (det e.1 e.2 p <? 0) then -1 else 0.

Lemma winds_turns p es w : winds p es w <-> w = foldr (fun e s => turn p e + s) 0 es.
Proof.
  assert (forall a b, py a <= py p < py b -> ray_meets p a b -> turn p (a, b) = 1) as Hup.
  { intros a b Hy Hr. apply ray_up in Hr; [|done]. unfold turn. simpl.
    by rewrite (proj2 (Z.leb_le _ _)), !(proj2 (Z.ltb_lt _ _)) by lia. }
  assert (forall a b, py b <= py p < py a -> ray_meets p a b -> turn p (a, b) = -1) as Hdown.
  { intros a b Hy Hr. apply ray_down in Hr; [|done]. unfold turn. simpl.
    rewrite (proj2 (Z.leb_gt (py a) (py p))) by lia. simpl.
    by rewrite (proj2 (Z.leb_le _ _)), !(proj2 (Z.ltb_lt _ _)) by lia. }
  assert (forall a b, ~ ((py a <= py p < py b \/ py b <= py p < py a) /\ ray_meets p a b) ->
            turn p (a, b) = 0) as Hpast.
  { intros a b Hn. unfold turn. simpl.
    destruct (_ && (0 <? _)) eqn:E1; [|destruct (_ && (_ <? 0)) eqn:E2; [|done]]; exfalso; apply Hn;
      rewrite !andb_true_iff in *; rewrite ?Z.leb_le, ?Z.ltb_lt in *; (split; [lia |]);
      [apply ray_up | apply ray_down]; lia. }
  split.
  - induction 1 as [|a b es w Hy Hr _ IH|a b es w Hy Hr _ IH|a b es w Hn _ IH]; simpl; [done | ..];
      [rewrite Hup by done | rewrite Hdown by done | rewrite Hpast by done]; lia.
  - intros ->. induction es as [|[a b] es IH]; simpl; [constructor |].
    destruct (decide (0 < turn p (a, b))) as [H1 | H1]; [|destruct (decide (turn p (a, b) < 0)) as [H2 | H2]].
    + assert (py a <= py p < py b /\ 0 < det a b p) as [Hy Hd].
      { revert H1. unfold turn. simpl. destruct (_ && (0 <? _)) eqn:E1; [|case_match; done].
        rewrite !andb_true_iff, Z.leb_le, !Z.ltb_lt in E1. lia. }
      apply ray_up in Hd; [|done]. rewrite Hup by done. rewrite Z.add_comm. by constructor.
    + assert (py b <= py p < py a /\ det a b p < 0) as [Hy Hd].
      { revert H2. unfold turn. simpl. destruct (_ && (0 <? _)) eqn:E1; [done |].
        destruct (_ && (_ <? 0)) eqn:E2; [|done].
        rewrite !andb_true_iff, Z.leb_le, !Z.ltb_lt in E2. lia. }
      apply ray_down in Hd; [|done]. rewrite Hdown by done.
      replace (-1 + foldr (fun e s => turn p e + s) 0 es) with (foldr (fun e s => turn p e + s) 0 es - 1) by lia.
      by constructor.
    + replace (turn p (a, b)) with 0 by lia. apply winds_past; [|done].
      intros [[Hy | Hy] Hr]; [rewrite Hup in H1 by done | rewrite Hdown in H2 by done]; lia.
Qed.

Lemma on_edge_spec p a b : on_edge p (a, b) <-> (det a b p =? 0) && on_segment a b p = true.
Proof. rewrite andb_true_iff, Z.eqb_eq, on_line. done. Qed.

Lemma inside_loop_spec m p w0 es :
  8 * (m * m) <= i128_max -> within m p -> Forall (fun e => within m e.1 /\ within m e.2) es ->
  Z.abs w0 + Z.of_nat (length es) <= i64_max ->
  exists r, inside_loop p w0 es = Ok r /\
    (r = true <-> (forall e, e ∈ es -> ~ on_edge p e) /\
                  w0 + foldr (fun e s => turn p e + s) 0 es <> 0).
Proof.
  intros Hm Hp. revert w0. induction es as [|[a b] es IH]; intros w0 Hes Hlen; simpl.
  { exists (negb (w0 =? 0)). split; [done |]. rewrite Z.add_0_r, negb_true_iff, Z.eqb_neq.
    split; [|tauto]. intros H. split; [|done]. intros e He. by apply elem_of_nil in He. }
  apply Forall_cons in Hes as [[Ha Hb] Hes]. simpl in *.
  rewrite (cross_within m) by done. simpl.
  pose proof (on_edge_spec p a b) as Hon. destruct ((det a b p =? 0) && on_segment a b p).
  { exists false. split; [done |]. split; [done |]. intros [H _].
    destruct (H (a, b)); [apply list_elem_of_here | by apply Hon]. }
  assert (exists w, w = w0 + turn p (a, b) /\
    (let? winding := (if (py a <=? py p) && (py p <? py b) && (0 <? det a b p)
                      then coordinate (checked_add_i64 w0 1) else Ok w0) in
     let? winding := (if (py p <? py a) && (py b <=? py p) && (det a b p <? 0)
                      then coordinate (checked_sub_i64 winding 1) else Ok winding) in
     inside_loop p winding es) = inside_loop p w es) as (w & Hw & ->).
  { unfold turn; simpl. unfold checked_add_i64, checked_sub_i64, i64_min, i64_max in *.
    destruct ((py a <=? py p) && (py p <? py b) && (0 <? det a b p)) eqn:E1.
    - rewrite in_range_Some by lia. simpl. exists (w0 + 1). split; [done |].
      rewrite !andb_true_iff, Z.leb_le, !Z.ltb_lt in E1.
      by rewrite (proj2 (Z.ltb_ge (py p) (py a))) by lia.
    - simpl. destruct ((py p <? py a) && (py b <=? py p) && (det a b p <? 0)).
      + rewrite in_range_Some by lia. simpl. exists (w0 - 1). split; [lia | done].
      + simpl. exists w0. split; [lia | done]. }
  destruct (IH w Hes) as (r & Hr & Hiff).
  { subst w. unfold turn. simpl. repeat case_match; lia. }
  exists r. split; [done |]. rewrite Hiff. subst w. rewrite <- Z.add_assoc.
  setoid_rewrite elem_of_cons. split; intros [H1 H2]; (split; [|done]).
  - intros e [-> | He]; [|by apply H1]. rewrite Hon. done.
  - intros e He. apply H1. by right.
Qed.

Lemma within_edges m pts : Forall (within m) pts -> Forall (fun e => within m e.1 /\ within m e.2) (edges pts).
Proof.
  rewrite !Forall_forall. intros H [a b] He. apply elem_of_edges in He as [? ?]. simpl. auto.
Qed.

Lemma strictly_inside_spec pts p :
  printable pts -> within (2 ^ 31) p ->
  exists r, strictly_inside p pts = Ok r /\ (r = true <-> encloses pts p).
Proof.
  intros (Hb & Hlen & _) Hp. unfold strictly_inside.
  destruct (inside_loop_spec (2 ^ 31) p 0 (edges pts)) as (r & Hr & Hiff);
    [apply printable_det | done | by apply within_edges | rewrite length_edges; unfold i64_max; lia |].
  exists r. split; [done |]. rewrite Hiff. unfold encloses. setoid_rewrite winds_turns.
  rewrite Z.add_0_l. split; [intros [? ?]; eauto | intros [? (w & -> & ?)]; auto].
Qed.

Lemma rings_intersect_spec r s :
  printable r -> printable s ->
  exists b, rings_intersect r s = Ok b /\ (b = true <-> ~ rings_apart r s).
Proof.
  intros (Hr & _) (Hs & _). unfold rings_intersect.
  destruct (any_of_Ok (fun '(p, q) => any_of (fun '(c, d) => intersects p q c d) (edges s))
    (fun e => exists f, f ∈ edges s /\ segments_meet e.1 e.2 f.1 f.2) (edges r)) as (b & Hb & Hiff).
  - intros [p q] He. apply any_of_Ok. intros [c d] Hf. rewrite Forall_forall in Hr, Hs.
    apply elem_of_edges in He as [? ?], Hf as [? ?].
    destruct (intersects_ok (2 ^ 31) p q c d) as [x Hx]; [apply printable_det | auto .. |].
    exists x. split; [done |]. by apply intersects_value.
  - exists b. split; [done |]. rewrite Hiff. unfold rings_apart. split.
    + intros (e & He & f & Hf & Hm) Hn. by apply (Hn e f).
    + intros Hn. destruct b; [by apply Hiff |]. exfalso. apply Hn. intros e f He Hf Hm.
      assert (false = true) as [=] by (apply Hiff; eauto).
Qed.

Lemma printable_head pts p : printable pts -> pts !! 0%nat = Some p -> within (2 ^ 31) p.
Proof. intros (Hb & _) H. rewrite Forall_forall in Hb. apply Hb. by eapply list_elem_of_lookup_2. Qed.

Lemma simple_ring_head pts ccw : simple_ring pts ccw -> exists p, pts !! 0%nat = Some p /\ pts !!! 0%nat = p.
Proof. intros [Hn _ _ _]. destruct pts as [|p pts]; simpl in *; [lia | eauto]. Qed.

(** A verdict that decides [P]. *)
Definition decides (r : result unit ProjectionError.t) (P : Prop) : Prop :=
  verdict r /\ (r = Ok tt <-> P).

Lemma decides_bind r (k : unit -> result unit ProjectionError.t) P Q :
  decides r P -> (P -> decides (k tt) Q) -> decides (result_bind r k) (P /\ Q).
Proof.
  intros [[-> | ->] Hr] Hk; simpl.
  - destruct Hk as [Hv Hk]; [by apply Hr |]. split; [done |]. rewrite Hk. tauto.
  - split; [by right |]. split; [done |]. intros [HP _]. by apply Hr.
Qed.

Lemma decides_for_each {A} (f : A -> result unit ProjectionError.t) (P : A -> Prop) l :
  (forall x, x ∈ l -> decides (f x) (P x)) -> decides (for_each f l) (forall x, x ∈ l -> P x).
Proof.
  intros Hl. split; [apply for_each_verdict; intros x Hx; by apply Hl |].
  rewrite for_each_Ok. split; intros H x Hx; by apply (Hl x Hx), H.
Qed.

Lemma decides_if (b : bool) P : (b = true -> ~ P) -> (b = false -> P) ->
  decides (if b then invalid_shape else Ok tt) P.
Proof.
  intros Hb Hf. unfold decides, verdict. destruct b.
  - split; [by right |]. split; [done |]. intros HP. by destruct (Hb eq_refl).
  - split; [by left |]. split; auto.
Qed.

Lemma decides_iff r P Q : decides r P -> (P <-> Q) -> decides r Q.
Proof. unfold decides. intros [? H] HPQ. rewrite H. done. Qed.

Lemma holes_apart_spec g h p q :
  printable g -> printable h -> g !! 0%nat = Some p -> h !! 0%nat = Some q ->
  decides (holes_apart h g) (rings_apart g h /\ ~ encloses g q /\ ~ encloses h p).
Proof.
  intros Hg Hh Hp Hq. unfold holes_apart.
  rewrite (list_lookup_total_correct _ _ _ Hp), (list_lookup_total_correct _ _ _ Hq).
  destruct (rings_intersect_spec g h Hg Hh) as (b & -> & Hb).
  destruct (strictly_inside_spec g q Hg (printable_head h q Hh Hq)) as (i & -> & Hi).
  destruct (strictly_inside_spec h p Hh (printable_head g p Hg Hp)) as (j & -> & Hj).
  assert (forall (x : bool) P, (x = true <-> P) -> x = false -> ~ P) as Hno by naive_solver.
  destruct b; simpl.
  { apply (decides_if true); [|done]. intros _ (Ha & _). by apply Hb. }
  assert (rings_apart g h) as Ha.
  { intros e f He Hf Hm. apply (Hno _ _ Hb eq_refl). intros Hn. by apply (Hn e f). }
  destruct i; simpl; [apply (decides_if true); [|done]; intros _ (_ & Hn & _); by apply Hn, Hi |].
  apply (decides_if j).
  - intros -> (_ & _ & Hn). by apply Hn, Hj.
  - intros ->. split; [done |]. split; by eapply Hno.
Qed.

(** Body of the loop of [validate_polygon] over the holes. *)
Lemma polygon_step polygon i h :
  (forall r, r ∈ contour polygon :: holes polygon -> printable (points r)) ->
  simple_ring (points (contour polygon)) true ->
  (forall g, g ∈ take i (holes polygon) -> simple_ring (points g) false) ->
  h ∈ holes polygon ->
  decides
    (let? _ := ring point (points h) false in
     let? crossing := rings_intersect (points (contour polygon)) (points h) in
     let? bad := if crossing then Ok true
                 else let? inner := strictly_inside (points h !!! 0%nat) (points (contour polygon)) in
                      Ok (negb inner) in
     if bad then invalid_shape
     else for_each (fun other => holes_apart (points h) (points other)) (take i (holes polygon)))
    (simple_ring (points h) false /\
     (exists q, points h !! 0%nat = Some q /\
        rings_apart (points (contour polygon)) (points h) /\ encloses (points (contour polygon)) q /\
        forall g, g ∈ take i (holes polygon) -> exists p, points g !! 0%nat = Some p /\
          rings_apart (points g) (points h) /\ ~ encloses (points g) q /\ ~ encloses (points h) p)).
Proof.
  intros Hp Hc Hbefore Hh. apply decides_bind; [apply ring_verdict; set_solver |]. intros Hsimple.
  assert (printable (points (contour polygon))) as Hpc by (apply Hp; apply list_elem_of_here).
  assert (printable (points h)) as Hph by (apply Hp; by apply list_elem_of_further).
  destruct (simple_ring_head _ _ Hsimple) as (q & Hq & ->).
  destruct (rings_intersect_spec _ _ Hpc Hph) as (b & -> & Hb).
  destruct (strictly_inside_spec _ q Hpc (printable_head _ q Hph Hq)) as (r & -> & Hr).
  simpl. destruct b; simpl.
  { split; [by right |]. split; [done |]. intros (q' & _ & Ha & _). by apply Hb in Ha. }
  assert (rings_apart (points (contour polygon)) (points h)) as Ha.
  { intros e f He Hf Hm. assert (false = true) as [=]. apply Hb. intros Hn. by apply (Hn e f). }
  destruct r; simpl.
  2: { split; [by right |]. split; [done |]. intros (q' & Hq' & _ & He & _).
       rewrite Hq in Hq'. simplify_eq. by apply Hr in He. }
  eapply decides_iff.
  - apply (decides_for_each _ (fun g => exists p, points g !! 0%nat = Some p /\
      rings_apart (points g) (points h) /\ ~ encloses (points g) q /\ ~ encloses (points h) p)).
    intros g Hg. destruct (simple_ring_head _ _ (Hbefore g Hg)) as (p & Hgp & _).
    eapply decides_iff; [apply (holes_apart_spec (points g) (points h) p q); try done |].
    + apply Hp, list_elem_of_further. eapply elem_of_take in Hg as (k & Hg & _). by eapply list_elem_of_lookup_2.
    + split; [eauto 10 |]. intros (p' & Hp' & ?). by simplify_eq.
  - split; [intros H; exists q; split; [done |]; split; [done |]; split; [by apply Hr | done] |].
    intros (q' & Hq' & _ & _ & H). rewrite Hq in Hq'. by simplify_eq.
Qed.

(** A loop whose check of an element relies on the elements before it having passed. *)
Lemma decides_in_order {A} (f : nat * A -> result unit ProjectionError.t) (P : nat -> A -> Prop) l :
  (forall i x, l !! i = Some x -> (forall j y, (j < i)%nat -> l !! j = Some y -> P j y) ->
     decides (f (i, x)) (P i x)) ->
  decides (for_each f (enumerate l)) (forall i x, l !! i = Some x -> P i x).
Proof.
  induction l as [|x l IH] using rev_ind; intros Hl.
  { split; [by left |]. split; [|done]. intros _ i x Hx. by rewrite lookup_nil in Hx. }
  rewrite enumerate_snoc, for_each_app.
  apply decides_iff with ((forall i y, l !! i = Some y -> P i y) /\ P (length l) x).
  - apply decides_bind.
    + apply IH. intros i y Hi Hbefore. apply Hl; [by apply lookup_app_l_Some |].
      intros j z Hj Hz. apply Hbefore; [done |]. apply lookup_lt_Some in Hi.
      by rewrite lookup_app_l in Hz by lia.
    + intros Hbefore. simpl.
      eapply decides_iff; [eapply (decides_bind _ (fun _ => Ok tt) (P (length l) x) True) |].
      * apply Hl; [by apply list_lookup_middle |]. intros j y Hj Hy. rewrite lookup_app_l in Hy by lia.
        by apply Hbefore.
      * intros _. split; [by left | done].
      * tauto.
  - split.
    + intros [Hbefore Hx] i y Hi. apply lookup_app_Some in Hi as [Hi | [Hi Hy]]; [by apply Hbefore |].
      apply list_lookup_singleton_Some in Hy as [Hy ->]. by replace i with (length l) by lia.
    + intros H. split; [|apply H; by apply list_lookup_middle].
      intros i y Hi. apply H. by apply lookup_app_l_Some.
Qed.

Lemma polygon_verdict polygon :
  (forall r, r ∈ contour polygon :: holes polygon -> printable (points r)) ->
  decides (validate_polygon point polygon) (valid_polygon polygon).
Proof.
  intros Hp. unfold validate_polygon.
  eapply decides_iff.
  { apply decides_bind; [apply ring_verdict, Hp; apply list_elem_of_here |]. intros Hc.
    apply decides_in_order. intros i h Hi Hbefore. apply (polygon_step polygon i h); [done .. | |].
    - intros g Hg. apply elem_of_take in Hg as (j & Hg & Hj). by apply (Hbefore j g Hj Hg).
    - by eapply list_elem_of_lookup_2. }
  simpl. split.
  - intros [Hc H]. split; [done | ..].
    + intros h Hh. apply list_elem_of_lookup in Hh as [i Hi]. by apply (H i h).
    + intros h p Hh Hhp. apply list_elem_of_lookup in Hh as [i Hi].
      destruct (H i h Hi) as (_ & q & Hq & ? & ? & _). rewrite Hhp in Hq. by simplify_eq.
    + intros i j g h p q Hij Hg Hh Hgp Hhq.
      destruct (H j h Hh) as (_ & q' & Hq' & _ & _ & Hall). rewrite Hhq in Hq'. simplify_eq.
      destruct (Hall g) as (p' & Hp' & ?); [apply elem_of_take; eauto |].
      rewrite Hgp in Hp'. by simplify_eq.
  - intros [Hc Hholes Hin Hap]. split; [done |]. intros i h Hi.
    assert (h ∈ holes polygon) as Hh by (by eapply list_elem_of_lookup_2).
    split; [auto |]. destruct (simple_ring_head _ _ (Hholes h Hh)) as (q & Hq & _).
    exists q. split; [done |]. destruct (Hin h q Hh Hq) as [? ?]. split; [done |]. split; [done |].
    intros g Hg. apply elem_of_take in Hg as (j & Hg & Hj).
    assert (g ∈ holes polygon) as Hgin by (by eapply list_elem_of_lookup_2).
    destruct (simple_ring_head _ _ (Hholes g Hgin)) as (p & Hpp & _). exists p. split; [done |].
    by apply (Hap j i g h p q).
Qed.

End verdicts.

(** ** Properties *)

(** The ring check accepts exactly the simple polygons of the asked orientation:
    at least three vertices, all different, edges that meet only in shared vertices,
    area of the right sign.  With coordinates up to [2^31] units (over two hundred
    metres) nothing overflows, and the only error is [InvalidShape]. *)
Theorem ring_accepts_simple point pts ccw (H : printable point pts) :
  (ring point pts ccw = Ok tt <-> simple_ring pts ccw) /\
  (ring point pts ccw <> Ok tt -> ring point pts ccw = Err ProjectionError.InvalidShape).
Proof.
  destruct (ring_verdict point pts ccw H) as [Hv Hr]. split; [done |].
  intros Hn. by destruct Hv.
Qed.

(** [C27].  The polygon check accepts exactly the valid polygons with holes: simple rings
    of the right orientation without common points, every hole inside the contour and
    outside the other holes. *)
Theorem polygon_accepts_valid point polygon
    (H : forall r, r ∈ contour polygon :: holes polygon -> printable point (points r)) :
  (validate_polygon point polygon = Ok tt <-> valid_polygon polygon) /\
  (validate_polygon point polygon <> Ok tt ->
   validate_polygon point polygon = Err ProjectionError.InvalidShape).
Proof.
  destruct (polygon_verdict point polygon H) as [Hv Hr]. split; [done |].
  intros Hn. by destruct Hv.
Qed.

(** ** Concrete inputs (the fixtures of the source's tests) *)

Definition square : list Point2 := [Pt 0 0; Pt 40000 0; Pt 40000 40000; Pt 0 40000].
Definition square_hole : list Point2 :=
  [Pt 10000 10000; Pt 10000 30000; Pt 30000 30000; Pt 30000 10000].
Definition bowtie : list Point2 := [Pt 0 0; Pt 10 10; Pt 0 10; Pt 10 0].
Definition sample_polygon : ExPolygon :=
  {| contour := {| points := square |}; holes := [{| points := square_hole |}] |}.

Definition always_finite (_ : Point2) : result unit ProjectionError.t := Ok tt.

Lemma printable_sample pts :
  bool_decide (Forall (fun p => Z.abs (px p) <= 2 ^ 31 /\ Z.abs (py p) <= 2 ^ 31) pts) = true ->
  Z.of_nat (length pts) <= 2 ^ 62 -> printable always_finite pts.
Proof.
  intros H Hl. apply bool_decide_eq_true in H. split; [done |]. split; [done |].
  apply Forall_forall. by intros.
Qed.

Example intersects_samples :
  intersects (Pt 0 0) (Pt 10 10) (Pt 0 10) (Pt 10 0) = Ok true /\
  intersects (Pt 0 0) (Pt 10 0) (Pt 11 0) (Pt 20 0) = Ok false /\
  intersects (Pt i64_min i64_min) (Pt i64_max i64_min) (Pt i64_max i64_max) (Pt i64_min i64_max) =
    Err ProjectionError.InvalidCoordinate.
Proof. by vm_compute. Qed.

Lemma ring_accepts_simple_witness :
  simple_ring square true /\ ~ simple_ring bowtie true.
Proof.
  split.
  - apply (ring_accepts_simple always_finite square true); [|vm_compute; reflexivity].
    apply printable_sample; [vm_compute; reflexivity | vm_compute; discriminate].
  - intros Hs. apply (ring_accepts_simple always_finite bowtie true) in Hs; [vm_compute in Hs; discriminate Hs |].
    apply printable_sample; [vm_compute; reflexivity | vm_compute; discriminate].
Defined.

Lemma polygon_accepts_valid_witness : valid_polygon sample_polygon.
Proof.
  apply (polygon_accepts_valid always_finite sample_polygon); [|vm_compute; reflexivity].
  intros r Hr. unfold sample_polygon in Hr. simpl in Hr.
  apply elem_of_cons in Hr as [-> | Hr]; [|apply list_elem_of_singleton in Hr as ->];
    apply printable_sample; [vm_compute; reflexivity | vm_compute; discriminate
                            | vm_compute; reflexivity | vm_compute; discriminate].
Defined.

Lemma intersects_exact_witness :
  segments_meet (Pt 0 0) (Pt 10 10) (Pt 0 10) (Pt 10 0) /\
  ~ segments_meet (Pt 0 0) (Pt 10 0) (Pt 11 0) (Pt 20 0).
Proof.
  split; [|intros H].
  - apply (proj1 (intersects_exact (Pt 0 0) (Pt 10 10) (Pt 0 10) (Pt 10 0)) true); by vm_compute.
  - apply (proj1 (intersects_exact (Pt 0 0) (Pt 10 0) (Pt 11 0) (Pt 20 0)) false) in H;
      [discriminate H | by vm_compute].
Defined.
