(* ===== verification/LayerIr.v ===== *)
(** The products of one layer ([slicer-ir/src/slice_ir.rs], [stage_io.rs]): paths,
    walls, infill, support, sliced regions, print entities, anchored events, and what
    one module invocation commits.

    [layer_types] gives the layer arena and the blackboard these products for the types
    they are written over; what the layer code never looks into stays abstract
    ([PrepassTypes]).  The second part is the arithmetic of the region identifiers of
    modifier volumes. *)
From Stdlib Require Import Ascii.
From stdpp Require Import prelude gmap strings list.
From S2P Require Import Prelude Ir Float32 Blackboard LayerArena Planar.

#[local] Open Scope string_scope.
#[local] Open Scope list_scope.

(** ** Paths *)

Record Point3WithWidth := {
  pw_x : f32;
  pw_y : f32;
  pw_z : f32;
  pw_width : f32;
  pw_flow_factor : f32;
  pw_overhang_quartile : option Z;
  pw_dist_to_top_mm : f32;
  pw_overhang_distance_mm : option f32
}.

Inductive ExtrusionRole :=
| OuterWall | InnerWall | ThinWall | TopSolidInfill | BottomSolidInfill
| InternalSolidInfill | SparseInfill | RaftInfill | SupportMaterial
| SupportInterface | SupportBaseInterface | WipeTower | PrimeTower | Ironing
| BridgeInfill | InternalBridgeInfill | Skirt | Brim | CustomRole (name : string) | GapFill.

Record ExtrusionPath3D := {
  ep_points : list Point3WithWidth;
  ep_role : ExtrusionRole;
  ep_speed_factor : f32;
  ep_tool_index : option Z;
  ep_order_lock : option Z
}.

Definition with_order_lock (p : ExtrusionPath3D) (lock : option Z) : ExtrusionPath3D :=
  {| ep_points := ep_points p; ep_role := ep_role p; ep_speed_factor := ep_speed_factor p;
     ep_tool_index := ep_tool_index p; ep_order_lock := lock |}.

Definition with_points (p : ExtrusionPath3D) (pts : list Point3WithWidth) : ExtrusionPath3D :=
  {| ep_points := pts; ep_role := ep_role p; ep_speed_factor := ep_speed_factor p;
     ep_tool_index := ep_tool_index p; ep_order_lock := ep_order_lock p |}.

(** [PartialEq] of options and points: floating-point fields compare by value. *)
Definition option_eqb {A} (eqb : A -> A -> bool) (x y : option A) : bool :=
  match x, y with
  | Some a, Some b => eqb a b
  | None, None => true
  | _, _ => false
  end.

Definition point_eqb (a b : Point3WithWidth) : bool :=
  f32_eqb (pw_x a) (pw_x b) && f32_eqb (pw_y a) (pw_y b) && f32_eqb (pw_z a) (pw_z b)
  && f32_eqb (pw_width a) (pw_width b) && f32_eqb (pw_flow_factor a) (pw_flow_factor b)
  && option_eqb Z.eqb (pw_overhang_quartile a) (pw_overhang_quartile b)
  && f32_eqb (pw_dist_to_top_mm a) (pw_dist_to_top_mm b)
  && option_eqb f32_eqb (pw_overhang_distance_mm a) (pw_overhang_distance_mm b).

Fixpoint list_eqb {A} (eqb : A -> A -> bool) (l1 l2 : list A) : bool :=
  match l1, l2 with
  | [], [] => true
  | x :: l1', y :: l2' => eqb x y && list_eqb eqb l1' l2'
  | _, _ => false
  end.

Definition points_eqb : list Point3WithWidth -> list Point3WithWidth -> bool := list_eqb point_eqb.

(** ** Seams *)

Inductive SeamReason := Concave | Aligned | UserForced | Sharp.

Record SeamCandidate := { sc_position : Point3WithWidth; sc_score : f32; sc_reason : SeamReason }.
Record SeamPosition := { sp_point : Point3WithWidth; sp_wall_index : Z }.

(** ** Perimeters *)

Inductive LoopType := LoopOuter | LoopInner | LoopThinWall | LoopNonPlanarShell | LoopGapFill.

Record WallFeatureFlags := {
  wf_tool_index : option Z;
  wf_fuzzy_skin : bool;
  wf_is_bridge : bool;
  wf_is_thin_wall : bool;
  wf_skip_ironing : bool;
  wf_custom : gmap string PaintValue
}.

Record MaterialBoundarySegment := {
  mb_point_range : Z * Z;
  mb_near_tool : option Z;
  mb_far_tool : option Z
}.

Inductive WallBoundaryType :=
| ExteriorSurface
| MaterialBoundary (segments : list MaterialBoundarySegment)
| Interior.

Record WallLoop := {
  wl_perimeter_index : Z;
  wl_loop_type : LoopType;
  wl_path : ExtrusionPath3D;
  wl_width_profile : list f32;
  wl_feature_flags : list WallFeatureFlags;
  wl_boundary_type : WallBoundaryType
}.

Notation VariantChain := (list (string * PaintValue)) (only parsing).

(** The identity under which regions of different products are joined. *)
Definition source_key : Type := string * Z * list (string * PaintValue).
#[export] Instance source_key_eq_dec : EqDecision source_key.
Proof. unfold source_key. apply _. Defined.

Record PerimeterRegion := {
  pr_object_id : ObjectId;
  pr_region_id : RegionId;
  pr_variant_chain : VariantChain;
  pr_walls : list WallLoop;
  pr_infill_areas : list ExPolygon;
  pr_seam_candidates : list SeamCandidate;
  pr_resolved_seam : option SeamPosition
}.

Record PerimeterIR := {
  per_schema_version : SemVer;
  per_global_layer_index : Z;
  per_regions : list PerimeterRegion
}.

Definition perimeter_key (r : PerimeterRegion) : source_key :=
  (pr_object_id r, pr_region_id r, pr_variant_chain r).

(** ** Infill *)

Record InfillRegion := {
  if_object_id : ObjectId;
  if_region_id : RegionId;
  if_variant_chain : VariantChain;
  sparse_infill : list ExtrusionPath3D;
  solid_infill : list ExtrusionPath3D;
  ironing : list ExtrusionPath3D;
  internal_bridge_infill : list ExtrusionPath3D
}.

Record InfillRaftRegion := {
  raft_object_id : ObjectId;
  raft_region_id : RegionId;
  raft_polygons : list ExPolygon;
  raft_variant_chain : VariantChain
}.

Record InfillIR := {
  inf_schema_version : SemVer;
  inf_global_layer_index : Z;
  inf_regions : list InfillRegion;
  inf_raft_regions : list InfillRaftRegion
}.

Definition infill_key (r : InfillRegion) : source_key :=
  (if_object_id r, if_region_id r, if_variant_chain r).
Definition raft_key (r : InfillRaftRegion) : source_key :=
  (raft_object_id r, raft_region_id r, raft_variant_chain r).

(** ** Support *)

Inductive SupportRole := SupportBody | TopInterface | BottomInterface | RaftRole | SupportIroning.

Record SupportEntry := {
  se_family_id : string;
  se_body_id : string;
  se_demand_ids : list string;
  se_object_id : ObjectId;
  se_region_id : RegionId;
  se_role : SupportRole;
  se_paths : list ExtrusionPath3D;
  se_variant_chain : VariantChain
}.

Record SupportIR := {
  su_schema_version : SemVer;
  su_global_layer_index : Z;
  su_entries : list SupportEntry
}.

(** ** Slices *)

Record SlicedRegion := {
  sr_object_id : ObjectId;
  sr_region_id : RegionId;
  sr_polygons : list ExPolygon;
  sr_infill_areas : list ExPolygon;
  sr_nonplanar_surface : option Z;
  sr_effective_layer_height : f32;
  sr_segment_annotations : list (PaintSemantic * list (list (option PaintValue)));
  sr_variant_chain : VariantChain;
  sr_top_shell_index : option Z;
  sr_bottom_shell_index : option Z;
  sr_top_solid_fill : list ExPolygon;
  sr_bottom_solid_fill : list ExPolygon;
  sr_is_bridge : bool;
  sr_bridge_areas : list ExPolygon;
  sr_bridge_orientation_deg : f32;
  sr_sparse_infill_area : list ExPolygon;
  sr_internal_solid_fill : list ExPolygon;
  sr_internal_bridge_areas : list ExPolygon;
  sr_internal_bridge_angles_deg : list f32;
  sr_raft_fill : list ExPolygon
}.

Record SliceIR := {
  sl_schema_version : SemVer;
  sl_global_layer_index : Z;
  sl_z : f32;
  sl_regions : list SlicedRegion
}.

Definition slice_key (r : SlicedRegion) : source_key :=
  (sr_object_id r, sr_region_id r, sr_variant_chain r).

Definition region_key_source (k : RegionKey) : source_key :=
  (rk_object_id k, rk_region_id k, rk_variant_chain k).

Definition with_slice_regions (s : SliceIR) (rs : list SlicedRegion) : SliceIR :=
  {| sl_schema_version := sl_schema_version s; sl_global_layer_index := sl_global_layer_index s;
     sl_z := sl_z s; sl_regions := rs |}.

Definition internal_bridge_angle_deg (r : SlicedRegion) (index : nat) : f32 :=
  default (sr_bridge_orientation_deg r) (sr_internal_bridge_angles_deg r !! index).

(** ** Entities of a layer *)

Record PrintEntity := {
  pe_entity_id : Z;
  pe_path : ExtrusionPath3D;
  pe_role : ExtrusionRole;
  pe_region_key : RegionKey;
  pe_topo_order : Z;
  pe_tool_index : Z
}.

Record SupportEntityIdentity := {
  sei_entity_id : Z;
  sei_family_id : string;
  sei_body_id : string;
  sei_demand_ids : list string
}.

Inductive LayerAnnotationKind := Comment (text : string) | Raw (text : string).
Record LayerAnnotation := { la_after_entity_index : Z; la_kind : LayerAnnotationKind }.

Record TravelRetract := {
  tr_after_entity_index : Z;
  tr_length : f32;
  tr_speed : f32;
  tr_is_unretract : bool;
  tr_mode : RetractMode
}.

Record TravelMove := {
  tm_entity_id : Z;
  tm_x : option f32;
  tm_y : option f32;
  tm_z : option f32;
  tm_f : option f32
}.

Record EntitySpeedProfile := { esp_entity_id : Z; esp_factors : list f32 }.

Record LayerCollectionIR := {
  lc_schema_version : SemVer;
  lc_global_layer_index : Z;
  lc_z : f32;
  ordered_entities : list PrintEntity;
  support_entity_identities : list SupportEntityIdentity;
  lc_tool_changes : list ToolChange;
  lc_z_hops : list ZHop;
  lc_annotations : list LayerAnnotation;
  lc_retracts : list TravelRetract;
  lc_travel_moves : list TravelMove;
  lc_speed_profiles : list EntitySpeedProfile
}.

Definition CURRENT_LAYER_COLLECTION_IR_SCHEMA_VERSION : SemVer :=
  {| sv_major := 1; sv_minor := 4; sv_patch := 0 |}.

Definition with_ordered_entities (lc : LayerCollectionIR) (es : list PrintEntity) : LayerCollectionIR :=
  {| lc_schema_version := lc_schema_version lc; lc_global_layer_index := lc_global_layer_index lc;
     lc_z := lc_z lc; ordered_entities := es;
     support_entity_identities := support_entity_identities lc;
     lc_tool_changes := lc_tool_changes lc; lc_z_hops := lc_z_hops lc;
     lc_annotations := lc_annotations lc; lc_retracts := lc_retracts lc;
     lc_travel_moves := lc_travel_moves lc; lc_speed_profiles := lc_speed_profiles lc |}.

(** ** Anchored events *)

Inductive AnchoredGeometryContract :=
| Planar (z : Z)
| ZSpanning (min_z max_z : Z).

Record AnchoredEntityProvenance := { requesting_feature : string; source_plan_entry : string }.

Record AnchoredEntity := {
  ae_local_id : Z;
  ae_anchor_global_layer_index : Z;
  ae_geometry : AnchoredGeometryContract;
  ae_input_capabilities : list string;
  ae_output_capabilities : list string;
  ae_provenance : AnchoredEntityProvenance;
  ae_path_points : list Point3WithWidth;
  ae_role : ExtrusionRole
}.

Record CapabilityDerivedEventClosure := {
  input_capabilities : list string;
  output_capabilities : list string;
  derived_capabilities : list string
}.

Record AnchoredEventRuntimeHooks := {
  optimize_paths : bool;
  account_cooling : bool;
  account_time : bool
}.

Definition AnchoredEventRuntimeHooks_default : AnchoredEventRuntimeHooks :=
  {| optimize_paths := true; account_cooling := true; account_time := true |}.

Record OrderedEventCollection := {
  oc_anchor_global_layer_index : Z;
  oc_events : list AnchoredEntity;
  oc_runtime_hooks : AnchoredEventRuntimeHooks
}.

(** ** What one module invocation commits *)

Record RetractSpec := {
  rs_length : f32;
  rs_speed : f32;
  rs_is_unretract : bool;
  rs_mode : RetractMode
}.

Record TravelMoveDest := {
  td_x : option f32;
  td_y : option f32;
  td_z : option f32;
  td_f : option f32
}.

Record PathOptimizationCommit := {
  po_tool_changes : list ToolChange;
  po_z_hops : list f32;
  po_annotations : list LayerAnnotationKind;
  po_retracts : list RetractSpec;
  po_travel_moves : list TravelMoveDest;
  po_order_proposal : option (list (Z * bool))
}.

Inductive LayerStageCommit :=
| CommitPerimeters (ir : PerimeterIR)
| CommitPerimetersPostProcess (ir : option PerimeterIR)
| CommitInfill (ir : InfillIR)
| CommitInfillPostProcess (ir : InfillIR)
| CommitSupport (ir : SupportIR)
| CommitSupportWithAnchoredEvents (support : SupportIR) (anchored : list OrderedEventCollection)
| CommitSupportPostProcess (ir : SupportIR)
| CommitSupportPostProcessWithAnchoredEvents (support : SupportIR) (anchored : list OrderedEventCollection)
| CommitSlicePostProcess (polygon_updates : list (RegionKey * list ExPolygon))
    (path_z_updates : list (RegionKey * Z * Z * f32))
| CommitPathOptimization (c : PathOptimizationCommit)
| CommitAnchoredEvents (collections : list OrderedEventCollection)
| CommitSeedLayerCollection (lc : LayerCollectionIR).

Inductive LayerStageError :=
| FatalModule (stage_id : StageId) (module_id : ModuleId) (message : string)
| ArenaCommit (source : LayerArenaError)
| OrderLockViolation (message : string).

(** [LayerStageCommit::stage_id]. *)
Definition commit_stage_id (c : LayerStageCommit) : option string :=
  match c with
  | CommitPerimeters _ => Some "Layer::Perimeters"
  | CommitPerimetersPostProcess _ => Some "Layer::PerimetersPostProcess"
  | CommitInfill _ => Some "Layer::Infill"
  | CommitInfillPostProcess _ => Some "Layer::InfillPostProcess"
  | CommitSupport _ => Some "Layer::Support"
  | CommitSupportWithAnchoredEvents _ _ => Some "Layer::Support"
  | CommitSupportPostProcess _ => Some "Layer::SupportPostProcess"
  | CommitSupportPostProcessWithAnchoredEvents _ _ => Some "Layer::SupportPostProcess"
  | CommitSlicePostProcess _ _ => Some "Layer::SlicePostProcess"
  | CommitPathOptimization _ => Some "Layer::PathOptimization"
  | CommitAnchoredEvents _ => Some "Layer::AnchoredEvents"
  | CommitSeedLayerCollection _ => None
  end.

(** ** The arena over these products *)

Class PrepassTypes := {
  pre_MeshIR : Type;
  pre_SurfaceClassificationIR : Type;
  pre_LayerPlanIR : Type;
  pre_RegionMapIR : Type;
  pre_LayerSelectionIndex : Type;
  pre_SupportGeometryIR : Type;
  pre_SupportAnalysisIR : Type;
  pre_ScoredSeamCandidate : Type;
  pre_SupportPlanRoleRegion : Type;
  pre_SupportPlanSkeleton : Type;
  pre_PreparedRegionData : Type
}.

Definition layer_types {P : PrepassTypes} : IrTypes := {|
  Blackboard.MeshIR := pre_MeshIR;
  Blackboard.SurfaceClassificationIR := pre_SurfaceClassificationIR;
  Blackboard.LayerPlanIR := pre_LayerPlanIR;
  Blackboard.RegionMapIR := pre_RegionMapIR;
  Blackboard.SliceIR := SliceIR;
  Blackboard.LayerSelectionIndex := pre_LayerSelectionIndex;
  Blackboard.SupportGeometryIR := pre_SupportGeometryIR;
  Blackboard.SupportAnalysisIR := pre_SupportAnalysisIR;
  Blackboard.LayerCollectionIR := LayerCollectionIR;
  Blackboard.SeamPosition := SeamPosition;
  Blackboard.ScoredSeamCandidate := pre_ScoredSeamCandidate;
  Blackboard.SupportPlanRoleRegion := pre_SupportPlanRoleRegion;
  Blackboard.SupportPlanSkeleton := pre_SupportPlanSkeleton;
  Blackboard.PerimeterIR := PerimeterIR;
  Blackboard.InfillIR := InfillIR;
  Blackboard.SupportIR := SupportIR;
  Blackboard.PreparedRegionData := pre_PreparedRegionData;
  Blackboard.OrderedEventCollection := OrderedEventCollection;
  Blackboard.LayerAnnotation := LayerAnnotation
|}.
