(* ===== verification/RegionMap.v ===== *)
(** The region map ([RegionMapIR] of [slicer-ir/src/slice_ir.rs]) and the promotion of the
    committed layer plan into the execution plan ([promote_global_layers],
    [backfill_active_region_configs], [config_for_region_smallest_chain] of
    [slicer-runtime/src/layer_executor.rs]).

    The map is a [HashMap]: [rm_entries] is the list of its entries in the order in which
    the map is iterated, which differs from run to run.  What a look-up returns must not
    depend on that order. *)
From stdpp Require Import prelude gmap strings list.
From S2P Require Import Prelude Ir ExecutionPlan.

#[local] Open Scope string_scope.
#[local] Open Scope list_scope.

(** ** The order of variant chains *)

(** [f32::total_cmp] compares the bits as a signed integer whose lower 31 bits are
    complemented when the sign is set. *)
Definition total_key (x : f32) : Z :=
  if Z.ltb (f32_bits x) 2147483648 then f32_bits x else (2147483647 - f32_bits x)%Z.

Definition paint_discriminant (v : PaintValue) : nat :=
  match v with PaintFlag _ => 0 | PaintScalar _ => 1 | PaintToolIndex _ => 2 | PaintCustom _ => 3 end.

(** [PaintValue::cmp], as [<=]. *)
Definition paint_leb (a b : PaintValue) : bool :=
  if negb (Nat.eqb (paint_discriminant a) (paint_discriminant b)) then
    Nat.leb (paint_discriminant a) (paint_discriminant b)
  else
    match a, b with
    | PaintFlag a, PaintFlag b => implb a b
    | PaintScalar a, PaintScalar b => Z.leb (total_key a) (total_key b)
    | PaintToolIndex a, PaintToolIndex b => Z.leb a b
    | PaintCustom a, PaintCustom b => rust_leb a b
    | _, _ => true
    end.

(** Tuples and vectors compare lexicographically. *)
Definition link_leb (a b : string * PaintValue) : bool :=
  if String.eqb a.1 b.1 then paint_leb a.2 b.2 else rust_leb a.1 b.1.

Fixpoint chain_leb (a b : list (string * PaintValue)) : bool :=
  match a, b with
  | [], _ => true
  | _ :: _, [] => false
  | x :: a, y :: b => if link_leb x y then (if link_leb y x then chain_leb a b else true) else false
  end.

(** ** The map *)

Record RegionMapIR := {
  rm_schema_version : SemVer;
  rm_entries : list (RegionKey * RegionPlan);
  rm_configs : list ResolvedConfig
}.

Definition rm_get (m : RegionMapIR) (key : RegionKey) : option RegionPlan :=
  snd ∘ snd <$> list_find (fun e : RegionKey * RegionPlan => e.1 = key) (rm_entries m).

(** An index out of bounds panics. *)
Definition config_for_raw (m : RegionMapIR) (id : Z) : exec ResolvedConfig :=
  match rm_configs m !! Z.to_nat id with Some c => Done c | None => Panicked end.

Definition config_for (m : RegionMapIR) (key : RegionKey) : exec ResolvedConfig :=
  match rm_get m key with Some plan => config_for_raw m (rp_config plan) | None => Panicked end.

(** [Iterator::min_by]: of equal elements the first. *)
Definition min_by {A} (leb : A -> A -> bool) (l : list A) : option A :=
  match l with
  | [] => None
  | x :: l => Some (foldl (fun acc y => if leb acc y then acc else y) x l)
  end.

Definition same_region (global_layer_index : Z) (object_id : ObjectId) (region_id : RegionId) (key : RegionKey)
    : bool :=
  Z.eqb (rk_global_layer_index key) global_layer_index && String.eqb (rk_object_id key) object_id
  && Z.eqb (rk_region_id key) region_id.

Definition config_for_region_smallest_chain (m : RegionMapIR) (global_layer_index : Z) (object_id : ObjectId)
    (region_id : RegionId) : option Z :=
  let exact := {| rk_global_layer_index := global_layer_index; rk_object_id := object_id;
                  rk_region_id := region_id; rk_variant_chain := [] |} in
  match rm_get m exact with
  | Some plan => Some (rp_config plan)
  | None =>
      (fun e => rp_config e.2) <$>
      min_by (fun a b : RegionKey * RegionPlan => chain_leb (rk_variant_chain a.1) (rk_variant_chain b.1))
        (filter (fun e : RegionKey * RegionPlan =>
                   same_region global_layer_index object_id region_id e.1 = true) (rm_entries m))
  end.

(** ** Promotion of the layer plan *)

Definition with_resolved_config (r : ActiveRegion) (c : ResolvedConfig) : ActiveRegion :=
  {| ar_object_id := ar_object_id r; ar_region_id := ar_region_id r; ar_resolved_config := c;
     ar_effective_layer_height := ar_effective_layer_height r; ar_nonplanar_shell := ar_nonplanar_shell r;
     ar_is_catchup_layer := ar_is_catchup_layer r; ar_catchup_z_bottom := ar_catchup_z_bottom r;
     ar_tool_index := ar_tool_index r |}.

Definition with_active_regions (l : GlobalLayer) (rs : list ActiveRegion) : GlobalLayer :=
  {| gl_index := gl_index l; gl_z := gl_z l; gl_active_regions := rs;
     gl_has_nonplanar := gl_has_nonplanar l; gl_is_sync_layer := gl_is_sync_layer l;
     gl_is_raft := gl_is_raft l |}.

Definition backfill_active_region (m : RegionMapIR) (index : Z) (r : ActiveRegion) : exec ActiveRegion :=
  match config_for_region_smallest_chain m index (ar_object_id r) (ar_region_id r) with
  | Some id => let! c := config_for_raw m id in Done (with_resolved_config r c)
  | None => Done r
  end.

Definition backfill_active_region_configs (layers : list GlobalLayer) (m : RegionMapIR)
    : exec (list GlobalLayer) :=
  map_exec (fun layer =>
    let! rs := map_exec (backfill_active_region m (gl_index layer)) (gl_active_regions layer) in
    Done (with_active_regions layer rs)) layers.

Definition with_global_layers (plan : ExecutionPlan) (layers : list GlobalLayer) : ExecutionPlan :=
  {| ep_prepass_stages := ep_prepass_stages plan; ep_per_layer_stages := ep_per_layer_stages plan;
     ep_layer_finalization_stage := ep_layer_finalization_stage plan;
     ep_postpass_stages := ep_postpass_stages plan; ep_global_layers := layers;
     ep_region_plans := ep_region_plans plan; ep_module_region_index := ep_module_region_index plan;
     ep_aggregated_region_split := ep_aggregated_region_split plan |}.

(** [layer_plan] and [region_map] are the two slots of the blackboard. *)
Definition promote_global_layers (plan : ExecutionPlan) (layer_plan : option (list GlobalLayer))
    (region_map : option RegionMapIR) : exec ExecutionPlan :=
  match layer_plan with
  | None => Done plan
  | Some global_layers =>
      let! global_layers := match region_map with
                            | Some m => backfill_active_region_configs global_layers m
                            | None => Done global_layers
                            end in
      Done (with_global_layers plan global_layers)
  end.

(** ** The interner *)

Section interner.
(** [#[derive(PartialEq)]] of [ResolvedConfig]. *)
Context (rc_eqb : ResolvedConfig -> ResolvedConfig -> bool).

Definition intern_config (m : RegionMapIR) (rc : ResolvedConfig) : RegionMapIR * Z :=
  match list_find (fun c => rc_eqb c rc = true) (rm_configs m) with
  | Some (i, _) => (m, Z.of_nat i)
  | None =>
      let configs := rm_configs m ++ [rc] in
      ({| rm_schema_version := rm_schema_version m; rm_entries := rm_entries m; rm_configs := configs |},
       Z.of_nat (length configs - 1))
  end.

(** Every entry names a pooled config. *)
Definition ids_in_range (m : RegionMapIR) : Prop :=
  forall e, e ∈ rm_entries m -> is_Some (rm_configs m !! Z.to_nat (rp_config e.2)).

Lemma intern_keeps m rc :
  ids_in_range m ->
  ids_in_range (intern_config m rc).1 /\
  (forall id c, config_for_raw m id = Done c -> config_for_raw (intern_config m rc).1 id = Done c) /\
  exists c, config_for_raw (intern_config m rc).1 (intern_config m rc).2 = Done c /\
    (c = rc \/ rc_eqb c rc = true).
Proof.
  intros Hm. unfold intern_config, config_for_raw.
  destruct (list_find _ (rm_configs m)) as [[i c]|] eqn:Hf; cbn [fst snd].
  - apply list_find_Some in Hf as (Hi & Hc & _). split; [done |]. split; [done |].
    exists c. rewrite Nat2Z.id, Hi. auto.
  - split; [|split].
    + intros e He. destruct (Hm e He) as [c Hc]. exists c. cbn. by apply lookup_app_l_Some.
    + intros id c. cbn. destruct (rm_configs m !! _) eqn:Hi; [|done]. intros [= <-].
      by rewrite (lookup_app_l_Some _ _ _ _ Hi).
    + exists rc. cbn. rewrite length_app, Nat2Z.id. cbn [length]. rewrite Nat.add_sub, lookup_app_r, Nat.sub_diag by done. auto.
Qed.
End interner.

(** ** The order is total, and exact on [f32] bit patterns *)

Definition typed_chain (chain : list (string * PaintValue)) : Prop :=
  forall s x, (s, PaintScalar x) ∈ chain -> (0 <= f32_bits x < 4294967296)%Z.

Lemma total_key_inj x y :
  (0 <= f32_bits x < 4294967296)%Z -> (0 <= f32_bits y < 4294967296)%Z ->
  total_key x = total_key y -> x = y.
Proof.
  destruct x as [x], y as [y]; unfold total_key; cbn. intros Hx Hy.
  destruct (Z.ltb_spec x 2147483648), (Z.ltb_spec y 2147483648); intros He; f_equal; lia.
Qed.

Lemma paint_leb_total a b : paint_leb a b = true \/ paint_leb b a = true.
Proof.
  unfold paint_leb. destruct a as [[]|x|i|s], b as [[]|y|j|t]; cbn [paint_discriminant Nat.eqb Nat.leb negb implb];
    solve [auto | rewrite !Z.leb_le; lia | apply rust_leb_total].
Qed.

Lemma paint_leb_trans a b c : paint_leb a b = true -> paint_leb b c = true -> paint_leb a c = true.
Proof.
  unfold paint_leb. destruct a as [[]|x|i|s], b as [[]|y|j|t], c as [[]|z|k|u];
    cbn [paint_discriminant Nat.eqb Nat.leb negb implb]; try done;
    try (rewrite !Z.leb_le; lia). apply rust_leb_trans.
Qed.

Lemma paint_leb_antisym a b :
  (forall x, a = PaintScalar x \/ b = PaintScalar x -> (0 <= f32_bits x < 4294967296)%Z) ->
  paint_leb a b = true -> paint_leb b a = true -> a = b.
Proof.
  unfold paint_leb. intros Ht. destruct a as [[]|x|i|s], b as [[]|y|j|t];
    cbn [paint_discriminant Nat.eqb Nat.leb negb implb]; try done.
  - rewrite !Z.leb_le. intros. f_equal. apply total_key_inj; [apply Ht; auto | apply Ht; auto | lia].
  - rewrite !Z.leb_le. intros. f_equal. lia.
  - intros. f_equal. by apply rust_leb_antisym.
Qed.

Lemma link_leb_total a b : link_leb a b = true \/ link_leb b a = true.
Proof.
  unfold link_leb. rewrite (String.eqb_sym b.1). destruct (String.eqb a.1 b.1);
    [apply paint_leb_total | apply rust_leb_total].
Qed.

Lemma link_leb_trans a b c : link_leb a b = true -> link_leb b c = true -> link_leb a c = true.
Proof.
  destruct a as [sa a], b as [sb b], c as [sc c]. unfold link_leb; cbn [fst snd].
  destruct (String.eqb_spec sa sb) as [-> | Hab], (String.eqb_spec sb sc) as [-> | Hbc];
    rewrite ?String.eqb_refl.
  - apply paint_leb_trans.
  - done.
  - rewrite (proj2 (String.eqb_neq _ _) Hab). done.
  - intros H1 H2. destruct (String.eqb_spec sa sc) as [-> |]; [|by eapply rust_leb_trans].
    by destruct Hab; apply rust_leb_antisym.
Qed.

Lemma link_leb_antisym a b :
  (forall x, a.2 = PaintScalar x \/ b.2 = PaintScalar x -> (0 <= f32_bits x < 4294967296)%Z) ->
  link_leb a b = true -> link_leb b a = true -> a = b.
Proof.
  destruct a as [sa a], b as [sb b]. unfold link_leb; cbn [fst snd]. rewrite (String.eqb_sym sb).
  intros Ht. destruct (String.eqb_spec sa sb) as [-> | Hne].
  - intros. f_equal. by apply paint_leb_antisym.
  - intros. by destruct Hne; apply rust_leb_antisym.
Qed.

Lemma chain_leb_total a b : chain_leb a b = true \/ chain_leb b a = true.
Proof.
  revert b. induction a as [|x a IH]; intros [|y b]; cbn; auto.
  destruct (link_leb_total x y) as [H | H]; rewrite H; case_match; auto.
Qed.

Lemma chain_leb_trans a b c : chain_leb a b = true -> chain_leb b c = true -> chain_leb a c = true.
Proof.
  revert b c. induction a as [|x a IH]; intros [|y b] [|z c]; cbn; try done.
  destruct (link_leb x y) eqn:Hxy; [|done]. destruct (link_leb y z) eqn:Hyz; [|done].
  rewrite (link_leb_trans _ _ _ Hxy Hyz). destruct (link_leb z x) eqn:Hzx; [|done].
  rewrite (link_leb_trans _ _ _ Hyz Hzx), (link_leb_trans _ _ _ Hzx Hxy). apply IH.
Qed.

Lemma chain_leb_antisym a b :
  typed_chain a -> typed_chain b -> chain_leb a b = true -> chain_leb b a = true -> a = b.
Proof.
  revert b. induction a as [|[s v] a IH]; intros [|[t w] b]; cbn; try done. intros Ha Hb.
  destruct (link_leb (s, v) (t, w)) eqn:Hxy; [|done]. destruct (link_leb (t, w) (s, v)) eqn:Hyx; [|done].
  intros Hab Hba. assert (Heq : (s, v) = (t, w)).
  { apply link_leb_antisym; [|done..]. cbn. intros x [-> | ->]; [eapply Ha | eapply Hb]; left. }
  injection Heq as -> ->. f_equal. apply IH; [| |done..]; intros u x Hx; [eapply Ha | eapply Hb]; by right.
Qed.

(** ** The smallest chain *)

Lemma min_by_spec {A} (leb : A -> A -> bool) l x :
  (forall a b, leb a b = true \/ leb b a = true) ->
  (forall a b c, leb a b = true -> leb b c = true -> leb a c = true) ->
  min_by leb l = Some x -> x ∈ l /\ forall y, y ∈ l -> leb x y = true.
Proof.
  intros Htot Htr. destruct l as [|a l]; [done |]. cbn. intros [= <-].
  assert (Hrefl : forall a, leb a a = true) by (intros b; by destruct (Htot b b)).
  revert a. induction l as [|b l IH]; intros a; cbn.
  - split; [left |]. by intros y ->%list_elem_of_singleton.
  - destruct (leb a b) eqn:Hab; destruct (IH (if leb a b then a else b)) as [H1 H2]; rewrite Hab in *.
    + split; [set_solver |]. intros y [-> | [-> | Hy]%elem_of_cons]%elem_of_cons.
      * apply H2. left.
      * eapply Htr; [apply H2; left | done].
      * apply H2. by right.
    + split; [set_solver |]. assert (Hba : leb b a = true) by (destruct (Htot a b); congruence).
      intros y [-> | [-> | Hy]%elem_of_cons]%elem_of_cons.
      * eapply Htr; [apply H2; left | done].
      * apply H2. left.
      * apply H2. by right.
Qed.

Lemma same_region_spec g o r key :
  same_region g o r key = true <->
  rk_global_layer_index key = g /\ rk_object_id key = o /\ rk_region_id key = r.
Proof. unfold same_region. rewrite !andb_true_iff, !Z.eqb_eq, String.eqb_eq. tauto. Qed.

(** The entry that a region's config is taken from: of those of the region, the one with the
    smallest chain. *)
Definition smallest_entry (m : RegionMapIR) g o r (e : RegionKey * RegionPlan) : Prop :=
  e ∈ rm_entries m /\ same_region g o r e.1 = true /\
  forall e', e' ∈ rm_entries m -> same_region g o r e'.1 = true ->
    chain_leb (rk_variant_chain e.1) (rk_variant_chain e'.1) = true.

Lemma smallest_chain_entry m g o r :
  match config_for_region_smallest_chain m g o r with
  | Some id => exists e, smallest_entry m g o r e /\ rp_config e.2 = id
  | None => forall e, e ∈ rm_entries m -> same_region g o r e.1 = false
  end.
Proof.
  unfold config_for_region_smallest_chain. cbv zeta. unfold rm_get.
  destruct (list_find _ (rm_entries m)) as [[i [key plan]]|] eqn:Hf; cbn.
  - apply list_find_Some in Hf as (Hi & Hk & _). cbn in Hk. subst key.
    eexists (_, plan). split; [|reflexivity]. split; [by eapply list_elem_of_lookup_2 |].
    split; [by apply same_region_spec | by intros].
  - destruct (min_by _ _) as [e|] eqn:Hmin; cbn.
    + apply min_by_spec in Hmin as [He Hle];
        [|intros; apply chain_leb_total | intros ? ? ?; apply chain_leb_trans].
      apply list_elem_of_filter in He as [Hr He]. exists e. split; [|done]. split; [done |]. split; [done |].
      intros e' He' Hr'. apply Hle. by apply list_elem_of_filter.
    + intros e He. apply not_true_iff_false. intros Hr.
      assert (Hin : e ∈ filter (fun e : RegionKey * RegionPlan => same_region g o r e.1 = true) (rm_entries m))
        by (by apply list_elem_of_filter).
      destruct (filter _ _); [by apply elem_of_nil in Hin | done].
Qed.

Lemma smallest_entry_unique m g o r e e' :
  NoDup (rm_entries m).*1 -> (forall x, x ∈ rm_entries m -> typed_chain (rk_variant_chain x.1)) ->
  smallest_entry m g o r e -> smallest_entry m g o r e' -> e = e'.
Proof.
  intros Hnd Ht (He & Hr & Hle) (He' & Hr' & Hle').
  assert (Hc : rk_variant_chain e.1 = rk_variant_chain e'.1) by (apply chain_leb_antisym; auto).
  apply same_region_spec in Hr as (? & ? & ?), Hr' as (? & ? & ?).
  assert (Hk : e.1 = e'.1) by (destruct e as [[] ?], e' as [[] ?]; cbn in *; congruence).
  by eapply (NoDup_fmap_inj fst).
Qed.

(** A region's config comes from the entry with its smallest variant chain (the
    unpainted entry when there is one), and there is none only when the map has no entry
    of the region; the answer does not depend on the order in which the hash map is iterated. *)
Theorem smallest_chain_deterministic (m m' : RegionMapIR) (g : Z) (o : ObjectId) (r : RegionId)
    (Hnd : NoDup (rm_entries m).*1) (Hp : rm_entries m' ≡ₚ rm_entries m)
    (Ht : forall e, e ∈ rm_entries m -> typed_chain (rk_variant_chain e.1)) :
  (forall id, config_for_region_smallest_chain m g o r = Some id <->
     exists e, smallest_entry m g o r e /\ rp_config e.2 = id) /\
  config_for_region_smallest_chain m' g o r = config_for_region_smallest_chain m g o r.
Proof.
  assert (Hiff : forall m0, rm_entries m0 ≡ₚ rm_entries m ->
    forall id, config_for_region_smallest_chain m0 g o r = Some id <->
      exists e, smallest_entry m g o r e /\ rp_config e.2 = id).
  { intros m0 Hp0 id. pose proof (smallest_chain_entry m0 g o r) as Hs.
    assert (Hin : forall e, e ∈ rm_entries m0 <-> e ∈ rm_entries m) by (intros e; by rewrite Hp0).
    assert (Hse : forall e, smallest_entry m0 g o r e <-> smallest_entry m g o r e).
    { intros e. unfold smallest_entry. rewrite Hin. by setoid_rewrite Hin. }
    split.
    - intros Hc. rewrite Hc in Hs. by setoid_rewrite Hse in Hs.
    - intros (e & He & <-). destruct (config_for_region_smallest_chain m0 g o r) as [id|].
      + destruct Hs as (e' & He'%Hse & <-). by rewrite (smallest_entry_unique m g o r e e' Hnd Ht He He').
      + destruct He as (He%Hin & Hr & _). specialize (Hs e He). congruence. }
  split; [by apply Hiff |].
  destruct (config_for_region_smallest_chain m' g o r) as [id|] eqn:H'.
  - apply (Hiff m' Hp) in H'. symmetry. by apply Hiff.
  - destruct (config_for_region_smallest_chain m g o r) as [id|] eqn:Hm; [|done].
    apply Hiff in Hm; [|done]. apply (Hiff m' Hp) in Hm. congruence.
Qed.

(** ** Promotion *)

(** A promoted region: it has the config of its smallest entry, or is unchanged when the
    map has no entry for it. *)
Definition promoted_region (m : RegionMapIR) (index : Z) (r r' : ActiveRegion) : Prop :=
  r' = with_resolved_config r (ar_resolved_config r') /\
  ((exists e, smallest_entry m index (ar_object_id r) (ar_region_id r) e /\
      rm_configs m !! Z.to_nat (rp_config e.2) = Some (ar_resolved_config r')) \/
   (forall e, e ∈ rm_entries m -> same_region index (ar_object_id r) (ar_region_id r) e.1 = false) /\ r' = r).

Definition promoted_layer (m : RegionMapIR) (l l' : GlobalLayer) : Prop :=
  l' = with_active_regions l (gl_active_regions l') /\
  Forall2 (promoted_region m (gl_index l)) (gl_active_regions l) (gl_active_regions l').

(** Promotion after region mapping: when every entry of the region map names a pooled
    config, promotion does not panic; it replaces the layers of the plan by the
    committed ones and changes nothing else, each active region carrying the config of
    its smallest map entry, or its own when it has none. *)
Theorem promotion_resolves_regions (plan : ExecutionPlan) (layers : list GlobalLayer) (m : RegionMapIR)
    (Hm : ids_in_range m) :
  exists layers', promote_global_layers plan (Some layers) (Some m) = Done (with_global_layers plan layers') /\
    Forall2 (promoted_layer m) layers layers'.
Proof.
  destruct (map_exec_Forall2 (fun layer =>
      let! rs := map_exec (backfill_active_region m (gl_index layer)) (gl_active_regions layer) in
      Done (with_active_regions layer rs)) (promoted_layer m) layers) as (layers' & Hl & Hf).
  { intros layer _. destruct (map_exec_Forall2 (backfill_active_region m (gl_index layer))
      (promoted_region m (gl_index layer)) (gl_active_regions layer)) as (rs & -> & Hr).
    - intros r _. pose proof (smallest_chain_entry m (gl_index layer) (ar_object_id r) (ar_region_id r)) as Hs.
      unfold backfill_active_region. destruct (config_for_region_smallest_chain _ _ _ _) as [id|].
      + destruct Hs as (e & He & <-). destruct (Hm e (proj1 He)) as [c Hc].
        unfold config_for_raw. rewrite Hc. eexists. split; [reflexivity |]. split; [done |]. left. by exists e.
      + exists r. split; [done |]. split; [by destruct r | by right].
    - eexists. split; [reflexivity |]. by split. }
  exists layers'. split; [|done]. unfold promote_global_layers, backfill_active_region_configs. by rewrite Hl.
Qed.

(** ** Samples *)

Definition sample_config (holder : string) : ResolvedConfig :=
  {| rc_support_type := NormalAuto; rc_top_fill_holder := ""; rc_bottom_fill_holder := "";
     rc_bridge_fill_holder := ""; rc_sparse_fill_holder := holder; rc_fill_authored_coloring := []; rc_rendered := ∅; rc_extensions := ∅ |}.

Definition painted_key (tool : Z) : RegionKey :=
  {| rk_global_layer_index := 0; rk_object_id := "cube"; rk_region_id := 1;
     rk_variant_chain := [("material", PaintToolIndex tool)] |}.

Definition sample_plan_entry (id : Z) : RegionPlan :=
  {| rp_config := id; rp_stage_modules := ∅; rp_paint_overrides := [] |}.

(** A region with two painted variants and no unpainted entry. *)
Definition sample_map : RegionMapIR :=
  {| rm_schema_version := SemVer_default;
     rm_entries := [(painted_key 2, sample_plan_entry 0); (painted_key 1, sample_plan_entry 1)];
     rm_configs := [sample_config "lines"; sample_config "gyroid"] |}.

Definition sample_map_reordered : RegionMapIR :=
  {| rm_schema_version := SemVer_default; rm_entries := reverse (rm_entries sample_map);
     rm_configs := rm_configs sample_map |}.

Lemma smallest_chain_deterministic_witness :
  config_for_region_smallest_chain sample_map_reordered 0 "cube" 1 =
  config_for_region_smallest_chain sample_map 0 "cube" 1.
Proof.
  refine (proj2 (smallest_chain_deterministic sample_map sample_map_reordered 0 "cube" 1 _ _ _)).
  - apply NoDup_cons. split; [|apply NoDup_singleton]. intros H%list_elem_of_singleton. discriminate H.
  - apply Permutation_swap.
  - intros e He s x Hx. cbn [rm_entries sample_map] in He; rewrite !elem_of_cons, elem_of_nil in He.
    destruct He as [-> | [-> | []]]; apply list_elem_of_singleton in Hx; discriminate Hx.
Defined.

Definition painted_layer : GlobalLayer :=
  {| gl_index := 0; gl_z := F32 0;
     gl_active_regions := [{| ar_object_id := "cube"; ar_region_id := 1; ar_resolved_config := sample_config "";
        ar_effective_layer_height := F32 0; ar_nonplanar_shell := None; ar_is_catchup_layer := false;
        ar_catchup_z_bottom := F32 0; ar_tool_index := 0 |}];
     gl_has_nonplanar := false; gl_is_sync_layer := false; gl_is_raft := false |}.

Lemma promotion_resolves_regions_witness :
  exists layers', promote_global_layers ExecutionPlan_default (Some [painted_layer]) (Some sample_map) =
      Done (with_global_layers ExecutionPlan_default layers') /\ length layers' = 1%nat.
Proof.
  destruct (promotion_resolves_regions ExecutionPlan_default [painted_layer] sample_map) as (layers' & Hp & Hf).
  { intros e He. cbn [rm_entries sample_map] in He; rewrite !elem_of_cons, elem_of_nil in He.
    destruct He as [-> | [-> | []]]; eexists; reflexivity. }
  exists layers'. split; [exact Hp |]. symmetry. exact (Forall2_length _ _ _ Hf).
Defined.
