(* ===== verification/PolygonOps.v ===== *)
(** Boolean operations on polygons ([slicer-core/src/polygon_ops.rs], [clip_polygons] and
    its wrappers).

    Clipper2 computes the operation on flat lists of rings and answers with a tree of
    rings; [boolean_op_tree_64] stands for it.  Modelled is what the program does around
    it: flattening, rebuilding contours, holes and islands from the tree, and the
    orientation of the rings. *)
From stdpp Require Import prelude list.
From S2P Require Import Prelude Ir Float32 PreparationStore Planar.

#[local] Open Scope list_scope.
#[local] Open Scope Z_scope.

(** ** Signed area *)

Definition wrap_cross (p q : Point2) : Z :=
  wrap_i64 (wrap_i64 (px p * py q) - wrap_i64 (px q * py p)).

(** The sum of [signed_area_points] ([i64] with the wrap-around of a release build): twice
    the area.  The callers only look at the sign of [area as f64 * 0.5]. *)
Definition signed_area_points (pts : list Point2) : Z :=
  if (length pts <? 3)%nat then 0
  else foldl (fun area e => wrap_i64 (area + wrap_cross e.1 e.2)) 0 (edges pts).

(** ** Flattening *)

Definition polygon_to_path (poly : Polygon) : list Point2 := points poly.

Definition expolygon_to_paths (e : ExPolygon) : list (list Point2) :=
  polygon_to_path (contour e) :: (polygon_to_path <$> holes e).

(** ** Trees of rings *)

(** A node of the [PolyTree64] of Clipper2: its ring and its children. *)
Inductive PolyPath := PolyNode (polygon : list Point2) (children : list PolyPath).

Definition node_polygon (n : PolyPath) : list Point2 := let 'PolyNode p _ := n in p.
Definition node_children (n : PolyPath) : list PolyPath := let 'PolyNode _ cs := n in cs.

Definition oriented_ring (path : list Point2) (want_ccw : bool) : list Point2 :=
  let is_ccw := 0 <? signed_area_points path in
  if Bool.eqb is_ccw want_ccw then path else reverse path.

Definition hole_of (n : PolyPath) : option Polygon :=
  let hole := oriented_ring (node_polygon n) false in
  if (3 <=? length hole)%nat then Some {| points := hole |} else None.

(** The islands inside the holes come first, then the polygon of the node itself. *)
Fixpoint collect_expolygon_from_tree (n : PolyPath) : list ExPolygon :=
  match n with
  | PolyNode polygon children =>
      let contour := oriented_ring polygon true in
      let inner := flat_map (fun h => match h with
                                      | PolyNode _ islands => flat_map collect_expolygon_from_tree islands
                                      end) children in
      let holes := omap hole_of children in
      inner ++ (if (3 <=? length contour)%nat
                then [{| contour := {| points := contour |}; holes := holes |}] else [])
  end.

Definition expolygons_from_tree (tree : PolyPath) : list ExPolygon :=
  flat_map collect_expolygon_from_tree (node_children tree).

(** ** The operations *)

Inductive ClipOperation := Union | Intersection | Difference | Xor.

Section clip.
Context (boolean_op_tree_64 : ClipOperation -> list (list Point2) -> list (list Point2) -> PolyPath).

Definition clip_polygons (subject clip : list ExPolygon) (op : ClipOperation) : list ExPolygon :=
  expolygons_from_tree
    (boolean_op_tree_64 op (flat_map expolygon_to_paths subject) (flat_map expolygon_to_paths clip)).

Definition union (subject clip : list ExPolygon) : list ExPolygon := clip_polygons subject clip Union.
Definition intersection (subject clip : list ExPolygon) : list ExPolygon :=
  clip_polygons subject clip Intersection.
Definition difference (subject clip : list ExPolygon) : list ExPolygon :=
  clip_polygons subject clip Difference.
Definition xor (subject clip : list ExPolygon) : list ExPolygon := clip_polygons subject clip Xor.
Definition union_ex (subject : list ExPolygon) : list ExPolygon := union subject [].
Definition intersection_ex (a b : list ExPolygon) : list ExPolygon := intersection a b.
Definition difference_ex (subject clip : list ExPolygon) : list ExPolygon := difference subject clip.
End clip.

(** ** Orientation

    A ring of at most [2 ^ 15] points within [2 ^ 23] units of the origin (839 mm) has an
    area that the [i64] sum computes exactly. *)

Definition small_ring (pts : list Point2) : Prop :=
  Z.of_nat (length pts) <= 2 ^ 15 /\ Forall (within (2 ^ 23)) pts.

Definition shoelace (p q : Point2) : Z := px p * py q - py p * px q.

Fixpoint chain (pts : list Point2) : Z :=
  match pts with
  | p :: (q :: _) as rest => shoelace p q + chain rest
  | _ => 0
  end.

Lemma chain_cons p q l : chain (p :: q :: l) = shoelace p q + chain (q :: l).
Proof. done. Qed.

Lemma chain_snoc l p q : chain (l ++ [p; q]) = chain (l ++ [p]) + shoelace p q.
Proof.
  induction l as [|a l IH]; [simpl; lia |]. destruct l as [|b l].
  - simpl in *. lia.
  - change ((a :: b :: l) ++ [p; q]) with (a :: b :: (l ++ [p; q])).
    change ((a :: b :: l) ++ [p]) with (a :: b :: (l ++ [p])). rewrite !chain_cons.
    change (b :: l ++ [p; q]) with ((b :: l) ++ [p; q]). rewrite IH. simpl app. lia.
Qed.

Lemma chain_reverse l : chain (reverse l) = - chain l.
Proof.
  induction l as [|p l IH]; [done |]. destruct l as [|q l]; [done |].
  rewrite chain_cons, !reverse_cons, <- (assoc_L (++)). change ([q] ++ [p]) with [q; p].
  rewrite chain_snoc, <- reverse_cons, IH. unfold shoelace. lia.
Qed.

Lemma area2_chain p l : area2 (edges (p :: l)) = chain (p :: l ++ [p]).
Proof.
  change (edges (p :: l)) with (zip (p :: l) (l ++ [p])).
  generalize p at 2 4 as z. intros z. revert p. induction l as [|q l IH]; intros p.
  - simpl. unfold shoelace. lia.
  - change (zip (p :: q :: l) ((q :: l) ++ [z])) with ((p, q) :: zip (q :: l) (l ++ [z])).
    change (p :: (q :: l) ++ [z]) with (p :: q :: (l ++ [z])). rewrite chain_cons, <- IH.
    done.
Qed.

Lemma chain_rotate l p : chain ((l ++ [p]) ++ take 1 (l ++ [p])) = chain (p :: l ++ [p]).
Proof.
  destruct l as [|h l]; [done |]. change (take 1 ((h :: l) ++ [p])) with [h].
  rewrite <- (assoc_L (++)). change ([p] ++ [h]) with [p; h]. rewrite chain_snoc.
  change (p :: (h :: l) ++ [p]) with (p :: h :: (l ++ [p])). rewrite chain_cons. simpl app. lia.
Qed.

Lemma area2_reverse pts : area2 (edges (reverse pts)) = - area2 (edges pts).
Proof.
  destruct pts as [|p l]; [done |]. rewrite area2_chain, <- chain_reverse.
  rewrite !reverse_cons, reverse_app. change (reverse [p]) with [p].
  change (([p] ++ reverse l) ++ [p]) with (p :: reverse l ++ [p]). rewrite <- chain_rotate.
  destruct (reverse l) as [|h t] eqn:Hr.
  - done.
  - change ((h :: t) ++ [p]) with (h :: (t ++ [p])). rewrite area2_chain. done.
Qed.

Lemma area_fold m es acc :
  0 <= m -> Forall (fun e => within m e.1 /\ within m e.2) es ->
  Z.abs acc + Z.of_nat (length es) * (2 * (m * m)) <= i64_max ->
  foldl (fun area e => wrap_i64 (area + wrap_cross e.1 e.2)) acc es = acc + area2 es.
Proof.
  intros Hm. revert acc. induction es as [|[p q] es IH]; intros acc Hf Hb; simpl; [lia |].
  apply Forall_cons in Hf as [[[Hpx Hpy] [Hqx Hqy]] Hf]. simpl in *.
  rewrite Nat2Z.inj_succ in Hb.
  assert (H1 : Z.abs (px p * py q) <= m * m) by (rewrite Z.abs_mul; nia).
  assert (H2 : Z.abs (px q * py p) <= m * m) by (rewrite Z.abs_mul; nia).
  assert (H0 : 0 <= Z.of_nat (length es) * (2 * (m * m))) by nia.
  unfold i64_max in Hb.
  assert (Hc : wrap_cross p q = px p * py q - py p * px q).
  { unfold wrap_cross. rewrite (wrap_i64_small (px p * py q)), (wrap_i64_small (px q * py p)),
      wrap_i64_small by (unfold i64_min, i64_max; lia). lia. }
  rewrite Hc, wrap_i64_small by (unfold i64_min, i64_max; lia). rewrite IH; [lia | done |].
  unfold i64_max. lia.
Qed.

Lemma signed_area_exact pts :
  small_ring pts -> signed_area_points pts = if (length pts <? 3)%nat then 0 else area2 (edges pts).
Proof.
  intros [Hn Hw]. unfold signed_area_points. destruct (_ <? 3)%nat; [done |].
  rewrite (area_fold (2 ^ 23)); [done | lia | by apply within_edges |].
  rewrite length_edges. unfold i64_max. simpl Z.abs. lia.
Qed.

(** A ring is turned to the asked side; only a ring without area may stay on the other. *)
Lemma oriented_ring_spec path ccw :
  small_ring path -> (3 <= length path)%nat ->
  let ring := oriented_ring path ccw in
  ring ≡ₚ path /\ if ccw then 0 <= area2 (edges ring) else area2 (edges ring) <= 0.
Proof.
  intros Hs Hl ring. unfold ring, oriented_ring. rewrite signed_area_exact by done.
  rewrite (proj2 (Nat.ltb_ge (length path) 3)) by done.
  destruct (Z.ltb_spec 0 (area2 (edges path))), ccw; simpl;
    (split; [done || apply reverse_Permutation |]); rewrite ?area2_reverse; lia.
Qed.

(** ** The polygons of a tree *)

(** The islands directly inside the holes of a contour. *)
Definition island (n m : PolyPath) : Prop :=
  exists h, h ∈ node_children n /\ m ∈ node_children h.

Definition expolygon_of (n : PolyPath) : ExPolygon :=
  {| contour := {| points := oriented_ring (node_polygon n) true |};
     holes := omap hole_of (node_children n) |}.

Section tree_induction.
Context (Q : PolyPath -> Prop) (HQ : forall p cs, Forall Q cs -> Q (PolyNode p cs)).
Fixpoint PolyPath_nested (n : PolyPath) : Q n :=
  match n with
  | PolyNode p cs =>
      HQ p cs ((fix go (l : list PolyPath) : Forall Q l :=
                  match l with [] => Forall_nil_2 _ | c :: l => Forall_cons_2 _ _ _ (PolyPath_nested c) (go l) end) cs)
  end.
End tree_induction.

Lemma length_oriented path ccw : length (oriented_ring path ccw) = length path.
Proof. unfold oriented_ring. case_match; [done | apply length_reverse]. Qed.

Lemma collect_unfold p cs :
  collect_expolygon_from_tree (PolyNode p cs) =
  flat_map (fun h => flat_map collect_expolygon_from_tree (node_children h)) cs ++
  (if (3 <=? length p)%nat then [expolygon_of (PolyNode p cs)] else []).
Proof.
  simpl. rewrite length_oriented. f_equal. apply flat_map_ext. by intros [].
Qed.

Lemma elem_of_flat_map {A B} (f : A -> list B) l y :
  y ∈ flat_map f l <-> exists x, x ∈ l /\ y ∈ f x.
Proof. rewrite list_elem_of_In, in_flat_map. by setoid_rewrite list_elem_of_In. Qed.

Lemma collect_spec_both n e :
  (e ∈ collect_expolygon_from_tree n <->
   exists m, rtc island n m /\ (3 <= length (node_polygon m))%nat /\ e = expolygon_of m) /\
  (forall i, i ∈ node_children n -> e ∈ collect_expolygon_from_tree i <->
   exists m, rtc island i m /\ (3 <= length (node_polygon m))%nat /\ e = expolygon_of m).
Proof.
  induction n as [p cs IH] using PolyPath_nested. rewrite Forall_forall in IH.
  split; [|intros i Hi; by apply IH]. rewrite collect_unfold, elem_of_app, elem_of_flat_map. split.
  - intros [(h & Hh & He) | He].
    + apply elem_of_flat_map in He as (i & Hi & He). apply (IH h Hh) in He; [|done].
      destruct He as (m & Hm & Hl & ->). exists m. split; [|done].
      eapply rtc_l; [|done]. exists h. done.
    + destruct (Nat.leb_spec 3 (length p)); [|set_solver].
      apply list_elem_of_singleton in He as ->. exists (PolyNode p cs). split; [apply rtc_refl | done].
  - intros (m & Hm & Hl & ->). inversion Hm as [| ? i ? [h [Hh Hi]] Hi2]; subst.
    + right. simpl in Hl. rewrite (proj2 (Nat.leb_le _ _) Hl). set_solver.
    + left. exists h. split; [done |]. apply elem_of_flat_map. exists i. split; [done |].
      apply (IH h Hh); [done |]. eauto.
Qed.

(** Every ring of the tree has an exact area. *)
Fixpoint small_tree (n : PolyPath) : Prop :=
  match n with PolyNode p cs => small_ring p /\ fold_right (fun c P => small_tree c /\ P) True cs end.

Lemma small_tree_child n c : small_tree n -> c ∈ node_children n -> small_tree c.
Proof.
  destruct n as [p cs]. simpl. intros [_ H] Hc. induction cs as [|d cs IH]; [set_solver |].
  simpl in H. apply elem_of_cons in Hc as [-> | Hc]; [apply H | apply IH; [apply H | done]].
Qed.

Lemma small_tree_ring n : small_tree n -> small_ring (node_polygon n).
Proof. destruct n. by intros [? _]. Qed.

(** [C39].  The polygons rebuilt from a tree of rings are exactly those of the outer rings with
    at least three points, at every depth: the children of the root and, repeatedly, the
    islands inside holes.  Each has as holes the inner rings directly below it, its contour
    is never clockwise and its holes are never counterclockwise. *)
Theorem tree_polygons_exact (tree : PolyPath) (Hs : small_tree tree) (e : ExPolygon) :
  (e ∈ expolygons_from_tree tree <->
   exists n m, n ∈ node_children tree /\ rtc island n m /\
     (3 <= length (node_polygon m))%nat /\ e = expolygon_of m) /\
  (e ∈ expolygons_from_tree tree ->
   0 <= area2 (edges (points (contour e))) /\
   forall h, h ∈ holes e -> (3 <= length (points h))%nat /\ area2 (edges (points h)) <= 0).
Proof.
  assert (Hiff : e ∈ expolygons_from_tree tree <->
    exists n m, n ∈ node_children tree /\ rtc island n m /\
      (3 <= length (node_polygon m))%nat /\ e = expolygon_of m).
  { unfold expolygons_from_tree. rewrite elem_of_flat_map. split.
    - intros (n & Hn & He). apply collect_spec_both in He as (m & ? & ? & ?). eauto 7.
    - intros (n & m & Hn & Hm & Hl & ->). exists n. split; [done |]. apply collect_spec_both. eauto. }
  split; [done |]. intros (n & m & Hn & Hm & Hl & ->)%Hiff.
  assert (Hsm : small_tree m).
  { assert (Hsn : small_tree n) by (by eapply small_tree_child).
    clear Hl Hiff Hn. induction Hm as [|x y z [h [Hh Hy]] _ IH]; [done |]. apply IH.
    eapply small_tree_child; [|done]. by eapply small_tree_child. }
  split.
  - by apply (oriented_ring_spec _ true (small_tree_ring _ Hsm)).
  - intros h Hh. apply list_elem_of_omap in Hh as (c & Hc & Hh). unfold hole_of in Hh.
    rewrite length_oriented in Hh. destruct (Nat.leb_spec 3 (length (node_polygon c))) as [Hcl |]; [|done].
    injection Hh as <-. simpl. rewrite length_oriented. split; [done |].
    apply (oriented_ring_spec _ false); [|done]. by apply small_tree_ring, (small_tree_child m).
Qed.

(** ** Witness *)

Definition sample_tree : PolyPath :=
  PolyNode [] [PolyNode [Pt 0 0; Pt 0 100; Pt 100 100; Pt 100 0]
                 [PolyNode [Pt 10 10; Pt 90 10; Pt 90 90; Pt 10 90]
                    [PolyNode [Pt 20 20; Pt 30 20; Pt 30 30; Pt 20 30] []]]].

Lemma sample_tree_small : small_tree sample_tree.
Proof.
  assert (Hring : forall pts, (length pts <= 4)%nat ->
            forallb (fun p => (Z.abs (px p) <=? 100) && (Z.abs (py p) <=? 100)) pts = true -> small_ring pts).
  { intros pts Hl Hb. split; [lia |]. apply Forall_forall. intros p Hp%list_elem_of_In.
    rewrite forallb_forall in Hb. specialize (Hb p Hp). apply andb_true_iff in Hb as [Hx Hy].
    apply Z.leb_le in Hx, Hy. split; lia. }
  cbn [small_tree fold_right sample_tree].
  do 4 (split; [apply Hring; [simpl; lia | reflexivity] |]; try (split; [| exact I])). exact I.
Defined.

(** A clockwise contour is turned; the island in its hole is a polygon of its own. *)
Lemma tree_polygons_exact_witness :
  exists e, e ∈ expolygons_from_tree sample_tree /\ length (holes e) = 1%nat /\
    0 <= area2 (edges (points (contour e))).
Proof.
  set (e := expolygon_of (PolyNode [Pt 0 0; Pt 0 100; Pt 100 100; Pt 100 0]
                 [PolyNode [Pt 10 10; Pt 90 10; Pt 90 90; Pt 10 90]
                    [PolyNode [Pt 20 20; Pt 30 20; Pt 30 30; Pt 20 30] []]])).
  destruct (tree_polygons_exact sample_tree sample_tree_small e) as [Hin Hok].
  assert (He : e ∈ expolygons_from_tree sample_tree).
  { apply Hin. eexists _, _. split; [left |]. split; [apply rtc_refl |]. split; [vm_compute; lia | reflexivity]. }
  exists e. split; [exact He |]. split; [reflexivity | exact (proj1 (Hok He))].
Defined.
