(* ===== verification/OrderLock.v ===== *)
(** Order locks ([slicer-sdk/src/order_lock.rs], and the functions of
    [slicer-runtime/src/layer_executor.rs] from [apply_entity_order_proposal] to
    [apply_order_proposal]).

    A module locks a sequence of paths by giving them a tag.  The host rewrites local
    tags to tags of the layer, checks that a module that replaces the infill kept the
    locked sequences, and checks that a proposed print order moves a locked sequence as
    a whole. *)
From stdpp Require Import prelude gmap strings list.
From S2P Require Import Prelude Ir Float32 Blackboard LayerArena Planar LayerIr.

#[local] Open Scope string_scope.
#[local] Open Scope list_scope.
#[local] Open Scope nat_scope.

(** ** Tags *)

Definition GLOBAL_BIT : Z := Z.shiftl 1 63.

Module Allocator.
Record OrderLockAllocator := { next : Z }.

Definition new : OrderLockAllocator := {| next := 1 |}.
Definition from_next (n : Z) : OrderLockAllocator := {| next := n |}.

Definition allocate (a : OrderLockAllocator) : OrderLockAllocator * option Z :=
  if Z.leb (Z.shiftl 1 63) (next a) then (a, None)
  else ({| next := next a + 1 |}%Z, Some (next a)).
End Allocator.

(** [next_global] is a [u64]: [+= 1] wraps. *)
Fixpoint remap_order_locks_to_global (paths : list ExtrusionPath3D) (next_global : Z)
    : list ExtrusionPath3D * Z * result unit string :=
  match paths with
  | [] => ([], next_global, Ok tt)
  | path :: rest =>
      match ep_order_lock path with
      | None =>
          let '(rest, next_global, r) := remap_order_locks_to_global rest next_global in
          (path :: rest, next_global, r)
      | Some tag =>
          if Z.eqb (Z.land tag GLOBAL_BIT) 0 then
            if Z.eqb tag 0 then (path :: rest, next_global, Err "order-lock tag 0 is invalid")
            else
              let path := with_order_lock path (Some (Z.lor GLOBAL_BIT next_global)) in
              let next_global := ((next_global + 1) `mod` (u64_max + 1))%Z in
              let '(rest, next_global, r) := remap_order_locks_to_global rest next_global in
              (path :: rest, next_global, r)
          else if Z.leb (Z.lor GLOBAL_BIT next_global) tag then
            (path :: rest, next_global, Err ("unknown global tag " +:+ show_uint tag))
          else
            let '(rest, next_global, r) := remap_order_locks_to_global rest next_global in
            (path :: rest, next_global, r)
      end
  end.

Definition with_sparse_infill (r : InfillRegion) (paths : list ExtrusionPath3D) : InfillRegion :=
  {| if_object_id := if_object_id r; if_region_id := if_region_id r;
     if_variant_chain := if_variant_chain r; sparse_infill := paths;
     solid_infill := solid_infill r; ironing := ironing r;
     internal_bridge_infill := internal_bridge_infill r |}.

Definition with_inf_regions (ir : InfillIR) (rs : list InfillRegion) : InfillIR :=
  {| inf_schema_version := inf_schema_version ir; inf_global_layer_index := inf_global_layer_index ir;
     inf_regions := rs; inf_raft_regions := inf_raft_regions ir |}.

Definition slicer_runtime_order_lock_remap (paths : list ExtrusionPath3D) (next : Z)
    : list ExtrusionPath3D * Z * result unit LayerStageError :=
  match remap_order_locks_to_global paths next with
  | (paths, next, Ok u) => (paths, next, Ok u)
  | (paths, next, Err message) => (paths, next, Err (OrderLockViolation message))
  end.

Fixpoint remap_regions (regions : list InfillRegion) (next : Z)
    : list InfillRegion * result unit LayerStageError :=
  match regions with
  | [] => ([], Ok tt)
  | region :: rest =>
      match slicer_runtime_order_lock_remap (sparse_infill region) next with
      | (paths, next, Ok _) =>
          let '(rest, r) := remap_regions rest next in
          (with_sparse_infill region paths :: rest, r)
      | (paths, _, Err e) => (with_sparse_infill region paths :: rest, Err e)
      end
  end.

Definition remap_infill_order_locks_from (ir : InfillIR) (next : Z)
    : InfillIR * result unit LayerStageError :=
  let '(regions, r) := remap_regions (inf_regions ir) next in (with_inf_regions ir regions, r).

Definition sparse_locks (ir : InfillIR) : list Z :=
  omap ep_order_lock (concat (sparse_infill <$> inf_regions ir)).

Definition next_global_infill_tag (ir : InfillIR) : Z :=
  let tags := (fun tag => Z.land tag (Z.lnot GLOBAL_BIT)) <$>
              filter (fun tag => Z.land tag GLOBAL_BIT ≠ 0%Z) (sparse_locks ir) in
  match tags with
  | [] => 0
  | t :: ts => foldr Z.max t ts + 1
  end%Z.

(** ** Proposed print orders *)

(** [(start + 1..=len).find(|&i| i == len || !same(i)).unwrap_or(len)]. *)
Definition run_end (same : nat -> bool) (start len : nat) : nat :=
  default len (find_first (fun i => (i =? len) || negb (same i)) (seq (start + 1) (len - start))).

Definition entity_lock (entities : list PrintEntity) (i : nat) : option Z :=
  entities !! i ≫= fun e => ep_order_lock (pe_path e).

Definition in_block (start end_ : nat) (idx : Z) : bool :=
  (start <=? Z.to_nat idx) && (Z.to_nat idx <? end_).

(** The slots of the proposal that hold an index of the block; [None] is the marker
    [usize::MAX] of an index that is reversed (no vector has a slot of that number). *)
Definition block_positions (proposal : list (Z * bool)) (start end_ : nat) : list (option nat) :=
  omap (fun e : nat * (Z * bool) =>
          if in_block start end_ e.2.1 then Some (if e.2.2 then None else Some e.1) else None)
       (enumerate proposal).

(** [positions.windows(2).all(|w| w[1] == w[0] + 1)]. *)
Fixpoint contiguous (positions : list nat) : bool :=
  match positions with
  | a :: (b :: _) as rest => (b =? a + 1) && contiguous rest
  | _ => true
  end.

Definition is_marker (p : option nat) : bool := match p with Some _ => false | None => true end.

Definition validate_block (entities : list PrintEntity) (proposal : list (Z * bool)) (start : nat)
    : result unit string :=
  match entity_lock entities start with
  | None => Ok tt
  | Some tag =>
      let same i := bool_decide (entity_lock entities i = Some tag) in
      if (0 <? start) && same (start - 1)%nat then Ok tt
      else
        let end_ := run_end same start (length entities) in
        let positions := block_positions proposal start end_ in
        if existsb is_marker positions then
          Err ("set-entity-order: locked block " +:+ show_uint tag +:+ " was reversed")
        else if negb (length positions =? end_ - start) then
          Err ("set-entity-order: locked block " +:+ show_uint tag +:+ " was split")
        else
          let slots := omap id positions in
          let ordered := forallb (fun e : nat * nat =>
            match proposal !! e.2 with
            | Some (idx, _) => Z.to_nat idx =? start + e.1
            | None => false
            end) (enumerate slots) in
          if negb (contiguous slots) || negb ordered then
            Err ("set-entity-order: locked block " +:+ show_uint tag +:+ " was interleaved or reordered")
          else Ok tt
  end.

Definition validate_entity_order_locks (entities : list PrintEntity) (proposal : list (Z * bool))
    : result unit string :=
  for_each (validate_block entities proposal) (seq 0 (length entities)).

Section order_proposal.
Context {T : Type} (reverse_item : T -> T) (set_topo_order : T -> Z -> T).

Definition check_index (n : nat) (e : Z * bool) : result unit string :=
  if n <=? Z.to_nat e.1 then
    Err ("set-entity-order: index " +:+ show_uint e.1 +:+ " out of range [0, " +:+
         show_uint (Z.of_nat n) +:+ ")")
  else Ok tt.

Fixpoint check_unique (seen : list bool) (proposal : list (Z * bool)) : result unit string :=
  match proposal with
  | [] => Ok tt
  | (idx, _) :: rest =>
      match seen !! Z.to_nat idx with
      | Some true => Err ("set-entity-order: duplicate index " +:+ show_uint idx)
      | _ => check_unique (<[Z.to_nat idx := true]> seen) rest
      end
  end.

(** The last loop: each slot takes its item out of the buckets. *)
Fixpoint place (buckets : list (option T)) (new_slot : nat) (proposal : list (Z * bool))
    : exec (list T) :=
  match proposal with
  | [] => Done []
  | (idx, reverse) :: rest =>
      match buckets !! Z.to_nat idx with
      | Some (Some item) =>
          let item := if reverse then reverse_item item else item in
          let item := set_topo_order item (wrap_u32 (Z.of_nat new_slot)) in
          let! items := place (<[Z.to_nat idx := None]> buckets) (S new_slot) rest in
          Done (item :: items)
      | _ => Panicked
      end
  end.

Definition check_proposal (n : nat) (proposal : list (Z * bool)) : result unit string :=
  if negb (length proposal =? n) then
    Err ("set-entity-order: expected " +:+ show_uint (Z.of_nat n) +:+ " indices, got " +:+
         show_uint (Z.of_nat (length proposal)))
  else
    let? _ := for_each (check_index n) proposal in
    check_unique (replicate n false) proposal.

Definition apply_order_proposal (items : list T) (proposal : list (Z * bool))
    : exec (list T * result unit string) :=
  match check_proposal (length items) proposal with
  | Err message => Done (items, Err message)
  | Ok _ =>
      let! items := place (Some <$> items) 0 proposal in
      Done (items, Ok tt)
  end.
End order_proposal.

Definition reverse_points (e : PrintEntity) : PrintEntity :=
  {| pe_entity_id := pe_entity_id e;
     pe_path := with_points (pe_path e) (reverse (ep_points (pe_path e)));
     pe_role := pe_role e; pe_region_key := pe_region_key e;
     pe_topo_order := pe_topo_order e; pe_tool_index := pe_tool_index e |}.

Definition with_topo_order (e : PrintEntity) (topo_order : Z) : PrintEntity :=
  {| pe_entity_id := pe_entity_id e; pe_path := pe_path e; pe_role := pe_role e;
     pe_region_key := pe_region_key e; pe_topo_order := topo_order;
     pe_tool_index := pe_tool_index e |}.

(** ** Locked infill blocks *)

(** [range.all(p)] where [p] indexes a vector and may panic. *)
Fixpoint all_range (p : nat -> option bool) (l : list nat) : option bool :=
  match l with
  | [] => Some true
  | j :: l => b ← p j; if b : bool then all_range p l else Some false
  end.

(** The search of one block in the new paths; [None] is an index out of bounds. *)
Fixpoint find_block (new_paths block : list ExtrusionPath3D) (starts : list nat) : option bool :=
  match starts with
  | [] => Some false
  | i :: starts =>
      points_match ← all_range (fun j =>
        p ← new_paths !! (i + j)%nat; q ← block !! j; Some (points_eqb (ep_points p) (ep_points q)))
        (seq 0 (length block));
      all_tagged ← all_range (fun j =>
        p ← new_paths !! (i + j)%nat; Some (bool_decide (is_Some (ep_order_lock p))))
        (seq 0 (length block));
      if (points_match : bool) && (all_tagged : bool) then Some true
      else find_block new_paths block starts
  end.

Definition path_locked (paths : list ExtrusionPath3D) (i : nat) : bool :=
  bool_decide (is_Some (paths !! i ≫= ep_order_lock)).

Definition validate_infill_block (old_paths new_paths : list ExtrusionPath3D) (start : nat)
    : exec (result unit string) :=
  match old_paths !! start ≫= ep_order_lock with
  | None => Done (Ok tt)
  | Some tag =>
      if (0 <? start) && path_locked old_paths (start - 1)%nat then Done (Ok tt)
      else
        let end_ := run_end (path_locked old_paths) start (length old_paths) in
        let block_len := (end_ - start)%nat in
        let block := take block_len (drop start old_paths) in
        match find_block new_paths block (seq 0 (length new_paths - block_len + 1)) with
        | None => Panicked
        | Some true => Done (Ok tt)
        | Some false =>
            Done (Err ("locked infill block " +:+ show_uint tag +:+
                       " was dropped, reordered, or changed"))
        end
  end.

Definition validate_infill_region (replacement : InfillIR) (old_region : InfillRegion)
    : exec (result unit string) :=
  match list_find (fun r => infill_key r = infill_key old_region) (inf_regions replacement) with
  | None =>
      if existsb (fun p => bool_decide (is_Some (ep_order_lock p))) (sparse_infill old_region)
      then Done (Err "locked infill region was dropped")
      else Done (Ok tt)
  | Some (_, new_region) =>
      for_each_exec (validate_infill_block (sparse_infill old_region) (sparse_infill new_region))
        (seq 0 (length (sparse_infill old_region)))
  end.

Definition validate_infill_order_locks (previous replacement : InfillIR)
    : exec (result unit string) :=
  for_each_exec (validate_infill_region replacement) (inf_regions previous).

(** ** The arena operation *)

Section arena_order.
Context {P : PrepassTypes}.
#[local] Existing Instance layer_types.

Definition apply_entity_order_proposal (arena : LayerArena) (proposal : list (Z * bool))
    : exec (LayerArena * result unit string) :=
  match layer_collection arena with
  | None => Done (arena, Err "set-entity-order: no LayerCollectionIR staged on arena")
  | Some lc =>
      match validate_entity_order_locks (ordered_entities lc) proposal with
      | Err message => Done (arena, Err message)
      | Ok _ =>
          let '(arena, taken) := take_layer_collection arena in
          match taken with
          | None => Panicked
          | Some lc =>
              let! out := apply_order_proposal reverse_points with_topo_order
                            (ordered_entities lc) proposal in
              let '(entities, r) := out in
              Done (set_layer_collection arena (with_ordered_entities lc entities), r)
          end
      end
  end.
End arena_order.

(** ** Runs of equal locks *)

(** A maximal run: [f] holds on [start..end_) and neither before nor after it. *)
Record run (f : nat -> bool) (len start end_ : nat) : Prop := {
  run_lt : start < end_ <= len;
  run_in : forall i, start <= i < end_ -> f i = true;
  run_before : start = 0 \/ f (start - 1)%nat = false;
  run_after : end_ = len \/ f end_ = false
}.

Lemma run_end_spec f start len :
  start < len ->
  start < run_end f start len <= len /\
  (forall i, start < i < run_end f start len -> f i = true) /\
  (run_end f start len = len \/ f (run_end f start len) = false).
Proof.
  intros Hlt. unfold run_end.
  destruct (find_first _ _) as [i|] eqn:Hf; simpl.
  - apply find_first_Some in Hf as (l1 & l2 & Hl & Hi & Hl1).
    assert (Hii : i = start + 1 + length l1).
    { assert (Hn : seq (start + 1) (len - start) !! length l1 = Some i)
        by (rewrite Hl; by apply list_lookup_middle).
      apply lookup_seq in Hn as [? _]. lia. }
    assert (Hin : i ∈ seq (start + 1) (len - start)) by (rewrite Hl; set_solver).
    apply elem_of_seq in Hin. split; [lia |]. split.
    + intros j Hj. assert (Hjin : j ∈ l1).
      { apply list_elem_of_lookup. exists (j - (start + 1)).
        assert (seq (start + 1) (len - start) !! (j - (start + 1)) = Some j)
          by (apply lookup_seq; lia).
        rewrite Hl, lookup_app_l in H by lia. done. }
      specialize (Hl1 j Hjin). apply orb_false_iff in Hl1 as [_ Hl1].
      by apply negb_false_iff in Hl1.
    + apply orb_true_iff in Hi as [Hi%Nat.eqb_eq | Hi%negb_true_iff]; auto.
  - rewrite find_first_None in Hf. split; [lia |]. split; [| by left].
    specialize (Hf len). rewrite elem_of_seq, Nat.eqb_refl in Hf. simpl in Hf.
    discriminate Hf. lia.
Qed.

Lemma run_end_run f start len :
  start < len -> f start = true -> (start = 0 \/ f (start - 1)%nat = false) ->
  run f len start (run_end f start len).
Proof.
  intros Hlt Hs Hb. destruct (run_end_spec f start len Hlt) as (H1 & H2 & H3).
  split; [done | | done | done]. intros i Hi.
  destruct (decide (i = start)) as [-> |]; [done | apply H2; lia].
Qed.

Lemma run_unique f len start e1 e2 : run f len start e1 -> run f len start e2 -> e1 = e2.
Proof.
  intros [Hl1 Hi1 _ Ha1] [Hl2 Hi2 _ Ha2].
  destruct (Nat.lt_trichotomy e1 e2) as [? | [? | ?]]; [| done |].
  - destruct Ha1 as [? | Ha1]; [lia |]. rewrite Hi2 in Ha1 by lia. done.
  - destruct Ha2 as [? | Ha2]; [lia |]. rewrite Hi1 in Ha2 by lia. done.
Qed.

(** ** Positions of a block *)

Lemma in_block_true start end_ idx : in_block start end_ idx = true <-> start <= Z.to_nat idx < end_.
Proof. unfold in_block. rewrite andb_true_iff, Nat.leb_le, Nat.ltb_lt. done. Qed.

Lemma elem_of_block_positions proposal start end_ p :
  p ∈ block_positions proposal start end_ <->
  exists slot idx rev, proposal !! slot = Some (idx, rev) /\ start <= Z.to_nat idx < end_ /\
    p = if rev : bool then None else Some slot.
Proof.
  unfold block_positions. rewrite list_elem_of_omap. split.
  - intros ([slot [idx rev]] & Hin & Hp). simpl in Hp. destruct (in_block _ _ _) eqn:Hb; [|done].
    apply elem_of_enumerate in Hin. injection Hp as <-. exists slot, idx, rev.
    split; [done |]. split; [by apply in_block_true | done].
  - intros (slot & idx & rev & Hl & Hb & ->). exists (slot, (idx, rev)). simpl.
    rewrite (proj2 (in_block_true _ _ _) Hb). split; [by apply elem_of_enumerate | done].
Qed.

Lemma omap_id_zip_sublist {A} (g : nat * A -> option (option nat)) (l : list A) k :
  (forall e p, g e = Some p -> p = None \/ p = Some e.1) ->
  omap id (omap g (zip (seq k (length l)) l)) `sublist_of` seq k (length l).
Proof.
  intros Hg. revert k. induction l as [|x l IH]; intros k; simpl; [constructor |].
  destruct (g (k, x)) as [p|] eqn:Hp; [| by constructor].
  destruct (Hg _ _ Hp) as [-> | ->]; simpl; by constructor.
Qed.

Lemma seq_sorted k n : sorted_by Nat.leb (seq k n).
Proof.
  revert k; induction n as [|n IH]; intros k; simpl; [constructor |]. constructor; [apply IH |].
  apply Forall_forall. intros x Hx%elem_of_seq. apply Nat.leb_le. lia.
Qed.

(** A sublist of a [seq] is known by its elements. *)
Lemma sublist_seq_unique l n a m :
  l `sublist_of` seq 0 n -> (forall x, x ∈ l <-> a <= x < a + m) -> l = seq a m.
Proof.
  intros Hs Hx. apply (sorted_by_unique Nat.leb).
  - intros x y ?%Nat.leb_le ?%Nat.leb_le. lia.
  - eapply sorted_by_sublist; [done | apply seq_sorted].
  - apply seq_sorted.
  - apply NoDup_Permutation; [eapply sublist_NoDup; eauto using NoDup_seq | apply NoDup_seq |].
    intros x. by rewrite Hx, elem_of_seq.
Qed.

Lemma contiguous_spec l a : contiguous (a :: l) = true <-> a :: l = seq a (S (length l)).
Proof.
  revert a; induction l as [|b l IH]; intros a; [done |].
  change (contiguous (a :: b :: l)) with ((b =? a + 1) && contiguous (b :: l)).
  change (seq a (S (length (b :: l)))) with (a :: seq (S a) (S (length l))).
  rewrite andb_true_iff, Nat.eqb_eq, IH. split.
  - intros [-> Hl]. f_equal. by rewrite <- (Nat.add_1_r a).
  - intros Hl. injection Hl as -> Hl. split; [lia |]. cbn [seq]. by f_equal.
Qed.

Lemma contiguous_seq a m : contiguous (seq a m) = true.
Proof.
  destruct m as [|m]; [done |]. cbn [seq]. apply contiguous_spec. by rewrite length_seq.
Qed.

(** Every index of the block stands in the proposal, unreversed, at consecutive slots
    in the same order, and nowhere else. *)
Definition kept_in_place (proposal : list (Z * bool)) (start end_ : nat) : Prop :=
  exists s, forall i, start <= i < end_ ->
    exists idx, proposal !! (s + (i - start)) = Some (idx, false) /\ Z.to_nat idx = i /\
    forall slot idx' rev, proposal !! slot = Some (idx', rev) -> Z.to_nat idx' = i ->
      slot = s + (i - start).

Lemma block_positions_sublist proposal start end_ :
  omap id (block_positions proposal start end_) `sublist_of` seq 0 (length proposal).
Proof.
  apply omap_id_zip_sublist. intros [slot [idx rev]] p. simpl.
  destruct (in_block _ _ _); [|done]. intros [= <-]. destruct rev; auto.
Qed.

Lemma omap_id_all_some (l : list (option nat)) : None ∉ l -> l = Some <$> omap id l.
Proof.
  induction l as [|[x|] l IH]; intros Hl; simpl; [done | | set_solver].
  f_equal. apply IH. set_solver.
Qed.

Lemma existsb_marker l : existsb is_marker l = false <-> None ∉ l.
Proof.
  rewrite <- not_true_iff_false, existsb_elem. split.
  - intros H Hin. apply H. by exists None.
  - intros H ([|] & Hin & Hm); done.
Qed.

Lemma ordered_spec (proposal : list (Z * bool)) start (slots : list nat) :
  forallb (fun e : nat * nat =>
    match proposal !! e.2 with Some (idx, _) => Z.to_nat idx =? start + e.1 | None => false end)
    (enumerate slots) = true <->
  forall k slot, slots !! k = Some slot -> exists idx rev, proposal !! slot = Some (idx, rev) /\
    Z.to_nat idx = start + k.
Proof.
  rewrite forallb_forall. split.
  - intros H k slot Hk. specialize (H (k, slot)). simpl in H.
    assert (Hin : In (k, slot) (enumerate slots)) by (by apply list_elem_of_In, elem_of_enumerate).
    specialize (H Hin). destruct (proposal !! slot) as [[idx rev]|]; [|done].
    exists idx, rev. split; [done |]. by apply Nat.eqb_eq.
  - intros H [k slot] Hin%list_elem_of_In%elem_of_enumerate. simpl.
    destruct (H k slot Hin) as (idx & rev & -> & Hi). by apply Nat.eqb_eq.
Qed.

(** The three tests of one block. *)
Lemma positions_accepted (proposal : list (Z * bool)) start end_ :
  start < end_ ->
  let positions := block_positions proposal start end_ in
  let slots := omap id positions in
  (existsb is_marker positions = false /\ length positions = end_ - start /\
   contiguous slots = true /\
   forall k slot, slots !! k = Some slot -> exists idx rev, proposal !! slot = Some (idx, rev) /\
     Z.to_nat idx = start + k) <-> kept_in_place proposal start end_.
Proof.
  intros Hlt positions slots. rewrite existsb_marker. split.
  - intros (Hm & Hlen & Hc & Ho).
    pose proof (omap_id_all_some positions Hm) as Hps. fold slots in Hps.
    assert (Hls : length slots = end_ - start) by (rewrite <- Hlen, Hps; by rewrite length_fmap).
    destruct slots as [|a l] eqn:Hsl; [simpl in Hls; lia |].
    apply contiguous_spec in Hc. simpl in Hls. rewrite Hls in Hc.
    exists a. intros i Hi.
    assert (Hk : (a :: l) !! (i - start) = Some (a + (i - start)))
      by (rewrite Hc; apply lookup_seq; lia).
    destruct (Ho _ _ Hk) as (idx & rev & Hp & Hidx).
    assert (Hin : Some (a + (i - start)) ∈ positions).
    { rewrite Hps. apply list_elem_of_fmap_2. by eapply list_elem_of_lookup_2. }
    apply elem_of_block_positions in Hin as (slot & idx0 & rev0 & Hp0 & _ & Hsome).
    destruct rev0; [done |]. injection Hsome as <-. rewrite Hp in Hp0. injection Hp0 as <- ->.
    exists idx. split; [done |]. split; [lia |].
    intros slot' idx' rev' Hp' Hidx'.
    assert (Hin' : (if rev' : bool then None else Some slot') ∈ positions).
    { apply elem_of_block_positions. exists slot', idx', rev'. split; [done |]. split; [lia | done]. }
    destruct rev'; [done |]. rewrite Hps in Hin'. apply list_elem_of_fmap in Hin' as (x & [= ->] & Hx).
    apply list_elem_of_lookup in Hx as [k Hk']. destruct (Ho _ _ Hk') as (idx1 & rev1 & Hp1 & Hi1).
    rewrite Hc, lookup_seq in Hk'. rewrite Hp' in Hp1. injection Hp1 as <- <-. lia.
  - intros (a & Ha).
    assert (Hm : None ∉ positions).
    { intros Hin. apply elem_of_block_positions in Hin as (slot & idx & rev & Hp & Hb & Hr).
      destruct rev; [|done]. destruct (Ha (Z.to_nat idx) Hb) as (idx0 & Hp0 & _ & Hu).
      rewrite (Hu slot idx true Hp eq_refl) in Hp. congruence. }
    assert (Hs : slots = seq a (end_ - start)).
    { apply (sublist_seq_unique _ (length proposal)); [apply block_positions_sublist |].
      intros x. unfold slots. rewrite list_elem_of_omap. split.
      - intros (p & Hin & Hp). simpl in Hp. subst p.
        apply elem_of_block_positions in Hin as (slot & idx & rev & Hp & Hb & Hr).
        destruct rev; [done |]. injection Hr as ->.
        destruct (Ha _ Hb) as (_ & _ & _ & Hu). specialize (Hu slot idx false Hp eq_refl). lia.
      - intros Hx. exists (Some x). split; [|done]. apply elem_of_block_positions.
        destruct (Ha (x - a + start) ltac:(lia)) as (idx & Hp & Hi & _).
        replace (a + (x - a + start - start)) with x in Hp by lia.
        exists x, idx, false. split; [done |]. split; [lia | done]. }
    split; [done |]. split.
    { rewrite (omap_id_all_some positions Hm), length_fmap. fold slots. by rewrite Hs, length_seq. }
    rewrite Hs. split; [apply contiguous_seq |]. intros k slot Hk. apply lookup_seq in Hk as [-> Hk].
    destruct (Ha (start + k) ltac:(lia)) as (idx & Hp & Hi & _).
    replace (a + (start + k - start)) with (a + k) in Hp by lia. eauto.
Qed.

Definition lock_is (entities : list PrintEntity) (tag : Z) (i : nat) : bool :=
  bool_decide (entity_lock entities i = Some tag).

Lemma validate_block_spec entities proposal start tag :
  entity_lock entities start = Some tag ->
  (start = 0 \/ lock_is entities tag (start - 1) = false) ->
  let end_ := run_end (lock_is entities tag) start (length entities) in
  validate_block entities proposal start = Ok tt <-> kept_in_place proposal start end_.
Proof.
  intros Ht Hb end_.
  assert (Hlt : start < length entities).
  { unfold entity_lock in Ht. destruct (entities !! start) eqn:He; [|done].
    by apply lookup_lt_Some in He. }
  destruct (run_end_spec (lock_is entities tag) start _ Hlt) as [[Hse _] _].
  rewrite <- positions_accepted by done. unfold validate_block. rewrite Ht.
  change (fun i => bool_decide (entity_lock entities i = Some tag)) with (lock_is entities tag).
  fold end_. replace ((0 <? start) && bool_decide (entity_lock entities (start - 1) = Some tag)) with false.
  2: { unfold lock_is in Hb. destruct Hb as [-> | ->]; [done | by rewrite andb_false_r]. }
  cbv zeta. rewrite <- ordered_spec.
  destruct (existsb is_marker _); [split; [done | by intros (? & _)] |].
  destruct (Nat.eqb_spec (length (block_positions proposal start end_)) (end_ - start)); simpl;
    [|split; [done | by intros (_ & ? & _)]].
  destruct (contiguous _), (forallb _ _); simpl; split; try done; by intros (_ & _ & ? & ?).
Qed.

Lemma validate_entity_order_locks_spec entities proposal :
  validate_entity_order_locks entities proposal = Ok tt <->
  forall tag start end_, run (lock_is entities tag) (length entities) start end_ ->
    kept_in_place proposal start end_.
Proof.
  unfold validate_entity_order_locks. rewrite for_each_Ok. split.
  - intros H tag start end_ Hr. pose proof Hr as [Hlt Hin Hb _].
    specialize (H start ltac:(apply elem_of_seq; lia)).
    assert (Hs : lock_is entities tag start = true) by (apply Hin; lia).
    assert (Ht : entity_lock entities start = Some tag) by (by apply bool_decide_eq_true in Hs).
    apply (validate_block_spec _ _ _ _ Ht Hb) in H.
    assert (Hsl : start < length entities) by lia.
    by rewrite (run_unique _ _ _ _ _ Hr (run_end_run _ _ _ Hsl Hs Hb)).
  - intros H start Hs%elem_of_seq. destruct (entity_lock entities start) as [tag|] eqn:Ht.
    + assert (Hlt : lock_is entities tag start = true) by (by apply bool_decide_eq_true).
      destruct (decide (start = 0 \/ lock_is entities tag (start - 1) = false)) as [Hb | Hb].
      * apply (validate_block_spec _ _ _ _ Ht Hb), (H tag), run_end_run; [lia | done | done].
      * unfold validate_block. rewrite Ht.
        apply Decidable.not_or in Hb as [Hb1 Hb2]. apply not_false_iff_true in Hb2.
        unfold lock_is in Hb2. rewrite Hb2, (proj2 (Nat.ltb_lt 0 start)) by lia. done.
    + unfold validate_block. by rewrite Ht.
Qed.

(** ** The permutation *)

Definition order_indices (proposal : list (Z * bool)) : list nat := Z.to_nat <$> proposal.*1.

Lemma check_unique_spec proposal seen :
  (forall e, e ∈ proposal -> Z.to_nat e.1 < length seen) ->
  check_unique seen proposal = Ok tt <->
  NoDup (order_indices proposal) /\ forall i, i ∈ order_indices proposal -> seen !! i = Some false.
Proof.
  unfold order_indices. revert seen. induction proposal as [|[idx rev] rest IH]; intros seen Hl; simpl.
  { split; [intros _; split; [constructor | set_solver] | done]. }
  pose proof (Hl (idx, rev) (list_elem_of_here _ _)) as Hi. simpl in Hi.
  destruct (lookup_lt_is_Some_2 seen _ Hi) as [b Hb]. rewrite Hb.
  setoid_rewrite elem_of_cons. rewrite NoDup_cons. destruct b.
  - split; [done |]. intros [_ H]. rewrite (H (Z.to_nat idx)) in Hb by auto. done.
  - rewrite IH by (intros e He; rewrite length_insert; apply Hl; by right). split.
    + intros [Hn Hs]. assert (Hnot : Z.to_nat idx ∉ Z.to_nat <$> rest.*1).
      { intros Hin. specialize (Hs _ Hin). rewrite list_lookup_insert_eq in Hs by done. done. }
      split; [done |]. intros i [-> | Hin]; [done |]. specialize (Hs i Hin).
      rewrite list_lookup_insert_ne in Hs by (intros <-; done). done.
    + intros [[Hnot Hn] Hs]. split; [done |]. intros i Hin.
      rewrite list_lookup_insert_ne by (intros <-; done). apply Hs. by right.
Qed.

Lemma check_proposal_spec n (proposal : list (Z * bool)) :
  check_proposal n proposal = Ok tt <-> order_indices proposal ≡ₚ seq 0 n.
Proof.
  unfold check_proposal. destruct (Nat.eqb_spec (length proposal) n) as [Hn | Hn]; simpl.
  2: { split; [done |]. intros Hp%Permutation_length. unfold order_indices in Hp.
       by rewrite !length_fmap, length_seq in Hp. }
  assert (Hidx : for_each (check_index n) proposal = Ok tt <->
                 forall e, e ∈ proposal -> Z.to_nat e.1 < n).
  { rewrite for_each_Ok. split; intros H e He; specialize (H e He); unfold check_index in *.
    - destruct (Nat.leb_spec n (Z.to_nat e.1)); [done | lia].
    - by rewrite (proj2 (Nat.leb_gt _ _) H). }
  assert (Hfm : forall i, i ∈ order_indices proposal <-> exists e, e ∈ proposal /\ Z.to_nat e.1 = i).
  { intros i. unfold order_indices. rewrite list_elem_of_fmap. setoid_rewrite list_elem_of_fmap.
    split; [intros (? & -> & e & -> & ?); eauto | intros (e & ? & <-); eauto]. }
  split.
  - destruct (for_each _ _) as [[]|] eqn:Hf; simpl; [|done].
    pose proof (proj1 Hidx eq_refl) as Hlt. intros Hu.
    apply check_unique_spec in Hu as [Hnd _]; [|intros e He; rewrite length_replicate; by apply Hlt].
    apply submseteq_length_Permutation.
    + apply NoDup_submseteq; [done |]. intros i Hi%Hfm. destruct Hi as (e & He & <-).
      apply elem_of_seq. specialize (Hlt e He). lia.
    + unfold order_indices. rewrite length_seq, !length_fmap. lia.
  - intros Hp.
    assert (Hlt : forall e, e ∈ proposal -> Z.to_nat e.1 < n).
    { intros e He. assert (Hin : Z.to_nat e.1 ∈ order_indices proposal) by (apply Hfm; eauto).
      rewrite Hp, elem_of_seq in Hin. lia. }
    rewrite (proj2 Hidx Hlt). simpl. apply check_unique_spec.
    + intros e He. rewrite length_replicate. by apply Hlt.
    + split; [rewrite Hp; apply NoDup_seq |]. intros i Hi. apply lookup_replicate_2.
      rewrite Hp, elem_of_seq in Hi. lia.
Qed.

Section place_spec.
Context {T : Type} (reverse_item : T -> T) (set_topo_order : T -> Z -> T).

Lemma place_spec proposal buckets k :
  NoDup (order_indices proposal) ->
  (forall i, i ∈ order_indices proposal -> exists x, buckets !! i = Some (Some x)) ->
  exists out, place reverse_item set_topo_order buckets k proposal = Done out /\
    length out = length proposal /\
    forall j idx rev x, proposal !! j = Some (idx, rev) -> buckets !! Z.to_nat idx = Some (Some x) ->
      out !! j = Some (set_topo_order (if rev : bool then reverse_item x else x)
                                      (wrap_u32 (Z.of_nat (k + j)))).
Proof.
  unfold order_indices. revert buckets k.
  induction proposal as [|[idx rev] rest IH]; intros buckets k Hn Hb; simpl.
  { exists []. split; [done |]. split; done. }
  simpl in Hn, Hb. apply NoDup_cons in Hn as [Hnot Hn].
  destruct (Hb _ (list_elem_of_here _ _)) as [x Hx]. rewrite Hx.
  assert (Hne : forall i, i ∈ Z.to_nat <$> rest.*1 -> <[Z.to_nat idx := None]> buckets !! i = buckets !! i).
  { intros i Hi. apply list_lookup_insert_ne. by intros <-. }
  destruct (IH (<[Z.to_nat idx := None]> buckets) (S k) Hn) as (out & -> & Hlen & Hout).
  { intros i Hi. rewrite Hne by done. apply Hb. by right. }
  simpl. eexists. split; [done |]. split; [simpl; lia |].
  intros [|j] idx' rev' y Hj Hy; simpl in *.
  - injection Hj as <- <-. rewrite Hx in Hy. injection Hy as ->. by rewrite Nat.add_0_r.
  - replace (k + S j) with (S k + j) by lia. apply (Hout j idx' rev' y Hj). rewrite Hne; [done |].
    apply list_elem_of_fmap. exists idx'. split; [done |].
    apply list_elem_of_fmap. exists (idx', rev'). split; [done |]. by eapply list_elem_of_lookup_2.
Qed.

Lemma apply_order_proposal_spec items proposal :
  (exists e, check_proposal (length items) proposal = Err e /\
     apply_order_proposal reverse_item set_topo_order items proposal = Done (items, Err e)) \/
  (order_indices proposal ≡ₚ seq 0 (length items) /\
   exists out, apply_order_proposal reverse_item set_topo_order items proposal = Done (out, Ok tt) /\
    length out = length items /\
    forall j idx rev x, proposal !! j = Some (idx, rev) -> items !! Z.to_nat idx = Some x ->
      out !! j = Some (set_topo_order (if rev : bool then reverse_item x else x)
                                      (wrap_u32 (Z.of_nat j)))).
Proof.
  unfold apply_order_proposal. destruct (check_proposal _ _) as [[]|e] eqn:Hc; [|left; eauto].
  right. apply check_proposal_spec in Hc. split; [done |].
  destruct (place_spec proposal (Some <$> items) 0) as (out & -> & Hlen & Hout).
  - rewrite Hc. apply NoDup_seq.
  - intros i Hi. rewrite Hc, elem_of_seq in Hi.
    destruct (lookup_lt_is_Some_2 items i) as [x Hx]; [lia |]. exists x.
    by rewrite list_lookup_fmap, Hx.
  - exists out. split; [done |]. split.
    + rewrite Hlen. apply Permutation_length in Hc. unfold order_indices in Hc.
      by rewrite !length_fmap, length_seq in Hc.
    + intros j idx rev x Hj Hx. rewrite <- (Nat.add_0_l j) at 2. apply (Hout j idx rev x Hj).
      by rewrite list_lookup_fmap, Hx.
Qed.
End place_spec.

(** ** Applying a proposal *)

Section arena_spec.
Context {P : PrepassTypes}.
#[local] Existing Instance layer_types.

(** [C26].  A proposed print order is accepted exactly when it is a permutation of the
    layer's entities that moves every maximal run of one lock tag as a block, in order
    and unreversed.  A rejected proposal leaves the arena as it was; an accepted one puts
    every entity in its slot with its new order number, reversed where asked, and every
    locked run stands in the result contiguous and with its points unchanged. *)
Theorem entity_order_applied (arena : LayerArena) (lc : LayerCollectionIR)
    (proposal : list (Z * bool)) (Hlc : layer_collection arena = Some lc) :
  let es := ordered_entities lc in
  exists arena' r, apply_entity_order_proposal arena proposal = Done (arena', r) /\
    (r = Ok tt <->
       order_indices proposal ≡ₚ seq 0 (length es) /\
       forall tag s e, run (lock_is es tag) (length es) s e -> kept_in_place proposal s e) /\
    (r <> Ok tt -> arena' = arena) /\
    (r = Ok tt -> exists out,
       arena' = set_layer_collection arena (with_ordered_entities lc out) /\
       length out = length es /\
       (forall slot idx rev x, proposal !! slot = Some (idx, rev) -> es !! Z.to_nat idx = Some x ->
          out !! slot = Some (with_topo_order (if rev : bool then reverse_points x else x)
                                              (wrap_u32 (Z.of_nat slot)))) /\
       (forall tag s e, run (lock_is es tag) (length es) s e ->
          exists a, forall i x, s <= i < e -> es !! i = Some x ->
            out !! (a + (i - s)) =
              Some (with_topo_order x (wrap_u32 (Z.of_nat (a + (i - s))))))).
Proof.
  intros es. unfold apply_entity_order_proposal. rewrite Hlc. fold es.
  destruct (validate_entity_order_locks es proposal) as [[]|e] eqn:Hv.
  2: { eexists _, _. split; [done |]. split; [|by split]. split; [done |].
       rewrite <- validate_entity_order_locks_spec. intros [_ H]. congruence. }
  assert (Hkept := proj1 (validate_entity_order_locks_spec _ _) Hv).
  unfold take_layer_collection. rewrite Hlc. cbv beta iota zeta. fold es.
  destruct (apply_order_proposal_spec reverse_points with_topo_order es proposal)
    as [(e & Hc & ->) | (Hp & out & -> & Hlen & Hout)]; simpl; eexists _, _;
    (split; [done |]).
  - split; [|split]; [| |done].
    + split; [done |]. intros [Hp _]. apply check_proposal_spec in Hp. congruence.
    + intros _. destruct arena, lc. simpl in *. by rewrite Hlc.
  - split; [done |]. split; [done |]. intros _. exists out.
    split; [by destruct arena |]. split; [done |]. split; [done |].
    intros tag s e Hr. destruct (Hkept tag s e Hr) as [a Ha]. exists a. intros i x Hi Hx.
    destruct (Ha i Hi) as (idx & Hpi & Hii & _).
    apply (Hout _ idx false); [done | by rewrite Hii].
Qed.
End arena_spec.

(** ** The tags that a commit issues *)

Definition is_local (lock : option Z) : bool :=
  match lock with Some tag => Z.eqb (Z.land tag GLOBAL_BIT) 0 | None => false end.

Arguments is_local _ : simpl never.

Definition locals (paths : list ExtrusionPath3D) : Z :=
  Z.of_nat (length (filter (fun p => is_local (ep_order_lock p) = true) paths)).

(** The lock of a path after the rewrite, [k] local tags having been met before it. *)
Definition rewritten (next k : Z) (lock : option Z) : option Z :=
  if is_local lock then Some (9223372036854775808 + (next + k))%Z else lock.

Lemma rewritten_shift next k lock : rewritten next (1 + k) lock = rewritten (next + 1) k lock.
Proof. unfold rewritten. by rewrite (Z.add_assoc next 1 k). Qed.

Definition is_u64 (v : Z) : Prop := (0 <= v <= u64_max)%Z.

Lemma GLOBAL_BIT_eq : GLOBAL_BIT = (2 ^ 63)%Z.
Proof. done. Qed.

Lemma lor_global n : (0 <= n < 2 ^ 63)%Z -> Z.lor GLOBAL_BIT n = (9223372036854775808 + n)%Z.
Proof.
  intros Hn. assert (Hd : Z.land GLOBAL_BIT n = 0%Z).
  { rewrite GLOBAL_BIT_eq. apply Z.bits_inj'. intros i Hi. rewrite Z.land_spec, Z.bits_0, Z.pow2_bits_eqb by lia.
    destruct (Z.eqb_spec 63 i) as [<- |]; [|done]. apply Z.bits_above_log2; [lia |].
    destruct (Z.eq_dec n 0%Z) as [-> |]; [done |]. apply Z.log2_lt_pow2; lia. }
  rewrite <- Z.lxor_lor, <- Z.add_nocarry_lxor by done. done.
Qed.

Lemma land_global tag : is_u64 tag -> Z.land tag GLOBAL_BIT = if Z.ltb tag (2 ^ 63) then 0%Z else (2 ^ 63)%Z.
Proof.
  unfold is_u64, u64_max. intros Ht. rewrite GLOBAL_BIT_eq. apply Z.bits_inj'. intros i Hi.
  rewrite Z.land_spec, Z.pow2_bits_eqb by lia. destruct (Z.eqb_spec 63 i) as [<- | Hne].
  - rewrite andb_true_r, Z.testbit_odd, Z.shiftr_div_pow2 by lia.
    destruct (Z.ltb_spec tag (2 ^ 63)).
    + rewrite Z.div_small by lia. done.
    + replace (tag / 2 ^ 63)%Z with 1%Z; [done |].
      apply (Z.div_unique tag (2 ^ 63) 1 (tag - 2 ^ 63)%Z); lia.
  - rewrite andb_false_r. case_match; [by rewrite Z.bits_0 |]. rewrite Z.pow2_bits_eqb by lia.
    by rewrite (proj2 (Z.eqb_neq _ _) Hne).
Qed.

Lemma is_local_spec tag : is_u64 tag -> is_local (Some tag) = true <-> (tag < 2 ^ 63)%Z.
Proof.
  intros Ht. unfold is_local. rewrite land_global by done. destruct (Z.ltb_spec tag (2 ^ 63)); [done |].
  split; [done | lia].
Qed.

Lemma locals_cons p paths :
  locals (p :: paths) = ((if is_local (ep_order_lock p) then 1 else 0) + locals paths)%Z.
Proof. unfold locals. rewrite filter_cons. case_decide as H; [rewrite H; simpl; lia |].
  apply not_true_is_false in H. by rewrite H. Qed.

Lemma locals_nonneg paths : (0 <= locals paths <= Z.of_nat (length paths))%Z.
Proof. unfold locals. pose proof (length_filter (fun p => is_local (ep_order_lock p) = true) paths). lia. Qed.

(** What the rewrite of the tags accepts: no tag 0, and no global tag that has not been
    issued before. *)
Definition tags_known (paths : list ExtrusionPath3D) (next : Z) : Prop :=
  forall i p tag, paths !! i = Some p -> ep_order_lock p = Some tag ->
    if is_local (Some tag) then tag <> 0%Z
    else (tag < 9223372036854775808 + (next + locals (take i paths)))%Z.

Lemma tags_known_cons p paths next :
  tags_known (p :: paths) next <->
  (forall tag, ep_order_lock p = Some tag ->
    if is_local (Some tag) then tag <> 0%Z else (tag < 9223372036854775808 + next)%Z) /\
  tags_known paths (next + if is_local (ep_order_lock p) then 1 else 0).
Proof.
  unfold tags_known. split.
  - intros H. split.
    + intros tag Ht. specialize (H 0 p tag eq_refl Ht). cbn [take] in H.
      change (locals []) with 0%Z in H. by rewrite Z.add_0_r in H.
    + intros i q tag Hi Ht. specialize (H (S i) q tag Hi Ht). cbn [take] in H.
      rewrite locals_cons, (Z.add_assoc next) in H. done.
  - intros [H0 Hs] [|i] q tag Hi Ht.
    + injection Hi as <-. specialize (H0 tag Ht). cbn [take].
      change (locals []) with 0%Z. by rewrite Z.add_0_r.
    + specialize (Hs i q tag Hi Ht). cbn [take]. rewrite locals_cons, (Z.add_assoc next). done.
Qed.

Lemma remap_spec paths next :
  (0 <= next)%Z -> (next + Z.of_nat (length paths) <= 2 ^ 63)%Z ->
  let '(out, next', r) := remap_order_locks_to_global paths next in
  (r = Ok tt <-> tags_known paths next) /\
  (r = Ok tt -> next' = (next + locals paths)%Z /\ length out = length paths /\
     forall i p, paths !! i = Some p ->
       out !! i = Some (with_order_lock p (rewritten next (locals (take i paths)) (ep_order_lock p)))).
Proof.
  revert next. induction paths as [|p paths IH]; intros next H0 Hl.
  { simpl. split; [split; [intros _ ? ? ?; done | done] |]. intros _.
    split; [unfold locals; simpl; lia |]. split; done. }
  cbn [length] in Hl. cbn [remap_order_locks_to_global].
  assert (Hskip : is_local (ep_order_lock p) = false ->
    (forall tag, ep_order_lock p = Some tag -> (tag < 9223372036854775808 + next)%Z) ->
    let '(rest, next', r) := remap_order_locks_to_global paths next in
    (r = Ok tt <-> tags_known (p :: paths) next) /\
    (r = Ok tt -> next' = (next + locals (p :: paths))%Z /\ length (p :: rest) = S (length paths) /\
     forall i q, (p :: paths) !! i = Some q -> (p :: rest) !! i =
       Some (with_order_lock q (rewritten next (locals (take i (p :: paths))) (ep_order_lock q))))).
  { intros Hf Hk. specialize (IH next H0 ltac:(lia)).
    destruct (remap_order_locks_to_global paths next) as [[rest next'] r].
    destruct IH as [IH1 IH2]. rewrite tags_known_cons, Hf, Z.add_0_r. split.
    - rewrite IH1. split; [|by intros [_ ?]]. intros Ht. split; [|done]. intros tag Htag.
      rewrite <- Htag, Hf. auto.
    - intros Hr. destruct (IH2 Hr) as (-> & Hlen & Hi). rewrite locals_cons, Hf.
      split; [lia |]. split; [simpl; lia |]. intros [|i] q Hq; simpl in *.
      + injection Hq as <-. unfold rewritten. rewrite Hf. by destruct p.
      + rewrite locals_cons, Hf, Z.add_0_l. by apply Hi. }
  destruct (ep_order_lock p) as [tag|] eqn:Hp.
  2: { specialize (Hskip eq_refl ltac:(done)).
       by destruct (remap_order_locks_to_global paths next) as [[rest next'] r]. }
  destruct (Z.eqb_spec (Z.land tag GLOBAL_BIT) 0) as [Hloc | Hloc].
  - assert (Hf : is_local (Some tag) = true) by (by apply Z.eqb_eq).
    destruct (Z.eqb_spec tag 0) as [-> | Htag].
    + split; [|done]. split; [done |]. rewrite tags_known_cons, Hp, Hf. intros [H _]. by specialize (H 0%Z eq_refl).
    + unfold u64_max. rewrite Z.mod_small, lor_global by lia.
      specialize (IH (next + 1)%Z ltac:(lia) ltac:(lia)).
      destruct (remap_order_locks_to_global paths (next + 1)) as [[rest next'] r].
      destruct IH as [IH1 IH2]. split.
      * rewrite IH1, tags_known_cons, Hp, Hf. split; [|by intros [_ ?]]. intros Ht. split; [|done]. intros ? [= <-].
        by rewrite Hf.
      * intros Hr. destruct (IH2 Hr) as (-> & Hlen & Hi). rewrite locals_cons, Hp, Hf.
        split; [lia |]. split; [simpl; lia |]. intros [|i] q Hq; simpl in *.
        -- injection Hq as <-. unfold rewritten. rewrite Hp, Hf. change (locals []) with 0%Z.
           by rewrite Z.add_0_r.
        -- rewrite locals_cons, Hp, Hf, rewritten_shift. by apply Hi.
  - assert (Hf : is_local (Some tag) = false) by (by apply Z.eqb_neq).
    rewrite lor_global by lia. destruct (Z.leb_spec (9223372036854775808 + next) tag) as [Hge | Hlt].
    + split; [|done]. split; [done |]. rewrite tags_known_cons, Hp, Hf. intros [H _].
      specialize (H tag eq_refl). rewrite Hf in H. lia.
    + specialize (Hskip Hf). specialize (Hskip ltac:(intros ? [= <-]; done)).
      by destruct (remap_order_locks_to_global paths next) as [[rest next'] r].
Qed.

(** ** The tags of a whole commit *)

Definition all_paths (ir : InfillIR) : list ExtrusionPath3D := concat (sparse_infill <$> inf_regions ir).

Lemma remap_app a b next :
  remap_order_locks_to_global (a ++ b) next =
  match remap_order_locks_to_global a next with
  | (a', n, Ok _) => let '(b', n', r) := remap_order_locks_to_global b n in (a' ++ b', n', r)
  | (a', n, Err e) => (a' ++ b, n, Err e)
  end.
Proof.
  revert next. induction a as [|p a IH]; intros next; simpl.
  - by destruct (remap_order_locks_to_global b next) as [[? ?] ?].
  - destruct (ep_order_lock p) as [tag|].
    + destruct (Z.eqb _ _).
      * destruct (Z.eqb tag 0); [done |]. rewrite IH.
        destruct (remap_order_locks_to_global a _) as [[? ?] [[]|]]; [|done].
        by destruct (remap_order_locks_to_global b _) as [[? ?] ?].
      * destruct (Z.leb _ _); [done |]. rewrite IH.
        destruct (remap_order_locks_to_global a _) as [[? ?] [[]|]]; [|done].
        by destruct (remap_order_locks_to_global b _) as [[? ?] ?].
    + rewrite IH. destruct (remap_order_locks_to_global a _) as [[? ?] [[]|]]; [|done].
      by destruct (remap_order_locks_to_global b _) as [[? ?] ?].
Qed.

(** Two regions that differ in their sparse paths only. *)
Definition same_but_sparse (r r' : InfillRegion) : Prop := r' = with_sparse_infill r (sparse_infill r').

Lemma remap_regions_spec rs next :
  let '(rs', r) := remap_regions rs next in
  let '(out, _, r0) := remap_order_locks_to_global (concat (sparse_infill <$> rs)) next in
  (r = Ok tt <-> r0 = Ok tt) /\
  (r = Ok tt -> concat (sparse_infill <$> rs') = out /\ Forall2 same_but_sparse rs rs').
Proof.
  revert next. induction rs as [|reg rs IH]; intros next; cbn [remap_regions fmap list_fmap concat].
  { simpl. split; [done |]. by split. }
  unfold slicer_runtime_order_lock_remap. rewrite remap_app.
  destruct (remap_order_locks_to_global (sparse_infill reg) next) as [[paths n] [[]|e]].
  2: { split; [split; discriminate | discriminate]. }
  specialize (IH n). destruct (remap_regions rs n) as [rs' r].
  destruct (remap_order_locks_to_global (concat (sparse_infill <$> rs)) n) as [[out n'] r0].
  destruct IH as [IH1 IH2]. split; [done |]. intros Hr. destruct (IH2 Hr) as [<- Hf].
  split; [done |]. by constructor.
Qed.

Lemma clear_global tag : is_u64 tag -> (2 ^ 63 <= tag)%Z ->
  Z.land tag (Z.lnot GLOBAL_BIT) = (tag - 9223372036854775808)%Z.
Proof.
  unfold is_u64, u64_max. intros Ht Hg.
  assert (He : tag = Z.lor GLOBAL_BIT (tag - 9223372036854775808)) by (rewrite lor_global; lia).
  assert (Hz : Z.land (tag - 9223372036854775808) GLOBAL_BIT = 0%Z).
  { rewrite land_global by (unfold is_u64, u64_max; lia). case_match eqn:Hl; [done |].
    apply Z.ltb_ge in Hl. lia. }
  rewrite He at 1. apply Z.bits_inj'. intros i Hi. rewrite Z.land_spec, Z.lor_spec, Z.lnot_spec by done.
  assert (Hb : Z.testbit (Z.land (tag - 9223372036854775808) GLOBAL_BIT) i = false)
    by (by rewrite Hz, Z.bits_0).
  rewrite Z.land_spec in Hb. by destruct (Z.testbit GLOBAL_BIT i), (Z.testbit _ i).
Qed.

Lemma foldr_max_ge t (ts : list Z) x : x ∈ t :: ts -> (x <= foldr Z.max t ts)%Z.
Proof.
  induction ts as [|y ts IH]; simpl; [intros ->%list_elem_of_singleton; lia |].
  rewrite !elem_of_cons in *. intros [-> | [-> | ?]]; [specialize (IH (or_introl eq_refl)) | |
    specialize (IH (or_intror H))]; lia.
Qed.

Lemma foldr_max_in t (ts : list Z) : foldr Z.max t ts ∈ t :: ts.
Proof.
  induction ts as [|y ts IH]; simpl; [left |]. destruct (Z.max_spec y (foldr Z.max t ts)) as [[_ ->] | [_ ->]].
  - rewrite !elem_of_cons in *. tauto.
  - right. left.
Qed.

Lemma next_global_spec ir :
  Forall is_u64 (sparse_locks ir) ->
  (0 <= next_global_infill_tag ir <= 2 ^ 63)%Z /\
  forall tag, tag ∈ sparse_locks ir -> (tag < 9223372036854775808 + next_global_infill_tag ir)%Z.
Proof.
  intros Hu. unfold next_global_infill_tag. set (f := fun tag => Z.land tag (Z.lnot GLOBAL_BIT)).
  set (l := f <$> _).
  assert (Hl : forall x, x ∈ l <-> exists tag, tag ∈ sparse_locks ir /\ (2 ^ 63 <= tag)%Z /\
                                 x = (tag - 9223372036854775808)%Z).
  { intros x. unfold l. rewrite list_elem_of_fmap. split.
    - intros (tag & -> & Hin). apply list_elem_of_filter in Hin as [Hg Hin].
      pose proof (proj1 (Forall_forall _ _) Hu tag Hin) as Ht.
      assert (2 ^ 63 <= tag)%Z.
      { rewrite land_global in Hg by done. case_match eqn:Hlt; [done | by apply Z.ltb_ge in Hlt]. }
      exists tag. split; [done |]. split; [done |]. by apply clear_global.
    - intros (tag & Hin & Hg & ->). pose proof (proj1 (Forall_forall _ _) Hu tag Hin) as Ht.
      exists tag. split; [by rewrite <- clear_global |]. apply list_elem_of_filter. split; [|done].
      rewrite land_global by done. by rewrite (proj2 (Z.ltb_ge _ _) Hg). }
  clearbody l. assert (Hub : forall x, x ∈ l -> (0 <= x < 2 ^ 63)%Z).
  { intros x (tag & Hin & Hg & ->)%Hl. pose proof (proj1 (Forall_forall _ _) Hu tag Hin) as Ht.
    unfold is_u64, u64_max in Ht. lia. }
  destruct l as [|t ts].
  - split; [lia |]. intros tag Hin. destruct (Z.lt_ge_cases tag (2 ^ 63)) as [? | Hg]; [lia |].
    assert (Hx : (tag - 9223372036854775808)%Z ∈ @nil Z) by (apply Hl; eauto). set_solver.
  - pose proof (Hub _ (foldr_max_in t ts)). split; [lia |]. intros tag Hin.
    destruct (Z.lt_ge_cases tag (2 ^ 63)) as [? | Hg]; [lia |].
    pose proof (foldr_max_ge t ts (tag - 9223372036854775808)%Z ltac:(apply Hl; eauto)). lia.
Qed.

Lemma locals_take_le i paths : (0 <= locals (take i paths) <= locals paths)%Z.
Proof.
  split; [apply locals_nonneg |]. unfold locals. apply inj_le. rewrite <- (take_drop i paths) at 2.
  rewrite filter_app, length_app. lia.
Qed.

Lemma locals_take_mono i j paths : i <= j -> (locals (take i paths) <= locals (take j paths))%Z.
Proof.
  intros Hij. replace (take i paths) with (take i (take j paths)) by (by rewrite take_take, Nat.min_l).
  apply locals_take_le.
Qed.

(** Committing infill after [existing]: the rewrite of the lock tags succeeds exactly
    when there is no tag 0 and no global tag that has not been issued before.  Then only
    the tags change; every local tag becomes a global tag that occurs neither in
    [existing] nor on an earlier path of the commit, and every other tag is kept. *)
Theorem issued_tags_fresh (existing ir : InfillIR)
    (Hu : Forall is_u64 (sparse_locks existing)) (Hi : Forall is_u64 (sparse_locks ir))
    (Hroom : (next_global_infill_tag existing + Z.of_nat (length (all_paths ir)) <= 2 ^ 63)%Z) :
  let next := next_global_infill_tag existing in
  let '(ir', r) := remap_infill_order_locks_from ir next in
  (r = Ok tt <-> tags_known (all_paths ir) next) /\
  (r = Ok tt ->
     Forall2 same_but_sparse (inf_regions ir) (inf_regions ir') /\
     inf_raft_regions ir' = inf_raft_regions ir /\
     length (all_paths ir') = length (all_paths ir) /\
     forall i p, all_paths ir !! i = Some p -> exists lock,
       all_paths ir' !! i = Some (with_order_lock p lock) /\
       if is_local (ep_order_lock p) then
         exists tag, lock = Some tag /\ is_local (Some tag) = false /\ tag ∉ sparse_locks existing /\
           forall j q, j < i -> all_paths ir' !! j = Some q -> ep_order_lock q <> Some tag
       else lock = ep_order_lock p).
Proof.
  intros next. destruct (next_global_spec existing Hu) as [Hn Hfresh]. fold next in Hn, Hfresh, Hroom.
  unfold remap_infill_order_locks_from.
  pose proof (remap_regions_spec (inf_regions ir) next) as Hrs.
  pose proof (remap_spec (all_paths ir) next ltac:(lia) Hroom) as Hsp. unfold all_paths in Hsp at 1.
  destruct (remap_regions (inf_regions ir) next) as [rs' r].
  destruct (remap_order_locks_to_global _ next) as [[out n'] r0].
  destruct Hrs as [Hr Hrs], Hsp as [Hok Hsp]. split; [by rewrite Hr, Hok |].
  intros Hrt. destruct (Hrs Hrt) as [Hc Hf]. destruct (Hsp (proj1 Hr Hrt)) as (_ & Hlen & Hout).
  assert (Hknown : tags_known (all_paths ir) next) by (by apply Hok, Hr).
  change (all_paths (with_inf_regions ir rs')) with (concat (sparse_infill <$> rs')). rewrite Hc.
  split; [done |]. split; [done |]. split; [done |]. intros i p Hp. eexists. split; [by apply Hout |].
  unfold rewritten. destruct (is_local (ep_order_lock p)) eqn:Hloc; [|done].
  pose proof (locals_nonneg (take i (all_paths ir))) as [Hk0 Hk1].
  assert (Hk2 : (Z.of_nat (length (take i (all_paths ir))) < Z.of_nat (length (all_paths ir)))%Z).
  { rewrite length_take. apply lookup_lt_Some in Hp. lia. }
  eexists. split; [done |]. split.
  { apply not_true_iff_false. rewrite is_local_spec; unfold is_u64, u64_max; lia. }
  split.
  { intros Hin. specialize (Hfresh _ Hin). lia. }
  intros j q Hj Hq. destruct (lookup_lt_is_Some_2 (all_paths ir) j) as [p' Hp'].
  { apply lookup_lt_Some in Hp. lia. }
  rewrite (Hout j p' Hp') in Hq. injection Hq as <-. unfold rewritten.
  pose proof (locals_take_mono (S j) i (all_paths ir) Hj) as Hm.
  rewrite (take_S_r _ _ p') in Hm by done. unfold locals in Hm at 1.
  rewrite filter_app, length_app in Hm. fold (locals (take j (all_paths ir))) in Hm.
  destruct (is_local (ep_order_lock p')) eqn:Hloc'; cbn [ep_order_lock with_order_lock].
  - rewrite filter_cons_True in Hm by done. simpl in Hm.
    intros [= He]. fold (locals (take j (all_paths ir))) in *. unfold locals in He, Hm at 1. lia.
  - intros Ht. specialize (Hknown j p' _ Hp' Ht). rewrite <- Ht, Hloc' in Hknown.
    unfold locals in Hm, Hknown. simpl in Hm. lia.
Qed.

(** ** What a committed lock still protects *)

Lemma remap_distinct paths next next' out :
  (0 <= next)%Z -> (next + Z.of_nat (length paths) <= 2 ^ 63)%Z ->
  (forall p, p ∈ paths -> ep_order_lock p = None \/ is_local (ep_order_lock p) = true) ->
  remap_order_locks_to_global paths next = (out, next', Ok tt) ->
  forall i j p q tag, out !! i = Some p -> out !! j = Some q ->
    ep_order_lock p = Some tag -> ep_order_lock q = Some tag -> i = j.
Proof.
  intros H0 Hroom Hloc Hr. pose proof (remap_spec paths next H0 Hroom) as Hs. rewrite Hr in Hs.
  destruct Hs as [_ Hs]. destruct (Hs eq_refl) as (_ & Hlen & Hout).
  assert (Hform : forall i p tag, out !! i = Some p -> ep_order_lock p = Some tag ->
    tag = (9223372036854775808 + (next + locals (take i paths)))%Z /\
    forall k, i < k -> (locals (take i paths) < locals (take k paths))%Z).
  { intros i p tag Hi Ht. destruct (lookup_lt_is_Some_2 paths i) as [p0 Hp0].
    { apply lookup_lt_Some in Hi. lia. }
    rewrite (Hout i p0 Hp0) in Hi. injection Hi as <-. unfold rewritten in Ht. simpl in Ht.
    destruct (Hloc p0 (list_elem_of_lookup_2 _ _ _ Hp0)) as [Hn | Hl].
    - rewrite Hn in Ht. done.
    - rewrite Hl in Ht. injection Ht as <-. split; [done |]. intros k Hk.
      pose proof (locals_take_mono (S i) k paths Hk) as Hm. rewrite (take_S_r _ _ p0) in Hm by done.
      unfold locals in Hm at 1. rewrite filter_app, length_app, filter_cons_True in Hm by done.
      unfold locals at 1. simpl in Hm. lia. }
  intros i j p q tag Hi Hj Hp Hq. destruct (Hform i p tag Hi Hp) as [-> Hi'].
  destruct (Hform j q _ Hj Hq) as [He Hj'].
  destruct (Nat.lt_trichotomy i j) as [Hlt | [? | Hlt]]; [specialize (Hi' j Hlt) | done | specialize (Hj' i Hlt)]; lia.
Qed.

Section reordered.
Context {P : PrepassTypes}.
#[local] Existing Instance layer_types.

(** Difference from the promise that paths sharing a tag stay an atomic sequence: a
    commit gives every path its own tag, so once the paths of a commit with local tags are
    the entities of the layer, any permutation that reverses nothing is accepted, also one
    that reorders or interleaves a block that was committed under one tag. *)
Theorem committed_block_can_be_reordered (arena : LayerArena) (lc : LayerCollectionIR)
    (paths out : list ExtrusionPath3D) (next next' : Z) (proposal : list (Z * bool))
    (H0 : (0 <= next)%Z) (Hroom : (next + Z.of_nat (length paths) <= 2 ^ 63)%Z)
    (Hloc : forall p, p ∈ paths -> ep_order_lock p = None \/ is_local (ep_order_lock p) = true)
    (Hremap : remap_order_locks_to_global paths next = (out, next', Ok tt))
    (Hlc : layer_collection arena = Some lc) (Hes : pe_path <$> ordered_entities lc = out)
    (Hperm : order_indices proposal ≡ₚ seq 0 (length (ordered_entities lc)))
    (Hrev : forall e, e ∈ proposal -> e.2 = false) :
  exists arena', apply_entity_order_proposal arena proposal = Done (arena', Ok tt).
Proof.
  unfold apply_entity_order_proposal. rewrite Hlc. set (es := ordered_entities lc) in *.
  assert (Hv : validate_entity_order_locks es proposal = Ok tt).
  { apply validate_entity_order_locks_spec. intros tag s e [Hse Hin _ _].
    assert (Hlock : forall i, s <= i < e -> exists p, out !! i = Some p /\ ep_order_lock p = Some tag).
    { intros i Hi. specialize (Hin i Hi). apply bool_decide_eq_true in Hin.
      unfold entity_lock in Hin. destruct (es !! i) as [x|] eqn:Hx; [|done].
      exists (pe_path x). split; [|done]. by rewrite <- Hes, list_lookup_fmap, Hx. }
    assert (He : e = s + 1).
    { destruct (decide (e = s + 1)); [done |].
      destruct (Hlock s ltac:(lia)) as (p & Hp & Htp), (Hlock (s + 1) ltac:(lia)) as (q & Hq & Htq).
      pose proof (remap_distinct _ _ _ _ H0 Hroom Hloc Hremap _ _ _ _ _ Hp Hq Htp Htq). lia. }
    subst e. assert (Hs : s ∈ order_indices proposal) by (rewrite Hperm; apply elem_of_seq; lia).
    assert (Hnd : NoDup (order_indices proposal)) by (rewrite Hperm; apply NoDup_seq).
    apply list_elem_of_lookup in Hs as [a Ha]. exists a. intros i Hi. assert (i = s) as -> by lia.
    rewrite Nat.sub_diag, Nat.add_0_r. unfold order_indices in Ha, Hnd.
    pose proof Ha as Ha'. rewrite !list_lookup_fmap in Ha.
    destruct (proposal !! a) as [[idx rev]|] eqn:Hp; [|done]. simpl in Ha. injection Ha as Ha.
    assert (rev = false) as -> by (apply (Hrev (idx, rev)); by eapply list_elem_of_lookup_2).
    exists idx. split; [done |]. split; [done |]. intros slot idx' rev Hp' Hidx'.
    eapply NoDup_lookup; [exact Hnd | | exact Ha'].
    rewrite !list_lookup_fmap, Hp'. simpl. congruence. }
  rewrite Hv. unfold take_layer_collection. rewrite Hlc. cbv beta iota zeta. fold es.
  destruct (apply_order_proposal_spec reverse_points with_topo_order es proposal)
    as [(e & Hc & _) | (_ & o & -> & _)]; [|by eexists].
  apply check_proposal_spec in Hperm. congruence.
Qed.
End reordered.

(** ** Locked blocks of the infill *)

Lemma all_range_true p l : all_range p l = Some true <-> forall j, j ∈ l -> p j = Some true.
Proof.
  induction l as [|j l IH]; simpl; [split; [set_solver | done] |].
  setoid_rewrite elem_of_cons. destruct (p j) as [[]|] eqn:Hj; simpl.
  - rewrite IH. split; [intros H ? [-> | ?]; auto | auto].
  - split; [done |]. intros H. specialize (H j (or_introl eq_refl)). congruence.
  - split; [done |]. intros H. specialize (H j (or_introl eq_refl)). congruence.
Qed.

Lemma all_range_some p l : (forall j, j ∈ l -> is_Some (p j)) -> is_Some (all_range p l).
Proof.
  induction l as [|j l IH]; simpl; intros H; [by eexists |].
  destruct (H j (list_elem_of_here _ _)) as [b ->]. simpl. destruct b; [|by eexists].
  apply IH. intros i Hi. apply H. by right.
Qed.

(** The block [old[start..start + m)] stands, tagged and with equal points, in [new]. *)
Definition block_at (new block : list ExtrusionPath3D) (i : nat) : Prop :=
  forall j, j < length block -> exists p q, new !! (i + j) = Some p /\ block !! j = Some q /\
    points_eqb (ep_points p) (ep_points q) = true /\ is_Some (ep_order_lock p).

Lemma find_block_sound new block starts :
  find_block new block starts = Some true -> exists i, i ∈ starts /\ block_at new block i.
Proof.
  induction starts as [|i starts IH]; [done |]. cbn [find_block].
  destruct (all_range _ _) as [t|] eqn:Ht; destruct (all_range _ _) as [m|] eqn:Hm in |- *;
    cbn [mbind option_bind]; try discriminate.
  destruct (m && t) eqn:Hmt; [|intros H; destruct (IH H) as (k & ? & ?); exists k; split; [by right | done]].
  apply andb_true_iff in Hmt as [-> ->].
  intros _. exists i. split; [left |]. intros j Hj.
  rewrite all_range_true in Hm. rewrite all_range_true in Ht.
  specialize (Hm j ltac:(apply elem_of_seq; lia)). specialize (Ht j ltac:(apply elem_of_seq; lia)).
  destruct (new !! (i + j)) as [p|]; [|done]. destruct (block !! j) as [q|]; [|done].
  simpl in *. injection Hm as Hm. injection Ht as Ht. apply bool_decide_eq_true in Ht. eauto 6.
Qed.

Lemma find_block_complete new block starts i :
  (forall k, k ∈ starts -> k + length block <= length new) ->
  i ∈ starts -> block_at new block i -> find_block new block starts = Some true.
Proof.
  induction starts as [|k starts IH]; intros Hb Hi Hat; [set_solver |]. cbn [find_block].
  assert (Hk : forall j, j ∈ seq 0 (length block) ->
            exists p q, new !! (k + j) = Some p /\ block !! j = Some q).
  { intros j [_ Hj]%elem_of_seq. specialize (Hb k (list_elem_of_here _ _)).
    destruct (lookup_lt_is_Some_2 new (k + j)) as [p Hp]; [lia |].
    destruct (lookup_lt_is_Some_2 block j) as [q Hq]; [lia |]. eauto. }
  destruct (all_range_some (fun j => p ← new !! (k + j); q ← block !! j;
    Some (points_eqb (ep_points p) (ep_points q))) (seq 0 (length block))) as [m Hm].
  { intros j Hj. destruct (Hk j Hj) as (p & q & -> & ->). by eexists. }
  destruct (all_range_some (fun j => p ← new !! (k + j);
    Some (bool_decide (is_Some (ep_order_lock p)))) (seq 0 (length block))) as [t Ht].
  { intros j Hj. destruct (Hk j Hj) as (p & q & -> & _). by eexists. }
  rewrite Hm, Ht. cbn [mbind option_bind]. destruct (m && t) eqn:Hmt; [done |].
  apply elem_of_cons in Hi as [-> | Hi].
  - exfalso. assert (Hmt' : m = true /\ t = true).
    { split.
      - apply (inj Some). rewrite <- Hm. apply all_range_true. intros j Hj%elem_of_seq.
        destruct (Hat j ltac:(lia)) as (p & q & -> & -> & Hpq & _). simpl. by rewrite Hpq.
      - apply (inj Some). rewrite <- Ht. apply all_range_true. intros j Hj%elem_of_seq.
        destruct (Hat j ltac:(lia)) as (p & q & -> & _ & _ & Hlk). simpl. by rewrite bool_decide_true. }
    by destruct Hmt' as [-> ->].
  - apply IH; [|done|done]. intros k' Hk'. apply Hb. by right.
Qed.

Definition block_kept (old new : list ExtrusionPath3D) (start end_ : nat) : Prop :=
  exists i, i + (end_ - start) <= length new /\ forall j, j < end_ - start ->
    exists p q, new !! (i + j) = Some p /\ old !! (start + j) = Some q /\
      points_eqb (ep_points p) (ep_points q) = true /\ is_Some (ep_order_lock p).

Lemma block_at_kept old new start end_ :
  start < end_ <= length old ->
  (exists i, i + (end_ - start) <= length new /\ block_at new (take (end_ - start) (drop start old)) i)
  <-> block_kept old new start end_.
Proof.
  intros Hlt. unfold block_kept, block_at. rewrite length_take, length_drop, Nat.min_l by lia.
  split; intros (i & Hi & Hj); exists i; (split; [done |]); intros j Hjl;
    destruct (Hj j Hjl) as (p & q & Hp & Hq & Hr); exists p, q; (split; [done |]); (split; [|done]).
  - by rewrite lookup_take_lt, lookup_drop in Hq by lia.
  - by rewrite lookup_take_lt, lookup_drop by lia.
Qed.

Lemma path_locked_spec paths i :
  path_locked paths i = true <-> exists tag, paths !! i ≫= ep_order_lock = Some tag.
Proof. unfold path_locked. rewrite bool_decide_eq_true. done. Qed.

Lemma validate_infill_block_spec old new start :
  path_locked old start = true ->
  (start = 0 \/ path_locked old (start - 1) = false) ->
  validate_infill_block old new start = Done (Ok tt) <->
  block_kept old new start (run_end (path_locked old) start (length old)).
Proof.
  intros Hs Hb. apply path_locked_spec in Hs as [tag Ht]. unfold validate_infill_block. rewrite Ht.
  assert (Hlt : start < length old).
  { destruct (old !! start) eqn:Ho; [|done]. by apply lookup_lt_Some in Ho. }
  replace ((0 <? start) && path_locked old (start - 1)) with false
    by (destruct Hb as [-> | ->]; [done | by rewrite andb_false_r]).
  destruct (run_end_spec (path_locked old) start _ Hlt) as [Hse _].
  set (end_ := run_end _ _ _) in *. rewrite <- block_at_kept by lia.
  set (block := take _ _).
  assert (Hbl : length block = end_ - start) by (unfold block; rewrite length_take, length_drop; lia).
  destruct (find_block _ _ _) as [[]|] eqn:Hf.
  - split; [|done]. intros _. apply find_block_sound in Hf as (i & Hi%elem_of_seq & Hat).
    exists i. split; [|done]. destruct (Hat (length block - 1) ltac:(lia)) as (p & _ & Hp & _).
    apply lookup_lt_Some in Hp. lia.
  - split; [done |]. intros (i & Hi & Hat).
    rewrite (find_block_complete _ _ _ i) in Hf; [done | | apply elem_of_seq; lia | done].
    intros k Hk%elem_of_seq. lia.
  - split; [done |]. intros (i & Hi & Hat).
    rewrite (find_block_complete _ _ _ i) in Hf; [done | | apply elem_of_seq; lia | done].
    intros k Hk%elem_of_seq. lia.
Qed.

Lemma validate_blocks_spec old new :
  (forall start, start ∈ seq 0 (length old) -> validate_infill_block old new start = Done (Ok tt)) <->
  forall s e, run (path_locked old) (length old) s e -> block_kept old new s e.
Proof.
  split.
  - intros H s e Hr. pose proof Hr as [Hlt Hin Hb _].
    assert (Hs : path_locked old s = true) by (apply Hin; lia).
    assert (Hsl : s < length old) by lia.
    rewrite (run_unique _ _ _ _ _ Hr (run_end_run _ _ _ Hsl Hs Hb)).
    apply (validate_infill_block_spec _ _ _ Hs Hb), H, elem_of_seq. lia.
  - intros H start Hsl%elem_of_seq. destruct (path_locked old start) eqn:Hs.
    + destruct (decide (start = 0 \/ path_locked old (start - 1) = false)) as [Hb | Hb].
      * apply (validate_infill_block_spec _ _ _ Hs Hb), H, run_end_run; [lia | done | done].
      * unfold validate_infill_block. apply path_locked_spec in Hs as [tag ->].
        apply Decidable.not_or in Hb as [Hb1 Hb2]. apply not_false_iff_true in Hb2.
        rewrite Hb2, (proj2 (Nat.ltb_lt 0 start)) by lia. done.
    + unfold validate_infill_block. destruct (old !! start ≫= ep_order_lock) as [tag|] eqn:Ht; [|done].
      rewrite (proj2 (path_locked_spec old start)) in Hs by eauto. done.
Qed.

Lemma validate_infill_region_spec replacement old :
  validate_infill_region replacement old = Done (Ok tt) <->
  match list_find (fun r => infill_key r = infill_key old) (inf_regions replacement) with
  | None => forall p, p ∈ sparse_infill old -> ep_order_lock p = None
  | Some (_, new) => forall s e,
      run (path_locked (sparse_infill old)) (length (sparse_infill old)) s e ->
      block_kept (sparse_infill old) (sparse_infill new) s e
  end.
Proof.
  unfold validate_infill_region. destruct (list_find _ _) as [[k new]|].
  - rewrite for_each_exec_Ok. apply validate_blocks_spec.
  - destruct (existsb _ _) eqn:He.
    + split; [done |]. apply existsb_elem in He as (p & Hp & Hl). apply bool_decide_eq_true in Hl.
      intros H. rewrite (H p Hp) in Hl. by destruct Hl.
    + split; [|done]. intros _ p Hp. destruct (ep_order_lock p) as [tag|] eqn:Hl; [|done].
      apply not_true_iff_false in He. exfalso. apply He, existsb_elem. exists p. split; [done |].
      rewrite Hl. by apply bool_decide_eq_true.
Qed.

(** [C33].  A replacement of the infill is accepted exactly when every region that had locked
    sparse paths is still there under the same object, region and variant chain, and every
    maximal locked block of its sparse infill stands in the sparse infill of the first such
    region, contiguous, tagged and with equal points.  In every other case the replacement is
    refused or the check panics.  The other roles of a region are not looked at
    ([locks_outside_sparse_unchecked]). *)
Theorem locked_infill_preserved (previous replacement : InfillIR) :
  validate_infill_order_locks previous replacement = Done (Ok tt) <->
  forall old, old ∈ inf_regions previous ->
    match list_find (fun r => infill_key r = infill_key old) (inf_regions replacement) with
    | None => forall p, p ∈ sparse_infill old -> ep_order_lock p = None
    | Some (_, new) => forall s e,
        run (path_locked (sparse_infill old)) (length (sparse_infill old)) s e ->
        block_kept (sparse_infill old) (sparse_infill new) s e
    end.
Proof.
  unfold validate_infill_order_locks. rewrite for_each_exec_Ok.
  split; intros H old Hin; by apply validate_infill_region_spec, H.
Qed.

(** A divergence from ADR-0062, by which the host enforces the invariant when it commits the
    post-processed infill: locked solid, ironing and bridge paths are not checked.  If no
    sparse path is locked, any replacement is accepted, one that drops the region too. *)
Theorem locks_outside_sparse_unchecked (previous replacement : InfillIR) (Hs : sparse_locks previous = []) :
  validate_infill_order_locks previous replacement = Done (Ok tt).
Proof.
  unfold validate_infill_order_locks. apply for_each_exec_Ok. intros old Hold. apply validate_infill_region_spec.
  assert (Hno : forall p, p ∈ sparse_infill old -> ep_order_lock p = None).
  { intros p Hp. destruct (ep_order_lock p) as [tag|] eqn:Hl; [|done]. exfalso.
    apply (not_elem_of_nil tag). rewrite <-Hs. unfold sparse_locks. apply list_elem_of_omap. exists p. split; [|done].
    apply list_elem_of_In, in_concat. exists (sparse_infill old).
    split; apply list_elem_of_In; [by apply list_elem_of_fmap_2 | done]. }
  destruct (list_find _ _) as [[k new]|]; [|done]. intros s e [Hlt Hin _ _]. exfalso.
  pose proof (Hin s ltac:(lia)) as Hl. unfold path_locked in Hl. apply bool_decide_eq_true in Hl as [tag Htag].
  destruct (sparse_infill old !! s) as [p|] eqn:Hp; [|done]. cbn in Htag.
  rewrite (Hno p) in Htag; [done | by eapply list_elem_of_lookup_2].
Qed.

Lemma find_block_empty block n : block <> [] -> find_block [] block (seq 0 (0 - n + 1)) = None.
Proof. by destruct block. Qed.

Lemma emptied_block_panics path ps :
  is_Some (ep_order_lock path) -> validate_infill_block (path :: ps) [] 0 = Panicked.
Proof.
  intros [tag Htag]. unfold validate_infill_block.
  change ((path :: ps) !! 0 ≫= ep_order_lock) with (ep_order_lock path). rewrite Htag.
  destruct (run_end_spec (path_locked (path :: ps)) 0 (length (path :: ps)) ltac:(simpl; lia)) as [Hse _].
  set (e := run_end _ _ _) in *. change ((0 <? 0) && _) with false. cbv iota zeta.
  change (length []) with 0. rewrite find_block_empty; [done |].
  destruct e as [|e]; [lia | done].
Qed.

(** The check of a replacement indexes past the end instead of reporting the dropped
    block when the replacement keeps the region but none of its paths. *)
Theorem emptied_locked_region_panics (previous replacement : InfillIR)
    (old new : InfillRegion) (path : ExtrusionPath3D) (rest : list InfillRegion)
    (Hold : inf_regions previous = old :: rest)
    (Hfirst : head (sparse_infill old) = Some path) (Hlock : is_Some (ep_order_lock path))
    (Hnew : list_find (fun r => infill_key r = infill_key old) (inf_regions replacement) = Some (0, new))
    (Hempty : sparse_infill new = []) :
  validate_infill_order_locks previous replacement = Panicked.
Proof.
  unfold validate_infill_order_locks. rewrite Hold. cbn [for_each_exec].
  unfold validate_infill_region at 1. rewrite Hnew, Hempty.
  destruct (sparse_infill old) as [|p ps]; [done |]. injection Hfirst as ->. destruct Hlock as [tag Htag].
  cbn [length seq for_each_exec]. rewrite emptied_block_panics by (by eexists). done.
Qed.

(** ** Witnesses *)

#[local] Instance sample_prepass : PrepassTypes := {|
  pre_MeshIR := unit; pre_SurfaceClassificationIR := unit; pre_LayerPlanIR := unit;
  pre_RegionMapIR := unit; pre_LayerSelectionIndex := unit; pre_SupportGeometryIR := unit;
  pre_SupportAnalysisIR := unit; pre_ScoredSeamCandidate := unit;
  pre_SupportPlanRoleRegion := unit; pre_SupportPlanSkeleton := unit;
  pre_PreparedRegionData := unit |}.
#[local] Existing Instance layer_types.

Definition sample_point (x : Z) : Point3WithWidth :=
  {| pw_x := F32 x; pw_y := ZERO; pw_z := ZERO; pw_width := ONE; pw_flow_factor := ONE;
     pw_overhang_quartile := None; pw_dist_to_top_mm := ZERO; pw_overhang_distance_mm := None |}.

Definition sample_path (lock : option Z) : ExtrusionPath3D :=
  {| ep_points := [sample_point 0; sample_point 1065353216]; ep_role := SparseInfill;
     ep_speed_factor := ONE; ep_tool_index := None; ep_order_lock := lock |}.

Definition sample_key : RegionKey :=
  {| rk_global_layer_index := 0; rk_object_id := ""; rk_region_id := 0; rk_variant_chain := [] |}.

Definition sample_entity (id : Z) (path : ExtrusionPath3D) : PrintEntity :=
  {| pe_entity_id := id; pe_path := path; pe_role := SparseInfill; pe_region_key := sample_key;
     pe_topo_order := id; pe_tool_index := 0 |}.

Definition sample_collection (es : list PrintEntity) : LayerCollectionIR :=
  {| lc_schema_version := CURRENT_LAYER_COLLECTION_IR_SCHEMA_VERSION; lc_global_layer_index := 0;
     lc_z := ZERO; ordered_entities := es; support_entity_identities := []; lc_tool_changes := [];
     lc_z_hops := []; lc_annotations := []; lc_retracts := []; lc_travel_moves := [];
     lc_speed_profiles := [] |}.

Definition sample_region (paths : list ExtrusionPath3D) : InfillRegion :=
  {| if_object_id := "cube"; if_region_id := 0; if_variant_chain := []; sparse_infill := paths;
     solid_infill := []; ironing := []; internal_bridge_infill := [] |}.

Definition sample_infill (rs : list InfillRegion) : InfillIR :=
  {| inf_schema_version := SemVer_default; inf_global_layer_index := 0; inf_regions := rs;
     inf_raft_regions := [] |}.

Definition locked_entities : list PrintEntity :=
  [sample_entity 0 (sample_path (Some 7%Z)); sample_entity 1 (sample_path (Some 7%Z));
   sample_entity 2 (sample_path None)].

Definition sample_arena (es : list PrintEntity) : LayerArena :=
  set_layer_collection LayerArena.new (sample_collection es).

(** The block of tag 7 moves behind the unlocked entity, which is reversed. *)
Lemma entity_order_applied_witness :
  exists arena', apply_entity_order_proposal (sample_arena locked_entities)
    [(2%Z, true); (0%Z, false); (1%Z, false)] = Done (arena', Ok tt).
Proof.
  destruct (entity_order_applied (sample_arena locked_entities) (sample_collection locked_entities)
              [(2%Z, true); (0%Z, false); (1%Z, false)] eq_refl) as (arena' & r & Hr & _).
  exists arena'. rewrite Hr. destruct r as [[]|e]; [reflexivity |].
  exfalso. vm_compute in Hr. discriminate Hr.
Defined.

Definition issued_existing : InfillIR :=
  sample_infill [sample_region [sample_path (Some 9223372036854775810%Z)]].
Definition issued_commit : InfillIR :=
  sample_infill [sample_region [sample_path (Some 7%Z); sample_path None; sample_path (Some 7%Z)]].

Lemma issued_tags_fresh_witness :
  let '(ir', r) := remap_infill_order_locks_from issued_commit (next_global_infill_tag issued_existing) in
  r = Ok tt /\ sparse_locks ir' = [9223372036854775811; 9223372036854775812]%Z /\
  Forall2 same_but_sparse (inf_regions issued_commit) (inf_regions ir').
Proof.
  pose proof (issued_tags_fresh issued_existing issued_commit ltac:(repeat constructor; discriminate)
    ltac:(repeat constructor; discriminate) ltac:(vm_compute; discriminate)) as H.
  cbv zeta in H. destruct (remap_infill_order_locks_from _ _) as [ir' r] eqn:He.
  assert (r = Ok tt) as -> by (vm_compute in He; by injection He as _ <-).
  destruct H as [_ H]. destruct (H eq_refl) as [Hf _]. split; [done |]. split; [|exact Hf].
  vm_compute in He. injection He as <-. reflexivity.
Defined.

Definition swapped_lc : LayerCollectionIR :=
  sample_collection [sample_entity 0 (sample_path (Some 9223372036854775808%Z));
                     sample_entity 1 (sample_path (Some 9223372036854775809%Z))].

Lemma committed_block_can_be_reordered_witness :
  exists arena', apply_entity_order_proposal (set_layer_collection LayerArena.new swapped_lc)
    [(1%Z, false); (0%Z, false)] = Done (arena', Ok tt).
Proof.
  apply (committed_block_can_be_reordered _ swapped_lc
    [sample_path (Some 7%Z); sample_path (Some 7%Z)]
    [sample_path (Some 9223372036854775808%Z); sample_path (Some 9223372036854775809%Z)] 0 2);
    try reflexivity.
  - discriminate.
  - intros p Hp. right. rewrite !elem_of_cons, elem_of_nil in Hp.
    destruct Hp as [-> | [-> | []]]; reflexivity.
  - apply Permutation_swap.
  - intros e He. rewrite !elem_of_cons, elem_of_nil in He. destruct He as [-> | [-> | []]]; reflexivity.
Defined.

Lemma emptied_locked_region_panics_witness :
  validate_infill_order_locks (sample_infill [sample_region [sample_path (Some 1%Z)]])
    (sample_infill [sample_region []]) = Panicked.
Proof.
  apply (emptied_locked_region_panics _ _ (sample_region [sample_path (Some 1%Z)]) (sample_region [])
           (sample_path (Some 1%Z)) []); try reflexivity. eexists. reflexivity.
Defined.

(** The region with a locked solid path is dropped. *)
Definition solid_locked_region (lock : option Z) : InfillRegion :=
  {| if_object_id := "cube"; if_region_id := 0; if_variant_chain := []; sparse_infill := [];
     solid_infill := [sample_path lock]; ironing := []; internal_bridge_infill := [] |}.

Lemma locks_outside_sparse_unchecked_witness :
  validate_infill_order_locks (sample_infill [solid_locked_region (Some 7%Z)]) (sample_infill []) = Done (Ok tt).
Proof. apply locks_outside_sparse_unchecked. reflexivity. Defined.
