(* ===== verification/Anchored.v ===== *)
(** Anchored work ([slicer-runtime/src/layer_executor.rs], [slicer-ir/src/slice_ir.rs],
    [slicer-scheduler/src/execution_plan.rs]): extrusions that belong to one global layer
    but carry their own height.  Which route an entity takes, the check of its points,
    the conversion to an entity of a layer, and the order in which a collection of
    anchored events is committed. *)
From stdpp Require Import prelude gmap strings list.
From S2P Require Import Prelude Text Ir Float32 ExecutionPlan Blackboard LayerArena Planar LayerIr OrderLock.

#[local] Open Scope string_scope.
#[local] Open Scope list_scope.
#[local] Open Scope Z_scope.

(** ** Contracts and closures *)

Definition contains_z (g : AnchoredGeometryContract) (z : Z) : bool :=
  match g with
  | Planar plane => z =? plane
  | ZSpanning min_z max_z => (min_z <=? z) && (z <=? max_z)
  end.

Definition derive (input output : list string) : CapabilityDerivedEventClosure :=
  {| input_capabilities := input; output_capabilities := output;
     derived_capabilities := dedup (sort (input ++ output)) |}.

Record AnchoredInvocation := {
  ai_anchor_global_layer_index : Z;
  ai_closure : CapabilityDerivedEventClosure;
  ai_provenance : AnchoredEntityProvenance;
  ai_layer_parallel_safe : bool
}.

Definition anchored_invocation (entity : AnchoredEntity) (layer_parallel_safe : bool)
    : AnchoredInvocation :=
  {| ai_anchor_global_layer_index := ae_anchor_global_layer_index entity;
     ai_closure := derive (ae_input_capabilities entity) (ae_output_capabilities entity);
     ai_provenance := ae_provenance entity;
     ai_layer_parallel_safe := layer_parallel_safe |}.

(** The key of the deterministic order: declared height, then identity. *)
Definition ordering_z (e : AnchoredEntity) : Z :=
  match ae_geometry e with Planar z => z | ZSpanning min_z _ => min_z end.

Definition event_key (e : AnchoredEntity) : Z * Z := (ordering_z e, ae_local_id e).
Definition event_leb (a b : AnchoredEntity) : bool := rust_leb (event_key a) (event_key b).

Definition with_events (c : OrderedEventCollection) (es : list AnchoredEntity) : OrderedEventCollection :=
  {| oc_anchor_global_layer_index := oc_anchor_global_layer_index c; oc_events := es;
     oc_runtime_hooks := oc_runtime_hooks c |}.

Definition sort_deterministically (c : OrderedEventCollection) : OrderedEventCollection :=
  with_events c (sort_by event_leb (oc_events c)).

(** ** Committing a collection *)

Definition reverse_event (e : AnchoredEntity) : AnchoredEntity :=
  {| ae_local_id := ae_local_id e; ae_anchor_global_layer_index := ae_anchor_global_layer_index e;
     ae_geometry := ae_geometry e; ae_input_capabilities := ae_input_capabilities e;
     ae_output_capabilities := ae_output_capabilities e; ae_provenance := ae_provenance e;
     ae_path_points := reverse (ae_path_points e); ae_role := ae_role e |}.

(** [(0..len).rev().map(|index| (index as u32, true))]. *)
Definition reversing_proposal (len : nat) : list (Z * bool) :=
  (fun index => (wrap_u32 (Z.of_nat index), true)) <$> reverse (seq 0 len).

Definition commit_collection (c : OrderedEventCollection) : exec OrderedEventCollection :=
  let c := sort_deterministically c in
  if optimize_paths (oc_runtime_hooks c) then
    let! out := apply_order_proposal reverse_event (fun e _ => e) (oc_events c)
                  (reversing_proposal (length (oc_events c))) in
    match out with
    | (events, Ok _) => Done (with_events c events)
    | (_, Err _) => Panicked
    end
  else Done c.

Fixpoint commit_ordered_event_collections (cs : list OrderedEventCollection)
    : exec (list OrderedEventCollection) :=
  match cs with
  | [] => Done []
  | c :: cs =>
      let! c := commit_collection c in
      let! cs := commit_ordered_event_collections cs in
      Done (c :: cs)
  end.

(** ** The check of the points *)

Section validate.
(** [Display] of [f32]. *)
Context (show_f32 : f32 -> string).

Definition validate_anchored_point (geometry : AnchoredGeometryContract)
    (e : nat * Point3WithWidth) : result unit string :=
  let '(index, point) := e in
  let prefix := "anchored entity point[" +:+ show_uint (Z.of_nat index) +:+ "]" in
  if f32_leb (pw_width point) ZERO || negb (f32_is_finite (pw_width point)) then
    Err (prefix +:+ ".width must be finite and positive, got " +:+ show_f32 (pw_width point))
  else if f32_leb (pw_flow_factor point) ZERO || negb (f32_is_finite (pw_flow_factor point)) then
    Err (prefix +:+ ".flow_factor must be finite and positive, got " +:+ show_f32 (pw_flow_factor point))
  else if negb (f32_is_finite (pw_z point)) then
    Err match geometry with
        | Planar _ => "anchored entity planar z mismatch: path point Z is not finite"
        | ZSpanning _ _ => "anchored entity z-span violation: path point Z is not finite"
        end
  else
    let z := mm_to_units (pw_z point) in
    match geometry with
    | Planar plane =>
        if COORDINATE_TOLERANCE_UNITS <? abs_i64 (wrap_i64 (z - plane)) then
          Err ("anchored entity planar z mismatch: path point Z " +:+ show_int z +:+
               " differs from plane " +:+ show_int plane)
        else Ok tt
    | ZSpanning min_z max_z =>
        if (z <? wrap_i64 (min_z - COORDINATE_TOLERANCE_UNITS))
           || (wrap_i64 (max_z + COORDINATE_TOLERANCE_UNITS) <? z) then
          Err ("anchored entity z-span violation: path point Z " +:+ show_int z +:+
               " is outside [" +:+ show_int min_z +:+ ", " +:+ show_int max_z +:+ "]")
        else Ok tt
    end.

Definition validate_anchored_entity (entity : AnchoredEntity) : result unit string :=
  for_each (validate_anchored_point (ae_geometry entity)) (enumerate (ae_path_points entity)).

(** ** Routes *)

Inductive AnchoredRoute := SameZLayerEntity | AnchoredCollection.

Definition route_of (entity : AnchoredEntity) (plan : ExecutionPlan) : AnchoredRoute :=
  if negb (String.eqb (requesting_feature (ae_provenance entity)) "same-z-support") then AnchoredCollection
  else
    match list_find (fun layer => gl_index layer = ae_anchor_global_layer_index entity)
                    (ep_global_layers plan) with
    | None => AnchoredCollection
    | Some (_, anchor) =>
        match ae_geometry entity with
        | Planar z =>
            if abs_i64 (wrap_i64 (z - mm_to_units (gl_z anchor))) <=? COORDINATE_TOLERANCE_UNITS
            then SameZLayerEntity else AnchoredCollection
        | ZSpanning _ _ => AnchoredCollection
        end
    end.

Definition is_same_z (entity : AnchoredEntity) (plan : ExecutionPlan) : bool :=
  match route_of entity plan with SameZLayerEntity => true | AnchoredCollection => false end.

Definition global_layer_is_raft (plan : ExecutionPlan) (global_layer_index : Z) : bool :=
  existsb (fun layer => (gl_index layer =? global_layer_index) && gl_is_raft layer)
    (ep_global_layers plan).

Definition RegionKey_default : RegionKey :=
  {| rk_global_layer_index := 0; rk_object_id := ""; rk_region_id := 0; rk_variant_chain := [] |}.

Definition anchored_entity_to_print_entity (entity : AnchoredEntity) (topo_order : Z) : PrintEntity :=
  {| pe_entity_id := ae_local_id entity;
     pe_path := {| ep_points := ae_path_points entity; ep_role := ae_role entity;
                   ep_speed_factor := ONE; ep_tool_index := None; ep_order_lock := None |};
     pe_role := ae_role entity; pe_region_key := RegionKey_default;
     pe_topo_order := topo_order; pe_tool_index := 0 |}.

(** Push one entity at the end of a row. *)
Definition push_entity (row : LayerCollectionIR) (entity : AnchoredEntity) : LayerCollectionIR :=
  let topo_order := wrap_u32 (Z.of_nat (length (ordered_entities row))) in
  with_ordered_entities row
    (ordered_entities row ++ [anchored_entity_to_print_entity entity topo_order]).

Definition row_of (index : Z) (row : LayerCollectionIR) : bool := lc_global_layer_index row =? index.

(** The errors of layer execution that the modelled code builds. *)
Inductive LayerExecutionError :=
| Cancelled
| FatalLayer (layer_index : Z) (stage_id : StageId) (module_id : ModuleId) (message : string)
| AnchoredGeometry (local_id : Z) (message : string).

Fixpoint append_same_z_loop (layers : list LayerCollectionIR) (entities : list AnchoredEntity)
    : list LayerCollectionIR * result unit LayerExecutionError :=
  match entities with
  | [] => (layers, Ok tt)
  | entity :: rest =>
      match validate_anchored_entity entity with
      | Err message => (layers, Err (AnchoredGeometry (ae_local_id entity) message))
      | Ok _ =>
          let layers := default layers (update_first (row_of (ae_anchor_global_layer_index entity))
                                          (fun row => push_entity row entity) layers) in
          append_same_z_loop layers rest
      end
  end.

Definition append_same_z_entities (layers : list LayerCollectionIR) (plan : ExecutionPlan)
    (entities : list AnchoredEntity) : list LayerCollectionIR * result unit LayerExecutionError :=
  append_same_z_loop layers
    (filter (fun e => global_layer_is_raft plan (ae_anchor_global_layer_index e) = false)
       (filter (fun e => is_same_z e plan = true) entities)).
End validate.

(** ** What the check accepts *)

Definition positive (x : f32) : Prop := f32_leb x ZERO = false /\ f32_is_finite x = true.

Definition near_contract (g : AnchoredGeometryContract) (z : Z) : Prop :=
  match g with
  | Planar plane => Z.abs (z - plane) <= COORDINATE_TOLERANCE_UNITS
  | ZSpanning min_z max_z =>
      min_z - COORDINATE_TOLERANCE_UNITS <= z <= max_z + COORDINATE_TOLERANCE_UNITS
  end.

(** Heights for which the [i64] arithmetic of the check does not wrap. *)
Definition contract_in_range (g : AnchoredGeometryContract) : Prop :=
  match g with
  | Planar plane => Z.abs plane < 2 ^ 62
  | ZSpanning min_z max_z => i64_min + 10 <= min_z <= i64_max /\ i64_min <= max_z <= i64_max - 10
  end.

Definition point_in_range (p : Point3WithWidth) : Prop := Z.abs (mm_to_units (pw_z p)) < 2 ^ 62.

Lemma positive_test x : (f32_leb x ZERO || negb (f32_is_finite x)) = false <-> positive x.
Proof. unfold positive. rewrite orb_false_iff, negb_false_iff. done. Qed.

Lemma abs_diff_small a b :
  Z.abs a < 2 ^ 62 -> Z.abs b < 2 ^ 62 -> abs_i64 (wrap_i64 (a - b)) = Z.abs (a - b).
Proof.
  intros Ha Hb. unfold abs_i64.
  rewrite (wrap_i64_small (a - b)), wrap_i64_small; unfold i64_min, i64_max; lia.
Qed.

Lemma near_test g z :
  contract_in_range g -> Z.abs z < 2 ^ 62 ->
  match g with
  | Planar plane => COORDINATE_TOLERANCE_UNITS <? abs_i64 (wrap_i64 (z - plane))
  | ZSpanning min_z max_z => (z <? wrap_i64 (min_z - COORDINATE_TOLERANCE_UNITS))
                             || (wrap_i64 (max_z + COORDINATE_TOLERANCE_UNITS) <? z)
  end = false <-> near_contract g z.
Proof.
  destruct g as [plane | min_z max_z]; simpl; intros Hg Hz.
  - rewrite abs_diff_small by done. apply Z.ltb_ge.
  - unfold COORDINATE_TOLERANCE_UNITS in *. unfold i64_min, i64_max in Hg.
    rewrite !wrap_i64_small by (unfold i64_min, i64_max; lia).
    rewrite orb_false_iff, !Z.ltb_ge. lia.
Qed.

(** The check of an anchored entity accepts it exactly when every point has a finite
    positive width and flow factor and a finite height that lies within the tolerance of
    the declared plane or span, for heights where the [i64] arithmetic does not wrap. *)
Theorem anchored_entity_accepted show_f32 (entity : AnchoredEntity)
    (Hg : contract_in_range (ae_geometry entity))
    (Hp : Forall point_in_range (ae_path_points entity)) :
  validate_anchored_entity show_f32 entity = Ok tt <->
  forall p, p ∈ ae_path_points entity ->
    positive (pw_width p) /\ positive (pw_flow_factor p) /\ f32_is_finite (pw_z p) = true /\
    near_contract (ae_geometry entity) (mm_to_units (pw_z p)).
Proof.
  unfold validate_anchored_entity. rewrite for_each_Ok.
  assert (Hone : forall k p, p ∈ ae_path_points entity ->
    validate_anchored_point show_f32 (ae_geometry entity) (k, p) = Ok tt <->
    positive (pw_width p) /\ positive (pw_flow_factor p) /\ f32_is_finite (pw_z p) = true /\
    near_contract (ae_geometry entity) (mm_to_units (pw_z p))).
  { intros k p Hin. pose proof (proj1 (Forall_forall _ _) Hp p Hin) as Hz.
    pose proof (near_test _ _ Hg Hz) as Hn. rewrite <- !positive_test. unfold validate_anchored_point.
    destruct (f32_leb (pw_width p) ZERO || negb (f32_is_finite (pw_width p))).
    { split; [discriminate | by intros [? _]]. }
    destruct (f32_leb (pw_flow_factor p) ZERO || negb (f32_is_finite (pw_flow_factor p))).
    { split; [discriminate | by intros (_ & ? & _)]. }
    destruct (f32_is_finite (pw_z p)); cbn [negb]; [|split; [discriminate | by intros (_ & _ & ? & _)]].
    rewrite <- Hn. destruct (ae_geometry entity) as [plane | min_z max_z].
    - destruct (COORDINATE_TOLERANCE_UNITS <? _); split; [discriminate | by intros (_ & _ & _ & ?) | done | done].
    - destruct ((_ <? wrap_i64 (min_z - _)) || _); split; [discriminate | by intros (_ & _ & _ & ?) | done | done]. }
  split.
  - intros H p Hin. pose proof Hin as [k Hk]%list_elem_of_lookup.
    apply (Hone k p Hin), H. by apply elem_of_enumerate.
  - intros H [k p] Hin%elem_of_enumerate. apply list_elem_of_lookup_2 in Hin as Hin'.
    by apply Hone, H.
Qed.

(** ** The committed order *)

Lemma event_leb_trans a b c : event_leb a b = true -> event_leb b c = true -> event_leb a c = true.
Proof. apply rust_leb_trans. Qed.
Lemma event_leb_total a b : event_leb a b = true \/ event_leb b a = true.
Proof. apply rust_leb_total. Qed.

Lemma reversing_indices len :
  Z.of_nat len <= 2 ^ 32 -> order_indices (reversing_proposal len) = reverse (seq 0 len).
Proof.
  intros Hl. unfold order_indices, reversing_proposal. rewrite <- !list_fmap_compose.
  transitivity (id <$> reverse (seq 0 len)); [|apply list_fmap_id].
  apply list_fmap_ext. intros i x Hx. simpl.
  apply list_elem_of_lookup_2, elem_of_reverse, elem_of_seq in Hx.
  rewrite wrap_u32_small by (unfold u32_max; lia). by rewrite Nat2Z.id.
Qed.

Lemma reversing_lookup len j :
  (j < len)%nat -> reversing_proposal len !! j = Some (wrap_u32 (Z.of_nat (len - 1 - j)), true).
Proof.
  intros Hj. unfold reversing_proposal. rewrite list_lookup_fmap.
  assert (Hr : reverse (seq 0 len) !! j = Some (len - 1 - j)%nat).
  { rewrite reverse_lookup by (by rewrite length_seq). rewrite length_seq. apply lookup_seq. lia. }
  by rewrite Hr.
Qed.

Lemma commit_collection_spec c :
  Z.of_nat (length (oc_events c)) <= 2 ^ 32 ->
  let sorted := sort_by event_leb (oc_events c) in
  commit_collection c =
    Done (with_events c (if optimize_paths (oc_runtime_hooks c)
                         then reverse_event <$> reverse sorted else sorted)).
Proof.
  intros Hl sorted. unfold commit_collection.
  change (oc_runtime_hooks (sort_deterministically c)) with (oc_runtime_hooks c).
  change (oc_events (sort_deterministically c)) with sorted.
  destruct (optimize_paths _); [|done].
  assert (Hls : length sorted = length (oc_events c)) by (unfold sorted; by rewrite sort_by_perm).
  destruct (apply_order_proposal_spec reverse_event (fun e _ => e) sorted
              (reversing_proposal (length sorted))) as [(e & Hc & _) | (_ & out & -> & Hlen & Hout)].
  { exfalso. enough (Hok : check_proposal (length sorted) (reversing_proposal (length sorted)) = Ok tt)
      by congruence. apply check_proposal_spec. rewrite reversing_indices by lia. apply reverse_Permutation. }
  simpl. f_equal. unfold sort_deterministically, with_events. simpl. f_equal.
  apply list_eq_same_length with (length sorted); [by rewrite length_fmap, length_reverse | done |].
  intros j x y Hj Hx Hy. assert (Hlt : (length sorted - 1 - j < length sorted)%nat) by lia.
  destruct (lookup_lt_is_Some_2 _ _ Hlt) as [z Hz].
  rewrite (Hout j (wrap_u32 (Z.of_nat (length sorted - 1 - j))) true z) in Hx.
  - rewrite list_lookup_fmap, reverse_lookup in Hy by done.
    replace (length sorted - S j)%nat with (length sorted - 1 - j)%nat in Hy by lia.
    rewrite Hz in Hy. simpl in *. congruence.
  - apply reversing_lookup. lia.
  - rewrite wrap_u32_small by (unfold u32_max; lia). by rewrite Nat2Z.id.
Qed.

(** Committing a collection never fails.  Without path optimisation its events execute
    in the order of height and identity.  With it, which is the default, they execute in
    exactly the opposite order, each with its points reversed: not in the order of height
    that the comment of the function states. *)
Theorem committed_event_order (c : OrderedEventCollection)
    (Hl : Z.of_nat (length (oc_events c)) <= 2 ^ 32) :
  exists events, commit_collection c = Done (with_events c events) /\
    (optimize_paths (oc_runtime_hooks c) = false ->
       events ≡ₚ oc_events c /\
       forall i j a b, (i < j)%nat -> events !! i = Some a -> events !! j = Some b ->
         event_leb a b = true) /\
    (optimize_paths (oc_runtime_hooks c) = true ->
       events ≡ₚ reverse_event <$> oc_events c /\
       forall i j a b, (i < j)%nat -> events !! i = Some a -> events !! j = Some b ->
         event_leb b a = true).
Proof.
  eexists. split; [by apply commit_collection_spec |].
  pose proof (sort_by_sorted event_leb event_leb_trans event_leb_total (oc_events c)) as Hs.
  split; intros ->; (split; [by rewrite ?reverse_Permutation, sort_by_perm |]); intros i j a b Hij Ha Hb.
  - by apply (sorted_by_lookup event_leb _ i j a b Hs).
  - set (s := sort_by event_leb (oc_events c)) in *.
    rewrite list_lookup_fmap in Ha, Hb.
    destruct (reverse s !! i) as [x|] eqn:Hx; [|done]. destruct (reverse s !! j) as [y|] eqn:Hy; [|done].
    injection Ha as <-. injection Hb as <-.
    change (event_leb y x = true).
    pose proof (lookup_lt_Some _ _ _ Hy) as Hjl. rewrite length_reverse in Hjl.
    rewrite reverse_lookup in Hx, Hy by lia.
    apply (sorted_by_lookup event_leb s (length s - S j) (length s - S i)); [done | lia | done | done].
Qed.

(** ** Rows that receive entities *)

Definition push_entities (row : LayerCollectionIR) (es : list AnchoredEntity) : LayerCollectionIR :=
  foldl push_entity row es.

(** The print entities that a list of anchored entities becomes behind [n] others. *)
Definition appended (n : nat) (es : list AnchoredEntity) : list PrintEntity :=
  imap (fun k e => anchored_entity_to_print_entity e (wrap_u32 (Z.of_nat (n + k)))) es.

Lemma push_entities_spec row es :
  push_entities row es =
  with_ordered_entities row (ordered_entities row ++ appended (length (ordered_entities row)) es).
Proof.
  unfold push_entities. revert row. induction es as [|e es IH]; intros row; simpl.
  - unfold appended. simpl. rewrite app_nil_r. by destruct row.
  - rewrite IH. unfold push_entity, with_ordered_entities. simpl. f_equal.
    rewrite <- (assoc_L (++)). f_equal. unfold appended. rewrite imap_cons, Nat.add_0_r.
    simpl. f_equal. rewrite length_app. simpl. apply imap_ext. intros k x _. simpl.
    do 3 f_equal. lia.
Qed.

Lemma push_entity_key row e index : row_of index (push_entity row e) = row_of index row.
Proof. done. Qed.

(** The entities that [append_same_z_entities] considers. *)
Definition same_z_selected (plan : ExecutionPlan) (entities : list AnchoredEntity) : list AnchoredEntity :=
  filter (fun e => is_same_z e plan = true /\
                   global_layer_is_raft plan (ae_anchor_global_layer_index e) = false) entities.

Definition anchored_to (row : LayerCollectionIR) (es : list AnchoredEntity) : list AnchoredEntity :=
  filter (fun e => ae_anchor_global_layer_index e = lc_global_layer_index row) es.

Lemma update_first_row index e layers :
  NoDup (lc_global_layer_index <$> layers) ->
  default layers (update_first (row_of index) (fun row => push_entity row e) layers) =
  (fun row => if row_of index row then push_entity row e else row) <$> layers.
Proof.
  induction layers as [|row layers IH]; [done |]. rewrite fmap_cons, NoDup_cons. intros [Hnot Hnd].
  specialize (IH Hnd). simpl. destruct (row_of index row) eqn:Hr.
  - simpl. f_equal. rewrite <- (list_fmap_id layers) at 1. apply list_fmap_ext. intros k x Hx. simpl.
    case_match eqn:Hrx; [|done]. exfalso. apply Hnot. unfold row_of in *.
    apply Z.eqb_eq in Hr, Hrx. rewrite Hr, <- Hrx. apply list_elem_of_fmap_2.
    by eapply list_elem_of_lookup_2.
  - change (list_fmap _ _ ?f layers) with (f <$> layers) in *. rewrite <- IH.
    by destruct (update_first _ _ layers).
Qed.

Lemma append_same_z_loop_spec show_f32 layers es :
  NoDup (lc_global_layer_index <$> layers) ->
  let '(layers', r) := append_same_z_loop show_f32 layers es in
  (r = Ok tt <-> forall e, e ∈ es -> validate_anchored_entity show_f32 e = Ok tt) /\
  (r = Ok tt -> layers' = (fun row => push_entities row (anchored_to row es)) <$> layers).
Proof.
  revert layers. induction es as [|e es IH]; intros layers Hnd; cbn [append_same_z_loop].
  - split; [split; [set_solver | done] |]. intros _. symmetry. unfold anchored_to. simpl.
    unfold push_entities. simpl. apply list_fmap_id.
  - destruct (validate_anchored_entity show_f32 e) as [[]|message] eqn:Hv.
    2: { split; [|done]. split; [done |]. intros H. rewrite (H e (list_elem_of_here _ _)) in Hv. done. }
    rewrite update_first_row by done. set (layers1 := _ <$> layers).
    assert (Hnd1 : NoDup (lc_global_layer_index <$> layers1)).
    { unfold layers1. rewrite <- list_fmap_compose.
      replace (lc_global_layer_index ∘ _ <$> layers) with (lc_global_layer_index <$> layers); [done |].
      apply list_fmap_ext. intros k x _. simpl. by case_match. }
    specialize (IH layers1 Hnd1). destruct (append_same_z_loop _ layers1 es) as [layers' r].
    destruct IH as [IH1 IH2]. split.
    + rewrite IH1. setoid_rewrite elem_of_cons. split; [intros H ? [-> | ?]; auto | auto].
    + intros Hr. rewrite (IH2 Hr). unfold layers1. rewrite <- list_fmap_compose.
      apply list_fmap_ext. intros k row _. simpl. unfold row_of, anchored_to.
      rewrite filter_cons. destruct (Z.eqb_spec (lc_global_layer_index row) (ae_anchor_global_layer_index e)) as [He | He].
      * rewrite decide_True by done. done.
      * rewrite decide_False by done. done.
Qed.

(** Same-plane work joins the ordinary layers: the call succeeds exactly when every entity
    routed there (requested as same-z support, planar within the tolerance of its layer, not
    on a raft layer) passes the check, and then every layer gets exactly the entities
    anchored to it, after its own, in their order and numbered onwards. *)
Theorem same_z_entities_appended show_f32 (layers : list LayerCollectionIR) (plan : ExecutionPlan)
    (entities : list AnchoredEntity) (Hnd : NoDup (lc_global_layer_index <$> layers)) :
  let '(layers', r) := append_same_z_entities show_f32 layers plan entities in
  let selected := same_z_selected plan entities in
  (r = Ok tt <-> forall e, e ∈ selected -> validate_anchored_entity show_f32 e = Ok tt) /\
  (r = Ok tt -> layers' = (fun row => with_ordered_entities row
     (ordered_entities row ++ appended (length (ordered_entities row)) (anchored_to row selected))) <$> layers).
Proof.
  unfold append_same_z_entities. rewrite list_filter_filter.
  assert (Hsel : filter (fun e => global_layer_is_raft plan (ae_anchor_global_layer_index e) = false /\
                                  is_same_z e plan = true) entities = same_z_selected plan entities).
  { apply list_filter_iff. intros e. tauto. }
  rewrite Hsel. pose proof (append_same_z_loop_spec show_f32 layers (same_z_selected plan entities) Hnd) as H.
  destruct (append_same_z_loop _ _ _) as [layers' r]. destruct H as [H1 H2]. split; [done |].
  intros Hr. rewrite (H2 Hr). apply list_fmap_ext. intros k row _. apply push_entities_spec.
Qed.

(** The [i64] arithmetic of the check can wrap: [abs] of the smallest number is negative
    in a release build, so a point 10^30 mm below the bed is accepted on the plane 0. *)
Theorem far_point_accepted show_f32 :
  exists entity point, ae_geometry entity = Planar 0 /\ ae_path_points entity = [point] /\
    mm_to_units (pw_z point) = i64_min /\ validate_anchored_entity show_f32 entity = Ok tt.
Proof.
  exists {| ae_local_id := 1; ae_anchor_global_layer_index := 0; ae_geometry := Planar 0;
            ae_input_capabilities := []; ae_output_capabilities := [];
            ae_provenance := {| requesting_feature := ""; source_plan_entry := "" |};
            ae_path_points := [{| pw_x := ZERO; pw_y := ZERO; pw_z := F32 4048155338; pw_width := ONE;
                                  pw_flow_factor := ONE; pw_overhang_quartile := None;
                                  pw_dist_to_top_mm := ZERO; pw_overhang_distance_mm := None |}];
            ae_role := SupportMaterial |}.
  eexists. split; [reflexivity |]. split; [reflexivity |]. split; vm_compute; reflexivity.
Qed.

(** ** Witnesses *)

Definition sample_anchored (id : Z) (geometry : AnchoredGeometryContract) (z : f32) : AnchoredEntity :=
  {| ae_local_id := id; ae_anchor_global_layer_index := 3; ae_geometry := geometry;
     ae_input_capabilities := ["Layer::PathOptimization"]; ae_output_capabilities := [];
     ae_provenance := {| requesting_feature := "same-z-support"; source_plan_entry := "" |};
     ae_path_points := [{| pw_x := ZERO; pw_y := ZERO; pw_z := z; pw_width := ONE;
                           pw_flow_factor := ONE; pw_overhang_quartile := None;
                           pw_dist_to_top_mm := ZERO; pw_overhang_distance_mm := None |}];
     ae_role := SupportMaterial |}.

Definition no_text (_ : f32) : string := "".

(** 0.2 mm is 2000 units. *)
Definition z_fifth : f32 := F32 1045220557.

Lemma anchored_entity_accepted_witness :
  validate_anchored_entity no_text (sample_anchored 1 (Planar 2005) z_fifth) = Ok tt.
Proof.
  apply (anchored_entity_accepted no_text (sample_anchored 1 (Planar 2005) z_fifth)).
  - vm_compute. reflexivity.
  - repeat constructor.
  - intros p Hp%list_elem_of_singleton. subst p. repeat split; vm_compute; try reflexivity; discriminate.
Defined.

Definition sample_events : OrderedEventCollection :=
  {| oc_anchor_global_layer_index := 3;
     oc_events := [sample_anchored 2 (Planar 2000) z_fifth; sample_anchored 1 (Planar 1000) z_fifth];
     oc_runtime_hooks := AnchoredEventRuntimeHooks_default |}.

Lemma committed_event_order_witness :
  exists events, commit_collection sample_events = Done (with_events sample_events events) /\
    ae_local_id <$> events = [2; 1].
Proof.
  destruct (committed_event_order sample_events ltac:(vm_compute; discriminate)) as (events & He & _).
  exists events. split; [exact He |]. vm_compute in He. injection He as <-. reflexivity.
Defined.

Definition sample_layer : GlobalLayer :=
  {| gl_index := 3; gl_z := z_fifth; gl_active_regions := []; gl_has_nonplanar := false;
     gl_is_sync_layer := false; gl_is_raft := false |}.

Definition sample_plan : ExecutionPlan := {|
  ep_prepass_stages := []; ep_per_layer_stages := []; ep_layer_finalization_stage := None;
  ep_postpass_stages := []; ep_global_layers := [sample_layer]; ep_region_plans := [];
  ep_module_region_index := ∅; ep_aggregated_region_split := ∅ |}.

Definition sample_row (index : Z) (z : f32) : LayerCollectionIR :=
  {| lc_schema_version := CURRENT_LAYER_COLLECTION_IR_SCHEMA_VERSION; lc_global_layer_index := index;
     lc_z := z; ordered_entities := []; support_entity_identities := []; lc_tool_changes := [];
     lc_z_hops := []; lc_annotations := []; lc_retracts := []; lc_travel_moves := [];
     lc_speed_profiles := [] |}.

Lemma same_z_entities_appended_witness :
  let '(layers', r) := append_same_z_entities no_text [sample_row 3 z_fifth] sample_plan
                         [sample_anchored 7 (Planar 2000) z_fifth] in
  r = Ok tt /\ (fun row => pe_entity_id <$> ordered_entities row) <$> layers' = [[7]].
Proof.
  pose proof (same_z_entities_appended no_text [sample_row 3 z_fifth] sample_plan
    [sample_anchored 7 (Planar 2000) z_fifth] ltac:(repeat constructor; set_solver)) as H.
  destruct (append_same_z_entities _ _ _ _) as [layers' r] eqn:He. destruct H as [_ H].
  assert (Hr : r = Ok tt) by (vm_compute in He; by injection He as _ <-).
  split; [exact Hr |]. rewrite (H Hr). vm_compute. reflexivity.
Defined.
