(* ===== verification/RegionPartition.v ===== *)
(** Fill areas and modifier volumes ([slicer-runtime/src/region_partition.rs], with the
    region identifiers of [slicer-ir/src/slice_ir.rs]).

    After the perimeters of a layer are known, the area inside the walls of each sliced
    region is divided between bridge, bottom, top and sparse fill; then the footprints of
    modifier volumes split regions into a remaining parent and a new child whose
    identifier encodes its parent.

    The boolean operations are those of [PolygonOps]; what the theorems need of Clipper2
    is the hypothesis [clip_laws]: the operations are the operations on sets of points. *)
From Stdlib Require Import Ascii.
From stdpp Require Import prelude gmap strings list.
From S2P Require Import Prelude Ir Float32 Blackboard LayerArena Planar PolygonOps LayerIr OrderLock.

#[local] Open Scope string_scope.
#[local] Open Scope list_scope.
#[local] Open Scope Z_scope.

(** ** Identifiers of modifier regions *)

Definition MODIFIER_FOOTPRINT_REGION_ID : Z := u64_max.
Definition MODIFIER_VARIANT_REGION_ID_STRIDE : Z := 1000003.
Definition MODIFIER_VARIANT_REGION_ID_FLAG : Z := Z.shiftl 1 63.

(** One step of FNV-1a. *)
Definition mix (h b : Z) : Z := (Z.lxor h b * 1099511628211) `mod` (u64_max + 1).

(** [(v as u64).to_le_bytes()]. *)
Definition to_le_bytes (v : Z) : list Z :=
  (fun k => ((v `mod` (u64_max + 1)) / 256 ^ (Z.of_nat k)) `mod` 256) <$> seq 0 8.

Definition point_hash (p : Point2) : list Z := to_le_bytes (px p) ++ to_le_bytes (py p).

(** The bytes that are mixed: the identifier, then the rings, a hole behind [0xff]. *)
Definition footprint_bytes (object_id : string) (footprint_geo : list ExPolygon) : list Z :=
  ((fun c => Z.of_nat (nat_of_ascii c)) <$> String.list_ascii_of_string object_id) ++
  flat_map (fun ep => flat_map point_hash (points (contour ep)) ++
                      flat_map (fun hole => 255 :: flat_map point_hash (points hole)) (holes ep))
    footprint_geo.

Definition modifier_sub_region_id_fits (parent_region_id : Z) : bool :=
  let payload := parent_region_id * MODIFIER_VARIANT_REGION_ID_STRIDE in
  if u64_max <? payload then false
  else
    let payload := payload + (MODIFIER_VARIANT_REGION_ID_STRIDE - 1) in
    if u64_max <? payload then false else payload <? MODIFIER_VARIANT_REGION_ID_FLAG - 1.

(** The [assert!] on the parent is [Panicked]. *)
Definition modifier_sub_region_id (parent_region_id : Z) (object_id : string)
    (footprint_geo : list ExPolygon) : exec Z :=
  let h := foldl mix 14695981039346656037 (footprint_bytes object_id footprint_geo) in
  let hash := h `mod` (MODIFIER_VARIANT_REGION_ID_STRIDE - 1) + 1 in
  if modifier_sub_region_id_fits parent_region_id then
    let payload := parent_region_id * MODIFIER_VARIANT_REGION_ID_STRIDE + hash in
    Done (Z.lor MODIFIER_VARIANT_REGION_ID_FLAG payload)
  else Panicked.

Definition is_modifier_namespace_id (id : Z) : bool :=
  negb (id =? MODIFIER_FOOTPRINT_REGION_ID) && negb (Z.land id MODIFIER_VARIANT_REGION_ID_FLAG =? 0).

Definition modifier_base_region_id (id : Z) : option Z :=
  if is_modifier_namespace_id id
  then Some (Z.land id (Z.lnot MODIFIER_VARIANT_REGION_ID_FLAG) / MODIFIER_VARIANT_REGION_ID_STRIDE)
  else None.

(** ** Assignments to the fields of a sliced region *)

Definition with_infill_areas (r : SlicedRegion) (v : list ExPolygon) : SlicedRegion :=
  {| sr_object_id := sr_object_id r; sr_region_id := sr_region_id r; sr_polygons := sr_polygons r;
     sr_infill_areas := v; sr_nonplanar_surface := sr_nonplanar_surface r;
     sr_effective_layer_height := sr_effective_layer_height r;
     sr_segment_annotations := sr_segment_annotations r; sr_variant_chain := sr_variant_chain r;
     sr_top_shell_index := sr_top_shell_index r; sr_bottom_shell_index := sr_bottom_shell_index r;
     sr_top_solid_fill := sr_top_solid_fill r; sr_bottom_solid_fill := sr_bottom_solid_fill r;
     sr_is_bridge := sr_is_bridge r; sr_bridge_areas := sr_bridge_areas r;
     sr_bridge_orientation_deg := sr_bridge_orientation_deg r;
     sr_sparse_infill_area := sr_sparse_infill_area r;
     sr_internal_solid_fill := sr_internal_solid_fill r;
     sr_internal_bridge_areas := sr_internal_bridge_areas r;
     sr_internal_bridge_angles_deg := sr_internal_bridge_angles_deg r; sr_raft_fill := sr_raft_fill r |}.

(** The four fill roles. *)
Definition with_fill_roles (r : SlicedRegion) (bridge bottom top sparse : list ExPolygon) : SlicedRegion :=
  {| sr_object_id := sr_object_id r; sr_region_id := sr_region_id r; sr_polygons := sr_polygons r;
     sr_infill_areas := sr_infill_areas r; sr_nonplanar_surface := sr_nonplanar_surface r;
     sr_effective_layer_height := sr_effective_layer_height r;
     sr_segment_annotations := sr_segment_annotations r; sr_variant_chain := sr_variant_chain r;
     sr_top_shell_index := sr_top_shell_index r; sr_bottom_shell_index := sr_bottom_shell_index r;
     sr_top_solid_fill := top; sr_bottom_solid_fill := bottom;
     sr_is_bridge := sr_is_bridge r; sr_bridge_areas := bridge;
     sr_bridge_orientation_deg := sr_bridge_orientation_deg r;
     sr_sparse_infill_area := sparse;
     sr_internal_solid_fill := sr_internal_solid_fill r;
     sr_internal_bridge_areas := sr_internal_bridge_areas r;
     sr_internal_bridge_angles_deg := sr_internal_bridge_angles_deg r; sr_raft_fill := sr_raft_fill r |}.

Section partition.
Context {P : PrepassTypes}.
#[local] Existing Instance layer_types.
Context (boolean_op_tree_64 : ClipOperation -> list (list Point2) -> list (list Point2) -> PolyPath).

Notation intersection := (PolygonOps.intersection boolean_op_tree_64).
Notation difference := (PolygonOps.difference boolean_op_tree_64).
Notation union := (PolygonOps.union boolean_op_tree_64).

(** ** Splitting a region by a footprint *)

Inductive SplitError :=
| ParentIdNotEncodable (object_id : string) (parent_region_id : Z) (chain : VariantChain)
| IdentityCollision (object_id : string) (region_id : Z) (chain : VariantChain).

(** The message of the error ([Debug] formatting of the chain). *)
Context (split_message : SplitError -> string).

(** The loop over the internal bridges: each piece keeps the angle of its polygon. *)
Definition split_bridges (op : list ExPolygon -> list ExPolygon -> list ExPolygon)
    (base : SlicedRegion) (footprint : list ExPolygon) : list (ExPolygon * f32) :=
  flat_map (fun e : nat * ExPolygon =>
      (fun piece => (piece, internal_bridge_angle_deg base e.1)) <$> op [e.2] footprint)
    (enumerate (sr_internal_bridge_areas base)).

Definition bridge_angles (base : SlicedRegion) (pieces : list (ExPolygon * f32)) : list f32 :=
  match sr_internal_bridge_angles_deg base with [] => [] | _ => pieces.*2 end.

(** What the footprint covers, under the new identifier, and what it leaves. *)
Definition split_child (base : SlicedRegion) (footprint sub_polygons : list ExPolygon) (id : Z)
    : SlicedRegion :=
  let pieces := split_bridges intersection base footprint in
  {| sr_object_id := sr_object_id base; sr_region_id := id; sr_polygons := sub_polygons;
     sr_infill_areas := intersection (sr_infill_areas base) footprint;
     sr_nonplanar_surface := sr_nonplanar_surface base;
     sr_effective_layer_height := sr_effective_layer_height base;
     sr_segment_annotations := []; sr_variant_chain := sr_variant_chain base;
     sr_top_shell_index := sr_top_shell_index base; sr_bottom_shell_index := sr_bottom_shell_index base;
     sr_top_solid_fill := intersection (sr_top_solid_fill base) footprint;
     sr_bottom_solid_fill := intersection (sr_bottom_solid_fill base) footprint;
     sr_is_bridge := sr_is_bridge base;
     sr_bridge_areas := intersection (sr_bridge_areas base) footprint;
     sr_bridge_orientation_deg := sr_bridge_orientation_deg base;
     sr_sparse_infill_area := intersection (sr_sparse_infill_area base) footprint;
     sr_internal_solid_fill := intersection (sr_internal_solid_fill base) footprint;
     sr_internal_bridge_areas := pieces.*1;
     sr_internal_bridge_angles_deg := bridge_angles base pieces;
     sr_raft_fill := intersection (sr_raft_fill base) footprint |}.

Definition split_parent (base : SlicedRegion) (footprint : list ExPolygon) : SlicedRegion :=
  let pieces := split_bridges difference base footprint in
  {| sr_object_id := sr_object_id base; sr_region_id := sr_region_id base;
     sr_polygons := difference (sr_polygons base) footprint;
     sr_infill_areas := difference (sr_infill_areas base) footprint;
     sr_nonplanar_surface := sr_nonplanar_surface base;
     sr_effective_layer_height := sr_effective_layer_height base;
     sr_segment_annotations := sr_segment_annotations base; sr_variant_chain := sr_variant_chain base;
     sr_top_shell_index := sr_top_shell_index base; sr_bottom_shell_index := sr_bottom_shell_index base;
     sr_top_solid_fill := difference (sr_top_solid_fill base) footprint;
     sr_bottom_solid_fill := difference (sr_bottom_solid_fill base) footprint;
     sr_is_bridge := sr_is_bridge base;
     sr_bridge_areas := difference (sr_bridge_areas base) footprint;
     sr_bridge_orientation_deg := sr_bridge_orientation_deg base;
     sr_sparse_infill_area := difference (sr_sparse_infill_area base) footprint;
     sr_internal_solid_fill := difference (sr_internal_solid_fill base) footprint;
     sr_internal_bridge_areas := pieces.*1;
     sr_internal_bridge_angles_deg := bridge_angles base pieces;
     sr_raft_fill := difference (sr_raft_fill base) footprint |}.

(** The working state of a split: the regions, the new ones and the identities in use. *)
Record split_state := {
  sp_regions : list SlicedRegion;
  sp_minted : list SlicedRegion;
  sp_identities : list source_key
}.

Definition split_one (object_id : string) (footprint : list ExPolygon) (st : split_state)
    (base_index : nat) : exec (result split_state SplitError) :=
  match sp_regions st !! base_index with
  | None => Panicked
  | Some base =>
      let sub_polygons := intersection (sr_polygons base) footprint in
      match sub_polygons with
      | [] => Done (Ok st)
      | _ =>
          let base_region_id := sr_region_id base in
          if negb (modifier_sub_region_id_fits base_region_id) then
            Done (Err (ParentIdNotEncodable object_id base_region_id (sr_variant_chain base)))
          else
            let base := match sr_infill_areas base with
                        | [] => with_infill_areas base (sr_polygons base)
                        | _ => base
                        end in
            let! id := modifier_sub_region_id base_region_id object_id footprint in
            let sub := split_child base footprint sub_polygons id in
            let parent := split_parent base footprint in
            let identity := (object_id, id, sr_variant_chain sub) in
            if bool_decide (identity ∈ sp_identities st) then
              Done (Err (IdentityCollision object_id id (sr_variant_chain sub)))
            else
              Done (Ok {| sp_regions := <[base_index := parent]> (sp_regions st);
                          sp_minted := sp_minted st ++ [sub];
                          sp_identities := sp_identities st ++ [identity] |})
      end
  end.

Definition is_parent (object_id : string) (r : SlicedRegion) : bool :=
  String.eqb (sr_object_id r) object_id && negb (sr_region_id r =? MODIFIER_FOOTPRINT_REGION_ID)
  && negb (is_modifier_namespace_id (sr_region_id r)).

Definition split_footprint (st : split_state) (fp : string * list ExPolygon)
    : exec (result split_state SplitError) :=
  let '(object_id, footprint) := fp in
  match footprint with
  | [] => Done (Ok st)
  | _ =>
      let parent_indices := omap (fun e : nat * SlicedRegion =>
          if is_parent object_id e.2 then Some e.1 else None) (enumerate (sp_regions st)) in
      fold_exec (split_one object_id footprint) st parent_indices
  end.

(** The slice is replaced at the end only: an error leaves it as it was. *)
Definition split_regions_by_modifier_footprints (slice : SliceIR)
    (footprints : list (string * list ExPolygon)) : exec (SliceIR * result unit SplitError) :=
  let st := {| sp_regions := sl_regions slice; sp_minted := [];
               sp_identities := slice_key <$> sl_regions slice |} in
  let! r := fold_exec split_footprint st footprints in
  match r with
  | Ok st => Done (with_slice_regions slice (sp_regions st ++ sp_minted st), Ok tt)
  | Err e => Done (slice, Err e)
  end.

Definition is_footprint (r : SlicedRegion) : bool := sr_region_id r =? MODIFIER_FOOTPRINT_REGION_ID.

Definition split_modifier_footprints (slice : SliceIR) : exec (SliceIR * result unit SplitError) :=
  let footprints := (fun r => (sr_object_id r, sr_polygons r)) <$>
                    filter (fun r => is_footprint r = true) (sl_regions slice) in
  match footprints with
  | [] => Done (slice, Ok tt)
  | _ =>
      let working := with_slice_regions slice
                       (filter (fun r => is_footprint r = false) (sl_regions slice)) in
      let! out := split_regions_by_modifier_footprints working footprints in
      match out with
      | (working, Ok _) => Done (working, Ok tt)
      | (_, Err e) => Done (slice, Err e)
      end
  end.

(** *** The prepass: footprints from the modifier volumes of the model *)

Inductive ModifierKind := ParameterModifier | NegativePart | SupportEnforcerKind | SupportBlockerKind.

(** [mesh_empty] and [slice_at] stand for the mesh of the volume: whether it has no vertices
    or no indices, and its first layer under [slice_mesh_ex]. *)
Record ModifierVolume := {
  mv_priority : Z;
  mv_kind : ModifierKind;
  mv_mesh_empty : bool;
  mv_slice_at : f32 -> list ExPolygon
}.

Record ModifierObject := { mo_id : ObjectId; mo_modifier_volumes : list ModifierVolume }.

Definition is_support_modifier (k : ModifierKind) : bool :=
  match k with
  | ParameterModifier | NegativePart => false
  | SupportEnforcerKind | SupportBlockerKind => true
  end.

(** By descending priority, then by position. *)
Definition modifier_order (vs : list ModifierVolume) : list (nat * ModifierVolume) :=
  sort_by (fun a b => rust_leb (- mv_priority a.2, a.1) (- mv_priority b.2, b.1)) (enumerate vs).

Definition object_footprints (z : f32) (o : ModifierObject) : list (string * list ExPolygon) :=
  omap (fun e : nat * ModifierVolume =>
      if is_support_modifier (mv_kind e.2) || mv_mesh_empty e.2 then None
      else match mv_slice_at e.2 z with
           | [] => None
           | footprint => Some (mo_id o, footprint)
           end)
    (modifier_order (mo_modifier_volumes o)).

Definition split_modifier_sub_regions_for_prepass (slice : SliceIR) (objects : list ModifierObject)
    : exec (SliceIR * result unit SplitError) :=
  let working := with_slice_regions slice
                   (filter (fun r => is_footprint r = false) (sl_regions slice)) in
  let footprints := flat_map (object_footprints (sl_z working)) objects in
  let! out := split_regions_by_modifier_footprints working footprints in
  match out with
  | (working, Ok _) => Done (working, Ok tt)
  | (_, Err e) => Done (slice, Err e)
  end.

(** ** The four fill roles *)

Definition partition_fill (perim : PerimeterRegion) (slice_region : SlicedRegion)
    (is_modifier_region : bool) : SlicedRegion :=
  let wall_inset := intersection (pr_infill_areas perim) (sr_polygons slice_region) in
  let inset_empty := match wall_inset with [] => true | _ => false end in
  let walls_consumed_region :=
    inset_empty && negb (match pr_walls perim with [] => true | _ => false end) in
  let bridge :=
    if walls_consumed_region then []
    else if inset_empty then sr_bridge_areas slice_region
    else if is_modifier_region
            && match difference (sr_bridge_areas slice_region) wall_inset with [] => true | _ => false end
    then sr_bridge_areas slice_region
    else intersection (sr_bridge_areas slice_region) wall_inset in
  let bottom :=
    if inset_empty then []
    else difference (intersection (sr_bottom_solid_fill slice_region) wall_inset) bridge in
  let bridge_or_bottom := union bridge bottom in
  let top :=
    if walls_consumed_region then []
    else if inset_empty then difference (sr_top_solid_fill slice_region) bridge_or_bottom
    else difference (intersection (sr_top_solid_fill slice_region) wall_inset) bridge_or_bottom in
  let bridge_or_bottom_or_top := union bridge_or_bottom top in
  let sparse := difference wall_inset bridge_or_bottom_or_top in
  with_fill_roles slice_region bridge bottom top sparse.

(** [collect] into a [HashMap]: of two perimeter regions with one key the last stays. *)
Definition perimeter_lookup (perimeter : PerimeterIR) (key : source_key) : option PerimeterRegion :=
  foldl (fun found r => if decide (perimeter_key r = key) then Some r else found)
    None (per_regions perimeter).

(** [modifier_base_region_id(..).expect(..)] is [Panicked] on [None]. *)
Definition partition_region (perimeter : PerimeterIR) (slice_region : SlicedRegion)
    : exec SlicedRegion :=
  if is_footprint slice_region then Done slice_region
  else
    let is_modifier_region := is_modifier_namespace_id (sr_region_id slice_region) in
    let! perimeter_region_id :=
      if is_modifier_region then
        match modifier_base_region_id (sr_region_id slice_region) with
        | Some id => Done id
        | None => Panicked
        end
      else Done (sr_region_id slice_region) in
    match perimeter_lookup perimeter
            (sr_object_id slice_region, perimeter_region_id, sr_variant_chain slice_region) with
    | None => Done slice_region
    | Some perim => Done (partition_fill perim slice_region is_modifier_region)
    end.

Definition partition_error (message : string) : LayerStageError :=
  FatalModule "Layer::Perimeters" "host:region_partition" message.

Definition sync_perimeter_infill_areas_into_slice (arena : LayerArena) (layer_index : Z)
    : exec (LayerArena * result unit LayerStageError) :=
  let prefix := "region_partition at layer " +:+ show_uint layer_index in
  match take_slice arena with
  | (arena, None) =>
      Done (arena, Err (partition_error (prefix +:+
        ": no staged SliceIR (host built-in PrePass::Slice must commit before Layer::Perimeters runs)")))
  | (arena, Some slice) =>
      match arena_perimeter arena with
      | None =>
          let '(arena, _) := set_slice arena slice in
          Done (arena, Err (partition_error (prefix +:+
            ": no staged PerimeterIR (Layer::Perimeters must commit before this hook fires)")))
      | Some perimeter =>
          let! regions := map_exec (partition_region perimeter) (sl_regions slice) in
          let! out := split_modifier_footprints (with_slice_regions slice regions) in
          match out with
          | (_, Err e) => Done (arena, Err (partition_error (split_message e)))
          | (slice, Ok _) =>
              match set_slice arena slice with
              | (arena, Err source) => Done (arena, Err (ArenaCommit source))
              | (arena, Ok _) => Done (arena, Ok tt)
              end
          end
      end
  end.
End partition.

(** ** Identifiers *)

Lemma fits_bound parent :
  0 <= parent ->
  modifier_sub_region_id_fits parent = true <->
  parent * 1000003 + 1000002 < 9223372036854775807.
Proof.
  unfold modifier_sub_region_id_fits, MODIFIER_VARIANT_REGION_ID_STRIDE, u64_max.
  change (MODIFIER_VARIANT_REGION_ID_FLAG - 1) with 9223372036854775807.
  change (1000003 - 1) with 1000002. intros Hp.
  destruct (Z.ltb_spec 18446744073709551615 (parent * 1000003)); [split; [done | lia] |].
  destruct (Z.ltb_spec 18446744073709551615 (parent * 1000003 + 1000002)); [split; [done | lia] |].
  apply Z.ltb_lt.
Qed.

Lemma modifier_id_spec (parent : Z) (object_id : string) (footprint : list ExPolygon)
    (Hp : is_u64 parent) :
  if modifier_sub_region_id_fits parent then
    exists id, modifier_sub_region_id parent object_id footprint = Done id /\ is_u64 id /\
      is_modifier_namespace_id id = true /\ id <> MODIFIER_FOOTPRINT_REGION_ID /\
      is_modifier_namespace_id parent = false /\ modifier_base_region_id id = Some parent
  else modifier_sub_region_id parent object_id footprint = Panicked.
Proof.
  unfold modifier_sub_region_id. destruct Hp as [Hp0 Hp1].
  destruct (modifier_sub_region_id_fits parent) eqn:Hf; [|done].
  apply fits_bound in Hf; [|done]. unfold MODIFIER_VARIANT_REGION_ID_STRIDE.
  change (1000003 - 1) with 1000002. set (hash := _ `mod` 1000002 + 1).
  assert (Hh : 1 <= hash <= 1000002) by (unfold hash; pose proof (Z.mod_pos_bound
    (foldl mix 14695981039346656037 (footprint_bytes object_id footprint)) 1000002); lia).
  clearbody hash. set (payload := parent * 1000003 + hash).
  assert (Hpl : 0 <= payload < 9223372036854775807) by lia.
  change MODIFIER_VARIANT_REGION_ID_FLAG with GLOBAL_BIT.
  rewrite lor_global by lia. set (id := 9223372036854775808 + payload).
  assert (Hid : is_u64 id) by (unfold is_u64, u64_max, id; lia).
  assert (Hns : is_modifier_namespace_id id = true).
  { unfold is_modifier_namespace_id, MODIFIER_FOOTPRINT_REGION_ID.
    change MODIFIER_VARIANT_REGION_ID_FLAG with GLOBAL_BIT. rewrite land_global by done.
    destruct (Z.ltb_spec id (2 ^ 63)); [unfold id in *; lia |].
    rewrite (proj2 (Z.eqb_neq id u64_max)); [done |]. unfold id, u64_max. lia. }
  exists id. split; [done |]. split; [done |]. split; [done |]. split; [|split].
  - unfold MODIFIER_FOOTPRINT_REGION_ID, id, u64_max. lia.
  - unfold is_modifier_namespace_id. change MODIFIER_VARIANT_REGION_ID_FLAG with GLOBAL_BIT.
    rewrite land_global by done. destruct (Z.ltb_spec parent (2 ^ 63)); [by rewrite andb_false_r | lia].
  - unfold modifier_base_region_id. rewrite Hns.
    change MODIFIER_VARIANT_REGION_ID_FLAG with GLOBAL_BIT. unfold MODIFIER_VARIANT_REGION_ID_STRIDE.
    rewrite clear_global by (done || (unfold id; lia)). f_equal. unfold id, payload.
    symmetry. apply (Z.div_unique _ _ _ hash); lia.
Qed.

Lemma modifier_id_base parent object_id footprint :
  is_u64 parent ->
  if modifier_sub_region_id_fits parent then
    exists id, modifier_sub_region_id parent object_id footprint = Done id /\
      modifier_base_region_id id = Some parent
  else True.
Proof.
  intros Hp. pose proof (modifier_id_spec parent object_id footprint Hp) as H.
  destruct (modifier_sub_region_id_fits parent); [|done]. destruct H as (id & Hd & _ & _ & _ & _ & Hb).
  eauto.
Qed.

(** The identifier of a modifier region is issued exactly when the parent fits; it lies
    in the modifier namespace, is not the marker of a raw footprint, and gives the parent
    back, whatever the footprint hashes to. *)
Theorem modifier_id_roundtrip (parent : Z) (object_id : string) (footprint : list ExPolygon)
    (Hp : is_u64 parent) :
  if modifier_sub_region_id_fits parent then
    exists id, modifier_sub_region_id parent object_id footprint = Done id /\ is_u64 id /\
      is_modifier_namespace_id id = true /\ id <> MODIFIER_FOOTPRINT_REGION_ID /\
      is_modifier_namespace_id parent = false /\ modifier_base_region_id id = Some parent
  else modifier_sub_region_id parent object_id footprint = Panicked.
Proof. by apply modifier_id_spec. Qed.

(** ** The laws of the boolean operations *)

Section laws.
Context {P : PrepassTypes}.
#[local] Existing Instance layer_types.
Context (boolean_op_tree_64 : ClipOperation -> list (list Point2) -> list (list Point2) -> PolyPath).
Context (split_message : SplitError -> string).

Notation intersection := (PolygonOps.intersection boolean_op_tree_64).
Notation difference := (PolygonOps.difference boolean_op_tree_64).
Notation union := (PolygonOps.union boolean_op_tree_64).

(** The points that a list of polygons covers; the operations of Clipper2 are those on sets. *)
Context {Point : Type} (covers : list ExPolygon -> Point -> Prop).

Record clip_laws : Prop := {
  covers_nil : forall p, ~ covers [] p;
  covers_intersection : forall a b p, covers (intersection a b) p <-> covers a p /\ covers b p;
  covers_difference : forall a b p, covers (difference a b) p <-> covers a p /\ ~ covers b p;
  covers_union : forall a b p, covers (union a b) p <-> covers a p \/ covers b p;
  covers_decided : forall a p, covers a p \/ ~ covers a p
}.

Context (laws : clip_laws).

(** Regions without common points. *)
Definition disjoint_areas (a b : list ExPolygon) : Prop := forall p, covers a p -> ~ covers b p.

(** The roles at one point, in the two cases. *)
Lemma partition_fill_nonempty perim region is_modifier p :
  let inset := intersection (pr_infill_areas perim) (sr_polygons region) in
  let out := partition_fill boolean_op_tree_64 perim region is_modifier in
  let bridge := covers (sr_bridge_areas out) p in
  let bottom := covers (sr_bottom_solid_fill out) p in
  let top := covers (sr_top_solid_fill out) p in
  inset <> [] ->
  (bridge <-> covers (sr_bridge_areas region) p /\ covers inset p) /\
  (bottom <-> (covers (sr_bottom_solid_fill region) p /\ covers inset p) /\ ~ bridge) /\
  (top <-> (covers (sr_top_solid_fill region) p /\ covers inset p) /\ ~ (bridge \/ bottom)) /\
  (covers (sr_sparse_infill_area out) p <-> covers inset p /\ ~ ((bridge \/ bottom) \/ top)).
Proof using laws.
  intros inset out bridge bottom top Hne. unfold bridge, bottom, top, out, partition_fill. cbv zeta.
  fold inset. cbn [sr_bridge_areas sr_bottom_solid_fill sr_top_solid_fill sr_sparse_infill_area with_fill_roles].
  assert (He : (match inset with [] => true | _ => false end) = false) by (by destruct inset).
  rewrite He. cbn [andb].
  set (b := if is_modifier && _ then _ else _).
  rewrite !(covers_difference laws), !(covers_union laws), !(covers_intersection laws),
    !(covers_difference laws), !(covers_union laws), !(covers_intersection laws),
    ?(covers_difference laws), ?(covers_intersection laws).
  split; [|done]. unfold b. destruct is_modifier; cbn [andb]; [|apply (covers_intersection laws)].
  destruct (difference (sr_bridge_areas region) inset) as [|d ds] eqn:Hd;
    [|apply (covers_intersection laws)].
  split; [|by intros [? _]]. intros Hc. split; [done |].
  destruct (covers_decided laws inset p) as [? | Hn]; [done |].
  exfalso. apply (covers_nil laws p). rewrite <- Hd. by apply (covers_difference laws).
Qed.

Lemma partition_fill_empty perim region is_modifier p :
  let inset := intersection (pr_infill_areas perim) (sr_polygons region) in
  let out := partition_fill boolean_op_tree_64 perim region is_modifier in
  let bridge := covers (sr_bridge_areas out) p in
  inset = [] ->
  (bridge <-> pr_walls perim = [] /\ covers (sr_bridge_areas region) p) /\
  ~ covers (sr_bottom_solid_fill out) p /\
  (covers (sr_top_solid_fill out) p <->
     pr_walls perim = [] /\ covers (sr_top_solid_fill region) p /\ ~ bridge) /\
  ~ covers (sr_sparse_infill_area out) p.
Proof using laws.
  intros inset out bridge He. unfold bridge, out, partition_fill. cbv zeta. fold inset. rewrite He.
  cbn [sr_bridge_areas sr_bottom_solid_fill sr_top_solid_fill sr_sparse_infill_area with_fill_roles].
  pose proof (covers_nil laws p) as Hnil.
  destruct (pr_walls perim) as [|w ws]; cbn [andb negb];
    rewrite ?(covers_difference laws), ?(covers_union laws), ?(covers_difference laws),
      ?(covers_union laws); intuition discriminate.
Qed.

(** What [partition_fill] makes of a region, [inset] being the perimeter's inner area
    inside the region.  With a non-empty inset the four roles are pairwise disjoint and
    together cover exactly the inset, by the precedence bridge, bottom, top, sparse.  When
    walls took the whole area nothing is filled.  When there are no walls and no inset the
    bridge stays, the top loses the bridge and nothing else is filled. *)
Theorem fill_roles_partition (perim : PerimeterRegion) (region : SlicedRegion) (is_modifier : bool) :
  let inset := intersection (pr_infill_areas perim) (sr_polygons region) in
  let out := partition_fill boolean_op_tree_64 perim region is_modifier in
  let bridge := sr_bridge_areas out in
  let bottom := sr_bottom_solid_fill out in
  let top := sr_top_solid_fill out in
  let sparse := sr_sparse_infill_area out in
  disjoint_areas bridge bottom /\ disjoint_areas bridge top /\ disjoint_areas bridge sparse /\
  disjoint_areas bottom top /\ disjoint_areas bottom sparse /\ disjoint_areas top sparse /\
  (inset <> [] -> forall p,
     (covers bridge p <-> covers (sr_bridge_areas region) p /\ covers inset p) /\
     (covers bottom p <-> covers (sr_bottom_solid_fill region) p /\ covers inset p /\ ~ covers bridge p) /\
     (covers top p <-> covers (sr_top_solid_fill region) p /\ covers inset p /\
                       ~ covers bridge p /\ ~ covers bottom p) /\
     (covers inset p <-> covers bridge p \/ covers bottom p \/ covers top p \/ covers sparse p)) /\
  (inset = [] -> forall p, ~ covers bottom p /\ ~ covers sparse p /\
     (covers bridge p <-> pr_walls perim = [] /\ covers (sr_bridge_areas region) p) /\
     (covers top p <-> pr_walls perim = [] /\ covers (sr_top_solid_fill region) p /\ ~ covers bridge p)).
Proof using laws.
  intros inset out bridge bottom top sparse.
  assert (Hdisj : forall a b, (forall p, covers a p -> ~ covers b p) -> disjoint_areas a b) by done.
  destruct inset as [|x xs] eqn:Hi.
  - pose proof (fun p => partition_fill_empty perim region is_modifier p Hi) as H. cbv zeta in H.
    fold out bridge bottom top sparse in H.
    repeat split; try (apply Hdisj); try (intros p; specialize (H p); tauto); try done;
      destruct (H p); tauto.
  - assert (Hne : intersection (pr_infill_areas perim) (sr_polygons region) <> [])
      by (fold inset; rewrite Hi; done).
    pose proof (fun p => partition_fill_nonempty perim region is_modifier p Hne) as H. cbv zeta in H.
    fold inset out bridge bottom top sparse in H. rewrite Hi in H.
    do 6 (split; [intros p; specialize (H p); tauto |]). split; [|done]. intros _ p. specialize (H p).
    destruct (covers_decided laws bridge p), (covers_decided laws bottom p),
      (covers_decided laws top p); tauto.
Qed.

(** ** Splitting *)

(** A new region and the region it was cut from. *)
Definition child_of (m r : SlicedRegion) : Prop :=
  sr_object_id m = sr_object_id r /\ sr_variant_chain m = sr_variant_chain r /\
  modifier_base_region_id (sr_region_id m) = Some (sr_region_id r).

Record split_inv (rs : list SlicedRegion) (st : split_state) : Prop := {
  si_keys : sp_identities st = slice_key <$> (rs ++ sp_minted st);
  si_nodup : NoDup (sp_identities st);
  si_length : length (sp_regions st) = length rs;
  si_region : forall i r0 r, rs !! i = Some r0 -> sp_regions st !! i = Some r -> slice_key r = slice_key r0;
  si_child : forall m, m ∈ sp_minted st -> exists r0, r0 ∈ rs /\ child_of m r0;
  si_cover : forall i r0 r p, rs !! i = Some r0 -> sp_regions st !! i = Some r ->
    covers (sr_polygons r0) p <->
    covers (sr_polygons r) p \/ exists m, m ∈ sp_minted st /\ child_of m r0 /\ covers (sr_polygons m) p;
  si_parent_apart : forall i r0 r m, rs !! i = Some r0 -> sp_regions st !! i = Some r ->
    m ∈ sp_minted st -> child_of m r0 -> disjoint_areas (sr_polygons r) (sr_polygons m);
  si_children_apart : forall i j k r0 m n, rs !! i = Some r0 -> j <> k ->
    sp_minted st !! j = Some m -> sp_minted st !! k = Some n -> child_of m r0 -> child_of n r0 ->
    disjoint_areas (sr_polygons m) (sr_polygons n)
}.

Lemma child_of_key m r r' : child_of m r -> child_of m r' -> slice_key r = slice_key r'.
Proof. intros (H1 & H2 & H3) (H1' & H2' & H3'). unfold slice_key. congruence. Qed.

Lemma split_parent_key base footprint :
  slice_key (split_parent boolean_op_tree_64 base footprint) = slice_key base.
Proof. done. Qed.

Context (rs : list SlicedRegion) (Hnd : NoDup (slice_key <$> rs))
        (Hids : Forall (fun r => is_u64 (sr_region_id r)) rs).

Lemma rs_key_unique i j r r' :
  rs !! i = Some r -> rs !! j = Some r' -> slice_key r = slice_key r' -> i = j.
Proof using Hnd.
  intros Hi Hj He. eapply NoDup_lookup; [exact Hnd | |]; rewrite list_lookup_fmap.
  - by rewrite Hi.
  - rewrite Hj. simpl. by rewrite He.
Qed.

(** One parent is split: the step of the invariant. *)
Lemma split_inv_step st i base r0 object_id footprint id :
  split_inv rs st -> rs !! i = Some r0 -> sp_regions st !! i = Some base ->
  sr_object_id base = object_id ->
  modifier_base_region_id id = Some (sr_region_id base) ->
  (object_id, id, sr_variant_chain base) ∉ sp_identities st ->
  let base' := match sr_infill_areas base with
               | [] => with_infill_areas base (sr_polygons base) | _ => base end in
  let sub := split_child boolean_op_tree_64 base' footprint (intersection (sr_polygons base) footprint) id in
  split_inv rs {| sp_regions := <[i := split_parent boolean_op_tree_64 base' footprint]> (sp_regions st);
                  sp_minted := sp_minted st ++ [sub];
                  sp_identities := sp_identities st ++ [(object_id, id, sr_variant_chain sub)] |}.
Proof using laws Hnd Hids.
  intros [Hk Hn Hl Hr Hc Hcov Hpa Hca] Hr0 Hbase Hobj Hid Hnot base' sub.
  assert (Hsame : sr_object_id base' = sr_object_id base /\ sr_region_id base' = sr_region_id base /\
                  sr_variant_chain base' = sr_variant_chain base /\ sr_polygons base' = sr_polygons base)
    by (unfold base'; by destruct (sr_infill_areas base)).
  destruct Hsame as (Ho & Hri & Hvc & Hpo). clearbody base'.
  set (parent := split_parent boolean_op_tree_64 base' footprint).
  assert (Hpk : slice_key parent = slice_key base) by (unfold parent, slice_key; simpl; congruence).
  assert (Hbk : slice_key base = slice_key r0) by (by eapply Hr).
  assert (Hsub : child_of sub r0).
  { unfold child_of, sub. simpl. injection Hbk as H1 H2 H3. rewrite Ho, Hvc, Hid. auto with congruence. }
  assert (Hil : (i < length (sp_regions st))%nat) by (by eapply lookup_lt_Some).
  assert (Hother : forall j r' , rs !! j = Some r' -> child_of sub r' -> j = i /\ r' = r0).
  { intros j r' Hj Hch. assert (j = i) as -> by (eapply rs_key_unique; [done | done | by eapply child_of_key]).
    split; [done | congruence]. }
  assert (Hpp : forall p, covers (sr_polygons parent) p <->
            covers (sr_polygons base) p /\ ~ covers footprint p).
  { intros p. unfold parent. simpl. rewrite Hpo. apply (covers_difference laws). }
  assert (Hsp : forall p, covers (sr_polygons sub) p <->
            covers (sr_polygons base) p /\ covers footprint p) by (intros p; apply (covers_intersection laws)).
  split; cbn [sp_identities sp_minted sp_regions].
  - rewrite Hk, !fmap_app, <- (assoc_L (++)). simpl. do 3 f_equal. unfold slice_key, sub. simpl.
    by rewrite Ho, Hobj.
  - apply NoDup_app. split; [done |]. split; [|repeat constructor; set_solver].
    intros x Hx ->%list_elem_of_singleton. apply Hnot. revert Hx. unfold sub. simpl. by rewrite Hvc.
  - by rewrite length_insert.
  - intros j r1 r Hj Hjr. destruct (decide (i = j)) as [<- | Hne].
    + rewrite list_lookup_insert_eq in Hjr by done. injection Hjr as <-. congruence.
    + rewrite list_lookup_insert_ne in Hjr by done. by eapply Hr.
  - intros m [Hm | ->%list_elem_of_singleton]%elem_of_app; [by apply Hc |].
    exists r0. split; [by eapply list_elem_of_lookup_2 | done].
  - intros j r1 r p Hj Hjr. destruct (decide (i = j)) as [<- | Hne].
    + rewrite list_lookup_insert_eq in Hjr by done. injection Hjr as <-.
      assert (r1 = r0) as -> by congruence. rewrite (Hcov i r0 base p Hr0 Hbase), Hpp.
      setoid_rewrite elem_of_app. setoid_rewrite list_elem_of_singleton. split.
      * intros [Hb | (m & Hm & Hch & Hmp)]; [|right; exists m; auto].
        destruct (covers_decided laws footprint p); [right; exists sub; rewrite Hsp; auto | auto].
      * intros [[Hb _] | (m & [Hm | ->] & Hch & Hmp)]; [auto | right; eauto | left].
        apply Hsp in Hmp. tauto.
    + rewrite list_lookup_insert_ne in Hjr by done. rewrite (Hcov j r1 r p Hj Hjr).
      setoid_rewrite elem_of_app. setoid_rewrite list_elem_of_singleton.
      split; (intros [Hb | (m & Hm & Hch & Hmp)]; [by left | right]).
      * exists m. auto.
      * destruct Hm as [Hm | ->]; [eauto |]. destruct (Hother j r1 Hj Hch) as [-> _]. done.
  - intros j r1 r m Hj Hjr Hm Hch p Hp. destruct (decide (i = j)) as [<- | Hne].
    + rewrite list_lookup_insert_eq in Hjr by done. injection Hjr as <-.
      apply Hpp in Hp as [Hb Hf]. apply elem_of_app in Hm as [Hm | ->%list_elem_of_singleton].
      * by apply (Hpa i r1 base m Hj Hbase Hm Hch).
      * rewrite Hsp. tauto.
    + rewrite list_lookup_insert_ne in Hjr by done.
      apply elem_of_app in Hm as [Hm | ->%list_elem_of_singleton].
      * by apply (Hpa j r1 r m Hj Hjr Hm Hch).
      * destruct (Hother j r1 Hj Hch) as [-> _]. done.
  - assert (Hnew : forall j m, sp_minted st !! j = Some m -> child_of m r0 ->
              disjoint_areas (sr_polygons sub) (sr_polygons m)).
    { intros j m Hj Hm p Hp%Hsp. apply (Hpa i r0 base m Hr0 Hbase); [|done | tauto].
      by eapply list_elem_of_lookup_2. }
    intros a j k r1 m n Ha Hjk Hj Hk' Hm Hn'.
    apply lookup_app_Some in Hj as [Hj | [Hjl Hj]]; apply lookup_app_Some in Hk' as [Hk' | [Hkl Hk']].
    + by apply (Hca a j k r1).
    + apply list_lookup_singleton_Some in Hk' as [Hk0 <-]. destruct (Hother a r1 Ha Hn') as [-> ->].
      intros p Hp Hs. by apply (Hnew j m Hj Hm p Hs).
    + apply list_lookup_singleton_Some in Hj as [Hj0 <-]. destruct (Hother a r1 Ha Hm) as [-> ->].
      by apply (Hnew k n).
    + apply list_lookup_singleton_Some in Hj as [Hj0 _]. apply list_lookup_singleton_Some in Hk' as [Hk0 _].
      lia.
Qed.

(** A parent of the object is at this position of the original list. *)
Definition parent_at (object_id : string) (i : nat) : Prop :=
  exists r0, rs !! i = Some r0 /\ sr_object_id r0 = object_id.

Lemma split_one_inv object_id footprint st i :
  split_inv rs st -> parent_at object_id i ->
  exists r, split_one boolean_op_tree_64 object_id footprint st i = Done r /\
    forall st', r = Ok st' -> split_inv rs st'.
Proof using laws Hnd Hids.
  intros Hst (r0 & Hr0 & Hobj). unfold split_one.
  destruct (lookup_lt_is_Some_2 (sp_regions st) i) as [base Hbase].
  { rewrite (si_length rs st Hst). by eapply lookup_lt_Some. }
  rewrite Hbase. pose proof (si_region rs st Hst i r0 base Hr0 Hbase) as Hkey.
  injection Hkey as Ho Hri Hvc.
  destruct (intersection (sr_polygons base) footprint) as [|x xs] eqn:Hsub.
  { eexists. split; [done |]. by intros ? [= <-]. }
  assert (Hu : is_u64 (sr_region_id base)).
  { rewrite Hri. rewrite Forall_forall in Hids. apply Hids. by eapply list_elem_of_lookup_2. }
  pose proof (modifier_id_base (sr_region_id base) object_id footprint Hu) as Hid.
  destruct (modifier_sub_region_id_fits (sr_region_id base)); cbn [negb].
  2: { eexists. split; done. }
  destruct Hid as (id & -> & Hid). cbn [exec_bind].
  rewrite <- Hsub.
  pose proof (split_inv_step st i base r0 object_id footprint id Hst Hr0 Hbase ltac:(congruence) Hid) as Hstep.
  cbv zeta in Hstep.
  set (base' := match sr_infill_areas base with [] => _ | _ => base end) in *.
  case_bool_decide as Hin; eexists; (split; [done |]); [done |].
  intros ? [= <-]. apply Hstep.
  assert (Hv : sr_variant_chain base' = sr_variant_chain base)
    by (unfold base'; by destruct (sr_infill_areas base)).
  cbn [split_child sr_variant_chain] in Hin. by rewrite <- Hv.
Qed.

Lemma split_footprint_inv fp st :
  split_inv rs st ->
  exists r, split_footprint boolean_op_tree_64 st fp = Done r /\ forall st', r = Ok st' -> split_inv rs st'.
Proof using laws Hnd Hids.
  destruct fp as [object_id footprint]. intros Hst. unfold split_footprint.
  destruct footprint as [|x xs].
  { eexists. split; [done |]. by intros ? [= <-]. }
  apply fold_exec_inv; [done |]. intros st1 i H1 Hi. apply split_one_inv; [done |].
  apply list_elem_of_omap in Hi as ([k r] & Hin & Hk). simpl in Hk.
  destruct (is_parent object_id r) eqn:Hp; [|done]. injection Hk as ->.
  apply elem_of_enumerate in Hin. destruct (lookup_lt_is_Some_2 rs i) as [r0 Hr0].
  { rewrite <- (si_length rs st Hst). by eapply lookup_lt_Some. }
  exists r0. split; [done |]. pose proof (si_region rs st Hst i r0 r Hr0 Hin) as Hkey.
  injection Hkey as Ho _ _. unfold is_parent in Hp. rewrite !andb_true_iff in Hp.
  destruct Hp as [[Hp _] _]. apply String.eqb_eq in Hp. congruence.
Qed.

Lemma split_inv_start :
  split_inv rs {| sp_regions := rs; sp_minted := []; sp_identities := slice_key <$> rs |}.
Proof using laws Hnd Hids.
  split; cbn [sp_regions sp_minted sp_identities].
  - by rewrite app_nil_r.
  - done.
  - done.
  - intros i r0 r H1 H2. congruence.
  - set_solver.
  - intros i r0 r p H1 H2. assert (r = r0) as -> by congruence. split; [by left |].
    intros [? | (m & Hm & _)]; [done | set_solver].
  - set_solver.
  - done.
Qed.

Lemma split_regions_inv slice footprints :
  sl_regions slice = rs ->
  exists slice' r, split_regions_by_modifier_footprints boolean_op_tree_64 slice footprints = Done (slice', r) /\
    (r <> Ok tt -> slice' = slice) /\
    (r = Ok tt -> exists st, split_inv rs st /\
       slice' = with_slice_regions slice (sp_regions st ++ sp_minted st)).
Proof using laws Hnd Hids.
  intros Hrs. unfold split_regions_by_modifier_footprints. rewrite Hrs.
  destruct (fold_exec_inv (split_footprint boolean_op_tree_64) (split_inv rs) footprints _ split_inv_start)
    as (r & -> & Hr).
  { intros st fp Hst _. by apply split_footprint_inv. }
  cbn [exec_bind]. destruct r as [st|e]; eexists _, _; (split; [done |]); (split; [done |]); [|done].
  intros _. exists st. split; [by apply Hr | done].
Qed.

Lemma split_inv_all_keys st :
  split_inv rs st -> slice_key <$> (sp_regions st ++ sp_minted st) = sp_identities st.
Proof using laws Hnd Hids.
  intros Hst. rewrite (si_keys rs st Hst), !fmap_app. f_equal.
  apply list_eq_same_length with (length rs); rewrite ?length_fmap; [done | by apply si_length |].
  intros i x y Hi Hx Hy. rewrite list_lookup_fmap in Hx, Hy.
  destruct (sp_regions st !! i) as [r|] eqn:Hr; [|done]. destruct (rs !! i) as [r0|] eqn:Hr0; [|done].
  injection Hx as <-. injection Hy as <-. by eapply si_region.
Qed.

(** [C34].  Splitting by footprints never panics.  On an error the slice is unchanged.  On success
    the regions are the old ones in place followed by new ones; the identities of all of
    them are different; every new region names its parent in its identifier; and each old
    area is divided, without overlap, between the remaining parent and its new regions. *)
Theorem modifier_split_conserves (slice : SliceIR) (footprints : list (string * list ExPolygon))
    (Hrs : sl_regions slice = rs) :
  exists slice' r, split_regions_by_modifier_footprints boolean_op_tree_64 slice footprints = Done (slice', r) /\
    (r <> Ok tt -> slice' = slice) /\
    (r = Ok tt -> exists parents children,
       sl_regions slice' = parents ++ children /\ length parents = length rs /\
       NoDup (slice_key <$> sl_regions slice') /\
       (forall m, m ∈ children -> exists r0, r0 ∈ rs /\ child_of m r0) /\
       forall i r0 parent, rs !! i = Some r0 -> parents !! i = Some parent ->
         slice_key parent = slice_key r0 /\
         (forall p, covers (sr_polygons r0) p <->
            covers (sr_polygons parent) p \/
            exists m, m ∈ children /\ child_of m r0 /\ covers (sr_polygons m) p) /\
         (forall m, m ∈ children -> child_of m r0 ->
            disjoint_areas (sr_polygons parent) (sr_polygons m)) /\
         (forall j k m n, j <> k -> children !! j = Some m -> children !! k = Some n ->
            child_of m r0 -> child_of n r0 -> disjoint_areas (sr_polygons m) (sr_polygons n))).
Proof using laws Hnd Hids.
  destruct (split_regions_inv slice footprints Hrs) as (slice' & r & He & Herr & Hok).
  exists slice', r. split; [done |]. split; [done |]. intros Hr. destruct (Hok Hr) as (st & Hst & ->).
  exists (sp_regions st), (sp_minted st). split; [done |]. split; [by apply si_length |].
  split; [cbn [sl_regions with_slice_regions]; rewrite split_inv_all_keys by done; by eapply si_nodup |].
  split; [by apply si_child |]. intros i r0 parent Hr0 Hp. split; [by eapply si_region |].
  split; [intros p; by eapply si_cover |]. split.
  - intros m Hm Hch. by eapply si_parent_apart.
  - intros j k m n Hjk Hj Hk Hm Hn. by eapply (si_children_apart rs st Hst i j k).
Qed.

End laws.

(** ** The commit hook *)

Section sync.
Context {P : PrepassTypes}.
#[local] Existing Instance layer_types.
Context (boolean_op_tree_64 : ClipOperation -> list (list Point2) -> list (list Point2) -> PolyPath).
Context (split_message : SplitError -> string).

(** The perimeter region that a sliced region takes its inner area from. *)
Definition donor_id (r : SlicedRegion) : Z := default (sr_region_id r) (modifier_base_region_id (sr_region_id r)).

Definition donor (perimeter : PerimeterIR) (r : SlicedRegion) : option PerimeterRegion :=
  perimeter_lookup perimeter (sr_object_id r, donor_id r, sr_variant_chain r).

Definition repartitioned (perimeter : PerimeterIR) (r : SlicedRegion) : SlicedRegion :=
  if is_footprint r then r
  else match donor perimeter r with
       | None => r
       | Some perim => partition_fill boolean_op_tree_64 perim r (is_modifier_namespace_id (sr_region_id r))
       end.

Lemma partition_region_done perimeter r :
  partition_region boolean_op_tree_64 perimeter r = Done (repartitioned perimeter r).
Proof.
  unfold partition_region, repartitioned, donor, donor_id, modifier_base_region_id.
  destruct (is_footprint r); [done |].
  destruct (is_modifier_namespace_id (sr_region_id r)); cbn [exec_bind default];
    by destruct (perimeter_lookup _ _).
Qed.

Lemma repartitioned_key perimeter r :
  slice_key (repartitioned perimeter r) = slice_key r /\
  is_footprint (repartitioned perimeter r) = is_footprint r /\
  sr_region_id (repartitioned perimeter r) = sr_region_id r.
Proof. unfold repartitioned. destruct (is_footprint r) eqn:Hf; [by rewrite Hf |]. by destruct (donor _ _). Qed.

Definition printable_regions (slice : SliceIR) : list SlicedRegion :=
  filter (fun r => is_footprint r = false) (sl_regions slice).

Lemma filter_repartitioned perimeter b (rs : list SlicedRegion) :
  filter (fun r => is_footprint r = b) (repartitioned perimeter <$> rs) =
  repartitioned perimeter <$> filter (fun r => is_footprint r = b) rs.
Proof.
  induction rs as [|r rs IH]; [done |]. rewrite fmap_cons, !filter_cons.
  destruct (repartitioned_key perimeter r) as (_ & -> & _). case_decide; [|done].
  by rewrite fmap_cons, IH.
Qed.

(** The laws hold of any operation when there is no point. *)
Lemma empty_laws : clip_laws boolean_op_tree_64 (fun _ (_ : Empty_set) => False).
Proof. split; intros; try match goal with p : Empty_set |- _ => destruct p end; tauto. Qed.

(** What the hook makes of a region with a perimeter entry, at every point: [covers l p] says that
    the polygons [l] cover [p].  Nothing but the four roles changes.  Inside the perimeter's
    inner area the roles follow the precedence bridge, bottom, top, sparse and together cover
    exactly that area.  Without an inner area the bottom and the sparse role are empty, and the
    bridge and what it leaves of the top stay exactly when there are no walls. *)
Section filled.
Context {Point : Type} (covers : list ExPolygon -> Point -> Prop).

Record filled (perim : PerimeterRegion) (region out : SlicedRegion) : Prop := {
  fl_rest : out = with_fill_roles region (sr_bridge_areas out) (sr_bottom_solid_fill out) (sr_top_solid_fill out)
                    (sr_sparse_infill_area out);
  fl_inset : PolygonOps.intersection boolean_op_tree_64 (pr_infill_areas perim) (sr_polygons region) <> [] -> forall p,
    let inside := covers (pr_infill_areas perim) p /\ covers (sr_polygons region) p in
    (covers (sr_bridge_areas out) p <-> inside /\ covers (sr_bridge_areas region) p) /\
    (covers (sr_bottom_solid_fill out) p <->
       inside /\ covers (sr_bottom_solid_fill region) p /\ ~ covers (sr_bridge_areas region) p) /\
    (covers (sr_top_solid_fill out) p <->
       inside /\ covers (sr_top_solid_fill region) p /\
       ~ covers (sr_bridge_areas region) p /\ ~ covers (sr_bottom_solid_fill region) p) /\
    (covers (sr_sparse_infill_area out) p <->
       inside /\ ~ covers (sr_bridge_areas region) p /\ ~ covers (sr_bottom_solid_fill region) p /\
       ~ covers (sr_top_solid_fill region) p);
  fl_empty : PolygonOps.intersection boolean_op_tree_64 (pr_infill_areas perim) (sr_polygons region) = [] -> forall p,
    ~ covers (sr_bottom_solid_fill out) p /\ ~ covers (sr_sparse_infill_area out) p /\
    (covers (sr_bridge_areas out) p <-> pr_walls perim = [] /\ covers (sr_bridge_areas region) p) /\
    (covers (sr_top_solid_fill out) p <->
       pr_walls perim = [] /\ covers (sr_top_solid_fill region) p /\ ~ covers (sr_bridge_areas region) p)
}.

(** What the hook makes of any region. *)
Definition synced (perimeter : PerimeterIR) (region out : SlicedRegion) : Prop :=
  if is_footprint region then out = region
  else match donor perimeter region with
       | None => out = region
       | Some perim => filled perim region out
       end.

Lemma partition_fill_filled (laws : clip_laws boolean_op_tree_64 covers) perim region is_modifier :
  filled perim region (partition_fill boolean_op_tree_64 perim region is_modifier).
Proof.
  destruct (fill_roles_partition boolean_op_tree_64 covers laws perim region is_modifier)
    as (_ & _ & _ & _ & _ & _ & Hin & Hempty).
  pose proof (fill_roles_partition boolean_op_tree_64 covers laws perim region is_modifier)
    as (_ & _ & Hbs & _ & Hos & Hts & _).
  constructor; [done | |].
  - intros Hne p inside. destruct (Hin Hne p) as (H1 & H2 & H3 & H4).
    pose proof (covers_intersection boolean_op_tree_64 covers laws (pr_infill_areas perim) (sr_polygons region) p) as Hi.
    specialize (Hbs p). specialize (Hos p). specialize (Hts p). unfold inside. split_and!; tauto.
  - intros He p. destruct (Hempty He p) as (H1 & H2 & H3 & H4). split_and!; tauto.
Qed.

Lemma repartitioned_synced (laws : clip_laws boolean_op_tree_64 covers) perimeter region :
  synced perimeter region (repartitioned perimeter region).
Proof.
  unfold synced, repartitioned. destruct (is_footprint region); [done |].
  destruct (donor perimeter region); [by apply partition_fill_filled | done].
Qed.

End filled.

(** Contrary to the module's comment, an empty inner area does empty the bottom role, and
    with walls the top role too. *)
Theorem empty_inset_collapses_fill (perim : PerimeterRegion) (region : SlicedRegion) (is_modifier : bool)
    (He : PolygonOps.intersection boolean_op_tree_64 (pr_infill_areas perim) (sr_polygons region) = []) :
  let out := partition_fill boolean_op_tree_64 perim region is_modifier in
  sr_bottom_solid_fill out = [] /\ (pr_walls perim <> [] -> sr_top_solid_fill out = []).
Proof.
  unfold partition_fill. cbv zeta. rewrite He. split; [done |]. intros Hw.
  cbn [sr_top_solid_fill with_fill_roles]. by destruct (pr_walls perim).
Qed.
End sync.

(** ** Witnesses: a Clipper2 that only tells empty from not empty *)

#[local] Existing Instance sample_prepass.
#[local] Existing Instance layer_types.

Definition unit_square : list Point2 := [Pt 0 0; Pt 10 0; Pt 10 10; Pt 0 10].
Definition area_polygon : ExPolygon := {| contour := {| points := unit_square |}; holes := [] |}.

Definition coarse_op (op : ClipOperation) (subject clip : list (list Point2)) : PolyPath :=
  let s := match subject with [] => false | _ => true end in
  let c := match clip with [] => false | _ => true end in
  let b := match op with
           | Union => s || c | Intersection => s && c | Difference => s && negb c | Xor => xorb s c
           end in
  PolyNode [] (if b then [PolyNode unit_square []] else []).

Definition some_area (l : list ExPolygon) (_ : unit) : Prop := l <> [].

Lemma coarse_laws : clip_laws coarse_op some_area.
Proof.
  assert (Hfl : forall l, match flat_map expolygon_to_paths l with [] => false | _ => true end =
                          match l with [] => false | _ => true end) by (by intros []).
  split; unfold some_area, PolygonOps.intersection, PolygonOps.difference, PolygonOps.union,
    clip_polygons, coarse_op; intros.
  - intros H. by apply H.
  - rewrite !Hfl. destruct a, b; simpl; split; intuition discriminate.
  - rewrite !Hfl. destruct a, b; simpl; split; intuition (try discriminate); exfalso; auto.
  - rewrite !Hfl. destruct a, b; simpl; split; intuition (try discriminate).
  - destruct a; [right | left]; [intros H; by apply H | discriminate].
Defined.

Definition sample_sliced (id : Z) (polygons bridge : list ExPolygon) : SlicedRegion :=
  {| sr_object_id := "cube"; sr_region_id := id; sr_polygons := polygons; sr_infill_areas := [];
     sr_nonplanar_surface := None; sr_effective_layer_height := ONE; sr_segment_annotations := [];
     sr_variant_chain := []; sr_top_shell_index := None; sr_bottom_shell_index := None;
     sr_top_solid_fill := []; sr_bottom_solid_fill := []; sr_is_bridge := false;
     sr_bridge_areas := bridge; sr_bridge_orientation_deg := ZERO; sr_sparse_infill_area := [];
     sr_internal_solid_fill := []; sr_internal_bridge_areas := []; sr_internal_bridge_angles_deg := [];
     sr_raft_fill := [] |}.

Definition sample_slice (rs : list SlicedRegion) : SliceIR :=
  {| sl_schema_version := SemVer_default; sl_global_layer_index := 0; sl_z := ZERO; sl_regions := rs |}.

Definition sample_perimeter (id : Z) (areas : list ExPolygon) : PerimeterRegion :=
  {| pr_object_id := "cube"; pr_region_id := id; pr_variant_chain := []; pr_walls := [];
     pr_infill_areas := areas; pr_seam_candidates := []; pr_resolved_seam := None |}.

Definition no_message (_ : SplitError) : string := "".

Lemma modifier_id_roundtrip_witness :
  exists id, modifier_sub_region_id 5 "cube" [area_polygon] = Done id /\ modifier_base_region_id id = Some 5.
Proof.
  pose proof (modifier_id_roundtrip 5 "cube" [area_polygon] ltac:(split; vm_compute; discriminate)) as H.
  change (modifier_sub_region_id_fits 5) with true in H. cbv iota in H.
  destruct H as (id & Hd & _ & _ & _ & _ & Hb). exists id. split; [exact Hd | exact Hb].
Defined.

Lemma fill_roles_partition_witness :
  disjoint_areas some_area
    (sr_bridge_areas (partition_fill coarse_op (sample_perimeter 0 [area_polygon])
       (sample_sliced 0 [area_polygon] [area_polygon]) false))
    (sr_sparse_infill_area (partition_fill coarse_op (sample_perimeter 0 [area_polygon])
       (sample_sliced 0 [area_polygon] [area_polygon]) false)).
Proof.
  exact (proj1 (proj2 (proj2 (fill_roles_partition coarse_op some_area coarse_laws
    (sample_perimeter 0 [area_polygon]) (sample_sliced 0 [area_polygon] [area_polygon]) false)))).
Defined.

Lemma modifier_split_conserves_witness :
  exists slice' r, split_regions_by_modifier_footprints coarse_op
      (sample_slice [sample_sliced 0 [area_polygon] []]) [("cube", [area_polygon])] = Done (slice', r) /\
    length (sl_regions slice') = 2%nat.
Proof.
  destruct (modifier_split_conserves coarse_op some_area coarse_laws [sample_sliced 0 [area_polygon] []]
    ltac:(repeat constructor; set_solver) ltac:(repeat constructor; vm_compute; discriminate)
    (sample_slice [sample_sliced 0 [area_polygon] []]) [("cube", [area_polygon])] eq_refl)
    as (slice' & r & He & _).
  exists slice', r. split; [exact He |]. vm_compute in He. injection He as <- _. reflexivity.
Defined.

Definition synced_arena : LayerArena :=
  (set_perimeter (set_slice LayerArena.new
     (sample_slice [sample_sliced 0 [area_polygon] []; sample_sliced 1 [area_polygon] []])).1
     {| per_schema_version := SemVer_default; per_global_layer_index := 0;
        per_regions := [sample_perimeter 0 [area_polygon]] |}).1.

