(* ===== verification/VariantId.v ===== *)
(** Region identifiers of painted variants ([slicer-core/src/algos/paint_segmentation/mod.rs])
    and their inverse ([map_space_region_id] of [slicer-wasm-host/src/selection.rs]).

    Segmentation gives the region of a paint chain an identifier of its own: the base
    identifier, moved up by a stride, plus a hash of the chain.  The configuration of the
    region is stored under the base identifier, so the selection has to decode it again.
    The hash is finite; a table of the identifiers handed out rejects a second chain. *)
From Stdlib Require Import Ascii.
From stdpp Require Import prelude gmap strings list.
From S2P Require Import Prelude Ir Planar LayerIr OrderLock RegionPartition.

#[local] Open Scope string_scope.
#[local] Open Scope list_scope.
#[local] Open Scope Z_scope.

#[export] Instance f32_countable : Countable f32.
Proof. by refine (inj_countable' f32_bits F32 _); intros []. Defined.

#[export] Instance PaintValue_countable : Countable PaintValue.
Proof.
  refine (inj_countable'
    (fun v => match v with
              | PaintFlag b => inl (inl b) | PaintScalar x => inl (inr x)
              | PaintToolIndex i => inr (inl i) | PaintCustom s => inr (inr s)
              end)
    (fun e => match e with
              | inl (inl b) => PaintFlag b | inl (inr x) => PaintScalar x
              | inr (inl i) => PaintToolIndex i | inr (inr s) => PaintCustom s
              end) _).
  by intros [].
Defined.

(** ** The hash of a chain *)

Definition PAINT_VARIANT_REGION_ID_STRIDE : Z := 1000000.

Definition wrap_u64 (x : Z) : Z := x `mod` (u64_max + 1).

Definition FNV_PRIME : Z := 1099511628211.
Definition FNV_OFFSET : Z := 14695981039346656037.
Definition GOLDEN : Z := 11400714819323198485.

Definition bytes_of (s : string) : list Z :=
  (fun c => Z.of_nat (nat_of_ascii c)) <$> String.list_ascii_of_string s.

(** [u64::from_le_bytes] of a chunk padded with zeros. *)
Definition from_le_bytes (chunk : list Z) : Z := foldr (fun b acc => b + 256 * acc) 0 chunk.

(** [chunks(8)]; the fuel is the length. *)
Fixpoint chunks8 (fuel : nat) (l : list Z) : list (list Z) :=
  match fuel, l with
  | S fuel, _ :: _ => firstn 8 l :: chunks8 fuel (skipn 8 l)
  | _, _ => []
  end.

(** XOR of a chunk, then the FNV prime. *)
Definition fold_chunk (h : Z) (chunk : list Z) : Z :=
  wrap_u64 (Z.lxor h (from_le_bytes chunk) * FNV_PRIME).

Definition fold_text (h : Z) (s : string) : Z :=
  foldl fold_chunk h (chunks8 (length (bytes_of s)) (bytes_of s)).

(** The prime of the kind of value and the payload. *)
Definition value_hash (v : PaintValue) : Z * Z :=
  match v with
  | PaintFlag b => (11400714819323198485, if b then 1 else 0)
  | PaintScalar x => (13787848793156543929, f32_bits x)
  | PaintToolIndex i => (10723151780598845931, i)
  | PaintCustom s => (723685415333069057, fold_text 0 s)
  end.

Definition fold_entry (h : Z) (entry : string * PaintValue) : Z :=
  let h := fold_text h entry.1 in
  let '(disc_prime, payload) := value_hash entry.2 in
  Z.lxor (wrap_u64 (wrap_u64 (h + disc_prime) * GOLDEN)) payload.

Definition paint_variant_hash (chain_key : VariantChain) : Z :=
  match chain_key with
  | [] => 0
  | _ =>
      match chain_key with
      | [("material", PaintToolIndex n)] => n + 1
      | _ =>
          let h := foldl fold_entry FNV_OFFSET chain_key in
          if h =? 0 then 1 else h
      end
  end.

(** The [expect] is [Panicked]. *)
Definition paint_variant_region_id (base_region_id : Z) (chain_key : VariantChain) : exec Z :=
  match chain_key with
  | [] => Done base_region_id
  | _ =>
      let hash := (paint_variant_hash chain_key - 1) `mod` (PAINT_VARIANT_REGION_ID_STRIDE - 1) + 1 in
      let payload := base_region_id * PAINT_VARIANT_REGION_ID_STRIDE in
      if u64_max <? payload then Panicked
      else
        let id := payload + hash in
        if u64_max <? id then Panicked
        else if (id <? 2 ^ 63) && negb (id =? u64_max) then Done id else Panicked
  end.

(** ** The identifiers handed out *)

Inductive PaintSegmentationError :=
| PaintVariantRegionIdCollision (object_id : string) (region_id : Z) (first_chain second_chain : VariantChain).

Definition seen_ids : Type := gmap (string * Z) VariantChain.

Definition register_paint_variant_region_id (seen : seen_ids) (object_id : string) (region_id : Z)
    (chain : VariantChain) : result seen_ids PaintSegmentationError :=
  match seen !! (object_id, region_id) with
  | Some first_chain =>
      if bool_decide (first_chain = chain) then Ok seen
      else Err (PaintVariantRegionIdCollision object_id region_id first_chain chain)
  | None => Ok (<[(object_id, region_id) := chain]> seen)
  end.

(** ** Back to the identifiers of the region map *)

Definition map_space_region_id (region_id : Z) (variant_chain : VariantChain) : Z :=
  match modifier_base_region_id region_id, variant_chain with
  | None, _ :: _ => region_id / PAINT_VARIANT_REGION_ID_STRIDE
  | _, _ => region_id
  end.

(** ** What the decoding relies on *)

Lemma not_modifier_below_flag id : 0 <= id < 2 ^ 63 -> modifier_base_region_id id = None.
Proof.
  intros Hid. unfold modifier_base_region_id, is_modifier_namespace_id.
  replace (Z.land id MODIFIER_VARIANT_REGION_ID_FLAG) with 0; [by rewrite andb_false_r |].
  symmetry. apply Z.bits_inj'. intros n Hn. rewrite Z.land_spec, Z.bits_0.
  unfold MODIFIER_VARIANT_REGION_ID_FLAG. rewrite Z.shiftl_spec by done.
  destruct (decide (n = 63)) as [-> | Hne].
  - rewrite Z.testbit_eqb by done. replace (id / 2 ^ 63) with 0 by (symmetry; apply Z.div_small; lia). done.
  - apply andb_false_iff. right. destruct (decide (n < 63)) as [Hlt | Hge].
    + by apply Z.testbit_neg_r; lia.
    + replace (n - 63) with (Z.succ (n - 64)) by lia. change 1 with (2 * 0 + 1).
      rewrite Z.testbit_odd_succ by lia. apply Z.bits_0.
Qed.

(** What a painted identifier is made of. *)
Lemma painted_id_parts (base : Z) chain id :
  chain <> [] -> paint_variant_region_id base chain = Done id ->
  id < 2 ^ 63 /\ exists hash, 1 <= hash < PAINT_VARIANT_REGION_ID_STRIDE /\
    hash = (paint_variant_hash chain - 1) `mod` (PAINT_VARIANT_REGION_ID_STRIDE - 1) + 1 /\
    id = base * PAINT_VARIANT_REGION_ID_STRIDE + hash.
Proof.
  intros Hne. unfold paint_variant_region_id. destruct chain as [|e chain]; [done |].
  set (hash := (paint_variant_hash (e :: chain) - 1) `mod` _ + 1).
  assert (Hh : 1 <= hash < PAINT_VARIANT_REGION_ID_STRIDE).
  { pose proof (Z.mod_pos_bound (paint_variant_hash (e :: chain) - 1) (PAINT_VARIANT_REGION_ID_STRIDE - 1)
      eq_refl). unfold hash, PAINT_VARIANT_REGION_ID_STRIDE in *. lia. }
  destruct (u64_max <? _); [done |]. destruct (u64_max <? _); [done |].
  destruct ((_ <? _) && _) eqn:Hlt; [|done]. intros [= <-].
  apply andb_true_iff in Hlt as [Hlt%Z.ltb_lt _]. eauto 10.
Qed.

(** A painted identifier stays out of the namespace of modifier regions, decodes to its
    base, and keeps the payload of the chain; a material chain of a tool below 999 999
    has the payload [tool + 1]. *)
Theorem variant_id_roundtrip (base : Z) (chain : VariantChain) (id : Z)
    (Hbase : is_u64 base) (Hchain : chain <> []) (Hid : paint_variant_region_id base chain = Done id) :
  modifier_base_region_id id = None /\ map_space_region_id id chain = base /\
  (forall tool, chain = [("material", PaintToolIndex tool)] -> 0 <= tool < 999999 ->
     id `mod` PAINT_VARIANT_REGION_ID_STRIDE = tool + 1).
Proof.
  destruct (painted_id_parts base chain id Hchain Hid) as (Hlt & hash & Hh & Heq & ->).
  unfold is_u64 in Hbase.
  assert (Hm : modifier_base_region_id (base * PAINT_VARIANT_REGION_ID_STRIDE + hash) = None)
    by (apply not_modifier_below_flag; unfold PAINT_VARIANT_REGION_ID_STRIDE in *; lia).
  split_and!; [done | |].
  - unfold map_space_region_id. rewrite Hm. destruct chain as [|e chain]; [done |].
    rewrite Z.div_add_l by done. rewrite Z.div_small by (unfold PAINT_VARIANT_REGION_ID_STRIDE in *; lia). lia.
  - intros tool -> Htool. rewrite Z.add_comm, Z.mod_add by done.
    rewrite Z.mod_small by (unfold PAINT_VARIANT_REGION_ID_STRIDE in *; lia). rewrite Heq.
    change (paint_variant_hash [("material", PaintToolIndex tool)]) with (tool + 1).
    rewrite Z.mod_small; unfold PAINT_VARIANT_REGION_ID_STRIDE in *; lia.
Qed.

(** A region handed out by the segmentation: object, base identifier, chain. *)
Definition painted_region : Type := string * Z * VariantChain.

(** Minting and registering one region. *)
Definition mint_region (seen : seen_ids) (r : painted_region)
    : exec (result seen_ids PaintSegmentationError) :=
  let! id := paint_variant_region_id r.1.2 r.2 in
  Done (register_paint_variant_region_id seen r.1.1 id r.2).

Lemma register_keeps seen object id chain seen' :
  register_paint_variant_region_id seen object id chain = Ok seen' ->
  seen' !! (object, id) = Some chain /\ seen ⊆ seen'.
Proof.
  unfold register_paint_variant_region_id. destruct (seen !! (object, id)) as [first|] eqn:Hs.
  - case_bool_decide as Hc; [|done]. intros [= <-]. by subst.
  - intros [= <-]. split; [apply lookup_insert_eq | by apply insert_subseteq].
Qed.

Lemma mint_regions_recorded rs seen seen' :
  fold_exec mint_region seen rs = Done (Ok seen') ->
  seen ⊆ seen' /\ forall r, r ∈ rs -> exists id, paint_variant_region_id r.1.2 r.2 = Done id /\
    seen' !! (r.1.1, id) = Some r.2.
Proof.
  revert seen. induction rs as [|r rs IH]; intros seen; cbn [fold_exec].
  { intros [= <-]. split; [done |]. set_solver. }
  unfold mint_region at 1. destruct (paint_variant_region_id r.1.2 r.2) as [id| |] eqn:Hid; [|done..]. cbn [exec_bind].
  destruct (register_paint_variant_region_id seen r.1.1 id r.2) as [seen1|e] eqn:Hreg; [|done].
  intros [Hsub Hall]%IH. apply register_keeps in Hreg as [Hget Hsub1]. split; [by etrans |].
  intros r' [-> | Hr']%elem_of_cons; [|by apply Hall]. exists id. split; [done |]. by eapply lookup_weaken.
Qed.

(** When every minted region was registered, an identifier of an object belongs to one
    region only: equal identifiers come from equal chains over equal base identifiers. *)
Theorem registered_ids_identify (rs : list painted_region) (seen : seen_ids) (r1 r2 : painted_region) (id : Z)
    (Hmint : fold_exec mint_region ∅ rs = Done (Ok seen))
    (Hu : Forall (fun r => is_u64 r.1.2) rs) (H1 : r1 ∈ rs) (H2 : r2 ∈ rs)
    (Hobj : r1.1.1 = r2.1.1)
    (Hid1 : paint_variant_region_id r1.1.2 r1.2 = Done id) (Hid2 : paint_variant_region_id r2.1.2 r2.2 = Done id) :
  r1 = r2.
Proof.
  apply mint_regions_recorded in Hmint as [_ Hall].
  destruct (Hall r1 H1) as (i1 & E1 & L1). destruct (Hall r2 H2) as (i2 & E2 & L2).
  destruct r1 as [[o1 b1] c1], r2 as [[o2 b2] c2]. simpl in *. subst o2.
  assert (i1 = id) as -> by congruence. assert (i2 = id) as -> by congruence.
  assert (c1 = c2) as <- by congruence. f_equal. f_equal.
  destruct c1 as [|e c]; [simpl in *; congruence |].
  destruct (painted_id_parts b1 (e :: c) id ltac:(done) Hid1) as (_ & h1 & ? & Hh1 & ->).
  destruct (painted_id_parts b2 (e :: c) _ ltac:(done) Hid2) as (_ & h2 & ? & Hh2 & He).
  subst h1 h2. unfold PAINT_VARIANT_REGION_ID_STRIDE in *. lia.
Qed.

(** ** Witnesses *)

Lemma variant_id_roundtrip_witness :
  paint_variant_region_id 11 [("material", PaintToolIndex 2)] = Done 11000003 /\
  map_space_region_id 11000003 [("material", PaintToolIndex 2)] = 11.
Proof.
  split; [by vm_compute |].
  apply (variant_id_roundtrip 11 [("material", PaintToolIndex 2)] 11000003); [by unfold is_u64 | done |].
  by vm_compute.
Defined.

Lemma registered_ids_identify_witness :
  let painted := ("cube", 0, [("material", PaintToolIndex 1)]) in
  let rs := [("cube", 0, []); painted; ("cube", 0, [("fuzzy_skin", PaintFlag true)])] in
  exists seen, fold_exec mint_region ∅ rs = Done (Ok seen) /\ seen !! ("cube", 2) = Some painted.2 /\
    painted = painted.
Proof.
  cbv zeta. eexists. split; [by vm_compute |]. split; [by vm_compute |].
  eapply (registered_ids_identify [("cube", 0, []); ("cube", 0, [("material", PaintToolIndex 1)]);
             ("cube", 0, [("fuzzy_skin", PaintFlag true)])] _ _ _ 2);
    [by vm_compute | by repeat constructor; vm_compute | set_solver | set_solver | done | by vm_compute | by vm_compute].
Defined.
