(* ===== verification/LayerCommit.v ===== *)
(** Committing one module invocation to the arena of its layer ([apply] of
    [slicer-runtime/src/layer_executor.rs] and its helpers).

    [apply] takes what a module returned for a stage and writes it into the slots of the
    arena, with the hooks of the stage: seam back-fill and fill partition after the
    perimeters, tag rewriting and merging for the infill, conflict removal for support,
    order checks for anchored events and path optimisation. *)
From Stdlib Require Import Floats.SpecFloat.
From stdpp Require Import prelude gmap strings list.
From S2P Require Import Prelude Ir Float32 ExecutionPlan Blackboard LayerArena Planar PolygonOps.
From S2P Require Import LayerIr OrderLock Anchored RegionPartition.

#[local] Open Scope string_scope.
#[local] Open Scope list_scope.

(** ** Overlap of support paths

    [f32] arithmetic in binary32, the area of the overlap in binary64. *)

Definition f32_add (a b : spec_float) : spec_float := SFadd 24 128 a b.
Definition f32_sub (a b : spec_float) : spec_float := SFsub 24 128 a b.
Definition f32_mul (a b : spec_float) : spec_float := SFmul 24 128 a b.
Definition f32_div (a b : spec_float) : spec_float := SFdiv 24 128 a b.
Definition f32_sqrt (a : spec_float) : spec_float := SFsqrt 24 128 a.

(** [f32::max]: the other argument when one is a NaN. *)
Definition f32_max (a b : spec_float) : spec_float :=
  match a, b with
  | S754_nan, _ => b
  | _, S754_nan => a
  | _, _ => if SFltb a b then b else a
  end.

Definition F32_HALF : spec_float := S754_finite false 8388608 (-24).
Definition F32_EPSILON : spec_float := S754_finite false 8388608 (-46).
Definition F32_ZERO : spec_float := S754_zero false.

Definition units_of (mm : spec_float) : Z := round_as_i64 (f32_mul mm UNITS_PER_MM).

(** The rectangle swept by one segment of a path. *)
Definition swept_segment (a b : Point3WithWidth) : option ExPolygon :=
  let ax := decode (pw_x a) in let ay := decode (pw_y a) in
  let bx := decode (pw_x b) in let by_ := decode (pw_y b) in
  let dx := f32_sub bx ax in
  let dy := f32_sub by_ ay in
  let length := f32_sqrt (f32_add (f32_mul dx dx) (f32_mul dy dy)) in
  if SFleb length F32_EPSILON then None
  else
    let half := f32_mul (f32_max (f32_max (decode (pw_width a)) (decode (pw_width b))) F32_ZERO) F32_HALF in
    let nx := f32_mul (f32_div (SFopp dy) length) half in
    let ny := f32_mul (f32_div dx length) half in
    Some {| contour := {| points :=
              [Pt (units_of (f32_add ax nx)) (units_of (f32_add ay ny));
               Pt (units_of (f32_add bx nx)) (units_of (f32_add by_ ny));
               Pt (units_of (f32_sub bx nx)) (units_of (f32_sub by_ ny));
               Pt (units_of (f32_sub ax nx)) (units_of (f32_sub ay ny))] |};
            holes := [] |}.

(** [windows(2)]. *)
Definition windows2 {A} (l : list A) : list (A * A) := zip l (drop 1 l).

Definition swept (entry : SupportEntry) : list ExPolygon :=
  flat_map (fun path => omap (fun w : Point3WithWidth * Point3WithWidth => swept_segment w.1 w.2)
                          (windows2 (ep_points path))) (se_paths entry).

Definition as_f64 (n : Z) : spec_float := binary_normalize 53 1024 n 0 false.
Definition F64_HALF : spec_float := S754_finite false 4503599627370496 (-53).

(** Twice the signed area, summed and halved in binary64. *)
Definition overlap_area (p : ExPolygon) : spec_float :=
  let cross (e : Point2 * Point2) :=
    SFsub 53 1024 (SFmul 53 1024 (as_f64 (px e.1)) (as_f64 (py e.2)))
                  (SFmul 53 1024 (as_f64 (px e.2)) (as_f64 (py e.1))) in
  SFmul 53 1024 (SFabs (foldl (fun s e => SFadd 53 1024 s (cross e)) (S754_zero true)
                          (edges (points (contour p))))) F64_HALF.

Section commit.
Context {P : PrepassTypes}.
#[local] Existing Instance layer_types.
Context (boolean_op_tree_64 : ClipOperation -> list (list Point2) -> list (list Point2) -> PolyPath).
Context (split_message : SplitError -> string) (show_f32 : f32 -> string).

Definition support_entries_overlap (left right : SupportEntry) : bool :=
  existsb (fun a => existsb (fun b =>
      let overlap := PolygonOps.intersection boolean_op_tree_64 [a] [b] in
      SFltb (S754_zero false)
        (foldl (fun s p => SFadd 53 1024 s (overlap_area p)) (S754_zero true) overlap))
    (swept right)) (swept left).

(** ** Seams *)

Record StageApplyContext := {
  ctx_stage_id : string;
  ctx_module_id : string;
  ctx_layer_index : Z;
  ctx_seam_plan : option SeamPlanIR;
  ctx_config_view : option ConfigView;
  ctx_committed_slices : option (list SliceIR)
}.

Definition with_resolved_seam (r : PerimeterRegion) (seam : option SeamPosition) : PerimeterRegion :=
  {| pr_object_id := pr_object_id r; pr_region_id := pr_region_id r;
     pr_variant_chain := pr_variant_chain r; pr_walls := pr_walls r;
     pr_infill_areas := pr_infill_areas r; pr_seam_candidates := pr_seam_candidates r;
     pr_resolved_seam := seam |}.

Definition with_per_regions (ir : PerimeterIR) (rs : list PerimeterRegion) : PerimeterIR :=
  {| per_schema_version := per_schema_version ir; per_global_layer_index := per_global_layer_index ir;
     per_regions := rs |}.

Definition planned_seam (seam_plan : SeamPlanIR) (layer_index : Z) (region : PerimeterRegion)
    : option SeamPosition :=
  (fun e => spe_chosen_candidate e.2) <$>
  list_find (fun e => rk_global_layer_index (spe_region_key e) = layer_index /\
                      region_key_source (spe_region_key e) = perimeter_key region)
    (seam_entries seam_plan).

Definition backfill_region (seam_plan : SeamPlanIR) (layer_index : Z) (region : PerimeterRegion)
    : PerimeterRegion :=
  match pr_resolved_seam region with
  | Some _ => region
  | None => match planned_seam seam_plan layer_index region with
            | Some seam => with_resolved_seam region (Some seam)
            | None => region
            end
  end.

Definition backfill_resolved_seam (perim : PerimeterIR) (seam_plan : SeamPlanIR) (layer_index : Z)
    : PerimeterIR :=
  with_per_regions perim (backfill_region seam_plan layer_index <$> per_regions perim).

(** ** Perimeters *)

(** The fields a post-processing module left empty come from the region it replaces. *)
Definition reconcile_region (orig : PerimeterIR) (region : PerimeterRegion) : PerimeterRegion :=
  match list_find (fun r => perimeter_key r = perimeter_key region) (per_regions orig) with
  | None => region
  | Some (_, orig_region) =>
      {| pr_object_id := pr_object_id region; pr_region_id := pr_region_id region;
         pr_variant_chain := pr_variant_chain region; pr_walls := pr_walls region;
         pr_infill_areas := match pr_infill_areas region with
                            | [] => pr_infill_areas orig_region | areas => areas end;
         pr_seam_candidates := match pr_seam_candidates region with
                               | [] => pr_seam_candidates orig_region | cands => cands end;
         pr_resolved_seam := match pr_resolved_seam region with
                             | None => pr_resolved_seam orig_region | seam => seam end |}
  end.

(** [set_*] of a slot: an occupied slot is an [ArenaCommit] error. *)
Definition staged (r : LayerArena * result unit LayerArenaError)
    : LayerArena * result unit LayerStageError :=
  match r with
  | (arena, Ok u) => (arena, Ok u)
  | (arena, Err source) => (arena, Err (ArenaCommit source))
  end.

Definition sync := sync_perimeter_infill_areas_into_slice boolean_op_tree_64 split_message.

Definition apply_perimeters (arena : LayerArena) (ir : PerimeterIR) (ctx : StageApplyContext)
    : exec (LayerArena * result unit LayerStageError) :=
  let '(arena, _) := take_perimeter arena in
  let ir := match ctx_seam_plan ctx with
            | Some seam_plan => backfill_resolved_seam ir seam_plan (ctx_layer_index ctx)
            | None => ir
            end in
  match staged (set_perimeter arena ir) with
  | (arena, Err e) => Done (arena, Err e)
  | (arena, Ok _) => sync arena (ctx_layer_index ctx)
  end.

Definition apply_perimeters_post_process (arena : LayerArena) (incoming : option PerimeterIR)
    (ctx : StageApplyContext) : exec (LayerArena * result unit LayerStageError) :=
  let '(arena, original) := take_perimeter arena in
  let original := match ctx_seam_plan ctx, original with
                  | Some seam_plan, Some orig =>
                      Some (backfill_resolved_seam orig seam_plan (ctx_layer_index ctx))
                  | _, _ => original
                  end in
  let '(arena, r) :=
    match incoming, original with
    | Some ir, Some orig =>
        staged (set_perimeter arena (with_per_regions ir (reconcile_region orig <$> per_regions ir)))
    | Some ir, None => staged (set_perimeter arena ir)
    | None, Some orig => staged (set_perimeter arena orig)
    | None, None => (arena, Ok tt)
    end in
  match r with
  | Err e => Done (arena, Err e)
  | Ok _ =>
      match arena_perimeter arena with
      | Some _ => sync arena (ctx_layer_index ctx)
      | None => Done (arena, Ok tt)
      end
  end.

(** ** Infill *)

Definition append_region (target new_region : InfillRegion) : InfillRegion :=
  {| if_object_id := if_object_id target; if_region_id := if_region_id target;
     if_variant_chain := if_variant_chain target;
     sparse_infill := sparse_infill target ++ sparse_infill new_region;
     solid_infill := solid_infill target ++ solid_infill new_region;
     ironing := ironing target ++ ironing new_region;
     internal_bridge_infill := internal_bridge_infill target ++ internal_bridge_infill new_region |}.

Definition merge_region (regions : list InfillRegion) (new_region : InfillRegion) : list InfillRegion :=
  default (regions ++ [new_region])
    (update_first (fun r => bool_decide (infill_key r = infill_key new_region))
       (fun target => append_region target new_region) regions).

Definition merge_infill_ir (existing incoming : InfillIR) : InfillIR :=
  {| inf_schema_version := inf_schema_version existing;
     inf_global_layer_index := inf_global_layer_index existing;
     inf_regions := foldl merge_region (inf_regions existing) (inf_regions incoming);
     inf_raft_regions := inf_raft_regions existing ++ inf_raft_regions incoming |}.

Definition with_raft_fill (r : SlicedRegion) (v : list ExPolygon) : SlicedRegion :=
  {| sr_object_id := sr_object_id r; sr_region_id := sr_region_id r; sr_polygons := sr_polygons r;
     sr_infill_areas := sr_infill_areas r; sr_nonplanar_surface := sr_nonplanar_surface r;
     sr_effective_layer_height := sr_effective_layer_height r;
     sr_segment_annotations := sr_segment_annotations r; sr_variant_chain := sr_variant_chain r;
     sr_top_shell_index := sr_top_shell_index r; sr_bottom_shell_index := sr_bottom_shell_index r;
     sr_top_solid_fill := sr_top_solid_fill r; sr_bottom_solid_fill := sr_bottom_solid_fill r;
     sr_is_bridge := sr_is_bridge r; sr_bridge_areas := sr_bridge_areas r;
     sr_bridge_orientation_deg := sr_bridge_orientation_deg r;
     sr_sparse_infill_area := sr_sparse_infill_area r;
     sr_internal_solid_fill := sr_internal_solid_fill r;
     sr_internal_bridge_areas := sr_internal_bridge_areas r;
     sr_internal_bridge_angles_deg := sr_internal_bridge_angles_deg r; sr_raft_fill := v |}.

Definition with_polygons (r : SlicedRegion) (v : list ExPolygon) : SlicedRegion :=
  {| sr_object_id := sr_object_id r; sr_region_id := sr_region_id r; sr_polygons := v;
     sr_infill_areas := sr_infill_areas r; sr_nonplanar_surface := sr_nonplanar_surface r;
     sr_effective_layer_height := sr_effective_layer_height r;
     sr_segment_annotations := sr_segment_annotations r; sr_variant_chain := sr_variant_chain r;
     sr_top_shell_index := sr_top_shell_index r; sr_bottom_shell_index := sr_bottom_shell_index r;
     sr_top_solid_fill := sr_top_solid_fill r; sr_bottom_solid_fill := sr_bottom_solid_fill r;
     sr_is_bridge := sr_is_bridge r; sr_bridge_areas := sr_bridge_areas r;
     sr_bridge_orientation_deg := sr_bridge_orientation_deg r;
     sr_sparse_infill_area := sr_sparse_infill_area r;
     sr_internal_solid_fill := sr_internal_solid_fill r;
     sr_internal_bridge_areas := sr_internal_bridge_areas r;
     sr_internal_bridge_angles_deg := sr_internal_bridge_angles_deg r; sr_raft_fill := sr_raft_fill r |}.

Definition deliver_raft (regions : list SlicedRegion) (raft : InfillRaftRegion) : list SlicedRegion :=
  default regions (update_first (fun r => bool_decide (slice_key r = raft_key raft))
                     (fun r => with_raft_fill r (sr_raft_fill r ++ raft_polygons raft)) regions).

Definition commit_raft (arena : LayerArena) (rafts : list InfillRaftRegion)
    : LayerArena * result unit LayerStageError :=
  match rafts with
  | [] => (arena, Ok tt)
  | _ =>
      match take_slice arena with
      | (arena, Some slice) =>
          staged (set_slice arena (with_slice_regions slice (foldl deliver_raft (sl_regions slice) rafts)))
      | (arena, None) => (arena, Ok tt)
      end
  end.

Definition next_tag (arena : LayerArena) : Z :=
  match arena_infill arena with Some ir => next_global_infill_tag ir | None => 0 end.

Definition apply_infill (arena : LayerArena) (ir : InfillIR)
    : exec (LayerArena * result unit LayerStageError) :=
  match remap_infill_order_locks_from ir (next_tag arena) with
  | (_, Err e) => Done (arena, Err e)
  | (ir, Ok _) =>
      match commit_raft arena (inf_raft_regions ir) with
      | (arena, Err e) => Done (arena, Err e)
      | (arena, Ok _) =>
          let '(arena, existing) := take_infill arena in
          match existing with
          | Some existing => Done (staged (set_infill arena (merge_infill_ir existing ir)))
          | None => Done (staged (set_infill arena ir))
          end
      end
  end.

Definition apply_infill_post_process (arena : LayerArena) (ir : InfillIR)
    : exec (LayerArena * result unit LayerStageError) :=
  let! checked := match arena_infill arena with
                  | Some previous => validate_infill_order_locks previous ir
                  | None => Done (Ok tt)
                  end in
  match checked with
  | Err message => Done (arena, Err (OrderLockViolation message))
  | Ok _ =>
      match remap_infill_order_locks_from ir (next_tag arena) with
      | (_, Err e) => Done (arena, Err e)
      | (ir, Ok _) =>
          let '(arena, _) := take_infill arena in
          Done (staged (set_infill arena ir))
      end
  end.

Definition InfillIR_default : InfillIR :=
  {| inf_schema_version := {| sv_major := 1; sv_minor := 2; sv_patch := 0 |};
     inf_global_layer_index := 0; inf_regions := []; inf_raft_regions := [] |}.

Definition ensure_infill_slot_committed (arena : LayerArena) (stage_id : string) : LayerArena :=
  if negb (String.eqb stage_id "Layer::InfillPostProcess") then arena
  else match arena_infill arena with
       | Some _ => arena
       | None => (set_infill arena InfillIR_default).1
       end.

(** ** Support *)

(** Two entries of different families whose swept paths overlap. *)
Definition conflicting (incoming existing : SupportEntry) : bool :=
  negb (String.eqb (se_family_id incoming) (se_family_id existing))
  && support_entries_overlap incoming existing.

Definition conflict_reason : string := "cross-family swept-path overlap".

Definition push_diagnostics (arena : LayerArena) (entry : SupportEntry) : LayerArena :=
  foldl (fun arena demand_id => push_support_routing_diagnostic arena
           {| srd_family_id := se_family_id entry; srd_body_id := se_body_id entry;
              srd_demand_id := demand_id; srd_reason := conflict_reason |})
    arena (se_demand_ids entry).

(** The two passes over the pairs, as the elements they mark and keep. *)
Definition dropped_existing (existing incoming : list SupportEntry) : list SupportEntry :=
  filter (fun e => existsb (fun i => conflicting i e) incoming = true) existing.
Definition dropped_incoming (existing incoming : list SupportEntry) : list SupportEntry :=
  filter (fun i => existsb (fun e => conflicting i e) existing = true) incoming.
Definition kept_existing (existing incoming : list SupportEntry) : list SupportEntry :=
  filter (fun e => existsb (fun i => conflicting i e) incoming = false) existing.
Definition kept_incoming (existing incoming : list SupportEntry) : list SupportEntry :=
  filter (fun i => existsb (fun e => conflicting i e) existing = false) incoming.

Definition apply_support (arena : LayerArena) (incoming : SupportIR)
    : exec (LayerArena * result unit LayerStageError) :=
  let '(arena, existing) := take_support arena in
  match existing with
  | None => Done (staged (set_support arena incoming))
  | Some existing =>
      let old := su_entries existing in
      let new := su_entries incoming in
      let arena := foldl push_diagnostics arena (dropped_existing old new) in
      let arena := foldl push_diagnostics arena (dropped_incoming old new) in
      let merged := {| su_schema_version := su_schema_version existing;
                       su_global_layer_index := su_global_layer_index existing;
                       su_entries := kept_existing old new ++ kept_incoming old new |} in
      Done (staged (set_support arena merged))
  end.

Definition apply_support_post_process (arena : LayerArena) (ir : SupportIR)
    : exec (LayerArena * result unit LayerStageError) :=
  let '(arena, _) := take_support arena in Done (staged (set_support arena ir)).

(** ** Anchored events *)

Definition apply_anchored_events (arena : LayerArena) (collections : list OrderedEventCollection)
    (ctx : StageApplyContext) : exec (LayerArena * result unit LayerStageError) :=
  match for_each (validate_anchored_entity show_f32) (flat_map oc_events collections) with
  | Err message => Done (arena, Err (FatalModule (ctx_stage_id ctx) (ctx_module_id ctx) message))
  | Ok _ =>
      let! collections := commit_ordered_event_collections collections in
      Done (set_anchored_event_collections arena collections, Ok tt)
  end.

(** ** Slice post-processing *)

Definition slice_error (ctx : StageApplyContext) (reason : string) : LayerStageError :=
  FatalModule (ctx_stage_id ctx) (ctx_module_id ctx) ("invalid slice postprocess output: " +:+ reason).

Definition region_position (slice : SliceIR) (key : RegionKey) : option nat :=
  fst <$> list_find (fun r => slice_key r = region_key_source key) (sl_regions slice).

Definition unknown_region (what : string) (i : nat) (key : RegionKey) : string :=
  what +:+ "[" +:+ show_uint (Z.of_nat i) +:+ "] targets unknown region (object_id='" +:+
  rk_object_id key +:+ "', region_id='" +:+ show_uint (rk_region_id key) +:+ "')".

Fixpoint apply_polygon_updates (ctx : StageApplyContext) (slice : SliceIR)
    (updates : list (nat * (RegionKey * list ExPolygon))) : result SliceIR LayerStageError :=
  match updates with
  | [] => Ok slice
  | (i, (key, polys)) :: rest =>
      match region_position slice key with
      | None => Err (slice_error ctx (unknown_region "polygon_update" i key))
      | Some ridx =>
          apply_polygon_updates ctx
            (with_slice_regions slice (alter (fun r => with_polygons r polys) ridx (sl_regions slice))) rest
      end
  end.

Definition check_z_update (ctx : StageApplyContext) (slice : SliceIR)
    (u : nat * (RegionKey * Z * Z * f32)) : result unit LayerStageError :=
  let '(i, (key, path_idx, vertex_idx, _)) := u in
  let prefix := "path_z_update[" +:+ show_uint (Z.of_nat i) +:+ "]: " in
  match region_position slice key ≫= fun ridx => sl_regions slice !! ridx with
  | None => Err (slice_error ctx (unknown_region "path_z_update" i key))
  | Some region =>
      match sr_polygons region !! Z.to_nat path_idx with
      | None =>
          Err (slice_error ctx (prefix +:+ "polygon index " +:+ show_uint path_idx +:+
            " out of range for region (" +:+ rk_object_id key +:+ ", " +:+ show_uint (rk_region_id key) +:+
            ") with " +:+ show_uint (Z.of_nat (length (sr_polygons region))) +:+ " polygons"))
      | Some poly =>
          if length (points (contour poly)) <=? Z.to_nat vertex_idx then
            Err (slice_error ctx (prefix +:+ "vertex index " +:+ show_uint vertex_idx +:+
              " out of range for contour with " +:+ show_uint (Z.of_nat (length (points (contour poly)))) +:+
              " points"))
          else Ok tt
      end
  end%nat.

Definition no_slice_message : string :=
  "Layer::SlicePostProcess has no staged SliceIR to merge into; Layer::Slice must commit per-region slice output first".

(** An error leaves the function with the slice taken out of the arena. *)
Definition apply_slice_post_process (arena : LayerArena)
    (polygon_updates : list (RegionKey * list ExPolygon))
    (path_z_updates : list (RegionKey * Z * Z * f32)) (ctx : StageApplyContext)
    : exec (LayerArena * result unit LayerStageError) :=
  match take_slice arena with
  | (arena, None) => Done (arena, Err (FatalModule (ctx_stage_id ctx) (ctx_module_id ctx) no_slice_message))
  | (arena, Some existing) =>
      match apply_polygon_updates ctx existing (enumerate polygon_updates) with
      | Err e => Done (arena, Err e)
      | Ok existing =>
          match for_each (check_z_update ctx existing) (enumerate path_z_updates) with
          | Err e => Done (arena, Err e)
          | Ok _ => Done (staged (set_slice arena existing))
          end
      end
  end.

(** ** Path optimisation *)

Definition valid_hop (h : f32) : bool := f32_is_finite h && negb (f32_leb h ZERO).

Fixpoint push_z_hops (ctx : StageApplyContext) (anchor : Z) (arena : LayerArena) (hops : list f32)
    : LayerArena * result unit LayerStageError :=
  match hops with
  | [] => (arena, Ok tt)
  | h :: rest =>
      if negb (f32_is_finite h) || f32_leb h ZERO then
        (arena, Err (FatalModule (ctx_stage_id ctx) (ctx_module_id ctx)
          ("Layer::PathOptimization push-z-hop rejected: hop-height=" +:+ show_f32 h +:+
           " is not finite and strictly positive")))
      else
        push_z_hops ctx anchor
          (push_deferred_z_hop arena {| zh_after_entity_index := anchor; zh_hop_height := h |}) rest
  end.

Definition end_of_layer_anchor (arena : LayerArena) : Z :=
  match layer_collection arena with
  | Some lc => wrap_u32 (Z.of_nat (length (ordered_entities lc) - 1))
  | None => 0
  end.

Definition push_side_effects (ctx : StageApplyContext) (arena : LayerArena) (c : PathOptimizationCommit)
    : LayerArena * result unit LayerStageError :=
  let anchor := end_of_layer_anchor arena in
  let arena := foldl push_deferred_tool_change arena (po_tool_changes c) in
  match push_z_hops ctx anchor arena (po_z_hops c) with
  | (arena, Err e) => (arena, Err e)
  | (arena, Ok _) =>
      let arena := foldl (fun a kind => push_deferred_annotation a
        {| la_after_entity_index := anchor; la_kind := kind |}) arena (po_annotations c) in
      let arena := foldl (fun a r => push_deferred_retract a
        {| dr_after_entity_index := anchor; dr_length := rs_length r; dr_speed := rs_speed r;
           dr_is_unretract := rs_is_unretract r; dr_mode := rs_mode r |}) arena (po_retracts c) in
      let arena := foldl (fun a t => push_deferred_travel_move a
        {| dtm_after_entity_index := anchor; dtm_x := td_x t; dtm_y := td_y t; dtm_z := td_z t;
           dtm_f := td_f t |}) arena (po_travel_moves c) in
      (arena, Ok tt)
  end.

Definition apply_path_optimization (arena : LayerArena) (c : PathOptimizationCommit)
    (ctx : StageApplyContext) : exec (LayerArena * result unit LayerStageError) :=
  let! ordered := match po_order_proposal c with
                  | Some proposal => apply_entity_order_proposal arena proposal
                  | None => Done (arena, Ok tt)
                  end in
  match ordered with
  | (arena, Err message) =>
      Done (arena, Err (FatalModule (ctx_stage_id ctx) (ctx_module_id ctx) message))
  | (arena, Ok _) => Done (push_side_effects ctx arena c)
  end.

(** ** The commit *)

(** Two commits in sequence, the second only after the success of the first. *)
Definition and_then (m : exec (LayerArena * result unit LayerStageError))
    (k : LayerArena -> exec (LayerArena * result unit LayerStageError))
    : exec (LayerArena * result unit LayerStageError) :=
  let! out := m in
  match out with
  | (arena, Err e) => Done (arena, Err e)
  | (arena, Ok _) => k arena
  end.

Definition apply (arena : LayerArena) (commit : LayerStageCommit) (ctx : StageApplyContext)
    : exec (LayerArena * result unit LayerStageError) :=
  match commit with
  | CommitSeedLayerCollection lc =>
      let '(arena, _) := take_layer_collection arena in
      Done (set_layer_collection arena lc, Ok tt)
  | CommitAnchoredEvents collections => apply_anchored_events arena collections ctx
  | CommitPerimeters ir => apply_perimeters arena ir ctx
  | CommitPerimetersPostProcess incoming => apply_perimeters_post_process arena incoming ctx
  | CommitInfill ir => apply_infill arena ir
  | CommitInfillPostProcess ir => apply_infill_post_process arena ir
  | CommitSupport ir => apply_support arena ir
  | CommitSupportWithAnchoredEvents support anchored =>
      and_then (apply_support arena support) (fun arena => apply_anchored_events arena anchored ctx)
  | CommitSupportPostProcess ir => apply_support_post_process arena ir
  | CommitSupportPostProcessWithAnchoredEvents support anchored =>
      and_then (apply_support_post_process arena support)
        (fun arena => apply_anchored_events arena anchored ctx)
  | CommitSlicePostProcess polygon_updates path_z_updates =>
      apply_slice_post_process arena polygon_updates path_z_updates ctx
  | CommitPathOptimization c => apply_path_optimization arena c ctx
  end.
End commit.

(** ** Taking a slot before setting it *)

Section commit_spec.
Context {P : PrepassTypes}.
#[local] Existing Instance layer_types.
Context (boolean_op_tree_64 : ClipOperation -> list (list Point2) -> list (list Point2) -> PolyPath).
Context (split_message : SplitError -> string) (show_f32 : f32 -> string).

Notation apply := (apply boolean_op_tree_64 split_message show_f32).
Notation do_sync := (sync boolean_op_tree_64 split_message).

(** Everything but the perimeter, the slice with what is derived from it, and the infill. *)
Definition other_slots (a : LayerArena) :=
  (arena_support a, support_routing_diagnostics a, layer_collection a, anchored_event_collections a,
   deferred_tool_changes a, deferred_annotations a, deferred_z_hops a, deferred_retracts a,
   deferred_travel_moves a).

Definition conflict_free (out : exec (LayerArena * result unit LayerStageError)) : Prop :=
  forall arena' source, out <> Done (arena', Err (ArenaCommit source)).

Lemma sync_frame arena layer_index arena' r :
  do_sync arena layer_index = Done (arena', r) ->
  arena_infill arena' = arena_infill arena /\ arena_perimeter arena' = arena_perimeter arena /\
  other_slots arena' = other_slots arena /\ forall source, r <> Err (ArenaCommit source).
Proof.
  unfold sync, sync_perimeter_infill_areas_into_slice, take_slice. cbv zeta.
  cbn [arena_slice arena_perimeter with_arena_slice with_arena_prepared_regions
    with_arena_prepared_perimeter_source_regions].
  destruct (arena_slice arena) as [slice|]; [|by intros [= <- <-]].
  cbn [arena_slice arena_perimeter with_arena_slice with_arena_prepared_regions
    with_arena_prepared_perimeter_source_regions].
  destruct (arena_perimeter arena) as [perimeter|] eqn:Hp; [|by intros [= <- <-]].
  destruct (map_exec _ _) as [regions| |]; cbn [exec_bind]; [|done..].
  destruct (split_modifier_footprints _ _) as [[slice' [[]|e]]| |]; cbn [exec_bind]; [| |done..];
    by intros [= <- <-].
Qed.

Lemma commit_raft_frame arena rafts arena' r :
  commit_raft arena rafts = (arena', r) ->
  r = Ok tt /\ arena_infill arena' = arena_infill arena /\ arena_perimeter arena' = arena_perimeter arena /\
  other_slots arena' = other_slots arena.
Proof.
  unfold commit_raft, take_slice. destruct rafts as [|raft rafts]; [by intros [= <- <-]|]. cbv zeta.
  cbn [arena_slice with_arena_slice with_arena_prepared_regions with_arena_prepared_perimeter_source_regions].
  destruct (arena_slice arena); by intros [= <- <-].
Qed.

Lemma push_z_hops_frame ctx anchor arena hops arena' r :
  push_z_hops show_f32 ctx anchor arena hops = (arena', r) ->
  (exists hs, arena' = with_deferred_z_hops arena (deferred_z_hops arena ++ hs)) /\
  (r = Ok tt <-> Forall (fun h => valid_hop h = true) hops) /\
  (r = Ok tt -> arena' = with_deferred_z_hops arena (deferred_z_hops arena ++
     ((fun h => {| zh_after_entity_index := anchor; zh_hop_height := h |}) <$> hops))) /\
  (forall source, r <> Err (ArenaCommit source)).
Proof.
  revert arena. induction hops as [|h hops IH]; intros arena; cbn [push_z_hops].
  - intros [= <- <-]. split; [exists []; rewrite app_nil_r; by destruct arena |].
    split; [split; [constructor | done] |]. split; [intros _; cbn [fmap list_fmap]; rewrite app_nil_r; by destruct arena | done].
  - destruct (negb (f32_is_finite h) || f32_leb h ZERO) eqn:Hh.
    + intros [= <- <-]. split; [exists []; rewrite app_nil_r; by destruct arena |].
      split; [|done]. split; [done |]. intros [Hv _]%Forall_cons. unfold valid_hop in Hv.
      by destruct (f32_is_finite h), (f32_leb h ZERO).
    + intros Hr. destruct (IH _ Hr) as ((hs & Ha) & Hok & Hf & Hs).
      cbn [deferred_z_hops push_deferred_z_hop with_deferred_z_hops] in *. split; [|split; [|split; [|done]]].
      * exists ({| zh_after_entity_index := anchor; zh_hop_height := h |} :: hs). rewrite Ha.
        rewrite <- (assoc_L (++)). by destruct arena.
      * rewrite Hok. split; [|by intros [_ ?]%Forall_cons]. intros HF. constructor; [|done].
        unfold valid_hop. by destruct (f32_is_finite h), (f32_leb h ZERO).
      * intros Hrt. rewrite (Hf Hrt), <- (assoc_L (++)). by destruct arena.
Qed.

Lemma fold_tool_changes (l : list ToolChange) (a : LayerArena) :
  foldl push_deferred_tool_change a l = with_deferred_tool_changes a (deferred_tool_changes a ++ l).
Proof.
  revert a. induction l as [|x l IH]; intros a; simpl; [rewrite app_nil_r; by destruct a |].
  rewrite IH. simpl. rewrite <- (assoc_L (++)). by destruct a.
Qed.

Lemma fold_annotations {X} (f : X -> LayerIr.LayerAnnotation) l (a : LayerArena) :
  foldl (fun a x => push_deferred_annotation a (f x)) a l =
  with_deferred_annotations a (deferred_annotations a ++ (f <$> l)).
Proof.
  revert a. induction l as [|x l IH]; intros a; simpl; [rewrite app_nil_r; by destruct a |].
  rewrite IH. simpl. rewrite <- (assoc_L (++)). by destruct a.
Qed.

Lemma fold_retracts {X} (f : X -> DeferredRetract) l (a : LayerArena) :
  foldl (fun a x => push_deferred_retract a (f x)) a l =
  with_deferred_retracts a (deferred_retracts a ++ (f <$> l)).
Proof.
  revert a. induction l as [|x l IH]; intros a; simpl; [rewrite app_nil_r; by destruct a |].
  rewrite IH. simpl. rewrite <- (assoc_L (++)). by destruct a.
Qed.

Lemma fold_travel_moves {X} (f : X -> DeferredTravelMove) l (a : LayerArena) :
  foldl (fun a x => push_deferred_travel_move a (f x)) a l =
  with_deferred_travel_moves a (deferred_travel_moves a ++ (f <$> l)).
Proof.
  revert a. induction l as [|x l IH]; intros a; simpl; [rewrite app_nil_r; by destruct a |].
  rewrite IH. simpl. rewrite <- (assoc_L (++)). by destruct a.
Qed.

(** What an order proposal can change. *)
Lemma order_proposal_frame arena proposal arena' r :
  apply_entity_order_proposal arena proposal = Done (arena', r) ->
  exists lc, arena' = with_layer_collection arena lc /\ (r <> Ok tt -> arena' = arena).
Proof.
  unfold apply_entity_order_proposal, take_layer_collection.
  destruct (layer_collection arena) as [lc|] eqn:Hlc.
  2: { intros [= <- <-]. exists None. split; [by destruct arena; simpl in *; subst | done]. }
  destruct (validate_entity_order_locks _ _) as [[]|e].
  2: { intros [= <- <-]. exists (Some lc). split; [by destruct arena; simpl in *; subst | done]. }
  destruct (apply_order_proposal_spec reverse_points with_topo_order (ordered_entities lc) proposal)
    as [(e & _ & ->) | (_ & out & -> & _)]; simpl; intros [= <- <-]; eexists; (split; [done |]); [|done].
  intros _. destruct arena, lc. simpl in *. by rewrite Hlc.
Qed.

(** The layer a collection is for. *)
Definition collection_layer (lc : LayerCollectionIR) : Z * f32 := (lc_global_layer_index lc, lc_z lc).

Lemma order_proposal_keeps_layer arena proposal arena' r :
  apply_entity_order_proposal arena proposal = Done (arena', r) ->
  collection_layer <$> layer_collection arena' = collection_layer <$> layer_collection arena.
Proof.
  unfold apply_entity_order_proposal, take_layer_collection.
  destruct (layer_collection arena) as [lc|] eqn:Hlc; [|intros [= <- <-]; by rewrite Hlc].
  destruct (validate_entity_order_locks _ _) as [[]|e]; [|intros [= <- <-]; by rewrite Hlc].
  destruct (apply_order_proposal _ _ _ _) as [[es r']| |]; cbn [exec_bind]; [|done..]. by intros [= <- <-].
Qed.

(** ** No commit meets an occupied slot *)

Lemma take_set_perimeter (arena : LayerArena) ir :
  set_perimeter (take_perimeter arena).1 ir = (with_arena_perimeter arena (Some ir), Ok tt).
Proof. done. Qed.

Lemma apply_anchored_frame arena collections ctx arena' r :
  apply_anchored_events show_f32 arena collections ctx = Done (arena', r) ->
  (forall source, r <> Err (ArenaCommit source)) /\ (r <> Ok tt -> arena' = arena) /\
  exists cs, arena' = with_anchored_event_collections arena cs.
Proof.
  unfold apply_anchored_events. destruct (for_each _ _) as [[]|message].
  - destruct (commit_ordered_event_collections _) as [cs| |]; cbn [exec_bind]; [|done..].
    intros [= <- <-]. split; [done |]. split; [done |]. by eexists.
  - intros [= <- <-]. split; [done |]. split; [done |].
    exists (anchored_event_collections arena). by destruct arena.
Qed.

Lemma apply_support_effect arena ir :
  exists diagnostics ir', apply_support boolean_op_tree_64 arena ir =
    Done (with_arena_support (with_support_routing_diagnostics arena diagnostics) (Some ir'), Ok tt).
Proof.
  unfold apply_support, take_support. cbv zeta. destruct (arena_support arena) as [existing|].
  2: { exists (support_routing_diagnostics arena), ir. by destruct arena. }
  assert (Hpush : forall l a, exists d, foldl push_diagnostics a l = with_support_routing_diagnostics a d).
  { assert (H1 : forall e a, exists d, push_diagnostics a e = with_support_routing_diagnostics a d).
    { intros e. unfold push_diagnostics. induction (se_demand_ids e) as [|x l IH]; intros a; simpl.
      - exists (support_routing_diagnostics a). by destruct a.
      - destruct (IH (push_support_routing_diagnostic a
          {| srd_family_id := se_family_id e; srd_body_id := se_body_id e;
             srd_demand_id := x; srd_reason := conflict_reason |})) as [d ->]. by exists d. }
    intros l. induction l as [|e l IH]; intros a; simpl.
    - exists (support_routing_diagnostics a). by destruct a.
    - destruct (H1 e a) as [d ->], (IH (with_support_routing_diagnostics a d)) as [d' ->]. by exists d'. }
  destruct (Hpush (dropped_existing boolean_op_tree_64 (su_entries existing) (su_entries ir)) (with_arena_support arena None))
    as [d1 ->].
  destruct (Hpush (dropped_incoming boolean_op_tree_64 (su_entries existing) (su_entries ir))
              (with_support_routing_diagnostics (with_arena_support arena None) d1)) as [d2 ->].
  by eexists d2, _.
Qed.

Lemma remap_order_lock_error paths next :
  match slicer_runtime_order_lock_remap paths next with
  | (_, _, Err (OrderLockViolation _)) | (_, _, Ok _) => True
  | _ => False
  end.
Proof. unfold slicer_runtime_order_lock_remap. by destruct (remap_order_locks_to_global _ _) as [[? ?] []]. Qed.

Lemma remap_infill_error ir next :
  match remap_infill_order_locks_from ir next with
  | (_, Err (OrderLockViolation _)) | (_, Ok _) => True
  | _ => False
  end.
Proof.
  unfold remap_infill_order_locks_from. generalize (inf_regions ir). intros rs.
  enough (H : match remap_regions rs next with (_, Err (OrderLockViolation _)) | (_, Ok _) => True | _ => False end)
    by (by destruct (remap_regions rs next)).
  revert next. induction rs as [|r rs IH]; intros next; simpl; [done |].
  pose proof (remap_order_lock_error (sparse_infill r) next) as Hr.
  destruct (slicer_runtime_order_lock_remap _ _) as [[? n] [[]|[]]]; [|done..].
  specialize (IH n). by destruct (remap_regions rs n).
Qed.

(** What a failed commit leaves in the arena. *)
Definition failed (commit : LayerStageCommit) (arena arena' : LayerArena) : Prop :=
  match commit with
  | CommitInfill _ | CommitInfillPostProcess _ | CommitAnchoredEvents _ => arena' = arena
  | CommitSlicePostProcess _ _ => arena' = (take_slice arena).1
  | CommitSupportWithAnchoredEvents _ _ | CommitSupportPostProcessWithAnchoredEvents _ _ =>
      anchored_event_collections arena' = anchored_event_collections arena
  | CommitPathOptimization c =>
      arena' = arena \/
      deferred_tool_changes arena' = deferred_tool_changes arena ++ po_tool_changes c /\
      deferred_annotations arena' = deferred_annotations arena /\
      deferred_retracts arena' = deferred_retracts arena /\
      deferred_travel_moves arena' = deferred_travel_moves arena
  | CommitPerimeters _ | CommitPerimetersPostProcess _ => True
  | CommitSeedLayerCollection _ | CommitSupport _ | CommitSupportPostProcess _ => False
  end.

Definition without_slice (a : LayerArena) : LayerArena := (take_slice a).1.

(** The arena without the slots that a commit of the kind writes. *)
Definition erase (commit : LayerStageCommit) (a : LayerArena) : LayerArena :=
  match commit with
  | CommitSeedLayerCollection _ => with_layer_collection a None
  | CommitAnchoredEvents _ => with_anchored_event_collections a None
  | CommitPerimeters _ | CommitPerimetersPostProcess _ => with_arena_perimeter (without_slice a) None
  | CommitInfill _ => with_arena_infill (without_slice a) None
  | CommitInfillPostProcess _ => with_arena_infill a None
  | CommitSupport _ => with_arena_support (with_support_routing_diagnostics a []) None
  | CommitSupportPostProcess _ => with_arena_support a None
  | CommitSupportWithAnchoredEvents _ _ => with_anchored_event_collections
      (with_arena_support (with_support_routing_diagnostics a []) None) None
  | CommitSupportPostProcessWithAnchoredEvents _ _ =>
      with_anchored_event_collections (with_arena_support a None) None
  | CommitSlicePostProcess _ _ => without_slice a
  | CommitPathOptimization _ => with_layer_collection (with_deferred_tool_changes
      (with_deferred_annotations (with_deferred_z_hops (with_deferred_retracts
        (with_deferred_travel_moves a []) []) []) []) []) None
  end.

(** A commit that ends keeps to its slots, does not meet an occupied slot, and fails as [failed] says. *)
Definition outcome (arena : LayerArena) (commit : LayerStageCommit)
    (out : exec (LayerArena * result unit LayerStageError)) : Prop :=
  forall arena' r, out = Done (arena', r) ->
    erase commit arena' = erase commit arena /\ (forall source, r <> Err (ArenaCommit source)) /\
    (r <> Ok tt -> failed commit arena arena').

Ltac ends := intros ? ? [= <- <-]; split; [done |]; split; done.

Lemma arena_by_slots (a a' : LayerArena) :
  other_slots a' = other_slots a -> arena_infill a' = arena_infill a ->
  with_arena_perimeter (without_slice a') None = with_arena_perimeter (without_slice a) None.
Proof. unfold other_slots. destruct a, a'. cbn. by intros [= -> -> -> -> -> -> -> -> ->] ->. Qed.

Lemma sync_outcome arena layer_index a0 commit :
  (forall a, erase commit a = with_arena_perimeter (without_slice a) None) ->
  with_arena_perimeter a0 None = with_arena_perimeter arena None ->
  (forall a a', failed commit a a') ->
  outcome arena commit (do_sync a0 layer_index).
Proof.
  intros He H0 Hf a' r Hs. apply sync_frame in Hs as (Hi & Hp & Ho & Hr). split; [|split; [done | intros _; apply Hf]].
  rewrite !He. apply arena_by_slots.
  - rewrite Ho. exact (f_equal other_slots H0).
  - rewrite Hi. exact (f_equal arena_infill H0).
Qed.

Lemma perimeters_outcome arena ir ctx :
  outcome arena (CommitPerimeters ir) (apply_perimeters boolean_op_tree_64 split_message arena ir ctx).
Proof. unfold apply_perimeters, take_perimeter. cbn [staged]. by apply sync_outcome. Qed.

Lemma perimeters_post_outcome arena incoming ctx :
  outcome arena (CommitPerimetersPostProcess incoming)
    (apply_perimeters_post_process boolean_op_tree_64 split_message arena incoming ctx).
Proof.
  unfold apply_perimeters_post_process, take_perimeter. cbv beta iota zeta.
  generalize (match ctx_seam_plan ctx with
    | Some seam_plan => match arena_perimeter arena with
        | Some orig => Some (backfill_resolved_seam orig seam_plan (ctx_layer_index ctx))
        | None => arena_perimeter arena end
    | None => arena_perimeter arena end).
  intros original. destruct incoming as [ir|], original as [orig|]; cbn [staged]; try (by apply sync_outcome).
  intros ? ? [= <- <-]. done.
Qed.

Lemma infill_outcome arena ir : outcome arena (CommitInfill ir) (apply_infill arena ir).
Proof.
  unfold apply_infill. pose proof (remap_infill_error ir (next_tag arena)) as He.
  destruct (remap_infill_order_locks_from _ _) as [ir' [[]|e]].
  2: { intros ? ? [= <- <-]. split; [done |]. split; [|done]. by intros source [= ->]. }
  destruct (commit_raft arena (inf_raft_regions ir')) as [a r] eqn:Hr.
  assert (Hw : erase (CommitInfill ir) a = erase (CommitInfill ir) arena).
  { apply commit_raft_frame in Hr as (_ & _ & Hp & Ho). destruct a, arena. cbn in *. injection Ho. intros. by subst. }
  apply commit_raft_frame in Hr as (-> & _). unfold take_infill.
  destruct (arena_infill a); cbn; intros ? ? [= <- <-]; split_and!; try done; by rewrite <- Hw.
Qed.

Lemma infill_post_outcome arena ir :
  outcome arena (CommitInfillPostProcess ir) (apply_infill_post_process arena ir).
Proof.
  unfold apply_infill_post_process.
  destruct (match arena_infill arena with
            | Some previous => validate_infill_order_locks previous ir
            | None => Done (Ok tt) end) as [[[]|message]| |]; cbn [exec_bind]; [|by ends|by intros ? ?..].
  pose proof (remap_infill_error ir (next_tag arena)) as He.
  destruct (remap_infill_order_locks_from _ _) as [ir' [[]|e]]; [by ends |].
  intros ? ? [= <- <-]. split; [done |]. split; [|done]. by intros source [= ->].
Qed.

Lemma anchored_outcome arena collections ctx :
  outcome arena (CommitAnchoredEvents collections) (apply_anchored_events show_f32 arena collections ctx).
Proof.
  intros a' r Ha. apply apply_anchored_frame in Ha as (Hr & Hf & cs & ->). by split_and!.
Qed.

Lemma slice_outcome arena polygons zs ctx :
  outcome arena (CommitSlicePostProcess polygons zs) (apply_slice_post_process arena polygons zs ctx).
Proof.
  assert (Hpoly : forall us s e, apply_polygon_updates ctx s us = Err e -> forall source, e <> ArenaCommit source).
  { induction us as [|[i [key polys]] us IH]; intros s e; simpl; [done |].
    destruct (region_position s key); [apply IH | by intros [= <-]]. }
  assert (Hz : forall s u e, check_z_update ctx s u = Err e -> forall source, e <> ArenaCommit source).
  { intros s [i [[[key p] v] z]] e. unfold check_z_update. repeat case_match; by intros [= <-]. }
  unfold apply_slice_post_process, take_slice. cbv zeta. cbn [arena_slice with_arena_prepared_regions
    with_arena_prepared_perimeter_source_regions].
  destruct (arena_slice arena) as [slice|]; [|by ends].
  destruct (apply_polygon_updates _ _ _) as [s|e] eqn:He.
  2: { intros ? ? [= <- <-]. split; [done |]. split; [|done]. intros source [= ->]. by eapply Hpoly. }
  destruct (for_each _ _) as [[]|e] eqn:Hfe; [by ends |].
  intros ? ? [= <- <-]. split; [done |]. split; [|done]. intros source [= ->]. revert Hfe. generalize (enumerate zs). intros l.
  induction l as [|u l IH]; simpl; [done |]. destruct (check_z_update ctx s u) as [[]|e] eqn:Hu; [done |].
  intros [= ->]. by eapply Hz.
Qed.

(** ** Side effects of path optimisation *)

Lemma push_side_effects_spec ctx (arena arena' : LayerArena) c r :
  push_side_effects show_f32 ctx arena c = (arena', r) ->
  let anchor := end_of_layer_anchor arena in
  layer_collection arena' = layer_collection arena /\
  erase (CommitPathOptimization c) arena' = erase (CommitPathOptimization c) arena /\
  deferred_tool_changes arena' = deferred_tool_changes arena ++ po_tool_changes c /\
  (forall source, r <> Err (ArenaCommit source)) /\
  (r = Ok tt <-> Forall (fun h => valid_hop h = true) (po_z_hops c)) /\
  (r <> Ok tt ->
     deferred_annotations arena' = deferred_annotations arena /\
     deferred_retracts arena' = deferred_retracts arena /\
     deferred_travel_moves arena' = deferred_travel_moves arena) /\
  (r = Ok tt ->
     deferred_z_hops arena' = deferred_z_hops arena ++
       ((fun h => {| zh_after_entity_index := anchor; zh_hop_height := h |}) <$> po_z_hops c) /\
     deferred_annotations arena' = deferred_annotations arena ++
       ((fun k => {| la_after_entity_index := anchor; la_kind := k |}) <$> po_annotations c) /\
     deferred_retracts arena' = deferred_retracts arena ++
       ((fun x => {| dr_after_entity_index := anchor; dr_length := rs_length x; dr_speed := rs_speed x;
                     dr_is_unretract := rs_is_unretract x; dr_mode := rs_mode x |}) <$> po_retracts c) /\
     deferred_travel_moves arena' = deferred_travel_moves arena ++
       ((fun t => {| dtm_after_entity_index := anchor; dtm_x := td_x t; dtm_y := td_y t; dtm_z := td_z t;
                     dtm_f := td_f t |}) <$> po_travel_moves c)).
Proof.
  intros H anchor. revert H. unfold push_side_effects. fold anchor. rewrite fold_tool_changes.
  destruct (push_z_hops _ _ _ _ _) as [a [[]|e]] eqn:Hz; apply push_z_hops_frame in Hz as ((hs & Ha) & Hok & Hv & Hs).
  - rewrite fold_annotations, fold_retracts, fold_travel_moves. rewrite (Hv eq_refl).
    intros [= <- <-]. by split_and!.
  - intros [= <- <-]. rewrite Ha. by split_and!.
Qed.

Lemma path_outcome arena c ctx :
  outcome arena (CommitPathOptimization c) (apply_path_optimization show_f32 arena c ctx).
Proof.
  unfold apply_path_optimization.
  destruct (match po_order_proposal c with
            | Some proposal => apply_entity_order_proposal arena proposal
            | None => Done (arena, Ok tt) end) as [[a [[]|message]]| |] eqn:Ho; cbn [exec_bind]; [| |by intros ? ?..].
  - assert (Hlc : exists lc, a = with_layer_collection arena lc).
    { destruct (po_order_proposal c) as [proposal|].
      - apply order_proposal_frame in Ho as (lc & -> & _). by exists lc.
      - injection Ho as <-. exists (layer_collection arena). by destruct arena. }
    destruct Hlc as [lc ->]. intros a' r [= Hp].
    apply push_side_effects_spec in Hp as (_ & He & Ht & Hr & _ & Hf & _). rewrite He.
    split; [done |]. split; [done |]. intros Hne. right. by split; [|apply Hf].
  - intros ? ? [= <- <-].
    assert (Ha : a = arena).
    { destruct (po_order_proposal c) as [proposal|]; [|done].
      apply order_proposal_frame in Ho as (lc & _ & Ha). by apply Ha. }
    subst a. split; [done |]. split; [done | by left].
Qed.

(** ** The claims on a commit as a whole *)

Lemma commit_outcome arena commit ctx : outcome arena commit (apply arena commit ctx).
Proof.
  destruct commit as [ir|incoming|ir|ir|ir|ir anchored|ir|ir anchored|polygons zs|c|collections|lc]; cbn [apply].
  - apply perimeters_outcome.
  - apply perimeters_post_outcome.
  - apply infill_outcome.
  - apply infill_post_outcome.
  - destruct (apply_support_effect arena ir) as (d & ir' & ->). by ends.
  - destruct (apply_support_effect arena ir) as (d & ir' & ->). cbn [and_then exec_bind].
    intros a' r Ha. apply apply_anchored_frame in Ha as (Hr & Hf & cs & ->).
    split; [done |]. split; [done |]. intros Hne. by rewrite (Hf Hne).
  - by ends.
  - cbn. intros a' r Ha. apply apply_anchored_frame in Ha as (Hr & Hf & cs & ->).
    split; [done |]. split; [done |]. intros Hne. by rewrite (Hf Hne).
  - apply slice_outcome.
  - apply path_outcome.
  - apply anchored_outcome.
  - by ends.
Qed.

(** [C14].  A commit writes only the slots of its kind: everything else in the arena is as
    before.  It never meets an occupied slot, because every slot is emptied before it is
    set.  Seeding a layer and committing support without anchored events cannot fail; a
    failed infill or anchored-events commit leaves the arena as it was; a failed
    slice post-processing leaves the arena without its slice; a path optimisation
    that fails on a lift leaves the tool changes it had pushed and none of the annotations,
    retractions and travels. *)
Theorem commit_writes_its_slots (arena arena' : LayerArena) (commit : LayerStageCommit)
    (ctx : StageApplyContext) (r : result unit LayerStageError)
    (Ha : apply arena commit ctx = Done (arena', r)) :
  erase commit arena' = erase commit arena /\
  (forall source, r <> Err (ArenaCommit source)) /\
  (r <> Ok tt -> failed commit arena arena').
Proof. by apply commit_outcome in Ha. Qed.

(** Path optimisation: it succeeds exactly when the proposed order, if there is one, is
    accepted and every lift is finite and positive, and then every tool change, lift,
    annotation, retraction and travel is appended to its queue in order, all but the
    tool changes anchored after the last entity of the layer. *)
Theorem path_optimization_applied (arena : LayerArena) (c : PathOptimizationCommit) (ctx : StageApplyContext)
    (ordered : LayerArena) (accepted : result unit string)
    (Ho : match po_order_proposal c with
          | Some proposal => apply_entity_order_proposal arena proposal
          | None => Done (arena, Ok tt)
          end = Done (ordered, accepted)) :
  exists arena' r, apply arena (CommitPathOptimization c) ctx = Done (arena', r) /\
    (r = Ok tt <-> accepted = Ok tt /\ Forall (fun h => valid_hop h = true) (po_z_hops c)) /\
    (r = Ok tt ->
       let anchor := wrap_u32 (match layer_collection ordered with
                               | Some lc => Z.of_nat (length (ordered_entities lc) - 1) | None => 0 end) in
       layer_collection arena' = layer_collection ordered /\
       deferred_tool_changes arena' = deferred_tool_changes arena ++ po_tool_changes c /\
       deferred_z_hops arena' = deferred_z_hops arena ++
         ((fun h => {| zh_after_entity_index := anchor; zh_hop_height := h |}) <$> po_z_hops c) /\
       deferred_annotations arena' = deferred_annotations arena ++
         ((fun k => {| la_after_entity_index := anchor; la_kind := k |}) <$> po_annotations c) /\
       deferred_retracts arena' = deferred_retracts arena ++
         ((fun x => {| dr_after_entity_index := anchor; dr_length := rs_length x; dr_speed := rs_speed x;
                       dr_is_unretract := rs_is_unretract x; dr_mode := rs_mode x |}) <$> po_retracts c) /\
       deferred_travel_moves arena' = deferred_travel_moves arena ++
         ((fun t => {| dtm_after_entity_index := anchor; dtm_x := td_x t; dtm_y := td_y t; dtm_z := td_z t;
                       dtm_f := td_f t |}) <$> po_travel_moves c)).
Proof.
  cbn [apply]. unfold apply_path_optimization. rewrite Ho. cbn [exec_bind].
  destruct accepted as [[]|message].
  2: { eexists _, _. split; [done |]. by split; [split; [done | intros [? _]] |]. }
  destruct (push_side_effects show_f32 ctx ordered c) as [a r] eqn:Hp. exists a, r. split; [done |].
  apply push_side_effects_spec in Hp as (Hlc & _ & Ht & _ & Hok & _ & Hq).
  split; [rewrite Hok; by split; [|intros [_ ?]] |]. intros Hr. specialize (Hq Hr).
  assert (Hd : exists lc, ordered = with_layer_collection arena lc).
  { destruct (po_order_proposal c) as [proposal|].
    - apply order_proposal_frame in Ho as (lc & -> & _). by exists lc.
    - injection Ho as <-. exists (layer_collection arena). by destruct arena. }
  assert (Hanchor : wrap_u32 (match layer_collection ordered with
      | Some lc => Z.of_nat (length (ordered_entities lc) - 1) | None => 0 end) = end_of_layer_anchor ordered)
    by (unfold end_of_layer_anchor; by destruct (layer_collection ordered)).
  rewrite Hanchor. destruct Hd as [lc ->]. destruct Hq as (? & ? & ? & ?). by split_and!.
Qed.

(** The vertex heights of a slice post-processing commit are checked and then dropped:
    two commits that both succeed and have the same polygon updates leave the same
    arena, whatever heights they ask for. *)
Theorem z_updates_have_no_effect (arena a1 a2 : LayerArena) (polygons : list (RegionKey * list ExPolygon))
    (zs1 zs2 : list (RegionKey * Z * Z * f32)) (ctx : StageApplyContext)
    (H1 : apply arena (CommitSlicePostProcess polygons zs1) ctx = Done (a1, Ok tt))
    (H2 : apply arena (CommitSlicePostProcess polygons zs2) ctx = Done (a2, Ok tt)) :
  a1 = a2.
Proof.
  revert H1 H2. cbn [apply]. unfold apply_slice_post_process. destruct (take_slice arena) as [a [slice|]]; [|done].
  destruct (apply_polygon_updates _ _ _) as [s|e]; [|done].
  do 2 (destruct (for_each _ _) as [[]|]; [|done]). congruence.
Qed.

(** ** Conflicts between support families *)

Lemma push_diagnostics_spec (l : list SupportEntry) (a : LayerArena) :
  foldl push_diagnostics a l = with_support_routing_diagnostics a (support_routing_diagnostics a ++
    flat_map (fun e => (fun d => {| srd_family_id := se_family_id e; srd_body_id := se_body_id e;
                                    srd_demand_id := d; srd_reason := conflict_reason |}) <$> se_demand_ids e) l).
Proof.
  assert (H1 : forall e b, push_diagnostics b e = with_support_routing_diagnostics b
     (support_routing_diagnostics b ++
      ((fun d => {| srd_family_id := se_family_id e; srd_body_id := se_body_id e;
                    srd_demand_id := d; srd_reason := conflict_reason |}) <$> se_demand_ids e))).
  { intros e. unfold push_diagnostics. induction (se_demand_ids e) as [|x ds IH]; intros b; simpl.
    - rewrite app_nil_r. by destruct b.
    - rewrite IH. cbn. by rewrite <- (assoc_L (++)). }
  revert a. induction l as [|e l IH]; intros a; simpl.
  - rewrite app_nil_r. by destruct a.
  - rewrite H1, IH. cbn. by rewrite <- (assoc_L (++)).
Qed.

(** [C35].  Committing support onto support: an entry of either side is dropped exactly when
    the swept paths of an entry of another family on the other side overlap its own; the
    entries kept stay in order, the existing ones first, and no two of them from
    different sides conflict.  Every demand of a dropped entry is diagnosed, and nothing else. *)
Theorem support_conflicts_resolved (arena : LayerArena) (existing incoming : SupportIR) (ctx : StageApplyContext)
    (Hs : arena_support arena = Some existing) :
  let conflict := conflicting boolean_op_tree_64 in
  exists arena' merged old new ds,
    apply arena (CommitSupport incoming) ctx = Done (arena', Ok tt) /\
    arena_support arena' = Some merged /\ su_entries merged = old ++ new /\
    old `sublist_of` su_entries existing /\ new `sublist_of` su_entries incoming /\
    (forall e, e ∈ old <-> e ∈ su_entries existing /\ forall i, i ∈ su_entries incoming -> conflict i e = false) /\
    (forall i, i ∈ new <-> i ∈ su_entries incoming /\ forall e, e ∈ su_entries existing -> conflict i e = false) /\
    (forall e i, e ∈ old -> i ∈ new ->
       se_family_id i = se_family_id e \/ support_entries_overlap boolean_op_tree_64 i e = false) /\
    support_routing_diagnostics arena' = support_routing_diagnostics arena ++ ds /\
    forall d, d ∈ ds <-> srd_reason d = conflict_reason /\
      exists e, (e ∈ su_entries existing /\ e ∉ old \/ e ∈ su_entries incoming /\ e ∉ new) /\
        srd_family_id d = se_family_id e /\ srd_body_id d = se_body_id e /\ srd_demand_id d ∈ se_demand_ids e.
Proof.
  intros conflict. cbn [apply]. unfold apply_support, take_support. rewrite Hs. cbn [su_entries staged].
  rewrite !push_diagnostics_spec. cbn.
  set (old := su_entries existing). set (new := su_entries incoming).
  assert (Hnone : forall {A} (f : A -> bool) l, existsb f l = false <-> forall x, x ∈ l -> f x = false).
  { intros A f l. rewrite <- not_true_iff_false, existsb_elem. split.
    - intros H x Hx. apply not_true_iff_false. intros Hf. apply H. by exists x.
    - intros H (x & Hx & Hf). by rewrite (H x Hx) in Hf. }
  assert (Hold : forall e, e ∈ kept_existing boolean_op_tree_64 old new <->
    e ∈ old /\ forall i, i ∈ new -> conflict i e = false).
  { intros e. unfold kept_existing. rewrite list_elem_of_filter, Hnone. tauto. }
  assert (Hnew : forall i, i ∈ kept_incoming boolean_op_tree_64 old new <->
    i ∈ new /\ forall e, e ∈ old -> conflict i e = false).
  { intros i. unfold kept_incoming. rewrite list_elem_of_filter, Hnone. tauto. }
  eexists _, _, (kept_existing boolean_op_tree_64 old new), (kept_incoming boolean_op_tree_64 old new), _.
  split; [reflexivity |]. split; [reflexivity |]. split; [reflexivity |].
  split; [apply filter_sublist |]. split; [apply filter_sublist |]. split; [done |]. split; [done |].
  split.
  { intros e i [He _]%Hold [_ Hi]%Hnew. specialize (Hi e He). unfold conflict, conflicting in Hi.
    apply andb_false_iff in Hi as [Hf | ?]; [left | by right]. apply negb_false_iff in Hf. by apply String.eqb_eq. }
  split; [by rewrite <- (assoc_L (++)) |].
  assert (Hdo : forall e, e ∈ dropped_existing boolean_op_tree_64 old new <->
    e ∈ old /\ e ∉ kept_existing boolean_op_tree_64 old new).
  { intros e. unfold dropped_existing, kept_existing. rewrite !list_elem_of_filter.
    destruct (existsb _ new); naive_solver. }
  assert (Hdn : forall i, i ∈ dropped_incoming boolean_op_tree_64 old new <->
    i ∈ new /\ i ∉ kept_incoming boolean_op_tree_64 old new).
  { intros i. unfold dropped_incoming, kept_incoming. rewrite !list_elem_of_filter.
    destruct (existsb _ old); naive_solver. }
  intros d. rewrite elem_of_app, !list_elem_of_In, !in_flat_map.
  setoid_rewrite <- list_elem_of_In. setoid_rewrite Hdo. setoid_rewrite Hdn.
  setoid_rewrite list_elem_of_fmap. destruct d as [f b dm rs]; cbn. split.
  - intros [(e & He & d0 & [= -> -> -> ->] & Hd) | (e & He & d0 & [= -> -> -> ->] & Hd)];
      (split; [done |]); exists e; split_and!; naive_solver.
  - intros (-> & e & [He | He] & -> & -> & Hd); [left | right]; exists e; (split; [done |]); by exists dm.
Qed.

(** ** Merging infill *)

(** The paths of one role that a key has, and the four roles. *)
Definition paths_at (role : InfillRegion -> list ExtrusionPath3D) (key : source_key) (rs : list InfillRegion)
    : list ExtrusionPath3D :=
  concat (role <$> filter (fun r => infill_key r = key) rs).

Definition infill_roles : list (InfillRegion -> list ExtrusionPath3D) :=
  [sparse_infill; solid_infill; ironing; internal_bridge_infill].

Lemma role_append role a b : role ∈ infill_roles -> role (append_region a b) = role a ++ role b.
Proof. unfold infill_roles. rewrite !elem_of_cons, elem_of_nil. by intros [-> | [-> | [-> | [-> | []]]]]. Qed.

Lemma merge_region_cases rs r :
  (infill_key r ∉ infill_key <$> rs /\ merge_region rs r = rs ++ [r]) \/
  exists l1 t l2, rs = l1 ++ t :: l2 /\ infill_key t = infill_key r /\ infill_key r ∉ infill_key <$> l1 /\
    merge_region rs r = l1 ++ append_region t r :: l2.
Proof.
  unfold merge_region. destruct (update_first _ _ rs) as [rs'|] eqn:Hu; simpl.
  - right. apply update_first_Some in Hu as (l1 & t & l2 & -> & -> & Ht%bool_decide_eq_true & Hl1).
    exists l1, t, l2. split_and!; [done | done | | done].
    intros (x & Hk & Hx)%list_elem_of_fmap. specialize (Hl1 x Hx). by apply bool_decide_eq_false in Hl1.
  - left. split; [|done]. intros (x & Hk & Hx)%list_elem_of_fmap.
    pose proof (proj1 (update_first_None _ _ _) Hu x Hx) as Hl. by apply bool_decide_eq_false in Hl.
Qed.

Lemma paths_at_app role key a b : paths_at role key (a ++ b) = paths_at role key a ++ paths_at role key b.
Proof. unfold paths_at. by rewrite filter_app, fmap_app, concat_app. Qed.

Lemma paths_at_cons role key r rs :
  paths_at role key (r :: rs) = (if decide (infill_key r = key) then role r else []) ++ paths_at role key rs.
Proof. unfold paths_at. rewrite filter_cons. by case_decide. Qed.

Lemma paths_at_absent role key rs : key ∉ infill_key <$> rs -> paths_at role key rs = [].
Proof.
  intros Hk. unfold paths_at. replace (filter _ rs) with (@nil InfillRegion); [done |]. symmetry.
  apply list_nil_elem. intros x [Hx Hin]%list_elem_of_filter. apply Hk. rewrite <- Hx. by apply list_elem_of_fmap_2.
Qed.

Lemma merge_region_spec rs r :
  NoDup (infill_key <$> rs) ->
  NoDup (infill_key <$> merge_region rs r) /\
  (forall k, k ∈ infill_key <$> merge_region rs r <-> k ∈ infill_key <$> rs \/ k = infill_key r) /\
  forall role key, role ∈ infill_roles ->
    paths_at role key (merge_region rs r) = paths_at role key rs ++ paths_at role key [r].
Proof.
  intros Hnd. destruct (merge_region_cases rs r) as [[Hk ->] | (l1 & t & l2 & -> & Ht & Hl1 & ->)].
  - rewrite fmap_app. split; [|split].
    + apply NoDup_app. split; [done |]. split; [|apply NoDup_singleton].
      by intros x Hx ->%list_elem_of_singleton.
    + intros k. rewrite elem_of_app. simpl. by rewrite list_elem_of_singleton.
    + intros role key _. apply paths_at_app.
  - rewrite !fmap_app, !fmap_cons in *. change (infill_key (append_region t r)) with (infill_key t).
    split; [done |]. split; [intros k; rewrite !elem_of_app, !elem_of_cons, Ht; tauto |].
    intros role key Hr. rewrite !paths_at_app, !paths_at_cons, role_append by done.
    change (infill_key (append_region t r)) with (infill_key t). rewrite Ht.
    change (paths_at role key []) with (@nil ExtrusionPath3D).
    apply NoDup_app in Hnd as (_ & _ & [Hnot _]%NoDup_cons). rewrite Ht in Hnot.
    case_decide as Hkey; [|by rewrite !app_nil_r]. subst key.
    rewrite (paths_at_absent role _ l2) by done. by rewrite !app_nil_r, <- !(assoc_L (++)).
Qed.

Lemma merge_regions_spec new rs :
  NoDup (infill_key <$> rs) ->
  let merged := foldl merge_region rs new in
  NoDup (infill_key <$> merged) /\
  (forall k, k ∈ infill_key <$> merged <-> k ∈ infill_key <$> rs \/ k ∈ infill_key <$> new) /\
  forall role key, role ∈ infill_roles ->
    paths_at role key merged = paths_at role key rs ++ paths_at role key new.
Proof.
  revert rs. induction new as [|r new IH]; intros rs Hnd; simpl.
  - split; [done |]. split; [intros k; rewrite elem_of_nil; tauto |]. intros. by rewrite app_nil_r.
  - destruct (merge_region_spec rs r Hnd) as (H1 & H2 & H3). destruct (IH _ H1) as (I1 & I2 & I3).
    split; [done |]. split.
    + intros k. rewrite I2, H2, elem_of_cons. tauto.
    + intros role key Hr. rewrite I3, H3, <- (assoc_L (++)) by done. f_equal.
      by rewrite <- paths_at_app.
Qed.

(** ** The locks in the arena *)

Definition global_lock (tag : Z) : Prop := is_u64 tag /\ is_local (Some tag) = false.

(** Infill as a module can return it: its tags are [u64]. *)
Definition typed (commit : LayerStageCommit) : Prop :=
  match commit with
  | CommitInfill ir | CommitInfillPostProcess ir => Forall is_u64 (sparse_locks ir)
  | _ => True
  end.

(** The arenas of a layer: any run of commits, failed ones included, each followed or not
    by the default infill of the post-processing stage. *)
Inductive layer_arena : LayerArena -> Prop :=
| arena_start a : arena_infill a = None -> layer_arena a
| arena_commit a commit ctx a' r : layer_arena a -> typed commit -> apply a commit ctx = Done (a', r) -> layer_arena a'
| arena_ensure a stage_id : layer_arena a -> layer_arena (ensure_infill_slot_committed a stage_id).

Definition locks_global (a : LayerArena) : Prop :=
  match arena_infill a with Some ir => Forall global_lock (sparse_locks ir) | None => True end.

Lemma lor_global_lock n : is_u64 n -> global_lock (Z.lor GLOBAL_BIT n).
Proof.
  unfold global_lock, is_u64, u64_max. intros Hn. split.
  - split; [apply Z.lor_nonneg; split; [done | lia] |].
    enough (Z.lor GLOBAL_BIT n < 2 ^ 64)%Z by lia.
    destruct (Z.eq_dec (Z.lor GLOBAL_BIT n) 0%Z) as [-> | Hne]; [done |].
    assert (0 <= Z.lor GLOBAL_BIT n)%Z by (apply Z.lor_nonneg; split; [done | lia]).
    apply Z.log2_lt_pow2; [lia |]. rewrite Z.log2_lor by (done || lia).
    assert (Z.log2 GLOBAL_BIT = 63)%Z as -> by done.
    destruct (Z.eq_dec n 0%Z) as [-> | Hn0]; [done |].
    assert (Z.log2 n < 64)%Z by (apply Z.log2_lt_pow2; lia). lia.
  - unfold is_local. apply Z.eqb_neq. intros Hz.
    assert (Hb : Z.testbit (Z.land (Z.lor GLOBAL_BIT n) GLOBAL_BIT) 63 = false) by (rewrite Hz; apply Z.bits_0).
    rewrite Z.land_spec, Z.lor_spec in Hb. assert (Hg : Z.testbit GLOBAL_BIT 63 = true) by reflexivity.
    rewrite Hg in Hb. done.
Qed.

Lemma remap_locks_global paths next out next' :
  is_u64 next -> Forall is_u64 (omap ep_order_lock paths) ->
  remap_order_locks_to_global paths next = (out, next', Ok tt) ->
  Forall global_lock (omap ep_order_lock out).
Proof.
  revert next out. induction paths as [|p paths IH]; intros next out Hn Hu; cbn [remap_order_locks_to_global].
  { intros [= <- <-]. constructor. }
  change (omap ep_order_lock (p :: paths)) with
    (match ep_order_lock p with Some t => t :: omap ep_order_lock paths | None => omap ep_order_lock paths end) in Hu.
  destruct (ep_order_lock p) as [tag|] eqn:Hp.
  - apply Forall_cons in Hu as [Ht Hu]. destruct (Z.eqb_spec (Z.land tag GLOBAL_BIT) 0%Z) as [Hz | Hz].
    + destruct (Z.eqb tag 0%Z); [done |].
      destruct (remap_order_locks_to_global paths _) as [[rest n] r] eqn:Hr. intros [= <- <- ->].
      apply IH in Hr; [|unfold is_u64 in *; pose proof (Z.mod_pos_bound (next + 1)%Z (u64_max + 1)%Z); unfold u64_max in *; lia | done].
      cbn. constructor; [by apply lor_global_lock | done].
    + destruct (Z.leb _ tag); [done |].
      destruct (remap_order_locks_to_global paths _) as [[rest n] r] eqn:Hr. intros [= <- <- ->].
      apply IH in Hr; [|done..]. cbn. rewrite Hp. constructor; [|done].
      split; [done |]. by apply Z.eqb_neq.
  - destruct (remap_order_locks_to_global paths _) as [[rest n] r] eqn:Hr. intros [= <- <- ->].
    apply IH in Hr; [|done..]. cbn. by rewrite Hp.
Qed.

Lemma remap_infill_locks_global ir ir' next :
  is_u64 next -> Forall is_u64 (sparse_locks ir) ->
  remap_infill_order_locks_from ir next = (ir', Ok tt) -> Forall global_lock (sparse_locks ir').
Proof.
  unfold remap_infill_order_locks_from, sparse_locks. intros Hn Hu Hr.
  pose proof (remap_regions_spec (inf_regions ir) next) as Hs.
  destruct (remap_regions (inf_regions ir) next) as [rs r]. injection Hr as <- ->.
  destruct (remap_order_locks_to_global _ next) as [[out n] r0] eqn:Hp.
  destruct Hs as [Hok Hc]. destruct (Hc eq_refl) as [Heq _]. rewrite (proj1 Hok eq_refl) in Hp.
  cbn [inf_regions with_inf_regions]. rewrite Heq. by eapply remap_locks_global.
Qed.

Lemma merge_sparse_perm new rs :
  concat (sparse_infill <$> foldl merge_region rs new) ≡ₚ
  concat (sparse_infill <$> rs) ++ concat (sparse_infill <$> new).
Proof.
  revert rs. induction new as [|r new IH]; intros rs; cbn [foldl]; [by rewrite app_nil_r |].
  rewrite IH, fmap_cons. cbn [concat]. rewrite (assoc_L (++)). apply Permutation_app_tail.
  destruct (merge_region_cases rs r) as [[_ ->] | (l1 & t & l2 & -> & _ & _ & ->)];
    rewrite ?fmap_app, ?fmap_cons, ?concat_app; cbn [concat fmap list_fmap append_region sparse_infill].
  - by rewrite app_nil_r.
  - rewrite <- !(assoc_L (++)). do 2 apply Permutation_app_head. apply Permutation_app_comm.
Qed.

Lemma next_tag_u64 a : locks_global a -> is_u64 (next_tag a).
Proof.
  unfold locks_global, next_tag. destruct (arena_infill a) as [ir|]; [|done]. intros Hl.
  destruct (next_global_spec ir) as [Hn _].
  - eapply Forall_impl; [exact Hl | by intros tag [? _]].
  - unfold is_u64, u64_max. lia.
Qed.

Lemma commit_keeps_infill arena commit ctx arena' r :
  apply arena commit ctx = Done (arena', r) ->
  match commit with CommitInfill _ | CommitInfillPostProcess _ => False | _ => True end ->
  arena_infill arena' = arena_infill arena.
Proof.
  intros Ha Hc. apply commit_outcome in Ha as (He & _ & _). apply (f_equal arena_infill) in He.
  by destruct commit.
Qed.

Lemma commit_locks_global arena commit ctx arena' r :
  locks_global arena -> typed commit -> apply arena commit ctx = Done (arena', r) -> locks_global arena'.
Proof.
  intros Hg Ht Ha. pose proof (next_tag_u64 _ Hg) as Hn.
  destruct commit as [?|?|ir|ir|?|? ?|?|? ?|? ?|?|?|?];
    try (unfold locks_global; by rewrite (commit_keeps_infill _ _ _ _ _ Ha)).
  - revert Ha. cbn [apply]. unfold apply_infill.
    destruct (remap_infill_order_locks_from ir (next_tag arena)) as [ir' [[]|e]] eqn:Hr; [|by intros [= <- <-]].
    apply remap_infill_locks_global in Hr; [|done..].
    destruct (commit_raft arena (inf_raft_regions ir')) as [a r0] eqn:Hc.
    apply commit_raft_frame in Hc as (-> & Hi & _). unfold take_infill. rewrite Hi.
    unfold locks_global in Hg. destruct (arena_infill arena) as [existing|]; cbn; intros [= <- <-]; [|done].
    unfold locks_global, sparse_locks. cbn. rewrite merge_sparse_perm, omap_app. by apply Forall_app.
  - revert Ha. cbn [apply]. unfold apply_infill_post_process.
    destruct (match arena_infill arena with
              | Some previous => validate_infill_order_locks previous ir
              | None => Done (Ok tt) end) as [[[]|message]| |]; cbn [exec_bind]; [|by intros [= <- <-]|done..].
    destruct (remap_infill_order_locks_from ir (next_tag arena)) as [ir' [[]|e]] eqn:Hr; [|by intros [= <- <-]].
    apply remap_infill_locks_global in Hr; [|done..]. by intros [= <- <-].
Qed.

(** What a commit leaves of the layer that a staged collection is for. *)
Lemma commit_keeps_layer arena commit ctx arena' :
  apply arena commit ctx = Done (arena', Ok tt) -> (forall lc, commit <> CommitSeedLayerCollection lc) ->
  collection_layer <$> layer_collection arena' = collection_layer <$> layer_collection arena.
Proof.
  intros Ha Hns. destruct commit as [?|?|?|?|?|? ?|?|? ?|? ?|c|?|lc]; [.. | by destruct (Hns lc)];
    try (apply commit_outcome in Ha as (He & _ & _); by rewrite (f_equal layer_collection He : layer_collection arena' = layer_collection arena)).
  revert Ha. cbn [LayerCommit.apply]. unfold apply_path_optimization.
  destruct (match po_order_proposal c with Some p => apply_entity_order_proposal arena p | None => Done (arena, Ok tt) end)
    as [[a r]| |] eqn:Ho; cbn [exec_bind]; [|done..].
  assert (Hk : collection_layer <$> layer_collection a = collection_layer <$> layer_collection arena).
  { destruct (po_order_proposal c) as [p|]; [by eapply order_proposal_keeps_layer | by injection Ho as <-]. }
  destruct r as [[]|e]; [|done]. intros [= Hp]. apply push_side_effects_spec in Hp as [-> _]. exact Hk.
Qed.

(** [C18].  In every arena that commits can produce, each lock tag of a staged sparse infill path
    is global: no local tag of a module's sparse infill is ever staged, whatever failed on the
    way.  Tags of solid infill, ironing and bridges are not remapped ([solid_locks_stay_local]). *)
Theorem staged_locks_global (arena : LayerArena) (Hr : layer_arena arena) : locks_global arena.
Proof.
  induction Hr as [a Ha | a commit ctx a' r _ IH Ht Ha | a stage_id _ IH].
  - unfold locks_global. by rewrite Ha.
  - by eapply commit_locks_global.
  - unfold ensure_infill_slot_committed. case_match; [done |]. destruct (arena_infill a) eqn:Hi; [done |].
    unfold locks_global, set_infill. rewrite Hi. by constructor.
Qed.

(** Committing infill on staged infill: what is staged afterwards has, for each region
    and each of the four roles, the paths it had followed by the new ones; regions stay
    distinct, no region is lost or made up, and the raft regions are appended.  The new
    paths differ from the module's in their lock tags only. *)
Theorem infill_accumulates (arena arena' : LayerArena) (existing ir : InfillIR) (ctx : StageApplyContext)
    (He : arena_infill arena = Some existing) (Hk : NoDup (infill_key <$> inf_regions existing))
    (Ha : apply arena (CommitInfill ir) ctx = Done (arena', Ok tt)) :
  exists merged added, arena_infill arena' = Some merged /\
    Forall2 same_but_sparse (inf_regions ir) added /\
    NoDup (infill_key <$> inf_regions merged) /\
    (forall k, k ∈ infill_key <$> inf_regions merged <->
       k ∈ infill_key <$> inf_regions existing \/ k ∈ infill_key <$> inf_regions ir) /\
    (forall role key, role ∈ infill_roles ->
       paths_at role key (inf_regions merged) =
       paths_at role key (inf_regions existing) ++ paths_at role key added) /\
    inf_raft_regions merged = inf_raft_regions existing ++ inf_raft_regions ir.
Proof.
  revert Ha. cbn [apply]. unfold apply_infill, remap_infill_order_locks_from.
  pose proof (remap_regions_spec (inf_regions ir) (next_tag arena)) as Hs.
  destruct (remap_regions (inf_regions ir) (next_tag arena)) as [added r].
  destruct (remap_order_locks_to_global _ _) as [[? ?] ?]. destruct Hs as [_ Hs].
  destruct r as [[]|e]; [|done]. destruct (Hs eq_refl) as [_ Hsame].
  assert (Hkeys : infill_key <$> added = infill_key <$> inf_regions ir).
  { clear -Hsame. induction Hsame as [|r r' rs rs' Hr _ IH]; [done |]. cbn. f_equal; [|exact IH].
    unfold same_but_sparse in Hr. rewrite Hr. done. }
  destruct (commit_raft arena _) as [a committed] eqn:Hc. apply commit_raft_frame in Hc as (-> & Hi & _).
  unfold take_infill. rewrite Hi, He. cbn. intros [= <-].
  destruct (merge_regions_spec added (inf_regions existing) Hk) as (M1 & M2 & M3).
  eexists _, added. split; [reflexivity |]. split; [done |]. cbn [inf_regions merge_infill_ir].
  split; [done |]. split; [by rewrite <- Hkeys |]. by split.
Qed.
End commit_spec.

(** ** Samples *)

#[local] Existing Instance sample_prepass.
#[local] Existing Instance layer_types.

Definition sample_ctx : StageApplyContext :=
  {| ctx_stage_id := "Layer::Infill"; ctx_module_id := "lines"; ctx_layer_index := 0; ctx_seam_plan := None;
     ctx_config_view := None; ctx_committed_slices := None |}.

(** A segment of one millimetre, swept to a rectangle of one square millimetre. *)
Definition sample_support_entry (family : string) : SupportEntry :=
  {| se_family_id := family; se_body_id := "body"; se_demand_ids := ["demand"]; se_object_id := "cube";
     se_region_id := 0; se_role := SupportBody; se_paths := [sample_path None]; se_variant_chain := [] |}.

Definition sample_support (families : list string) : SupportIR :=
  {| su_schema_version := SemVer_default; su_global_layer_index := 0;
     su_entries := sample_support_entry <$> families |}.

Definition support_arena : LayerArena :=
  (set_support LayerArena.new (sample_support ["tree"])).1.

Definition sample_apply := apply coarse_op no_message no_text.

(** A grid entry conflicts with the staged tree entry; both are dropped. *)
Lemma support_conflicts_resolved_witness :
  exists arena', sample_apply support_arena (CommitSupport (sample_support ["tree"; "grid"])) sample_ctx =
      Done (arena', Ok tt) /\
    support_routing_diagnostics arena' <> [].
Proof.
  destruct (support_conflicts_resolved coarse_op no_message no_text support_arena (sample_support ["tree"])
              (sample_support ["tree"; "grid"]) sample_ctx eq_refl) as (arena' & ? & ? & ? & ? & Ha & _).
  exists arena'. split; [exact Ha |]. vm_compute in Ha. injection Ha as <-. discriminate.
Defined.

Definition infill_arena : LayerArena :=
  (set_infill LayerArena.new issued_existing).1.

Definition accumulated : LayerArena :=
  match sample_apply infill_arena (CommitInfill issued_commit) sample_ctx with
  | Done (a, _) => a
  | _ => infill_arena
  end.

Lemma infill_accumulates_witness :
  exists merged, arena_infill accumulated = Some merged /\
    sparse_locks merged = [9223372036854775810; 9223372036854775811; 9223372036854775812]%Z.
Proof.
  destruct (infill_accumulates coarse_op no_message no_text infill_arena accumulated issued_existing issued_commit
    sample_ctx eq_refl ltac:(repeat constructor; set_solver) ltac:(vm_compute; reflexivity)) as (merged & ? & Hm & _).
  exists merged. split; [exact Hm |]. vm_compute in Hm. injection Hm as <-. reflexivity.
Defined.

Lemma staged_locks_global_witness : locks_global
  (match sample_apply LayerArena.new (CommitInfill issued_commit) sample_ctx with
   | Done (a, _) => a | _ => LayerArena.new end).
Proof.
  apply (staged_locks_global coarse_op no_message no_text).
  apply (arena_commit coarse_op no_message no_text LayerArena.new (CommitInfill issued_commit) sample_ctx _ (Ok tt)).
  - by apply arena_start.
  - repeat constructor; discriminate.
  - vm_compute. reflexivity.
Defined.

(** A divergence from ADR-0062, by which the host remaps local tags at every output boundary:
    a local tag of a solid infill path is staged as the module returned it. *)
Theorem solid_locks_stay_local :
  exists arena ir region path, layer_arena coarse_op no_message no_text arena /\ arena_infill arena = Some ir /\
    region ∈ inf_regions ir /\ path ∈ solid_infill region /\ is_local (ep_order_lock path) = true.
Proof.
  set (ir := sample_infill [solid_locked_region (Some 7%Z)]).
  exists (match sample_apply LayerArena.new (CommitInfill ir) sample_ctx with Done (a, _) => a | _ => LayerArena.new end).
  exists ir, (solid_locked_region (Some 7%Z)), (sample_path (Some 7%Z)). split; cycle 1.
  { split_and!; [vm_compute; reflexivity | by left | by left | reflexivity]. }
  apply (arena_commit coarse_op no_message no_text LayerArena.new (CommitInfill ir) sample_ctx _ (Ok tt)).
  - by apply arena_start.
  - constructor.
  - vm_compute. reflexivity.
Qed.

Definition sample_optimization (hops : list f32) : PathOptimizationCommit :=
  {| po_tool_changes := [{| tc_after_entity_index := 0; tc_from_tool := 0; tc_to_tool := 1 |}];
     po_z_hops := hops; po_annotations := []; po_retracts := []; po_travel_moves := [];
     po_order_proposal := Some [(2%Z, true); (0%Z, false); (1%Z, false)] |}.

(** The lift of 1 mm is anchored after the last of three entities. *)
Lemma path_optimization_applied_witness :
  exists arena', sample_apply (sample_arena locked_entities)
      (CommitPathOptimization (sample_optimization [ONE])) sample_ctx = Done (arena', Ok tt) /\
    deferred_z_hops arena' = [{| zh_after_entity_index := 2; zh_hop_height := ONE |}].
Proof.
  destruct (apply_entity_order_proposal (sample_arena locked_entities)
              [(2%Z, true); (0%Z, false); (1%Z, false)]) as [[ordered accepted]| |] eqn:Ho;
    [|vm_compute in Ho; discriminate Ho..].
  destruct (path_optimization_applied coarse_op no_message no_text (sample_arena locked_entities)
    (sample_optimization [ONE]) sample_ctx ordered accepted Ho) as (arena' & r & Ha & Hok & Hr).
  assert (accepted = Ok tt) as -> by (vm_compute in Ho; by injection Ho as _ <-).
  assert (Hrt : r = Ok tt) by (apply Hok; split; [reflexivity | repeat constructor]).
  exists arena'. split; [by rewrite <- Hrt |]. destruct (Hr Hrt) as (_ & _ & Hz & _). rewrite Hz.
  vm_compute in Ho. injection Ho as <-. vm_compute. reflexivity.
Defined.

Definition slice_arena : LayerArena :=
  (set_slice LayerArena.new (sample_slice [sample_sliced 0 [area_polygon] []])).1.

Definition cube_key : RegionKey :=
  {| rk_global_layer_index := 0; rk_object_id := "cube"; rk_region_id := 0; rk_variant_chain := [] |}.

Definition moved (z : f32) : LayerStageCommit := CommitSlicePostProcess [] [(cube_key, 0%Z, 2%Z, z)].

Definition arena_of (out : exec (LayerArena * result unit LayerStageError)) : LayerArena :=
  match out with Done (a, _) => a | _ => LayerArena.new end.

Lemma z_updates_have_no_effect_witness :
  arena_of (sample_apply slice_arena (moved ONE) sample_ctx) =
  arena_of (sample_apply slice_arena (moved ZERO) sample_ctx).
Proof.
  apply (z_updates_have_no_effect coarse_op no_message no_text slice_arena _ _ []
           [(cube_key, 0%Z, 2%Z, ONE)] [(cube_key, 0%Z, 2%Z, ZERO)] sample_ctx); vm_compute; reflexivity.
Defined.

(** A vertex index out of range: the slice is lost. *)
Lemma commit_writes_its_slots_witness :
  exists arena' r, sample_apply slice_arena
      (CommitSlicePostProcess [] [(cube_key, 0%Z, 4%Z, ONE)]) sample_ctx = Done (arena', r) /\
    r <> Ok tt /\ arena_slice arena' = None.
Proof.
  destruct (sample_apply slice_arena (CommitSlicePostProcess [] [(cube_key, 0%Z, 4%Z, ONE)]) sample_ctx)
    as [[arena' r]| |] eqn:Ha; [|vm_compute in Ha; discriminate Ha..].
  exists arena', r. split; [reflexivity |].
  assert (Hr : r <> Ok tt) by (vm_compute in Ha; injection Ha as _ <-; discriminate).
  split; [exact Hr |].
  destruct (commit_writes_its_slots coarse_op no_message no_text slice_arena arena' _ sample_ctx r Ha)
    as (_ & _ & Hf).
  specialize (Hf Hr). cbn in Hf. rewrite Hf. reflexivity.
Defined.
