(* ===== verification/AnchoredRows.v ===== *)
(** From anchored entities to the rows of the print
    ([execute_anchored_event_collections_with_mode_and_feedrate] and the committed event
    stream of [slicer-runtime/src/layer_executor.rs], [synthesize_anchored_rows] of
    [slicer-runtime/src/anchored_rows.rs]).

    Entities that print below their layer are collected per anchor layer and committed
    as events; the events and the layers of the model are put in one stream; the stream
    is lowered to rows, an entity plane being merged into the layer at its height or given
    a row of its own. *)
From Stdlib Require Import Sorted Floats.SpecFloat.
From stdpp Require Import prelude gmap strings list.
From S2P Require Import Prelude Ir Float32 ExecutionPlan Blackboard LayerArena Planar PolygonOps.
From S2P Require Import LayerIr OrderLock Anchored RegionPartition LayerCommit.

#[local] Open Scope string_scope.
#[local] Open Scope list_scope.
#[local] Open Scope Z_scope.

(** ** Executing anchored entities *)

Definition with_capabilities (e : AnchoredEntity) (input output : list string) : AnchoredEntity :=
  {| ae_local_id := ae_local_id e; ae_anchor_global_layer_index := ae_anchor_global_layer_index e;
     ae_geometry := ae_geometry e; ae_input_capabilities := input; ae_output_capabilities := output;
     ae_provenance := ae_provenance e; ae_path_points := ae_path_points e; ae_role := ae_role e |}.

Definition invoke (layer_parallel_safe : bool) (entity : AnchoredEntity) : AnchoredEntity * bool * bool :=
  let invocation := anchored_invocation entity layer_parallel_safe in
  let optimize_paths := existsb (fun c => String.eqb c "Layer::PathOptimization")
                          (derived_capabilities (ai_closure invocation)) in
  (with_capabilities entity (input_capabilities (ai_closure invocation))
     (output_capabilities (ai_closure invocation)),
   ai_layer_parallel_safe invocation, optimize_paths).

Definition with_optimize_paths (h : AnchoredEventRuntimeHooks) (b : bool) : AnchoredEventRuntimeHooks :=
  {| optimize_paths := b; account_cooling := account_cooling h; account_time := account_time h |}.

Definition anchored_at (index : Z) (c : OrderedEventCollection) : bool :=
  oc_anchor_global_layer_index c =? index.

(** One step of the grouping loop. *)
Definition collect_event (collections : list OrderedEventCollection) (invoked : AnchoredEntity * bool * bool)
    : list OrderedEventCollection :=
  let '(entity, _, optimize) := invoked in
  default
    (collections ++
       [{| oc_anchor_global_layer_index := ae_anchor_global_layer_index entity; oc_events := [entity];
           oc_runtime_hooks := with_optimize_paths AnchoredEventRuntimeHooks_default optimize |}])
    (update_first (anchored_at (ae_anchor_global_layer_index entity))
       (fun c => {| oc_anchor_global_layer_index := oc_anchor_global_layer_index c;
                    oc_events := oc_events c ++ [entity];
                    oc_runtime_hooks := with_optimize_paths (oc_runtime_hooks c)
                      (optimize_paths (oc_runtime_hooks c) || optimize) |})
       collections).

Definition anchor_leb (a b : OrderedEventCollection) : bool :=
  oc_anchor_global_layer_index a <=? oc_anchor_global_layer_index b.

Section execute.
Context {P : PrepassTypes}.
#[local] Existing Instance layer_types.
Context (boolean_op_tree_64 : ClipOperation -> list (list Point2) -> list (list Point2) -> PolyPath).
Context (split_message : SplitError -> string) (show_f32 : f32 -> string).
(** [Display] of [LayerStageError]. *)
Context (show_stage_error : LayerStageError -> string).

Definition anchored_ctx : StageApplyContext :=
  {| ctx_stage_id := "Anchored::Event"; ctx_module_id := "host:anchored-events"; ctx_layer_index := 0;
     ctx_seam_plan := None; ctx_config_view := None; ctx_committed_slices := None |}.

Fixpoint validate_entities (entities : list AnchoredEntity) : result unit LayerExecutionError :=
  match entities with
  | [] => Ok tt
  | entity :: rest =>
      match validate_anchored_entity show_f32 entity with
      | Err message => Err (AnchoredGeometry (ae_local_id entity) message)
      | Ok _ => validate_entities rest
      end
  end.

(** The parallel and the sequential map of [invoke]. *)
Definition invoke_all (force_parallel layer_parallel_safe : bool) (entities : list AnchoredEntity)
    : list (AnchoredEntity * bool * bool) :=
  if force_parallel && forallb (fun e => ai_layer_parallel_safe (anchored_invocation e layer_parallel_safe)) entities
  then invoke layer_parallel_safe <$> entities
  else invoke layer_parallel_safe <$> entities.

Definition execute_anchored_event_collections (plan : ExecutionPlan) (entities : list AnchoredEntity)
    (force_parallel layer_parallel_safe : bool)
    : exec (result (list OrderedEventCollection) LayerExecutionError) :=
  let anchored := filter (fun e => global_layer_is_raft plan (ae_anchor_global_layer_index e) = false) entities in
  match validate_entities anchored with
  | Err e => Done (Err e)
  | Ok _ =>
      let anchored := filter (fun e => is_same_z e plan = false) anchored in
      let collections := foldl collect_event [] (invoke_all force_parallel layer_parallel_safe anchored) in
      let collections := sort_by anchor_leb collections in
      let! out := apply boolean_op_tree_64 split_message show_f32 LayerArena.new
                    (CommitAnchoredEvents collections) anchored_ctx in
      match out with
      | (_, Err error) =>
          Done (Err (AnchoredGeometry (match entities with [] => 0 | e :: _ => ae_local_id e end)
                       (show_stage_error error)))
      | (arena, Ok _) =>
          match anchored_event_collections arena with
          | Some collections => Done (Ok collections)
          | None => Panicked
          end
      end
  end.

(** ** The committed stream *)

Inductive CommittedLayerEvent :=
| AnchoredEvent (collection : OrderedEventCollection)
| ModelEvent (layer : LayerCollectionIR).

(** The collections at the head of the queue that are anchored to the layer. *)
Fixpoint take_anchored (index : Z) (collections : list OrderedEventCollection)
    : list OrderedEventCollection * list OrderedEventCollection :=
  match collections with
  | [] => ([], [])
  | c :: rest =>
      if anchored_at index c then let '(taken, rest) := take_anchored index rest in (c :: taken, rest)
      else ([], c :: rest)
  end.

Fixpoint commit_stream (layers : list LayerCollectionIR) (collections : list OrderedEventCollection)
    : list CommittedLayerEvent :=
  match layers with
  | [] => AnchoredEvent <$> collections
  | layer :: layers =>
      let '(taken, collections) := take_anchored (lc_global_layer_index layer) collections in
      (AnchoredEvent <$> taken) ++ ModelEvent layer :: commit_stream layers collections
  end.

(** What follows the execution of the layers: [layers] and [producer_collections] are its result. *)
Definition commit_layer_events (plan : ExecutionPlan) (anchored_entities : list AnchoredEntity)
    (layers : list LayerCollectionIR) (producer_collections : list OrderedEventCollection)
    : exec (result (list CommittedLayerEvent) LayerExecutionError) :=
  match append_same_z_entities show_f32 layers plan anchored_entities with
  | (_, Err e) => Done (Err e)
  | (layers, Ok _) =>
      let! executed := execute_anchored_event_collections plan anchored_entities true true in
      match executed with
      | Err e => Done (Err e)
      | Ok collections =>
          let producers := filter (fun c => global_layer_is_raft plan (oc_anchor_global_layer_index c) = false)
                             producer_collections in
          let collections := sort_by anchor_leb (collections ++ producers) in
          Done (Ok (commit_stream layers collections))
      end
  end.
End execute.

(** ** Rows *)

Definition append_entities (row : LayerCollectionIR) (entities : list AnchoredEntity) : LayerCollectionIR :=
  foldl push_entity row entities.

Record AnchoredPlane := { ap_z_units : Z; ap_events : list AnchoredEntity }.

Definition is_planar (e : AnchoredEntity) : bool :=
  match ae_geometry e with Planar _ => true | ZSpanning _ _ => false end.

Definition solo_row (plane : AnchoredPlane) (global_layer_index : Z) : LayerCollectionIR :=
  append_entities
    {| lc_schema_version := CURRENT_LAYER_COLLECTION_IR_SCHEMA_VERSION;
       lc_global_layer_index := global_layer_index; lc_z := encode (units_to_mm (ap_z_units plane));
       ordered_entities := []; support_entity_identities := []; lc_tool_changes := []; lc_z_hops := [];
       lc_annotations := []; lc_retracts := []; lc_travel_moves := []; lc_speed_profiles := [] |}
    (ap_events plane).

Fixpoint split_stream (committed : list CommittedLayerEvent)
    : list LayerCollectionIR * list OrderedEventCollection :=
  match committed with
  | [] => ([], [])
  | event :: rest =>
      let '(rows, collections) := split_stream rest in
      match event with
      | AnchoredEvent c => (rows, c :: collections)
      | ModelEvent row => (row :: rows, collections)
      end
  end.

Definition missing_anchor (anchor : Z) : string :=
  "z-spanning entity anchors to global layer " +:+ show_uint anchor +:+
  ", which has no committed model row".

(** The z-spanning entities go into the row of their anchor layer. *)
Fixpoint route_spanning (rows : list LayerCollectionIR) (collections : list OrderedEventCollection)
    : result (list LayerCollectionIR) LayerExecutionError :=
  match collections with
  | [] => Ok rows
  | collection :: rest =>
      match sort_by event_leb (filter (fun e => is_planar e = false) (oc_events collection)) with
      | [] => route_spanning rows rest
      | (first :: _) as spanning =>
          match update_first (row_of (oc_anchor_global_layer_index collection))
                  (fun row => append_entities row spanning) rows with
          | None => Err (AnchoredGeometry (ae_local_id first)
                          (missing_anchor (oc_anchor_global_layer_index collection)))
          | Some rows => route_spanning rows rest
          end
      end
  end.

(** Push an event on the last group when that has its height. *)
Definition push_planar (grouped : list AnchoredPlane) (event : AnchoredEntity) : list AnchoredPlane :=
  let z := ordering_z event in
  match last grouped with
  | Some plane =>
      if ap_z_units plane =? z then
        take (length grouped - 1) grouped ++
          [{| ap_z_units := ap_z_units plane; ap_events := ap_events plane ++ [event] |}]
      else grouped ++ [{| ap_z_units := z; ap_events := [event] |}]
  | None => [{| ap_z_units := z; ap_events := [event] |}]
  end.

Definition group_planes (collection : OrderedEventCollection) : list AnchoredPlane :=
  foldl push_planar [] (sort_by event_leb (filter (fun e => is_planar e = true) (oc_events collection))).

Definition plane_leb (a b : Z * nat * AnchoredPlane) : bool := rust_leb a.1 b.1.

Definition sorted_planes (collections : list OrderedEventCollection) : list (Z * nat * AnchoredPlane) :=
  sort_by plane_leb
    (flat_map (fun c : nat * OrderedEventCollection =>
                 (fun plane => (ap_z_units plane, c.1, plane)) <$> group_planes c.2)
       (enumerate collections)).

(** A plane joins the last run when it is within the tolerance of the run's first plane. *)
Definition coalesce (runs : list AnchoredPlane) (p : Z * nat * AnchoredPlane) : list AnchoredPlane :=
  let '(z_units, _, plane) := p in
  match last runs with
  | Some run =>
      if abs_i64 (wrap_i64 (z_units - ap_z_units run)) <=? COORDINATE_TOLERANCE_UNITS then
        take (length runs - 1) runs ++
          [{| ap_z_units := ap_z_units run; ap_events := ap_events run ++ ap_events plane |}]
      else runs ++ [plane]
  | None => [plane]
  end.

(** [is_some_and(|z| z <= print_z_min + MERGE_EPSILON_UNITS)]. *)
Definition taken (z : option Z) (print_z_min : Z) : bool :=
  match z with
  | Some z => z <=? wrap_i64 (print_z_min + COORDINATE_TOLERANCE_UNITS)
  | None => false
  end.

(** The merge walk.  Each turn of the loop takes a row or a plane; [fuel] counts the turns. *)
Fixpoint merge_walk (fuel : nat) (last_model_index : option Z) (object_rows : list LayerCollectionIR)
    (planes : list AnchoredPlane) : exec (list LayerCollectionIR) :=
  match fuel with
  | O => OutOfFuel
  | S fuel =>
      let object_z := mm_to_units ∘ lc_z <$> head object_rows in
      let plane_z := ap_z_units <$> head planes in
      match match object_z, plane_z with
            | Some object, Some plane => Some (Z.min object plane)
            | Some object, None => Some object
            | None, Some plane => Some plane
            | None, None => None
            end with
      | None => Done []
      | Some print_z_min =>
          match taken object_z print_z_min, taken plane_z print_z_min, object_rows, planes with
          | true, true, row :: object_rows, plane :: planes =>
              let! out := merge_walk fuel last_model_index object_rows planes in
              Done (append_entities row (ap_events plane) :: out)
          | true, false, row :: object_rows, planes =>
              let! out := merge_walk fuel last_model_index object_rows planes in Done (row :: out)
          | false, true, object_rows, plane :: planes =>
              let upper_index := default 0 (match head object_rows with
                                            | Some row => Some (lc_global_layer_index row)
                                            | None => last_model_index
                                            end) in
              let! out := merge_walk fuel last_model_index object_rows planes in
              Done (solo_row plane upper_index :: out)
          | _, _, _, _ => Panicked
          end
      end
  end.

Definition synthesize_anchored_rows (committed : list CommittedLayerEvent)
    : exec (result (list LayerCollectionIR) LayerExecutionError) :=
  let '(object_rows, collections) := split_stream committed in
  match route_spanning object_rows collections with
  | Err e => Done (Err e)
  | Ok object_rows =>
      let planes := foldl coalesce [] (sorted_planes collections) in
      let last_model_index := lc_global_layer_index <$> last object_rows in
      let! out := merge_walk (length object_rows + length planes + 1) last_model_index object_rows planes in
      Done (Ok out)
  end.

(** ** Entities without their numbers *)

Definition entity_of (e : AnchoredEntity) : PrintEntity := anchored_entity_to_print_entity e 0.

Definition unnumbered (row : LayerCollectionIR) : list PrintEntity :=
  (fun e => with_topo_order e 0) <$> ordered_entities row.

(** A row with more entities behind its own. *)
Definition extends (row row' : LayerCollectionIR) : Prop :=
  exists more, row' = with_ordered_entities row (ordered_entities row ++ more).

Lemma append_entities_spec es row :
  extends row (append_entities row es) /\
  unnumbered (append_entities row es) = unnumbered row ++ (entity_of <$> es).
Proof.
  revert row. induction es as [|e es IH]; intros row.
  - cbn. split; [exists []; rewrite app_nil_r; by destruct row | by rewrite app_nil_r].
  - change (append_entities row (e :: es)) with (append_entities (push_entity row e) es).
    destruct (IH (push_entity row e)) as [[more Hm] Hu]. split.
    + rewrite Hm. eexists. cbn. by rewrite <- (assoc_L (++)).
    + rewrite Hu. unfold unnumbered. cbn. by rewrite fmap_app, <- (assoc_L (++)).
Qed.

Lemma extends_refl row : extends row row.
Proof. exists []. rewrite app_nil_r. by destruct row. Qed.

Lemma extends_trans a b c : extends a b -> extends b c -> extends a c.
Proof.
  intros [m ->] [n ->]. exists (m ++ n). cbn. by rewrite (assoc_L (++)).
Qed.

(** ** The two halves of the stream *)

Lemma split_stream_spec committed :
  (split_stream committed).1 = omap (fun e => match e with ModelEvent r => Some r | _ => None end) committed /\
  (split_stream committed).2 = omap (fun e => match e with AnchoredEvent c => Some c | _ => None end) committed.
Proof.
  induction committed as [|e committed [IH1 IH2]]; [done |]. cbn.
  destruct (split_stream committed) as [rows cs]. cbn in *. by destruct e; subst.
Qed.

Definition spanning_of (c : OrderedEventCollection) : list AnchoredEntity :=
  filter (fun e => is_planar e = false) (oc_events c).
Definition planar_of (c : OrderedEventCollection) : list AnchoredEntity :=
  filter (fun e => is_planar e = true) (oc_events c).

Lemma planar_spanning_perm c : planar_of c ++ spanning_of c ≡ₚ oc_events c.
Proof.
  unfold planar_of, spanning_of. induction (oc_events c) as [|e es IH]; [done |].
  rewrite !filter_cons. destruct (is_planar e); cbn; rewrite <- IH; [done |].
  by rewrite Permutation_middle.
Qed.

(** A collection can be placed when it has no z-spanning event or its layer has a row. *)
Definition placeable (rows : list LayerCollectionIR) (c : OrderedEventCollection) : Prop :=
  spanning_of c = [] \/ exists row, row ∈ rows /\ lc_global_layer_index row = oc_anchor_global_layer_index c.

Lemma extended_indices rows rows' :
  Forall2 extends rows rows' -> lc_global_layer_index <$> rows' = lc_global_layer_index <$> rows.
Proof. induction 1 as [|a b la lb [m ->] _ IH]; [done |]. cbn. by f_equal. Qed.

Lemma placeable_extended rows rows' c : Forall2 extends rows rows' -> placeable rows c <-> placeable rows' c.
Proof.
  intros He. unfold placeable. enough (Hi : forall i, (exists row, row ∈ rows /\ lc_global_layer_index row = i) <->
    exists row, row ∈ rows' /\ lc_global_layer_index row = i) by (by rewrite Hi).
  intros i. pose proof (extended_indices _ _ He) as Hx.
  assert (Hin : forall l : list LayerCollectionIR,
    (exists row, row ∈ l /\ lc_global_layer_index row = i) <-> i ∈ lc_global_layer_index <$> l).
  { intros l. rewrite list_elem_of_fmap. naive_solver. }
  by rewrite !Hin, Hx.
Qed.

Lemma Forall2_extends_refl rows : Forall2 extends rows rows.
Proof. induction rows; constructor; auto using extends_refl. Qed.

Lemma Forall2_extends_trans a b c : Forall2 extends a b -> Forall2 extends b c -> Forall2 extends a c.
Proof.
  intros H. revert c. induction H as [|x y a b Hxy _ IH]; intros c Hc; inversion Hc; subst; constructor;
    eauto using extends_trans.
Qed.

Lemma route_spanning_spec collections rows :
  match route_spanning rows collections with
  | Ok rows' => (forall c, c ∈ collections -> placeable rows c) /\ Forall2 extends rows rows' /\
      (mm_to_units ∘ lc_z <$> rows') = (mm_to_units ∘ lc_z <$> rows) /\
      concat (unnumbered <$> rows') ≡ₚ
        concat (unnumbered <$> rows) ++ (entity_of <$> flat_map spanning_of collections)
  | Err _ => exists c, c ∈ collections /\ ~ placeable rows c
  end.
Proof.
  revert rows. induction collections as [|c cs IH]; intros rows; cbn [route_spanning].
  { cbn. rewrite app_nil_r. split; [set_solver |]. auto using Forall2_extends_refl. }
  fold (spanning_of c). pose proof (sort_by_perm event_leb (spanning_of c)) as Hp.
  destruct (sort_by event_leb (spanning_of c)) as [|first spanning] eqn:Hs.
  - assert (He : spanning_of c = []) by (destruct (spanning_of c); [done | by apply Permutation_length in Hp]).
    specialize (IH rows). destruct (route_spanning rows cs) as [rows'|e].
    + destruct IH as (H1 & H2 & H3 & H4). cbn [flat_map]. rewrite He. split; [|done].
      intros c' [-> | Hc]%elem_of_cons; [by left | by apply H1].
    + destruct IH as (c' & Hc & Hn). exists c'. split; [by right | done].
  - destruct (update_first _ _ rows) as [rows1|] eqn:Hu.
    + apply update_first_Some in Hu as (l1 & row & l2 & -> & -> & Hrow & _). cbv beta.
      destruct (append_entities_spec (first :: spanning) row) as [Hext Hun].
      set (row1 := append_entities row (first :: spanning)) in *.
      assert (Hf : Forall2 extends (l1 ++ row :: l2) (l1 ++ row1 :: l2)).
      { apply Forall2_app; [apply Forall2_extends_refl |]. constructor; [done | apply Forall2_extends_refl]. }
      specialize (IH (l1 ++ row1 :: l2)). destruct (route_spanning _ cs) as [rows'|e].
      * destruct IH as (H1 & H2 & H3 & H4). split; [|split; [|split]].
        -- intros c' Hc. apply elem_of_cons in Hc as [-> | Hc].
           2: { apply (proj2 (placeable_extended _ _ c' Hf)). by apply H1. }
           right. exists row. split; [set_solver | by apply Z.eqb_eq].
        -- by eapply Forall2_extends_trans.
        -- rewrite H3, !fmap_app, !fmap_cons. destruct Hext as [m Hm]. by rewrite Hm.
        -- rewrite H4, !fmap_app, !fmap_cons, !concat_app. cbn [concat flat_map]. rewrite Hun, fmap_app, Hp.
           rewrite <- !(assoc_L (++)). do 2 apply Permutation_app_head.
           rewrite !(assoc_L (++)). apply Permutation_app_tail, Permutation_app_comm.
      * destruct IH as (c' & Hc & Hn). exists c'. split; [by right |]. by rewrite (placeable_extended _ _ _ Hf).
    + exists c. split; [left |]. intros [He | (row & Hr & Hi)].
      * rewrite He in Hp. by apply Permutation_length in Hp.
      * pose proof (proj1 (update_first_None _ _ _) Hu row Hr) as Hn. unfold row_of in Hn.
        apply Z.eqb_neq in Hn. done.
Qed.

(** ** Planes *)

Lemma take_init {A} (l : list A) x : take (length (l ++ [x]) - 1) (l ++ [x]) = l.
Proof. rewrite length_app. cbn. by rewrite Nat.add_sub, take_app_length. Qed.

Definition height_of (e : AnchoredEntity) (z : Z) : Prop := ae_geometry e = Planar z.

(** A plane has events, and each of them has its height. *)
Definition uniform (p : AnchoredPlane) : Prop :=
  ap_events p <> [] /\ forall e, e ∈ ap_events p -> height_of e (ap_z_units p).

Lemma group_planes_spec c :
  concat (ap_events <$> group_planes c) ≡ₚ planar_of c /\ Forall uniform (group_planes c).
Proof.
  unfold group_planes. fold (planar_of c). rewrite <- (sort_by_perm event_leb (planar_of c)) at 2.
  assert (Hpl : forall e, e ∈ sort_by event_leb (planar_of c) -> is_planar e = true).
  { intros e He. rewrite sort_by_perm in He. unfold planar_of in He. by apply list_elem_of_filter in He as [? _]. }
  revert Hpl. generalize (sort_by event_leb (planar_of c)). intros es Hpl.
  enough (H : forall gs, Forall uniform gs ->
    concat (ap_events <$> foldl push_planar gs es) ≡ₚ concat (ap_events <$> gs) ++ es /\
    Forall uniform (foldl push_planar gs es)) by (by apply H).
  induction es as [|e es IH]; intros gs Hgs; [cbn; by rewrite app_nil_r |]. cbn [foldl].
  assert (Hz : height_of e (ordering_z e)).
  { specialize (Hpl e (list_elem_of_here _ _)). unfold is_planar, height_of, ordering_z in *.
    by destruct (ae_geometry e). }
  assert (Hone : forall z, height_of e z -> uniform {| ap_z_units := z; ap_events := [e] |}).
  { intros z Hh. split; [done |]. intros x ->%list_elem_of_singleton. exact Hh. }
  assert (Hstep : concat (ap_events <$> push_planar gs e) = concat (ap_events <$> gs) ++ [e] /\
                  Forall uniform (push_planar gs e)).
  { unfold push_planar. destruct (last gs) as [p|] eqn:Hlast.
    - destruct (Z.eqb_spec (ap_z_units p) (ordering_z e)) as [Heq | Hne].
      + apply last_Some in Hlast as [l ->]. rewrite take_init. split.
        * rewrite !fmap_app, !concat_app. cbn. by rewrite !app_nil_r, (assoc_L (++)).
        * apply Forall_app in Hgs as [H1 H2]. apply Forall_app. split; [done |].
          apply Forall_cons in H2 as [H2 _]. apply Forall_singleton. split; [by destruct (ap_events p) |].
          cbn. intros x [Hx | ->%list_elem_of_singleton]%elem_of_app; [by apply H2 | by rewrite Heq].
      + split; [by rewrite fmap_app, concat_app |]. apply Forall_app. split; [done |].
        apply Forall_singleton. by apply Hone.
    - apply last_None in Hlast as ->. split; [done |]. apply Forall_singleton. by apply Hone. }
  destruct Hstep as [Hc Hu]. destruct (IH ltac:(intros x Hx; apply Hpl; by right) _ Hu) as [-> H2].
  split; [|done]. by rewrite Hc, <- (assoc_L (++)).
Qed.

Lemma sorted_planes_spec cs :
  concat ((fun p : Z * nat * AnchoredPlane => ap_events p.2) <$> sorted_planes cs) ≡ₚ flat_map planar_of cs /\
  Forall (fun p : Z * nat * AnchoredPlane => p.1.1 = ap_z_units p.2 /\ uniform p.2) (sorted_planes cs) /\
  forall i j p q, (i <= j)%nat -> sorted_planes cs !! i = Some p -> sorted_planes cs !! j = Some q ->
    ap_z_units p.2 <= ap_z_units q.2.
Proof.
  set (all := flat_map (fun c : nat * OrderedEventCollection =>
                 (fun plane => (ap_z_units plane, c.1, plane)) <$> group_planes c.2) (enumerate cs)).
  assert (Hperm : sorted_planes cs ≡ₚ all) by apply sort_by_perm.
  assert (Hu : Forall (fun p : Z * nat * AnchoredPlane => p.1.1 = ap_z_units p.2 /\ uniform p.2) all).
  { apply Forall_forall. intros p Hp. unfold all in Hp. apply list_elem_of_In, in_flat_map in Hp as ([i c] & _ & Hp).
    apply list_elem_of_In, list_elem_of_fmap in Hp as (pl & -> & Hpl). split; [done |].
    by apply (proj1 (Forall_forall _ _) (proj2 (group_planes_spec c))). }
  split; [|split].
  - rewrite Hperm. unfold all, enumerate. clear. generalize 0%nat.
    induction cs as [|c cs IH]; intros k; [done |]. cbn [length seq zip zip_with flat_map fst snd].
    rewrite fmap_app, concat_app, <- list_fmap_compose.
    change ((fun p : Z * nat * AnchoredPlane => ap_events p.2) ∘ _) with ap_events.
    rewrite (proj1 (group_planes_spec c)). apply Permutation_app_head. apply IH.
  - by rewrite Hperm.
  - intros i j p q Hij Hp Hq. destruct (decide (i = j)) as [-> | Hne]; [rewrite Hp in Hq; injection Hq as ->; lia |].
    assert (Hle : plane_leb p q = true).
    { apply (sorted_by_lookup plane_leb (sorted_planes cs) i j); [|lia|done..].
      apply sort_by_sorted; intros; [by eapply rust_leb_trans | apply rust_leb_total]. }
    rewrite <- Hperm in Hu. apply list_elem_of_lookup_2 in Hp, Hq. rewrite Forall_forall in Hu.
    destruct (Hu p Hp) as [<- _], (Hu q Hq) as [<- _]. destruct p as [[zp op] pp], q as [[zq oq] pq].
    unfold plane_leb in Hle. cbn in Hle |- *. unfold pair_leb in Hle. cbn in Hle.
    destruct (Z.leb_spec zp zq); [done | discriminate].
Qed.

(** ** Coalescing *)

(** Two distances of the walk are computed without wrapping. *)
Definition moderate (z : Z) : Prop := Z.abs z < 2 ^ 62.

Lemma distance_exact a b : moderate a -> moderate b -> abs_i64 (wrap_i64 (a - b)) = Z.abs (a - b).
Proof.
  unfold moderate, abs_i64. intros Ha Hb. assert (2 ^ 62 = 4611686018427387904) as E by done. rewrite E in *.
  rewrite (wrap_i64_small (a - b)); [|unfold i64_min, i64_max; lia].
  apply wrap_i64_small. unfold i64_min, i64_max. lia.
Qed.

(** Ascending planes, each more than the tolerance above the one before. *)
Inductive spaced : list AnchoredPlane -> Prop :=
| spaced_nil : spaced []
| spaced_one p : spaced [p]
| spaced_cons p q ps : ap_z_units p + COORDINATE_TOLERANCE_UNITS < ap_z_units q -> spaced (q :: ps) ->
    spaced (p :: q :: ps).

Lemma spaced_snoc ps p q :
  last ps = Some p -> ap_z_units p + COORDINATE_TOLERANCE_UNITS < ap_z_units q -> spaced ps -> spaced (ps ++ [q]).
Proof.
  intros Hl Hlt Hs. revert Hl. induction Hs as [|p'|a b ps Hab Hs IH]; [done | |].
  - intros [= ->]. constructor; [done | constructor].
  - intros Hl. cbn in *. constructor; [done |]. apply IH. by destruct ps.
Qed.

Lemma spaced_replace ps p p' :
  ap_z_units p' = ap_z_units p -> spaced (ps ++ [p]) -> spaced (ps ++ [p']).
Proof.
  intros Hz. induction ps as [|a ps IH]; [constructor |]. intros Hs. destruct ps as [|b ps]; cbn in *.
  - inversion Hs; subst. constructor; [by rewrite Hz | constructor].
  - inversion Hs; subst. constructor; [done | by apply IH].
Qed.

Lemma coalesce_spec (planes : list (Z * nat * AnchoredPlane)) :
  Forall (fun p => p.1.1 = ap_z_units p.2 /\ moderate (ap_z_units p.2)) planes ->
  (forall i j p q, (i <= j)%nat -> planes !! i = Some p -> planes !! j = Some q ->
     ap_z_units p.2 <= ap_z_units q.2) ->
  let runs := foldl coalesce [] planes in
  concat (ap_events <$> runs) = concat ((fun p : Z * nat * AnchoredPlane => ap_events p.2) <$> planes) /\
  Forall (fun r => moderate (ap_z_units r)) runs /\ spaced runs.
Proof.
  intros Hz Hle. cbv zeta.
  enough (H : foldl coalesce [] planes = [] /\ planes = [] \/
    exists r, last (foldl coalesce [] planes) = Some r /\
      concat (ap_events <$> foldl coalesce [] planes) =
        concat ((fun p : Z * nat * AnchoredPlane => ap_events p.2) <$> planes) /\
      Forall (fun r => moderate (ap_z_units r)) (foldl coalesce [] planes) /\ spaced (foldl coalesce [] planes) /\
      forall p, last planes = Some p -> ap_z_units r <= ap_z_units p.2).
  { destruct H as [[-> ->] | (r & _ & H1 & H2 & H3 & _)]; [|done]. split; [done |]. split; constructor. }
  induction planes as [|p planes IH] using rev_ind; [by left |]. right.
  apply Forall_app in Hz as [Hz [Hp Hmod]%Forall_singleton]. rewrite foldl_app. cbn [foldl].
  assert (Hle' : forall i j a b, (i <= j)%nat -> planes !! i = Some a -> planes !! j = Some b ->
     ap_z_units a.2 <= ap_z_units b.2).
  { intros i j a b Hij Ha Hb. apply (Hle i j); [done | by apply lookup_app_l_Some ..]. }
  specialize (IH Hz Hle'). destruct p as [[z ord] pl]. cbn in Hp, Hmod. subst z.
  destruct IH as [[-> ->] | (r & Hlast & Hc & Hm & Hs & Hr)].
  - exists pl. cbn. split; [done |]. split; [done |].
    split; [by apply Forall_singleton |]. split; [constructor |]. intros p [= <-]. cbn. lia.
  - assert (Hrp : ap_z_units r <= ap_z_units pl).
    { destruct planes as [|p0 pr] using rev_ind; [done |]. clear IHpr.
      rewrite last_snoc in Hr. specialize (Hr p0 eq_refl). etransitivity; [exact Hr |].
      refine (Hle (length pr) (length pr + 1)%nat p0 (_, ord, pl) _ _ _); [lia | |].
      - apply lookup_app_l_Some. by apply list_lookup_middle.
      - rewrite lookup_app_r by (rewrite length_app; cbn; lia). rewrite length_app. cbn.
        by replace (length pr + 1 - (length pr + 1))%nat with 0%nat by lia. }
    assert (Hmr : moderate (ap_z_units r)).
    { rewrite Forall_forall in Hm. apply Hm. apply last_Some in Hlast as [l ->]. set_solver. }
    rewrite fmap_app, concat_app, <- Hc. cbn [coalesce]. rewrite Hlast.
    rewrite distance_exact by done. rewrite Z.abs_eq by lia.
    destruct (Z.leb_spec (ap_z_units pl - ap_z_units r) COORDINATE_TOLERANCE_UNITS) as [Hnear | Hfar].
    + set (run := {| ap_z_units := ap_z_units r; ap_events := ap_events r ++ ap_events pl |}).
      apply last_Some in Hlast as [l Hl]. rewrite Hl in *. rewrite take_init. exists run.
      split; [by rewrite last_snoc |]. split.
      { rewrite !fmap_app, !concat_app. cbn. by rewrite !app_nil_r, (assoc_L (++)). }
      apply Forall_app in Hm as [Hm1 _]. split; [|split].
      * apply Forall_app. split; [done | by apply Forall_singleton].
      * by eapply spaced_replace, Hs.
      * intros p. rewrite last_snoc. intros [= <-]. exact Hrp.
    + exists pl. split; [by rewrite last_snoc |].
      split; [by rewrite fmap_app, concat_app |]. split; [apply Forall_app; split; [done | by apply Forall_singleton] |].
      split; [eapply spaced_snoc; [exact Hlast | lia | done] |]. intros p. rewrite last_snoc. intros [= <-]. cbn. lia.
Qed.

(** ** The merge rule *)

Definition row_z (row : LayerCollectionIR) : Z := mm_to_units (lc_z row).

Definition upper_index (last_model_index : option Z) (rows : list LayerCollectionIR) : Z :=
  default 0 (match head rows with Some row => Some (lc_global_layer_index row) | None => last_model_index end).

(** A row and a plane at the same height, up to the tolerance, become one row; otherwise
    the lower one comes first. *)
Inductive merged (last_model_index : option Z) :
    list LayerCollectionIR -> list AnchoredPlane -> list LayerCollectionIR -> Prop :=
| merged_nil : merged last_model_index [] [] []
| merged_both row rows plane planes out :
    Z.abs (row_z row - ap_z_units plane) <= COORDINATE_TOLERANCE_UNITS ->
    merged last_model_index rows planes out ->
    merged last_model_index (row :: rows) (plane :: planes) (append_entities row (ap_events plane) :: out)
| merged_row row rows planes out :
    (forall plane, head planes = Some plane -> row_z row + COORDINATE_TOLERANCE_UNITS < ap_z_units plane) ->
    merged last_model_index rows planes out ->
    merged last_model_index (row :: rows) planes (row :: out)
| merged_plane plane planes rows out :
    (forall row, head rows = Some row -> ap_z_units plane + COORDINATE_TOLERANCE_UNITS < row_z row) ->
    merged last_model_index rows planes out ->
    merged last_model_index rows (plane :: planes) (solo_row plane (upper_index last_model_index rows) :: out).

Lemma taken_exact z m : moderate m -> taken (Some z) m = (z <=? m + COORDINATE_TOLERANCE_UNITS).
Proof.
  unfold moderate, taken, COORDINATE_TOLERANCE_UNITS. intros Hm. assert (2 ^ 62 = 4611686018427387904) as E by done.
  rewrite E in Hm. rewrite wrap_i64_small; [done |]. unfold i64_min, i64_max. lia.
Qed.

Lemma merge_walk_merged last_model_index fuel rows planes :
  Forall (fun row => moderate (row_z row)) rows -> Forall (fun p => moderate (ap_z_units p)) planes ->
  (length rows + length planes < fuel)%nat ->
  exists out, merge_walk fuel last_model_index rows planes = Done out /\ merged last_model_index rows planes out.
Proof.
  revert rows planes. induction fuel as [|fuel IH]; intros rows planes Hr Hp Hf; [lia |].
  destruct rows as [|row rows], planes as [|plane planes]; cbn [merge_walk head fmap option_fmap option_map].
  - exists []. split; [done | constructor].
  - apply Forall_cons in Hp as [Hz Hp]. rewrite (taken_exact (ap_z_units plane)) by done.
    assert (Htrue : (ap_z_units plane <=? ap_z_units plane + COORDINATE_TOLERANCE_UNITS) = true)
      by (apply Z.leb_le; unfold COORDINATE_TOLERANCE_UNITS; lia).
    rewrite Htrue. cbn [taken]. destruct (IH [] planes) as (out & -> & Hm); [done..|cbn in *; lia |].
    cbn. eexists. split; [reflexivity |]. by apply (merged_plane _ plane planes []).
  - apply Forall_cons in Hr as [Hz Hr]. unfold compose. fold (row_z row).
    rewrite (taken_exact (row_z row)) by done.
    assert (Htrue : (row_z row <=? row_z row + COORDINATE_TOLERANCE_UNITS) = true)
      by (apply Z.leb_le; unfold COORDINATE_TOLERANCE_UNITS; lia).
    rewrite Htrue. cbn [taken]. destruct (IH rows []) as (out & -> & Hm); [done..|cbn in *; lia |].
    cbn. eexists. split; [reflexivity |]. by apply merged_row.
  - apply Forall_cons in Hr as [Hzr Hr], Hp as [Hzp Hp]. unfold compose. fold (row_z row).
    assert (Hmin : moderate (Z.min (row_z row) (ap_z_units plane))) by (unfold moderate in *; lia).
    rewrite !taken_exact by done. unfold COORDINATE_TOLERANCE_UNITS.
    destruct (Z.leb_spec (row_z row) (Z.min (row_z row) (ap_z_units plane) + 10)) as [H1 | H1],
      (Z.leb_spec (ap_z_units plane) (Z.min (row_z row) (ap_z_units plane) + 10)) as [H2 | H2].
    + destruct (IH rows planes) as (out & -> & Hm); [done..|cbn in *; lia |].
      eexists. split; [reflexivity |]. apply merged_both; [unfold COORDINATE_TOLERANCE_UNITS; lia | done].
    + destruct (IH rows (plane :: planes)) as (out & -> & Hm); [done|by constructor|cbn in *; lia |].
      eexists. split; [reflexivity |]. apply merged_row; [|done].
      intros p [= <-]. unfold COORDINATE_TOLERANCE_UNITS. lia.
    + destruct (IH (row :: rows) planes) as (out & -> & Hm); [by constructor|done|cbn in *; lia |].
      eexists. split; [reflexivity |]. apply (merged_plane _ plane planes (row :: rows)); [|done].
      intros r [= <-]. unfold COORDINATE_TOLERANCE_UNITS. lia.
    + lia.
Qed.

Lemma merged_conserves last_model_index rows planes out :
  merged last_model_index rows planes out ->
  (exists kept, kept `sublist_of` out /\ Forall2 extends rows kept) /\
  concat (unnumbered <$> out) ≡ₚ
    concat (unnumbered <$> rows) ++ (entity_of <$> concat (ap_events <$> planes)).
Proof.
  induction 1 as [|row rows plane planes out _ _ [(kept & Hk & Hf) IH] | row rows planes out _ _ [(kept & Hk & Hf) IH] |
                   plane planes rows out _ _ [(kept & Hk & Hf) IH]].
  - split; [exists []; split; constructor | done].
  - destruct (append_entities_spec (ap_events plane) row) as [Hext Hun]. split.
    + exists (append_entities row (ap_events plane) :: kept). split; [by constructor | by constructor].
    + rewrite !fmap_cons. cbn [concat]. rewrite Hun, IH, fmap_app, <- !(assoc_L (++)).
      apply Permutation_app_head. rewrite !(assoc_L (++)). apply Permutation_app_tail, Permutation_app_comm.
  - split.
    + exists (row :: kept). split; [by constructor | constructor; [apply extends_refl | done]].
    + rewrite !fmap_cons. cbn [concat]. by rewrite IH, <- (assoc_L (++)).
  - split.
    + exists kept. split; [by constructor | done].
    + rewrite !fmap_cons. cbn [concat]. unfold solo_row. rewrite (proj2 (append_entities_spec _ _)).
      cbn [unnumbered ordered_entities fmap list_fmap app]. rewrite IH, fmap_app, !(assoc_L (++)).
      apply Permutation_app_tail, Permutation_app_comm.
Qed.

(** ** Synthesis *)

Definition model_rows (committed : list CommittedLayerEvent) : list LayerCollectionIR :=
  omap (fun e => match e with ModelEvent r => Some r | _ => None end) committed.
Definition anchored_collections (committed : list CommittedLayerEvent) : list OrderedEventCollection :=
  omap (fun e => match e with AnchoredEvent c => Some c | _ => None end) committed.

(** The heights of the stream are far from the ends of [i64]. *)
Definition moderate_stream (committed : list CommittedLayerEvent) : Prop :=
  (forall row, row ∈ model_rows committed -> moderate (row_z row)) /\
  (forall c e z, c ∈ anchored_collections committed -> e ∈ oc_events c -> height_of e z -> moderate z).

(** What the synthesis comes down to. *)
Lemma synthesize_merged committed :
  moderate_stream committed ->
  match synthesize_anchored_rows committed with
  | Done (Err _) => exists c, c ∈ anchored_collections committed /\ ~ placeable (model_rows committed) c
  | Done (Ok out) => exists rows runs,
      (forall c, c ∈ anchored_collections committed -> placeable (model_rows committed) c) /\
      Forall2 extends (model_rows committed) rows /\ row_z <$> rows = row_z <$> model_rows committed /\
      concat (unnumbered <$> rows) ≡ₚ concat (unnumbered <$> model_rows committed) ++
        (entity_of <$> flat_map spanning_of (anchored_collections committed)) /\
      concat (ap_events <$> runs) ≡ₚ flat_map planar_of (anchored_collections committed) /\
      spaced runs /\ merged (lc_global_layer_index <$> last rows) rows runs out
  | _ => False
  end.
Proof.
  intros [Hrows Hevents]. unfold synthesize_anchored_rows.
  pose proof (split_stream_spec committed) as [H1 H2].
  fold (model_rows committed) in H1. fold (anchored_collections committed) in H2.
  destruct (split_stream committed) as [rows0 cs]. cbn in H1, H2. subst rows0 cs.
  pose proof (route_spanning_spec (anchored_collections committed) (model_rows committed)) as Hroute.
  destruct (route_spanning _ _) as [rows|e]; [|done]. destruct Hroute as (Hpl & Hext & Hz & Hun).
  destruct (sorted_planes_spec (anchored_collections committed)) as (Hperm & Hu & Hsorted).
  assert (Hmod : forall r, r ∈ rows -> moderate (row_z r)).
  { intros r Hr. assert (Hin : row_z r ∈ (mm_to_units ∘ lc_z <$> rows)) by (by apply (list_elem_of_fmap_2 row_z)).
    rewrite Hz in Hin. apply list_elem_of_fmap in Hin as (r' & -> & Hr'). by apply Hrows. }
  destruct (coalesce_spec (sorted_planes (anchored_collections committed))) as (Hc & Hm & Hsp); [|done|].
  { rewrite Forall_forall in Hu |- *. intros p Hp. destruct (Hu p Hp) as [Hk Hun']. split; [done |].
    destruct Hun' as [Hne Hun']. destruct (ap_events p.2) as [|e es] eqn:He; [done |].
    assert (Hin : e ∈ flat_map planar_of (anchored_collections committed)).
    { rewrite <- Hperm. apply list_elem_of_In, in_concat. exists (e :: es). split; [|left; done].
      apply list_elem_of_In. rewrite <- He. by apply (list_elem_of_fmap_2 (fun p : Z * nat * AnchoredPlane => ap_events p.2)). }
    apply list_elem_of_In, in_flat_map in Hin as (c & Hc & Hec). apply list_elem_of_In in Hc, Hec.
    unfold planar_of in Hec. apply list_elem_of_filter in Hec as [_ Hec].
    apply (Hevents c e); [done | done |]. apply Hun'. left. }
  destruct (merge_walk_merged (lc_global_layer_index <$> last rows)
    (length rows + length (foldl coalesce [] (sorted_planes (anchored_collections committed))) + 1) rows
    (foldl coalesce [] (sorted_planes (anchored_collections committed)))) as (out & -> & Hmerged).
  { by apply Forall_forall. } { done. } { lia. }
  cbn. eexists rows, _. split_and!; [done..| | |exact Hmerged]; [|done]. by rewrite Hc, Hperm.
Qed.

Lemma spanning_planar_perm cs : flat_map spanning_of cs ++ flat_map planar_of cs ≡ₚ flat_map oc_events cs.
Proof.
  induction cs as [|c cs IH]; [done |]. cbn [flat_map].
  rewrite <- IH, <- (planar_spanning_perm c), (Permutation_app_comm (planar_of c) (spanning_of c)).
  rewrite <- !(assoc_L (++)). apply Permutation_app_head.
  rewrite !(assoc_L (++)). apply Permutation_app_tail, Permutation_app_comm.
Qed.

(** [C19].  Lowering a stream to rows ends without a panic; it fails exactly when a z-spanning
    entity is anchored to a layer without a row.  Otherwise every model row is kept, in
    order, with entities added only behind its own, and the entities of all rows are
    exactly those of the model rows and of the anchored collections, each once. *)
Theorem anchored_rows_complete (committed : list CommittedLayerEvent) (Hz : moderate_stream committed) :
  exists r, synthesize_anchored_rows committed = Done r /\
    (is_ok r = true <-> forall c, c ∈ anchored_collections committed ->
       spanning_of c = [] \/
       exists row, row ∈ model_rows committed /\ lc_global_layer_index row = oc_anchor_global_layer_index c) /\
    forall out, r = Ok out ->
      (exists kept, kept `sublist_of` out /\ Forall2 extends (model_rows committed) kept) /\
      concat (unnumbered <$> out) ≡ₚ concat (unnumbered <$> model_rows committed) ++
        (entity_of <$> flat_map oc_events (anchored_collections committed)).
Proof.
  pose proof (synthesize_merged committed Hz) as H.
  destruct (synthesize_anchored_rows committed) as [[out|e]| |]; [| |done..].
  - destruct H as (rows & runs & Hpl & Hext & _ & Hun & Hev & _ & Hm). exists (Ok out). split; [done |].
    split; [done |]. intros out' [= <-]. apply merged_conserves in Hm as [(kept & Hk & Hf) Hc].
    split; [exists kept; split; [done | by eapply Forall2_extends_trans] |].
    rewrite Hc, Hun, Hev, <- (assoc_L (++)), <- fmap_app. apply Permutation_app_head, fmap_Permutation.
    apply spanning_planar_perm.
  - exists (Err e). split; [done |]. split; [|done]. split; [done |]. intros Hpl.
    destruct H as (c & Hc & Hn). by destruct Hn; apply Hpl.
Qed.

(** ** Ascending rows *)

(** A mark of a row: its height in units and whether it is a row of the model. *)
Definition marked (row : LayerCollectionIR) (m : Z * bool) : Prop :=
  if m.2 then row_z row = m.1 else lc_z row = encode (units_to_mm m.1).

(** A row that is not of the model has the index of the next model row, or else of the last one. *)
Fixpoint upper_anchored (last_model_index : option Z) (out : list (LayerCollectionIR * (Z * bool))) : Prop :=
  match out with
  | [] => True
  | (row, (_, is_model)) :: rest =>
      (if is_model : bool then True
       else lc_global_layer_index row =
              upper_index last_model_index
                (fst <$> filter (fun x : LayerCollectionIR * (Z * bool) => x.2.2 = true) rest)) /\
      upper_anchored last_model_index rest
  end.

Lemma upper_index_extended last_model_index rows rows' :
  Forall2 extends rows rows' -> upper_index last_model_index rows' = upper_index last_model_index rows.
Proof. intros H. unfold upper_index. destruct H as [|a b la lb [m ->] _]; done. Qed.

Lemma merged_ascending last_model_index rows planes out :
  merged last_model_index rows planes out -> Sorted Z.lt (row_z <$> rows) -> spaced planes ->
  exists marks, Forall2 marked out marks /\ Sorted Z.lt marks.*1 /\
    Forall2 extends rows (fst <$> filter (fun x : LayerCollectionIR * (Z * bool) => x.2.2 = true) (zip out marks)) /\
    upper_anchored last_model_index (zip out marks) /\
    forall b, (forall row, head rows = Some row -> b < row_z row) ->
              (forall p, head planes = Some p -> b < ap_z_units p) -> HdRel Z.lt b marks.*1.
Proof.
  assert (Hrows : forall row rows, Sorted Z.lt (row_z <$> row :: rows) ->
    Sorted Z.lt (row_z <$> rows) /\ forall r, head rows = Some r -> row_z row < row_z r).
  { intros row rs H. inversion H as [|? ? Hs Hh]; subst. split; [done |]. intros r Hr.
    destruct rs as [|r' rs]; [done |]. injection Hr as ->. by inversion Hh. }
  assert (Hplanes : forall p ps, spaced (p :: ps) -> spaced ps /\
    forall q, head ps = Some q -> ap_z_units p + COORDINATE_TOLERANCE_UNITS < ap_z_units q).
  { intros p ps H. inversion H as [|? |? q ? Hlt Hs]; subst.
    - split; [exact spaced_nil | by intros q].
    - split; [exact Hs |]. by intros q' [= <-]. }
  unfold COORDINATE_TOLERANCE_UNITS in *.
  induction 1 as [|row rows plane planes out Hnear _ IH | row rows planes out Hlow _ IH | plane planes rows out Hlow _ IH];
    intros Hs Hsp; unfold COORDINATE_TOLERANCE_UNITS in *.
  - exists []. split_and!; try constructor.
  - apply Hrows in Hs as [Hs Hr]. apply Hplanes in Hsp as [Hsp Hp]. destruct (IH Hs Hsp) as (marks & I1 & I2 & I3 & I4 & I5).
    destruct (append_entities_spec (ap_events plane) row) as [Hext _].
    assert (Hmark : marked (append_entities row (ap_events plane)) (row_z row, true))
      by (destruct Hext as [m Hm]; by rewrite Hm).
    exists ((row_z row, true) :: marks). split; [by constructor |]. split; [|split; [|split]].
    + constructor; [done |]. apply I5; [done |]. intros p Hp'. specialize (Hp p Hp'). cbn. lia.
    + cbn. by constructor.
    + by split.
    + intros b Hb _. constructor. by apply Hb.
  - apply Hrows in Hs as [Hs Hr]. destruct (IH Hs Hsp) as (marks & I1 & I2 & I3 & I4 & I5).
    exists ((row_z row, true) :: marks). split; [by constructor |]. split; [|split; [|split]].
    + constructor; [done |]. apply I5; [done |]. intros p Hp'. specialize (Hlow p Hp'). cbn. lia.
    + cbn. constructor; [apply extends_refl | done].
    + by split.
    + intros b Hb _. constructor. by apply Hb.
  - apply Hplanes in Hsp as [Hsp Hp]. destruct (IH Hs Hsp) as (marks & I1 & I2 & I3 & I4 & I5).
    unfold solo_row.
    match goal with |- context [append_entities ?r ?es] =>
      destruct (append_entities_spec es r) as [[more Hmore] _] end.
    exists ((ap_z_units plane, false) :: marks). split; [|split; [|split; [|split]]].
    + constructor; [by rewrite Hmore | done].
    + constructor; [done |]. apply I5; intros q Hq; [specialize (Hlow q Hq) | specialize (Hp q Hq)]; cbn; lia.
    + done.
    + cbn. split; [|done]. rewrite (upper_index_extended _ _ _ I3). by rewrite Hmore.
    + intros b _ Hb. constructor. by apply Hb.
Qed.

(** When the model rows of a stream are strictly ascending, so are the rows it is lowered
    to, at the height of the model row or, for a row made of anchored entities only, of its
    plane; the model rows are all there, and a row made of anchored entities has the layer
    index of the model row that follows it, or of the last one. *)
Theorem anchored_rows_ascending (committed : list CommittedLayerEvent) (out : list LayerCollectionIR)
    (Hz : moderate_stream committed) (Hasc : Sorted Z.lt (row_z <$> model_rows committed))
    (Hout : synthesize_anchored_rows committed = Done (Ok out)) :
  exists marks, Forall2 marked out marks /\ Sorted Z.lt marks.*1 /\
    Forall2 extends (model_rows committed)
      (fst <$> filter (fun x : LayerCollectionIR * (Z * bool) => x.2.2 = true) (zip out marks)) /\
    upper_anchored (lc_global_layer_index <$> last (model_rows committed)) (zip out marks).
Proof.
  pose proof (synthesize_merged committed Hz) as H. rewrite Hout in H.
  destruct H as (rows & runs & _ & Hext & Hrz & _ & _ & Hsp & Hm). rewrite <- Hrz in Hasc.
  destruct (merged_ascending _ _ _ _ Hm Hasc Hsp) as (marks & H1 & H2 & H3 & H4 & _).
  exists marks. split; [done |]. split; [done |]. split; [by eapply Forall2_extends_trans |].
  rewrite <- !fmap_last in *. by rewrite (extended_indices _ _ Hext) in H4.
Qed.

(** ** The grouping of entities *)

Definition wants_optimization (e : AnchoredEntity) : bool :=
  existsb (fun c => String.eqb c "Layer::PathOptimization")
    (derived_capabilities (derive (ae_input_capabilities e) (ae_output_capabilities e))).

Definition at_anchor (i : Z) (es : list AnchoredEntity) : list AnchoredEntity :=
  filter (fun e => ae_anchor_global_layer_index e = i) es.

Lemma invoke_eq lps e : invoke lps e = (e, lps, wants_optimization e).
Proof. unfold invoke, wants_optimization. cbn. by destruct e. Qed.

Lemma at_anchor_snoc i es e :
  at_anchor i (es ++ [e]) =
  if decide (ae_anchor_global_layer_index e = i) then at_anchor i es ++ [e] else at_anchor i es.
Proof.
  unfold at_anchor. rewrite filter_app. case_decide.
  - by rewrite filter_cons_True.
  - by rewrite filter_cons_False, app_nil_r.
Qed.

(** What the grouping of [es] has produced. *)
Definition collected (es : list AnchoredEntity) (c : OrderedEventCollection) : Prop :=
  oc_events c = at_anchor (oc_anchor_global_layer_index c) es /\
  optimize_paths (oc_runtime_hooks c) =
    existsb wants_optimization (at_anchor (oc_anchor_global_layer_index c) es).

Definition grouped (es : list AnchoredEntity) (cs : list OrderedEventCollection) : Prop :=
  NoDup (oc_anchor_global_layer_index <$> cs) /\
  (forall i, i ∈ oc_anchor_global_layer_index <$> cs <-> i ∈ ae_anchor_global_layer_index <$> es) /\
  forall c, c ∈ cs -> collected es c.

Lemma collect_event_grouped lps es cs e :
  grouped es cs -> grouped (es ++ [e]) (collect_event cs (invoke lps e)).
Proof.
  intros (Hnd & Hi & Hc). rewrite invoke_eq. unfold collect_event.
  set (i0 := ae_anchor_global_layer_index e) in *.
  destruct (update_first _ _ cs) as [cs'|] eqn:Hu; cbn [from_option]; unfold id.
  - apply update_first_Some in Hu as (l1 & c0 & l2 & -> & -> & Hat & _). cbv beta. apply Z.eqb_eq in Hat.
    set (c1 := {| oc_anchor_global_layer_index := oc_anchor_global_layer_index c0 |}).
    assert (Hkeys : oc_anchor_global_layer_index <$> l1 ++ c1 :: l2 = oc_anchor_global_layer_index <$> l1 ++ c0 :: l2)
      by (by rewrite !fmap_app, !fmap_cons).
    unfold grouped. rewrite Hkeys. split; [done |]. split.
    + intros i. rewrite Hi, fmap_app, elem_of_app. cbn. rewrite list_elem_of_singleton.
      split; [auto |]. intros [? | ->]; [done |].
      apply Hi. rewrite fmap_app, fmap_cons. fold i0. rewrite <- Hat. set_solver.
    + assert (Hother : forall c, c ∈ l1 \/ c ∈ l2 -> collected (es ++ [e]) c).
      { intros c Hin. destruct (Hc c) as [H1 H2]; [set_solver |]. unfold collected.
        rewrite !at_anchor_snoc, decide_False; [done |]. fold i0. rewrite <- Hat. intros Heq.
        rewrite fmap_app, fmap_cons in Hnd. apply NoDup_app in Hnd as (_ & Hn1 & [Hn2 _]%NoDup_cons).
        destruct Hin as [Hin | Hin].
        - apply (Hn1 (oc_anchor_global_layer_index c)); [by apply list_elem_of_fmap_2 | rewrite <- Heq; left].
        - apply Hn2. rewrite Heq. by apply list_elem_of_fmap_2. }
      intros c [Hin | [-> | Hin]%elem_of_cons]%elem_of_app; [auto | | auto].
      destruct (Hc c0) as [H1 H2]; [set_solver |]. unfold collected, c1. cbn.
      rewrite Hat, at_anchor_snoc, decide_True by done. rewrite Hat in H1, H2. split; [by rewrite H1 |].
      rewrite H2, existsb_app. cbn. by rewrite orb_false_r.
  - pose proof (proj1 (update_first_None _ _ _) Hu) as Hno.
    assert (Hnot : i0 ∉ oc_anchor_global_layer_index <$> cs).
    { intros (c & Heq & Hin)%list_elem_of_fmap. specialize (Hno c Hin). apply Z.eqb_neq in Hno. done. }
    assert (Hnone : at_anchor i0 es = []).
    { apply list_nil_elem. intros x [Hx Hin]%list_elem_of_filter. apply Hnot, Hi. rewrite <- Hx. by apply list_elem_of_fmap_2. }
    split; [|split].
    + rewrite fmap_app. apply NoDup_app. split; [done |]. split; [|apply NoDup_singleton].
      cbn. fold i0. by intros x Hx ->%list_elem_of_singleton.
    + intros i. rewrite !fmap_app, !elem_of_app, Hi. done.
    + intros c [Hin | ->%list_elem_of_singleton]%elem_of_app.
      * destruct (Hc c Hin) as [H1 H2]. unfold collected. rewrite !at_anchor_snoc, decide_False; [done |].
        fold i0. intros Heq. apply Hnot. rewrite Heq. by apply list_elem_of_fmap_2.
      * unfold collected. cbn. fold i0. rewrite at_anchor_snoc, decide_True, Hnone by done. cbn. by rewrite orb_false_r.
Qed.

Lemma collect_grouped lps es : grouped es (foldl collect_event [] (invoke lps <$> es)).
Proof.
  induction es as [|e es IH] using rev_ind.
  - split; [constructor |]. split; [done |]. by intros c ?%elem_of_nil.
  - rewrite fmap_app, foldl_app. by apply collect_event_grouped.
Qed.

Lemma validate_entities_Ok show_f32 es :
  match validate_entities show_f32 es with
  | Ok _ => forall e, e ∈ es -> validate_anchored_entity show_f32 e = Ok tt
  | Err _ => exists e, e ∈ es /\ validate_anchored_entity show_f32 e <> Ok tt
  end.
Proof.
  induction es as [|e es IH]; cbn [validate_entities]; [by intros e ?%elem_of_nil |].
  destruct (validate_anchored_entity show_f32 e) as [[]|m] eqn:Hv.
  - destruct (validate_entities show_f32 es).
    + by intros x [-> | Hx]%elem_of_cons; [|apply IH].
    + destruct IH as (x & Hx & Hn). exists x. split; [by right | done].
  - exists e. split; [left | by rewrite Hv].
Qed.

Lemma commit_collections_spec cs :
  (forall c, c ∈ cs -> Z.of_nat (length (oc_events c)) <= 2 ^ 32) ->
  commit_ordered_event_collections cs = Done ((fun c => with_events c
    (if optimize_paths (oc_runtime_hooks c) then reverse_event <$> reverse (sort_by event_leb (oc_events c))
     else sort_by event_leb (oc_events c))) <$> cs).
Proof.
  induction cs as [|c cs IH]; intros Hl; [done |]. cbn [commit_ordered_event_collections].
  rewrite commit_collection_spec by (apply Hl; left). cbn. rewrite IH by (intros x Hx; apply Hl; by right). done.
Qed.

Section collected_spec.
Context {P : PrepassTypes}.
#[local] Existing Instance layer_types.
Context (boolean_op_tree_64 : ClipOperation -> list (list Point2) -> list (list Point2) -> PolyPath).
Context (split_message : SplitError -> string) (show_f32 : f32 -> string)
  (show_stage_error : LayerStageError -> string).

(** Executing anchored entities ends without a panic, and succeeds exactly when every
    entity off the raft passes the check.  Then there is one collection for each anchor
    layer of the entities that are not printed with their layer, in ascending order; it
    has exactly the entities of that anchor, sorted by height and identity, or, when one of
    them asks for path optimisation, in the opposite order with their points reversed.
    The outcome does not depend on the execution mode. *)
Theorem anchored_entities_collected (plan : ExecutionPlan) (entities : list AnchoredEntity)
    (force_parallel layer_parallel_safe : bool) (Hl : Z.of_nat (length entities) <= 2 ^ 32) :
  let off_raft e := global_layer_is_raft plan (ae_anchor_global_layer_index e) = false in
  let routed := filter (fun e => is_same_z e plan = false /\ off_raft e) entities in
  exists r, execute_anchored_event_collections boolean_op_tree_64 split_message show_f32 show_stage_error
      plan entities force_parallel layer_parallel_safe = Done r /\
    (is_ok r = true <->
       forall e, e ∈ entities -> off_raft e -> validate_anchored_entity show_f32 e = Ok tt) /\
    forall cs, r = Ok cs ->
      Sorted Z.lt (oc_anchor_global_layer_index <$> cs) /\
      (forall i, i ∈ oc_anchor_global_layer_index <$> cs <-> i ∈ ae_anchor_global_layer_index <$> routed) /\
      forall c, c ∈ cs ->
        let es := at_anchor (oc_anchor_global_layer_index c) routed in
        oc_events c = if existsb wants_optimization es
                      then reverse_event <$> reverse (sort_by event_leb es) else sort_by event_leb es.
Proof.
  intros off_raft routed. unfold execute_anchored_event_collections.
  set (anchored := filter _ entities).
  pose proof (validate_entities_Ok show_f32 anchored) as Hv.
  assert (Hall : forall e, e ∈ anchored <-> e ∈ entities /\ off_raft e).
  { intros e. unfold anchored. rewrite list_elem_of_filter. tauto. }
  destruct (validate_entities show_f32 anchored) as [u|err].
  2: { exists (Err err). split; [done |]. split; [|done]. split; [done |]. intros Hok.
       destruct Hv as (e & [He Hr]%Hall & Hn). by destruct Hn; apply Hok. }
  assert (Hrouted : filter (fun e => is_same_z e plan = false) anchored = routed).
  { unfold anchored, routed. by rewrite list_filter_filter. }
  rewrite Hrouted. assert (Hinv : forall b, invoke_all b layer_parallel_safe routed = invoke layer_parallel_safe <$> routed)
    by (intros b; unfold invoke_all; by case_match).
  rewrite Hinv. destruct (collect_grouped layer_parallel_safe routed) as (Hnd & Hi & Hc).
  set (cs0 := foldl collect_event [] _) in *.
  assert (Hperm : sort_by anchor_leb cs0 ≡ₚ cs0) by apply sort_by_perm.
  set (cs := sort_by anchor_leb cs0) in *.
  assert (Hev : forall c e, c ∈ cs -> e ∈ oc_events c -> e ∈ routed).
  { intros c e Hin He. rewrite Hperm in Hin. rewrite (proj1 (Hc c Hin)) in He. by apply list_elem_of_filter in He as [_ ?]. }
  cbn [apply]. unfold apply_anchored_events.
  assert (Hfe : for_each (validate_anchored_entity show_f32) (flat_map oc_events cs) = Ok tt).
  { apply for_each_Ok. intros e He. apply list_elem_of_In, in_flat_map in He as (c & Hin & He).
    apply list_elem_of_In in Hin, He. apply Hv, Hall. specialize (Hev c e Hin He).
    unfold routed in Hev. apply list_elem_of_filter in Hev as [[_ ?] ?]. done. }
  rewrite Hfe, commit_collections_spec.
  2: { intros c Hin. rewrite Hperm in Hin. rewrite (proj1 (Hc c Hin)).
       pose proof (length_filter (fun e => ae_anchor_global_layer_index e = oc_anchor_global_layer_index c) routed).
       pose proof (length_filter (fun e => is_same_z e plan = false /\ off_raft e) entities).
       unfold at_anchor. unfold routed in *. lia. }
  cbn [exec_bind set_anchored_event_collections anchored_event_collections with_anchored_event_collections].
  eexists. split; [reflexivity |]. split; [split; [|done] |].
  { intros _ e He Hr. by apply Hv, Hall. }
  intros cs' [= <-]. rewrite <- list_fmap_compose.
  change (oc_anchor_global_layer_index ∘ _) with oc_anchor_global_layer_index. split; [|split].
  - assert (Hsort : sorted_by anchor_leb cs).
    { apply sort_by_sorted; unfold anchor_leb; [intros a b c; rewrite !Z.leb_le; lia | intros a b; rewrite !Z.leb_le; lia]. }
    assert (Hnds : NoDup (oc_anchor_global_layer_index <$> cs)) by (by rewrite Hperm).
    apply StronglySorted_Sorted. clear -Hsort Hnds. induction Hsort as [|c cs Hs IH Hf]; [constructor |].
    rewrite fmap_cons in *. apply NoDup_cons in Hnds as [Hn Hnd]. constructor; [by apply IH |].
    apply Forall_forall. intros i (c' & -> & Hc')%list_elem_of_fmap. rewrite Forall_forall in Hf.
    specialize (Hf c' Hc'). apply Z.leb_le in Hf.
    assert (oc_anchor_global_layer_index c <> oc_anchor_global_layer_index c'); [|lia].
    intros Heq. apply Hn. rewrite Heq. by apply list_elem_of_fmap_2.
  - intros i. by rewrite Hperm.
  - intros c (c0 & -> & Hin)%list_elem_of_fmap. cbn. rewrite Hperm in Hin. destruct (Hc c0 Hin) as [H1 H2].
    rewrite <- H2, <- H1. by destruct (optimize_paths _).
Qed.
End collected_spec.

(** ** The stream *)

Lemma take_anchored_spec index cs :
  Sorted Z.le (oc_anchor_global_layer_index <$> cs) ->
  (forall c, c ∈ cs -> index <= oc_anchor_global_layer_index c) ->
  take_anchored index cs =
    (filter (fun c => oc_anchor_global_layer_index c = index) cs,
     filter (fun c => oc_anchor_global_layer_index c <> index) cs).
Proof.
  induction cs as [|c cs IH]; intros Hs Hle; [done |]. cbn [take_anchored].
  pose proof (Sorted_StronglySorted (fun a b c => Z.le_trans a b c) Hs) as Hss.
  inversion Hs as [|? ? Hs' _]; subst. inversion Hss as [|? ? _ Hfor]; subst.
  unfold anchored_at. destruct (Z.eqb_spec (oc_anchor_global_layer_index c) index) as [Heq | Hne].
  - rewrite IH; [|done|intros x Hx; apply Hle; by right].
    rewrite !filter_cons, decide_True by done. rewrite decide_False by tauto. done.
  - assert (Hno : forall x, x ∈ c :: cs -> oc_anchor_global_layer_index x <> index).
    { intros x [-> | Hx]%elem_of_cons; [done |]. rewrite Forall_forall in Hfor.
      specialize (Hfor _ (list_elem_of_fmap_2 oc_anchor_global_layer_index _ _ Hx)).
      specialize (Hle c (list_elem_of_here _ _)). lia. }
    f_equal; symmetry.
    + apply list_nil_elem. intros x [Hx Hin]%list_elem_of_filter. by apply (Hno x).
    + apply list_filter_all. apply Forall_forall. exact Hno.
Qed.

(** When the layers are in ascending order and every collection is anchored to one of
    them, the stream is the layers in order, each directly preceded by the collections
    anchored to it, in their order. *)
Theorem stream_follows_layers (layers : list LayerCollectionIR) (collections : list OrderedEventCollection)
    (Hl : Sorted Z.lt (lc_global_layer_index <$> layers))
    (Ha : forall c, c ∈ collections -> oc_anchor_global_layer_index c ∈ lc_global_layer_index <$> layers) :
  commit_stream layers (sort_by anchor_leb collections) =
  concat ((fun layer =>
    (AnchoredEvent <$> filter (fun c => oc_anchor_global_layer_index c = lc_global_layer_index layer)
                         (sort_by anchor_leb collections)) ++ [ModelEvent layer]) <$> layers).
Proof.
  assert (Hs : Sorted Z.le (oc_anchor_global_layer_index <$> sort_by anchor_leb collections)).
  { apply StronglySorted_Sorted.
    assert (Hsort : sorted_by anchor_leb (sort_by anchor_leb collections)).
    { apply sort_by_sorted; unfold anchor_leb; [intros a b c; rewrite !Z.leb_le; lia | intros a b; rewrite !Z.leb_le; lia]. }
    induction Hsort as [|c cs _ IH Hf]; [constructor |]. rewrite fmap_cons. constructor; [done |].
    apply Forall_forall. intros i (c' & -> & Hc')%list_elem_of_fmap. rewrite Forall_forall in Hf.
    by apply Z.leb_le, Hf. }
  assert (Ha' : forall c, c ∈ sort_by anchor_leb collections ->
    oc_anchor_global_layer_index c ∈ lc_global_layer_index <$> layers).
  { intros c. rewrite sort_by_perm. apply Ha. }
  clear Ha. revert Hs Ha'. generalize (sort_by anchor_leb collections). clear collections.
  induction layers as [|layer layers IH]; intros cs Hs Ha.
  { destruct cs as [|c cs]; [done |]. by specialize (Ha c (list_elem_of_here _ _)); apply elem_of_nil in Ha. }
  rewrite fmap_cons in Hl. pose proof (Sorted_StronglySorted (fun a b c => Z.lt_trans a b c) Hl) as Hss.
  inversion Hl as [|? ? Hl' _]; subst. inversion Hss as [|? ? _ Hfor]; subst. rewrite Forall_forall in Hfor.
  cbn [commit_stream fmap list_fmap concat]. rewrite take_anchored_spec; [|done |].
  2: { intros c Hc. specialize (Ha c Hc). apply elem_of_cons in Ha as [-> | Hin]; [lia |].
       specialize (Hfor _ Hin). lia. }
  rewrite IH; [|done | |].
  - rewrite <- (assoc_L (++)). cbn. do 2 f_equal. f_equal. apply list_fmap_ext. intros k l Hin%list_elem_of_lookup_2. do 2 f_equal.
    rewrite list_filter_filter. apply list_filter_iff. intros c.
    specialize (Hfor _ (list_elem_of_fmap_2 lc_global_layer_index _ _ Hin)). lia.
  - clear -Hs. induction cs as [|c cs IH]; [constructor |]. rewrite fmap_cons in Hs.
    pose proof (Sorted_StronglySorted (fun a b c => Z.le_trans a b c) Hs) as Hss.
    apply StronglySorted_Sorted. clear IH Hs. revert Hss. rewrite <- fmap_cons. generalize (c :: cs). clear.
    intros cs. induction cs as [|c cs IH]; [constructor |]. rewrite fmap_cons. intros H. inversion H; subst.
    rewrite filter_cons. case_decide; [|by apply IH]. rewrite fmap_cons. constructor; [by apply IH |].
    apply Forall_forall. intros i (c' & -> & [_ Hc']%list_elem_of_filter)%list_elem_of_fmap.
    rewrite Forall_forall in H3. apply H3. by apply list_elem_of_fmap_2.
  - intros c [Hne Hin]%list_elem_of_filter. specialize (Ha c Hin). by apply elem_of_cons in Ha as [? | ?].
Qed.

(** ** Samples *)

#[local] Existing Instance sample_prepass.
#[local] Existing Instance layer_types.

Definition planar_entity (id index z : Z) : AnchoredEntity :=
  {| ae_local_id := id; ae_anchor_global_layer_index := index; ae_geometry := Planar z;
     ae_input_capabilities := []; ae_output_capabilities := []; ae_provenance := ae_provenance (sample_anchored 0 (Planar 0) ZERO);
     ae_path_points := []; ae_role := SupportMaterial |}.

Definition sample_hooks : AnchoredEventRuntimeHooks := with_optimize_paths AnchoredEventRuntimeHooks_default false.

(** Layers at 0.5 and 1 mm; planes at 0.2 mm and, within the tolerance of the second layer, 1.0005 mm. *)
Definition sample_stream : list CommittedLayerEvent :=
  [ModelEvent (sample_row 0 (F32 1056964608));
   AnchoredEvent {| oc_anchor_global_layer_index := 1; oc_events := [planar_entity 7 1 10005; planar_entity 8 1 2000];
                    oc_runtime_hooks := sample_hooks |};
   ModelEvent (sample_row 1 ONE)].

Lemma sample_stream_moderate : moderate_stream sample_stream.
Proof.
  split.
  - intros row Hr. cbn in Hr. rewrite !elem_of_cons, elem_of_nil in Hr.
    destruct Hr as [-> | [-> | []]]; vm_compute; reflexivity.
  - intros c e z Hc He Hh. cbn in Hc. apply list_elem_of_singleton in Hc as ->. cbn in He.
    rewrite !elem_of_cons, elem_of_nil in He. destruct He as [-> | [-> | []]]; injection Hh as <-; vm_compute; reflexivity.
Qed.

(** Both entities reach a row, the higher one the row of the second layer. *)
Lemma anchored_rows_complete_witness :
  exists out, synthesize_anchored_rows sample_stream = Done (Ok out) /\
    (fun row => (lc_global_layer_index row, pe_entity_id <$> ordered_entities row)) <$> out =
      [(0, [8]); (0, []); (1, [7])].
Proof.
  destruct (anchored_rows_complete sample_stream sample_stream_moderate) as (r & Hr & Hok & _).
  destruct r as [out|e]; [|vm_compute in Hr; discriminate Hr].
  exists out. split; [exact Hr |]. vm_compute in Hr. injection Hr as <-. reflexivity.
Defined.

Definition sample_out : list LayerCollectionIR :=
  match synthesize_anchored_rows sample_stream with Done (Ok out) => out | _ => [] end.

Lemma anchored_rows_ascending_witness :
  exists marks, Forall2 marked sample_out marks /\ Sorted Z.lt marks.*1 /\ length marks = 3%nat.
Proof.
  destruct (anchored_rows_ascending sample_stream sample_out sample_stream_moderate
    ltac:(vm_compute; repeat constructor) ltac:(vm_compute; reflexivity)) as (marks & Hm & Hs & _).
  exists marks. split; [exact Hm |]. split; [exact Hs |]. symmetry. exact (Forall2_length _ _ _ Hm).
Defined.

(** An entity below its layer and one in it: one collection of one event. *)
Lemma anchored_entities_collected_witness :
  exists cs, execute_anchored_event_collections coarse_op no_message no_text (fun _ => "") sample_plan
      [planar_entity 7 3 500; sample_anchored 8 (Planar 2000) z_fifth] true true = Done (Ok cs) /\
    (fun c => ae_local_id <$> oc_events c) <$> cs = [[7]].
Proof.
  destruct (anchored_entities_collected coarse_op no_message no_text (fun _ => "") sample_plan
    [planar_entity 7 3 500; sample_anchored 8 (Planar 2000) z_fifth] true true ltac:(vm_compute; discriminate))
    as (r & Hr & _).
  destruct r as [cs|e]; [|vm_compute in Hr; discriminate Hr].
  exists cs. split; [exact Hr |]. vm_compute in Hr. injection Hr as <-. reflexivity.
Defined.

Lemma stream_follows_layers_witness :
  commit_stream (model_rows sample_stream) (sort_by anchor_leb (anchored_collections sample_stream)) = 
  [ModelEvent (sample_row 0 (F32 1056964608));
   AnchoredEvent {| oc_anchor_global_layer_index := 1; oc_events := [planar_entity 7 1 10005; planar_entity 8 1 2000];
                    oc_runtime_hooks := sample_hooks |};
   ModelEvent (sample_row 1 ONE)].
Proof.
  rewrite (stream_follows_layers (model_rows sample_stream) (anchored_collections sample_stream)).
  - vm_compute. reflexivity.
  - vm_compute. repeat constructor.
  - intros c Hc. cbn in Hc. apply list_elem_of_singleton in Hc as ->. right. left.
Defined.
