(* ===== verification/Assembly.v ===== *)
(** The entities of a layer, assembled from what its stages committed
    ([assemble_ordered_entities_with_support_identities] of
    [slicer-runtime/src/layer_executor.rs], [slicer-ir/src/polygon_predicate.rs]).

    Walls, infill, raft and support become one sequence of print entities; each gets the
    tool that paint, the region, its position, the configuration or the run select. *)
From Stdlib Require Import Floats.SpecFloat.
From stdpp Require Import prelude gmap strings list.
From S2P Require Import Prelude Ir Float32 RegionMap Planar LayerIr.

#[local] Open Scope string_scope.
#[local] Open Scope list_scope.
#[local] Open Scope Z_scope.

(** ** The winding number, in binary64 *)

Definition f64_add (a b : spec_float) : spec_float := SFadd 53 1024 a b.
Definition f64_sub (a b : spec_float) : spec_float := SFsub 53 1024 a b.
Definition f64_mul (a b : spec_float) : spec_float := SFmul 53 1024 a b.
Definition f64_div (a b : spec_float) : spec_float := SFdiv 53 1024 a b.

(** [x as f64]: exact. *)
Definition f64_from_f32 (x : f32) : spec_float :=
  match decode x with
  | S754_finite s m e => binary_normalize 53 1024 (if s then Zneg m else Zpos m) e s
  | x => x
  end.

Definition F64_ZERO : spec_float := S754_zero false.
Definition F64_ONE : spec_float := S754_finite false 4503599627370496 (-52).
Definition F64_UNITS_PER_MM : spec_float := S754_finite false 5497558138880000 (-39).

(** The literal [1.0e-3]. *)
Definition EPS_MM : spec_float := S754_finite false 4611686018427388 (-62).

Definition units_to_mm_f64 (u : Z) : spec_float := f64_div (binary_normalize 53 1024 u 0 false) F64_UNITS_PER_MM.

(** [f64::clamp]: a NaN stays. *)
Definition f64_clamp (x lo hi : spec_float) : spec_float :=
  if SFltb x lo then lo else if SFltb hi x then hi else x.

Definition is_left (a b : Point2) (px_mm py_mm : spec_float) : spec_float :=
  let ax := units_to_mm_f64 (px a) in let ay := units_to_mm_f64 (py a) in
  let bx := units_to_mm_f64 (px b) in let by_ := units_to_mm_f64 (py b) in
  f64_sub (f64_mul (f64_sub bx ax) (f64_sub py_mm ay)) (f64_mul (f64_sub px_mm ax) (f64_sub by_ ay)).

Definition dist2_point_to_segment_mm (a b : Point2) (px_mm py_mm : spec_float) : spec_float :=
  let ax := units_to_mm_f64 (px a) in let ay := units_to_mm_f64 (py a) in
  let bx := units_to_mm_f64 (px b) in let by_ := units_to_mm_f64 (py b) in
  let dx := f64_sub bx ax in
  let dy := f64_sub by_ ay in
  let len2 := f64_add (f64_mul dx dx) (f64_mul dy dy) in
  if SFeqb len2 F64_ZERO then
    let ex := f64_sub px_mm ax in
    let ey := f64_sub py_mm ay in
    f64_add (f64_mul ex ex) (f64_mul ey ey)
  else
    let t := f64_clamp (f64_div (f64_add (f64_mul (f64_sub px_mm ax) dx) (f64_mul (f64_sub py_mm ay) dy)) len2)
               F64_ZERO F64_ONE in
    let cx := f64_add ax (f64_mul t dx) in
    let cy := f64_add ay (f64_mul t dy) in
    let ex := f64_sub px_mm cx in
    let ey := f64_sub py_mm cy in
    f64_add (f64_mul ex ex) (f64_mul ey ey).

(** One edge of the winding count; [wn] is an [i32]. *)
Definition winding_step (px_mm py_mm : spec_float) (wn : Z) (edge : Point2 * Point2) : Z :=
  let '(a, b) := edge in
  let ay := units_to_mm_f64 (py a) in let by_ := units_to_mm_f64 (py b) in
  if SFleb ay py_mm then
    if SFltb py_mm by_ && SFltb F64_ZERO (is_left a b px_mm py_mm) then wn + 1 else wn
  else if SFleb by_ py_mm && SFltb (is_left a b px_mm py_mm) F64_ZERO then wn - 1 else wn.

Definition point_in_contour_winding (ring : Polygon) (px_mm py_mm eps_mm : spec_float) : bool :=
  let pts := points ring in
  if Nat.ltb (length pts) 3 then false
  else
    let eps2 := f64_mul eps_mm eps_mm in
    if existsb (fun e => SFleb (dist2_point_to_segment_mm e.1 e.2 px_mm py_mm) eps2) (edges pts) then true
    else negb (foldl (winding_step px_mm py_mm) 0 (edges pts) =? 0).

Definition point_in_polygon_winding (poly : ExPolygon) (px_mm py_mm eps_mm : spec_float) : bool :=
  point_in_contour_winding (contour poly) px_mm py_mm eps_mm.

(** ** Tools *)

Record SupportToolSelection := { support_tool : Z; interface_tool : Z; tool_count : Z }.
Definition SupportToolSelection_default : SupportToolSelection :=
  {| support_tool := 0; interface_tool := 0; tool_count := 1 |}.

Definition DEFAULT_TOOL : Z := 0.

(** The tool of the first material link of a variant chain. *)
Definition material_tool (chain : list (string * PaintValue)) : option Z :=
  head (omap (fun link : string * PaintValue =>
                match link.2 with
                | PaintToolIndex n => if String.eqb link.1 "material" then Some n else None
                | _ => None
                end) chain).

Definition count_tools (flags : list WallFeatureFlags) : gmap Z nat :=
  foldl (fun counts f => match wf_tool_index f with
                         | Some ti => <[ti := S (default 0%nat (counts !! ti))]> counts
                         | None => counts
                         end) ∅ flags.

(** [Iterator::max_by_key]: of equal maxima the last. *)
Definition max_by_key {A} (key : A -> nat) (l : list A) : option A :=
  match l with
  | [] => None
  | x :: l => Some (foldl (fun acc y => if Nat.leb (key acc) (key y) then y else acc) x l)
  end.

(** ** Assembly *)

Section assemble.
(** The order in which a [HashMap] is iterated, unspecified by the library. *)
Context (hash_order : gmap Z nat -> list (Z * nat)).

Definition dominant_tool_index (flags : list WallFeatureFlags) : option Z :=
  fst <$> max_by_key snd (hash_order (count_tools flags)).

(** [out], the side table of support, and the generator of identifiers. *)
Record assembly := {
  as_out : list PrintEntity;
  as_identities : list SupportEntityIdentity;
  as_gen : EntityId.LayerEntityIdGen
}.

Definition push (st : assembly) (path : ExtrusionPath3D) (role : ExtrusionRole) (tool_index : Z)
    (key : RegionKey) (support_identity : option SupportEntry) : assembly :=
  let topo_order := wrap_u32 (Z.of_nat (length (as_out st))) in
  let '(entity_id, gen) := EntityId.next (as_gen st) in
  {| as_out := as_out st ++
       [{| pe_entity_id := entity_id; pe_path := path; pe_role := role; pe_region_key := key;
           pe_topo_order := topo_order; pe_tool_index := tool_index |}];
     as_identities := as_identities st ++
       match support_identity with
       | Some entry => [{| sei_entity_id := entity_id; sei_family_id := se_family_id entry;
                           sei_body_id := se_body_id entry; sei_demand_ids := se_demand_ids entry |}]
       | None => []
       end;
     as_gen := gen |}.

Context (global_layer_index : Z) (global_layer_is_raft : bool).
Context (region_map : option RegionMapIR) (slice : option SliceIR) (support_tools : SupportToolSelection).

Definition slice_regions : list SlicedRegion := match slice with Some s => sl_regions s | None => [] end.

Definition key_of (source : source_key) : RegionKey :=
  {| rk_global_layer_index := global_layer_index; rk_object_id := source.1.1; rk_region_id := source.1.2;
     rk_variant_chain := source.2 |}.

(** [variant_tool_by_region]: a later insertion replaces an earlier one. *)
Definition variant_tool_by_region (key : RegionKey) : option Z :=
  last (omap (fun r => match material_tool (sr_variant_chain r) with
                       | Some tool => if bool_decide (key_of (slice_key r) = key) then Some tool else None
                       | None => None
                       end) slice_regions).

Definition painted_regions : list (Z * list ExPolygon) :=
  omap (fun r => match sr_variant_chain r with
                 | [] => None
                 | chain => (fun tool => (tool, sr_polygons r)) <$> material_tool chain
                 end) slice_regions.

Definition is_base_region_key (key : RegionKey) : bool :=
  existsb (fun r => match sr_variant_chain r with [] => bool_decide (key_of (slice_key r) = key) | _ => false end)
    slice_regions.

Definition lookup_tool_by_point_mm (px_mm py_mm : f32) : option Z :=
  fst ∘ snd <$> list_find (fun e : Z * list ExPolygon =>
    existsb (fun ep => point_in_polygon_winding ep (f64_from_f32 px_mm) (f64_from_f32 py_mm) EPS_MM) e.2 = true)
    painted_regions.

Definition spatial_tool (path : ExtrusionPath3D) : option Z :=
  head (ep_points path) ≫= fun p => lookup_tool_by_point_mm (pw_x p) (pw_y p).

(** The extruder that a modifier volume sets in the configuration of the unpainted region. *)
Definition modifier_tool (region : PerimeterRegion) : exec (option Z) :=
  match region_map with
  | None => Done None
  | Some rm =>
      let base_key := key_of (pr_object_id region, pr_region_id region, []) in
      match rm_get rm base_key with
      | None => Done None
      | Some _ =>
          let! config := config_for rm base_key in
          Done match rc_extensions config !! "extruder" with
               | Some (CvInt n) => if 0 <=? n then Some n else None
               | _ => None
               end
      end
  end.

Definition variant_tool (source : source_key) : option Z :=
  match variant_tool_by_region (key_of source) with
  | Some tool => Some tool
  | None => material_tool source.2
  end.

(** [a.or(b)]. *)
Definition or_else (a b : option Z) : option Z := match a with Some _ => a | None => b end.

Definition wall_tool (region : PerimeterRegion) (modifier : option Z) (wl : WallLoop) : Z :=
  let source := perimeter_key region in
  let paint_tool := dominant_tool_index (wl_feature_flags wl) in
  let variant := variant_tool source in
  let region_is_base := is_base_region_key (key_of source) in
  let region_is_tagged := bool_decide (is_Some variant) in
  wrap_u32 (default DEFAULT_TOOL
    (or_else (or_else (or_else paint_tool variant)
       (if region_is_base || region_is_tagged then None else spatial_tool (wl_path wl))) modifier)).

Definition push_walls (st : assembly) (region : PerimeterRegion) : exec assembly :=
  let! modifier := modifier_tool region in
  Done (foldl (fun st wl => push st (wl_path wl) (ep_role (wl_path wl)) (wall_tool region modifier wl)
                              (key_of (perimeter_key region)) None)
          st (pr_walls region)).

Definition infill_tool (region : InfillRegion) (path : ExtrusionPath3D) : Z :=
  let variant := variant_tool (infill_key region) in
  let authored := match ep_tool_index path with
                  | Some t => if t <? tool_count support_tools then Some t else None
                  | None => None
                  end in
  wrap_u32 (default DEFAULT_TOOL
    (or_else (or_else authored variant)
       (if bool_decide (is_Some variant) then None else spatial_tool path))).

Definition push_infill (st : assembly) (region : InfillRegion) : assembly :=
  foldl (fun st path => push st path (ep_role path) (infill_tool region path) (key_of (infill_key region)) None)
    st (sparse_infill region ++ solid_infill region ++ ironing region ++ internal_bridge_infill region).

(** The literal [0.4]. *)
Definition RAFT_WIDTH : f32 := F32 1053609165.

Definition raft_point (z : f32) (point : Point2) : Point3WithWidth :=
  {| pw_x := encode (SFdiv 24 128 (as_f32 (px point)) UNITS_PER_MM);
     pw_y := encode (SFdiv 24 128 (as_f32 (py point)) UNITS_PER_MM); pw_z := z; pw_width := RAFT_WIDTH;
     pw_flow_factor := ONE; pw_overhang_quartile := None; pw_dist_to_top_mm := ZERO;
     pw_overhang_distance_mm := None |}.

(** The ring is closed unless it has two points. *)
Definition raft_points (z : f32) (polygon : ExPolygon) : list Point3WithWidth :=
  let pts := raft_point z <$> points (contour polygon) in
  if Nat.eqb (length pts) 2 then pts
  else match pts with
       | [] => pts
       | first :: _ => if option_eqb point_eqb (last pts) (Some first) then pts else pts ++ [first]
       end.

Definition push_raft (z : f32) (region : SlicedRegion) (st : assembly) (polygon : ExPolygon) : assembly :=
  let pts := raft_points z polygon in
  if Nat.ltb (length pts) 2 then st
  else push st {| ep_points := pts; ep_role := RaftInfill; ep_speed_factor := ONE; ep_tool_index := None;
                  ep_order_lock := None |} RaftInfill (wrap_u32 DEFAULT_TOOL) (key_of (slice_key region)) None.

Definition support_path_tool (entry : SupportEntry) (path : ExtrusionPath3D) : Z :=
  match se_role entry with
  | TopInterface | BottomInterface | SupportIroning => interface_tool support_tools
  | SupportBody => match ep_role path with
                   | SupportInterface | Ironing => interface_tool support_tools
                   | _ => support_tool support_tools
                   end
  | RaftRole => support_tool support_tools
  end.

Definition support_key (entry : SupportEntry) : source_key :=
  (se_object_id entry, se_region_id entry, se_variant_chain entry).

Definition push_support (st : assembly) (entry : SupportEntry) : assembly :=
  foldl (fun st path => push st path (ep_role path) (support_path_tool entry path) (key_of (support_key entry)) (Some entry))
    st (se_paths entry).

Definition assembly_start : assembly := {| as_out := []; as_identities := []; as_gen := EntityId.new |}.

Fixpoint push_perimeters (st : assembly) (regions : list PerimeterRegion) : exec assembly :=
  match regions with
  | [] => Done st
  | region :: rest => let! st := push_walls st region in push_perimeters st rest
  end.

Definition assemble_ordered_entities_with_support_identities (perimeter : option PerimeterIR)
    (infill : option InfillIR) (support : option SupportIR)
    : exec (list PrintEntity * list SupportEntityIdentity) :=
  let! st := match perimeter with
             | Some perim => if global_layer_is_raft then Done assembly_start
                             else push_perimeters assembly_start (per_regions perim)
             | None => Done assembly_start
             end in
  let st := match infill with
            | Some inf => if global_layer_is_raft then st else foldl push_infill st (inf_regions inf)
            | None => st
            end in
  let st := match slice with
            | Some s => foldl (fun st region => foldl (push_raft (sl_z s) region) st (sr_raft_fill region)) st (sl_regions s)
            | None => st
            end in
  let st := match support with
            | Some sup => if global_layer_is_raft then st else foldl push_support st (su_entries sup)
            | None => st
            end in
  Done (as_out st, as_identities st).
End assemble.

(** ** Jobs: what is pushed, in order *)

Record job := {
  jb_path : ExtrusionPath3D;
  jb_role : ExtrusionRole;
  jb_tool : Z;
  jb_source : source_key;
  jb_support : option SupportEntry
}.

Section jobs.
Context (hash_order : gmap Z nat -> list (Z * nat)).
Context (global_layer_index : Z) (global_layer_is_raft : bool).
Context (region_map : option RegionMapIR) (slice : option SliceIR) (support_tools : SupportToolSelection).

Definition do_job (st : assembly) (j : job) : assembly :=
  push st (jb_path j) (jb_role j) (jb_tool j) (key_of global_layer_index (jb_source j)) (jb_support j).

Definition wall_jobs (region : PerimeterRegion) (modifier : option Z) : list job :=
  (fun wl => {| jb_path := wl_path wl; jb_role := ep_role (wl_path wl);
                jb_tool := wall_tool hash_order global_layer_index slice region modifier wl;
                jb_source := perimeter_key region; jb_support := None |}) <$> pr_walls region.

Definition infill_jobs (region : InfillRegion) : list job :=
  (fun path => {| jb_path := path; jb_role := ep_role path;
                  jb_tool := infill_tool global_layer_index slice support_tools region path;
                  jb_source := infill_key region; jb_support := None |}) <$>
  (sparse_infill region ++ solid_infill region ++ ironing region ++ internal_bridge_infill region).

Definition raft_path (z : f32) (polygon : ExPolygon) : ExtrusionPath3D :=
  {| ep_points := raft_points z polygon; ep_role := RaftInfill; ep_speed_factor := ONE;
     ep_tool_index := None; ep_order_lock := None |}.

Definition raft_jobs (z : f32) (region : SlicedRegion) : list job :=
  (fun polygon => {| jb_path := raft_path z polygon; jb_role := RaftInfill; jb_tool := wrap_u32 DEFAULT_TOOL;
                     jb_source := slice_key region; jb_support := None |}) <$>
  filter (fun polygon => Nat.ltb (length (raft_points z polygon)) 2 = false) (sr_raft_fill region).

Definition support_jobs (entry : SupportEntry) : list job :=
  (fun path => {| jb_path := path; jb_role := ep_role path; jb_tool := support_path_tool support_tools entry path;
                  jb_source := support_key entry; jb_support := Some entry |}) <$> se_paths entry.

Definition identity_of (j : job) (entity_id : Z) : list SupportEntityIdentity :=
  match jb_support j with
  | Some entry => [{| sei_entity_id := entity_id; sei_family_id := se_family_id entry;
                      sei_body_id := se_body_id entry; sei_demand_ids := se_demand_ids entry |}]
  | None => []
  end.

Definition entity_at (i : nat) (j : job) : PrintEntity :=
  {| pe_entity_id := Z.of_nat i + 1; pe_path := jb_path j; pe_role := jb_role j;
     pe_region_key := key_of global_layer_index (jb_source j); pe_topo_order := Z.of_nat i;
     pe_tool_index := jb_tool j |}.

(** The state after [n] pushes. *)
Definition numbered (st : assembly) (jobs : list job) : Prop :=
  as_out st = imap entity_at jobs /\
  as_identities st = concat (imap (fun i j => identity_of j (Z.of_nat i + 1)) jobs) /\
  EntityId.next_id (as_gen st) = Z.of_nat (length jobs) + 1.

Lemma do_job_numbered st jobs j :
  Z.of_nat (length jobs) <= u32_max -> numbered st jobs -> numbered (do_job st j) (jobs ++ [j]).
Proof.
  intros Hl (Ho & Hi & Hg). unfold do_job, push. destruct (EntityId.next (as_gen st)) as [id gen] eqn:Hn.
  unfold EntityId.next in Hn. rewrite Hg in Hn. unfold u32_max, u64_max in *.
  rewrite Z.max_l, Z.mod_small in Hn by lia. injection Hn as <- <-.
  assert (Hlen : length (as_out st) = length jobs) by (by rewrite Ho, length_imap).
  split; [|split]; cbn [as_out as_identities as_gen EntityId.next_id].
  - rewrite imap_app, Ho. f_equal. cbn. rewrite length_imap. unfold entity_at. do 2 f_equal; [lia.. |].
    rewrite wrap_u32_small by (unfold u32_max; lia). lia.
  - rewrite imap_app, concat_app, Hi. f_equal. cbn. rewrite app_nil_r.
    unfold identity_of. destruct (jb_support j); [|done]. do 2 f_equal. lia.
  - rewrite length_app. cbn. lia.
Qed.

Lemma do_jobs_numbered more : forall st jobs,
  Z.of_nat (length jobs + length more) <= u32_max -> numbered st jobs ->
  numbered (foldl do_job st more) (jobs ++ more).
Proof.
  induction more as [|j more IH]; intros st jobs Hl Hn; cbn [foldl]; [by rewrite app_nil_r |].
  rewrite cons_middle, (assoc_L (++)). cbn in Hl. apply IH; [rewrite length_app; cbn; lia |].
  apply do_job_numbered; [lia | done].
Qed.

Lemma foldl_flat_map {A} (f : assembly -> A -> assembly) (g : A -> list job) (l : list A) :
  (forall st x, f st x = foldl do_job st (g x)) -> forall st, foldl f st l = foldl do_job st (flat_map g l).
Proof.
  intros Hf. induction l as [|x l IH]; intros st; [done |]. cbn [foldl flat_map]. by rewrite IH, Hf, foldl_app.
Qed.

Lemma foldl_map_jobs {A} (g : A -> job) (l : list A) st :
  foldl (fun st x => do_job st (g x)) st l = foldl do_job st (g <$> l).
Proof. revert st. induction l as [|x l IH]; intros st; [done |]. cbn [foldl fmap list_fmap]. by rewrite IH. Qed.

Lemma push_infill_jobs st region :
  push_infill global_layer_index slice support_tools st region = foldl do_job st (infill_jobs region).
Proof. unfold push_infill, infill_jobs. by rewrite <- foldl_map_jobs. Qed.

Lemma push_support_jobs st entry :
  push_support global_layer_index support_tools st entry = foldl do_job st (support_jobs entry).
Proof. unfold push_support, support_jobs. by rewrite <- foldl_map_jobs. Qed.

Lemma push_raft_jobs z region st :
  foldl (push_raft global_layer_index z region) st (sr_raft_fill region) = foldl do_job st (raft_jobs z region).
Proof.
  unfold raft_jobs. revert st. induction (sr_raft_fill region) as [|p ps IH]; intros st; [done |].
  cbn [foldl]. rewrite IH. unfold push_raft. rewrite filter_cons.
  destruct (Nat.ltb (length (raft_points z p)) 2); [done |]. by rewrite decide_True by done.
Qed.

(** The configurations that the modifier volumes name are in the pool. *)
Definition configs_pooled : Prop := match region_map with Some rm => ids_in_range rm | None => True end.

Lemma push_perimeters_jobs regions :
  configs_pooled -> exists modifiers, length modifiers = length regions /\
    forall st, push_perimeters hash_order global_layer_index region_map slice st regions =
      Done (foldl do_job st (concat (zip_with wall_jobs regions modifiers))).
Proof.
  intros Hp. induction regions as [|region regions (ms & Hlen & IH)]; [by exists [] |].
  assert (Hm : exists m, modifier_tool global_layer_index region_map region = Done m).
  { unfold modifier_tool, configs_pooled in *. destruct region_map as [rm|]; [|by eexists].
    unfold config_for. destruct (rm_get rm _) as [plan|] eqn:Hg; [|by eexists].
    unfold rm_get in Hg. destruct (list_find _ (rm_entries rm)) as [[i e]|] eqn:Hf; [|done].
    injection Hg as <-. apply list_find_Some in Hf as (Hi & _ & _). apply list_elem_of_lookup_2 in Hi.
    destruct (Hp _ Hi) as [c Hc]. unfold config_for_raw. cbn. rewrite Hc. by eexists. }
  destruct Hm as [m Hm]. exists (m :: ms). split; [cbn; by f_equal |]. intros st. cbn [push_perimeters].
  unfold push_walls. rewrite Hm. cbn [exec_bind]. rewrite IH. cbn [zip_with concat]. rewrite foldl_app.
  do 2 f_equal. unfold wall_jobs. by rewrite <- foldl_map_jobs.
Qed.
End jobs.

(** ** What is assembled *)

Definition wall_paths (perimeter : option PerimeterIR) : list (ExtrusionPath3D * source_key) :=
  flat_map (fun r => (fun wl => (wl_path wl, perimeter_key r)) <$> pr_walls r)
    (match perimeter with Some p => per_regions p | None => [] end).

Definition infill_paths (infill : option InfillIR) : list (ExtrusionPath3D * source_key) :=
  flat_map (fun r => (fun path => (path, infill_key r)) <$>
                     (sparse_infill r ++ solid_infill r ++ ironing r ++ internal_bridge_infill r))
    (match infill with Some i => inf_regions i | None => [] end).

Definition raft_paths (slice : option SliceIR) : list (ExtrusionPath3D * source_key) :=
  match slice with
  | Some s => flat_map (fun r => (fun polygon => (raft_path (sl_z s) polygon, slice_key r)) <$>
      filter (fun polygon => Nat.ltb (length (raft_points (sl_z s) polygon)) 2 = false) (sr_raft_fill r)) (sl_regions s)
  | None => []
  end.

Definition support_paths (support : option SupportIR) : list (ExtrusionPath3D * SupportEntry) :=
  flat_map (fun e => (fun path => (path, e)) <$> se_paths e)
    (match support with Some s => su_entries s | None => [] end).

Definition with_source (p : ExtrusionPath3D * SupportEntry) : ExtrusionPath3D * source_key := (p.1, support_key p.2).

Definition expected_paths (is_raft : bool) perimeter infill slice support : list (ExtrusionPath3D * source_key) :=
  (if is_raft : bool then [] else wall_paths perimeter ++ infill_paths infill) ++ raft_paths slice ++
  (if is_raft then [] else with_source <$> support_paths support).

Definition job_path (j : job) : ExtrusionPath3D * source_key := (jb_path j, jb_source j).

Section assembled.
Context (hash_order : gmap Z nat -> list (Z * nat)).
Context (global_layer_index : Z) (global_layer_is_raft : bool).
Context (region_map : option RegionMapIR) (slice : option SliceIR) (support_tools : SupportToolSelection).

Notation assemble := (assemble_ordered_entities_with_support_identities hash_order global_layer_index
  global_layer_is_raft region_map slice support_tools).

(** The jobs that are not for support, with the paths and sources they stand for. *)
Lemma assemble_jobs perimeter infill support :
  configs_pooled region_map ->
  exists plain sup st,
    assemble perimeter infill support = Done (as_out st, as_identities st) /\
    st = foldl (do_job global_layer_index) assembly_start (plain ++ sup) /\
    job_path <$> plain = (if global_layer_is_raft then [] else wall_paths perimeter ++ infill_paths infill) ++ raft_paths slice /\
    Forall (fun j => jb_support j = None) plain /\
    (fun j => (jb_path j, jb_source j, jb_support j)) <$> sup =
      (fun p : ExtrusionPath3D * SupportEntry => (p.1, support_key p.2, Some p.2)) <$>
      (if global_layer_is_raft then [] else support_paths support) /\
    Forall (fun j => jb_role j = ep_role (jb_path j)) (plain ++ sup).
Proof.
  intros Hp. unfold assemble_ordered_entities_with_support_identities.
  set (iregions := match infill with Some i => inf_regions i | None => [] end).
  set (sregions := match slice with Some s => sl_regions s | None => [] end).
  set (entries := match support with Some s => su_entries s | None => [] end).
  set (pregions := match perimeter with Some p => per_regions p | None => [] end).
  destruct (push_perimeters_jobs hash_order global_layer_index region_map slice pregions Hp) as (ms & Hlen & Hw).
  set (walls := concat (zip_with (wall_jobs hash_order global_layer_index slice) pregions ms)) in *.
  set (inf := flat_map (infill_jobs global_layer_index slice support_tools) iregions).
  set (raft := match slice with Some s => flat_map (raft_jobs (sl_z s)) (sl_regions s) | None => [] end).
  set (sup := flat_map (support_jobs support_tools) entries).
  exists ((if global_layer_is_raft then [] else walls ++ inf) ++ raft), (if global_layer_is_raft then [] else sup).
  eexists. split; [|split; [reflexivity |]].
  - assert (Hraft : forall st, match slice with
      | Some s => foldl (fun st region => foldl (push_raft global_layer_index (sl_z s) region) st (sr_raft_fill region)) st (sl_regions s)
      | None => st end = foldl (do_job global_layer_index) st raft).
    { intros st. unfold raft. destruct slice as [s|]; [|done].
      apply foldl_flat_map. intros st' r. apply push_raft_jobs. }
    assert (Hinf : forall st, match infill with
      | Some inf => if global_layer_is_raft then st else foldl (push_infill global_layer_index slice support_tools) st (inf_regions inf)
      | None => st end = foldl (do_job global_layer_index) st (if global_layer_is_raft then [] else inf)).
    { intros st. unfold inf, iregions. destruct infill; [|by destruct global_layer_is_raft].
      destruct global_layer_is_raft; [done |]. apply foldl_flat_map. intros. apply push_infill_jobs. }
    assert (Hsup : forall st, match support with
      | Some sup => if global_layer_is_raft then st else foldl (push_support global_layer_index support_tools) st (su_entries sup)
      | None => st end = foldl (do_job global_layer_index) st (if global_layer_is_raft then [] else sup)).
    { intros st. unfold sup, entries. destruct support; [|by destruct global_layer_is_raft].
      destruct global_layer_is_raft; [done |]. apply foldl_flat_map. intros. apply push_support_jobs. }
    assert (Hwalls : match perimeter with
      | Some perim => if global_layer_is_raft then Done assembly_start
                      else push_perimeters hash_order global_layer_index region_map slice assembly_start (per_regions perim)
      | None => Done assembly_start end =
      Done (foldl (do_job global_layer_index) assembly_start (if global_layer_is_raft then [] else walls))).
    { destruct perimeter as [perim|]; [|unfold walls, pregions; cbn; by destruct global_layer_is_raft].
      destruct global_layer_is_raft; [done | apply Hw]. }
    rewrite Hwalls. cbn [exec_bind]. rewrite Hinf, Hraft, Hsup, <- !foldl_app.
    by destruct global_layer_is_raft; rewrite <- ?(assoc_L (++)).
  - assert (Hwp : job_path <$> walls = wall_paths perimeter).
    { unfold walls, wall_paths. fold pregions. clear -Hlen. revert ms Hlen.
      induction pregions as [|r rs IH]; intros [|m ms]; cbn; try done. intros [= Hlen].
      rewrite fmap_app, (IH ms Hlen). f_equal. unfold wall_jobs. by rewrite <- list_fmap_compose. }
    assert (Hip : job_path <$> inf = infill_paths infill).
    { unfold inf, infill_paths. fold iregions. rewrite fmap_flat_map. apply flat_map_ext. intros r.
      unfold infill_jobs. by rewrite <- list_fmap_compose. }
    assert (Hrp : job_path <$> raft = raft_paths slice).
    { unfold raft, raft_paths. destruct slice as [s|]; [|done]. rewrite fmap_flat_map. apply flat_map_ext. intros r.
      unfold raft_jobs. by rewrite <- list_fmap_compose. }
    assert (Hplain : forall j, j ∈ walls \/ j ∈ inf \/ j ∈ raft -> jb_support j = None /\ jb_role j = ep_role (jb_path j)).
    { intros j [Hin | [Hin | Hin]].
      - unfold walls in Hin. apply list_elem_of_In, in_concat in Hin as (js & Hjs & Hin). apply list_elem_of_In in Hjs, Hin.
        apply elem_of_lookup_zip_with_1 in Hjs as (k & r & m & -> & _). by apply list_elem_of_fmap in Hin as (w & -> & _).
      - unfold inf in Hin. apply list_elem_of_In, in_flat_map in Hin as (r & _ & Hin).
        by apply list_elem_of_In, list_elem_of_fmap in Hin as (p & -> & _).
      - unfold raft in Hin. destruct slice as [s|]; [|by apply elem_of_nil in Hin].
        apply list_elem_of_In, in_flat_map in Hin as (r & _ & Hin).
        by apply list_elem_of_In, list_elem_of_fmap in Hin as (p & -> & _). }
    assert (Hin : forall j, j ∈ (if global_layer_is_raft then [] else walls ++ inf) ++ raft ->
                       j ∈ walls \/ j ∈ inf \/ j ∈ raft).
    { intros j. destruct global_layer_is_raft; rewrite !elem_of_app; [|tauto]. intros [H | H]; [by apply elem_of_nil in H | auto]. }
    split; [|split; [|split]].
    + rewrite fmap_app, Hrp. destruct global_layer_is_raft; [done |]. by rewrite fmap_app, Hwp, Hip.
    + apply Forall_forall. intros j Hj. by apply Hplain, Hin.
    + destruct global_layer_is_raft; [done |]. unfold sup, support_paths. fold entries.
      rewrite !fmap_flat_map. apply flat_map_ext. intros e. unfold support_jobs. by rewrite <- !list_fmap_compose.
    + apply Forall_app. split; apply Forall_forall; intros j Hj; [by apply Hplain, Hin |].
      destruct global_layer_is_raft; [by apply elem_of_nil in Hj |]. unfold sup in Hj.
      apply list_elem_of_In, in_flat_map in Hj as (e & _ & Hj).
      by apply list_elem_of_In, list_elem_of_fmap in Hj as (p & -> & _).
Qed.

Lemma identities_plain (jobs : list job) k :
  Forall (fun j => jb_support j = None) jobs ->
  concat (imap (fun i j => identity_of j (Z.of_nat (k + i) + 1)) jobs) = [].
Proof.
  revert k. induction jobs as [|j jobs IH]; intros k Hn; [done |]. apply Forall_cons in Hn as [Hj Hn].
  cbn. unfold identity_of at 1. rewrite Hj. cbn. rewrite <- (IH (S k) Hn). f_equal. apply imap_ext. intros. cbn. do 2 f_equal. lia.
Qed.

(** The side table of the support paths that are pushed from the entity number [k] on. *)
Definition support_identities (k : nat) (ps : list (ExtrusionPath3D * SupportEntry)) : list SupportEntityIdentity :=
  imap (fun i p => {| sei_entity_id := Z.of_nat (k + i) + 1; sei_family_id := se_family_id p.2;
                      sei_body_id := se_body_id p.2; sei_demand_ids := se_demand_ids p.2 |}) ps.

Lemma identities_support (jobs : list job) (ps : list (ExtrusionPath3D * SupportEntry)) k :
  (fun j => (jb_path j, jb_source j, jb_support j)) <$> jobs =
    (fun p : ExtrusionPath3D * SupportEntry => (p.1, support_key p.2, Some p.2)) <$> ps ->
  concat (imap (fun i j => identity_of j (Z.of_nat (k + i) + 1)) jobs) = support_identities k ps.
Proof.
  revert ps k. induction jobs as [|j jobs IH]; intros [|p ps] k; cbn [fmap list_fmap]; try done.
  intros [= H1 H2 H3 H4]. unfold support_identities. cbn [imap concat].
  unfold identity_of at 1. rewrite H3. cbn [app]. f_equal.
  specialize (IH ps (S k) H4). unfold support_identities in IH.
  erewrite (imap_ext _ _ jobs), IH; [|intros; cbn; do 2 f_equal; lia].
  apply imap_ext. intros. cbn. f_equal. lia.
Qed.

(** [C9].  Assembling a layer loses and adds nothing: it does not panic when the region map is
    consistent, and the entities are, in this order, the walls, the infill by region and
    role, the closed raft polygons and the support paths, each with the identity of its
    region and the role of its path; on a raft layer only the raft.  They are numbered from 1, their
    position is their topological order, and the side table names the entry of each
    support entity. *)
Theorem assembly_complete (perimeter : option PerimeterIR) (infill : option InfillIR) (support : option SupportIR)
    (Hp : configs_pooled region_map)
    (Hl : Z.of_nat (length (expected_paths global_layer_is_raft perimeter infill slice support)) <= u32_max) :
  let expected := expected_paths global_layer_is_raft perimeter infill slice support in
  let sup := if global_layer_is_raft then [] else support_paths support in
  exists out, assemble perimeter infill support =
      Done (out, support_identities (length expected - length sup) sup) /\
    (fun e => (pe_path e, pe_region_key e)) <$> out =
      (fun p => (p.1, key_of global_layer_index p.2)) <$> expected /\
    pe_entity_id <$> out = (fun i => Z.of_nat i + 1) <$> seq 0 (length expected) /\
    pe_topo_order <$> out = Z.of_nat <$> seq 0 (length expected) /\
    Forall (fun e => pe_role e = ep_role (pe_path e)) out.
Proof.
  intros expected sup. destruct (assemble_jobs perimeter infill support Hp)
    as (plain & sjobs & st & Ha & Hst & Hplain & Hnone & Hsup & Hrole).
  fold sup in Hsup.
  assert (Hpaths : job_path <$> plain ++ sjobs = expected).
  { unfold expected, expected_paths. rewrite fmap_app, Hplain, <- (assoc_L (++)). do 2 f_equal.
    assert (Hs : job_path <$> sjobs = with_source <$> sup).
    { apply (f_equal (fmap fst)) in Hsup. by rewrite <- !list_fmap_compose in Hsup. }
    rewrite Hs. unfold sup. by destruct global_layer_is_raft. }
  assert (Hlen : length (plain ++ sjobs) = length expected) by (by rewrite <- Hpaths, length_fmap).
  assert (Hls : length sjobs = length sup) by (apply (f_equal length) in Hsup; by rewrite !length_fmap in Hsup).
  assert (Hn : numbered global_layer_index st (plain ++ sjobs)).
  { rewrite Hst. apply (do_jobs_numbered global_layer_index (plain ++ sjobs) assembly_start []); [|done].
    cbn [length]. rewrite Nat.add_0_l, Hlen. exact Hl. }
  destruct Hn as (Ho & Hi & _). exists (as_out st). rewrite Ha. split; [|split; [|split; [|split]]].
  - do 2 f_equal. rewrite Hi, imap_app, concat_app.
    pose proof (identities_plain plain 0 Hnone) as H0. cbn [Nat.add] in H0. rewrite H0, app_nil_l.
    rewrite length_app in Hlen. replace (length expected - length sup)%nat with (length plain) by lia.
    erewrite <- identities_support by exact Hsup. done.
  - rewrite Ho, fmap_imap, <- Hpaths, <- list_fmap_compose. exact (imap_const (fun j => (jb_path j, key_of global_layer_index (jb_source j))) (plain ++ sjobs)).
  - rewrite Ho, <- Hlen. apply imap_seq. by intros.
  - rewrite Ho, <- Hlen. apply imap_seq. by intros.
  - rewrite Ho. apply Forall_forall. intros e He. apply elem_of_lookup_imap_1 in He as (i & j & -> & Hj).
    rewrite Forall_forall in Hrole. apply (Hrole j). by eapply list_elem_of_lookup_2.
Qed.
End assembled.

(** ** Which tool *)

Lemma max_by_key_spec {A} (key : A -> nat) (l : list A) :
  match max_by_key key l with
  | Some x => x ∈ l /\ forall y, y ∈ l -> (key y <= key x)%nat
  | None => l = []
  end.
Proof.
  destruct l as [|a l]; [done |]. cbn. revert a. induction l as [|b l IH]; intros a; cbn [foldl].
  - split; [left |]. by intros y ->%list_elem_of_singleton.
  - specialize (IH (if Nat.leb (key a) (key b) then b else a)). destruct IH as [H1 H2].
    destruct (Nat.leb_spec (key a) (key b)).
    + split; [set_solver |]. intros y [-> | Hy]%elem_of_cons; [|by apply H2].
      specialize (H2 b (list_elem_of_here _ _)). lia.
    + split; [set_solver |]. intros y [-> | [-> | Hy]%elem_of_cons]%elem_of_cons.
      * apply H2. left.
      * specialize (H2 a (list_elem_of_here _ _)). lia.
      * apply H2. by right.
Qed.

(** How many flags name the tool. *)
Definition votes (flags : list WallFeatureFlags) (tool : Z) : nat :=
  length (filter (fun f => wf_tool_index f = Some tool) flags).

Lemma count_tools_votes flags tool :
  count_tools flags !! tool = if decide (votes flags tool = 0%nat) then None else Some (votes flags tool).
Proof.
  unfold count_tools, votes. induction flags as [|f flags IH] using rev_ind; [done |].
  rewrite foldl_app, filter_app, length_app. cbn [foldl]. destruct (wf_tool_index f) as [ti|] eqn:Hf.
  - destruct (decide (ti = tool)) as [-> | Hne].
    + rewrite lookup_insert_eq, IH, filter_cons_True by done. cbn.
      rewrite (decide_False (P := _ + 1 = 0)%nat) by lia. case_decide as Hz; cbn; f_equal; lia.
    + rewrite lookup_insert_ne by done. rewrite IH, filter_cons_False by (rewrite Hf; congruence).
      cbn. by rewrite Nat.add_0_r.
  - rewrite IH, filter_cons_False by (by rewrite Hf). cbn. by rewrite Nat.add_0_r.
Qed.

(** The tool that paint gives a wall is one that the most of its flags name, and there is
    one as soon as a flag names a tool.  Which of several tools with the same number of
    votes it is depends on the iteration order of a hash map: two legal orders give
    different tools for the same wall. *)
Theorem dominant_tool_by_votes :
  (forall hash_order flags, (forall m, hash_order m ≡ₚ map_to_list m) ->
     match dominant_tool_index hash_order flags with
     | Some tool => (0 < votes flags tool)%nat /\ forall t, (votes flags t <= votes flags tool)%nat
     | None => forall t, votes flags t = 0%nat
     end) /\
  exists order1 order2 flags, (forall m, order1 m ≡ₚ map_to_list m) /\ (forall m, order2 m ≡ₚ map_to_list m) /\
    dominant_tool_index order1 flags <> dominant_tool_index order2 flags.
Proof.
  split.
  - intros hash_order flags Ho. unfold dominant_tool_index.
    pose proof (max_by_key_spec snd (hash_order (count_tools flags))) as Hm.
    assert (Hin : forall t n, (t, n) ∈ hash_order (count_tools flags) <-> n = votes flags t /\ n <> 0%nat).
    { intros t n. rewrite Ho, elem_of_map_to_list, count_tools_votes. case_decide as Hz; [|naive_solver].
      split; [done |]. intros [-> ?]. lia. }
    assert (Hall : forall t, votes flags t <> 0%nat -> (t, votes flags t) ∈ hash_order (count_tools flags))
      by (intros t Ht; by apply Hin).
    destruct (max_by_key _ _) as [[t n]|]; cbn.
    + destruct Hm as [[-> Hne]%Hin Hmax]. split; [lia |]. intros u.
      destruct (decide (votes flags u = 0%nat)) as [-> | Hu]; [lia |]. exact (Hmax _ (Hall u Hu)).
    + intros t. destruct (decide (votes flags t = 0%nat)) as [? | Hu]; [done |]. specialize (Hall t Hu).
      rewrite Hm in Hall. by apply elem_of_nil in Hall.
  - set (flag := fun t => {| wf_tool_index := Some t; wf_fuzzy_skin := false; wf_is_bridge := false;
      wf_is_thin_wall := false; wf_skip_ironing := false; wf_custom := ∅ |}).
    exists map_to_list, (fun m => reverse (map_to_list m)), [flag 1; flag 2]. split; [done |].
    split; [intros m; apply reverse_Permutation |]. vm_compute. discriminate.
Qed.

(** ** Position *)

(** Two slices with the same regions, raft and height, whatever the polygons. *)
Definition same_identities (s s' : SliceIR) : Prop :=
  sl_z s' = sl_z s /\
  Forall2 (fun r r' => slice_key r' = slice_key r /\ sr_raft_fill r' = sr_raft_fill r) (sl_regions s) (sl_regions s').

Section position.
Context (hash_order : gmap Z nat -> list (Z * nat)).
Context (global_layer_index : Z) (global_layer_is_raft : bool).
Context (region_map : option RegionMapIR) (support_tools : SupportToolSelection).
Context (s s' : SliceIR) (Hs : same_identities s s').

Lemma regions_omap {B} (f g : SlicedRegion -> option B) :
  (forall r r', slice_key r' = slice_key r -> f r = g r') -> omap f (sl_regions s) = omap g (sl_regions s').
Proof.
  intros Hfg. destruct Hs as [_ Hf]. induction Hf as [|r r' rs rs' [Hr _] _ IH]; [done |]. cbn.
  rewrite (Hfg r r' Hr). by destruct (g r'); rewrite IH.
Qed.

Lemma variant_tool_same source :
  variant_tool global_layer_index (Some s) source = variant_tool global_layer_index (Some s') source.
Proof.
  assert (Hl : forall key, variant_tool_by_region global_layer_index (Some s) key =
                           variant_tool_by_region global_layer_index (Some s') key).
  { intros key. unfold variant_tool_by_region, slice_regions. f_equal. apply regions_omap. intros r r' Hr. rewrite Hr.
    by assert (sr_variant_chain r' = sr_variant_chain r) as -> by (unfold slice_key in Hr; congruence). }
  unfold variant_tool. by rewrite Hl.
Qed.

Lemma is_base_same key :
  is_base_region_key global_layer_index (Some s) key = is_base_region_key global_layer_index (Some s') key.
Proof.
  unfold is_base_region_key, slice_regions. destruct Hs as [_ Hf].
  induction Hf as [|r r' rs rs' [Hr _] _ IH]; [done |]. cbn. rewrite IH, Hr.
  by assert (sr_variant_chain r' = sr_variant_chain r) as -> by (unfold slice_key in Hr; congruence).
Qed.

Lemma raft_same (st : assembly) :
  foldl (fun st region => foldl (push_raft global_layer_index (sl_z s) region) st (sr_raft_fill region)) st (sl_regions s) =
  foldl (fun st region => foldl (push_raft global_layer_index (sl_z s') region) st (sr_raft_fill region)) st (sl_regions s').
Proof.
  destruct Hs as [-> Hf]. revert st. induction Hf as [|r r' rs rs' [Hr Hraft] _ IH]; intros st; [done |].
  cbn [foldl]. rewrite Hraft. rewrite IH. f_equal. generalize (sr_raft_fill r). intros ps. revert st.
  induction ps as [|p ps IHp]; intros st; [done |]. cbn [foldl]. rewrite IHp. f_equal. unfold push_raft. by rewrite Hr.
Qed.

(** Position decides the tool of a path only when nothing else can: if every perimeter
    region is unpainted or has a material of its own, and every infill region has a material
    of its own, the assembled layer does not depend on the polygons of the slice. *)
Theorem position_only_for_untagged (perimeter : option PerimeterIR) (infill : option InfillIR)
    (support : option SupportIR)
    (Hwalls : forall p r, perimeter = Some p -> r ∈ per_regions p ->
       is_base_region_key global_layer_index (Some s) (key_of global_layer_index (perimeter_key r)) = true \/
       variant_tool global_layer_index (Some s) (perimeter_key r) <> None)
    (Hinfill : forall i r, infill = Some i -> r ∈ inf_regions i ->
       variant_tool global_layer_index (Some s) (infill_key r) <> None) :
  assemble_ordered_entities_with_support_identities hash_order global_layer_index global_layer_is_raft
    region_map (Some s) support_tools perimeter infill support =
  assemble_ordered_entities_with_support_identities hash_order global_layer_index global_layer_is_raft
    region_map (Some s') support_tools perimeter infill support.
Proof.
  unfold assemble_ordered_entities_with_support_identities.
  assert (Hw : forall p, perimeter = Some p -> forall st,
    push_perimeters hash_order global_layer_index region_map (Some s) st (per_regions p) =
    push_perimeters hash_order global_layer_index region_map (Some s') st (per_regions p)).
  { intros p Hp. specialize (Hwalls p). clear -Hs Hp Hwalls. revert Hwalls.
    induction (per_regions p) as [|r rs IH]; intros Hwalls st; [done |]. cbn [push_perimeters].
    assert (Hr : push_walls hash_order global_layer_index region_map (Some s) st r =
                 push_walls hash_order global_layer_index region_map (Some s') st r).
    { unfold push_walls. destruct (modifier_tool _ _ _) as [m| |]; [|done..]. cbn [exec_bind]. f_equal.
      specialize (Hwalls r Hp (list_elem_of_here _ _)).
      assert (Ht : forall wl, wall_tool hash_order global_layer_index (Some s) r m wl =
                              wall_tool hash_order global_layer_index (Some s') r m wl).
      { intros wl. unfold wall_tool. rewrite <- is_base_same, <- variant_tool_same.
        destruct Hwalls as [-> | Hv]; [done |]. destruct (variant_tool _ _ _); [|done].
        rewrite bool_decide_true by (by eexists). by rewrite orb_true_r. }
      revert st. induction (pr_walls r) as [|wl wls IHw]; intros st; [done |]. cbn [foldl]. by rewrite Ht, IHw. }
    rewrite Hr. destruct (push_walls hash_order global_layer_index region_map (Some s') st r) as [st'| |];
      cbn [exec_bind]; [|reflexivity..].
    apply IH. intros r' Hp' Hr'. apply Hwalls; [done | by right]. }
  assert (Hi : forall i, infill = Some i -> forall st,
    foldl (push_infill global_layer_index (Some s) support_tools) st (inf_regions i) =
    foldl (push_infill global_layer_index (Some s') support_tools) st (inf_regions i)).
  { intros i Hi. specialize (Hinfill i). clear -Hs Hi Hinfill. revert Hinfill.
    induction (inf_regions i) as [|r rs IH]; intros Hinfill st; [done |]. cbn [foldl].
    rewrite IH by (intros r' Hi' Hr'; apply Hinfill; [done | by right]). f_equal. unfold push_infill.
    specialize (Hinfill r Hi (list_elem_of_here _ _)). generalize (sparse_infill r ++ solid_infill r ++ ironing r ++ internal_bridge_infill r).
    intros ps. revert st. induction ps as [|p ps IHp]; intros st; [done |]. cbn [foldl]. rewrite IHp. do 2 f_equal.
    unfold infill_tool. rewrite <- variant_tool_same. destruct (variant_tool _ _ _); [|done].
    by rewrite bool_decide_true by (by eexists). }
  assert (Hp : match perimeter with
    | Some perim => if global_layer_is_raft then Done assembly_start
        else push_perimeters hash_order global_layer_index region_map (Some s) assembly_start (per_regions perim)
    | None => Done assembly_start end =
    match perimeter with
    | Some perim => if global_layer_is_raft then Done assembly_start
        else push_perimeters hash_order global_layer_index region_map (Some s') assembly_start (per_regions perim)
    | None => Done assembly_start end).
  { destruct perimeter as [p|]; [|done]. by destruct global_layer_is_raft; [|apply Hw]. }
  rewrite Hp. destruct (match perimeter with
    | Some perim => if global_layer_is_raft then Done assembly_start
        else push_perimeters hash_order global_layer_index region_map (Some s') assembly_start (per_regions perim)
    | None => Done assembly_start end) as [st| |]; cbn [exec_bind]; [|reflexivity..].
  destruct infill as [i|]; [destruct global_layer_is_raft; [|rewrite (Hi i eq_refl)]|]; by rewrite raft_same.
Qed.
End position.

(** ** Samples *)

Definition corner (x : Z) : Point3WithWidth :=
  {| pw_x := F32 x; pw_y := ZERO; pw_z := ZERO; pw_width := ONE; pw_flow_factor := ONE;
     pw_overhang_quartile := None; pw_dist_to_top_mm := ZERO; pw_overhang_distance_mm := None |}.

Definition plain_path (role : ExtrusionRole) : ExtrusionPath3D :=
  {| ep_points := [corner 0; corner 1065353216]; ep_role := role; ep_speed_factor := ONE; ep_tool_index := None;
     ep_order_lock := None |}.

Definition painted_chain (tool : Z) : list (string * PaintValue) := [("material", PaintToolIndex tool)].

Definition plain_wall : WallLoop :=
  {| wl_perimeter_index := 0; wl_loop_type := LoopOuter; wl_path := plain_path OuterWall; wl_width_profile := [];
     wl_feature_flags := []; wl_boundary_type := ExteriorSurface |}.

Definition painted_perimeter : PerimeterIR :=
  {| per_schema_version := SemVer_default; per_global_layer_index := 0;
     per_regions := [{| pr_object_id := "cube"; pr_region_id := 1; pr_variant_chain := painted_chain 2;
       pr_walls := [plain_wall]; pr_infill_areas := []; pr_seam_candidates := []; pr_resolved_seam := None |}] |}.

Definition painted_support : SupportIR :=
  {| su_schema_version := SemVer_default; su_global_layer_index := 0;
     su_entries := [{| se_family_id := "tree"; se_body_id := "body"; se_demand_ids := ["demand"];
       se_object_id := "cube"; se_region_id := 1; se_role := SupportBody;
       se_paths := [plain_path SupportMaterial; plain_path SupportInterface]; se_variant_chain := [] |}] |}.

Definition sample_tools : SupportToolSelection := {| support_tool := 3; interface_tool := 4; tool_count := 5 |}.

(** A square of [n] units with its corner at the origin. *)
Definition square_slice (n : Z) : SliceIR :=
  {| sl_schema_version := SemVer_default; sl_global_layer_index := 0; sl_z := ZERO;
     sl_regions := [{| sr_object_id := "cube"; sr_region_id := 9;
       sr_polygons := [{| contour := {| points := [Pt 0 0; Pt n 0; Pt n n; Pt 0 n] |}; holes := [] |}];
       sr_infill_areas := []; sr_nonplanar_surface := None; sr_effective_layer_height := ONE;
       sr_segment_annotations := []; sr_variant_chain := painted_chain 6; sr_top_shell_index := None;
       sr_bottom_shell_index := None; sr_top_solid_fill := []; sr_bottom_solid_fill := []; sr_is_bridge := false;
       sr_bridge_areas := []; sr_bridge_orientation_deg := ZERO; sr_sparse_infill_area := [];
       sr_internal_solid_fill := []; sr_internal_bridge_areas := []; sr_internal_bridge_angles_deg := [];
       sr_raft_fill := [] |}] |}.

Definition sample_assemble (s : SliceIR) (infill : option InfillIR) :=
  assemble_ordered_entities_with_support_identities map_to_list 0 false None (Some s) sample_tools
    (Some painted_perimeter) infill (Some painted_support).

(** A wall of tool 2, then support on tool 3 and its interface on tool 4. *)
Lemma assembly_complete_witness :
  exists out ids, sample_assemble (square_slice 1000) None = Done (out, ids) /\
    pe_tool_index <$> out = [2; 3; 4] /\ sei_entity_id <$> ids = [2; 3].
Proof.
  destruct (assembly_complete map_to_list 0 false None (Some (square_slice 1000)) sample_tools
    (Some painted_perimeter) None (Some painted_support) I ltac:(vm_compute; discriminate)) as (out & Ha & _).
  eexists out, _. split; [exact Ha |]. vm_compute in Ha. injection Ha as <-. split; reflexivity.
Defined.

(** Infill without a material of its own would be placed by position; here there is none. *)
Lemma position_only_for_untagged_witness :
  sample_assemble (square_slice 1000) None = sample_assemble (square_slice 5) None.
Proof.
  apply (position_only_for_untagged map_to_list 0 false None sample_tools (square_slice 1000) (square_slice 5)).
  - split; [reflexivity |]. constructor; [split; reflexivity | constructor].
  - intros p r Hp Hr. injection Hp as <-. cbn in Hr. apply list_elem_of_singleton in Hr as ->. right. discriminate.
  - intros i r Hi. discriminate Hi.
Defined.

(** A path that starts in the painted square takes its tool when its region has none. *)
Example spatial_fallback :
  spatial_tool (Some (square_slice 1000)) (plain_path SparseInfill) = Some 6 /\
  spatial_tool (Some (square_slice 1000)) (with_points (plain_path SparseInfill) [corner 1073741824]) = None.
Proof. vm_compute. split; reflexivity. Qed.
