(* ===== verification/LayerRun.v ===== *)
(** Running the stages of a layer ([execute_single_layer_inner] and the parallel map over the
    layers of [slicer-runtime/src/layer_executor.rs]).

    The runner that invokes a module and the selection index are interfaces: a module gets
    the products of the layer so far and returns a commit; the selection says whether it is
    invoked at all.  Around them the executor hydrates the arena, freezes the entities before
    path optimisation, applies the commits and builds the layer's final record. *)
From Stdlib Require Import Floats.SpecFloat.
From stdpp Require Import prelude gmap strings list.
From S2P Require Import Prelude Ir Validation Float32 ExecutionPlan Blackboard LayerArena RegionMap Planar PolygonOps.
From S2P Require Import LayerIr OrderLock Anchored RegionPartition LayerCommit Assembly.

#[local] Open Scope string_scope.
#[local] Open Scope list_scope.

Definition ir_path_for_layer_stage (stage_id : StageId) : option string :=
  if String.eqb stage_id "Layer::Perimeters" || String.eqb stage_id "Layer::PerimetersPostProcess" then Some "PerimeterIR"
  else if String.eqb stage_id "Layer::Infill" || String.eqb stage_id "Layer::InfillPostProcess" then Some "InfillIR"
  else if String.eqb stage_id "Layer::Support" || String.eqb stage_id "Layer::SupportPostProcess" then Some "SupportIR"
  else if String.eqb stage_id "Layer::PathOptimization" then Some "LayerCollectionIR"
  else None.

(** [..Default::default()] *)
Definition footprint_region (object_id : ObjectId) (polygons : list ExPolygon) : SlicedRegion :=
  {| sr_object_id := object_id; sr_region_id := MODIFIER_FOOTPRINT_REGION_ID; sr_polygons := polygons;
     sr_infill_areas := []; sr_nonplanar_surface := None; sr_effective_layer_height := ZERO;
     sr_segment_annotations := []; sr_variant_chain := []; sr_top_shell_index := None;
     sr_bottom_shell_index := None; sr_top_solid_fill := []; sr_bottom_solid_fill := []; sr_is_bridge := false;
     sr_bridge_areas := []; sr_bridge_orientation_deg := ZERO; sr_sparse_infill_area := [];
     sr_internal_solid_fill := []; sr_internal_bridge_areas := []; sr_internal_bridge_angles_deg := [];
     sr_raft_fill := [] |}.

(** The cross-sections of the modifiers of one object, unless the prepass has split its regions. *)
Definition stage_object_footprints (z : f32) (slice : SliceIR) (object : ModifierObject) : SliceIR :=
  if existsb (fun r => String.eqb (sr_object_id r) (mo_id object) && is_modifier_namespace_id (sr_region_id r))
       (sl_regions slice)
  then slice
  else with_slice_regions slice
         (sl_regions slice ++ ((fun fp => footprint_region fp.1 fp.2) <$> object_footprints z object)).

Definition stage_modifier_footprints (slice : SliceIR) (objects : list ModifierObject) (layer : GlobalLayer) : SliceIR :=
  foldl (stage_object_footprints (gl_z layer)) slice objects.

Section types.
Context {P : PrepassTypes}.
#[local] Existing Instance layer_types.

(** What the runner gets; [S] is the type of a selection. *)
Record LayerStageInput (S : Type) := {
  in_selection : option S;
  in_mesh : pre_MeshIR;
  in_seam_plan : option SeamPlanIR;
  in_support_plan : option SupportPlanIR;
  in_region_map : option pre_RegionMapIR;
  in_slice : option SliceIR;
  in_perimeter : option PerimeterIR;
  in_layer_collection : option LayerCollectionIR;
  in_surface_classification : option pre_SurfaceClassificationIR;
  in_prepared_regions : option (list pre_PreparedRegionData);
  in_prepared_perimeter_source_regions : option (list pre_PreparedRegionData);
  in_infill : option InfillIR
}.

(** One invocation: its result and what the runner recorded of it. *)
Record stage_run := {
  run_result : result (option LayerStageCommit) LayerStageError;
  last_runtime_reads : list string;
  last_batch_calls : list (string * Z)
}.

(** What the executor asks of the host. *)
Class LayerHost := {
  selection : Type;
  invoke_selected : selection -> bool;
  selection_for : pre_LayerSelectionIndex -> Z -> ModuleId -> option selection;
  is_indexed_module_stage : StageId -> bool;
  run_stage : StageId -> GlobalLayer -> CompiledModuleStatic -> LayerStageInput selection -> stage_run
}.
End types.
Arguments Build_LayerStageInput {P S}.

Section run.
Context {P : PrepassTypes} {H : LayerHost}.
#[local] Existing Instance layer_types.
Context (boolean_op_tree_64 : ClipOperation -> list (list Point2) -> list (list Point2) -> PolyPath).
Context (split_message : SplitError -> string) (show_f32 : f32 -> string) (show_stage_error : LayerStageError -> string).
Context (prepare_slice_regions prepare_perimeter_source_regions :
           SliceIR -> option pre_SurfaceClassificationIR -> list pre_PreparedRegionData).
Context (hash_order : gmap Z nat -> list (Z * nat)).
(** The modifier volumes of the mesh and the entries of the region map. *)
Context (mesh_objects : pre_MeshIR -> list ModifierObject) (region_map_of : pre_RegionMapIR -> RegionMap.RegionMapIR).
Context (plan : ExecutionPlan) (blackboard : Blackboard) (support_tools : SupportToolSelection).

Definition host_slice_error (layer : GlobalLayer) (message : string) : LayerExecutionError :=
  FatalLayer (gl_index layer) "PrePass::Slice" "host:slice" message.

Definition hydrate_slice_arena (arena : LayerArena) (layer : GlobalLayer)
    : LayerArena * result unit LayerExecutionError :=
  match arena_slice arena with
  | Some _ => (arena, Ok tt)
  | None =>
      match slice_ir blackboard with
      | None => (arena, Err (host_slice_error layer "blackboard slice_ir empty when Tier 2 started"))
      | Some slice_vec =>
          match slice_vec !! Z.to_nat (gl_index layer) with
          | None => (arena, Err (host_slice_error layer
              ("slice_ir Vec missing entry for layer index " +:+ show_uint (gl_index layer))))
          | Some slice =>
              let slice := stage_modifier_footprints slice (mesh_objects (mesh_ir blackboard)) layer in
              match set_slice arena slice with
              | (arena, Ok _) => (arena, Ok tt)
              | (arena, Err _) => (arena, Err (host_slice_error layer "slice arena slot already occupied"))
              end
          end
      end
  end.

Definition assemble (arena : LayerArena) (layer : GlobalLayer) : exec (list PrintEntity * list SupportEntityIdentity) :=
  assemble_ordered_entities_with_support_identities hash_order (gl_index layer) (gl_is_raft layer)
    (region_map_of <$> region_map blackboard) (arena_slice arena) support_tools
    (arena_perimeter arena) (arena_infill arena) (arena_support arena).

Definition assembled_collection (layer : GlobalLayer) (entities : list PrintEntity)
    (identities : list SupportEntityIdentity) : LayerCollectionIR :=
  {| lc_schema_version := CURRENT_LAYER_COLLECTION_IR_SCHEMA_VERSION; lc_global_layer_index := gl_index layer;
     lc_z := gl_z layer; ordered_entities := entities; support_entity_identities := identities;
     lc_tool_changes := []; lc_z_hops := []; lc_annotations := []; lc_retracts := []; lc_travel_moves := [];
     lc_speed_profiles := [] |}.

Definition prestage_layer_collection_if_path_optimization (arena : LayerArena) (stage_id : StageId)
    (layer : GlobalLayer) : exec LayerArena :=
  if negb (String.eqb stage_id "Layer::PathOptimization") || bool_decide (is_Some (layer_collection arena))
  then Done arena
  else
    let! out := assemble arena layer in
    Done (set_layer_collection arena (assembled_collection layer out.1 out.2)).

Definition prepare_dispatch_region_views (arena : LayerArena) (stage_id : StageId) : LayerArena :=
  let surface := surface_classification blackboard in
  if String.eqb stage_id "Layer::Perimeters" then
    (ensure_prepared_perimeter_source_regions prepare_perimeter_source_regions arena surface).1
  else if existsb (String.eqb stage_id)
            ["Layer::Infill"; "Layer::SlicePostProcess"; "Layer::Support"; "Layer::AnchoredEvents";
             "Layer::SupportPostProcess"]
  then (ensure_prepared_regions prepare_slice_regions arena surface).1
  else arena.

(** The selection of a module; only indexed stages have one. *)
Definition select (stage_id : StageId) (layer : GlobalLayer) (module_id : ModuleId)
    : result (option selection) LayerExecutionError :=
  let fatal message := FatalLayer (gl_index layer) stage_id module_id
                         (show_stage_error (FatalModule stage_id module_id message)) in
  if negb (is_indexed_module_stage stage_id) then Ok None
  else match layer_selection_index blackboard with
       | None => Err (fatal "internal consistency: layer selection index is not committed")
       | Some index =>
           match selection_for index (gl_index layer) module_id with
           | None => Err (fatal ("internal consistency: layer selection is missing for layer " +:+
                                 show_uint (gl_index layer)))
           | Some s => Ok (Some s)
           end
       end.

Definition stage_input (arena : LayerArena) (stage_id : StageId) (s : option selection) : LayerStageInput selection :=
  {| in_selection := s; in_mesh := mesh_ir blackboard; in_seam_plan := seam_plan blackboard;
     in_support_plan := support_plan blackboard; in_region_map := region_map blackboard;
     in_slice := arena_slice arena; in_perimeter := arena_perimeter arena;
     in_layer_collection := layer_collection arena;
     in_surface_classification := surface_classification blackboard;
     in_prepared_regions := arena_prepared_regions arena;
     in_prepared_perimeter_source_regions := arena_prepared_perimeter_source_regions arena;
     in_infill := if String.eqb stage_id "Layer::InfillPostProcess" then arena_infill arena else None |}.

Definition commit_ctx (stage_id : StageId) (layer : GlobalLayer) (module : CompiledModuleStatic) : StageApplyContext :=
  {| ctx_stage_id := stage_id; ctx_module_id := cm_module_id module; ctx_layer_index := gl_index layer;
     ctx_seam_plan := seam_plan blackboard; ctx_config_view := Some (cm_config_view module);
     ctx_committed_slices := slice_ir blackboard |}.

(** The audit of an invocation, unless there is nothing in it. *)
Definition audit (stage_id : StageId) (module : CompiledModuleStatic) (run : stage_run) : list ModuleAccessAudit :=
  let writes := match ir_path_for_layer_stage stage_id with Some p => [p] | None => [] end in
  match writes, last_runtime_reads run, last_batch_calls run with
  | [], [], [] => []
  | _, _, _ => [{| maa_module_id := cm_module_id module; maa_runtime_reads := last_runtime_reads run;
                   maa_runtime_writes := writes; maa_batch_calls := last_batch_calls run |}]
  end.

(** Arena and audits so far. *)
Definition layer_state : Type := LayerArena * list ModuleAccessAudit.

Definition run_module (layer : GlobalLayer) (stage_id : StageId) (st : layer_state) (module : CompiledModuleStatic)
    : exec (result layer_state LayerExecutionError) :=
  let '(arena, audits) := st in
  match select stage_id layer (cm_module_id module) with
  | Err e => Done (Err e)
  | Ok s =>
      if match s with Some s => negb (invoke_selected s) | None => false end then Done (Ok st)
      else
        let arena := prepare_dispatch_region_views arena stage_id in
        let run := run_stage stage_id layer module (stage_input arena stage_id s) in
        let fatal e := FatalLayer (gl_index layer) stage_id (cm_module_id module) (show_stage_error e) in
        match run_result run with
        | Err e => Done (Err (fatal e))
        | Ok None => Done (Ok (arena, audits ++ audit stage_id module run))
        | Ok (Some staged) =>
            let! out := apply boolean_op_tree_64 split_message show_f32 arena staged (commit_ctx stage_id layer module) in
            match out with
            | (_, Err e) => Done (Err (fatal e))
            | (arena, Ok _) => Done (Ok (arena, audits ++ audit stage_id module run))
            end
        end
  end.

Definition run_layer_stage (layer : GlobalLayer) (st : layer_state) (stage : CompiledStage)
    : exec (result layer_state LayerExecutionError) :=
  let! arena := prestage_layer_collection_if_path_optimization st.1 (cs_stage_id stage) layer in
  let! out := fold_exec (run_module layer (cs_stage_id stage)) (arena, st.2) (cs_modules stage) in
  match out with
  | Err e => Done (Err e)
  | Ok (arena, audits) => Done (Ok (ensure_infill_slot_committed arena (cs_stage_id stage), audits))
  end.

Definition travel_move (entities : list PrintEntity) (m : DeferredTravelMove) : TravelMove :=
  {| tm_entity_id := match entities !! Z.to_nat (dtm_after_entity_index m) with
                     | Some e => pe_entity_id e | None => 0%Z end;
     tm_x := dtm_x m; tm_y := dtm_y m; tm_z := dtm_z m; tm_f := dtm_f m |}.

Definition travel_retract (r : DeferredRetract) : TravelRetract :=
  {| tr_after_entity_index := dr_after_entity_index r; tr_length := dr_length r; tr_speed := dr_speed r;
     tr_is_unretract := dr_is_unretract r; tr_mode := dr_mode r |}.

(** The final record of the layer: the staged collection, or one assembled now, with the
    decisions that were deferred. *)
Definition finish_layer (arena : LayerArena) (layer : GlobalLayer)
    : exec (LayerCollectionIR * list OrderedEventCollection) :=
  let! lc := match layer_collection arena with
             | Some lc => Done lc
             | None => let! out := assemble arena layer in Done (assembled_collection layer out.1 out.2)
             end in
  Done ({| lc_schema_version := lc_schema_version lc; lc_global_layer_index := lc_global_layer_index lc;
           lc_z := lc_z lc; ordered_entities := ordered_entities lc;
           support_entity_identities := support_entity_identities lc;
           lc_tool_changes := lc_tool_changes lc ++ deferred_tool_changes arena;
           lc_z_hops := lc_z_hops lc ++ deferred_z_hops arena;
           lc_annotations := lc_annotations lc ++ deferred_annotations arena;
           lc_retracts := lc_retracts lc ++ (travel_retract <$> deferred_retracts arena);
           lc_travel_moves := lc_travel_moves lc ++
             (travel_move (ordered_entities lc) <$> deferred_travel_moves arena);
           lc_speed_profiles := lc_speed_profiles lc |},
        default [] (anchored_event_collections arena)).

Definition execute_single_layer (layer : GlobalLayer)
    : exec (result (LayerCollectionIR * list ModuleAccessAudit * list OrderedEventCollection) LayerExecutionError) :=
  match hydrate_slice_arena LayerArena.new layer with
  | (_, Err e) => Done (Err e)
  | (arena, Ok _) =>
      let! out := fold_exec (run_layer_stage layer) (arena, []) (ep_per_layer_stages plan) in
      match out with
      | Err e => Done (Err e)
      | Ok (arena, audits) =>
          let! finished := finish_layer arena layer in
          Done (Ok (finished.1, audits, finished.2))
      end
  end.
End run.

(** ** Runs of the stages *)

Section run_spec.
Context {P : PrepassTypes} {H : LayerHost}.
#[local] Existing Instance layer_types.
Context (boolean_op_tree_64 : ClipOperation -> list (list Point2) -> list (list Point2) -> PolyPath).
Context (split_message : SplitError -> string) (show_f32 : f32 -> string) (show_stage_error : LayerStageError -> string).
Context (prepare_slice_regions prepare_perimeter_source_regions :
           SliceIR -> option pre_SurfaceClassificationIR -> list pre_PreparedRegionData).
Context (hash_order : gmap Z nat -> list (Z * nat)).
Context (mesh_objects : pre_MeshIR -> list ModifierObject) (region_map_of : pre_RegionMapIR -> RegionMap.RegionMapIR).
Context (blackboard : Blackboard) (support_tools : SupportToolSelection).

Notation run_module := (run_module boolean_op_tree_64 split_message show_f32 show_stage_error
  prepare_slice_regions prepare_perimeter_source_regions blackboard).
Notation run_layer_stage := (run_layer_stage boolean_op_tree_64 split_message show_f32 show_stage_error
  prepare_slice_regions prepare_perimeter_source_regions hash_order region_map_of blackboard support_tools).
Notation execute_single_layer plan := (execute_single_layer boolean_op_tree_64 split_message show_f32 show_stage_error
  prepare_slice_regions prepare_perimeter_source_regions hash_order mesh_objects region_map_of plan blackboard support_tools).
Notation commit := (apply boolean_op_tree_64 split_message show_f32).

Lemma prepare_keeps_infill arena stage_id :
  arena_infill (prepare_dispatch_region_views prepare_slice_regions prepare_perimeter_source_regions blackboard
                  arena stage_id) = arena_infill arena.
Proof.
  unfold prepare_dispatch_region_views, ensure_prepared_perimeter_source_regions, ensure_prepared_regions.
  repeat case_match; done.
Qed.

Lemma prestage_keeps_infill arena stage_id layer arena' :
  prestage_layer_collection_if_path_optimization hash_order region_map_of blackboard support_tools arena stage_id layer =
    Done arena' -> arena_infill arena' = arena_infill arena.
Proof.
  unfold prestage_layer_collection_if_path_optimization. case_match; [by intros [= <-] |].
  destruct (assemble _ _ _ _ _ _) as [out| |]; cbn; [|done..]. by intros [= <-].
Qed.

(** A property of the staged infill that commits of the modules and the default infill keep. *)
Section infill_invariant.
Context (I : option InfillIR -> Prop).
Context (Hcommit : forall arena stage_id layer module s staged ctx arena',
  run_result (run_stage stage_id layer module (stage_input blackboard arena stage_id s)) = Ok (Some staged) ->
  I (arena_infill arena) -> commit arena staged ctx = Done (arena', Ok tt) -> I (arena_infill arena')).
Context (Hdefault : I (Some InfillIR_default)).

Lemma run_module_infill layer stage_id st module st' :
  I (arena_infill st.1) -> run_module layer stage_id st module = Done (Ok st') -> I (arena_infill st'.1).
Proof.
  destruct st as [arena audits]. unfold run_module. cbn [fst]. intros Hi.
  destruct (select _ _ _ _ _) as [s|e]; [|done].
  destruct (match s with Some s => negb (invoke_selected s) | None => false end); [by intros [= <-] |].
  set (a := prepare_dispatch_region_views _ _ _ arena stage_id).
  assert (Ha : I (arena_infill a)) by (unfold a; by rewrite prepare_keeps_infill).
  destruct (run_result _) as [[staged|]|e] eqn:Hr; [| by intros [= <-] | done].
  destruct (commit a staged _) as [[a' [[]|e]]| |] eqn:Hc; cbn [exec_bind]; [|done..].
  intros [= <-]. cbn [fst]. by eapply Hcommit.
Qed.

Lemma run_stage_infill layer st stage st' :
  I (arena_infill st.1) -> run_layer_stage layer st stage = Done (Ok st') -> I (arena_infill st'.1).
Proof.
  unfold run_layer_stage. intros Hi. destruct (prestage_layer_collection_if_path_optimization _ _ _ _ _ _ _) as [a| |] eqn:Hp;
    cbn [exec_bind]; [|done..].
  apply prestage_keeps_infill in Hp.
  destruct (fold_exec _ _ _) as [[[a' audits]|e]| |] eqn:Hf; cbn [exec_bind]; [|done..].
  intros [= <-]. cbn [fst].
  assert (Ha' : I (arena_infill a')).
  { eapply (fold_exec_keeps _ (fun st : layer_state => I (arena_infill st.1))) in Hf; [exact Hf | |].
    - intros st0 m st1 _. apply run_module_infill.
    - cbn [fst]. by rewrite Hp. }
  unfold ensure_infill_slot_committed. case_match; [done |]. destruct (arena_infill a') eqn:Hai; [by rewrite Hai |].
  unfold set_infill. rewrite Hai. exact Hdefault.
Qed.

Lemma run_stages_infill layer stages st st' :
  I (arena_infill st.1) -> fold_exec (run_layer_stage layer) st stages = Done (Ok st') -> I (arena_infill st'.1).
Proof.
  intros Hi. apply (fold_exec_keeps _ (fun st : layer_state => I (arena_infill st.1))); [|done].
  intros st0 s st1 _. apply run_stage_infill.
Qed.
End infill_invariant.

(** A successful commit keeps the infill slot filled. *)
Lemma commit_keeps_infill_staged arena staged ctx arena' :
  commit arena staged ctx = Done (arena', Ok tt) -> arena_infill arena <> None -> arena_infill arena' <> None.
Proof.
  intros Hc Hn. destruct staged as [?|?|ir|ir|?|? ?|?|? ?|? ?|?|?|?];
    try (by rewrite (commit_keeps_infill _ _ _ _ _ _ _ _ Hc)).
  - revert Hc. cbn [apply]. unfold apply_infill.
    destruct (remap_infill_order_locks_from _ _) as [ir' [[]|e]]; [|done].
    destruct (commit_raft _ _) as [a [[]|e]]; [|done]. unfold take_infill.
    destruct (arena_infill a); cbn; by intros [= <-].
  - revert Hc. cbn [apply]. unfold apply_infill_post_process.
    destruct (match arena_infill arena with
              | Some previous => validate_infill_order_locks previous ir
              | None => Done (Ok tt) end) as [[[]|message]| |]; cbn [exec_bind]; [|done..].
    destruct (remap_infill_order_locks_from _ _) as [ir' [[]|e]]; [|done]. by intros [= <-].
Qed.

(** [C32].  Once the post-processing stage of the infill has run, infill is staged, whatever the
    modules returned, and it stays staged; if the modules return well-typed commits, all its lock
    tags are global.  So path optimisation, which comes later, always finds it. *)
Theorem infill_staged_after_post_process (layer : GlobalLayer) (before after : list CompiledStage)
    (stage : CompiledStage) (st st' : layer_state) (Hs : cs_stage_id stage = "Layer::InfillPostProcess")
    (Hi : arena_infill st.1 = None)
    (Hrun : fold_exec (run_layer_stage layer) st (before ++ stage :: after) = Done (Ok st')) :
  exists ir, arena_infill st'.1 = Some ir /\
    ((forall stage_id layer module input staged,
        run_result (run_stage stage_id layer module input) = Ok (Some staged) -> typed staged) ->
     Forall global_lock (sparse_locks ir)).
Proof.
  assert (Hsome : arena_infill st'.1 <> None).
  { revert Hrun. rewrite fold_exec_app. destruct (fold_exec _ st before) as [[st1|e]| |]; cbn [exec_bind]; [|done..].
    cbn [fold_exec]. destruct (run_layer_stage layer st1 stage) as [[st2|e]| |] eqn:Hst; cbn [exec_bind]; [|done..].
    apply (run_stages_infill (fun o => o <> None)); [|done|].
    - intros ? ? ? ? ? ? ? ? _ Hn Hc. by eapply commit_keeps_infill_staged.
    - revert Hst. unfold run_layer_stage. rewrite Hs.
      destruct (prestage_layer_collection_if_path_optimization _ _ _ _ _ _ _) as [a| |]; cbn [exec_bind]; [|done..].
      destruct (fold_exec _ _ _) as [[[a' audits]|e]| |]; cbn [exec_bind]; [|done..]. intros [= <-]. cbn [fst].
      unfold ensure_infill_slot_committed. cbn. destruct (arena_infill a') eqn:Ha; [by rewrite Ha |].
      unfold set_infill. by rewrite Ha. }
  destruct (arena_infill st'.1) as [ir|] eqn:Hir; [|done]. exists ir. split; [done |]. intros Ht.
  assert (Hl : locks_global st'.1); [|unfold locks_global in Hl; by rewrite Hir in Hl].
  apply (run_stages_infill (fun o => match o with Some ir => Forall global_lock (sparse_locks ir) | None => True end))
    in Hrun; [exact Hrun | | constructor | by rewrite Hi].
  intros a sid l m s staged ctx a' Hr Hg Hc. eapply commit_locks_global; [exact Hg | by eapply Ht | exact Hc].
Qed.

(** ** Modules that are not selected *)

(** A module whose selection says that it is not invoked. *)
Definition skipped (layer : GlobalLayer) (stage_id : StageId) (module : CompiledModuleStatic) : bool :=
  match select show_stage_error blackboard stage_id layer (cm_module_id module) with
  | Ok (Some s) => negb (invoke_selected s)
  | _ => false
  end.

(** A layer fails only with an error of that layer: of the hydration of its slice, or of
    a stage of the plan and a module of that stage that is not skipped. *)
Theorem layer_errors_attributed (plan : ExecutionPlan) (layer : GlobalLayer) (e : LayerExecutionError)
    (He : execute_single_layer plan layer = Done (Err e)) :
  (exists message, e = FatalLayer (gl_index layer) "PrePass::Slice" "host:slice" message) \/
  exists stage module message, stage ∈ ep_per_layer_stages plan /\ module ∈ cs_modules stage /\
    skipped layer (cs_stage_id stage) module = false /\
    e = FatalLayer (gl_index layer) (cs_stage_id stage) (cm_module_id module) message.
Proof.
  revert He. unfold execute_single_layer.
  destruct (hydrate_slice_arena _ _ _ _) as [a [[]|e0]] eqn:Hh.
  2: { intros [= <-]. left. revert Hh. unfold hydrate_slice_arena, host_slice_error, set_slice, set_arena_slot.
       repeat case_match; intros [= <- <-]; by eexists. }
  destruct (fold_exec _ _ _) as [[[a' audits]|e0]| |] eqn:Hf; cbn [exec_bind]; [| |done..].
  { destruct (finish_layer _ _ _ _ _ _) as [f| |]; cbn [exec_bind]; done. }
  intros [= <-]. right. eapply (fold_exec_error _ (fun e => exists stage module message,
    stage ∈ ep_per_layer_stages plan /\ module ∈ cs_modules stage /\
    skipped layer (cs_stage_id stage) module = false /\
    e = FatalLayer (gl_index layer) (cs_stage_id stage) (cm_module_id module) message)) in Hf; [exact Hf |].
  clear. intros st stage e Hin. unfold run_layer_stage.
  destruct (prestage_layer_collection_if_path_optimization _ _ _ _ _ _ _) as [a1| |]; cbn [exec_bind]; [|done..].
  destruct (fold_exec _ _ (cs_modules stage)) as [[[a2 audits2]|e1]| |] eqn:Hm; cbn [exec_bind]; [done | |done..].
  intros [= <-]. exists stage. eapply (fold_exec_error _ (fun e => exists module message,
    stage ∈ ep_per_layer_stages plan /\ module ∈ cs_modules stage /\
    skipped layer (cs_stage_id stage) module = false /\
    e = FatalLayer (gl_index layer) (cs_stage_id stage) (cm_module_id module) message)) in Hm; [exact Hm |].
  clear Hm. intros st1 module e2 Hmod. unfold run_module.
  destruct st1 as [arena audits1]. unfold skipped. destruct (select _ _ _ _ _) as [s|e3] eqn:Hsel.
  - destruct (match s with Some s => negb (invoke_selected s) | None => false end) eqn:Hsk; [done |].
    assert (Hrun : match s with Some s => negb (invoke_selected s) | None => false end = false) by done.
    destruct (run_result _) as [[staged|]|e3]; [| done | intros [= <-]; exists module; eexists; rewrite Hsel; by destruct s].
    destruct (commit _ _ _) as [[a3 [[]|e3]]| |]; cbn [exec_bind]; [done | |done..].
    intros [= <-]. exists module. eexists. rewrite Hsel. by destruct s.
  - intros [= <-].
    assert (Hmsg : exists message, e3 = FatalLayer (gl_index layer) (cs_stage_id stage) (cm_module_id module) message)
      by (revert Hsel; unfold select; repeat case_match; try done; intros [= <-]; by eexists).
    destruct Hmsg as [message ->]. exists module, message. by rewrite Hsel.
Qed.

Definition without_skipped (layer : GlobalLayer) (stage : CompiledStage) : CompiledStage :=
  {| cs_stage_id := cs_stage_id stage;
     cs_modules := filter (fun m => skipped layer (cs_stage_id stage) m = false) (cs_modules stage) |}.

Definition with_layer_stages (plan : ExecutionPlan) (stages : list CompiledStage) : ExecutionPlan :=
  {| ep_prepass_stages := ep_prepass_stages plan; ep_per_layer_stages := stages;
     ep_layer_finalization_stage := ep_layer_finalization_stage plan;
     ep_postpass_stages := ep_postpass_stages plan; ep_global_layers := ep_global_layers plan;
     ep_region_plans := ep_region_plans plan; ep_module_region_index := ep_module_region_index plan;
     ep_aggregated_region_split := ep_aggregated_region_split plan |}.

(** A module that is not selected for a layer leaves no trace: running the layer gives the
    same record, audits, events and errors as running it on a plan without that module. *)
Theorem skipped_modules_leave_no_trace (plan : ExecutionPlan) (layer : GlobalLayer) :
  execute_single_layer plan layer =
  execute_single_layer (with_layer_stages plan (without_skipped layer <$> ep_per_layer_stages plan)) layer.
Proof.
  unfold execute_single_layer. destruct (hydrate_slice_arena _ _ _ _) as [a [[]|e]]; [|done]. f_equal.
  cbn [ep_per_layer_stages with_layer_stages]. generalize (a, @nil ModuleAccessAudit).
  induction (ep_per_layer_stages plan) as [|stage stages IH]; intros st; [done |]. cbn [fmap list_fmap fold_exec].
  assert (Hstage : run_layer_stage layer st stage = run_layer_stage layer st (without_skipped layer stage)).
  { unfold run_layer_stage. cbn [cs_stage_id cs_modules without_skipped].
    destruct (prestage_layer_collection_if_path_optimization _ _ _ _ _ _ _) as [a1| |]; cbn [exec_bind]; [|done..].
    f_equal. generalize (a1, st.2). clear. induction (cs_modules stage) as [|m ms IH]; intros st; [done |].
    rewrite filter_cons. destruct (skipped layer (cs_stage_id stage) m) eqn:Hsk.
    - rewrite decide_False by done. rewrite <- IH. cbn [fold_exec].
      enough (Hr : run_module layer (cs_stage_id stage) st m = Done (Ok st)) by (by rewrite Hr).
      unfold run_module, skipped in *. destruct st as [arena audits].
      destruct (select _ _ _ _ _) as [[s|]|e]; [|done..]. by rewrite Hsk.
    - rewrite decide_True by done. cbn [fold_exec].
      destruct (run_module layer (cs_stage_id stage) st m) as [[st1|e]| |]; cbn [exec_bind]; [apply IH | done..]. }
  rewrite Hstage. destruct (run_layer_stage layer st (without_skipped layer stage)) as [[st1|e]| |]; cbn [exec_bind];
    [apply IH | done..].
Qed.

(** ** What a layer gives *)

Definition layer_output : Type := LayerCollectionIR * list ModuleAccessAudit * list OrderedEventCollection.

(** The modules of a plan with their stages, in the order in which a layer runs them. *)
Definition plan_modules (stages : list CompiledStage) : list (StageId * CompiledModuleStatic) :=
  flat_map (fun stage => (fun m => (cs_stage_id stage, m)) <$> cs_modules stage) stages.

(** The audit of a module: its name, and the product that its stage writes. *)
Definition audit_of (stage_id : StageId) (module : CompiledModuleStatic) (a : ModuleAccessAudit) : Prop :=
  maa_module_id a = cm_module_id module /\ maa_runtime_writes a = option_list (ir_path_for_layer_stage stage_id).

(** The audits of a layer, in the order of the modules: none of a module that is skipped, one of
    every other module of a stage that writes a product, at most one of the rest. *)
Inductive audited (skips : StageId -> CompiledModuleStatic -> bool) : list (StageId * CompiledModuleStatic) -> list ModuleAccessAudit -> Prop :=
| audited_nil : audited skips [] []
| audited_one stage_id module ms a audits :
    skips stage_id module = false -> audit_of stage_id module a ->
    audited skips ms audits -> audited skips ((stage_id, module) :: ms) (a :: audits)
| audited_none stage_id module ms audits :
    skips stage_id module = true \/ ir_path_for_layer_stage stage_id = None ->
    audited skips ms audits -> audited skips ((stage_id, module) :: ms) audits.

Lemma audited_app skips ms1 ms2 as1 as2 :
  audited skips ms1 as1 -> audited skips ms2 as2 -> audited skips (ms1 ++ ms2) (as1 ++ as2).
Proof. intros H1 H2. induction H1; cbn [app]; [done | by constructor..]. Qed.

(** No module returns a seed of the layer collection, which only tests commit. *)
Definition seedless : Prop :=
  forall stage_id layer module input lc,
    run_result (run_stage stage_id layer module input) <> Ok (Some (CommitSeedLayerCollection lc)).

(** What is staged in a layer is for that layer. *)
Definition for_layer (layer : GlobalLayer) (arena : LayerArena) : Prop :=
  forall at_, collection_layer <$> layer_collection arena = Some at_ -> at_ = (gl_index layer, gl_z layer).

Lemma prepare_keeps_collection arena stage_id :
  layer_collection (prepare_dispatch_region_views prepare_slice_regions prepare_perimeter_source_regions blackboard
                      arena stage_id) = layer_collection arena.
Proof.
  unfold prepare_dispatch_region_views, ensure_prepared_perimeter_source_regions, ensure_prepared_regions.
  repeat case_match; done.
Qed.

Lemma run_module_accounts layer stage_id arena audits module arena' audits' (Hseed : seedless) :
  run_module layer stage_id (arena, audits) module = Done (Ok (arena', audits')) -> for_layer layer arena ->
  for_layer layer arena' /\ exists more, audits' = audits ++ more /\ audited (skipped layer) [(stage_id, module)] more.
Proof.
  unfold run_module. destruct (select _ _ _ _ _) as [s|e] eqn:Hsel; [|done].
  destruct (match s with Some s => negb (invoke_selected s) | None => false end) eqn:Hsk.
  { intros [= <- <-] Hl. split; [done |]. exists []. split; [by rewrite app_nil_r |].
    constructor; [left | constructor]. unfold skipped. rewrite Hsel. by destruct s. }
  assert (Hrun : skipped layer stage_id module = false)
    by (unfold skipped; rewrite Hsel; by destruct s).
  set (a := prepare_dispatch_region_views _ _ _ arena stage_id).
  set (run := run_stage stage_id layer module (stage_input blackboard a stage_id s)).
  assert (Haudit : audited (skipped layer) [(stage_id, module)] (audit stage_id module run)).
  { unfold audit. destruct (ir_path_for_layer_stage stage_id) as [path|] eqn:Hp.
    - apply audited_one; [done | | constructor]. split; [done |]. by rewrite Hp.
    - destruct (last_runtime_reads run), (last_batch_calls run);
        [apply audited_none; [by right | constructor] | ..];
        (apply audited_one; [done | split; [done | by rewrite Hp] | constructor]). }
  intros Hr Hl. assert (Ha : for_layer layer a) by (unfold a, for_layer; by rewrite prepare_keeps_collection).
  destruct (run_result run) as [[staged|]|e] eqn:Hres; [| |done].
  - destruct (commit a staged _) as [[a' [[]|e]]| |] eqn:Hc; cbn [exec_bind] in Hr; [|done..]. injection Hr as <- <-.
    apply commit_keeps_layer in Hc; [|intros lc ->; by apply Hseed in Hres].
    split; [unfold for_layer; by rewrite Hc | by exists (audit stage_id module run)].
  - injection Hr as <- <-. split; [done | by exists (audit stage_id module run)].
Qed.

Lemma run_modules_account layer stage_id modules st st' (Hseed : seedless) :
  fold_exec (run_module layer stage_id) st modules = Done (Ok st') -> for_layer layer st.1 ->
  for_layer layer st'.1 /\
  exists more, st'.2 = st.2 ++ more /\ audited (skipped layer) ((fun m => (stage_id, m)) <$> modules) more.
Proof.
  revert st. induction modules as [|m modules IH]; intros [arena audits]; cbn [fold_exec].
  - intros [= <-] Hl. split; [done |]. exists []. split; [by rewrite app_nil_r | constructor].
  - destruct (run_module layer stage_id (arena, audits) m) as [[[a1 au1]|e]| |] eqn:Hm; cbn [exec_bind]; [|done..].
    intros Hrest Hl. destruct (run_module_accounts _ _ _ _ _ _ _ Hseed Hm Hl) as (Hl1 & more & -> & Hau).
    destruct (IH _ Hrest Hl1) as (Hl2 & rest & Hr & Haus). split; [done |]. exists (more ++ rest).
    cbn [snd] in Hr |- *. split; [by rewrite Hr, (assoc_L (++)) |]. exact (audited_app _ [_] _ _ _ Hau Haus).
Qed.

Lemma run_stage_accounts layer st stage st' (Hseed : seedless) :
  run_layer_stage layer st stage = Done (Ok st') -> for_layer layer st.1 ->
  for_layer layer st'.1 /\ exists more, st'.2 = st.2 ++ more /\ audited (skipped layer) (plan_modules [stage]) more.
Proof.
  unfold run_layer_stage. destruct (prestage_layer_collection_if_path_optimization _ _ _ _ _ _ _) as [a| |] eqn:Hp;
    cbn [exec_bind]; [|done..].
  destruct (fold_exec _ _ _) as [[[a' audits]|e]| |] eqn:Hf; cbn [exec_bind]; [|done..]. intros [= <-] Hl.
  destruct (run_modules_account _ _ _ _ _ Hseed Hf) as (Hl' & more & Hm & Hau).
  - revert Hp. unfold prestage_layer_collection_if_path_optimization. case_match; [by intros [= <-] |].
    destruct (assemble _ _ _ _ _ _) as [out| |]; cbn [exec_bind]; [|done..]. intros [= <-]. by intros at_ [= <-].
  - cbn [fst snd] in *. split.
    + unfold ensure_infill_slot_committed, set_infill. repeat case_match; done.
    + exists more. split; [done |]. unfold plan_modules. cbn [flat_map]. by rewrite app_nil_r.
Qed.

Lemma run_stages_account layer stages st st' (Hseed : seedless) :
  fold_exec (run_layer_stage layer) st stages = Done (Ok st') -> for_layer layer st.1 ->
  for_layer layer st'.1 /\ exists more, st'.2 = st.2 ++ more /\ audited (skipped layer) (plan_modules stages) more.
Proof.
  revert st. induction stages as [|stage stages IH]; intros st; cbn [fold_exec].
  - intros [= <-] Hl. split; [done |]. exists []. split; [by rewrite app_nil_r | constructor].
  - destruct (run_layer_stage layer st stage) as [[st1|e]| |] eqn:Hs; cbn [exec_bind]; [|done..].
    intros Hrest Hl. destruct (run_stage_accounts _ _ _ _ Hseed Hs Hl) as (Hl1 & more & Hm & Hau).
    destruct (IH _ Hrest Hl1) as (Hl2 & rest & Hr & Haus). split; [done |]. exists (more ++ rest).
    split; [by rewrite Hr, Hm, (assoc_L (++)) |].
    replace (plan_modules (stage :: stages)) with (plan_modules [stage] ++ plan_modules stages)
      by (unfold plan_modules; cbn [flat_map]; by rewrite app_nil_r).
    by apply audited_app.
Qed.

Lemma layer_accounted plan layer lc audits events (Hseed : seedless) :
  execute_single_layer plan layer = Done (Ok (lc, audits, events)) ->
  collection_layer lc = (gl_index layer, gl_z layer) /\ audited (skipped layer) (plan_modules (ep_per_layer_stages plan)) audits.
Proof.
  unfold LayerRun.execute_single_layer. destruct (hydrate_slice_arena _ _ _ _) as [a [[]|e]] eqn:Hh; [|done].
  destruct (fold_exec _ _ _) as [[[a' audits']|e]| |] eqn:Hf; cbn [exec_bind]; [|done..].
  assert (Ha : layer_collection a = None).
  { revert Hh. unfold hydrate_slice_arena, set_slice, set_arena_slot. repeat case_match; by intros [= <-]. }
  destruct (run_stages_account _ _ _ _ Hseed Hf) as (Hl & more & Hm & Hau); [unfold for_layer; cbn [fst]; intros at_; by rewrite Ha |].
  cbn [fst snd app] in Hl, Hm. subst audits'. unfold finish_layer.
  destruct (match layer_collection a' with Some lc => Done lc | None => _ end) as [lc'| |] eqn:Hlc; cbn [exec_bind]; [|done..].
  intros [= <- <- _]. split; [|done]. unfold collection_layer. cbn [lc_global_layer_index lc_z].
  change (collection_layer lc' = (gl_index layer, gl_z layer)). destruct (layer_collection a') as [lc0|] eqn:Hc.
  - injection Hlc as ->. apply Hl. by rewrite Hc.
  - destruct (assemble _ _ _ _ _ _) as [out| |]; cbn [exec_bind] in Hlc; [|done..]. by injection Hlc as <-.
Qed.
End run_spec.

(** ** All layers, in parallel *)

(** The host, with another behaviour of its modules. *)
Definition with_runner {P : PrepassTypes} (H : LayerHost)
    (run : StageId -> GlobalLayer -> CompiledModuleStatic -> LayerStageInput selection -> stage_run) : LayerHost :=
  {| selection := @selection P H; invoke_selected := @invoke_selected P H; selection_for := @selection_for P H;
     is_indexed_module_stage := @is_indexed_module_stage P H; run_stage := run |}.

Section layers.
Context {P : PrepassTypes} {H : LayerHost}.
#[local] Existing Instance layer_types.
Context (boolean_op_tree_64 : ClipOperation -> list (list Point2) -> list (list Point2) -> PolyPath).
Context (split_message : SplitError -> string) (show_f32 : f32 -> string) (show_stage_error : LayerStageError -> string).
Context (prepare_slice_regions prepare_perimeter_source_regions :
           SliceIR -> option pre_SurfaceClassificationIR -> list pre_PreparedRegionData).
Context (mesh_objects : pre_MeshIR -> list ModifierObject) (region_map_of : pre_RegionMapIR -> RegionMap.RegionMapIR).
Context (blackboard : Blackboard) (support_tools : SupportToolSelection).

Notation execute_single_layer H hash_order plan := (execute_single_layer (H := H) boolean_op_tree_64 split_message
  show_f32 show_stage_error prepare_slice_regions prepare_perimeter_source_regions hash_order mesh_objects region_map_of
  plan blackboard support_tools).

(** What the task of a layer can give: [Cancelled] if a cancellation was requested, or what the
    layer gives for some behaviour of the modules during that task and some iteration order
    of its hash maps.  Neither is shared between tasks. *)
Inductive layer_task (plan : ExecutionPlan) (cancel_requested : bool) (layer : GlobalLayer)
    : result layer_output LayerExecutionError -> Prop :=
| task_cancelled : cancel_requested = true -> layer_task plan cancel_requested layer (Err Cancelled)
| task_run run hash_order r :
    seedless (H := with_runner H run) ->
    execute_single_layer (with_runner H run) hash_order plan layer = Done r ->
    layer_task plan cancel_requested layer r.

(** [par_iter().map(..).collect()]: a relation from what the task of an element can give to what
    is collected. *)
Context (par_map : (GlobalLayer -> result layer_output LayerExecutionError -> Prop) -> list GlobalLayer ->
                   result (list layer_output) LayerExecutionError -> Prop).

Definition gather (outputs : list layer_output)
    : list LayerCollectionIR * list ModuleAccessAudit * list OrderedEventCollection :=
  ((fun o => o.1.1) <$> outputs, flat_map (fun o => o.1.2) outputs, flat_map (fun o => o.2) outputs).

Inductive execute_per_layer (plan : ExecutionPlan) (cancel_requested : bool)
    : result (list LayerCollectionIR * list ModuleAccessAudit * list OrderedEventCollection) LayerExecutionError -> Prop :=
| layers_ok outputs :
    par_map (layer_task plan cancel_requested) (ep_global_layers plan) (Ok outputs) ->
    execute_per_layer plan cancel_requested (Ok (gather outputs))
| layers_failed e :
    par_map (layer_task plan cancel_requested) (ep_global_layers plan) (Err e) ->
    execute_per_layer plan cancel_requested (Err e).

(** What rayon documents of a parallel map that is collected into a [Result]: a success has what
    each task gave, in the order of the elements; an error is one that a task gave, and it
    can be any of them. *)
Record collects_results : Prop := {
  cr_ok task layers outputs :
    par_map task layers (Ok outputs) -> Forall2 (fun layer o => task layer (Ok o)) layers outputs;
  cr_err task layers e : par_map task layers (Err e) -> exists layer, layer ∈ layers /\ task layer (Err e)
}.

Lemma task_error plan cancel_requested layer e :
  layer_task plan cancel_requested layer (Err e) ->
  e = Cancelled /\ cancel_requested = true \/
  (exists message, e = FatalLayer (gl_index layer) "PrePass::Slice" "host:slice" message) \/
  exists stage module message, stage ∈ ep_per_layer_stages plan /\ module ∈ cs_modules stage /\
    skipped show_stage_error blackboard layer (cs_stage_id stage) module = false /\
    e = FatalLayer (gl_index layer) (cs_stage_id stage) (cm_module_id module) message.
Proof.
  intros Ht. inversion Ht as [Hc | run hash_order r _ Hr]; subst; [by left | right].
  exact (layer_errors_attributed (H := with_runner H run) _ _ _ _ _ _ _ _ _ _ _ _ _ _ Hr).
Qed.

(** [C4].  What a run of the layers accounts for, whatever the modules of each task return, in
    whatever order the hash maps of each task iterate and the tasks end.  A success has one
    record for each layer of the plan, in its order and for its index and height, each what
    the task of its layer gave; the audits and the events are those of the layers in that
    order.  The audits of a layer are one for every module of a stage that writes a product
    unless the module is skipped for the layer, in the order of stages and modules, under the
    module's name and with that product as its write.  A run fails
    only with a cancellation that was requested, with an error of the slice of a layer, or
    with an error that names a layer, a stage of the plan and a module of it that was not
    skipped. *)
Theorem layers_accounted_for (rayon : collects_results) (plan : ExecutionPlan) (cancel_requested : bool)
    (out : result (list LayerCollectionIR * list ModuleAccessAudit * list OrderedEventCollection) LayerExecutionError)
    (Hout : execute_per_layer plan cancel_requested out) :
  match out with
  | Ok (rows, audits, events) =>
      collection_layer <$> rows = (fun layer => (gl_index layer, gl_z layer)) <$> ep_global_layers plan /\
      exists outputs : list layer_output,
        Forall2 (fun layer o => layer_task plan cancel_requested layer (Ok o) /\
                   audited (skipped show_stage_error blackboard layer) (plan_modules (ep_per_layer_stages plan)) o.1.2)
          (ep_global_layers plan) outputs /\
        rows = (fun o => o.1.1) <$> outputs /\
        audits = concat ((fun o => o.1.2) <$> outputs) /\ events = concat (snd <$> outputs)
  | Err e =>
      e = Cancelled /\ cancel_requested = true \/
      exists layer, layer ∈ ep_global_layers plan /\
        ((exists message, e = FatalLayer (gl_index layer) "PrePass::Slice" "host:slice" message) \/
         exists stage module message, stage ∈ ep_per_layer_stages plan /\ module ∈ cs_modules stage /\
           skipped show_stage_error blackboard layer (cs_stage_id stage) module = false /\
           e = FatalLayer (gl_index layer) (cs_stage_id stage) (cm_module_id module) message)
  end.
Proof.
  destruct Hout as [outputs Hp | e Hp].
  - apply (cr_ok rayon) in Hp. unfold gather.
    assert (Hall : Forall2 (fun layer (o : layer_output) => collection_layer o.1.1 = (gl_index layer, gl_z layer) /\
      layer_task plan cancel_requested layer (Ok o) /\
      audited (skipped show_stage_error blackboard layer) (plan_modules (ep_per_layer_stages plan)) o.1.2)
      (ep_global_layers plan) outputs).
    { eapply Forall2_impl; [exact Hp |]. intros layer [[lc audits] events] Ht.
      inversion Ht as [|run hash_order r Hseed Hr]; subst.
      destruct (layer_accounted (H := with_runner H run) _ _ _ _ _ _ _ _ _ _ _ _ _ _ _ _ Hseed Hr) as [Hl Hau]. done. }
    clear Hp. split.
    + symmetry. induction Hall as [|layer o layers os [Ho _] _ IH]; [done |]. cbn. by rewrite Ho, IH.
    + exists outputs. split; [|by rewrite !flat_map_concat_map].
      eapply Forall2_impl; [exact Hall |]. by intros layer o [_ ?].
  - apply (cr_err rayon) in Hp as (layer & Hin & He). apply task_error in He as [He | He]; [by left |].
    right. by exists layer.
Qed.
End layers.

(** ** Samples *)

Definition empty_slice : SliceIR := sample_slice [].

Definition run_layer : GlobalLayer :=
  {| gl_index := 0; gl_z := ONE; gl_active_regions := []; gl_has_nonplanar := false; gl_is_sync_layer := false;
     gl_is_raft := false |}.

#[local] Existing Instance sample_prepass.
#[local] Existing Instance layer_types.

(** Only the module "lines" is selected, and it returns infill with local lock tags. *)
#[local] Instance sample_host : LayerHost := {|
  selection := bool;
  invoke_selected := fun b => b;
  selection_for := fun _ _ m => Some (String.eqb m "lines");
  is_indexed_module_stage := fun _ => true;
  run_stage := fun stage_id _ _ _ =>
    {| run_result := if String.eqb stage_id "Layer::Infill" then Ok (Some (CommitInfill issued_commit)) else Ok None;
       last_runtime_reads := []; last_batch_calls := [] |}
|}.

Definition run_blackboard : Blackboard := {|
  mesh_ir := tt; surface_classification := None; layer_plan := None; seam_plan := None; support_plan := None;
  region_map := None; slice_ir := Some [empty_slice]; layer_selection_index := Some tt;
  support_geometry := None; support_analysis := None; layer_outputs := None |}.

Definition infill_stage : CompiledStage :=
  {| cs_stage_id := "Layer::Infill"; cs_modules := [compiled_module_new "lines"; compiled_module_new "gyroid"] |}.
Definition infill_post_stage : CompiledStage := {| cs_stage_id := "Layer::InfillPostProcess"; cs_modules := [] |}.
Definition support_stage : CompiledStage := {| cs_stage_id := "Layer::Support"; cs_modules := [] |}.

Definition run_plan : ExecutionPlan := {|
  ep_prepass_stages := []; ep_per_layer_stages := [infill_stage; infill_post_stage; support_stage];
  ep_layer_finalization_stage := None; ep_postpass_stages := []; ep_global_layers := [run_layer]; ep_region_plans := [];
  ep_module_region_index := ∅; ep_aggregated_region_split := ∅ |}.

Definition sample_run := execute_single_layer coarse_op no_message no_text (fun _ => "fatal") (fun _ _ => []) (fun _ _ => [])
  map_to_list (fun _ => []) (fun _ => sample_map) run_plan run_blackboard SupportToolSelection_default.

Definition sample_stages := run_layer_stage coarse_op no_message no_text (fun _ => "fatal") (fun _ _ => []) (fun _ _ => [])
  map_to_list (fun _ => sample_map) run_blackboard SupportToolSelection_default.

Definition sample_end : layer_state :=
  match fold_exec (sample_stages run_layer) (LayerArena.new, []) [infill_stage; infill_post_stage; support_stage] with
  | Done (Ok st) => st
  | _ => (LayerArena.new, [])
  end.

Lemma infill_staged_after_post_process_witness :
  exists ir, arena_infill sample_end.1 = Some ir /\ Forall global_lock (sparse_locks ir).
Proof.
  assert (Hrun : fold_exec (sample_stages run_layer) (LayerArena.new, []) ([infill_stage] ++ infill_post_stage :: [support_stage]) =
                 Done (Ok sample_end)) by (vm_compute; reflexivity).
  destruct (infill_staged_after_post_process coarse_op no_message no_text (fun _ => "fatal") (fun _ _ => []) (fun _ _ => [])
    map_to_list (fun _ => sample_map) run_blackboard SupportToolSelection_default run_layer
    [infill_stage] [support_stage] infill_post_stage (LayerArena.new, []) sample_end eq_refl eq_refl
    Hrun) as (ir & Hir & Hl).
  exists ir. split; [exact Hir |]. apply Hl. intros stage_id layer module input staged Hr. cbn in Hr.
  destruct (String.eqb stage_id "Layer::Infill"); [|discriminate Hr]. injection Hr as <-.
  repeat constructor; discriminate.
Defined.

(** A blackboard without slices. *)
Definition unsliced : Blackboard := {|
  mesh_ir := tt; surface_classification := None; layer_plan := None; seam_plan := None; support_plan := None;
  region_map := None; slice_ir := None; layer_selection_index := Some tt;
  support_geometry := None; support_analysis := None; layer_outputs := None |}.

Lemma layer_errors_attributed_witness :
  exists message, host_slice_error run_layer "blackboard slice_ir empty when Tier 2 started" =
    FatalLayer 0 "PrePass::Slice" "host:slice" message.
Proof.
  destruct (layer_errors_attributed coarse_op no_message no_text (fun _ => "fatal") (fun _ _ => []) (fun _ _ => [])
    map_to_list (fun _ => []) (fun _ => sample_map) unsliced SupportToolSelection_default run_plan run_layer
    (host_slice_error run_layer "blackboard slice_ir empty when Tier 2 started") ltac:(vm_compute; reflexivity))
    as [He | (stage & module & message & _ & _ & He)]; [exact He |].
  exists "blackboard slice_ir empty when Tier 2 started". reflexivity.
Defined.

(** Parallel maps as rayon promises them. *)
Definition any_schedule (task : GlobalLayer -> result layer_output LayerExecutionError -> Prop) (layers : list GlobalLayer)
    (out : result (list layer_output) LayerExecutionError) : Prop :=
  match out with
  | Ok outputs => Forall2 (fun layer o => task layer (Ok o)) layers outputs
  | Err e => exists layer, layer ∈ layers /\ task layer (Err e)
  end.

Definition sample_host_again : LayerHost := with_runner sample_host (run_stage (LayerHost := sample_host)).

Definition sample_layers := execute_per_layer (H := sample_host) coarse_op no_message no_text (fun _ => "fatal")
  (fun _ _ => []) (fun _ _ => []) (fun _ => []) (fun _ => sample_map) run_blackboard SupportToolSelection_default any_schedule.

(** The audit of "lines" in the infill stage; "gyroid" is skipped and has none. *)
Lemma layers_accounted_for_witness :
  exists o, sample_layers run_plan false (Ok (gather [o])) /\
    collection_layer o.1.1 = (0%Z, ONE) /\ (maa_module_id <$> o.1.2) = ["lines"].
Proof.
  assert (Hd : exists o, execute_single_layer (H := sample_host_again) coarse_op no_message no_text (fun _ => "fatal")
      (fun _ _ => []) (fun _ _ => []) map_to_list (fun _ => []) (fun _ => sample_map) run_plan run_blackboard
      SupportToolSelection_default run_layer = Done (Ok o) /\ (maa_module_id <$> o.1.2) = ["lines"])
    by (vm_compute; eexists; split; reflexivity).
  destruct Hd as (o & Hd & Hids). exists o.
  assert (He : sample_layers run_plan false (Ok (gather [o]))).
  { apply layers_ok. constructor; [|constructor].
    eapply (task_run (H := sample_host)) with (run := run_stage (LayerHost := sample_host)); [|exact Hd].
    intros stage_id layer module input l. cbn. by destruct (String.eqb stage_id "Layer::Infill"). }
  split; [exact He |]. split; [|exact Hids].
  destruct (layers_accounted_for (H := sample_host) coarse_op no_message no_text (fun _ => "fatal") (fun _ _ => [])
    (fun _ _ => []) (fun _ => []) (fun _ => sample_map) run_blackboard SupportToolSelection_default any_schedule
    ltac:(split; [done | done]) run_plan false _ He) as [Hrow _].
  injection Hrow as Hi Hz. unfold collection_layer. by rewrite Hi, Hz.
Defined.
