(* ===== verification/Prepass.v ===== *)
(** The prepass ([slicer-runtime/src/prepass.rs], with the host built-ins of
    [slicer-runtime/src/builtins/]): the order of the modules and of the host's own stages,
    what each may read and commits, the aggregation of support plans, the access audits.

    The runner of the modules and the geometric kernels of the built-ins are the interface
    [PrepassHost]; everything the driver does around them is modelled: the prerequisites of a
    stage, the commits to the blackboard, the provisioning and the removal of the active
    regions of modifier volumes, the attribution of diagnostics.  Instrumentation is left out.

    The driver is written in a state and error monad over the blackboard: a failure keeps what
    was committed before it. *)
From Stdlib Require Import Ascii.
From stdpp Require Import prelude gmap strings list.
From S2P Require Import Prelude Ir Validation Float32 ExecutionPlan Blackboard RegionMap Planar PolygonOps LayerIr.
From S2P Require Import RegionPartition VariantId.

#[local] Open Scope string_scope.
#[local] Open Scope list_scope.

(** ** Diagnostics and audits *)

Inductive DiagnosticSeverity := SevTrace | SevDebug | SevInfo | SevWarn | SevError.

Record Diagnostic := {
  dg_severity : DiagnosticSeverity;
  dg_code : Z;
  dg_layer : option Z;
  dg_object_id : option string;
  dg_message : string
}.

(** The audit of a module with the diagnostics attached to it. *)
Record PrepassAudit := { pa_access : ModuleAccessAudit; pa_diagnostics : list Diagnostic }.

Record SupportPlanProducer := { sp_module_id : string; sp_claims : list string }.

Record AttributedDiagnostic := { ad_plan_index : option nat; ad_diagnostic : Diagnostic }.

(** ** Painted objects *)

(** What the driver asks of the paint of an object: per layer of paint, its semantic, the
    values of the facets, and whether there are strokes; and the kinds of its modifiers. *)
Record PaintLayer := {
  pl_semantic : PaintSemantic;
  pl_facet_values : list (option PaintValue);
  pl_strokes_empty : bool
}.

Record PaintedObject := { po_layers : option (list PaintLayer); po_modifier_kinds : list ModifierKind }.

#[export] Instance PaintSemantic_countable : Countable PaintSemantic.
Proof.
  refine (inj_countable'
    (fun s => match s with
              | Material => inl 0 | FuzzySkin => inl 1 | SupportEnforcer => inl 2 | SupportBlocker => inl 3
              | CustomSemantic name => inr name
              end)
    (fun e => match e with
              | inl 0 => Material | inl 1 => FuzzySkin | inl 2 => SupportEnforcer | inl _ => SupportBlocker
              | inr name => CustomSemantic name
              end) _).
  by intros [].
Defined.

(** ** Errors *)

Inductive PrepassRunnerError :=
| RunnerFatalModule (stage_id : StageId) (module_id : ModuleId) (message : string)
| RunnerBlackboard (stage_id : StageId) (module_id : ModuleId) (source : BlackboardError).

Inductive LayerSliceError :=
| SliceUnknownObject (layer_index : Z) (object_id : ObjectId)
| SliceBlackboard (source : BlackboardError)
| SliceMissingLayerPlan.

Inductive SupportGeometryBuiltinError := GeometryNoLayerPlan | GeometryNoMesh | GeometryMissingSliceIR.

Inductive ShellClassificationError :=
| SliceIRNotCommitted
| RegionMapNotCommitted
| ShellBlackboard (source : BlackboardError).

Inductive OverhangAnnotationBuiltinError :=
| OverhangMissingLayerPlan
| OverhangMissingSurfaceClassification
| OverhangMissingSliceIr
| OverhangBlackboard (source : BlackboardError).

(** ** The interface to the modules and the kernels *)

Section interface.
Context {P : PrepassTypes}.
#[local] Existing Instance layer_types.

Record PrepassStageInput := {
  pin_mesh : pre_MeshIR;
  pin_layer_plan : option pre_LayerPlanIR;
  pin_slice_ir : option (list SliceIR);
  pin_region_map : option pre_RegionMapIR;
  pin_support_analysis : option pre_SupportAnalysisIR;
  pin_support_geometry : option pre_SupportGeometryIR
}.

(** [MeshAnalysisAuxiliary] carries data for observers only. *)
Inductive PrepassStageOutput :=
| OutNone
| OutSurfaceClassification (ir : pre_SurfaceClassificationIR)
| OutLayerPlan (ir : pre_LayerPlanIR)
| OutSeamPlan (ir : SeamPlanIR)
| OutSupportPlan (ir : SupportPlanIR)
| OutRegionMap (ir : pre_RegionMapIR)
| OutSupportGeometry (ir : pre_SupportGeometryIR)
| OutMeshAnalysisAuxiliary.

(** One invocation: its result and what the runner recorded of it. *)
Record prepass_run := {
  pr_result : result PrepassStageOutput PrepassRunnerError;
  pr_runtime_reads : list string;
  pr_batch_calls : list (string * Z);
  pr_diagnostics : list Diagnostic
}.

Class PrepassHost := {
  MeshAnalysisError : Type;
  RegionMappingError : Type;
  run_stage : StageId -> CompiledModuleStatic -> PrepassStageInput -> prepass_run;
  aggregate_support_plan_irs_degrading : list SupportPlanIR -> list SupportPlanProducer -> pre_MeshIR ->
    option pre_SupportAnalysisIR -> SupportPlanIR * list AttributedDiagnostic;
  execute_mesh_analysis : pre_MeshIR -> result pre_SurfaceClassificationIR MeshAnalysisError;
  (** [execute_region_mapping_inner]; the objects are those of the mesh. *)
  execute_region_mapping : pre_LayerPlanIR -> list (StageId * list ModuleInvocation) ->
    gmap PaintSemantic ResolvedConfig -> gmap string AggregatedRegionSplitEntry -> pre_MeshIR ->
    gmap string ResolvedConfig -> ResolvedConfig -> gmap Z ResolvedConfig -> result pre_RegionMapIR RegionMappingError;
  (** [execute_prepass_slice_all_layers] after its look-up of the layer plan. *)
  slice_all_layers : pre_MeshIR -> pre_LayerPlanIR -> option pre_SurfaceClassificationIR ->
    option pre_RegionMapIR -> result (list SliceIR) LayerSliceError;
  (** The surface classification with the overhang bands of every object. *)
  annotate_overhangs : pre_MeshIR -> pre_SurfaceClassificationIR -> list SliceIR -> gmap ConfigKey ConfigValue ->
    pre_SurfaceClassificationIR;
  classify_shells : list SliceIR -> pre_RegionMapIR -> option pre_LayerPlanIR -> list SliceIR;
  execute_paint_segmentation : pre_MeshIR -> list SliceIR -> pre_RegionMapIR -> result (list SliceIR) string;
  analyse_support : ResolvedConfig -> option pre_RegionMapIR -> option (list SliceIR) -> option pre_LayerPlanIR ->
    option pre_SurfaceClassificationIR -> pre_MeshIR -> pre_SupportAnalysisIR;
  execute_support_geometry : pre_LayerPlanIR -> list SliceIR -> result pre_SupportGeometryIR SupportGeometryBuiltinError;
  (** What the driver reads and writes of the products. *)
  global_layers : pre_LayerPlanIR -> list GlobalLayer;
  with_layers : pre_LayerPlanIR -> list GlobalLayer -> pre_LayerPlanIR;
  region_map_of : pre_RegionMapIR -> RegionMapIR;
  modifier_objects : pre_MeshIR -> list ModifierObject;
  painted_objects : pre_MeshIR -> list PaintedObject
}.

Inductive RegionMappingBuiltinError `{PrepassHost} :=
| MappingMissingLayerPlan
| MappingFailed (error : RegionMappingError)
| MappingBlackboard (source : BlackboardError).

Inductive PrepassExecutionError `{PrepassHost} :=
| PrepassMissing (stage_id : StageId) (slot : BlackboardPrepassSlot)
| PrepassFatalModule (stage_id : StageId) (module_id : ModuleId) (message : string)
| PrepassBlackboard (stage_id : StageId) (module_id : ModuleId) (source : BlackboardError)
| MeshAnalysisFailed (source : MeshAnalysisError)
| RegionMappingFailed (source : RegionMappingBuiltinError)
| OverhangAnnotationFailed (source : OverhangAnnotationBuiltinError)
| SupportGeometryFailed (source : SupportGeometryBuiltinError)
| SliceFailed (source : LayerSliceError)
| ShellClassificationFailed (source : ShellClassificationError)
| PaintSegmentationFailed (message : string)
| ConfigResolution (scope : string) (message : string)
| AutomaticValueExpansion (scope : string) (message : string).
End interface.

(** ** The monad of the driver *)

Section driver.
Context {P : PrepassTypes} {H : PrepassHost}.
#[local] Existing Instance layer_types.

Definition driver (A : Type) : Type := Blackboard -> exec (Blackboard * result A PrepassExecutionError).

Definition ret {A} (x : A) : driver A := fun bb => Done (bb, Ok x).

Definition bind {A B} (m : driver A) (k : A -> driver B) : driver B := fun bb =>
  let! out := m bb in
  match out with
  | (bb, Ok x) => k x bb
  | (bb, Err e) => Done (bb, Err e)
  end.

(** A computation that only reads the blackboard. *)
Definition reading {A} (f : Blackboard -> driver A) : driver A := fun bb => f bb bb.

(** A call of the blackboard, with its error wrapped. *)
Definition call (f : Blackboard -> Blackboard * result unit BlackboardError)
    (wrap : BlackboardError -> PrepassExecutionError) : driver unit := fun bb =>
  match f bb with
  | (bb, Ok _) => Done (bb, Ok tt)
  | (bb, Err e) => Done (bb, Err (wrap e))
  end.

Definition lift {A E} (wrap : E -> PrepassExecutionError) (r : result A E) : driver A := fun bb =>
  Done (bb, match r with Ok x => Ok x | Err e => Err (wrap e) end).

(** A computation that may panic. *)
Definition running {A} (m : exec A) : driver A := fun bb => let! x := m in Done (bb, Ok x).

#[local] Notation "'let*' x := m 'in' k" := (bind m (fun x => k))
  (at level 10, x pattern, m at level 100, k at level 200).

(** A loop with an accumulator. *)
Fixpoint each {A S} (f : S -> A -> driver S) (st : S) (l : list A) : driver S :=
  match l with
  | [] => ret st
  | x :: l => let* st := f st x in each f st l
  end.

(** ** The stages of modules *)

Definition required_slots (stage_id : StageId) : list BlackboardPrepassSlot :=
  if String.eqb stage_id "PrePass::MeshAnalysis" then []
  else if String.eqb stage_id "PrePass::LayerPlanning" then [SlotSurfaceClassification]
  else if String.eqb stage_id "PrePass::OverhangAnnotation" then [SlotSurfaceClassification; SlotLayerPlan]
  else if String.eqb stage_id "PrePass::SeamPlanning" then [SlotLayerPlan; SlotSliceIR; SlotRegionMap]
  else if String.eqb stage_id "PrePass::SupportGeometry"
  then [SlotSurfaceClassification; SlotLayerPlan; SlotRegionMap; SlotSliceIR; SlotSupportGeometry]
  else if String.eqb stage_id "PrePass::SupportAnalysis" then [SlotSliceIR]
  else if String.eqb stage_id "PrePass::RegionMapping" then [SlotLayerPlan]
  else if String.eqb stage_id "PrePass::Slice" then [SlotSurfaceClassification; SlotLayerPlan; SlotRegionMap]
  else if String.eqb stage_id "PrePass::ShellClassification"
  then [SlotSurfaceClassification; SlotLayerPlan; SlotRegionMap; SlotSliceIR]
  else [].

Definition slot_present (bb : Blackboard) (slot : BlackboardPrepassSlot) : bool :=
  match slot with
  | SlotSurfaceClassification => bool_decide (is_Some (surface_classification bb))
  | SlotLayerPlan => bool_decide (is_Some (layer_plan bb))
  | SlotRegionMap => bool_decide (is_Some (region_map bb))
  | SlotSeamPlan => bool_decide (is_Some (seam_plan bb))
  | SlotSupportPlan => bool_decide (is_Some (support_plan bb))
  | SlotSliceIR => bool_decide (is_Some (slice_ir bb))
  | SlotSupportGeometry => bool_decide (is_Some (support_geometry bb))
  | SlotSupportAnalysis => bool_decide (is_Some (support_analysis bb))
  end.

Definition ensure_stage_prerequisites (stage_id : StageId) (bb : Blackboard) : result unit PrepassExecutionError :=
  for_each (fun slot => if slot_present bb slot then Ok tt else Err (PrepassMissing stage_id slot)) (required_slots stage_id).

Definition stage_requires_region_map (stage_id : StageId) : bool := bool_decide (SlotRegionMap ∈ required_slots stage_id).

Definition ir_path_for_prepass_output (output : PrepassStageOutput) : option string :=
  match output with
  | OutNone => None
  | OutSurfaceClassification _ => Some "SurfaceClassificationIR"
  | OutLayerPlan _ => Some "LayerPlanIR"
  | OutSeamPlan _ => Some "SeamPlanIR"
  | OutSupportPlan _ => Some "SupportPlanIR"
  | OutRegionMap _ => Some "RegionMapIR"
  | OutSupportGeometry _ => Some "SupportGeometryIR"
  | OutMeshAnalysisAuxiliary => None
  end.

Definition commit_stage_output (stage_id : StageId) (module_id : ModuleId) (output : PrepassStageOutput) : driver unit :=
  let wrap := PrepassBlackboard stage_id module_id in
  match output with
  | OutNone | OutMeshAnalysisAuxiliary => ret tt
  | OutSurfaceClassification ir => call (fun bb => commit_surface_classification bb ir) wrap
  | OutLayerPlan ir => call (fun bb => commit_layer_plan bb ir) wrap
  | OutSeamPlan ir => call (fun bb => commit_seam_plan bb ir) wrap
  | OutSupportPlan ir => call (fun bb => commit_support_plan bb ir) wrap
  | OutRegionMap ir => call (fun bb => commit_region_map bb ir) wrap
  | OutSupportGeometry ir => call (fun bb => commit_support_geometry bb ir) wrap
  end.

Definition stage_input (bb : Blackboard) : PrepassStageInput :=
  {| pin_mesh := mesh_ir bb; pin_layer_plan := layer_plan bb; pin_slice_ir := slice_ir bb;
     pin_region_map := region_map bb; pin_support_analysis := support_analysis bb;
     pin_support_geometry := support_geometry bb |}.

Definition runner_error (e : PrepassRunnerError) : PrepassExecutionError :=
  match e with
  | RunnerFatalModule stage_id module_id message => PrepassFatalModule stage_id module_id message
  | RunnerBlackboard stage_id module_id source => PrepassBlackboard stage_id module_id source
  end.

(** Audits so far; the support plans of the stage that are still to be merged, the audit of
    the module behind each, and its identity. *)
Record stage_state := {
  ss_audits : list PrepassAudit;
  ss_plans : list SupportPlanIR;
  ss_plan_audits : list (option nat);
  ss_producers : list SupportPlanProducer
}.

Definition start_stage (audits : list PrepassAudit) : stage_state :=
  {| ss_audits := audits; ss_plans := []; ss_plan_audits := []; ss_producers := [] |}.

Definition with_audits (st : stage_state) (audits : list PrepassAudit) : stage_state :=
  {| ss_audits := audits; ss_plans := ss_plans st; ss_plan_audits := ss_plan_audits st; ss_producers := ss_producers st |}.

Definition push_support_plan (st : stage_state) (module : CompiledModuleStatic) (plan : SupportPlanIR) : stage_state :=
  {| ss_audits := ss_audits st; ss_plans := ss_plans st ++ [plan]; ss_plan_audits := ss_plan_audits st ++ [None];
     ss_producers := ss_producers st ++ [{| sp_module_id := cm_module_id module; sp_claims := cm_claims module |}] |}.

(** [if let Some(slot) = support_plan_audits.last_mut() { *slot = Some(index) }]. *)
Definition set_last_plan_audit (st : stage_state) (audit_index : nat) : stage_state :=
  {| ss_audits := ss_audits st; ss_plans := ss_plans st;
     ss_plan_audits := match ss_plan_audits st with
                       | [] => []
                       | l => removelast l ++ [Some audit_index]
                       end;
     ss_producers := ss_producers st |}.

Definition module_audit (module : CompiledModuleStatic) (run : prepass_run) (writes : list string) : PrepassAudit :=
  {| pa_access := {| maa_module_id := cm_module_id module; maa_runtime_reads := pr_runtime_reads run;
                     maa_runtime_writes := writes; maa_batch_calls := pr_batch_calls run |};
     pa_diagnostics := pr_diagnostics run |}.

Definition record_audit (st : stage_state) (module : CompiledModuleStatic) (run : prepass_run)
    (ir_path : option string) (support_plan_output : bool) : stage_state :=
  match ir_path with
  | Some ir_path =>
      let audit_index := length (ss_audits st) in
      let st := with_audits st (ss_audits st ++ [module_audit module run [ir_path]]) in
      if support_plan_output then set_last_plan_audit st audit_index else st
  | None =>
      match pr_runtime_reads run, pr_batch_calls run with
      | [], [] => st
      | _, _ => with_audits st (ss_audits st ++ [module_audit module run []])
      end
  end.

(** The plan that waits for the aggregation of the stage, if the output is one. *)
Definition waiting_plan (stage_id : StageId) (output : PrepassStageOutput) : option SupportPlanIR :=
  if String.eqb stage_id "PrePass::SupportGeometry"
  then match output with OutSupportPlan plan => Some plan | _ => None end
  else None.

Definition run_module (stage_id : StageId) (st : stage_state) (module : CompiledModuleStatic) : driver stage_state :=
  reading (fun bb =>
    let run := run_stage stage_id module (stage_input bb) in
    let* output := lift runner_error (pr_result run) in
    let ir_path := ir_path_for_prepass_output output in
    match waiting_plan stage_id output with
    | Some plan => ret (record_audit (push_support_plan st module plan) module run ir_path true)
    | None =>
        let* _ := commit_stage_output stage_id (cm_module_id module) output in
        ret (record_audit st module run ir_path false)
    end).

(** *** The aggregation of support plans *)

Definition aggregation_module : ModuleId := "host:support_plan_aggregation".

Definition host_audit : PrepassAudit :=
  {| pa_access := {| maa_module_id := aggregation_module; maa_runtime_reads := []; maa_runtime_writes := [];
                     maa_batch_calls := [] |};
     pa_diagnostics := [] |}.

Definition push_diagnostic (d : Diagnostic) (a : PrepassAudit) : PrepassAudit :=
  {| pa_access := pa_access a; pa_diagnostics := pa_diagnostics a ++ [d] |}.

(** The audit of the module whose plan a diagnostic is about. *)
Definition plan_audit (plan_audits : list (option nat)) (entry : AttributedDiagnostic) : option nat :=
  ad_plan_index entry ≫= fun index => mjoin (plan_audits !! index).

(** One diagnostic; the audit of the host is made when it is first needed. *)
Definition attach (plan_audits : list (option nat)) (st : list PrepassAudit * option nat) (entry : AttributedDiagnostic)
    : exec (list PrepassAudit * option nat) :=
  let '(audits, host_audit_index) := st in
  let '(audits, host_audit_index, target) :=
    match plan_audit plan_audits entry with
    | Some index => (audits, host_audit_index, index)
    | None =>
        match host_audit_index with
        | Some index => (audits, host_audit_index, index)
        | None => (audits ++ [host_audit], Some (length audits), length audits)
        end
    end in
  match audits !! target with
  | Some a => Done (<[target := push_diagnostic (ad_diagnostic entry) a]> audits, host_audit_index)
  | None => Panicked
  end.

Fixpoint attach_all (plan_audits : list (option nat)) (st : list PrepassAudit * option nat)
    (entries : list AttributedDiagnostic) : exec (list PrepassAudit) :=
  match entries with
  | [] => Done st.1
  | entry :: entries => let! st := attach plan_audits st entry in attach_all plan_audits st entries
  end.

Definition aggregate (stage_id : StageId) (st : stage_state) : driver (list PrepassAudit) :=
  match ss_plans st with
  | [] => ret (ss_audits st)
  | plans =>
      reading (fun bb =>
        let '(plan, diagnostics) :=
          aggregate_support_plan_irs_degrading plans (ss_producers st) (mesh_ir bb) (support_analysis bb) in
        let* audits := running (attach_all (ss_plan_audits st) (ss_audits st, None) diagnostics) in
        let* _ := commit_stage_output stage_id aggregation_module (OutSupportPlan plan) in
        ret audits)
  end.

(** A stage; the second component collects the entries of the plans before they are merged. *)
Definition run_prepass_stage (st : list PrepassAudit * list SupportPlanEntry) (stage : CompiledStage)
    : driver (list PrepassAudit * list SupportPlanEntry) :=
  let* _ := reading (fun bb => lift id (ensure_stage_prerequisites (cs_stage_id stage) bb)) in
  let* out := each (run_module (cs_stage_id stage)) (start_stage st.1) (cs_modules stage) in
  let* audits := aggregate (cs_stage_id stage) out in
  ret (audits, st.2 ++ flat_map sup_entries (ss_plans out)).

Definition execute_prepass (stages : list CompiledStage) : driver (list PrepassAudit * list SupportPlanEntry) :=
  each run_prepass_stage ([], []) stages.

(** ** The built-in stages *)

Definition run_builtin_stage (should_run : Blackboard -> bool) (execute : driver unit) : driver unit :=
  reading (fun bb => if should_run bb then execute else ret tt).

Definition present {A} (slot : option A) : bool := match slot with Some _ => true | None => false end.

Definition mesh_analysis_builtin : driver unit :=
  reading (fun bb =>
    let* ir := lift MeshAnalysisFailed (execute_mesh_analysis (mesh_ir bb)) in
    call (fun bb => commit_surface_classification bb ir)
      (PrepassBlackboard "PrePass::MeshAnalysis" "host:mesh_analysis")).

(** *** Region mapping *)

Definition region_key_leb (a b : RegionKey) : bool :=
  if String.eqb (rk_object_id a) (rk_object_id b) then
    if Z.eqb (rk_region_id a) (rk_region_id b) then chain_leb (rk_variant_chain a) (rk_variant_chain b)
    else Z.leb (rk_region_id a) (rk_region_id b)
  else rust_leb (rk_object_id a) (rk_object_id b).

(** The entries of the map for the modifier regions of a layer, in a fixed order. *)
Definition modifier_keys (m : RegionMapIR) (layer : GlobalLayer) : list RegionKey :=
  sort_by region_key_leb
    (filter (fun key => Z.eqb (rk_global_layer_index key) (gl_index layer) && is_modifier_namespace_id (rk_region_id key) = true)
            (rm_entries m).*1).

Definition already_active (layer : GlobalLayer) (key : RegionKey) : bool :=
  existsb (fun active => String.eqb (ar_object_id active) (rk_object_id key) && Z.eqb (ar_region_id active) (rk_region_id key))
    (gl_active_regions layer).

(** [iter().find(p)] where the predicate can panic. *)
Fixpoint find_exec {A} (p : A -> exec bool) (l : list A) : exec (option A) :=
  match l with
  | [] => Done None
  | x :: l => let! found := p x in if found : bool then Done (Some x) else find_exec p l
  end.

(** The active region that a modifier region is cut from. *)
Definition parent_of (layer : GlobalLayer) (key : RegionKey) (base_region_id : Z) : exec (option ActiveRegion) :=
  find_exec (fun active =>
      if negb (String.eqb (ar_object_id active) (rk_object_id key)) then Done false
      else match rk_variant_chain key with
           | [] => Done (Z.eqb (ar_region_id active) base_region_id)
           | chain => let! id := paint_variant_region_id (ar_region_id active) chain in Done (Z.eqb id base_region_id)
           end) (gl_active_regions layer).

Definition provisioned (key : RegionKey) (c : ResolvedConfig) (parent : option ActiveRegion) : ActiveRegion :=
  match parent with
  | Some p =>
      {| ar_object_id := ar_object_id p; ar_region_id := rk_region_id key; ar_resolved_config := c;
         ar_effective_layer_height := ar_effective_layer_height p; ar_nonplanar_shell := ar_nonplanar_shell p;
         ar_is_catchup_layer := ar_is_catchup_layer p; ar_catchup_z_bottom := ar_catchup_z_bottom p;
         ar_tool_index := ar_tool_index p |}
  | None =>
      {| ar_object_id := rk_object_id key; ar_region_id := rk_region_id key; ar_resolved_config := c;
         ar_effective_layer_height := ZERO; ar_nonplanar_shell := None; ar_is_catchup_layer := false;
         ar_catchup_z_bottom := ZERO; ar_tool_index := 0%Z |}
  end.

Definition provision_key (m : RegionMapIR) (layer : GlobalLayer) (key : RegionKey) : exec (option ActiveRegion) :=
  if already_active layer key then Done None
  else
    match modifier_base_region_id (rk_region_id key) with
    | None => Panicked
    | Some base_region_id =>
        let! parent := parent_of layer key base_region_id in
        let! c := config_for m key in
        Done (Some (provisioned key c parent))
    end.

Definition provision_layer (m : RegionMapIR) (layer : GlobalLayer) : exec GlobalLayer :=
  let! additions := map_exec (provision_key m layer) (modifier_keys m layer) in
  Done (with_active_regions layer (gl_active_regions layer ++ omap id additions)).

Definition stage_invocations (plan : ExecutionPlan) : list (StageId * list ModuleInvocation) :=
  (fun stage => (cs_stage_id stage,
     (fun m => {| mi_module_id := cm_module_id m; mi_config_view := cm_config_view m |}) <$> cs_modules stage))
  <$> ep_per_layer_stages plan ++ ep_postpass_stages plan.

Section configured.
(** [Debug] formatting of a semantic. *)
Context (debug_semantic : PaintSemantic -> string).
(** Clipper2, and the message of an error of the split. *)
Context (boolean_op_tree_64 : ClipOperation -> list (list Point2) -> list (list Point2) -> PolyPath).
Context (split_message : SplitError -> string).
Context (plan : ExecutionPlan) (resolved_configs : gmap string ResolvedConfig)
        (default_resolved_config : ResolvedConfig) (raw_config_source : gmap ConfigKey ConfigValue).

(** The NUL keeps the prefixes apart from object ids. *)
Definition RESOLVED_PAINT_PREFIX : string := String "000"%char "resolved-paint:".
Definition RESOLVED_TOOL_PREFIX : string := String "000"%char "resolved-tool:".

Definition semantic_name (semantic : PaintSemantic) : string :=
  match semantic with
  | Material => "material"
  | FuzzySkin => "fuzzy_skin"
  | SupportEnforcer => "support_enforcer"
  | SupportBlocker => "support_blocker"
  | CustomSemantic name => name
  end.

Definition painted_semantics (obj : PaintedObject) : list PaintSemantic :=
  (pl_semantic <$> filter (fun l => existsb present (pl_facet_values l) || negb (pl_strokes_empty l) = true)
                     (default [] (po_layers obj))) ++
  omap (fun kind => match kind with
        | ParameterModifier | NegativePart => None
        | SupportEnforcerKind => Some SupportEnforcer
        | SupportBlockerKind => Some SupportBlocker
        end) (po_modifier_kinds obj).

Definition record_semantic (st : gset string * list PaintSemantic) (semantic : PaintSemantic)
    : gset string * list PaintSemantic :=
  if decide (debug_semantic semantic ∈ st.1) then st
  else ({[debug_semantic semantic]} ∪ st.1, st.2 ++ [semantic]).

Definition build_paint_semantic_configs (bb : Blackboard) : gmap PaintSemantic ResolvedConfig :=
  let present := (foldl record_semantic (∅, []) (flat_map painted_semantics (painted_objects (mesh_ir bb)))).2 in
  map_collect (omap (fun semantic => pair semantic <$> resolved_configs !! (RESOLVED_PAINT_PREFIX +:+ semantic_name semantic))
                 present).

Definition tool_configs : gmap Z ResolvedConfig :=
  map_collect (omap (fun kc : string * ResolvedConfig =>
      strip_prefix RESOLVED_TOOL_PREFIX kc.1 ≫= fun index => (fun index => (index, kc.2)) <$> parse_uint u32_max index)
    (btree_iter resolved_configs)).

Definition commit_region_mapping_builtin (semantics : gmap PaintSemantic ResolvedConfig) : driver unit :=
  reading (fun bb =>
    match region_map bb with
    | Some _ => ret tt
    | None =>
        match layer_plan bb with
        | None => lift RegionMappingFailed (Err MappingMissingLayerPlan)
        | Some lp =>
            let* ir := lift (fun e => RegionMappingFailed (MappingFailed e))
              (execute_region_mapping lp (stage_invocations plan) semantics (ep_aggregated_region_split plan) (mesh_ir bb)
                 resolved_configs default_resolved_config tool_configs) in
            let* layers := running (map_exec (provision_layer (region_map_of ir)) (global_layers lp)) in
            let* _ := call (fun bb => replace_layer_plan bb (with_layers lp layers))
                        (fun source => RegionMappingFailed (MappingBlackboard source)) in
            call (fun bb => commit_region_map bb ir) (fun source => RegionMappingFailed (MappingBlackboard source))
        end
    end).

Definition region_mapping_stage : driver unit :=
  reading (fun bb =>
    let should_run := present (layer_plan bb) && negb (present (region_map bb)) in
    let semantics := build_paint_semantic_configs bb in
    run_builtin_stage (fun _ => should_run) (commit_region_mapping_builtin semantics)).

(** *** The stages over the slices *)

Definition commit_slice_builtin : driver unit :=
  reading (fun bb =>
    let* slices := lift SliceFailed
      match layer_plan bb with
      | None => Err SliceMissingLayerPlan
      | Some lp => slice_all_layers (mesh_ir bb) lp (surface_classification bb) (region_map bb)
      end in
    call (fun bb => commit_slice_ir bb slices) (fun source => SliceFailed (SliceBlackboard source))).

Definition commit_overhang_annotation_builtin : driver unit :=
  reading (fun bb =>
    match layer_plan bb, surface_classification bb, slice_ir bb with
    | None, _, _ => lift OverhangAnnotationFailed (Err OverhangMissingLayerPlan)
    | _, None, _ => lift OverhangAnnotationFailed (Err OverhangMissingSurfaceClassification)
    | _, _, None => lift OverhangAnnotationFailed (Err OverhangMissingSliceIr)
    | Some _, Some surface, Some slices =>
        let ir := annotate_overhangs (mesh_ir bb) surface slices raw_config_source in
        call (fun bb => replace_surface_classification bb ir)
          (fun source => OverhangAnnotationFailed (OverhangBlackboard source))
    end).

Definition commit_shell_classification_builtin : driver unit :=
  reading (fun bb =>
    match slice_ir bb, region_map bb with
    | None, _ => lift ShellClassificationFailed (Err SliceIRNotCommitted)
    | _, None => lift ShellClassificationFailed (Err RegionMapNotCommitted)
    | Some slices, Some rm =>
        let classified := classify_shells slices rm (layer_plan bb) in
        call (fun bb => replace_slice_ir bb classified)
          (fun source => ShellClassificationFailed (ShellBlackboard source))
    end).

(** An active region of a modifier stays when the layer has geometry for it. *)
Definition materialized (slices : list SliceIR) (layer : GlobalLayer) (active : ActiveRegion) : bool :=
  negb (is_modifier_namespace_id (ar_region_id active)) ||
  existsb (fun slice => Z.eqb (sl_global_layer_index slice) (gl_index layer) &&
    existsb (fun r => String.eqb (sr_object_id r) (ar_object_id active) && Z.eqb (sr_region_id r) (ar_region_id active)
                      && match sr_polygons r with [] => false | _ => true end) (sl_regions slice)) slices.

Definition retain_materialized (slices : list SliceIR) (layer : GlobalLayer) : GlobalLayer :=
  with_active_regions layer (filter (fun active => materialized slices layer active = true) (gl_active_regions layer)).

(** The regions of every slice split by the modifiers of the mesh; the first error stops. *)
Definition split_slices (objects : list ModifierObject) (slices : list SliceIR) : exec (result (list SliceIR) string) :=
  fold_exec (fun done slice =>
      let! out := split_modifier_sub_regions_for_prepass boolean_op_tree_64 slice objects in
      match out with
      | (slice, Ok _) => Done (Ok (done ++ [slice]))
      | (_, Err e) => Done (Err (split_message e))
      end) [] slices.

Definition paint_segmentation_error := PrepassBlackboard "PrePass::PaintSegmentation" "host:paint_segmentation".

Definition paint_segmentation_builtin : driver unit :=
  reading (fun bb =>
    match slice_ir bb, region_map bb with
    | Some slices, Some rm =>
        let* slices := lift PaintSegmentationFailed (execute_paint_segmentation (mesh_ir bb) slices rm) in
        let* out := running (split_slices (modifier_objects (mesh_ir bb)) slices) in
        let* slices := lift PaintSegmentationFailed out in
        let* _ := match layer_plan bb with
                  | Some lp => call (fun bb => replace_layer_plan bb
                                 (with_layers lp (retain_materialized slices <$> global_layers lp))) paint_segmentation_error
                  | None => ret tt
                  end in
        call (fun bb => replace_slice_ir bb slices) paint_segmentation_error
    | _, _ => running Panicked
    end).

Definition support_analysis_builtin : driver unit :=
  reading (fun bb =>
    let ir := analyse_support default_resolved_config (region_map bb) (slice_ir bb) (layer_plan bb)
                (surface_classification bb) (mesh_ir bb) in
    call (fun bb => commit_support_analysis bb ir)
      (PrepassBlackboard "PrePass::SupportAnalysis" "host:support_analysis")).

Definition commit_support_geometry_builtin : driver unit :=
  reading (fun bb =>
    match layer_plan bb, slice_ir bb with
    | None, _ => lift SupportGeometryFailed (Err GeometryNoLayerPlan)
    | _, None => lift SupportGeometryFailed (Err GeometryMissingSliceIR)
    | Some lp, Some slices =>
        let* ir := lift SupportGeometryFailed (execute_support_geometry lp slices) in
        call (fun bb => commit_support_geometry bb ir) (fun _ => SupportGeometryFailed GeometryNoLayerPlan)
    end).

(** ** The whole prepass *)

Definition builtin_stages : driver unit :=
  let* _ := region_mapping_stage in
  let* _ := run_builtin_stage (fun bb => negb (present (slice_ir bb)) && present (layer_plan bb) && present (region_map bb))
              commit_slice_builtin in
  let* _ := run_builtin_stage (fun bb => present (slice_ir bb) && present (layer_plan bb) && present (surface_classification bb))
              commit_overhang_annotation_builtin in
  let* _ := run_builtin_stage (fun bb => present (slice_ir bb) && present (region_map bb)) commit_shell_classification_builtin in
  let* _ := run_builtin_stage (fun bb => present (slice_ir bb) && present (region_map bb)) paint_segmentation_builtin in
  let* _ := run_builtin_stage (fun bb => negb (present (support_analysis bb)) && present (slice_ir bb)) support_analysis_builtin in
  run_builtin_stage (fun bb => negb (present (support_geometry bb)) && present (layer_plan bb) && present (slice_ir bb))
    commit_support_geometry_builtin.

Definition early_stages : list CompiledStage :=
  filter (fun stage => stage_requires_region_map (cs_stage_id stage) = false) (ep_prepass_stages plan).
Definition late_stages : list CompiledStage :=
  filter (fun stage => stage_requires_region_map (cs_stage_id stage) = true) (ep_prepass_stages plan).

(** The audits, and the support entries of the late stages before their aggregation. *)
Definition execute_prepass_with_builtins_configured : driver (list PrepassAudit * list SupportPlanEntry) :=
  let* _ := run_builtin_stage (fun bb => negb (present (surface_classification bb))) mesh_analysis_builtin in
  let* early := execute_prepass early_stages in
  let* _ := builtin_stages in
  let* late := execute_prepass late_stages in
  ret (early.1 ++ late.1, late.2).
End configured.

(** ** The calls of the blackboard

    What a computation does to the blackboard is the list of the calls that were accepted:
    a refused call changes nothing and ends the prepass. *)

Inductive slot_write := Commit (slot : BlackboardPrepassSlot) | Replace (slot : BlackboardPrepassSlot).

#[export] Instance slot_write_eq_dec : EqDecision slot_write.
Proof. solve_decision. Defined.

Definition write_of (c : bb_call) : option slot_write :=
  match c with
  | CommitSurfaceClassification _ => Some (Commit SlotSurfaceClassification)
  | ReplaceSurfaceClassification _ => Some (Replace SlotSurfaceClassification)
  | CommitLayerPlan _ => Some (Commit SlotLayerPlan)
  | ReplaceLayerPlan _ => Some (Replace SlotLayerPlan)
  | CommitSeamPlan _ => Some (Commit SlotSeamPlan)
  | CommitSupportPlan _ => Some (Commit SlotSupportPlan)
  | CommitRegionMap _ => Some (Commit SlotRegionMap)
  | CommitSliceIr _ => Some (Commit SlotSliceIR)
  | ReplaceSliceIr _ => Some (Replace SlotSliceIR)
  | CommitSupportGeometry _ => Some (Commit SlotSupportGeometry)
  | CommitSupportAnalysis _ => Some (Commit SlotSupportAnalysis)
  | CommitLayerSelectionIndex _ | CommitLayerOutput _ _ | DrainLayerOutputs => None
  end.

Definition writes (cs : list bb_call) : list slot_write := omap write_of cs.

Definition slot_of (w : slot_write) : BlackboardPrepassSlot :=
  match w with Commit slot | Replace slot => slot end.

(** The accepted calls that lead from one blackboard to another. *)
Inductive commits : Blackboard -> list bb_call -> Blackboard -> Prop :=
| commits_nil bb : commits bb [] bb
| commits_cons bb c cs bb' :
    accepted (bb_step bb c).2 = true -> commits (bb_step bb c).1 cs bb' -> commits bb (c :: cs) bb'.

(** What the outcomes of a computation are like, if it does not panic. *)
Definition yields {A} (bb : Blackboard) (m : driver A)
    (R : list bb_call -> Blackboard -> result A PrepassExecutionError -> Prop) : Prop :=
  forall bb' r, m bb = Done (bb', r) -> exists cs, commits bb cs bb' /\ R cs bb' r.

(** The order in which the host's own stages write, after the early modules. *)
Definition builtin_order : list slot_write :=
  [Replace SlotLayerPlan; Commit SlotRegionMap; Commit SlotSliceIR; Replace SlotSurfaceClassification;
   Replace SlotSliceIR; Replace SlotLayerPlan; Replace SlotSliceIR; Commit SlotSupportAnalysis;
   Commit SlotSupportGeometry].

(** What a module can write. *)
Definition guest_writes : list slot_write :=
  Commit <$> [SlotSurfaceClassification; SlotLayerPlan; SlotSeamPlan; SlotSupportPlan; SlotRegionMap; SlotSupportGeometry].

Definition by_guest (c : bb_call) : Prop := exists w, write_of c = Some w /\ w ∈ guest_writes.

Definition plans_only (c : bb_call) : Prop :=
  write_of c = Some (Commit SlotSeamPlan) \/ write_of c = Some (Commit SlotSupportPlan).

(** *** Lemmas on calls *)

Lemma commits_app bb cs bb1 cs' bb' : commits bb cs bb1 -> commits bb1 cs' bb' -> commits bb (cs ++ cs') bb'.
Proof. induction 1; intros; [done|]. cbn. constructor; auto. Qed.

Lemma writes_app cs cs' : writes (cs ++ cs') = writes cs ++ writes cs'.
Proof. apply omap_app. Qed.

#[local] Ltac step_cases :=
  cbn; unfold commit_surface_classification, replace_surface_classification, commit_layer_plan,
    replace_layer_plan, commit_seam_plan, commit_support_plan, commit_region_map, commit_slice_ir, replace_slice_ir,
    commit_layer_selection_index, commit_support_geometry, commit_support_analysis, commit_layer_output,
    drain_layer_outputs, commit_prepass; cbn; repeat (case_match; cbn in *; simplify_eq).

(** A refused call changes nothing. *)
Lemma refused_unchanged bb c : accepted (bb_step bb c).2 = false -> (bb_step bb c).1 = bb.
Proof. destruct bb, c; step_cases; done. Qed.

(** What an accepted call does to the slots. *)
Lemma step_present bb c s :
  accepted (bb_step bb c).2 = true ->
  slot_present (bb_step bb c).1 s = slot_present bb s || bool_decide (Some s = slot_of <$> write_of c).
Proof.
  destruct bb, c, s; step_cases; intros; try done; repeat case_bool_decide; cbn; try done; exfalso; naive_solver.
Qed.

(** A slot is committed once, except that support plans are merged. *)
Lemma commit_was_absent bb c s :
  accepted (bb_step bb c).2 = true -> write_of c = Some (Commit s) -> s <> SlotSupportPlan -> slot_present bb s = false.
Proof.
  destruct bb, c; cbn [write_of]; intros Ha [= <-] Hs; try done; revert Ha; step_cases; try done;
    intros _; apply bool_decide_false; naive_solver.
Qed.

Lemma commits_present bb cs bb' s :
  commits bb cs bb' -> slot_present bb' s = slot_present bb s || bool_decide (s ∈ slot_of <$> writes cs).
Proof.
  induction 1 as [|bb c cs bb' Ha _ IH]; [by rewrite orb_false_r|].
  rewrite IH, step_present by done. rewrite <-orb_assoc. f_equal. unfold writes. cbn.
  destruct (write_of c) as [w|]; cbn; [|done].
  repeat case_bool_decide; cbn; try done; exfalso; set_solver.
Qed.

Lemma commits_keep bb cs bb' s : commits bb cs bb' -> slot_present bb s = true -> slot_present bb' s = true.
Proof. intros H0 Hs. by rewrite (commits_present _ _ _ s H0), Hs. Qed.

(** *** Rules of [yields] *)

Lemma yields_ret {A} bb (x : A) (R : list bb_call -> Blackboard -> result A PrepassExecutionError -> Prop) :
  R [] bb (Ok x) -> yields bb (ret x) R.
Proof. intros HR bb' r [= <- <-]. exists []. split; [constructor | done]. Qed.

Lemma yields_bind {A B} bb (m : driver A) (k : A -> driver B)
    (R1 : list bb_call -> Blackboard -> result A PrepassExecutionError -> Prop)
    (R : list bb_call -> Blackboard -> result B PrepassExecutionError -> Prop) :
  yields bb m R1 ->
  (forall cs bb' x, commits bb cs bb' -> R1 cs bb' (Ok x) -> yields bb' (k x) (fun cs' => R (cs ++ cs'))) ->
  (forall cs bb' e, commits bb cs bb' -> R1 cs bb' (Err e) -> R cs bb' (Err e)) ->
  yields bb (bind m k) R.
Proof.
  intros Hm Hk He bb' r. unfold bind. destruct (m bb) as [[bb1 [x|e]]| |] eqn:E; cbn; [|intros [= <- <-]|done..].
  - intros Hk1. destruct (Hm _ _ E) as (cs & Hcs & H1). destruct (Hk _ _ _ Hcs H1 _ _ Hk1) as (cs' & Hcs' & HR).
    exists (cs ++ cs'). eauto using commits_app.
  - destruct (Hm _ _ E) as (cs & Hcs & H1). eauto.
Qed.

Lemma yields_mono {A} bb (m : driver A) (R1 R : list bb_call -> Blackboard -> result A PrepassExecutionError -> Prop) :
  yields bb m R1 -> (forall cs bb' r, commits bb cs bb' -> R1 cs bb' r -> R cs bb' r) -> yields bb m R.
Proof. intros Hm HR bb' r E. destruct (Hm _ _ E) as (cs & ? & ?). eauto. Qed.

Lemma yields_reading {A} bb (f : Blackboard -> driver A)
    (R : list bb_call -> Blackboard -> result A PrepassExecutionError -> Prop) :
  yields bb (f bb) R -> yields bb (reading f) R.
Proof. done. Qed.

Lemma yields_lift {A E} bb (wrap : E -> PrepassExecutionError) (x : result A E)
    (R : list bb_call -> Blackboard -> result A PrepassExecutionError -> Prop) :
  (forall y, x = Ok y -> R [] bb (Ok y)) -> (forall e, x = Err e -> R [] bb (Err (wrap e))) -> yields bb (lift wrap x) R.
Proof. intros H1 H2 bb' r [= <- <-]. exists []. split; [constructor|]. destruct x; auto. Qed.

Lemma yields_running {A} bb (m : exec A)
    (R : list bb_call -> Blackboard -> result A PrepassExecutionError -> Prop) :
  (forall x, m = Done x -> R [] bb (Ok x)) -> yields bb (running m) R.
Proof.
  intros H1 bb' r. unfold running. destruct m; cbn; [|done..]. intros [= <- <-]. exists []. split; [constructor | auto].
Qed.

(** A call that is one of the blackboard's. *)
Lemma yields_call bb f wrap c (R : list bb_call -> Blackboard -> result unit PrepassExecutionError -> Prop) :
  bb_step bb c = prod_map id Done_ (f bb) ->
  (accepted (bb_step bb c).2 = true -> R [c] (bb_step bb c).1 (Ok tt)) -> (forall e, R [] bb (Err (wrap e))) ->
  yields bb (call f wrap) R.
Proof.
  intros Hc Hok Herr bb' r. unfold call. pose proof (refused_unchanged bb c) as Hbb. rewrite Hc in Hok, Hbb.
  destruct (f bb) as [bb1 [[]|e]] eqn:E; cbn in *; intros [= <- <-].
  - exists [c]. split; [|auto]. constructor; rewrite Hc; [done | constructor].
  - exists []. rewrite Hbb by done. split; [constructor | done].
Qed.

(** ** The modules *)

Lemma each_yields {A S} (f : S -> A -> driver S) (I : Blackboard -> Prop) (Q : bb_call -> Prop) l st bb :
  (forall bb cs bb', commits bb cs bb' -> Forall Q cs -> I bb -> I bb') ->
  (forall st x bb, x ∈ l -> I bb -> yields bb (f st x) (fun cs _ _ => Forall Q cs)) ->
  I bb -> yields bb (each f st l) (fun cs _ _ => Forall Q cs).
Proof.
  intros HI. revert st bb. induction l as [|x l IH]; intros st bb Hf Hbb; [apply yields_ret; by apply Forall_nil|].
  eapply yields_bind; [apply Hf; [left | done] | | done].
  intros cs bb' st' Hcs HQ. eapply yields_mono; [apply IH; [|eauto] |].
  - intros st1 y bb1 Hy. apply Hf. by right.
  - intros. by apply Forall_app.
Qed.

Lemma commit_stage_output_guest stage_id module_id output bb :
  yields bb (commit_stage_output stage_id module_id output) (fun cs _ _ => Forall by_guest cs).
Proof.
  destruct output as [|ir|ir|ir|ir|ir|ir|]; cbn [commit_stage_output]; try (apply yields_ret; by apply Forall_nil);
    [eapply (yields_call _ _ _ (CommitSurfaceClassification (T := layer_types) ir)) | eapply (yields_call _ _ _ (CommitLayerPlan (T := layer_types) ir))
    |eapply (yields_call _ _ _ (CommitSeamPlan (T := layer_types) ir)) | eapply (yields_call _ _ _ (CommitSupportPlan (T := layer_types) ir))
    |eapply (yields_call _ _ _ (CommitRegionMap (T := layer_types) ir)) | eapply (yields_call _ _ _ (CommitSupportGeometry (T := layer_types) ir))];
    try done; intros _; try (by apply Forall_nil); apply Forall_singleton;
    eexists; (split; [reflexivity|]); unfold guest_writes; set_solver.
Qed.

Lemma run_module_guest stage_id st module bb :
  yields bb (run_module stage_id st module) (fun cs _ _ => Forall by_guest cs).
Proof.
  apply yields_reading, (yields_bind _ _ _ (fun cs _ _ => cs = [])); [by apply yields_lift | | by intros ? ? ? _ ->].
  intros cs bb' output _ ->. destruct (waiting_plan _ _); [apply yields_ret; by apply Forall_nil|].
  eapply yields_bind; [apply commit_stage_output_guest | | done].
  intros cs bb1 [] _ HQ. apply yields_ret. by rewrite app_nil_r.
Qed.

Lemma aggregate_guest stage_id st bb : yields bb (aggregate stage_id st) (fun cs _ _ => Forall by_guest cs).
Proof.
  unfold aggregate. destruct (ss_plans st); [apply yields_ret; by apply Forall_nil|].
  apply yields_reading. destruct (aggregate_support_plan_irs_degrading _ _ _ _) as [plan diagnostics].
  apply (yields_bind _ _ _ (fun cs _ _ => cs = [])); [by apply yields_running | | by intros ? ? ? _ ->].
  intros cs bb' audits _ ->. eapply yields_bind; [apply commit_stage_output_guest | | done].
  intros cs bb1 [] _ HQ. apply yields_ret. by rewrite app_nil_r.
Qed.

Lemma run_prepass_stage_guest st stage bb :
  yields bb (run_prepass_stage st stage) (fun cs _ _ => Forall by_guest cs).
Proof.
  apply (yields_bind _ _ _ (fun cs _ _ => cs = [])); [by apply yields_reading, yields_lift | | by intros ? ? ? _ ->].
  intros cs bb1 [] _ ->. eapply yields_bind; [by apply (each_yields _ (fun _ => True) by_guest); [done | intros; apply run_module_guest |] | | done].
  intros cs bb2 out _ HQ. eapply yields_bind; [apply aggregate_guest | | by intros; cbn; apply Forall_app].
  intros cs' bb3 audits _ HQ'. apply yields_ret. cbn. rewrite app_nil_r. by apply Forall_app.
Qed.

Lemma execute_prepass_guest stages bb : yields bb (execute_prepass stages) (fun cs _ _ => Forall by_guest cs).
Proof. by apply (each_yields _ (fun _ => True) by_guest); [done | intros; apply run_prepass_stage_guest |]. Qed.

(** *** The late stages *)

(** The slots that modules can no longer write. *)
Definition settled (bb : Blackboard) : Prop :=
  Forall (fun s => slot_present bb s = true)
    [SlotSurfaceClassification; SlotLayerPlan; SlotRegionMap; SlotSupportGeometry].

(** What the host's stages leave. *)
Definition mapped (bb : Blackboard) : Prop :=
  slot_present bb SlotSurfaceClassification = true /\
  (slot_present bb SlotLayerPlan = true -> slot_present bb SlotRegionMap = true -> slot_present bb SlotSupportGeometry = true).

Lemma settled_plans bb cs bb' : commits bb cs bb' -> settled bb -> Forall by_guest cs -> Forall plans_only cs.
Proof.
  induction 1 as [|bb c cs bb' Ha Hcs IH]; [constructor|]. intros Hbb [Hc Hg]%Forall_cons. constructor.
  - destruct Hc as (w & Hw & Hin). unfold guest_writes in Hin. cbn in Hin. unfold settled in Hbb.
    rewrite !Forall_cons in Hbb. destruct Hbb as (H1 & H2 & H3 & H4 & _). unfold plans_only. rewrite Hw.
    rewrite !elem_of_cons, elem_of_nil in Hin.
    destruct Hin as [-> | [-> | [-> | [-> | [-> | [-> | []]]]]]]; auto;
      pose proof (commit_was_absent _ _ _ Ha Hw) as Habs; (rewrite Habs in * by done; done).
  - apply IH; [|done]. eapply Forall_impl; [exact Hbb|]. intros s Hs. cbn in Hs.
    by rewrite step_present, Hs by done.
Qed.

Lemma mapped_plans bb cs bb' : commits bb cs bb' -> Forall plans_only cs -> mapped bb -> mapped bb'.
Proof.
  intros Hcs HQ [H1 H2]. assert (Hsame : forall s, s <> SlotSeamPlan -> s <> SlotSupportPlan -> slot_present bb' s = slot_present bb s).
  { intros s Hs1 Hs2. rewrite (commits_present _ _ _ s Hcs), bool_decide_false; [by rewrite orb_false_r|].
    unfold writes. intros (w & -> & (c & Hc & Hw)%list_elem_of_omap)%list_elem_of_fmap.
    rewrite Forall_forall in HQ. destruct (HQ _ Hc) as [E | E]; rewrite E in Hw; by injection Hw as <-. }
  unfold mapped. by rewrite !Hsame.
Qed.

Lemma required_present stage_id bb s :
  ensure_stage_prerequisites stage_id bb = Ok tt -> s ∈ required_slots stage_id -> slot_present bb s = true.
Proof.
  unfold ensure_stage_prerequisites. rewrite for_each_Ok. intros H0 Hs. specialize (H0 s Hs). by destruct (slot_present bb s).
Qed.

Lemma late_requires stage_id :
  stage_requires_region_map stage_id = true -> SlotLayerPlan ∈ required_slots stage_id /\ SlotRegionMap ∈ required_slots stage_id.
Proof.
  unfold stage_requires_region_map. rewrite bool_decide_eq_true. intros Hr. split; [|done]. revert Hr.
  unfold required_slots. repeat case_match; set_solver.
Qed.

Lemma late_stage_plans st stage bb :
  stage_requires_region_map (cs_stage_id stage) = true -> mapped bb ->
  yields bb (run_prepass_stage st stage) (fun cs _ _ => Forall plans_only cs).
Proof.
  intros Hlate [H1 H2]. destruct (ensure_stage_prerequisites (cs_stage_id stage) bb) as [[]|e] eqn:E.
  - eapply yields_mono; [apply run_prepass_stage_guest|]. intros cs bb' r Hcs. apply (settled_plans _ _ _ Hcs).
    destruct (late_requires _ Hlate) as [Hlp Hrm].
    pose proof (required_present _ _ _ E Hlp). pose proof (required_present _ _ _ E Hrm).
    unfold settled. rewrite !Forall_cons. naive_solver.
  - intros bb' r. unfold run_prepass_stage, bind at 1, reading, lift. rewrite E. intros [= <- <-].
    exists []. split; constructor.
Qed.

Lemma late_stages_plans stages bb :
  Forall (fun stage => stage_requires_region_map (cs_stage_id stage) = true) stages -> mapped bb ->
  yields bb (execute_prepass stages) (fun cs _ _ => Forall plans_only cs).
Proof.
  intros Hs. apply each_yields; [apply mapped_plans|]. intros. apply late_stage_plans; [|done].
  rewrite Forall_forall in Hs. auto.
Qed.

(** ** The host's own stages *)

(** The writes of a computation are among [W], and all of [W] when it succeeds. *)
Definition makes {A} (bb : Blackboard) (m : driver A) (W : list slot_write) : Prop :=
  yields bb m (fun cs _ r => writes cs `sublist_of` W /\ (is_ok r = true -> writes cs = W)).

Lemma makes_ret {A} bb (x : A) : makes bb (ret x) [].
Proof. by apply yields_ret. Qed.

Lemma makes_bind {A B} bb (m : driver A) (k : A -> driver B) W1 W2 :
  makes bb m W1 -> (forall bb' x, makes bb' (k x) W2) -> makes bb (bind m k) (W1 ++ W2).
Proof.
  intros Hm Hk. eapply yields_bind; [exact Hm | |].
  - intros cs bb1 x _ [_ Hx]. eapply yields_mono; [apply Hk|]. cbn. intros cs' bb2 r _ [Hs Hr].
    rewrite writes_app, Hx by done. split; [by apply sublist_app|]. intros Hok. by rewrite Hr.
  - intros cs bb1 e _ [Hs _]. split; [by apply sublist_inserts_r | done].
Qed.

Lemma makes_lift {A E} bb (wrap : E -> PrepassExecutionError) (x : result A E) : makes bb (lift wrap x) [].
Proof. by apply yields_lift. Qed.

Lemma makes_error {A E} bb (wrap : E -> PrepassExecutionError) (e : E) W : makes bb (lift (A := A) wrap (Err e)) W.
Proof. apply yields_lift; [done|]. intros e' _. split; [apply sublist_nil_l | done]. Qed.

Lemma makes_running {A} bb (m : exec A) : makes bb (running m) [].
Proof. by apply yields_running. Qed.

Lemma makes_call bb f wrap c w :
  (forall bb, bb_step bb c = prod_map id Done_ (f bb)) -> write_of c = Some w -> makes bb (call f wrap) [w].
Proof.
  intros Hc Hw. eapply (yields_call _ _ _ c); [apply Hc | |].
  - intros _. unfold writes. cbn. by rewrite Hw.
  - intros e. split; [apply sublist_nil_l | done].
Qed.

Lemma present_slot {A} (slot : option A) : present slot = bool_decide (is_Some slot).
Proof. by destruct slot. Qed.

(** The blackboard as far as the drivers look at it. *)
Definition presence : Type := BlackboardPrepassSlot -> bool.

(** [E] says what a stage writes by what is present. *)
Definition stage_writes {A} (m : driver A) (E : presence -> list slot_write) (W : list slot_write) : Prop :=
  forall bb, yields bb m (fun cs _ r => writes cs `sublist_of` W /\ (is_ok r = true -> writes cs = E (slot_present bb))).

Lemma builtin_writes g (m : driver unit) (gp : presence -> bool) (E : presence -> list slot_write) W :
  (forall bb, g bb = gp (slot_present bb)) ->
  (forall bb, gp (slot_present bb) = true -> makes bb m (E (slot_present bb)) /\ E (slot_present bb) `sublist_of` W) ->
  stage_writes (run_builtin_stage g m) (fun p => if gp p then E p else []) W.
Proof.
  intros Hg Hm bb. apply yields_reading. rewrite Hg. destruct (gp (slot_present bb)) eqn:Egp.
  - destruct (Hm bb Egp) as [H1 H2]. eapply yields_mono; [exact H1|]. cbn. intros cs bb' r _ [Hs Hr].
    split; [by etrans | done].
  - apply yields_ret. split; [apply sublist_nil_l | done].
Qed.

Lemma mesh_analysis_makes bb : makes bb mesh_analysis_builtin [Commit SlotSurfaceClassification].
Proof.
  apply yields_reading, (makes_bind _ _ _ []); [apply makes_lift|].
  intros bb' ir. by apply (makes_call _ _ _ (CommitSurfaceClassification (T := layer_types) ir)).
Qed.

Section configured.
Context (debug_semantic : PaintSemantic -> string).
Context (boolean_op_tree_64 : ClipOperation -> list (list Point2) -> list (list Point2) -> PolyPath).
Context (split_message : SplitError -> string).
Context (plan : ExecutionPlan) (resolved_configs : gmap string ResolvedConfig)
        (default_resolved_config : ResolvedConfig) (raw_config_source : gmap ConfigKey ConfigValue).
#[local] Notation mapping_stage := (region_mapping_stage debug_semantic plan resolved_configs default_resolved_config).
#[local] Notation paint_stage := (paint_segmentation_builtin boolean_op_tree_64 split_message).

Lemma region_mapping_makes bb semantics :
  slot_present bb SlotLayerPlan && negb (slot_present bb SlotRegionMap) = true ->
  makes bb (commit_region_mapping_builtin plan resolved_configs default_resolved_config semantics)
    [Replace SlotLayerPlan; Commit SlotRegionMap].
Proof.
  intros [_ Hrm]%andb_true_iff. apply yields_reading. cbn in Hrm. destruct (region_map bb); [done|].
  destruct (layer_plan bb) as [lp|]; [|apply makes_error].
  apply (makes_bind _ _ _ []); [apply makes_lift|]. intros bb1 ir.
  apply (makes_bind _ _ _ []); [apply makes_running|]. intros bb2 layers.
  apply (makes_bind _ _ _ [Replace SlotLayerPlan]).
  - by apply (makes_call _ _ _ (ReplaceLayerPlan (T := layer_types) (with_layers lp layers))).
  - intros bb3 _. by apply (makes_call _ _ _ (CommitRegionMap (T := layer_types) ir)).
Qed.

Lemma slice_makes bb : makes bb commit_slice_builtin [Commit SlotSliceIR].
Proof.
  apply yields_reading, (makes_bind _ _ _ []); [apply makes_lift|].
  intros bb' slices. by apply (makes_call _ _ _ (CommitSliceIr (T := layer_types) slices)).
Qed.

Lemma overhang_makes bb :
  makes bb (commit_overhang_annotation_builtin raw_config_source) [Replace SlotSurfaceClassification].
Proof.
  apply yields_reading. destruct (layer_plan bb), (surface_classification bb), (slice_ir bb); try apply makes_error.
  by eapply (makes_call _ _ _ (ReplaceSurfaceClassification (T := layer_types) _)).
Qed.

Lemma shell_makes bb : makes bb commit_shell_classification_builtin [Replace SlotSliceIR].
Proof.
  apply yields_reading. destruct (slice_ir bb), (region_map bb); try apply makes_error.
  by eapply (makes_call _ _ _ (ReplaceSliceIr (T := layer_types) _)).
Qed.

Definition paint_writes (p : presence) : list slot_write :=
  (if p SlotLayerPlan then [Replace SlotLayerPlan] else []) ++ [Replace SlotSliceIR].

Lemma paint_makes bb : makes bb paint_stage (paint_writes (slot_present bb)).
Proof.
  apply yields_reading. destruct (slice_ir bb) as [slices|], (region_map bb); try by apply yields_running.
  apply (makes_bind _ _ _ []); [apply makes_lift|]. intros bb1 slices1.
  apply (makes_bind _ _ _ []); [apply makes_running|]. intros bb2 out.
  apply (makes_bind _ _ _ []); [apply makes_lift|]. intros bb3 slices2.
  apply makes_bind; [|intros bb4 _; by apply (makes_call _ _ _ (ReplaceSliceIr (T := layer_types) slices2))].
  cbn. destruct (layer_plan bb) as [lp|]; [|apply makes_ret]. by eapply (makes_call _ _ _ (ReplaceLayerPlan (T := layer_types) _)).
Qed.

Lemma analysis_makes bb : makes bb (support_analysis_builtin default_resolved_config) [Commit SlotSupportAnalysis].
Proof. apply yields_reading. by eapply (makes_call _ _ _ (CommitSupportAnalysis (T := layer_types) _)). Qed.

Lemma geometry_makes bb : makes bb commit_support_geometry_builtin [Commit SlotSupportGeometry].
Proof.
  apply yields_reading. destruct (layer_plan bb), (slice_ir bb); try apply makes_error.
  apply (makes_bind _ _ _ []); [apply makes_lift|]. intros bb1 ir.
  by apply (makes_call _ _ _ (CommitSupportGeometry (T := layer_types) ir)).
Qed.

(** *** One after the other *)

#[local] Notation same_presence := (pointwise_relation BlackboardPrepassSlot (@eq bool)).

Definition after (p : presence) (ws : list slot_write) : presence := fun s => p s || bool_decide (s ∈ slot_of <$> ws).

Definition then_writes (E E' : presence -> list slot_write) (p : presence) : list slot_write :=
  E p ++ E' (after p (E p)).

#[local] Instance then_writes_proper E E' :
  Proper (same_presence ==> eq) E -> Proper (same_presence ==> eq) E' -> Proper (same_presence ==> eq) (then_writes E E').
Proof.
  intros HE HE' p q Hpq. unfold then_writes. rewrite (HE p q Hpq). f_equal. apply HE'.
  intros s. unfold after. by rewrite Hpq.
Qed.

#[local] Instance guarded_proper (gp : presence -> bool) (E : presence -> list slot_write) :
  Proper (same_presence ==> eq) gp -> Proper (same_presence ==> eq) E ->
  Proper (same_presence ==> eq) (fun p => if gp p then E p else []).
Proof. intros Hg HE p q Hpq. by rewrite (Hg p q Hpq), (HE p q Hpq). Qed.

Lemma stage_writes_then {A} (m : driver unit) (k : driver A) E E' W W' :
  Proper (same_presence ==> eq) E' -> stage_writes m E W -> stage_writes k E' W' ->
  stage_writes (bind m (fun _ => k)) (then_writes E E') (W ++ W').
Proof.
  intros HE' Hm Hk bb. eapply yields_bind; [apply Hm | |].
  - intros cs bb1 x Hcs [Hw Hx]. eapply yields_mono; [apply Hk|]. cbn. intros cs' bb2 r _ [Hs Hr].
    rewrite writes_app. split; [by apply sublist_app|]. intros Hok. rewrite Hr, Hx by done. unfold then_writes. f_equal.
    apply HE'. intros s. unfold after. by rewrite (commits_present _ _ _ s Hcs), Hx.
  - intros cs bb1 e _ [Hs _]. split; [by apply sublist_inserts_r | done].
Qed.

(** What the host's stages write when all succeed, by what is present before them. *)
Definition builtin_writes_by (p : presence) : list slot_write :=
  then_writes (fun p => if p SlotLayerPlan && negb (p SlotRegionMap) then [Replace SlotLayerPlan; Commit SlotRegionMap] else [])
  (then_writes (fun p => if negb (p SlotSliceIR) && p SlotLayerPlan && p SlotRegionMap then [Commit SlotSliceIR] else [])
  (then_writes (fun p => if p SlotSliceIR && p SlotLayerPlan && p SlotSurfaceClassification
                         then [Replace SlotSurfaceClassification] else [])
  (then_writes (fun p => if p SlotSliceIR && p SlotRegionMap then [Replace SlotSliceIR] else [])
  (then_writes (fun p => if p SlotSliceIR && p SlotRegionMap then paint_writes p else [])
  (then_writes (fun p => if negb (p SlotSupportAnalysis) && p SlotSliceIR then [Commit SlotSupportAnalysis] else [])
               (fun p => if negb (p SlotSupportGeometry) && p SlotLayerPlan && p SlotSliceIR
                         then [Commit SlotSupportGeometry] else [])))))) p.

#[local] Instance paint_writes_proper : Proper (same_presence ==> eq) paint_writes.
Proof. intros p q Hpq. unfold paint_writes. by rewrite Hpq. Qed.

#[local] Ltac proper_writes :=
  repeat apply then_writes_proper; try apply guarded_proper; try apply _; intros ? ? Hpq; rewrite ?Hpq; reflexivity.

#[local] Instance builtin_writes_by_proper : Proper (same_presence ==> eq) builtin_writes_by.
Proof. unfold builtin_writes_by. proper_writes. Qed.

Lemma region_mapping_writes :
  stage_writes mapping_stage
    (fun p => if p SlotLayerPlan && negb (p SlotRegionMap) then [Replace SlotLayerPlan; Commit SlotRegionMap] else [])
    [Replace SlotLayerPlan; Commit SlotRegionMap].
Proof.
  intros bb. apply yields_reading, yields_reading. rewrite !present_slot.
  destruct (slot_present bb SlotLayerPlan && negb (slot_present bb SlotRegionMap)) eqn:E; cbn in E |- *; rewrite E.
  - by apply region_mapping_makes.
  - apply yields_ret. split; [apply sublist_nil_l | done].
Qed.

#[local] Ltac builtin_case := intros bb; cbn; by rewrite !present_slot.

Lemma builtin_stages_writes :
  stage_writes (builtin_stages debug_semantic boolean_op_tree_64 split_message plan resolved_configs default_resolved_config
    raw_config_source) builtin_writes_by builtin_order.
Proof.
  unfold builtin_stages, builtin_writes_by.
  apply (stage_writes_then _ _ _ _ [Replace SlotLayerPlan; Commit SlotRegionMap]); [proper_writes | apply region_mapping_writes |].
  apply (stage_writes_then _ _ _ _ [Commit SlotSliceIR]); [proper_writes | |].
  { apply builtin_writes; [builtin_case | auto using slice_makes]. }
  apply (stage_writes_then _ _ _ _ [Replace SlotSurfaceClassification]); [proper_writes | |].
  { apply builtin_writes; [builtin_case | auto using overhang_makes]. }
  apply (stage_writes_then _ _ _ _ [Replace SlotSliceIR]); [proper_writes | |].
  { apply builtin_writes; [builtin_case | auto using shell_makes]. }
  apply (stage_writes_then _ _ _ _ [Replace SlotLayerPlan; Replace SlotSliceIR]); [proper_writes | |].
  { apply builtin_writes; [builtin_case|]. intros bb _. split; [apply paint_makes|].
    unfold paint_writes. destruct (slot_present bb SlotLayerPlan); [done|]. apply sublist_cons. done. }
  apply (stage_writes_then _ _ _ _ [Commit SlotSupportAnalysis]); [proper_writes | |].
  { apply builtin_writes; [builtin_case | auto using analysis_makes]. }
  apply builtin_writes; [builtin_case | auto using geometry_makes].
Qed.

(** The presence of the slots the host's stages look at, as a table. *)
Definition tabled (p : presence) : presence :=
  let sc := p SlotSurfaceClassification in let lp := p SlotLayerPlan in let sm := p SlotSeamPlan in
  let sp := p SlotSupportPlan in let rm := p SlotRegionMap in let sl := p SlotSliceIR in
  let sg := p SlotSupportGeometry in let sa := p SlotSupportAnalysis in
  fun s => match s with
           | SlotSurfaceClassification => sc | SlotLayerPlan => lp | SlotSeamPlan => sm | SlotSupportPlan => sp
           | SlotRegionMap => rm | SlotSliceIR => sl | SlotSupportGeometry => sg | SlotSupportAnalysis => sa
           end.

Lemma builtin_writes_tabled p : builtin_writes_by p = builtin_writes_by (tabled p).
Proof. apply builtin_writes_by_proper. by intros []. Qed.

(** On a planned print that has none of the host's products the stages write everything. *)
Lemma builtin_writes_all p :
  p SlotSurfaceClassification = true -> p SlotLayerPlan = true ->
  (forall s, s ∈ [SlotRegionMap; SlotSliceIR; SlotSupportAnalysis; SlotSupportGeometry] -> p s = false) ->
  builtin_writes_by p = builtin_order.
Proof.
  intros H1 H2 H3. rewrite builtin_writes_tabled. unfold tabled. rewrite H1, H2.
  rewrite (H3 SlotRegionMap), (H3 SlotSliceIR), (H3 SlotSupportAnalysis), (H3 SlotSupportGeometry) by set_solver.
  by destruct (p SlotSeamPlan), (p SlotSupportPlan).
Qed.

Lemma builtin_writes_complete p s :
  p SlotSurfaceClassification = true -> p SlotLayerPlan = true ->
  s ∈ [SlotRegionMap; SlotSliceIR; SlotSupportAnalysis; SlotSupportGeometry] -> after p (builtin_writes_by p) s = true.
Proof.
  intros H1 H2 Hs. rewrite builtin_writes_tabled. unfold after. assert (p s = tabled p s) as -> by (by destruct s).
  revert s Hs. rewrite <-Forall_forall. unfold tabled. rewrite H1, H2.
  destruct (p SlotSeamPlan), (p SlotSupportPlan), (p SlotRegionMap), (p SlotSliceIR), (p SlotSupportGeometry),
    (p SlotSupportAnalysis); vm_compute; repeat constructor.
Qed.

(** *** The phases *)

Lemma bind_done {A B} (m : driver A) (k : A -> driver B) bb bb' r :
  bind m k bb = Done (bb', r) ->
  (exists bb1 x, m bb = Done (bb1, Ok x) /\ k x bb1 = Done (bb', r)) \/
  (exists e, m bb = Done (bb', Err e) /\ r = Err e).
Proof. unfold bind. destruct (m bb) as [[bb1 [x|e]]| |] eqn:E; cbn; [eauto| |done..]. intros [= <- <-]. eauto. Qed.

#[local] Notation prepass :=
  (execute_prepass_with_builtins_configured debug_semantic boolean_op_tree_64 split_message plan resolved_configs
     default_resolved_config raw_config_source).

Lemma mesh_stage_writes :
  stage_writes (run_builtin_stage (fun bb => negb (present (surface_classification bb))) mesh_analysis_builtin)
    (fun p => if negb (p SlotSurfaceClassification) then [Commit SlotSurfaceClassification] else [])
    [Commit SlotSurfaceClassification].
Proof. apply builtin_writes; [builtin_case | auto using mesh_analysis_makes]. Qed.

(** The stages never plan the layers. *)
Lemma builtin_writes_plan p : p SlotLayerPlan = false -> after p (builtin_writes_by p) SlotLayerPlan = false.
Proof.
  intros H1. rewrite builtin_writes_tabled. unfold after. rewrite H1. unfold tabled. rewrite H1.
  by destruct (p SlotSurfaceClassification), (p SlotSeamPlan), (p SlotSupportPlan), (p SlotRegionMap), (p SlotSliceIR),
    (p SlotSupportGeometry), (p SlotSupportAnalysis).
Qed.

Definition host_products : list BlackboardPrepassSlot :=
  [SlotRegionMap; SlotSliceIR; SlotSupportAnalysis; SlotSupportGeometry].

Lemma builtin_products bb cs bb' s :
  commits bb cs bb' -> writes cs = builtin_writes_by (slot_present bb) -> slot_present bb SlotSurfaceClassification = true ->
  slot_present bb' SlotLayerPlan = true -> s ∈ host_products -> slot_present bb' s = true.
Proof.
  intros Hcs Hw Hsc Hlp Hs. rewrite (commits_present _ _ _ s Hcs), Hw.
  rewrite (commits_present _ _ _ SlotLayerPlan Hcs), Hw in Hlp.
  destruct (slot_present bb SlotLayerPlan) eqn:E; [by apply builtin_writes_complete|].
  pose proof (builtin_writes_plan _ E) as Hn. unfold after in Hn. rewrite E in Hn. by rewrite Hn in Hlp.
Qed.

Record phased (bb bb' : Blackboard) (ok : bool) (analysis early builtin late : list bb_call) (bb1 bb2 : Blackboard) : Prop := {
  ph_early : commits bb (analysis ++ early) bb1;
  ph_builtin : commits bb1 builtin bb2;
  ph_late : commits bb2 late bb';
  ph_analysis : writes analysis `sublist_of` [Commit SlotSurfaceClassification];
  ph_guest : Forall by_guest early;
  ph_order : writes builtin `sublist_of` builtin_order;
  ph_plans : Forall plans_only late;
  ph_ok : ok = true -> slot_present bb1 SlotSurfaceClassification = true /\ writes builtin = builtin_writes_by (slot_present bb1)
}.

Lemma phases bb bb' r :
  prepass bb = Done (bb', r) -> exists analysis early builtin late bb1 bb2, phased bb bb' (is_ok r) analysis early builtin late bb1 bb2.
Proof.
  intros [(b0 & [] & Hm & Hk)|(e & Hm & ->)]%bind_done;
    destruct (mesh_stage_writes _ _ _ Hm) as (analysis & Ha & Hsa & Hwa).
  2:{ exists analysis, [], [], [], bb', bb'. split; rewrite ?app_nil_r; try done; try constructor; apply sublist_nil_l. }
  specialize (Hwa eq_refl). assert (Hsc : slot_present b0 SlotSurfaceClassification = true).
  { rewrite (commits_present _ _ _ _ Ha), Hwa. by destruct (slot_present bb SlotSurfaceClassification). }
  apply bind_done in Hk as [(bb1 & audits & Hm1 & Hk)|(e & Hm1 & ->)];
    destruct (execute_prepass_guest _ _ _ _ Hm1) as (early & He & Hg).
  2:{ exists analysis, early, [], [], bb', bb'. split; try done; try constructor; try apply sublist_nil_l. by eapply commits_app. }
  pose proof (commits_keep _ _ _ _ He Hsc) as Hsc1.
  apply bind_done in Hk as [(bb2 & [] & Hm2 & Hk)|(e & Hm2 & ->)];
    destruct (builtin_stages_writes _ _ _ Hm2) as (builtin & Hb & Hsb & Hwb).
  2:{ exists analysis, early, builtin, [], bb1, bb'. split; try done; try constructor. by eapply commits_app. }
  specialize (Hwb eq_refl).
  assert (Hmap : mapped bb2).
  { split; [by eapply commits_keep |]. intros Hlp _. eapply builtin_products; [done.. | unfold host_products; set_solver]. }
  assert (exists late, commits bb2 late bb' /\ Forall plans_only late) as (late & Hl & Hp).
  { assert (Hlate : Forall (fun stage => stage_requires_region_map (cs_stage_id stage) = true) (late_stages plan))
      by (rewrite Forall_forall; by intros stage [? _]%list_elem_of_filter).
    apply bind_done in Hk as [(bb3 & x & Hm3 & [= <- <-])|(e & Hm3 & ->)]; by apply (late_stages_plans _ _ Hlate Hmap _ _ Hm3). }
  exists analysis, early, builtin, late, bb1, bb2. split; try done. by eapply commits_app.
Qed.

(** [C6].  The prepass runs in phases.  Whatever the modules and kernels do, the accepted writes to
    the blackboard are: the surface classification of the host, if it is missing; then those
    of modules; then the host's own, in the fixed order of its stages; then, from the late
    modules, seam and support plans alone.  No late module can overwrite or supply a product
    of the host.  This also holds up to the failure of a prepass that fails, and a refused call
    leaves no trace.  When the prepass succeeds on a planned print for which the modules supplied none
    of the host's products, all of the host's stages wrote. *)
Theorem prepass_runs_in_phases (bb bb' : Blackboard) r
    (Hrun : prepass bb = Done (bb', r)) :
  exists analysis early builtin late bb1 bb2,
    commits bb (analysis ++ early) bb1 /\ commits bb1 builtin bb2 /\ commits bb2 late bb' /\
    (writes analysis `sublist_of` [Commit SlotSurfaceClassification]) /\ Forall by_guest early /\
    (writes builtin `sublist_of` builtin_order) /\ Forall plans_only late /\
    (is_ok r = true -> slot_present bb1 SlotLayerPlan = true ->
     (forall s, s ∈ host_products -> slot_present bb1 s = false) -> writes builtin = builtin_order).
Proof.
  destruct (phases _ _ _ Hrun) as (analysis & early & builtin & late & bb1 & bb2 & []).
  exists analysis, early, builtin, late, bb1, bb2. repeat (split; [done|]). intros Hok Hlp Hs.
  destruct ph_ok0 as [Hsc Hw]; [done|]. rewrite Hw. by apply builtin_writes_all.
Qed.

(** [C11].  A prepass that succeeds leaves the surface classification, and on a planned print every
    product of the host as well: no layer runs on a blackboard with a hole in it. *)
Theorem prepass_products_complete (bb bb' : Blackboard) out
    (Hrun : prepass bb = Done (bb', Ok out)) :
  slot_present bb' SlotSurfaceClassification = true /\
  (slot_present bb' SlotLayerPlan = true -> forall s, s ∈ host_products -> slot_present bb' s = true).
Proof.
  destruct (phases _ _ _ Hrun) as (analysis & early & builtin & late & bb1 & bb2 & []).
  destruct ph_ok0 as [Hsc Hw]; [done|]. split; [by do 2 (eapply commits_keep; [done|])|].
  intros Hlp s Hs. eapply commits_keep; [done|]. eapply builtin_products; [done..| |done].
  rewrite (commits_present _ _ _ SlotLayerPlan ph_late0), bool_decide_false, orb_false_r in Hlp; [done|].
  unfold writes. intros (w & Hw1 & (c & Hc & Hw2)%list_elem_of_omap)%list_elem_of_fmap.
  rewrite Forall_forall in ph_plans0. destruct (ph_plans0 _ Hc) as [E|E]; rewrite E in Hw2; by injection Hw2 as <-.
Qed.
End configured.

(** ** The diagnostics of the support plans *)

Definition with_diagnostics (ds : list Diagnostic) (a : PrepassAudit) : PrepassAudit :=
  {| pa_access := pa_access a; pa_diagnostics := pa_diagnostics a ++ ds |}.

(** The diagnostics for one audit, or for none. *)
Definition diagnostics_for (plan_audits : list (option nat)) (target : option nat) (entries : list AttributedDiagnostic)
    : list Diagnostic :=
  ad_diagnostic <$> filter (fun entry => plan_audit plan_audits entry = target) entries.

(** Every diagnostic on the audit of the module at fault; those of no module together on one
    audit of the host. *)
Definition attributed (plan_audits : list (option nat)) (audits : list PrepassAudit) (entries : list AttributedDiagnostic)
    : list PrepassAudit :=
  imap (fun i => with_diagnostics (diagnostics_for plan_audits (Some i) entries)) audits ++
  match diagnostics_for plan_audits None entries with
  | [] => []
  | ds => [with_diagnostics ds host_audit]
  end.

Definition host_index (plan_audits : list (option nat)) (audits : list PrepassAudit) (entries : list AttributedDiagnostic)
    : option nat :=
  match diagnostics_for plan_audits None entries with [] => None | _ => Some (length audits) end.

Lemma diagnostics_for_snoc plan_audits target entries e :
  diagnostics_for plan_audits target (entries ++ [e]) =
  diagnostics_for plan_audits target entries ++ (if decide (plan_audit plan_audits e = target) then [ad_diagnostic e] else []).
Proof. unfold diagnostics_for. rewrite filter_app, fmap_app, filter_cons. by case_decide. Qed.

Lemma with_diagnostics_push ds d a : push_diagnostic d (with_diagnostics ds a) = with_diagnostics (ds ++ [d]) a.
Proof. unfold push_diagnostic, with_diagnostics. cbn. by rewrite app_assoc. Qed.

Lemma attach_step plan_audits audits entries e :
  (forall i, plan_audit plan_audits e = Some i -> i < length audits) ->
  attach plan_audits (attributed plan_audits audits entries, host_index plan_audits audits entries) e =
  Done (attributed plan_audits audits (entries ++ [e]), host_index plan_audits audits (entries ++ [e])).
Proof.
  intros Hi. unfold attach, attributed, host_index. rewrite diagnostics_for_snoc.
  set (host := match diagnostics_for plan_audits None entries with [] => [] | ds => [with_diagnostics ds host_audit] end).
  destruct (plan_audit plan_audits e) as [i|] eqn:E.
  - specialize (Hi i eq_refl). destruct (lookup_lt_is_Some_2 audits i Hi) as [a Ha].
    rewrite (decide_False (P := Some i = None)), app_nil_r by done.
    rewrite lookup_app_l, list_lookup_imap, Ha by (by rewrite length_imap). cbn.
    f_equal. f_equal. rewrite insert_app_l by (by rewrite length_imap). f_equal.
    apply list_eq. intros j. rewrite list_lookup_imap, diagnostics_for_snoc, E. destruct (decide (i = j)) as [<- | Hne].
    + rewrite list_lookup_insert_eq by (by rewrite length_imap). rewrite Ha, decide_True by done. cbn.
      by rewrite with_diagnostics_push.
    + rewrite list_lookup_insert_ne, list_lookup_imap by done. rewrite decide_False by congruence. by rewrite app_nil_r.
  - assert (Himap : imap (fun i => with_diagnostics (diagnostics_for plan_audits (Some i) (entries ++ [e]))) audits =
                    imap (fun i => with_diagnostics (diagnostics_for plan_audits (Some i) entries)) audits).
    { apply imap_ext. intros j a _. by rewrite diagnostics_for_snoc, E, decide_False, app_nil_r. }
    rewrite Himap, decide_True by done. subst host.
    destruct (diagnostics_for plan_audits None entries) as [|d ds]; cbn [app];
      rewrite ?app_nil_r, lookup_app_r, length_imap, Nat.sub_diag by (by rewrite length_imap); cbn; do 2 f_equal;
      rewrite insert_app_r_alt, length_imap, Nat.sub_diag by (by rewrite length_imap); cbn; by rewrite ?with_diagnostics_push.
Qed.

Lemma attach_all_from plan_audits audits entries0 entries :
  (forall e i, e ∈ entries -> plan_audit plan_audits e = Some i -> i < length audits) ->
  attach_all plan_audits (attributed plan_audits audits entries0, host_index plan_audits audits entries0) entries =
  Done (attributed plan_audits audits (entries0 ++ entries)).
Proof.
  revert entries0. induction entries as [|e entries IH]; intros entries0 He; cbn [attach_all]; [by rewrite app_nil_r|].
  rewrite attach_step by (intros i; apply He; left). cbn [exec_bind].
  rewrite IH by (intros e' i He'; apply He; by right). by rewrite <-app_assoc.
Qed.

Lemma attributed_nil plan_audits audits : attributed plan_audits audits [] = audits.
Proof.
  unfold attributed. cbn. rewrite app_nil_r. apply list_eq. intros i. rewrite list_lookup_imap.
  destruct (audits !! i) as [[]|]; cbn; [|done]. unfold with_diagnostics. cbn. by rewrite app_nil_r.
Qed.

(** *** What the modules of a stage leave *)

(** Every plan is that of a module that has its audit. *)
Record plans_audited (st : stage_state) : Prop := {
  pla_audits : length (ss_plan_audits st) = length (ss_plans st);
  pla_producers : length (ss_producers st) = length (ss_plans st);
  pla_named : forall j producer, ss_producers st !! j = Some producer ->
    exists i a, ss_plan_audits st !! j = Some (Some i) /\ ss_audits st !! i = Some a /\
      maa_module_id (pa_access a) = sp_module_id producer
}.

Lemma each_keeps {A S} (f : S -> A -> driver S) (J : S -> Prop) l st bb bb' st' :
  (forall st x bb bb' st', J st -> f st x bb = Done (bb', Ok st') -> J st') ->
  J st -> each f st l bb = Done (bb', Ok st') -> J st'.
Proof.
  intros Hf. revert st bb. induction l as [|x l IH]; intros st bb Hst.
  - by intros [= _ <-].
  - intros [(bb1 & st1 & H1 & H2)|(e & _ & [=])]%bind_done. eauto.
Qed.

Lemma plans_audited_more st audits :
  plans_audited st -> plans_audited (with_audits st (ss_audits st ++ audits)).
Proof.
  intros [H1 H2 H3]. split; [done..|]. intros j producer Hj. destruct (H3 _ _ Hj) as (i & a & Hi & Ha & Hn).
  exists i, a. split; [done|]. split; [by apply lookup_app_l_Some | done].
Qed.

Lemma set_last_audits st l x i :
  ss_plan_audits st = l ++ [x] -> ss_plan_audits (set_last_plan_audit st i) = l ++ [Some i].
Proof. intros Hst. cbn. rewrite Hst. rewrite <-(removelast_last l x) at 2. by destruct l. Qed.

Lemma plans_audited_push st module plan run :
  plans_audited st ->
  plans_audited (record_audit (push_support_plan st module plan) module run (Some "SupportPlanIR") true).
Proof.
  intros [H1 H2 H3]. unfold record_audit.
  split; [erewrite set_last_audits by reflexivity; cbn; rewrite !length_app; cbn; congruence
         |cbn; rewrite !length_app; cbn; congruence|].
  erewrite set_last_audits by reflexivity. cbn. intros j producer Hj.
  apply lookup_snoc_Some in Hj as [[Hlt Hj]|[-> <-]].
  - destruct (H3 _ _ Hj) as (i & a & Hi & Ha & Hn). exists i, a. rewrite !lookup_app_l_Some with (x := Some i) by done.
    split; [done|]. split; [by apply lookup_app_l_Some | done].
  - exists (length (ss_audits st)), (module_audit module run ["SupportPlanIR"]).
    split; [|split; [by apply list_lookup_middle | done]]. apply list_lookup_middle. congruence.
Qed.

Lemma run_module_audited stage_id st module bb bb' st' :
  plans_audited st -> run_module stage_id st module bb = Done (bb', Ok st') -> plans_audited st'.
Proof.
  intros Hst. unfold run_module, reading.
  intros [(bb1 & output & [= <- Hout] & Hk)|(e & _ & [=])]%bind_done.
  destruct (waiting_plan stage_id output) as [plan|] eqn:Ew.
  - injection Hk as _ <-. unfold waiting_plan in Ew. case_match; [|done]. destruct output; try done.
    by apply plans_audited_push.
  - apply bind_done in Hk as [(bb2 & [] & _ & [= _ <-])|(e & _ & [=])].
    unfold record_audit. repeat case_match; try done; by apply plans_audited_more.
Qed.

(** [C16].  The diagnostics of the merge of support plans go to the module at fault.  After the modules
    of a stage, the audit recorded for every plan names the plan's producer; and the merge
    appends each diagnostic, in order, to the audit of the plan it is about, the rest to one
    audit of the host, never losing one, moving one to another module, or running off the list of
    audits; then the merged plan is committed. *)
Theorem support_diagnostics_attributed stage_id modules audits bb bb1 st plan diagnostics
    (Hmodules : each (run_module stage_id) (start_stage audits) modules bb = Done (bb1, Ok st))
    (Hplans : ss_plans st <> [])
    (Hmerge : aggregate_support_plan_irs_degrading (ss_plans st) (ss_producers st) (mesh_ir bb1) (support_analysis bb1) =
              (plan, diagnostics)) :
  (length (ss_producers st) = length (ss_plans st) /\
   forall j producer, ss_producers st !! j = Some producer ->
     exists i a, ss_plan_audits st !! j = Some (Some i) /\ ss_audits st !! i = Some a /\
       maa_module_id (pa_access a) = sp_module_id producer) /\
  aggregate stage_id st bb1 =
    Done (match commit_support_plan bb1 plan with
          | (bb2, Ok _) => (bb2, Ok (attributed (ss_plan_audits st) (ss_audits st) diagnostics))
          | (bb2, Err e) => (bb2, Err (PrepassBlackboard stage_id aggregation_module e))
          end).
Proof.
  assert (Hst : plans_audited st).
  { eapply (each_keeps _ plans_audited); [|..|exact Hmodules]; [|by split]. intros. by eapply run_module_audited. }
  destruct Hst as [H1 H2 H3]. split; [done|].
  unfold aggregate. destruct (ss_plans st) as [|p ps] eqn:Ep; [done|]. rewrite <-Ep in *. unfold reading. rewrite Hmerge.
  unfold bind, running. rewrite <-(attributed_nil (ss_plan_audits st) (ss_audits st)) at 1.
  rewrite (attach_all_from _ _ [] diagnostics).
  - cbn. unfold call. by destruct (commit_support_plan bb1 plan) as [bb2 [[]|e]].
  - intros e i _. unfold plan_audit. destruct (ad_plan_index e) as [j|]; [|done]. cbn.
    destruct (ss_plan_audits st !! j) as [[i'|]|] eqn:Ej; [|done..]. intros [= ->].
    assert (is_Some (ss_producers st !! j)) as [producer Hp].
    { apply lookup_lt_is_Some_2. apply lookup_lt_Some in Ej. lia. }
    destruct (H3 _ _ Hp) as (i0 & a & Hi & Ha & _). rewrite Ej in Hi. injection Hi as ->. by eapply lookup_lt_Some.
Qed.

(** ** The regions of modifiers *)

Lemma map_exec_inv {A B} (f : A -> exec B) l ys : map_exec f l = Done ys -> Forall2 (fun x y => f x = Done y) l ys.
Proof.
  revert ys. induction l as [|x l IH]; intros ys; cbn; [intros [= <-]; constructor|].
  destruct (f x) as [y| |] eqn:E; cbn; [|done..]. destruct (map_exec f l) as [zs| |]; cbn; [|done..].
  intros [= <-]. constructor; auto.
Qed.

Lemma find_exec_holds {A} (p : A -> exec bool) l x : find_exec p l = Done (Some x) -> x ∈ l /\ p x = Done true.
Proof.
  induction l as [|y l IH]; cbn; [done|]. destruct (p y) as [[]| |] eqn:E; cbn; [|intros H0|done..].
  - intros [= <-]. split; [left | done].
  - destruct (IH H0). split; [by right | done].
Qed.

Lemma region_key_leb_total a b : region_key_leb a b = true \/ region_key_leb b a = true.
Proof.
  unfold region_key_leb. rewrite (String.eqb_sym (rk_object_id b)), (Z.eqb_sym (rk_region_id b)).
  destruct (String.eqb _ _); [|apply rust_leb_total]. destruct (Z.eqb _ _); [apply chain_leb_total|].
  rewrite !Z.leb_le. lia.
Qed.

Lemma region_key_leb_trans a b c : region_key_leb a b = true -> region_key_leb b c = true -> region_key_leb a c = true.
Proof.
  destruct a as [ga oa ra ca], b as [gb ob rb cb], c as [gc oc rc cc]. unfold region_key_leb; cbn [rk_object_id rk_region_id rk_variant_chain].
  destruct (String.eqb_spec oa ob) as [->|Hab], (String.eqb_spec ob oc) as [->|Hbc]; rewrite ?String.eqb_refl.
  - destruct (Z.eqb_spec ra rb) as [->|], (Z.eqb_spec rb rc) as [->|]; rewrite ?Z.eqb_refl; rewrite ?Z.leb_le;
      [apply chain_leb_trans | | | ]; intros; try (rewrite (proj2 (Z.eqb_neq _ _)) by lia); try lia;
      destruct (Z.eqb_spec ra rc); lia || (apply Z.leb_le; lia).
  - done.
  - by rewrite (proj2 (String.eqb_neq _ _) Hab).
  - intros H1 H2. destruct (String.eqb_spec oa oc) as [->|]; [|by eapply rust_leb_trans].
    by destruct Hab; apply rust_leb_antisym.
Qed.

Lemma region_key_leb_antisym a b :
  rk_global_layer_index a = rk_global_layer_index b -> typed_chain (rk_variant_chain a) -> typed_chain (rk_variant_chain b) ->
  region_key_leb a b = true -> region_key_leb b a = true -> a = b.
Proof.
  destruct a as [ga oa ra ca], b as [gb ob rb cb]. unfold region_key_leb; cbn [rk_global_layer_index rk_object_id rk_region_id rk_variant_chain]. intros <- Ha Hb.
  rewrite (String.eqb_sym ob), (Z.eqb_sym rb). destruct (String.eqb_spec oa ob) as [<-|Hne].
  - destruct (Z.eqb_spec ra rb) as [<-|]; [|rewrite !Z.leb_le; lia]. intros. f_equal. by apply chain_leb_antisym.
  - intros. by destruct Hne; apply rust_leb_antisym.
Qed.

Lemma modifier_keys_elem m layer key :
  key ∈ modifier_keys m layer <->
  key ∈ (rm_entries m).*1 /\ rk_global_layer_index key = gl_index layer /\ is_modifier_namespace_id (rk_region_id key) = true.
Proof.
  unfold modifier_keys. rewrite elem_of_sort_by, list_elem_of_filter, andb_true_iff, Z.eqb_eq. tauto.
Qed.

(** The map is a hash map: its entries come in any order. *)
Record same_map (m m' : RegionMapIR) : Prop := {
  sm_entries : rm_entries m ≡ₚ rm_entries m';
  sm_configs : rm_configs m = rm_configs m'
}.

Lemma rm_get_spec m key plan : NoDup (rm_entries m).*1 -> rm_get m key = Some plan <-> (key, plan) ∈ rm_entries m.
Proof.
  intros Hnd. unfold rm_get. split.
  - destruct (list_find _ _) as [[i e]|] eqn:Hf; [|done]. cbn. intros [= <-].
    apply list_find_Some in Hf as (Hi & Hk & _). rewrite <-Hk. destruct e. by eapply list_elem_of_lookup_2.
  - intros Hin. destruct (list_find _ _) as [[i e]|] eqn:Hf.
    + apply list_find_Some in Hf as (Hi & Hk & _). cbn. f_equal.
      assert (e = (key, plan)) as -> by (by eapply (NoDup_fmap_inj fst); [| eapply list_elem_of_lookup_2 | |]). done.
    + apply list_find_None in Hf. rewrite Forall_forall in Hf. by destruct (Hf _ Hin).
Qed.

Lemma config_for_same m m' key : NoDup (rm_entries m).*1 -> same_map m m' -> config_for m key = config_for m' key.
Proof.
  intros Hnd [Hp Hc]. unfold config_for. assert (rm_get m key = rm_get m' key) as ->.
  { apply option_eq. intros plan. rewrite !rm_get_spec by (by rewrite <-?Hp). by rewrite Hp. }
  case_match; [|done]. unfold config_for_raw. by rewrite Hc.
Qed.

Lemma modifier_keys_same m m' layer :
  NoDup (rm_entries m).*1 -> (forall key, key ∈ (rm_entries m).*1 -> typed_chain (rk_variant_chain key)) ->
  same_map m m' -> modifier_keys m layer = modifier_keys m' layer.
Proof.
  intros Hnd Ht [Hp _]. apply (sorted_by_unique_on region_key_leb).
  - intros x y (Hx & Hgx & _)%modifier_keys_elem (Hy & Hgy & _)%modifier_keys_elem.
    apply region_key_leb_antisym; [congruence | auto..].
  - apply sort_by_sorted; [apply region_key_leb_trans | apply region_key_leb_total].
  - apply sort_by_sorted; [apply region_key_leb_trans | apply region_key_leb_total].
  - unfold modifier_keys. rewrite !sort_by_perm. by rewrite Hp.
Qed.

(** What is added for a key: its own object and region, the config of the map, and for a
    region that is cut from one of the layer the rest of that one's data. *)
Definition provisioned_for (m : RegionMapIR) (layer : GlobalLayer) (key : RegionKey) (active : ActiveRegion) : Prop :=
  ar_object_id active = rk_object_id key /\ ar_region_id active = rk_region_id key /\
  config_for m key = Done (ar_resolved_config active) /\
  exists base_region_id parent,
    modifier_base_region_id (rk_region_id key) = Some base_region_id /\ parent_of layer key base_region_id = Done parent /\
    forall p, parent = Some p ->
      p ∈ gl_active_regions layer /\ ar_effective_layer_height active = ar_effective_layer_height p /\
      ar_tool_index active = ar_tool_index p /\ ar_nonplanar_shell active = ar_nonplanar_shell p /\
      ar_is_catchup_layer active = ar_is_catchup_layer p /\ ar_catchup_z_bottom active = ar_catchup_z_bottom p.

Lemma provision_key_spec m layer key out :
  provision_key m layer key = Done out ->
  if already_active layer key then out = None else exists active, out = Some active /\ provisioned_for m layer key active.
Proof.
  unfold provision_key. destruct (already_active layer key); [by intros [= <-]|].
  destruct (modifier_base_region_id _) as [base|] eqn:Eb; [|done].
  destruct (parent_of layer key base) as [parent| |] eqn:Ep; cbn; [|done..].
  destruct (config_for m key) as [c| |] eqn:Ec; cbn; [|done..]. intros [= <-]. eexists; split; [done|].
  assert (Hparent : forall p, parent = Some p -> p ∈ gl_active_regions layer /\ ar_object_id p = rk_object_id key).
  { intros p ->. destruct (find_exec_holds _ _ _ Ep) as [Hin Hp]. split; [done|].
    destruct (String.eqb_spec (ar_object_id p) (rk_object_id key)); [done|]. by cbn in Hp. }
  unfold provisioned_for. destruct parent as [p|]; cbn.
  - destruct (Hparent p eq_refl). do 3 (split; [done|]). exists base, (Some p). do 2 (split; [done|]).
    by intros ? [= <-].
  - do 3 (split; [done|]). by exists base, None.
Qed.

(** [C21].  The regions of modifiers are provisioned on every layer.  The outcome does not depend on
    the order in which the hash map enumerates its entries; the regions of the layer are kept, in
    place; every modifier region the map has for the layer ends up active; and what is added is
    for such a key, with the configuration the map gives it and the height, the tool and the catch-up data
    of the region of the layer that it is cut from. *)
Theorem modifier_regions_provisioned m m' layer
    (Hkeys : NoDup (rm_entries m).*1)
    (Htyped : forall key, key ∈ (rm_entries m).*1 -> typed_chain (rk_variant_chain key))
    (Hsame : same_map m m') :
  provision_layer m layer = provision_layer m' layer /\
  forall layer', provision_layer m layer = Done layer' ->
    exists added, layer' = with_active_regions layer (gl_active_regions layer ++ added) /\
      (forall key, key ∈ modifier_keys m layer -> already_active layer' key = true) /\
      (forall active, active ∈ added ->
        exists key, key ∈ modifier_keys m layer /\ already_active layer key = false /\ provisioned_for m layer key active).
Proof.
  split.
  - unfold provision_layer. rewrite (modifier_keys_same m m') by done. f_equal.
    assert (Hf : forall key, provision_key m layer key = provision_key m' layer key).
    { intros key. unfold provision_key. by rewrite (config_for_same m m'). }
    induction (modifier_keys m' layer) as [|key keys IH]; cbn; [done|]. by rewrite Hf, IH.
  - intros layer'. unfold provision_layer. destruct (map_exec _ _) as [outs| |] eqn:E; cbn; [|done..]. intros [= <-].
    apply map_exec_inv in E. exists (omap id outs). split; [done|]. split.
    + intros key Hk. apply list_elem_of_lookup in Hk as [i Hi]. destruct (Forall2_lookup_l _ _ _ _ _ E Hi) as (out & Ho & Hkey).
      apply provision_key_spec in Hkey. unfold already_active in Hkey |- *. cbn. rewrite existsb_app.
      destruct (existsb _ (gl_active_regions layer)); [done|]. destruct Hkey as (active & -> & H1 & H2 & _). cbn.
      apply existsb_elem. exists active. rewrite H1, H2, String.eqb_refl, Z.eqb_refl. split; [|done].
      apply list_elem_of_omap. exists (Some active). split; [by eapply list_elem_of_lookup_2 | done].
    + intros active (out & Hin & Hout)%list_elem_of_omap. cbn in Hout. subst out.
      apply list_elem_of_lookup in Hin as [i Hi]. destruct (Forall2_lookup_r _ _ _ _ _ E Hi) as (key & Hk & Hkey).
      apply provision_key_spec in Hkey. exists key. split; [by eapply list_elem_of_lookup_2|].
      destruct (already_active layer key); [done|]. destruct Hkey as (active' & [= <-] & Hp). done.
Qed.

End driver.

(** ** Samples *)

#[local] Instance sample_types : PrepassTypes := {|
  pre_MeshIR := unit; pre_SurfaceClassificationIR := unit; pre_LayerPlanIR := list GlobalLayer;
  pre_RegionMapIR := RegionMapIR; pre_LayerSelectionIndex := unit; pre_SupportGeometryIR := unit;
  pre_SupportAnalysisIR := unit; pre_ScoredSeamCandidate := unit;
  pre_SupportPlanRoleRegion := unit; pre_SupportPlanSkeleton := unit;
  pre_PreparedRegionData := unit |}.
#[local] Existing Instance layer_types.

Definition sample_config : ResolvedConfig :=
  {| rc_support_type := NormalAuto; rc_top_fill_holder := ""; rc_bottom_fill_holder := "";
     rc_bridge_fill_holder := ""; rc_sparse_fill_holder := ""; rc_fill_authored_coloring := []; rc_rendered := ∅;
     rc_extensions := ∅ |}.

Definition sample_region : ActiveRegion :=
  {| ar_object_id := "cube"; ar_region_id := 1; ar_resolved_config := sample_config;
     ar_effective_layer_height := ONE; ar_nonplanar_shell := None; ar_is_catchup_layer := false;
     ar_catchup_z_bottom := ZERO; ar_tool_index := 3 |}.

Definition sample_layer : GlobalLayer :=
  {| gl_index := 0; gl_z := ZERO; gl_active_regions := [sample_region];
     gl_has_nonplanar := false; gl_is_sync_layer := false; gl_is_raft := false |}.

(** Two modifiers of the region 1. *)
Definition sample_key (offset : Z) : RegionKey :=
  {| rk_global_layer_index := 0; rk_object_id := "cube";
     rk_region_id := Z.lor MODIFIER_VARIANT_REGION_ID_FLAG (MODIFIER_VARIANT_REGION_ID_STRIDE + offset); rk_variant_chain := [] |}.

Definition sample_plan (id : Z) : RegionPlan :=
  {| rp_config := id; rp_stage_modules := ∅; rp_paint_overrides := [] |}.

Definition sample_map : RegionMapIR :=
  {| rm_schema_version := SemVer_default;
     rm_entries := [(sample_key 2, sample_plan 0); (sample_key 1, sample_plan 0)]; rm_configs := [sample_config] |}.

Definition reversed_map : RegionMapIR :=
  {| rm_schema_version := SemVer_default; rm_entries := reverse (rm_entries sample_map); rm_configs := rm_configs sample_map |}.

Definition no_supports : SupportPlanIR :=
  {| sup_schema_version := SemVer_default; sup_entries := []; sup_raft_plan := None |}.

Definition done_run (output : PrepassStageOutput) : prepass_run :=
  {| pr_result := Ok output; pr_runtime_reads := []; pr_batch_calls := []; pr_diagnostics := [] |}.

Definition sample_diagnostic (code : Z) : Diagnostic :=
  {| dg_severity := SevWarn; dg_code := code; dg_layer := None; dg_object_id := None; dg_message := "" |}.

(** Modules that plan one layer, the seams and the supports; a merge that complains about the
    second plan and about nothing in particular. *)
#[local] Instance sample_host : PrepassHost := {|
  MeshAnalysisError := Empty_set; RegionMappingError := Empty_set;
  run_stage stage _ _ :=
    done_run (if String.eqb stage "PrePass::LayerPlanning" then OutLayerPlan [sample_layer]
              else if String.eqb stage "PrePass::SeamPlanning"
              then OutSeamPlan {| seam_schema_version := SemVer_default; seam_entries := [] |}
              else OutSupportPlan no_supports);
  aggregate_support_plan_irs_degrading _ _ _ _ :=
    (no_supports, [{| ad_plan_index := Some 1; ad_diagnostic := sample_diagnostic 1201 |};
                   {| ad_plan_index := None; ad_diagnostic := sample_diagnostic 1202 |}]);
  execute_mesh_analysis _ := Ok tt;
  execute_region_mapping _ _ _ _ _ _ _ _ := Ok sample_map;
  slice_all_layers _ _ _ _ := Ok [];
  annotate_overhangs _ _ _ _ := tt;
  classify_shells slices _ _ := slices;
  execute_paint_segmentation _ slices _ := Ok slices;
  analyse_support _ _ _ _ _ _ := tt;
  execute_support_geometry _ _ := Ok tt;
  global_layers layers := layers;
  with_layers _ layers := layers;
  region_map_of m := m;
  modifier_objects _ := [];
  painted_objects _ := [] |}.

Definition sample_stage (id : StageId) (modules : list ModuleId) : CompiledStage :=
  {| cs_stage_id := id; cs_modules := compiled_module_new <$> modules |}.

Definition sample_stages : list CompiledStage :=
  [sample_stage "PrePass::LayerPlanning" ["planner"]; sample_stage "PrePass::SeamPlanning" ["seams"];
   sample_stage "PrePass::SupportGeometry" ["tree"; "traditional"]].

Definition sample_execution_plan : ExecutionPlan :=
  {| ep_prepass_stages := sample_stages; ep_per_layer_stages := []; ep_layer_finalization_stage := None;
     ep_postpass_stages := []; ep_global_layers := []; ep_region_plans := [];
     ep_module_region_index := ∅; ep_aggregated_region_split := ∅ |}.

Definition sample_prepass : driver (list PrepassAudit * list SupportPlanEntry) :=
  execute_prepass_with_builtins_configured (fun _ => "") (fun _ _ _ => PolyNode [] []) (fun _ => "")
    sample_execution_plan ∅ sample_config ∅.

Definition outcome_of {A} (m : exec (Blackboard * result A PrepassExecutionError)) (bb : Blackboard)
    : Blackboard * option A :=
  match m with Done (bb', Ok x) => (bb', Some x) | _ => (bb, None) end.

Definition sample_blackboard : Blackboard := new tt 1.

Definition sample_outcome : Blackboard * option (list PrepassAudit * list SupportPlanEntry) :=
  Eval vm_compute in outcome_of (sample_prepass sample_blackboard) sample_blackboard.

Definition sample_audits : list PrepassAudit * list SupportPlanEntry := default ([], []) sample_outcome.2.

Lemma prepass_runs_in_phases_witness :
  exists analysis early builtin late bb1 bb2,
    commits sample_blackboard (analysis ++ early) bb1 /\ commits bb1 builtin bb2 /\ commits bb2 late sample_outcome.1 /\
    (writes analysis `sublist_of` [Commit SlotSurfaceClassification]) /\ Forall by_guest early /\
    (writes builtin `sublist_of` builtin_order) /\ Forall plans_only late /\
    (is_ok (T := list PrepassAudit * list SupportPlanEntry) (E := PrepassExecutionError) (Ok sample_audits) = true ->
     slot_present bb1 SlotLayerPlan = true ->
     (forall s, s ∈ host_products -> slot_present bb1 s = false) -> writes builtin = builtin_order).
Proof.
  apply (prepass_runs_in_phases (fun _ => "") (fun _ _ _ => PolyNode [] []) (fun _ => "") sample_execution_plan ∅
           sample_config ∅ sample_blackboard sample_outcome.1 (Ok sample_audits)).
  vm_compute. reflexivity.
Defined.

Lemma prepass_products_complete_witness :
  slot_present sample_outcome.1 SlotSurfaceClassification = true /\
  (slot_present sample_outcome.1 SlotLayerPlan = true ->
   forall s, s ∈ host_products -> slot_present sample_outcome.1 s = true).
Proof.
  apply (prepass_products_complete (fun _ => "") (fun _ _ _ => PolyNode [] []) (fun _ => "") sample_execution_plan ∅
           sample_config ∅ sample_blackboard sample_outcome.1 sample_audits).
  vm_compute. reflexivity.
Defined.

(** The two support modules of the sample, after they ran. *)
Definition sample_modules : list CompiledModuleStatic := compiled_module_new <$> ["tree"; "traditional"].

Definition sample_audit (module_id : ModuleId) : PrepassAudit :=
  module_audit (compiled_module_new module_id) (done_run (OutSupportPlan no_supports)) ["SupportPlanIR"].

Definition sample_state : stage_state :=
  {| ss_audits := sample_audit <$> ["tree"; "traditional"]; ss_plans := [no_supports; no_supports];
     ss_plan_audits := [Some 0; Some 1];
     ss_producers := [{| sp_module_id := "tree"; sp_claims := [] |}; {| sp_module_id := "traditional"; sp_claims := [] |}] |}.

Lemma support_diagnostics_attributed_witness :
  aggregate "PrePass::SupportGeometry" sample_state sample_blackboard =
  Done (set_support_plan sample_blackboard (Some no_supports),
        Ok [sample_audit "tree"; with_diagnostics [sample_diagnostic 1201] (sample_audit "traditional");
            with_diagnostics [sample_diagnostic 1202] host_audit]).
Proof.
  refine (eq_trans (proj2 (support_diagnostics_attributed "PrePass::SupportGeometry" sample_modules [] sample_blackboard
    sample_blackboard sample_state no_supports _ _ _ eq_refl)) _).
  - vm_compute. reflexivity.
  - discriminate.
  - vm_compute. reflexivity.
Defined.

Definition provisioned_sample : GlobalLayer :=
  match provision_layer sample_map sample_layer with Done layer => layer | _ => sample_layer end.

Lemma modifier_regions_provisioned_witness :
  provision_layer sample_map sample_layer = provision_layer reversed_map sample_layer /\
  length (gl_active_regions provisioned_sample) = 3 /\
  exists added, provisioned_sample = with_active_regions sample_layer (gl_active_regions sample_layer ++ added) /\
    (forall key, key ∈ modifier_keys sample_map sample_layer -> already_active provisioned_sample key = true) /\
    (forall active, active ∈ added -> exists key, key ∈ modifier_keys sample_map sample_layer /\
       already_active sample_layer key = false /\ provisioned_for sample_map sample_layer key active).
Proof.
  destruct (modifier_regions_provisioned sample_map reversed_map sample_layer) as [H1 H2].
  - apply NoDup_cons. split; [|apply NoDup_singleton]. intros H%list_elem_of_singleton. discriminate H.
  - intros key Hk. cbn in Hk. rewrite !elem_of_cons, elem_of_nil in Hk.
    destruct Hk as [-> | [-> | []]]; intros s x Hx; by apply elem_of_nil in Hx.
  - split; [apply Permutation_swap | done].
  - split; [exact H1|]. split; [vm_compute; reflexivity|]. apply H2. vm_compute. reflexivity.
Defined.
