(* ===== verification/Selection.v ===== *)
(** The selection of modules per layer ([slicer-wasm-host/src/selection.rs], with
    [perimeter_source_regions] and [authored_coloring_granted] of its [marshal] module and
    [build_and_commit_layer_selection_index] of [slicer-runtime/src/layer_executor.rs]).

    Before the layers run, one index is built for the whole print: for every layer and
    every bound module of the layer tier, whether the module is invoked there and on which
    regions, with which configuration and claims.  The index is the implementation of the
    interface [LayerHost] the executor is written against. *)
From Stdlib Require Import Ascii.
From stdpp Require Import prelude gmap strings list.
From S2P Require Import Prelude Ir Graph StageOrder Schema Dag Topology Validation ConfigBinding Float32 ExecutionPlan Blackboard LayerArena.
From S2P Require Import RegionMap Planar PolygonOps LayerIr OrderLock Anchored RegionPartition LayerCommit LayerRun VariantId.

#[local] Open Scope string_scope.
#[local] Open Scope list_scope.
#[local] Open Scope Z_scope.

(** ** Regions as a perimeter module sees them *)

Section perimeter_source.
Context (boolean_op_tree_64 : ClipOperation -> list (list Point2) -> list (list Point2) -> PolyPath).

(** [restore!]: an empty part of the sub-region leaves the field alone. *)
Definition restore (base sub : list ExPolygon) : list ExPolygon :=
  match sub with [] => base | _ => PolygonOps.union boolean_op_tree_64 base sub end.

Definition all_angles (r : SlicedRegion) : list f32 :=
  internal_bridge_angle_deg r <$> seq 0 (length (sr_internal_bridge_areas r)).

Definition restored_angles (base sub : SlicedRegion) : list f32 :=
  match sr_internal_bridge_areas sub with
  | [] => sr_internal_bridge_angles_deg base
  | _ =>
      match sr_internal_bridge_angles_deg base, sr_internal_bridge_angles_deg sub with
      | [], [] => []
      | _, _ => all_angles base ++ all_angles sub
      end
  end.

Definition restore_region (base sub : SlicedRegion) : SlicedRegion :=
  {| sr_object_id := sr_object_id base; sr_region_id := sr_region_id base;
     sr_polygons := restore (sr_polygons base) (sr_polygons sub);
     sr_infill_areas := restore (sr_infill_areas base) (sr_infill_areas sub);
     sr_nonplanar_surface := sr_nonplanar_surface base;
     sr_effective_layer_height := sr_effective_layer_height base;
     sr_segment_annotations := sr_segment_annotations base; sr_variant_chain := sr_variant_chain base;
     sr_top_shell_index := sr_top_shell_index base; sr_bottom_shell_index := sr_bottom_shell_index base;
     sr_top_solid_fill := restore (sr_top_solid_fill base) (sr_top_solid_fill sub);
     sr_bottom_solid_fill := restore (sr_bottom_solid_fill base) (sr_bottom_solid_fill sub);
     sr_is_bridge := sr_is_bridge base;
     sr_bridge_areas := restore (sr_bridge_areas base) (sr_bridge_areas sub);
     sr_bridge_orientation_deg := sr_bridge_orientation_deg base;
     sr_sparse_infill_area := restore (sr_sparse_infill_area base) (sr_sparse_infill_area sub);
     sr_internal_solid_fill := restore (sr_internal_solid_fill base) (sr_internal_solid_fill sub);
     sr_internal_bridge_areas := sr_internal_bridge_areas base ++ sr_internal_bridge_areas sub;
     sr_internal_bridge_angles_deg := restored_angles base sub;
     sr_raft_fill := restore (sr_raft_fill base) (sr_raft_fill sub) |}.

(** The region a sub-region was cut from. *)
Definition is_base_of (sub : SlicedRegion) (base_region_id : Z) (r : SlicedRegion) : bool :=
  String.eqb (sr_object_id r) (sr_object_id sub) && (sr_region_id r =? base_region_id)
  && bool_decide (sr_variant_chain r = sr_variant_chain sub).

(** One sub-region is put back; the [expect] is [Panicked]. *)
Definition restore_sub (regions : list SlicedRegion) (sub : SlicedRegion) : exec (list SlicedRegion) :=
  match modifier_base_region_id (sr_region_id sub) with
  | None => Panicked
  | Some base_region_id =>
      Done (default regions (update_first (is_base_of sub base_region_id)
                               (fun base => restore_region base sub) regions))
  end.

Definition is_sub_region (r : SlicedRegion) : bool := is_modifier_namespace_id (sr_region_id r).

Fixpoint restore_all (regions : list SlicedRegion) (subs : list SlicedRegion) : exec (list SlicedRegion) :=
  match subs with
  | [] => Done regions
  | sub :: subs => let! regions := restore_sub regions sub in restore_all regions subs
  end.

Definition perimeter_source_regions (slice : SliceIR) : exec (list SlicedRegion) :=
  restore_all (filter (fun r => negb (is_footprint r) && negb (is_sub_region r) = true) (sl_regions slice))
              (filter (fun r => is_sub_region r = true) (sl_regions slice)).
End perimeter_source.

(** ** Data *)

Definition AUTHORED_COLORING_CLAIM : string := "claim:authored-coloring".

Definition authored_coloring_granted (held_fill_claims fill_authored_coloring disclosed_claims : list string) : bool :=
  if negb (existsb (String.eqb AUTHORED_COLORING_CLAIM) disclosed_claims) then false
  else existsb (fun held => existsb (String.eqb held) fill_authored_coloring) held_fill_claims.

Inductive SelectionError :=
| UnknownLayerStage (stage_id : string)
| MissingModelConfig (key : RegionKey).

Record LayerSelectionBuildError := {
  lbe_error : SelectionError;
  lbe_stage_id : string;
  lbe_module_id : string
}.

Record LayerSelectionModuleInput := {
  lsm_stage_id : string;
  lsm_module_id : string;
  lsm_claims : list string;
  lsm_paint_semantics : option (gset string);
  lsm_invocation_config : ConfigView
}.

Inductive OptionalProductPresence := Absent | Present.

Inductive LayerTargetSource :=
| Model (key : RegionKey) (members : list RegionKey)
| SupportCarrier (entry_index : nat) (object_id : string) (region_id : Z) (variant_chain : VariantChain)
    (family : string) (demand_ids body_ids provenance : list string) (anchor_layer_index : Z)
| Raft (global_layer_index : Z)
| AnchoredStage (anchor_layer_index : Z).

Record SelectedLayerTarget := {
  tg_source : LayerTargetSource;
  tg_config : ConfigView;
  tg_held_claims : list string;
  tg_authored_coloring : bool;
  tg_resolved_role_tool : option Z
}.

Record LayerSelection := {
  ls_stage_id : string;
  ls_invoke : bool;
  ls_invocation_config : ConfigView;
  ls_support_plan_presence : OptionalProductPresence;
  ls_targets : list SelectedLayerTarget;
  ls_slice_regions : list SlicedRegion;
  ls_perimeter_configs : gmap source_key ConfigView
}.

Record LayerSelectionIndex := { selections : gmap Z (gmap string LayerSelection) }.

Definition selection_for (index : LayerSelectionIndex) (global_layer_index : Z) (module_id : string)
    : option LayerSelection :=
  selections index !! global_layer_index ≫= fun per_module => per_module !! module_id.

(** [SupportPlanRoleRegion]: the polygons of a role. *)
Inductive SupportPlanRole := PlanBody | PlanTopInterface | PlanBaseInterface | PlanBottomInterface | PlanRaftRelated.
Record SupportPlanRoleRegion := { spr_role : SupportPlanRole; spr_regions : list ExPolygon }.

(** The products the selection does not look into. *)
Class OtherProducts := {
  op_mesh : Type;
  op_surface_classification : Type;
  op_layer_plan : Type;
  op_support_geometry : Type;
  op_support_analysis : Type;
  op_scored_seam_candidate : Type;
  op_support_plan_skeleton : Type;
  op_prepared_region_data : Type
}.

Section selection.
Context {O : OtherProducts}.

#[local] Instance selection_types : PrepassTypes := {|
  pre_MeshIR := op_mesh;
  pre_SurfaceClassificationIR := op_surface_classification;
  pre_LayerPlanIR := op_layer_plan;
  pre_RegionMapIR := RegionMap.RegionMapIR;
  pre_LayerSelectionIndex := LayerSelectionIndex;
  pre_SupportGeometryIR := op_support_geometry;
  pre_SupportAnalysisIR := op_support_analysis;
  pre_ScoredSeamCandidate := op_scored_seam_candidate;
  pre_SupportPlanRoleRegion := SupportPlanRoleRegion;
  pre_SupportPlanSkeleton := op_support_plan_skeleton;
  pre_PreparedRegionData := op_prepared_region_data
|}.
#[local] Existing Instance layer_types.

Context (boolean_op_tree_64 : ClipOperation -> list (list Point2) -> list (list Point2) -> PolyPath).

Record LayerSelectionIndexInput := {
  si_stage_roster : list StageSpec;
  si_global_layers : list GlobalLayer;
  si_modules : list LayerSelectionModuleInput;
  si_slices : list LayerIr.SliceIR;
  si_region_map : option RegionMap.RegionMapIR;
  si_support_plan : option SupportPlanIR;
  si_perimeters : list LayerIr.PerimeterIR
}.

(** ** Keys *)

Definition paint_allows_layer (declared : gset string) (slice : option LayerIr.SliceIR) : bool :=
  bool_decide (declared = ∅)
  || match slice with
     | None => true
     | Some slice =>
         existsb (fun r => existsb (fun e : string * PaintValue => bool_decide (e.1 ∈ declared)) (sr_variant_chain r))
           (sl_regions slice)
     end.

Definition key_for (layer : Z) (region : SlicedRegion) : RegionKey :=
  {| rk_global_layer_index := layer; rk_object_id := sr_object_id region;
     rk_region_id := sr_region_id region; rk_variant_chain := sr_variant_chain region |}.

Definition region_map_key_for_sliced_region (global_layer_index : Z) (region : SlicedRegion) : RegionKey :=
  {| rk_global_layer_index := global_layer_index; rk_object_id := sr_object_id region;
     rk_region_id := map_space_region_id (sr_region_id region) (sr_variant_chain region);
     rk_variant_chain := sr_variant_chain region |}.

Definition origin (key : RegionKey) : source_key := region_key_source key.

(** ** Configurations, each projected once per module *)

Definition config_cache : Type := gmap Z ConfigView.

Definition config_for (region_map : option RegionMap.RegionMapIR) (module : LayerSelectionModuleInput) (key : RegionKey)
    (cache : config_cache) : exec (result (ConfigView * config_cache) SelectionError) :=
  match region_map with
  | None => Done (Err (MissingModelConfig key))
  | Some map =>
      match rm_get map key with
      | None => Done (Err (MissingModelConfig key))
      | Some plan =>
          match cache !! rp_config plan with
          | Some view => Done (Ok (view, cache))
          | None =>
              let! resolved := RegionMap.config_for map key in
              let view := project_declared_config_view resolved (cv_keys (lsm_invocation_config module)) in
              Done (Ok (view, <[rp_config plan := view]> cache))
          end
      end
  end.

(** [expect("validated exact map")]. *)
Definition resolved_for (region_map : option RegionMap.RegionMapIR) (key : RegionKey) : exec ResolvedConfig :=
  match region_map with Some map => RegionMap.config_for map key | None => Panicked end.

(** ** Targets *)

(** [as u32]. *)
Definition role_tool (resolved : ResolvedConfig) : option Z :=
  match rc_extensions resolved !! "extruder" with
  | Some (CvInt tool) => if 0 <=? tool then Some (tool `mod` 2 ^ 32) else None
  | _ => None
  end.

Definition active_region_of (region : SlicedRegion) (resolved : ResolvedConfig) : ActiveRegion :=
  {| ar_object_id := sr_object_id region; ar_region_id := sr_region_id region; ar_resolved_config := resolved;
     ar_effective_layer_height := F32 0; ar_nonplanar_shell := None; ar_is_catchup_layer := false;
     ar_catchup_z_bottom := F32 0; ar_tool_index := 0 |}.

Definition fill_holders_of (resolved : ResolvedConfig) : FillHolders :=
  {| fh_top := rc_top_fill_holder resolved; fh_bottom := rc_bottom_fill_holder resolved;
     fh_bridge := rc_bridge_fill_holder resolved; fh_sparse := rc_sparse_fill_holder resolved |}.

(** The modifier children of a region, which encode its identifier. *)
Definition members_of (module : LayerSelectionModuleInput) (layer : Z) (slice : option LayerIr.SliceIR)
    (region : SlicedRegion) : list RegionKey :=
  key_for layer region ::
  (if String.eqb (lsm_stage_id module) "Layer::Perimeters" then
     match slice with
     | None => []
     | Some slice =>
         key_for layer <$> filter (fun r =>
           (String.eqb (sr_object_id r) (sr_object_id region)
            && bool_decide (sr_variant_chain r = sr_variant_chain region)
            && bool_decide (modifier_base_region_id (sr_region_id r) = Some (sr_region_id region))) = true)
           (sl_regions slice)
     end
   else []).

(** [SlicedRegion::default()] under an identity. *)
Definition region_handle (object_id : string) (region_id : Z) (chain : VariantChain) (height : f32) : SlicedRegion :=
  {| sr_object_id := object_id; sr_region_id := region_id; sr_polygons := []; sr_infill_areas := [];
     sr_nonplanar_surface := None; sr_effective_layer_height := height; sr_segment_annotations := [];
     sr_variant_chain := chain; sr_top_shell_index := None; sr_bottom_shell_index := None;
     sr_top_solid_fill := []; sr_bottom_solid_fill := []; sr_is_bridge := false; sr_bridge_areas := [];
     sr_bridge_orientation_deg := F32 0; sr_sparse_infill_area := []; sr_internal_solid_fill := [];
     sr_internal_bridge_areas := []; sr_internal_bridge_angles_deg := []; sr_raft_fill := [] |}.

Definition push_target (s : LayerSelection) (t : SelectedLayerTarget) : LayerSelection :=
  {| ls_stage_id := ls_stage_id s; ls_invoke := ls_invoke s; ls_invocation_config := ls_invocation_config s;
     ls_support_plan_presence := ls_support_plan_presence s; ls_targets := ls_targets s ++ [t];
     ls_slice_regions := ls_slice_regions s; ls_perimeter_configs := ls_perimeter_configs s |}.

Definition push_slice_region (s : LayerSelection) (r : SlicedRegion) : LayerSelection :=
  {| ls_stage_id := ls_stage_id s; ls_invoke := ls_invoke s; ls_invocation_config := ls_invocation_config s;
     ls_support_plan_presence := ls_support_plan_presence s; ls_targets := ls_targets s;
     ls_slice_regions := ls_slice_regions s ++ [r]; ls_perimeter_configs := ls_perimeter_configs s |}.

Definition insert_perimeter_config (s : LayerSelection) (key : source_key) (view : ConfigView) : LayerSelection :=
  {| ls_stage_id := ls_stage_id s; ls_invoke := ls_invoke s; ls_invocation_config := ls_invocation_config s;
     ls_support_plan_presence := ls_support_plan_presence s; ls_targets := ls_targets s;
     ls_slice_regions := ls_slice_regions s; ls_perimeter_configs := <[key := view]> (ls_perimeter_configs s) |}.

Definition set_invoke (s : LayerSelection) (invoke : bool) : LayerSelection :=
  {| ls_stage_id := ls_stage_id s; ls_invoke := invoke; ls_invocation_config := ls_invocation_config s;
     ls_support_plan_presence := ls_support_plan_presence s; ls_targets := ls_targets s;
     ls_slice_regions := ls_slice_regions s; ls_perimeter_configs := ls_perimeter_configs s |}.

(** One region of the slice; the configuration cache is threaded through. *)
Definition select_region (region_map : option RegionMap.RegionMapIR) (module : LayerSelectionModuleInput) (layer : Z)
    (slice : option LayerIr.SliceIR) (st : LayerSelection * config_cache) (region : SlicedRegion)
    : exec (result (LayerSelection * config_cache) SelectionError) :=
  let '(s, cache) := st in
  let key := key_for layer region in
  let address := region_map_key_for_sliced_region layer region in
  let! config := config_for region_map module address cache in
  match config with
  | Err e => Done (Err e)
  | Ok (config, cache) =>
      let! resolved := resolved_for region_map address in
      if negb (module_claims_match_active_region (lsm_claims module) (active_region_of region resolved))
      then Done (Ok (s, cache))
      else
        let held := resolve_held_claims (lsm_module_id module) (lsm_claims module) (fill_holders_of resolved) in
        let target :=
          {| tg_source := Model key (members_of module layer slice region); tg_config := config;
             tg_held_claims := held;
             tg_authored_coloring :=
               authored_coloring_granted held (rc_fill_authored_coloring resolved) (lsm_claims module);
             tg_resolved_role_tool := role_tool resolved |} in
        let s := insert_perimeter_config s (origin key) config in
        let s := push_target s target in
        let s := push_slice_region s (region_handle (sr_object_id region) (sr_region_id region)
                   (sr_variant_chain region) (sr_effective_layer_height region)) in
        Done (Ok (s, cache))
  end.

(** One region of a perimeter product that is already committed. *)
Definition select_perimeter (region_map : option RegionMap.RegionMapIR) (module : LayerSelectionModuleInput) (layer : Z)
    (st : LayerSelection * config_cache) (r : PerimeterRegion)
    : exec (result (LayerSelection * config_cache) SelectionError) :=
  let '(s, cache) := st in
  let region := region_handle (pr_object_id r) (pr_region_id r) (pr_variant_chain r) (F32 0) in
  let! config := config_for region_map module (region_map_key_for_sliced_region layer region) cache in
  match config with
  | Err e => Done (Err e)
  | Ok (config, cache) => Done (Ok (insert_perimeter_config s (origin (key_for layer region)) config, cache))
  end.

(** ** Support carriers *)

(** [as i32]. *)
Definition as_i32 (x : Z) : Z := if x <? 2 ^ 31 then x else x - 2 ^ 32.

Definition support_families (claims : list string) : list string :=
  omap (fun c => (fun f => canonical_support_family (Some f)) <$> strip_prefix "support-family:" c) claims.

Definition same_origin (e : SupportPlanEntry) (r : SlicedRegion) : bool :=
  String.eqb (sr_object_id r) (sup_object_id e) && (sr_region_id r =? sup_region_id e)
  && bool_decide (sr_variant_chain r = sup_variant_chain e).

Definition is_carrier (claims : list string) (layer : Z) (slice : option LayerIr.SliceIR) (e : SupportPlanEntry) : bool :=
  (sup_global_layer_index e =? as_i32 layer)
  && match sup_decline_reason e with None => true | Some _ => false end
  && existsb (fun r => match spr_regions r with [] => false | _ => true end) (sup_roles e)
  && existsb (String.eqb (canonical_support_family (Some (sup_family_id e)))) (support_families claims)
  && negb (match slice with Some s => existsb (same_origin e) (sl_regions s) | None => false end).

Definition eligible_carrier_entries (claims : list string) (layer : Z) (plan : option SupportPlanIR)
    (slice : option LayerIr.SliceIR) : list (nat * SupportPlanEntry) :=
  match plan with
  | None => []
  | Some p => filter (fun e : nat * SupportPlanEntry => is_carrier claims layer slice e.2 = true)
                (enumerate (sup_entries p))
  end.

Definition carrier_leb (a b : SlicedRegion) : bool :=
  rust_leb (sr_object_id a, sr_region_id a) (sr_object_id b, sr_region_id b).

(** One handle per origin; the height is that of the first region of the object. *)
Definition push_carrier (slice : option LayerIr.SliceIR) (carriers : list SlicedRegion) (e : SupportPlanEntry)
    : list SlicedRegion :=
  if existsb (same_origin e) carriers then carriers
  else carriers ++
    [region_handle (sup_object_id e) (sup_region_id e) (sup_variant_chain e)
       (default (F32 0) (slice ≫= fun s =>
          sr_effective_layer_height ∘ snd <$>
          list_find (fun r => sr_object_id r = sup_object_id e) (sl_regions s)))].

Definition support_carrier_regions (claims : list string) (layer : Z) (plan : option SupportPlanIR)
    (slice : option LayerIr.SliceIR) : list SlicedRegion :=
  sort_by carrier_leb
    (foldl (push_carrier slice) [] (snd <$> eligible_carrier_entries claims layer plan slice)).

Definition non_fill_claims (claims : list string) : list string :=
  base.filter (fun c => (negb (contains FILL_CLAIM_IDS c) && negb (String.eqb c "claim:raft-fill")) = true) claims.

Definition host_target (source : LayerTargetSource) (invocation : ConfigView) (held : list string)
    : SelectedLayerTarget :=
  {| tg_source := source; tg_config := invocation; tg_held_claims := held; tg_authored_coloring := false;
     tg_resolved_role_tool := None |}.

Definition carrier_target (module : LayerSelectionModuleInput) (e : nat * SupportPlanEntry) : SelectedLayerTarget :=
  host_target
    (SupportCarrier e.1 (sup_object_id e.2) (sup_region_id e.2) (sup_variant_chain e.2) (sup_family_id e.2)
       (sup_demand_ids e.2) (sup_body_ids e.2) (sup_provenance e.2) (sup_anchor_layer_index e.2))
    (lsm_invocation_config module) (non_fill_claims (lsm_claims module)).

(** The targets that are not regions of the model, in their order. *)
Definition host_targets (input : LayerSelectionIndexInput) (module : LayerSelectionModuleInput) (layer : GlobalLayer)
    (slice : option LayerIr.SliceIR) : list SelectedLayerTarget :=
  let stage := lsm_stage_id module in
  (if String.eqb stage "Layer::Support" then
     carrier_target module <$>
       eligible_carrier_entries (lsm_claims module) (gl_index layer) (si_support_plan input) slice
   else []) ++
  (if gl_is_raft layer && (String.eqb stage "Layer::Infill" || String.eqb stage "Layer::Support") then
     [host_target (Raft (gl_index layer)) (lsm_invocation_config module) (lsm_claims module)] else []) ++
  (if String.eqb stage "Layer::AnchoredEvents" then
     [host_target (AnchoredStage (gl_index layer)) (lsm_invocation_config module) (lsm_claims module)] else []).

(** ** One layer *)

Definition blank_selection (input : LayerSelectionIndexInput) (module : LayerSelectionModuleInput) : LayerSelection :=
  {| ls_stage_id := lsm_stage_id module; ls_invoke := true; ls_invocation_config := lsm_invocation_config module;
     ls_support_plan_presence := match si_support_plan input with Some _ => Present | None => Absent end;
     ls_targets := []; ls_slice_regions := []; ls_perimeter_configs := ∅ |}.

Definition candidates (module : LayerSelectionModuleInput) (slice : option LayerIr.SliceIR) : exec (list SlicedRegion) :=
  match slice with
  | None => Done []
  | Some s =>
      if String.eqb (lsm_stage_id module) "Layer::Perimeters"
      then perimeter_source_regions boolean_op_tree_64 s else Done (sl_regions s)
  end.

Definition build_layer (input : LayerSelectionIndexInput) (module : LayerSelectionModuleInput) (layer : GlobalLayer)
    (slice : option LayerIr.SliceIR) (perimeters : list LayerIr.PerimeterIR) (cache : config_cache)
    : exec (result (LayerSelection * config_cache) SelectionError) :=
  let result := blank_selection input module in
  if match lsm_paint_semantics module with Some p => negb (paint_allows_layer p slice) | None => false end
  then Done (Ok (set_invoke result false, cache))
  else
    let! regions := candidates module slice in
    let! out := fold_exec (select_region (si_region_map input) module (gl_index layer) slice) (result, cache) regions in
    match out with
    | Err e => Done (Err e)
    | Ok st =>
        let! out := fold_exec (select_perimeter (si_region_map input) module (gl_index layer)) st
                      (flat_map LayerIr.per_regions perimeters) in
        match out with
        | Err e => Done (Err e)
        | Ok (s, cache) =>
            let s := foldl push_target s (host_targets input module layer slice) in
            let s := if existsb (starts_with "support-family:") (lsm_claims module)
                     then set_invoke s (match ls_targets s with [] => false | _ => true end) else s in
            Done (Ok (s, cache))
        end
    end.

(** ** The whole print *)

Definition is_layer_stage (roster : list StageSpec) (stage_id : string) : bool :=
  existsb (fun s => String.eqb (sg_stage_id s) stage_id && String.eqb (sg_tier_id s) TIER_LAYER
                    && negb (String.eqb (sg_wit_export s) "")) roster
  && match stage_by_id stage_id with
     | Some s => String.eqb (sg_tier_id s) TIER_LAYER && negb (String.eqb (sg_wit_export s) "")
     | None => false
     end.

(** The later of two slices with the same layer wins; perimeters keep their order. *)
Definition slices_by_layer (slices : list LayerIr.SliceIR) : gmap Z LayerIr.SliceIR :=
  map_collect ((fun s => (sl_global_layer_index s, s)) <$> slices).
Definition perimeters_by_layer (perimeters : list LayerIr.PerimeterIR) : gmap Z (list LayerIr.PerimeterIR) :=
  foldl push_entry ∅ ((fun p => (per_global_layer_index p, p)) <$> perimeters).

(** A second entry for a layer and module fails the [assert!]. *)
Definition insert_selection (index : LayerSelectionIndex) (layer : Z) (module_id : string) (s : LayerSelection)
    : exec LayerSelectionIndex :=
  let per_module := default ∅ (selections index !! layer) in
  match per_module !! module_id with
  | Some _ => Panicked
  | None => Done {| selections := <[layer := <[module_id := s]> per_module]> (selections index) |}
  end.

Definition select_layer (input : LayerSelectionIndexInput) (module : LayerSelectionModuleInput)
    (st : LayerSelectionIndex * config_cache) (layer : GlobalLayer)
    : exec (result (LayerSelectionIndex * config_cache) LayerSelectionBuildError) :=
  let '(index, cache) := st in
  let! out := build_layer input module layer (slices_by_layer (si_slices input) !! gl_index layer)
                (default [] (perimeters_by_layer (si_perimeters input) !! gl_index layer)) cache in
  match out with
  | Err e => Done (Err {| lbe_error := e; lbe_stage_id := lsm_stage_id module; lbe_module_id := lsm_module_id module |})
  | Ok (s, cache) =>
      let! index := insert_selection index (gl_index layer) (lsm_module_id module) s in
      Done (Ok (index, cache))
  end.

Definition select_module (input : LayerSelectionIndexInput) (index : LayerSelectionIndex)
    (module : LayerSelectionModuleInput) : exec (result LayerSelectionIndex LayerSelectionBuildError) :=
  if negb (is_layer_stage (si_stage_roster input) (lsm_stage_id module)) then
    Done (Err {| lbe_error := UnknownLayerStage (lsm_stage_id module);
                 lbe_stage_id := lsm_stage_id module; lbe_module_id := lsm_module_id module |})
  else
    let! out := fold_exec (select_layer input module) (index, ∅) (si_global_layers input) in
    match out with Err e => Done (Err e) | Ok st => Done (Ok st.1) end.

Definition build_layer_selection_index (input : LayerSelectionIndexInput)
    : exec (result LayerSelectionIndex LayerSelectionBuildError) :=
  fold_exec (select_module input) {| selections := ∅ |} (si_modules input).

(** ** The executor's side *)

Definition is_indexed_module_stage (stage_id : StageId) : bool :=
  existsb (fun s => String.eqb (sg_stage_id s) stage_id && String.eqb (sg_tier_id s) "layer"
                    && negb (String.eqb (sg_wit_export s) "")) STAGES.

Definition selection_modules (plan : ExecutionPlan) : list LayerSelectionModuleInput :=
  flat_map (fun stage =>
      (fun m => {| lsm_stage_id := cs_stage_id stage; lsm_module_id := cm_module_id m; lsm_claims := cm_claims m;
                   lsm_paint_semantics := Some (cm_region_split_semantics m);
                   lsm_invocation_config := cm_config_view m |}) <$> cs_modules stage)
    (filter (fun stage => existsb (fun s => String.eqb (sg_stage_id s) (cs_stage_id stage)
                                            && String.eqb (sg_tier_id s) "layer") STAGES = true)
       (ep_per_layer_stages plan)).

Definition selection_input (plan : ExecutionPlan) (bb : Blackboard) : LayerSelectionIndexInput :=
  {| si_stage_roster := STAGES; si_global_layers := ep_global_layers plan; si_modules := selection_modules plan;
     si_slices := default [] (slice_ir bb); si_region_map := region_map bb; si_support_plan := support_plan bb;
     si_perimeters := [] |}.

(** The two messages come from [Display]. *)
Context (show_selection_error : SelectionError -> string) (show_commit_error : LayerSelectionIndexCommitError -> string).

Definition build_and_commit_layer_selection_index (plan : ExecutionPlan) (bb : Blackboard)
    : exec (Blackboard * result unit LayerStageError) :=
  let! index := build_layer_selection_index (selection_input plan bb) in
  match index with
  | Err e => Done (bb, Err (FatalModule (lbe_stage_id e) (lbe_module_id e) (show_selection_error (lbe_error e))))
  | Ok index =>
      match commit_layer_selection_index bb index with
      | (bb, Ok _) => Done (bb, Ok tt)
      | (bb, Err e) => Done (bb, Err (FatalModule "Layer::Selection" "host" (show_commit_error e)))
      end
  end.

(** The index behind the executor's interface. *)
Definition indexed_host
    (run : StageId -> GlobalLayer -> CompiledModuleStatic -> LayerStageInput LayerSelection -> stage_run) : LayerHost := {|
  LayerRun.selection := LayerSelection;
  LayerRun.invoke_selected := ls_invoke;
  LayerRun.selection_for := selection_for;
  LayerRun.is_indexed_module_stage := is_indexed_module_stage;
  LayerRun.run_stage := run
|}.
End selection.
Arguments LayerSelectionIndexInput : clear implicits.

(** ** Splitting and restoring regions *)

Section restored.
Context {P : PrepassTypes}.
#[local] Existing Instance layer_types.
Context (boolean_op_tree_64 : ClipOperation -> list (list Point2) -> list (list Point2) -> PolyPath).
Context (split_message : SplitError -> string).
Context {Point : Type} (covers : list ExPolygon -> Point -> Prop).
Context (laws : clip_laws boolean_op_tree_64 covers).

Lemma restore_covers base sub p :
  covers (restore boolean_op_tree_64 base sub) p <-> covers base p \/ covers sub p.
Proof using laws.
  unfold restore. destruct sub as [|x xs]; [|apply (covers_union _ _ laws)].
  pose proof (covers_nil _ _ laws p). tauto.
Qed.

Context (rs : list SlicedRegion) (Hnd : NoDup (slice_key <$> rs)).

Lemma is_base_of_spec sub base r :
  is_base_of sub base r = true <-> slice_key r = (sr_object_id sub, base, sr_variant_chain sub).
Proof using.
  unfold is_base_of, slice_key. rewrite !andb_true_iff, String.eqb_eq, Z.eqb_eq, bool_decide_eq_true.
  split; [by intros [[-> ->] ->] | by intros [= -> -> ->]].
Qed.

(** Putting one sub-region back changes the region it was cut from, and no other. *)
Lemma restore_sub_spec regions sub r0 :
  slice_key <$> regions = slice_key <$> rs -> r0 ∈ rs -> child_of sub r0 ->
  exists regions', restore_sub boolean_op_tree_64 regions sub = Done regions' /\
    slice_key <$> regions' = slice_key <$> rs /\
    forall i r1 r r' p, rs !! i = Some r1 -> regions !! i = Some r -> regions' !! i = Some r' ->
      covers (sr_polygons r') p <->
      covers (sr_polygons r) p \/ child_of sub r1 /\ covers (sr_polygons sub) p.
Proof using Hnd laws.
  intros Hkeys (k & Hk)%list_elem_of_lookup (Ho & Hv & Hb). unfold restore_sub. rewrite Hb.
  assert (Hkey : forall i r1 r, rs !! i = Some r1 -> regions !! i = Some r -> slice_key r = slice_key r1).
  { intros i r1 r H1 H2. apply (f_equal (lookup i)) in Hkeys. rewrite !list_lookup_fmap, H1, H2 in Hkeys.
    by apply (inj Some) in Hkeys. }
  assert (Hlen : length regions = length rs) by (apply (f_equal length) in Hkeys; by rewrite !length_fmap in Hkeys).
  destruct (lookup_lt_is_Some_2 regions k) as [base Hbase]; [rewrite Hlen; by eapply lookup_lt_Some |].
  assert (Hbk : is_base_of sub (sr_region_id r0) base = true).
  { apply is_base_of_spec. rewrite (Hkey k r0 base Hk Hbase). unfold slice_key. congruence. }
  destruct (update_first _ _ regions) as [regions'|] eqn:Hu.
  2: { apply update_first_None with (x := base) in Hu; [congruence | by eapply list_elem_of_lookup_2]. }
  cbn [default]. exists regions'. split; [done |].
  apply update_first_Some in Hu as (l1 & x & l2 & -> & -> & Hx & Hl1). apply is_base_of_spec in Hx.
  split; [by rewrite fmap_app, fmap_cons in *; rewrite <- Hkeys; f_equal |].
  intros i r1 r r' p Hi Hr Hr'.
  assert (Hchild : child_of sub r1 <-> i = length l1).
  { assert (Hxk : rs !! length l1 ≫= (fun y => Some (slice_key y)) = Some (slice_key x)).
    { apply (f_equal (lookup (length l1))) in Hkeys. rewrite !list_lookup_fmap, list_lookup_middle in Hkeys by done.
      destruct (rs !! length l1); [apply (inj Some) in Hkeys; cbn; by rewrite Hkeys | done]. }
    destruct (rs !! length l1) as [y|] eqn:Hy; [|done]. apply (inj Some) in Hxk. split.
    - intros (Ho' & Hv' & Hb'). eapply NoDup_lookup; [exact Hnd | |]; rewrite list_lookup_fmap; rewrite ?Hi, ?Hy; [done |].
      cbn. f_equal. rewrite Hxk, Hx. unfold slice_key. congruence.
    - intros ->. assert (r1 = y) as -> by congruence. rewrite Hx in Hxk. injection Hxk as H1 H2 H3.
      unfold child_of. rewrite Hb, H1, H2, H3. done. }
  destruct (decide (i = length l1)) as [-> | Hne].
  - rewrite list_lookup_middle in Hr, Hr' by done. injection Hr as <-. injection Hr' as <-.
    cbn [restore_region sr_polygons]. rewrite restore_covers. tauto.
  - assert (r' = r) as ->; [|tauto]. rewrite lookup_app in Hr, Hr'.
    destruct (l1 !! i) eqn:Hl; [congruence |]. apply lookup_ge_None in Hl.
    destruct (i - length l1)%nat eqn:Hd; [lia |]. cbn in Hr, Hr'. congruence.
Qed.

Lemma restore_all_spec subs regions :
  slice_key <$> regions = slice_key <$> rs -> (forall m, m ∈ subs -> exists r0, r0 ∈ rs /\ child_of m r0) ->
  exists regions', restore_all boolean_op_tree_64 regions subs = Done regions' /\
    slice_key <$> regions' = slice_key <$> rs /\
    forall i r1 r r' p, rs !! i = Some r1 -> regions !! i = Some r -> regions' !! i = Some r' ->
      covers (sr_polygons r') p <->
      covers (sr_polygons r) p \/ exists m, m ∈ subs /\ child_of m r1 /\ covers (sr_polygons m) p.
Proof using Hnd laws.
  revert regions. induction subs as [|m subs IH]; intros regions Hkeys Hsubs; cbn.
  { exists regions. split; [done |]. split; [done |]. intros i r1 r r' p _ Hr Hr'.
    assert (r' = r) as -> by congruence. split; [by left |]. intros [? | (m & Hm & _)]; [done | set_solver]. }
  destruct (Hsubs m (list_elem_of_here _ _)) as (r0 & Hr0 & Hm).
  destruct (restore_sub_spec regions m r0 Hkeys Hr0 Hm) as (regions1 & -> & Hk1 & Hc1). cbn.
  destruct (IH regions1 Hk1) as (regions' & -> & Hk' & Hc'); [intros x Hx; apply Hsubs; by right |].
  exists regions'. split; [done |]. split; [done |]. intros i r1 r r' p Hi Hr Hr'.
  assert (Hlen : (i < length regions1)%nat).
  { apply (f_equal length) in Hk1. rewrite !length_fmap in Hk1. rewrite Hk1. by eapply lookup_lt_Some. }
  apply lookup_lt_is_Some_2 in Hlen as [r2 Hr2].
  rewrite (Hc' i r1 r2 r' p Hi Hr2 Hr'), (Hc1 i r1 r r2 p Hi Hr Hr2). setoid_rewrite elem_of_cons. split.
  - intros [[? | [? ?]] | (x & ? & ? & ?)]; [by left | right; exists m; auto | right; exists x; auto].
  - intros [? | (x & [-> | ?] & ? & ?)]; [by do 2 left | left; right; auto | right; exists x; auto].
Qed.

Lemma printable_kept r : is_u64 (sr_region_id r) -> sr_region_id r < 2 ^ 63 ->
  is_footprint r = false /\ is_sub_region r = false.
Proof using.
  intros Hu Hlt. unfold is_footprint, is_sub_region, MODIFIER_FOOTPRINT_REGION_ID. split; [apply Z.eqb_neq; unfold u64_max; lia |].
  destruct (is_modifier_namespace_id (sr_region_id r)) eqn:He; [|done].
  pose proof (not_modifier_below_flag (sr_region_id r) ltac:(unfold is_u64 in Hu; lia)) as Hn.
  unfold modifier_base_region_id in Hn. by rewrite He in Hn.
Qed.

(** [C30].  Modifier volumes split the fill of a region and not its outline: after the split, a
    perimeter module gets back the regions the slice had before, in their order and with
    their identities, and each outline covers the same points; the restoration never
    panics. *)
Theorem perimeters_see_unsplit_regions (slice slice' : SliceIR) (footprints : list (string * list ExPolygon))
    (Hrs : sl_regions slice = rs) (Hids : Forall (fun r => is_u64 (sr_region_id r) /\ sr_region_id r < 2 ^ 63) rs)
    (Hsplit : split_regions_by_modifier_footprints boolean_op_tree_64 slice footprints = Done (slice', Ok tt)) :
  exists out, perimeter_source_regions boolean_op_tree_64 slice' = Done out /\
    Forall2 (fun r0 r => slice_key r = slice_key r0 /\
               forall p, covers (sr_polygons r) p <-> covers (sr_polygons r0) p) rs out.
Proof using Hnd laws.
  assert (Hu : Forall (fun r => is_u64 (sr_region_id r)) rs) by (eapply Forall_impl; [exact Hids | by intros ? []]).
  destruct (split_regions_inv boolean_op_tree_64 covers laws rs Hnd Hu slice footprints Hrs)
    as (slice1 & r & He & _ & Hok). rewrite Hsplit in He. injection He as <- <-.
  destruct (Hok eq_refl) as (st & Hst & ->). unfold perimeter_source_regions.
  cbn [sl_regions with_slice_regions].
  pose proof (split_inv_all_keys boolean_op_tree_64 covers laws rs Hnd Hu st Hst) as Hall.
  assert (Hpk : slice_key <$> sp_regions st = slice_key <$> rs).
  { rewrite (si_keys _ _ _ Hst), !fmap_app in Hall. apply app_inj_1 in Hall as [Hp _]; [done |].
    rewrite !length_fmap. by apply (si_length _ _ _ Hst). }
  assert (Hparents : forall x, x ∈ sp_regions st -> is_footprint x = false /\ is_sub_region x = false).
  { intros x Hx. apply (list_elem_of_fmap_2 slice_key) in Hx. rewrite Hpk in Hx.
    apply list_elem_of_fmap in Hx as (x0 & Hk & Hx0). rewrite Forall_forall in Hids.
    destruct (Hids x0 Hx0). injection Hk as _ Hk _. apply printable_kept; by rewrite Hk. }
  assert (Hkids : forall m, m ∈ sp_minted st -> is_sub_region m = true).
  { intros m Hm. destruct (si_child _ _ _ Hst m Hm) as (r0 & _ & _ & _ & Hb).
    unfold modifier_base_region_id in Hb. unfold is_sub_region. by destruct (is_modifier_namespace_id _). }
  rewrite !filter_app.
  assert (forall (Q : SlicedRegion -> Prop) `{forall x, Decision (Q x)} l, (forall x, x ∈ l -> ~ Q x) -> filter Q l = [])
    as Hnone. { intros Q ? l Hl. apply list_nil_elem. intros x [Hq Hx]%list_elem_of_filter. by apply (Hl x). }
  rewrite list_filter_all, (Hnone _ _ (sp_minted st)), (Hnone _ _ (sp_regions st)), (list_filter_all _ (sp_minted st)), app_nil_r.
  - cbn [app]. destruct (restore_all_spec (sp_minted st) (sp_regions st) Hpk) as (out & -> & Hk & Hc);
      [by apply (si_child _ _ _ Hst) |].
    exists out. split; [done |]. apply Forall2_same_length_lookup_2.
    { apply (f_equal length) in Hk. by rewrite !length_fmap in Hk. }
    intros i r0 r' Hi Hr'. split.
    { apply (f_equal (lookup i)) in Hk. rewrite !list_lookup_fmap, Hi, Hr' in Hk. by apply (inj Some) in Hk. }
    intros p. destruct (lookup_lt_is_Some_2 (sp_regions st) i) as [r Hr].
    { rewrite (si_length _ _ _ Hst). by eapply lookup_lt_Some. }
    rewrite (Hc i r0 r r' p Hi Hr Hr'). symmetry. by apply (si_cover _ _ _ Hst i r0 r p).
  - apply Forall_forall. apply Hkids.
  - intros x Hx. by destruct (Hparents x Hx) as [_ ->].
  - intros m Hm. rewrite (Hkids m Hm), andb_false_r. done.
  - apply Forall_forall. intros x Hx. destruct (Hparents x Hx) as [-> ->]. done.
Qed.
End restored.

(** ** What the index holds

    The specification has no cache and no error plumbing: the configuration of a region is
    read directly from the region map, and the first region without one is named. *)

Section index_spec.
Context {O : OtherProducts}.
#[local] Existing Instance selection_types.
#[local] Existing Instance layer_types.
Context (boolean_op_tree_64 : ClipOperation -> list (list Point2) -> list (list Point2) -> PolyPath).

Definition resolved_at (region_map : option RegionMap.RegionMapIR) (key : RegionKey) : option ResolvedConfig :=
  region_map ≫= fun map => rm_get map key ≫= fun plan => rm_configs map !! Z.to_nat (rp_config plan).

(** The view of a resolved configuration that a module declared. *)
Definition declared_view (module : LayerSelectionModuleInput) (resolved : ResolvedConfig) : ConfigView :=
  project_declared_config_view resolved (cv_keys (lsm_invocation_config module)).

(** The target of a region, unless the module serves another support family there. *)
Definition model_target (input : LayerSelectionIndexInput O) (module : LayerSelectionModuleInput) (layer : Z)
    (slice : option LayerIr.SliceIR) (region : SlicedRegion) : option SelectedLayerTarget :=
  resolved_at (si_region_map input) (region_map_key_for_sliced_region layer region) ≫= fun resolved =>
  if module_claims_match_active_region (lsm_claims module) (active_region_of region resolved) then
    let held := resolve_held_claims (lsm_module_id module) (lsm_claims module) (fill_holders_of resolved) in
    Some {| tg_source := Model (key_for layer region) (members_of module layer slice region);
            tg_config := declared_view module resolved; tg_held_claims := held;
            tg_authored_coloring :=
              authored_coloring_granted held (rc_fill_authored_coloring resolved) (lsm_claims module);
            tg_resolved_role_tool := role_tool resolved |}
  else None.

Definition handle_of (region : SlicedRegion) : SlicedRegion :=
  region_handle (sr_object_id region) (sr_region_id region) (sr_variant_chain region)
    (sr_effective_layer_height region).

(** The regions a module is selected on. *)
Definition selected_on (input : LayerSelectionIndexInput O) (module : LayerSelectionModuleInput) (layer : Z)
    (slice : option LayerIr.SliceIR) (regions : list SlicedRegion) : list SlicedRegion :=
  filter (fun r => is_Some (model_target input module layer slice r)) regions.

Definition perimeter_handle (r : PerimeterRegion) : SlicedRegion :=
  region_handle (pr_object_id r) (pr_region_id r) (pr_variant_chain r) (F32 0).

(** Identity and view of the regions, in the order in which they are entered. *)
Definition origin_views (input : LayerSelectionIndexInput O) (module : LayerSelectionModuleInput) (layer : Z)
    (regions : list SlicedRegion) : list (source_key * ConfigView) :=
  omap (fun r => (fun resolved => (slice_key r, declared_view module resolved)) <$>
                 resolved_at (si_region_map input) (region_map_key_for_sliced_region layer r)) regions.

(** The whole entry of a layer and a module. *)
Definition layer_selection (input : LayerSelectionIndexInput O) (module : LayerSelectionModuleInput) (layer : GlobalLayer)
    (slice : option LayerIr.SliceIR) (regions perimeters : list SlicedRegion) : LayerSelection :=
  let g := gl_index layer in
  if match lsm_paint_semantics module with Some p => negb (paint_allows_layer p slice) | None => false end
  then set_invoke (blank_selection input module) false
  else
    let selected := selected_on input module g slice regions in
    let targets := omap (model_target input module g slice) regions ++ host_targets input module layer slice in
    {| ls_stage_id := lsm_stage_id module;
       ls_invoke := negb (existsb (starts_with "support-family:") (lsm_claims module))
                    || match targets with [] => false | _ => true end;
       ls_invocation_config := lsm_invocation_config module;
       ls_support_plan_presence := match si_support_plan input with Some _ => Present | None => Absent end;
       ls_targets := targets;
       ls_slice_regions := handle_of <$> selected;
       ls_perimeter_configs := map_collect (origin_views input module g (selected ++ perimeters)) |}.

(** The first region whose configuration the map does not have. *)
Definition missing_config (input : LayerSelectionIndexInput O) (layer : Z) (region : SlicedRegion) : option RegionKey :=
  let address := region_map_key_for_sliced_region layer region in
  match resolved_at (si_region_map input) address with Some _ => None | None => Some address end.

Definition first_missing (input : LayerSelectionIndexInput O) (module : LayerSelectionModuleInput) (layer : GlobalLayer)
    (slice : option LayerIr.SliceIR) (regions perimeters : list SlicedRegion) : option RegionKey :=
  if match lsm_paint_semantics module with Some p => negb (paint_allows_layer p slice) | None => false end
  then None
  else head (omap (missing_config input (gl_index layer)) (regions ++ perimeters)).

(** *** The cache *)

Definition cache_ok (region_map : option RegionMap.RegionMapIR) (module : LayerSelectionModuleInput) (cache : config_cache)
    : Prop :=
  forall map id view, region_map = Some map -> cache !! id = Some view ->
    exists resolved, rm_configs map !! Z.to_nat id = Some resolved /\ view = declared_view module resolved.

Definition map_in_range (region_map : option RegionMap.RegionMapIR) : Prop :=
  forall map, region_map = Some map -> ids_in_range map.

Lemma rm_get_elem map key plan : rm_get map key = Some plan -> (key, plan) ∈ rm_entries map.
Proof.
  unfold rm_get. intros ([i [k p]] & (Hi & Hk & _)%list_find_Some & ->)%fmap_Some. cbn in *. subst k.
  by eapply list_elem_of_lookup_2.
Qed.

(** The lookup through the cache is the direct lookup. *)
Lemma config_for_spec region_map module key cache :
  map_in_range region_map -> cache_ok region_map module cache ->
  match resolved_at region_map key with
  | Some resolved => exists cache', config_for region_map module key cache =
                       Done (Ok (declared_view module resolved, cache')) /\ cache_ok region_map module cache' /\
                       resolved_for region_map key = Done resolved
  | None => config_for region_map module key cache = Done (Err (MissingModelConfig key))
  end.
Proof.
  intros Hrange Hcache. unfold resolved_at, config_for, resolved_for. destruct region_map as [map|]; cbn; [|done].
  unfold RegionMap.config_for, config_for_raw.
  destruct (rm_get map key) as [plan|] eqn:Hget; cbn; [|done].
  destruct (Hrange map eq_refl _ (rm_get_elem _ _ _ Hget)) as [resolved Hres]. cbn in Hres. rewrite Hres. cbn.
  destruct (cache !! rp_config plan) as [view|] eqn:Hc.
  - destruct (Hcache map _ _ eq_refl Hc) as (resolved' & Hres' & ->).
    assert (resolved' = resolved) as -> by congruence. eauto.
  - eexists. split; [done |]. split; [|done]. intros map' id view [= <-] [[<- <-] | [_ Hv]]%lookup_insert_Some; eauto.
Qed.

Lemma cache_ok_empty region_map module : cache_ok region_map module ∅.
Proof. intros map id view _ Hv. by apply (lookup_empty_Some (M := gmap Z) id view) in Hv. Qed.

(** *** One layer *)

Definition add_region (input : LayerSelectionIndexInput O) (module : LayerSelectionModuleInput) (layer : Z)
    (slice : option LayerIr.SliceIR) (s : LayerSelection) (region : SlicedRegion) : LayerSelection :=
  match model_target input module layer slice region with
  | None => s
  | Some t =>
      push_slice_region (push_target (insert_perimeter_config s (slice_key region) (tg_config t)) t) (handle_of region)
  end.

Definition add_perimeter (input : LayerSelectionIndexInput O) (module : LayerSelectionModuleInput) (layer : Z)
    (s : LayerSelection) (region : SlicedRegion) : LayerSelection :=
  match resolved_at (si_region_map input) (region_map_key_for_sliced_region layer region) with
  | None => s
  | Some resolved => insert_perimeter_config s (slice_key region) (declared_view module resolved)
  end.

Lemma select_region_step (input : LayerSelectionIndexInput O) module layer slice s cache region :
  map_in_range (si_region_map input) -> cache_ok (si_region_map input) module cache ->
  match MissingModelConfig <$> missing_config input layer region with
  | None => exists cache', select_region (si_region_map input) module layer slice (s, cache) region =
              Done (Ok (add_region input module layer slice s region, cache')) /\
              cache_ok (si_region_map input) module cache'
  | Some e => select_region (si_region_map input) module layer slice (s, cache) region = Done (Err e)
  end.
Proof.
  intros Hr Hc. unfold select_region, missing_config, add_region, model_target.
  pose proof (config_for_spec (si_region_map input) module (region_map_key_for_sliced_region layer region) cache Hr Hc) as H.
  destruct (resolved_at _ _) as [resolved|]; cbn [fmap option_fmap option_map]; [|by rewrite H].
  destruct H as (cache' & -> & Hc' & Hres). cbn [exec_bind]. rewrite Hres. cbn [exec_bind mbind option_bind].
  destruct (module_claims_match_active_region _ _); cbn [negb]; eauto.
Qed.

Lemma select_perimeter_step (input : LayerSelectionIndexInput O) module layer s cache r :
  map_in_range (si_region_map input) -> cache_ok (si_region_map input) module cache ->
  match MissingModelConfig <$> missing_config input layer (perimeter_handle r) with
  | None => exists cache', select_perimeter (si_region_map input) module layer (s, cache) r =
              Done (Ok (add_perimeter input module layer s (perimeter_handle r), cache')) /\
              cache_ok (si_region_map input) module cache'
  | Some e => select_perimeter (si_region_map input) module layer (s, cache) r = Done (Err e)
  end.
Proof.
  intros Hr Hc. unfold select_perimeter, missing_config, add_perimeter. fold (perimeter_handle r).
  pose proof (config_for_spec (si_region_map input) module
    (region_map_key_for_sliced_region layer (perimeter_handle r)) cache Hr Hc) as H.
  destruct (resolved_at _ _) as [resolved|]; cbn [fmap option_fmap option_map]; [|by rewrite H].
  destruct H as (cache' & -> & Hc' & Hres). cbn [exec_bind]. eauto.
Qed.

Lemma omap_fmap_head {A B C} (f : B -> C) (g : A -> option B) (l : list A) :
  head (omap (fun x => f <$> g x) l) = f <$> head (omap g l).
Proof. induction l as [|x l IH]; cbn; [done |]. by destruct (g x). Qed.

Lemma head_app {A} (l1 l2 : list A) : head (l1 ++ l2) = match head l1 with Some x => Some x | None => head l2 end.
Proof. by destruct l1. Qed.

Lemma add_regions_fields (input : LayerSelectionIndexInput O) module layer slice regions s :
  let s' := foldl (add_region input module layer slice) s regions in
  ls_stage_id s' = ls_stage_id s /\ ls_invoke s' = ls_invoke s /\
  ls_invocation_config s' = ls_invocation_config s /\
  ls_support_plan_presence s' = ls_support_plan_presence s /\
  ls_targets s' = ls_targets s ++ omap (model_target input module layer slice) regions /\
  ls_slice_regions s' = ls_slice_regions s ++ (handle_of <$> selected_on input module layer slice regions) /\
  ls_perimeter_configs s' =
    foldl (fun m e => <[e.1 := e.2]> m) (ls_perimeter_configs s)
      (origin_views input module layer (selected_on input module layer slice regions)).
Proof.
  cbv zeta. revert s. induction regions as [|r regions IH]; intros s; cbn [foldl omap list_omap].
  { by rewrite !app_nil_r. }
  destruct (IH (add_region input module layer slice s r)) as (-> & -> & -> & -> & -> & -> & ->).
  unfold add_region, selected_on. rewrite filter_cons.
  destruct (model_target input module layer slice r) as [t|] eqn:Ht.
  - rewrite decide_True by done. cbn [push_slice_region push_target insert_perimeter_config ls_stage_id ls_invoke
      ls_invocation_config ls_support_plan_presence ls_targets ls_slice_regions ls_perimeter_configs].
    rewrite fmap_cons, <- !(assoc_L (++)). split_and!; [done.. |].
    unfold origin_views. cbn [omap list_omap].
    unfold model_target in Ht. destruct (resolved_at _ _) as [resolved|]; cbn in Ht; [|done].
    destruct (module_claims_match_active_region _ _); [|done]. by injection Ht as <-.
  - by rewrite decide_False by (by intros [? ?]).
Qed.

Lemma add_perimeters_fields (input : LayerSelectionIndexInput O) module layer regions s :
  let s' := foldl (add_perimeter input module layer) s regions in
  ls_stage_id s' = ls_stage_id s /\ ls_invoke s' = ls_invoke s /\
  ls_invocation_config s' = ls_invocation_config s /\
  ls_support_plan_presence s' = ls_support_plan_presence s /\
  ls_targets s' = ls_targets s /\ ls_slice_regions s' = ls_slice_regions s /\
  ls_perimeter_configs s' =
    foldl (fun m e => <[e.1 := e.2]> m) (ls_perimeter_configs s) (origin_views input module layer regions).
Proof.
  cbv zeta. revert s. induction regions as [|r regions IH]; intros s; cbn [foldl]; [done |].
  destruct (IH (add_perimeter input module layer s r)) as (-> & -> & -> & -> & -> & -> & ->).
  unfold add_perimeter, origin_views. cbn [omap list_omap]. by destruct (resolved_at _ _).
Qed.

Lemma push_targets_fields ts s :
  let s' := foldl push_target s ts in
  ls_stage_id s' = ls_stage_id s /\ ls_invoke s' = ls_invoke s /\
  ls_invocation_config s' = ls_invocation_config s /\
  ls_support_plan_presence s' = ls_support_plan_presence s /\
  ls_targets s' = ls_targets s ++ ts /\ ls_slice_regions s' = ls_slice_regions s /\
  ls_perimeter_configs s' = ls_perimeter_configs s.
Proof.
  cbv zeta. revert s. induction ts as [|t ts IH]; intros s; cbn [foldl]; [by rewrite app_nil_r |].
  destruct (IH (push_target s t)) as (-> & -> & -> & -> & -> & -> & ->). cbn.
  by rewrite <- (assoc_L (++)).
Qed.

Lemma foldl_map {A B S} (g : S -> B -> S) (h : A -> B) (l : list A) s :
  foldl (fun s x => g s (h x)) s l = foldl g s (h <$> l).
Proof. revert s. induction l as [|x l IH]; intros s; cbn; [done | apply IH]. Qed.

Lemma omap_map {A B C} (g : B -> option C) (h : A -> B) (l : list A) :
  omap (fun x => g (h x)) l = omap g (h <$> l).
Proof. induction l as [|x l IH]; cbn; [done |]. by rewrite IH. Qed.

Lemma build_layer_spec (input : LayerSelectionIndexInput O) module layer slice regions perimeters cache :
  map_in_range (si_region_map input) -> cache_ok (si_region_map input) module cache ->
  candidates boolean_op_tree_64 module slice = Done regions ->
  let handles := perimeter_handle <$> flat_map LayerIr.per_regions perimeters in
  match first_missing input module layer slice regions handles with
  | Some address => build_layer boolean_op_tree_64 input module layer slice perimeters cache =
                      Done (Err (MissingModelConfig address))
  | None => exists cache', build_layer boolean_op_tree_64 input module layer slice perimeters cache =
              Done (Ok (layer_selection input module layer slice regions handles, cache')) /\
              cache_ok (si_region_map input) module cache'
  end.
Proof.
  intros Hrange Hc Hcand handles. unfold build_layer, first_missing, layer_selection. rewrite Hcand.
  destruct (match lsm_paint_semantics module with Some p => _ | None => false end); [by exists cache |].
  cbn [exec_bind]. set (g := gl_index layer).
  pose proof (fold_exec_checked (select_region (si_region_map input) module g slice)
    (cache_ok (si_region_map input) module) (fun r => MissingModelConfig <$> missing_config input g r)
    (add_region input module g slice) regions (blank_selection input module) cache
    (fun s c r => select_region_step input module g slice s c r Hrange) Hc) as H1.
  rewrite omap_fmap_head in H1. rewrite omap_app, head_app.
  destruct (head (omap (missing_config input g) regions)) as [address|]; cbn [fmap option_fmap option_map] in H1;
    [by rewrite H1 |].
  destruct H1 as (cache1 & -> & Hc1). cbn [exec_bind].
  pose proof (fold_exec_checked (select_perimeter (si_region_map input) module g)
    (cache_ok (si_region_map input) module) (fun r => MissingModelConfig <$> missing_config input g (perimeter_handle r))
    (fun s r => add_perimeter input module g s (perimeter_handle r)) (flat_map LayerIr.per_regions perimeters)
    (foldl (add_region input module g slice) (blank_selection input module) regions) cache1
    (fun s c r => select_perimeter_step input module g s c r Hrange) Hc1) as H2.
  rewrite omap_fmap_head, (omap_map _ perimeter_handle), (foldl_map (add_perimeter input module g) perimeter_handle) in H2. fold handles in H2.
  destruct (head (omap (missing_config input g) handles)) as [address|]; cbn [fmap option_fmap option_map] in H2;
    [by rewrite H2 |].
  destruct H2 as (cache2 & -> & Hc2). cbn [exec_bind]. exists cache2. split; [|done]. do 3 f_equal.
  destruct (add_regions_fields input module g slice regions (blank_selection input module)) as (A1 & A2 & A3 & A4 & A5 & A6 & A7).
  set (s1 := foldl (add_region input module g slice) _ regions) in *.
  destruct (add_perimeters_fields input module g handles s1) as (B1 & B2 & B3 & B4 & B5 & B6 & B7).
  set (s2 := foldl (add_perimeter input module g) s1 handles) in *.
  destruct (push_targets_fields (host_targets input module layer slice) s2) as (C1 & C2 & C3 & C4 & C5 & C6 & C7).
  set (s3 := foldl push_target s2 _) in *.
  assert (Hconf : ls_perimeter_configs s3 = map_collect (origin_views input module g
            (selected_on input module g slice regions ++ handles))).
  { rewrite C7, B7, A7. unfold map_collect, origin_views. by rewrite omap_app, foldl_app. }
  assert (Htargets : ls_targets s3 = omap (model_target input module g slice) regions ++
            host_targets input module layer slice) by (by rewrite C5, B5, A5).
  assert (Hslices : ls_slice_regions s3 = handle_of <$> selected_on input module g slice regions) by (by rewrite C6, B6, A6).
  rewrite <- Hconf, <- Htargets, <- Hslices.
  rewrite B1, A1 in C1. rewrite B2, A2 in C2. rewrite B3, A3 in C3. rewrite B4, A4 in C4.
  clearbody s3. destruct s3 as [f1 f2 f3 f4 f5 f6 f7]. cbn in C1, C2, C3, C4 |- *. subst f1 f2 f3 f4.
  by destruct (existsb (starts_with "support-family:") (lsm_claims module)).
Qed.

(** *** The regions a perimeter module gets always exist *)

Lemma candidates_done module slice :
  exists regions, candidates boolean_op_tree_64 module slice = Done regions.
Proof.
  unfold candidates. destruct slice as [s|]; [|by eexists]. destruct (String.eqb _ _); [|by eexists].
  unfold perimeter_source_regions. set (subs := filter (fun r => is_sub_region r = true) (sl_regions s)).
  assert (Hsubs : forall m, m ∈ subs -> is_sub_region m = true) by (by intros m [Hm _]%list_elem_of_filter).
  clearbody subs. generalize (filter (fun r => negb (is_footprint r) && negb (is_sub_region r) = true) (sl_regions s)).
  induction subs as [|m subs IH]; intros regions; cbn; [by eexists |].
  unfold restore_sub, modifier_base_region_id. pose proof (Hsubs m (list_elem_of_here _ _)) as Hm.
  unfold is_sub_region in Hm. rewrite Hm. cbn. apply IH. intros x Hx. apply Hsubs. by right.
Qed.

(** *** The whole print *)

Definition slice_at (input : LayerSelectionIndexInput O) (layer : GlobalLayer) : option LayerIr.SliceIR :=
  slices_by_layer (si_slices input) !! gl_index layer.

Definition regions_at (input : LayerSelectionIndexInput O) (module : LayerSelectionModuleInput) (layer : GlobalLayer)
    : list SlicedRegion :=
  match candidates boolean_op_tree_64 module (slice_at input layer) with Done regions => regions | _ => [] end.

Definition perimeters_at (input : LayerSelectionIndexInput O) (layer : GlobalLayer) : list SlicedRegion :=
  perimeter_handle <$> flat_map LayerIr.per_regions
    (default [] (perimeters_by_layer (si_perimeters input) !! gl_index layer)).

(** The entry of a module on a layer, and the region that keeps it from being made. *)
Definition entry (input : LayerSelectionIndexInput O) (module : LayerSelectionModuleInput) (layer : GlobalLayer)
    : LayerSelection :=
  layer_selection input module layer (slice_at input layer) (regions_at input module layer) (perimeters_at input layer).
Definition blocked (input : LayerSelectionIndexInput O) (module : LayerSelectionModuleInput) (layer : GlobalLayer)
    : option RegionKey :=
  first_missing input module layer (slice_at input layer) (regions_at input module layer) (perimeters_at input layer).

Definition bound_pair : Type := LayerSelectionModuleInput * GlobalLayer.
Definition pair_key (p : bound_pair) : Z * string := (gl_index p.2, lsm_module_id p.1).
Definition bound_pairs (input : LayerSelectionIndexInput O) : list bound_pair :=
  flat_map (fun m => (fun layer => (m, layer)) <$> si_global_layers input) (si_modules input).

Definition build_error (module : LayerSelectionModuleInput) (e : SelectionError) : LayerSelectionBuildError :=
  {| lbe_error := e; lbe_stage_id := lsm_stage_id module; lbe_module_id := lsm_module_id module |}.

(** The index has the entries of these pairs and nothing else. *)
Definition holds (input : LayerSelectionIndexInput O) (index : LayerSelectionIndex) (pairs : list bound_pair) : Prop :=
  forall g m s, selection_for index g m = Some s <->
    exists p, p ∈ pairs /\ pair_key p = (g, m) /\ s = entry input p.1 p.2.

Lemma insert_selection_spec index g m s :
  selection_for index g m = None ->
  exists index', insert_selection index g m s = Done index' /\
    forall g' m', selection_for index' g' m' = if decide ((g', m') = (g, m)) then Some s else selection_for index g' m'.
Proof using.
  intros Hnone. unfold insert_selection, selection_for in *.
  assert (Hm : default ∅ (selections index !! g) !! m = None).
  { destruct (selections index !! g); cbn in *; [done | apply lookup_empty]. }
  rewrite Hm. eexists. split; [done |]. intros g' m'. cbn [selections].
  destruct (decide (g' = g)) as [-> | Hg]; [rewrite lookup_insert_eq | rewrite lookup_insert_ne by done]; cbn.
  - destruct (decide (m' = m)) as [-> | Hne].
    + by rewrite decide_True, lookup_insert_eq.
    + rewrite decide_False, lookup_insert_ne by congruence. destruct (selections index !! g); cbn; [done | apply lookup_empty].
  - by rewrite decide_False by congruence.
Qed.

Lemma holds_insert input index pairs p :
  holds input index pairs -> pair_key p ∉ pair_key <$> pairs ->
  exists index', insert_selection index (gl_index p.2) (lsm_module_id p.1) (entry input p.1 p.2) = Done index' /\
    holds input index' (pairs ++ [p]).
Proof using.
  intros Hh Hfresh. assert (Hnone : selection_for index (gl_index p.2) (lsm_module_id p.1) = None).
  { destruct (selection_for _ _ _) as [s|] eqn:Hs; [|done]. apply Hh in Hs as (q & Hq & Hk & _).
    destruct Hfresh. apply list_elem_of_fmap. by exists q. }
  destruct (insert_selection_spec index _ _ (entry input p.1 p.2) Hnone) as (index' & -> & Hsel).
  exists index'. split; [done |]. intros g m s. rewrite Hsel.
  setoid_rewrite elem_of_app. setoid_rewrite list_elem_of_singleton. case_decide as Hgm.
  - injection Hgm as -> ->. split.
    + intros [= <-]. exists p. auto.
    + intros (q & [Hq | ->] & Hk & ->); [|done]. destruct Hfresh. apply list_elem_of_fmap. exists q.
      by unfold pair_key in *.
  - rewrite (Hh g m s). split; [intros (q & ? & ? & ?); eauto 10 |].
    intros (q & [Hq | ->] & Hk & ->); [eauto | by destruct Hgm].
Qed.

Lemma build_at (input : LayerSelectionIndexInput O) module layer cache :
  map_in_range (si_region_map input) -> cache_ok (si_region_map input) module cache ->
  match blocked input module layer with
  | Some address => build_layer boolean_op_tree_64 input module layer (slice_at input layer)
                      (default [] (perimeters_by_layer (si_perimeters input) !! gl_index layer)) cache =
                    Done (Err (MissingModelConfig address))
  | None => exists cache', build_layer boolean_op_tree_64 input module layer (slice_at input layer)
                      (default [] (perimeters_by_layer (si_perimeters input) !! gl_index layer)) cache =
              Done (Ok (entry input module layer, cache')) /\ cache_ok (si_region_map input) module cache'
  end.
Proof using.
  intros Hr Hc. destruct (candidates_done module (slice_at input layer)) as [regions Hregions].
  unfold blocked, entry, regions_at, perimeters_at. rewrite Hregions. by apply build_layer_spec.
Qed.

(** All layers of one module. *)
Lemma select_layers_spec (input : LayerSelectionIndexInput O) module layers index pairs cache :
  map_in_range (si_region_map input) -> cache_ok (si_region_map input) module cache -> holds input index pairs ->
  NoDup (pair_key <$> (pairs ++ ((fun layer => (module, layer)) <$> layers))) ->
  (exists index' cache', fold_exec (select_layer boolean_op_tree_64 input module) (index, cache) layers =
     Done (Ok (index', cache')) /\ holds input index' (pairs ++ ((fun layer => (module, layer)) <$> layers)) /\
     forall layer, layer ∈ layers -> blocked input module layer = None) \/
  (exists layer address, layer ∈ layers /\ blocked input module layer = Some address /\
     fold_exec (select_layer boolean_op_tree_64 input module) (index, cache) layers =
       Done (Err (build_error module (MissingModelConfig address)))).
Proof using.
  intros Hr. revert index pairs cache. induction layers as [|layer layers IH]; intros index pairs cache Hc Hh Hnd; cbn.
  { left. exists index, cache. rewrite app_nil_r. split; [done |]. split; [done |]. set_solver. }
  pose proof (build_at input module layer cache Hr Hc) as Hb. fold (slice_at input layer).
  destruct (blocked input module layer) as [address|] eqn:Hblock.
  { right. exists layer, address. rewrite Hb. split; [left |]. done. }
  destruct Hb as (cache' & -> & Hc'). cbn [exec_bind].
  destruct (holds_insert input index pairs (module, layer) Hh) as (index' & Hins & Hh').
  { rewrite fmap_app in Hnd. cbn in Hnd. apply NoDup_app in Hnd as (_ & Hd & _). intros Hin. apply (Hd _ Hin). left. }
  cbn [fst snd] in Hins. rewrite Hins. cbn [exec_bind].
  destruct (IH index' (pairs ++ [(module, layer)]) cache' Hc' Hh') as
    [(index2 & cache2 & -> & Hh2 & Hall) | (layer' & address & Hin & Hbl & ->)].
  - rewrite <- (assoc_L (++)). done.
  - left. exists index2, cache2. split; [done |]. rewrite <- (assoc_L (++)) in Hh2. split; [done |].
    intros l [-> | Hl]%elem_of_cons; auto.
  - right. exists layer', address. split; [by right |]. done.
Qed.

(** All modules. *)
Lemma select_modules_spec (input : LayerSelectionIndexInput O) modules index pairs :
  map_in_range (si_region_map input) -> holds input index pairs ->
  let new := flat_map (fun m => (fun layer => (m, layer)) <$> si_global_layers input) modules in
  NoDup (pair_key <$> (pairs ++ new)) ->
  (exists index', fold_exec (select_module boolean_op_tree_64 input) index modules = Done (Ok index') /\
     holds input index' (pairs ++ new) /\
     (forall m, m ∈ modules -> is_layer_stage (si_stage_roster input) (lsm_stage_id m) = true) /\
     forall p, p ∈ new -> blocked input p.1 p.2 = None) \/
  (exists m e, m ∈ modules /\ fold_exec (select_module boolean_op_tree_64 input) index modules = Done (Err (build_error m e)) /\
     ((e = UnknownLayerStage (lsm_stage_id m) /\ is_layer_stage (si_stage_roster input) (lsm_stage_id m) = false) \/
      exists layer address, layer ∈ si_global_layers input /\ blocked input m layer = Some address /\
        e = MissingModelConfig address)).
Proof using.
  intros Hr. revert index pairs. induction modules as [|m modules IH]; intros index pairs Hh; cbn zeta; cbn [flat_map fold_exec].
  { intros _. left. exists index. rewrite app_nil_r. split_and!; [done | done | set_solver | set_solver]. }
  intros Hnd. unfold select_module at 1 3. destruct (is_layer_stage _ (lsm_stage_id m)) eqn:Hstage; cbn [negb exec_bind].
  2: { right. exists m, (UnknownLayerStage (lsm_stage_id m)). split; [left |]. split; [done |]. by left. }
  rewrite (assoc_L (++)), fmap_app in Hnd. pose proof (proj1 (proj1 (NoDup_app _ _) Hnd)) as Hnd1. rewrite <- fmap_app in Hnd.
  destruct (select_layers_spec input m (si_global_layers input) index pairs ∅ Hr (cache_ok_empty _ _) Hh Hnd1)
    as [(index1 & cache1 & -> & Hh1 & Hall) | (layer & address & Hl & Hbl & ->)]; cbn [exec_bind fst].
  - destruct (IH index1 _ Hh1 Hnd) as [(index2 & -> & Hh2 & Hst & Hb) | (m' & e & Hm' & -> & He)].
    + left. exists index2. rewrite <- (assoc_L (++)) in Hh2. split; [done |]. split; [done |]. split.
      * intros m' [-> | Hm']%elem_of_cons; auto.
      * intros p [Hp | Hp]%elem_of_app; [|by apply Hb]. apply list_elem_of_fmap in Hp as (layer & -> & Hlayer). by apply Hall.
    + right. exists m', e. split; [by right |]. done.
  - right. exists m, (MissingModelConfig address). split; [left |]. split; [done |]. right. eauto.
Qed.

(** What the index of a whole print is to be: one entry for every bound pair and no other,
    or an error that names the module and, when a configuration is absent, its address. *)
Definition index_meets_spec (input : LayerSelectionIndexInput O)
    (built : exec (result LayerSelectionIndex LayerSelectionBuildError)) : Prop :=
  match built with
  | Done (Ok index) =>
      (forall module layer, module ∈ si_modules input -> layer ∈ si_global_layers input ->
         is_layer_stage (si_stage_roster input) (lsm_stage_id module) = true /\ blocked input module layer = None /\
         selection_for index (gl_index layer) (lsm_module_id module) = Some (entry input module layer)) /\
      (forall g m s, selection_for index g m = Some s ->
         exists module layer, module ∈ si_modules input /\ layer ∈ si_global_layers input /\
           gl_index layer = g /\ lsm_module_id module = m)
  | Done (Err e) =>
      exists module, module ∈ si_modules input /\ e = build_error module (lbe_error e) /\
        ((lbe_error e = UnknownLayerStage (lsm_stage_id module) /\
          is_layer_stage (si_stage_roster input) (lsm_stage_id module) = false) \/
         exists layer address, layer ∈ si_global_layers input /\ blocked input module layer = Some address /\
           lbe_error e = MissingModelConfig address)
  | _ => False
  end.

Lemma built_index_meets_spec (input : LayerSelectionIndexInput O) :
  map_in_range (si_region_map input) -> NoDup (pair_key <$> bound_pairs input) ->
  index_meets_spec input (build_layer_selection_index boolean_op_tree_64 input).
Proof using.
  intros Hmap Honce. unfold index_meets_spec.
  unfold build_layer_selection_index.
  assert (Hh : holds input {| selections := ∅ |} []).
  { intros g m s. unfold selection_for. cbn. rewrite lookup_empty. split; [done | intros (p & Hp & _); set_solver]. }
  assert (Hin : forall module layer, module ∈ si_modules input -> layer ∈ si_global_layers input ->
                  (module, layer) ∈ bound_pairs input).
  { intros module layer Hm Hl. apply list_elem_of_In, in_flat_map. exists module. split; [by apply list_elem_of_In |].
    apply list_elem_of_In. apply list_elem_of_fmap. eauto. }
  destruct (select_modules_spec input (si_modules input) _ [] Hmap Hh Honce)
    as [(index & -> & Hidx & Hst & Hb) | (m & e & Hm & -> & He)].
  - split.
    + intros module layer Hm Hl. split; [by apply Hst |]. split; [by apply (Hb (module, layer)), Hin |].
      apply Hidx. exists (module, layer). split; [by apply Hin | done].
    + intros g m s (p & Hp & Hk & _)%Hidx. apply list_elem_of_In, in_flat_map in Hp as (module & Hm & Hp).
      apply list_elem_of_In, list_elem_of_fmap in Hp as (layer & -> & Hl). injection Hk as <- <-.
      exists module, layer. by split; [apply list_elem_of_In |].
  - exists m. split; [done |]. split; [done |]. destruct He as [He | He]; [by left | by right].
Qed.

(** [C5].  The index of the whole print.  When no layer and module are bound twice and the region
    map names pooled configurations only, the construction never panics.  It succeeds with
    exactly one entry for every bound pair, the entry of the specification: the cache of
    projected configurations is invisible.  It fails, without an index, only for a module
    whose stage is no layer stage of the table, or for the first region of a layer whose
    exact configuration is absent, and names that module and region. *)
Theorem selection_index_refines (input : LayerSelectionIndexInput O)
    (Hmap : map_in_range (si_region_map input)) (Honce : NoDup (pair_key <$> bound_pairs input)) :
  match build_layer_selection_index boolean_op_tree_64 input with
  | Done (Ok index) =>
      (forall module layer, module ∈ si_modules input -> layer ∈ si_global_layers input ->
         is_layer_stage (si_stage_roster input) (lsm_stage_id module) = true /\ blocked input module layer = None /\
         selection_for index (gl_index layer) (lsm_module_id module) = Some (entry input module layer)) /\
      (forall g m s, selection_for index g m = Some s ->
         exists module layer, module ∈ si_modules input /\ layer ∈ si_global_layers input /\
           gl_index layer = g /\ lsm_module_id module = m)
  | Done (Err e) =>
      exists module, module ∈ si_modules input /\ e = build_error module (lbe_error e) /\
        ((lbe_error e = UnknownLayerStage (lsm_stage_id module) /\
          is_layer_stage (si_stage_roster input) (lsm_stage_id module) = false) \/
         exists layer address, layer ∈ si_global_layers input /\ blocked input module layer = Some address /\
           lbe_error e = MissingModelConfig address)
  | _ => False
  end.
Proof using.
  by apply built_index_meets_spec.
Qed.
End index_spec.

(** ** Handles of support carriers *)

Section carriers.
Context {O : OtherProducts}.
#[local] Existing Instance selection_types.
#[local] Existing Instance layer_types.

Definition entry_origin (e : SupportPlanEntry) : source_key := (sup_object_id e, sup_region_id e, sup_variant_chain e).

Lemma same_origin_spec e r : same_origin e r = true <-> slice_key r = entry_origin e.
Proof.
  unfold same_origin, slice_key, entry_origin. rewrite !andb_true_iff, String.eqb_eq, Z.eqb_eq, bool_decide_eq_true.
  split; [by intros [[-> ->] ->] | by intros [= -> -> ->]].
Qed.

Lemma same_origin_existsb e l : existsb (same_origin e) l = true <-> entry_origin e ∈ slice_key <$> l.
Proof.
  rewrite existsb_elem, list_elem_of_fmap. setoid_rewrite same_origin_spec.
  split; intros (r & ? & ?); exists r; split; auto.
Qed.

(** The handles have the origins of the entries, each once. *)
Lemma push_carriers_spec slice es carriers :
  NoDup (slice_key <$> carriers) ->
  let out := foldl (push_carrier slice) carriers es in
  NoDup (slice_key <$> out) /\
  forall k, k ∈ slice_key <$> out <-> k ∈ slice_key <$> carriers \/ k ∈ entry_origin <$> es.
Proof.
  revert carriers. induction es as [|e es IH]; intros carriers Hnd; cbn [foldl fmap list_fmap]; [split; [done | set_solver] |].
  assert (Hstep : NoDup (slice_key <$> push_carrier slice carriers e) /\
    forall k, k ∈ slice_key <$> push_carrier slice carriers e <-> k ∈ slice_key <$> carriers \/ k = entry_origin e).
  { unfold push_carrier. destruct (existsb (same_origin e) carriers) eqn:He.
    - apply same_origin_existsb in He. split; [done |]. intros k. split; [by left |]. by intros [? | ->].
    - rewrite fmap_app. cbn [fmap list_fmap]. change (slice_key (region_handle _ _ _ _)) with (entry_origin e). split.
      + apply NoDup_app. split; [done |]. split; [|apply NoDup_singleton]. intros k Hk ->%list_elem_of_singleton.
        apply same_origin_existsb in Hk. congruence.
      + intros k. by rewrite elem_of_app, list_elem_of_singleton. }
  destruct Hstep as [H1 H2]. destruct (IH _ H1) as [H3 H4]. split; [done |]. intros k.
  rewrite H4, H2, elem_of_cons. tauto.
Qed.

(** The handles of the support carriers of a layer come sorted by object and region, one
    for every origin with an eligible entry: an entry for this layer that was not declined,
    has printable polygons, belongs to a family the module claims, and whose exact origin
    (object, region and paint chain) the slice does not have. *)
Theorem carrier_handles_exact (claims : list string) (layer : Z) (plan : SupportPlanIR) (slice : option LayerIr.SliceIR) :
  let out := support_carrier_regions claims layer (Some plan) slice in
  NoDup (slice_key <$> out) /\ sorted_by carrier_leb out /\
  forall k, k ∈ slice_key <$> out <->
    exists e, e ∈ sup_entries plan /\ entry_origin e = k /\ is_carrier claims layer slice e = true.
Proof.
  cbv zeta. unfold support_carrier_regions.
  set (es := snd <$> eligible_carrier_entries claims layer (Some plan) slice).
  destruct (push_carriers_spec slice es [] ltac:(constructor)) as [Hnd Hin].
  set (out := foldl (push_carrier slice) [] es) in *. split_and!.
  - by rewrite sort_by_perm.
  - apply sort_by_sorted; unfold carrier_leb; intros; [by eapply rust_leb_trans | apply rust_leb_total].
  - intros k. rewrite sort_by_perm, Hin. unfold es, eligible_carrier_entries. rewrite !list_elem_of_fmap.
    setoid_rewrite list_elem_of_fmap. setoid_rewrite list_elem_of_filter. split.
    + intros [H | (e & -> & [i e'] & -> & Hc & He)]; [set_solver |]. apply elem_of_enumerate in He.
      exists e'. split; [by eapply list_elem_of_lookup_2 | done].
    + intros (e & (i & Hi)%list_elem_of_lookup & <- & Hc). right. exists e. split; [done |].
      exists (i, e). split; [done |]. split; [done |]. by apply elem_of_enumerate.
Qed.
End carriers.

(** ** The executor always finds its selection *)

Section indexed.
Context {O : OtherProducts}.
#[local] Existing Instance selection_types.
#[local] Existing Instance layer_types.
Context (boolean_op_tree_64 : ClipOperation -> list (list Point2) -> list (list Point2) -> PolyPath).
Context (show_selection_error : SelectionError -> string) (show_commit_error : LayerSelectionIndexCommitError -> string).
Context (show_stage_error : LayerStageError -> string).
Context (run : StageId -> GlobalLayer -> CompiledModuleStatic -> LayerStageInput LayerSelection -> stage_run).

Definition module_input (stage : CompiledStage) (m : CompiledModuleStatic) : LayerSelectionModuleInput :=
  {| lsm_stage_id := cs_stage_id stage; lsm_module_id := cm_module_id m; lsm_claims := cm_claims m;
     lsm_paint_semantics := Some (cm_region_split_semantics m); lsm_invocation_config := cm_config_view m |}.

Lemma indexed_stage_is_selected stage_id :
  is_indexed_module_stage stage_id = true ->
  existsb (fun s => String.eqb (sg_stage_id s) stage_id && String.eqb (sg_tier_id s) "layer") STAGES = true.
Proof.
  unfold is_indexed_module_stage. rewrite !existsb_elem. intros (s & Hs & Hc). exists s. split; [done |].
  by apply andb_true_iff in Hc as [Hc _].
Qed.

(** [C29].  The interface of the executor holds of the index: once the index was built from a plan
    and committed, the executor, asking for any module of any stage on any layer of that
    plan, never meets its internal inconsistency errors.  It gets the entry of the
    specification for a module of an indexed stage, and none for a stage outside of the
    table. *)
Theorem bound_modules_always_selected (plan : ExecutionPlan) (bb bb' : Blackboard)
    (Hmap : map_in_range (region_map bb)) (Honce : NoDup (pair_key <$> bound_pairs (selection_input plan bb)))
    (Hbuild : build_and_commit_layer_selection_index boolean_op_tree_64 show_selection_error show_commit_error plan bb =
              Done (bb', Ok tt))
    (stage : CompiledStage) (module : CompiledModuleStatic) (layer : GlobalLayer)
    (Hstage : stage ∈ ep_per_layer_stages plan) (Hmodule : module ∈ cs_modules stage)
    (Hlayer : layer ∈ ep_global_layers plan) :
  @select selection_types (indexed_host run) show_stage_error bb' (cs_stage_id stage) layer (cm_module_id module) =
  Ok (if is_indexed_module_stage (cs_stage_id stage)
      then Some (entry boolean_op_tree_64 (selection_input plan bb) (module_input stage module) layer) else None).
Proof.
  unfold select. change (@LayerRun.is_indexed_module_stage selection_types (indexed_host run) (cs_stage_id stage)) with (is_indexed_module_stage (cs_stage_id stage)).
  destruct (is_indexed_module_stage (cs_stage_id stage)) eqn:Hidx; [|done]. cbn [negb].
  unfold build_and_commit_layer_selection_index in Hbuild.
  pose proof (built_index_meets_spec boolean_op_tree_64 (selection_input plan bb) Hmap Honce) as Hspec.
  unfold index_meets_spec in Hspec. destruct (build_layer_selection_index boolean_op_tree_64 (selection_input plan bb)) as [[index|e]| |];
    cbn [exec_bind] in Hbuild; [|discriminate Hbuild..].
  unfold commit_layer_selection_index in Hbuild. destruct (layer_selection_index bb); [discriminate Hbuild |].
  injection Hbuild as <-. cbn [set_layer_selection_index layer_selection_index].
  assert (Hin : module_input stage module ∈ si_modules (selection_input plan bb)).
  { apply list_elem_of_In, in_flat_map. exists stage. split.
    - apply list_elem_of_In, list_elem_of_filter. split; [by apply indexed_stage_is_selected | done].
    - apply list_elem_of_In, list_elem_of_fmap. by exists module. }
  destruct Hspec as [Hentry _]. destruct (Hentry (module_input stage module) layer Hin Hlayer) as (_ & _ & He).
  change (@LayerRun.selection_for selection_types (indexed_host run) index (gl_index layer) (cm_module_id module)) with
    (selection_for index (gl_index layer) (cm_module_id module)).
  cbn [module_input lsm_module_id] in He. by rewrite He.
Qed.
End indexed.

(** ** Samples *)

#[local] Instance sample_products : OtherProducts := {|
  op_mesh := unit; op_surface_classification := unit; op_layer_plan := unit; op_support_geometry := unit;
  op_support_analysis := unit; op_scored_seam_candidate := unit; op_support_plan_skeleton := unit;
  op_prepared_region_data := unit |}.
#[local] Existing Instance selection_types.
#[local] Existing Instance layer_types.

Definition red_chain : VariantChain := [("material", PaintToolIndex 2)].

(** The region of the red variant of region 1. *)
Definition red_region : SlicedRegion := region_handle "cube" 1000003 red_chain (F32 0).

Definition red_slice : LayerIr.SliceIR := sample_slice [red_region].

(** The map knows region 1 in red. *)
Definition red_map : RegionMap.RegionMapIR :=
  {| rm_schema_version := SemVer_default;
     rm_entries := [({| rk_global_layer_index := 0; rk_object_id := "cube"; rk_region_id := 1;
                        rk_variant_chain := red_chain |}, sample_plan_entry 0)];
     rm_configs := [RegionMap.sample_config "lines"] |}.

Definition lines_module : CompiledModuleStatic := {|
  cm_module_id := "com.core.lines"; cm_ir_read_mask := {| paths := [] |}; cm_ir_write_mask := {| paths := [] |};
  cm_config_view := {| cv_fields := ∅ |}; cm_claims := ["claim:sparse-fill"]; cm_requires_modules := [];
  cm_region_split_semantics := {["material"]} |}.

Definition lines_stage : CompiledStage := {| cs_stage_id := "Layer::Infill"; cs_modules := [lines_module] |}.

Definition selection_plan : ExecutionPlan := {|
  ep_prepass_stages := []; ep_per_layer_stages := [lines_stage];
  ep_layer_finalization_stage := None; ep_postpass_stages := []; ep_global_layers := [run_layer]; ep_region_plans := [];
  ep_module_region_index := ∅; ep_aggregated_region_split := ∅ |}.

Definition selection_blackboard : Blackboard := {|
  mesh_ir := tt; surface_classification := None; layer_plan := None; seam_plan := None; support_plan := None;
  region_map := Some red_map; slice_ir := Some [red_slice]; layer_selection_index := None;
  support_geometry := None; support_analysis := None; layer_outputs := None |}.

Lemma red_map_in_range : map_in_range (Some red_map).
Proof.
  intros map [= <-] e He. cbn [rm_entries red_map] in He. apply list_elem_of_singleton in He as ->.
  by exists (RegionMap.sample_config "lines").
Qed.

Lemma red_pairs_once : NoDup (pair_key <$> bound_pairs (selection_input selection_plan selection_blackboard)).
Proof. repeat constructor; set_solver. Qed.

Lemma selection_index_refines_witness :
  exists index, build_layer_selection_index coarse_op (selection_input selection_plan selection_blackboard) = Done (Ok index) /\
    exists s, selection_for index 0 "com.core.lines" = Some s /\ ls_invoke s = true /\
      (tg_held_claims <$> ls_targets s) = [["claim:sparse-fill"]].
Proof.
  pose proof (selection_index_refines coarse_op (selection_input selection_plan selection_blackboard)
    red_map_in_range red_pairs_once) as H.
  destruct (build_layer_selection_index coarse_op (selection_input selection_plan selection_blackboard))
    as [[index|e]| |] eqn:Hb; [|exfalso; vm_compute in Hb; discriminate Hb..].
  exists index. split; [reflexivity |]. destruct H as [Hentry _].
  destruct (Hentry (module_input lines_stage lines_module) run_layer) as (_ & _ & He);
    [apply list_elem_of_singleton; vm_compute; reflexivity | apply list_elem_of_singleton; reflexivity |].
  eexists. split; [exact He |]. split; vm_compute; reflexivity.
Defined.

Lemma bound_modules_always_selected_witness :
  exists bb', build_and_commit_layer_selection_index coarse_op (fun _ => "") (fun _ => "")
      selection_plan selection_blackboard = Done (bb', Ok tt) /\
    exists s, @select selection_types (indexed_host (fun _ _ _ _ =>
        {| run_result := Ok None; last_runtime_reads := []; last_batch_calls := [] |})) (fun _ => "") bb'
        "Layer::Infill" run_layer "com.core.lines" = Ok (Some s).
Proof.
  destruct (build_and_commit_layer_selection_index coarse_op (fun _ => "") (fun _ => "")
      selection_plan selection_blackboard) as [[bb' [[]|e]]| |] eqn:Hb; [|exfalso; vm_compute in Hb; discriminate Hb..].
  exists bb'. split; [reflexivity |].
  assert (Hi : is_indexed_module_stage (cs_stage_id lines_stage) = true) by (vm_compute; reflexivity).
  pose proof (bound_modules_always_selected coarse_op (fun _ => "") (fun _ => "") (fun _ => "")
    (fun _ _ _ _ => {| run_result := Ok None; last_runtime_reads := []; last_batch_calls := [] |})
    selection_plan selection_blackboard bb' red_map_in_range red_pairs_once Hb lines_stage lines_module run_layer
    (list_elem_of_here _ _) (list_elem_of_here _ _) (list_elem_of_here _ _)) as H.
  rewrite Hi in H. eexists. exact H.
Defined.

Lemma perimeters_see_unsplit_regions_witness :
  exists slice' out, split_regions_by_modifier_footprints coarse_op
      (sample_slice [sample_sliced 0 [area_polygon] []]) [("cube", [area_polygon])] = Done (slice', Ok tt) /\
    perimeter_source_regions coarse_op slice' = Done out /\ length out = 1%nat.
Proof.
  destruct (split_regions_by_modifier_footprints coarse_op
      (sample_slice [sample_sliced 0 [area_polygon] []]) [("cube", [area_polygon])])
    as [[slice' [[]|e]]| |] eqn:Hs; [|exfalso; vm_compute in Hs; discriminate Hs..].
  destruct (perimeters_see_unsplit_regions coarse_op some_area coarse_laws [sample_sliced 0 [area_polygon] []]
    (NoDup_singleton _) (sample_slice [sample_sliced 0 [area_polygon] []]) slice'
    [("cube", [area_polygon])] eq_refl
    ltac:(apply Forall_singleton; split; [split; vm_compute; discriminate | vm_compute; reflexivity]) Hs) as (out & Ho & Hf).
  exists slice', out. split; [reflexivity |]. split; [exact Ho |]. symmetry. exact (Forall2_length _ _ _ Hf).
Defined.
