(* ===== verification/Projection.v ===== *)
(** Diagnostic scenes of the preparation stage
    ([slicer-wasm-host/src/preparation_projection.rs]): the typed geometry, its
    validation and the accounting of its bytes, and the instance of the preparation
    store that holds validated scenes.

    [Planar] has the exact predicates; this file adds the floating-point test of the
    coordinates, computed with the binary32 arithmetic of [SpecFloat]. *)
From Stdlib Require Import Floats.SpecFloat.
From stdpp Require Import prelude gmap strings list.
From S2P Require Import Prelude Ir Float32 PreparationStore Planar.

#[local] Open Scope string_scope.
#[local] Open Scope list_scope.
#[local] Open Scope Z_scope.

(** ** Coordinates in millimetres ([Point2::to_mm], [units_to_mm]) *)

Definition to_mm (p : Point2) : spec_float * spec_float := (units_to_mm (px p), units_to_mm (py p)).

Definition point (p : Point2) : result unit ProjectionError.t :=
  let '(x, y) := to_mm p in
  if sf_is_finite x && sf_is_finite y then Ok tt else Err ProjectionError.InvalidCoordinate.

(** ** Scenes ([slicer-sdk/src/preparation_visual.rs]) *)

Inductive PreparationProjectionGeometry :=
| GPoint (p : Point2)
| GPolyline (points : list Point2)
| GPolygon (polygon : ExPolygon) (filled : bool).

Record PreparationProjectionPrimitive := {
  primitive_id : string;
  global_layer_index : Z;
  primitive_class : string;
  label : option string;
  geometry : PreparationProjectionGeometry
}.

(** The fields of a scene beside its identifier and view. *)
Record SceneContent := {
  classes : list string;
  primitives : list PreparationProjectionPrimitive
}.

(** ** Geometry *)

Definition bytes (value : nat) : result Z ProjectionError.t :=
  if Z.of_nat value <=? u64_max then Ok (Z.of_nat value) else Err ProjectionError.ArithmeticOverflow.

Definition checked_mul_u64 (a b : Z) : option Z := if a * b <=? u64_max then Some (a * b) else None.

Definition point_bytes (points : list Point2) : result Z ProjectionError.t :=
  let? _ := for_each point points in
  let? n := bytes (length points) in
  ok_or (checked_mul_u64 n 16) ProjectionError.ArithmeticOverflow.

(** [points.windows(2).any(|w| w[0] == w[1])]. *)
Fixpoint repeats (points : list Point2) : bool :=
  match points with
  | p :: (q :: _) as rest => bool_decide (p = q) || repeats rest
  | _ => false
  end.

(** The loop over the holes that adds their bytes. *)
Fixpoint holes_bytes (n : Z) (hs : list Polygon) : result Z ProjectionError.t :=
  match hs with
  | [] => Ok n
  | h :: hs =>
      let? b := point_bytes (points h) in
      let? n := checked_add n b in
      holes_bytes n hs
  end.

Definition validate_geometry (g : PreparationProjectionGeometry) : result Z ProjectionError.t :=
  match g with
  | GPoint p => let? _ := point p in Ok 17
  | GPolyline points =>
      if Nat.ltb (length points) 2 || bool_decide (head points = last points) || repeats points
      then Err ProjectionError.InvalidShape
      else let? n := point_bytes points in checked_add 1 n
  | GPolygon polygon _ =>
      let? _ := validate_polygon point polygon in
      let? b := point_bytes (points (contour polygon)) in
      let? n := checked_add 2 b in
      holes_bytes n (holes polygon)
  end.

(** ** The request *)

Fixpoint views_ok (seen : gset string) (views : list string) : bool :=
  match views with
  | [] => true
  | view :: views =>
      negb (String.eqb view "") && negb (bool_decide (view ∈ seen)) && views_ok ({[view]} ∪ seen) views
  end.

(** [PreparationProjectionRequest::new]. *)
Definition new_request (views : list string) : result (list string) ProjectionError.t :=
  if views_ok ∅ views then Ok views else Err ProjectionError.InvalidReference.

(** ** Scenes *)

Section scenes.
Context {D I M : Type}.

Definition projection_types : PreparationTypes := {|
  PreparationDeclarationError := D;
  PreparationInputError := I;
  ModuleError := M;
  SceneBody := SceneContent
|}.
#[local] Existing Instance projection_types.

(** Inside [validate_scene] an error is a pair of the error and the field. *)
Definition located : Type := ProjectionError.t * string.

Definition at_field {A} (r : result A ProjectionError.t) (field : string) : result A located :=
  match r with Ok a => Ok a | Err e => Err (e, field) end.

Definition reference {A} (field : string) : result A located :=
  Err (ProjectionError.InvalidReference, field).

(** The loop over the classes; the result is the set of the classes. *)
Fixpoint check_classes (seen : gset string) (cs : list string) : result (gset string) located :=
  match cs with
  | [] => Ok seen
  | c :: cs =>
      if String.eqb c "" || bool_decide (c ∈ seen) then reference "classes"
      else check_classes ({[c]} ∪ seen) cs
  end.

(** The closure [string]. *)
Definition count_string (s : string) (total : Z) : result Z located :=
  at_field (let? n := bytes (String.length s) in checked_add total n) "diagnostic_bytes".

Fixpoint count_strings (ss : list string) (total : Z) : result Z located :=
  match ss with
  | [] => Ok total
  | s :: ss => let? total := count_string s total in count_strings ss total
  end.

(** The first loop over the primitives. *)
Fixpoint check_primitives (classes : gset string) (layers : gmap Z f32) (ids : gset string)
    (ps : list PreparationProjectionPrimitive) (total : Z) : result Z located :=
  match ps with
  | [] => Ok total
  | p :: ps =>
      let field := "primitive=" +:+ primitive_id p in
      if String.eqb (primitive_id p) "" || bool_decide (primitive_id p ∈ ids)
      then reference (field +:+ ".id")
      else
        match bool_decide (primitive_class p ∈ classes), layers !! global_layer_index p with
        | true, Some z =>
            if negb (f32_is_finite z) || f32_lt_zero z
            then Err (ProjectionError.InvalidCoordinate, field +:+ ".schedule_z")
            else
              let? total := count_string (primitive_id p) total in
              let? total := count_string (primitive_class p) total in
              let? total := match label p with
                            | Some l => count_string l total
                            | None => Ok total
                            end in
              check_primitives classes layers ({[primitive_id p]} ∪ ids) ps total
        | _, _ => reference (field +:+ ".class/global_layer_index")
        end
  end.

(** The second loop: the geometry, and four bytes for the layer index. *)
Fixpoint check_geometries (ps : list PreparationProjectionPrimitive) (total : Z) : result Z located :=
  match ps with
  | [] => Ok total
  | p :: ps =>
      let? n := at_field (validate_geometry (geometry p)) ("primitive=" +:+ primitive_id p +:+ ".geometry") in
      let? n := at_field (checked_add n 4) "global_layer_index" in
      let? total := at_field (checked_add total n) "diagnostic_bytes" in
      check_geometries ps total
  end.

Definition validate (scene : PreparationProjectionScene) (layers : gmap Z f32) : result Z located :=
  if String.eqb (scene_id scene) "" then reference "scene_id"
  else if String.eqb (scene_view scene) "" then reference "view"
  else
    let content : SceneContent := scene_body scene in
    let? known := check_classes ∅ (classes content) in
    let? total := count_string (scene_id scene) 0 in
    let? total := count_string (scene_view scene) total in
    let? total := count_strings (classes content) total in
    let? total := check_primitives known layers ∅ (primitives content) total in
    check_geometries (primitives content) total.

Definition validate_scene (scene : PreparationProjectionScene) (owner_module_id : string)
    (layers : gmap Z f32) : result CommittedPreparationProjection ProjectionFault :=
  match validate scene layers with
  | Ok total => Ok {| cp_scene := scene; cp_owner_module_id := owner_module_id;
                      cp_diagnostic_bytes := total; cp_layer_z := layers |}
  | Err (e, field) => Err {| pf_view := scene_view scene; pf_error := e; pf_field := field |}
  end.

End scenes.

(** ** No coordinate is rejected *)

Lemma point_finite p : Z.abs (px p) < 2 ^ 64 -> Z.abs (py p) < 2 ^ 64 -> point p = Ok tt.
Proof. intros Hx Hy. unfold point, to_mm. by rewrite !units_to_mm_finite. Qed.

(** ** What is accepted, and how many bytes it counts *)

Definition geometry_valid (g : PreparationProjectionGeometry) : Prop :=
  match g with
  | GPoint _ => True
  | GPolyline pts =>
      (2 <= length pts)%nat /\ head pts <> last pts /\
      forall i p q, pts !! i = Some p -> pts !! S i = Some q -> p <> q
  | GPolygon polygon _ => valid_polygon polygon
  end.

Definition sum_with {A} (f : A -> Z) (l : list A) : Z := foldr (fun x s => f x + s) 0 l.

Definition ring_bytes (h : Polygon) : Z := 16 * Z.of_nat (length (points h)).

Definition geometry_bytes (g : PreparationProjectionGeometry) : Z :=
  match g with
  | GPoint _ => 17
  | GPolyline pts => 1 + 16 * Z.of_nat (length pts)
  | GPolygon polygon _ => 2 + ring_bytes (contour polygon) + sum_with ring_bytes (holes polygon)
  end.

Definition string_bytes (s : string) : Z := Z.of_nat (String.length s).

Definition primitive_bytes (p : PreparationProjectionPrimitive) : Z :=
  string_bytes (primitive_id p) + string_bytes (primitive_class p) +
  match label p with Some l => string_bytes l | None => 0 end.

Definition is_i64 (p : Point2) : Prop := i64_min <= px p <= i64_max /\ i64_min <= py p <= i64_max.

(** Coordinates for which the determinants of a polygon cannot overflow; other shapes
    may use every [i64]. *)
Definition geometry_fits (g : PreparationProjectionGeometry) : Prop :=
  match g with
  | GPoint p => is_i64 p
  | GPolyline pts => Forall is_i64 pts
  | GPolygon polygon _ =>
      forall r, r ∈ contour polygon :: holes polygon -> Forall (within (2 ^ 31)) (points r)
  end.

Lemma sum_with_nonneg {A} (f : A -> Z) l : (forall x, 0 <= f x) -> 0 <= sum_with f l.
Proof. intros Hf. induction l as [|x l IH]; simpl; [done |]. specialize (Hf x). lia. Qed.

Lemma sum_with_elem {A} (f : A -> Z) l x : (forall x, 0 <= f x) -> x ∈ l -> f x <= sum_with f l.
Proof.
  intros Hf. induction 1 as [x l | x y l _ IH]; simpl.
  - pose proof (sum_with_nonneg f l Hf). lia.
  - specialize (Hf y). lia.
Qed.

Lemma ring_bytes_nonneg h : 0 <= ring_bytes h.
Proof. unfold ring_bytes. lia. Qed.

Lemma string_bytes_nonneg s : 0 <= string_bytes s.
Proof. unfold string_bytes. lia. Qed.

Lemma geometry_bytes_nonneg g : 0 <= geometry_bytes g.
Proof.
  destruct g as [p | pts | polygon filled]; simpl; [lia | lia |].
  pose proof (ring_bytes_nonneg (contour polygon)).
  pose proof (sum_with_nonneg ring_bytes (holes polygon) ring_bytes_nonneg). lia.
Qed.

Lemma primitive_bytes_nonneg p : 0 <= primitive_bytes p.
Proof. unfold primitive_bytes, string_bytes. case_match; lia. Qed.

Lemma checked_add_fits a b : a + b <= u64_max -> checked_add a b = Ok (a + b).
Proof. intros H. unfold checked_add, checked_add_u64. by rewrite (proj2 (Z.leb_le _ _)) by done. Qed.

Lemma bytes_fits n : Z.of_nat n <= u64_max -> bytes n = Ok (Z.of_nat n).
Proof. intros H. unfold bytes. by rewrite (proj2 (Z.leb_le _ _)) by done. Qed.

Lemma point_bytes_fits pts :
  Forall (fun p => point p = Ok tt) pts -> 16 * Z.of_nat (length pts) <= u64_max ->
  point_bytes pts = Ok (16 * Z.of_nat (length pts)).
Proof.
  intros Hp Hb. unfold point_bytes. rewrite (proj2 (for_each_Ok _ _)) by (by apply Forall_forall).
  simpl. rewrite bytes_fits by (unfold u64_max in *; lia). simpl. unfold checked_mul_u64.
  rewrite (proj2 (Z.leb_le _ _)) by lia. simpl. f_equal. lia.
Qed.

Lemma ring_point_bytes h :
  Forall (fun p => point p = Ok tt) (points h) -> ring_bytes h <= u64_max ->
  point_bytes (points h) = Ok (ring_bytes h).
Proof. apply point_bytes_fits. Qed.

Lemma holes_bytes_fits n hs :
  (forall h, h ∈ hs -> Forall (fun p => point p = Ok tt) (points h)) -> 0 <= n ->
  n + sum_with ring_bytes hs <= u64_max -> holes_bytes n hs = Ok (n + sum_with ring_bytes hs).
Proof.
  revert n. induction hs as [|h hs IH]; intros n Hp Hn Hb; simpl in *; [by rewrite Z.add_0_r |].
  pose proof (sum_with_nonneg ring_bytes hs ring_bytes_nonneg). pose proof (ring_bytes_nonneg h).
  rewrite ring_point_bytes by (try (apply Hp; apply list_elem_of_here); lia). simpl.
  rewrite checked_add_fits by lia. simpl.
  rewrite IH; [f_equal; lia | intros; apply Hp; by apply list_elem_of_further | lia | lia].
Qed.

Lemma repeats_spec pts :
  repeats pts = false <-> forall i p q, pts !! i = Some p -> pts !! S i = Some q -> p <> q.
Proof.
  induction pts as [|p [|q pts] IH]; simpl; [naive_solver | |].
  { split; [|done]. intros _ i x y _ Hy. by destruct i. }
  rewrite orb_false_iff, bool_decide_eq_false, IH. split.
  - intros [Hne H] [|i] x y Hx Hy; simpl in *; [by simplify_eq | by apply (H i)].
  - intros H. split; [by apply (H 0%nat) |]. intros i x y Hx Hy. by apply (H (S i)).
Qed.

Lemma is_i64_finite p : is_i64 p -> point p = Ok tt.
Proof. intros [Hx Hy]. unfold i64_min, i64_max in *. apply point_finite; lia. Qed.

Lemma within_finite p : within (2 ^ 31) p -> point p = Ok tt.
Proof. intros [Hx Hy]. apply point_finite; lia. Qed.

Lemma validate_geometry_spec g :
  geometry_fits g -> geometry_bytes g <= u64_max ->
  (validate_geometry g = Ok (geometry_bytes g) /\ geometry_valid g) \/
  (validate_geometry g = Err ProjectionError.InvalidShape /\ ~ geometry_valid g).
Proof.
  destruct g as [p | pts | polygon filled]; simpl; intros Hfits Hb.
  - left. by rewrite is_i64_finite.
  - destruct (Nat.ltb_spec (length pts) 2) as [Hn | Hn]; simpl.
    { right. split; [done |]. intros [? _]. lia. }
    case_bool_decide as Hends; simpl; [right; split; [done |]; by intros (_ & ? & _) |].
    destruct (repeats pts) eqn:Hr.
    { right. split; [done |]. intros (_ & _ & H). apply repeats_spec in H. congruence. }
    left. split; [|split; [done |]; split; [done | by apply repeats_spec]].
    rewrite point_bytes_fits by (lia || (eapply Forall_impl; [done |]; apply is_i64_finite)).
    simpl. apply checked_add_fits. lia.
  - pose proof (ring_bytes_nonneg (contour polygon)) as H0.
    pose proof (sum_with_nonneg ring_bytes (holes polygon) ring_bytes_nonneg) as H1.
    assert (forall r, r ∈ contour polygon :: holes polygon ->
              Forall (fun p => point p = Ok tt) (points r)) as Hp.
    { intros r Hr. eapply Forall_impl; [by apply Hfits |]. apply within_finite. }
    assert (forall r, r ∈ contour polygon :: holes polygon -> printable point (points r)) as Hprint.
    { intros r Hr. split; [by apply Hfits |]. split; [|by apply Hp].
      assert (ring_bytes r <= ring_bytes (contour polygon) + sum_with ring_bytes (holes polygon)) as Hle.
      { apply elem_of_cons in Hr as [-> | Hr]; [lia |].
        pose proof (sum_with_elem ring_bytes _ _ ring_bytes_nonneg Hr). lia. }
      unfold ring_bytes, u64_max in *. lia. }
    destruct (polygon_verdict point polygon Hprint) as [[Hv | Hv] Hiff]; rewrite Hv; simpl.
    + left. split; [|by apply Hiff].
      rewrite ring_point_bytes by (try (apply Hp; apply list_elem_of_here); lia). simpl.
      rewrite checked_add_fits by lia. simpl.
      apply holes_bytes_fits; [|lia | lia]. intros h Hh. apply Hp. by apply list_elem_of_further.
    + right. split; [done |]. intros H. apply Hiff in H. by rewrite Hv in H.
Qed.

Section scene_spec.
Context {D I M : Type}.
#[local] Existing Instance projection_types.
Notation types := (projection_types (D := D) (I := I) (M := M)).

Record primitive_valid (cs : list string) (layers : gmap Z f32)
    (p : PreparationProjectionPrimitive) : Prop := {
  pv_id : primitive_id p <> "";
  pv_class : primitive_class p ∈ cs;
  pv_layer : exists z, layers !! global_layer_index p = Some z /\
    f32_is_finite z = true /\ f32_lt_zero z = false
}.

Record scene_valid (scene : @PreparationProjectionScene types) (layers : gmap Z f32) : Prop := {
  sv_id : scene_id scene <> "";
  sv_view : scene_view scene <> "";
  sv_classes : NoDup (classes (scene_body scene)) /\ "" ∉ classes (scene_body scene);
  sv_ids : NoDup (primitive_id <$> primitives (scene_body scene));
  sv_primitives : forall p, p ∈ primitives (scene_body scene) ->
    primitive_valid (classes (scene_body scene)) layers p;
  sv_geometry : forall p, p ∈ primitives (scene_body scene) -> geometry_valid (geometry p)
}.

(** Every string once, the geometry, and four bytes for every layer index. *)
Definition scene_bytes (scene : @PreparationProjectionScene types) : Z :=
  string_bytes (scene_id scene) + string_bytes (scene_view scene) +
  sum_with string_bytes (classes (scene_body scene)) +
  sum_with primitive_bytes (primitives (scene_body scene)) +
  sum_with (fun p => geometry_bytes (geometry p) + 4) (primitives (scene_body scene)).

Definition scene_fits (scene : @PreparationProjectionScene types) : Prop :=
  (forall p, p ∈ primitives (scene_body scene) -> geometry_fits (geometry p)) /\
  scene_bytes scene <= u64_max.

(** The errors of a scene that fits. *)
Definition scene_error (e : ProjectionError.t) : Prop :=
  e = ProjectionError.InvalidReference \/ e = ProjectionError.InvalidCoordinate \/
  e = ProjectionError.InvalidShape.

(** A check that returns [a] when [P] holds and rejects otherwise. *)
Definition settles {A} (r : result A located) (a : A) (P : Prop) : Prop :=
  (r = Ok a /\ P) \/ (~ P /\ exists e field, r = Err (e, field) /\ scene_error e).

Lemma settles_bind {A B} (r : result A located) (k : A -> result B located) a b P Q :
  settles r a P -> (P -> settles (k a) b Q) -> settles (result_bind r k) b (P /\ Q).
Proof.
  intros [[-> HP] | (Hn & e & f & -> & He)] Hk; simpl.
  - destruct (Hk HP) as [[Hb HQ] | (Hn & ?)]; [by left | right; split; [tauto | done]].
  - right. split; [tauto | eauto].
Qed.

Lemma settles_iff {A} (r : result A located) a P Q : settles r a P -> (P <-> Q) -> settles r a Q.
Proof. unfold settles. intros Hs HPQ. rewrite <- HPQ. exact Hs. Qed.

Lemma settles_ok {A} (a : A) (P : Prop) : P -> settles (Ok a) a P.
Proof. by left. Qed.

Lemma settles_reference {A} field (a : A) (P : Prop) : ~ P -> settles (reference field) a P.
Proof. right. split; [done |]. do 2 eexists. split; [done |]. by left. Qed.

Lemma check_classes_spec cs seen :
  settles (check_classes seen cs) (list_to_set cs ∪ seen)
    (NoDup cs /\ "" ∉ cs /\ forall c, c ∈ cs -> c ∉ seen).
Proof.
  revert seen. induction cs as [|c cs IH]; intros seen; cbn [check_classes].
  { left. split; [f_equal; set_solver |]. split; [constructor | set_solver]. }
  destruct (String.eqb_spec c "") as [Hc | Hc]; simpl.
  { apply settles_reference. intros (_ & Hn & _). apply Hn. rewrite Hc. apply list_elem_of_here. }
  case_bool_decide as Hin.
  { apply settles_reference. intros (_ & _ & Hn). by apply (Hn c (list_elem_of_here _ _)). }
  replace ({[c]} ∪ list_to_set cs ∪ seen) with (list_to_set cs ∪ ({[c]} ∪ seen) : gset string) by set_solver.
  eapply settles_iff; [apply IH |]. rewrite NoDup_cons. setoid_rewrite elem_of_cons.
  setoid_rewrite elem_of_union. setoid_rewrite elem_of_singleton. split.
  - intros (Hnd & He & Hs). split; [split; [|done] |].
    + intros H. apply (Hs c H). by left.
    + split; [intros [|]; [congruence | done] |]. intros d [-> | Hd]; [done |]. intros H. apply (Hs d Hd). by right.
  - intros ((Hn & Hnd) & He & Hs). split; [done |]. split; [tauto |].
    intros d Hd [-> | H]; [done |]. by apply (Hs d (or_intror Hd)).
Qed.

Lemma count_string_fits s total : total + string_bytes s <= u64_max -> 0 <= total ->
  count_string s total = Ok (total + string_bytes s).
Proof.
  intros Hb Ht. unfold count_string, string_bytes in *. rewrite bytes_fits by lia. simpl.
  by rewrite checked_add_fits by lia.
Qed.

Lemma count_strings_fits ss total : total + sum_with string_bytes ss <= u64_max -> 0 <= total ->
  count_strings ss total = Ok (total + sum_with string_bytes ss).
Proof.
  revert total. induction ss as [|s ss IH]; intros total Hb Ht; simpl in *; [by rewrite Z.add_0_r |].
  pose proof (string_bytes_nonneg s). pose proof (sum_with_nonneg string_bytes ss string_bytes_nonneg).
  rewrite count_string_fits by lia. simpl. rewrite IH by lia. f_equal. lia.
Qed.

Lemma check_primitives_spec cs layers ids ps total :
  0 <= total -> total + sum_with primitive_bytes ps <= u64_max ->
  settles (check_primitives (list_to_set cs) layers ids ps total)
    (total + sum_with primitive_bytes ps)
    (NoDup (primitive_id <$> ps) /\ (forall p, p ∈ ps -> primitive_id p ∉ ids) /\
     forall p, p ∈ ps -> primitive_valid cs layers p).
Proof.
  revert ids total. induction ps as [|p ps IH]; intros ids total Ht Hb; cbn [check_primitives sum_with foldr] in *.
  { left. split; [by rewrite Z.add_0_r |]. split; [constructor |]. split; intros p Hp; by apply elem_of_nil in Hp. }
  destruct (String.eqb_spec (primitive_id p) "") as [Hid | Hid]; cbn [orb].
  { apply settles_reference. intros (_ & _ & H). by apply (pv_id _ _ _ (H p (list_elem_of_here _ _))). }
  case_bool_decide as Hin.
  { apply settles_reference. intros (_ & H & _). by apply (H p (list_elem_of_here _ _)). }
  case_bool_decide as Hc.
  2: { apply settles_reference. intros (_ & _ & H). apply Hc, elem_of_list_to_set.
       by apply (pv_class _ _ _ (H p (list_elem_of_here _ _))). }
  destruct (layers !! global_layer_index p) as [z |] eqn:Hz.
  2: { apply settles_reference. intros (_ & _ & H).
       destruct (pv_layer _ _ _ (H p (list_elem_of_here _ _))) as (z & Hz' & _). congruence. }
  destruct (negb (f32_is_finite z) || f32_lt_zero z) eqn:Hzz.
  { right. split.
    - intros (_ & _ & H). destruct (pv_layer _ _ _ (H p (list_elem_of_here _ _))) as (z' & Hz' & Hf & Hneg).
      simplify_eq. by rewrite Hf, Hneg in Hzz.
    - do 2 eexists. split; [done |]. right. by left. }
  apply orb_false_iff in Hzz as [Hf Hneg]. apply negb_false_iff in Hf.
  assert (primitive_valid cs layers p) as Hp.
  { split; [done | by apply elem_of_list_to_set in Hc | eauto]. }
  pose proof (sum_with_nonneg primitive_bytes ps primitive_bytes_nonneg) as Hs.
  unfold sum_with in Hs.
  pose proof (string_bytes_nonneg (primitive_id p)). pose proof (string_bytes_nonneg (primitive_class p)).
  assert (0 <= match label p with Some l => string_bytes l | None => 0 end)
    by (destruct (label p); [apply string_bytes_nonneg | done]).
  assert (primitive_bytes p = string_bytes (primitive_id p) + string_bytes (primitive_class p) +
    match label p with Some l => string_bytes l | None => 0 end) as Hpb by done.
  rewrite count_string_fits by lia. cbn [result_bind]. rewrite count_string_fits by lia. cbn [result_bind].
  set (tail := check_primitives _ _ _ _).
  assert (match label p with
          | Some l => count_string l (total + string_bytes (primitive_id p) + string_bytes (primitive_class p))
          | None => Ok (total + string_bytes (primitive_id p) + string_bytes (primitive_class p))
          end = Ok (total + primitive_bytes p)) as ->.
  { rewrite Hpb. destruct (label p); [rewrite count_string_fits by lia | ]; f_equal; lia. }
  cbn [result_bind]. unfold tail. clear tail.
  rewrite Z.add_assoc. eapply settles_iff; [apply IH; unfold sum_with; lia |].
  rewrite fmap_cons, NoDup_cons. setoid_rewrite elem_of_cons. setoid_rewrite elem_of_union.
  setoid_rewrite elem_of_singleton. rewrite list_elem_of_fmap. split.
  - intros (Hnd & Hids & Hall). split; [split; [|done] |].
    + intros (q & Hq & Hqin). apply (Hids q Hqin). by left.
    + split; intros q [-> | Hq]; auto. intros H'. apply (Hids q Hq). by right.
  - intros ((Hn & Hnd) & Hids & Hall). split; [done |]. split; [|by auto].
    intros q Hq [Heq | Hqin]; [apply Hn; eauto | by apply (Hids q (or_intror Hq))].
Qed.

Lemma geometry_cost_nonneg p : 0 <= geometry_bytes (geometry p) + 4.
Proof. pose proof (geometry_bytes_nonneg (geometry p)). lia. Qed.

Lemma check_geometries_spec ps total :
  (forall p, p ∈ ps -> geometry_fits (geometry p)) -> 0 <= total ->
  total + sum_with (fun p => geometry_bytes (geometry p) + 4) ps <= u64_max ->
  settles (check_geometries ps total) (total + sum_with (fun p => geometry_bytes (geometry p) + 4) ps)
    (forall p, p ∈ ps -> geometry_valid (geometry p)).
Proof.
  revert total. induction ps as [|p ps IH]; intros total Hf Ht Hb; cbn [check_geometries sum_with foldr] in *.
  { left. split; [by rewrite Z.add_0_r |]. intros p Hp. by apply elem_of_nil in Hp. }
  pose proof (geometry_bytes_nonneg (geometry p)) as Hg.
  pose proof (sum_with_nonneg (fun p => geometry_bytes (geometry p) + 4) ps geometry_cost_nonneg) as Hs.
  unfold sum_with in *.
  destruct (validate_geometry_spec (geometry p)) as [[-> Hv] | [-> Hv]];
    [by apply Hf, list_elem_of_here | lia | |]; cbn [at_field result_bind].
  2: { right. split; [intros H; by apply Hv, H, list_elem_of_here |].
       do 2 eexists. split; [done |]. by right; right. }
  rewrite checked_add_fits by lia. cbn [at_field result_bind].
  rewrite checked_add_fits by lia. cbn [at_field result_bind].
  rewrite (Z.add_assoc total (geometry_bytes (geometry p) + 4)).
  eapply settles_iff; [apply IH; [intros; by apply Hf, list_elem_of_further | lia | lia] |].
  setoid_rewrite elem_of_cons. naive_solver.
Qed.

Lemma validate_settles scene layers :
  scene_fits scene -> settles (validate scene layers) (scene_bytes scene) (scene_valid scene layers).
Proof.
  intros [Hfits Hb]. unfold validate.
  destruct (String.eqb_spec (scene_id scene) "") as [Hid | Hid].
  { apply settles_reference. intros H. by apply (sv_id _ _ H). }
  destruct (String.eqb_spec (scene_view scene) "") as [Hview | Hview].
  { apply settles_reference. intros H. by apply (sv_view _ _ H). }
  unfold scene_bytes in *.
  pose proof (string_bytes_nonneg (scene_id scene)). pose proof (string_bytes_nonneg (scene_view scene)).
  pose proof (sum_with_nonneg string_bytes (classes (scene_body scene)) string_bytes_nonneg).
  pose proof (sum_with_nonneg primitive_bytes (primitives (scene_body scene)) primitive_bytes_nonneg).
  pose proof (sum_with_nonneg (fun p => geometry_bytes (geometry p) + 4) (primitives (scene_body scene))
    geometry_cost_nonneg).
  eapply settles_iff.
  { eapply settles_bind; [apply check_classes_spec |]. intros _.
    rewrite count_string_fits by lia. cbn [result_bind]. rewrite count_string_fits by lia. cbn [result_bind].
    rewrite count_strings_fits by lia. cbn [result_bind]. rewrite (right_id_L ∅ (∪)).
    eapply settles_bind; [apply check_primitives_spec; lia |]. intros _.
    apply check_geometries_spec; [done | lia | lia]. }
  split.
  - intros ((Hc & He & _) & (Hids & _ & Hp) & Hg). by split.
  - intros [_ _ [Hc He] Hids Hp Hg]. split; [split; [done |]; split; [done | set_solver] |].
    split; [|done]. split; [done |]. split; [set_solver | done].
Qed.

(** [C38].  A diagnostic scene is accepted exactly when it is valid: non-empty and unique
    names, every primitive in a declared class and on a scheduled layer of finite
    non-negative height, every shape well formed.  The result is the scene itself,
    neither repaired nor normalised, with the owner, the whole schedule and the number
    of its bytes; a rejected scene yields a fault of its own view. *)
Theorem scene_accepted_exactly (scene : @PreparationProjectionScene types) owner layers
    (Hfits : scene_fits scene) :
  (scene_valid scene layers ->
   validate_scene scene owner layers =
     Ok {| cp_scene := scene; cp_owner_module_id := owner;
           cp_diagnostic_bytes := scene_bytes scene; cp_layer_z := layers |}) /\
  (~ scene_valid scene layers ->
   exists error field, scene_error error /\
     validate_scene scene owner layers =
       Err {| pf_view := scene_view scene; pf_error := error; pf_field := field |}).
Proof.
  unfold validate_scene. destruct (validate_settles scene layers Hfits) as [[-> Hv] | (Hn & e & f & -> & He)].
  - split; [done |]. by intros Hn.
  - split; [by intros Hv |]. eauto.
Qed.

End scene_spec.

(** The coordinate check never rejects: every [i64] point is a finite number of
    millimetres in binary32, the largest and the smallest coordinates included. *)
Theorem every_point_is_finite p (H : is_i64 p) : point p = Ok tt.
Proof. by apply is_i64_finite. Qed.

(** ** Concrete inputs (the fixtures of the source's tests) *)

Definition sample_types : PreparationTypes := projection_types (D := unit) (I := unit) (M := unit).

Definition sample_primitive (g : PreparationProjectionGeometry) : PreparationProjectionPrimitive :=
  {| primitive_id := "domain"; global_layer_index := 1; primitive_class := "domains";
     label := Some "ab"; geometry := g |}.

Definition sample_scene (g : PreparationProjectionGeometry) : @PreparationProjectionScene sample_types :=
  @Build_PreparationProjectionScene sample_types "final" "view"
    {| classes := ["domains"]; primitives := [sample_primitive g] |}.

(** [0.2] and [0.4]. *)
Definition sample_layers : gmap Z f32 := {[0 := F32 1045220557; 1 := F32 1053609165]}.

Example units_to_mm_samples :
  units_to_mm 20000 = S754_finite false 8388608 (-22) /\ units_to_mm 0 = S754_zero false /\
  sf_is_finite (units_to_mm i64_min) = true.
Proof. by vm_compute. Qed.

Lemma every_point_is_finite_witness : point (Pt i64_max i64_min) = Ok tt.
Proof. apply (every_point_is_finite (Pt i64_max i64_min)). split; split; vm_compute; discriminate. Defined.

Lemma sample_fits : @scene_fits unit unit unit (sample_scene (GPoint (Pt i64_max i64_min))).
Proof.
  split; [|vm_compute; discriminate]. intros p Hp. apply list_elem_of_singleton in Hp as ->.
  split; split; vm_compute; discriminate.
Qed.

Lemma sample_valid : @scene_valid unit unit unit (sample_scene (GPoint (Pt i64_max i64_min))) sample_layers.
Proof.
  split; simpl; [done | done | split; [apply NoDup_singleton | by intros Hc%list_elem_of_singleton] |
    apply NoDup_singleton | | ]; intros p Hp; apply list_elem_of_singleton in Hp as ->; [|done].
  split; [done | apply list_elem_of_here |]. exists (F32 1053609165). by vm_compute.
Qed.

Lemma scene_accepted_exactly_witness :
  exists c, validate_scene (sample_scene (GPoint (Pt i64_max i64_min))) "owner" sample_layers = Ok c /\
    cp_diagnostic_bytes c = 52.
Proof.
  eexists. split.
  - exact (proj1 (scene_accepted_exactly (D := unit) (I := unit) (M := unit)
      (sample_scene (GPoint (Pt i64_max i64_min))) "owner" sample_layers sample_fits) sample_valid).
  - by vm_compute.
Defined.

Example scene_samples :
  match validate_scene (sample_scene (GPolygon sample_polygon true)) "owner" sample_layers with
  | Ok c => cp_diagnostic_bytes c = 165
  | Err _ => False
  end /\
  validate_scene (sample_scene (GPolyline [Pt 0 0; Pt 1 1; Pt 0 0])) "owner" sample_layers =
    Err {| pf_view := "view"; pf_error := ProjectionError.InvalidShape;
           pf_field := "primitive=domain.geometry" |}.
Proof. by vm_compute. Qed.
