(* ===== verification/SceneStore.v ===== *)
(** The scenes a preparation store holds ([preparation_store.rs] with the validation of
    [preparation_projection.rs]): the store of [PreparationStore] run with
    [Projection.validate_scene], and the invariant of its projections over all
    interleavings. *)
From stdpp Require Import prelude gmap strings list.
From S2P Require Import Prelude Ir PreparationStore Planar Projection.

#[local] Open Scope string_scope.
#[local] Open Scope list_scope.

Section scene_store.
Context {D I M : Type}.
#[local] Existing Instance projection_types.
Notation types := (projection_types (D := D) (I := I) (M := M)).
Implicit Types (sys : @Sys types) (w : @World types) (e : @OwnerState types).
Implicit Types (o : PreparationOwner).

(** ** One entry *)

(** The scenes of a projection: each was requested, has the view it is filed under and
    passed validation for this module and schedule; no identifier is used twice. *)
Record projection_ok (module_id : string) (p : @ProjectionStaging types) : Prop := {
  po_scene : forall view c, ps_scenes p !! view = Some c ->
    view ∈ ps_views p /\ scene_view (cp_scene c) = view /\
    validate_scene (cp_scene c) module_id (ps_layers p) = Ok c;
  po_distinct : forall v1 v2 c1 c2, ps_scenes p !! v1 = Some c1 -> ps_scenes p !! v2 = Some c2 ->
    scene_id (cp_scene c1) = scene_id (cp_scene c2) -> v1 = v2
}.

Definition entry_scenes e : Prop :=
  forall p, projection e = Some p -> projection_ok (m_module_id (metadata e)) p.

(** Every requested view has its scene. *)
Definition complete e : Prop :=
  forall p view, projection e = Some p -> view ∈ ps_views p -> is_Some (ps_scenes p !! view).

(** A section that does not touch the projection and does not publish. *)
Definition calm e e' : Prop :=
  projection e' = projection e /\ m_module_id (metadata e') = m_module_id (metadata e) /\
  (m_phase (metadata e') = Ready -> m_phase (metadata e) = Ready).

Lemma calm_scenes e e' : calm e e' -> entry_scenes e -> entry_scenes e'.
Proof. intros (Hp & Hm & _) H p. rewrite Hp, Hm. apply H. Qed.

Lemma calm_complete e e' : calm e e' -> complete e -> complete e'.
Proof. intros (Hp & _) H p. rewrite Hp. apply H. Qed.

Lemma validate_scene_scene scene module_id layers c :
  validate_scene (D := D) (I := I) (M := M) scene module_id layers = Ok c -> cp_scene c = scene.
Proof. unfold validate_scene. destruct (validate scene layers) as [n | [er f]]; intros; by simplify_eq. Qed.

Lemma publish_operation_scenes o scene e e' r :
  publish_operation validate_scene o scene e = (e', r) ->
  (entry_scenes e -> entry_scenes e') /\ (complete e -> complete e') /\
  m_phase (metadata e') = m_phase (metadata e).
Proof.
  unfold publish_operation. destruct (projection e) as [p |] eqn:Hp; [|by intros [= <- <-]].
  repeat (case_match; try by intros [= <- <-]). intros [= <- <-].
  repeat match goal with H : negb (bool_decide _) = false |- _ =>
    apply negb_false_iff, bool_decide_eq_true in H end.
  rename select (validate_scene _ _ _ = Ok _) into Hv.
  rename select (existsb _ _ = false) into Hid.
  pose proof (validate_scene_scene _ _ _ _ Hv) as Hc.
  split; [|split; [|done]].
  - intros He q [= <-]. destruct (He p Hp) as [Hs Hd].
    assert (forall v c, ps_scenes p !! v = Some c -> scene_id (cp_scene c) <> scene_id scene) as Hfresh.
    { intros v c Hvc Heq. rewrite (proj2 (existsb_elem _ _)) in Hid; [done |].
      exists c. split; [|by apply String.eqb_eq]. apply elem_of_btree_values. eauto. }
    split; simpl.
    + intros v c. destruct (decide (v = scene_view scene)) as [-> | Hne].
      * rewrite lookup_insert_eq. intros [= <-]. by rewrite Hc.
      * rewrite lookup_insert_ne by done. apply Hs.
    + intros v1 v2 c1 c2.
      destruct (decide (v1 = scene_view scene)) as [-> | Hn1], (decide (v2 = scene_view scene)) as [-> | Hn2];
        rewrite ?lookup_insert_eq, ?lookup_insert_ne by done; intros Hc1 Hc2 Heq; try done; simplify_eq.
      * by destruct (Hfresh _ _ Hc2).
      * by destruct (Hfresh _ _ Hc1).
      * by eapply Hd.
  - intros He q view [= <-] Hin. simpl in *. destruct (decide (view = scene_view scene)) as [-> | Hne].
    + rewrite lookup_insert_eq. eauto.
    + rewrite lookup_insert_ne by done. by apply (He p).
Qed.

Lemma request_section_scenes o views layers e e' r :
  request_section o views layers e = (e', r) -> entry_scenes e ->
  entry_scenes e' /\ m_phase (metadata e') = m_phase (metadata e).
Proof.
  unfold request_section. intros Hr He. split; [|repeat case_match; by simplify_eq].
  assert (entry_scenes (set_projection e (Some {| ps_views := views; ps_layers := layers; ps_scenes := ∅ |}))) as H.
  { intros p [= <-]. split; simpl; intros *; by rewrite ?lookup_empty. }
  destruct views; [by simplify_eq |]. destruct (filter _ _); by simplify_eq.
Qed.

(** ** The system *)

(** What an entry owes: valid scenes; all requested ones once it is published, and
    already while a transaction of it ([fin]) waits to be published. *)
Record entry_good (fin : list PreparationOwner) (s : nat) (id : Z) (live : bool) e : Prop := {
  eg_scenes : entry_scenes e;
  eg_ready : m_phase (metadata e) = Ready -> complete e;
  eg_finishing : live = true -> forall o, o ∈ fin -> of_entry s id o = true -> complete e
}.

Definition world_good (fin : list PreparationOwner) w : Prop :=
  forall s st id e, stores w !! s = Some st -> owners st !! id = Some e ->
    entry_good fin s id (alive st) e.

Lemma calm_good fin s id live e e' : calm e e' -> entry_good fin s id live e -> entry_good fin s id live e'.
Proof.
  intros Hc [Hs Hr Hf]. pose proof Hc as (_ & _ & Hph). split.
  - by eapply calm_scenes.
  - intros H. eapply calm_complete; [done |]. auto.
  - intros Hl o Ho Hk. eapply calm_complete; [done |]. by eapply Hf.
Qed.

Lemma cleared_good fin s id live e phase : entry_good fin s id live (clear e phase).
Proof. split; [intros p [=] | intros _ p view [=] | intros _ o _ _ p view [=]]. Qed.

Lemma world_good_weaken fin fin' w :
  (forall o, o ∈ fin' -> o ∈ fin) -> world_good fin w -> world_good fin' w.
Proof.
  intros Hsub Hw s st id e Hs He. destruct (Hw s st id e Hs He) as [H1 H2 H3].
  split; [done | done |]. intros Hl o Ho Hk. eapply H3; eauto.
Qed.

Lemma good_same_stores fin w w' : stores w' = stores w -> world_good fin w -> world_good fin w'.
Proof. intros Hs H s st id e. rewrite Hs. apply H. Qed.

Lemma good_write fin w st o e' :
  world_good fin w -> stores w !! o_store o = Some st ->
  entry_good fin (o_store o) (o_id o) (alive st) e' -> world_good fin (write_entry w st o e').
Proof.
  intros Hw Hst He' s st1 id e1. simpl. destruct (decide (s = o_store o)) as [-> | Hne].
  - rewrite lookup_insert_eq. intros [= <-]. simpl. destruct (decide (id = o_id o)) as [-> | Hid].
    + rewrite lookup_insert_eq. by intros [= <-].
    + rewrite lookup_insert_ne by done. by apply Hw.
  - rewrite lookup_insert_ne by done. apply Hw.
Qed.

Lemma good_section {A E} fin w o (dead : E) denied (k : @OwnerState types -> @OwnerState types * result A E) w' r :
  world_good fin w -> with_owner w o dead denied k = (w', r) ->
  (forall st e e', stores w !! o_store o = Some st -> alive st = true ->
     owners st !! o_id o = Some e -> k e = (e', r) ->
     entry_good fin (o_store o) (o_id o) true e -> entry_good fin (o_store o) (o_id o) true e') ->
  world_good fin w'.
Proof.
  intros Hw Hk Hsec.
  apply with_owner_cases in Hk as [(-> & _) | (st & e & e' & Hst & Hal & He & _ & _ & _ & Hke & ->)]; [done |].
  apply good_write; [done | done |]. rewrite Hal. eapply Hsec; [done .. |]. rewrite <- Hal. by apply (Hw (o_store o) st).
Qed.

Lemma good_calm_section {A E} fin w o (dead : E) denied (k : @OwnerState types -> @OwnerState types * result A E) w' r :
  world_good fin w -> with_owner w o dead denied k = (w', r) ->
  (forall e e', k e = (e', r) -> calm e e') -> world_good fin w'.
Proof. intros Hw Hk Hc. eapply good_section; [done .. |]. intros. eapply calm_good; [|done]. by apply Hc. Qed.

Lemma good_clear fin w o phase : 
  world_good fin w ->
  world_good fin (with_owner w o Disposed id (fun entry => (clear entry phase, Ok tt))).1.
Proof.
  intros Hw. destruct (with_owner _ _ _ _ _) as [w' r] eqn:E. eapply good_section; [done | exact E |].
  intros st e e' _ _ _ [= <- _] _. apply cleared_good.
Qed.

Lemma calm_refl e : calm e e.
Proof. done. Qed.

(** ** The sections *)

Lemma put_calm name bytes e e' r : put_section name bytes e = (e', r) -> calm e e'.
Proof.
  unfold put_section, stage_piece. destruct (writer_fault e), (projection_failure e); try by intros [= <- <-].
  destruct (String.eqb _ _); [by intros [= <- <-] |]. destruct (pieces e !! name); [by intros [= <- <-] |].
  repeat match goal with
  | |- context [result_bind ?m _] => destruct m; simpl
  end; by intros [= <- <-].
Qed.

Lemma finish_calm e e' r : finish_section e = (e', r) -> calm e e' /\ (is_ok r = true -> complete e').
Proof.
  unfold finish_section. destruct (writer_fault e); [by intros [= <- <-] |].
  destruct (projection_failure e) eqn:Hf; [rewrite Hf; by intros [= <- <-] |].
  simpl. destruct (finish_fault e) eqn:Hff; intros [= <- <-]; [done |]. split; [done |]. intros _ p view Hp Hin.
  simpl in Hp. unfold finish_fault in Hff. destruct (checked_add _ _); [|done]. rewrite Hp in Hff.
  destruct (filter _ _) eqn:Hfil; [|done].
  destruct (ps_scenes p !! view) eqn:Hv; [by eexists |]. exfalso.
  assert (view ∈ filter (fun view => ps_scenes p !! view = None) (ps_views p)) as Hin'
    by (by apply list_elem_of_filter).
  rewrite Hfil in Hin'. by apply elem_of_nil in Hin'.
Qed.

Lemma read_calm h offset max_bytes e e' r : read_section h offset max_bytes e = (e', r) -> calm e e'.
Proof.
  unfold read_section. repeat case_match; intros [= <- <-]; try done; simplify_eq;
    repeat match goal with
    | H : result_bind ?m _ = Ok _ |- _ => destruct m eqn:?; simpl in H; [|done]
    end; by simplify_eq.
Qed.

Lemma publication_projection staged e e' r :
  publication_section staged e = (e', r) ->
  projection e' = projection e /\ m_module_id (metadata e') = m_module_id (metadata e).
Proof. unfold publication_section. repeat case_match; by intros [= <- <-]. Qed.

Lemma with_entry_publish pw scene e e' r :
  with_entry pw (publish_operation validate_scene (pw_owner pw) scene) e = (e', r) ->
  (entry_scenes e -> entry_scenes e') /\ (complete e -> complete e') /\
  m_phase (metadata e') = m_phase (metadata e).
Proof.
  unfold with_entry. destruct (_ || _); [by intros [= <- <-] |].
  destruct (projection_failure e), (writer_fault e); try by intros [= <- <-].
  destruct (publish_operation _ _ _ _) as [e1 [v | f]] eqn:Hop; apply publish_operation_scenes in Hop;
    by intros [= <- <-].
Qed.

(** ** Steps *)

Definition fins sys : list PreparationOwner := (finishing sys).*1.

(** A transaction that is being written is not one that waits to be published. *)
Lemma tx_not_finishing sys o st e o' :
  sys_inv sys -> o ∈ txs sys -> stores (world sys) !! o_store o = Some st -> alive st = true ->
  owners st !! o_id o = Some e -> o' ∈ fins sys -> of_entry (o_store o) (o_id o) o' = true -> False.
Proof.
  unfold fins. intros Hinv Ho Hst Hal He Hin Hk.
  destruct (tx_staging sys o st e Hinv) as (_ & _ & _ & Hone); [set_solver | done .. |].
  rewrite count_key_app in Hone.
  pose proof (count_key_elem _ _ _ _ Ho (of_entry_self o)).
  pose proof (count_key_elem _ _ _ _ Hin Hk). lia.
Qed.

Lemma good_request sys o views layers w' r :
  sys_inv sys -> o ∈ txs sys -> request_projections (world sys) o views layers = (w', r) ->
  world_good (fins sys) (world sys) -> world_good (fins sys) w'.
Proof.
  intros Hinv Ho Hreq Hw. eapply good_section; [done | exact Hreq |].
  intros st e e' Hst Hal He Hke [Hs _ _]. destruct (request_section_scenes _ _ _ _ _ _ Hke Hs) as [Hs' Hph].
  destruct (tx_staging sys o st e Hinv) as (Hstage & _); [set_solver | done .. |].
  split; [done | intros; congruence |]. intros _ o' Hin Hk. exfalso. by eapply tx_not_finishing.
Qed.

Lemma good_publish_scene sys pw scene w' r :
  publish validate_scene (world sys) pw scene = (w', r) ->
  world_good (fins sys) (world sys) -> world_good (fins sys) w'.
Proof.
  intros Hp Hw. eapply good_section; [done | exact Hp |].
  intros st e e' _ _ _ Hke [Hs Hr Hf]. destruct (with_entry_publish _ _ _ _ _ Hke) as (H1 & H2 & H3).
  split; [auto | rewrite H3; auto |]. intros Hl o' Hin Hk. apply H2. by eapply Hf.
Qed.

Lemma good_begin fin w s thread o w' r :
  begin w s thread o = (w', r) -> world_good fin w -> world_good fin w'.
Proof.
  unfold begin. destruct (match current_call_identity _ _ _ with Some _ => _ | None => _ end) as [w1 i] eqn:Hw1.
  intros Hb Hw. assert (world_good fin w1) as Hg.
  { eapply good_same_stores; [|done]. destruct (current_call_identity _ _ _); by injection Hw1 as <- <-. }
  revert Hb. unfold verify. destruct (Nat.eqb _ _); [|by intros [= <- <-]].
  intros Hb. eapply good_calm_section; [done | exact Hb |].
  intros e e'. unfold begin_section. case_bool_decide; by intros [= <- <-].
Qed.

Lemma good_dispose fin w s contended w' r :
  dispose w s contended = (w', r) -> world_good fin w -> world_good fin w'.
Proof.
  unfold dispose. destruct contended; [by intros [= <- <-] |].
  destruct (stores w !! s) as [st |] eqn:Hst; [|by intros [= <- <-]].
  destruct (existsb _ _); intros [= <- <-]; [done |].
  intros Hw s1 st1 id e Hs1 He. simpl in Hs1. destruct (decide (s1 = s)) as [-> | Hne].
  - rewrite lookup_insert_eq in Hs1. injection Hs1 as <-. simpl in He.
    rewrite lookup_fmap_Some in He. destruct He as (e0 & <- & _). apply cleared_good.
  - rewrite lookup_insert_ne in Hs1 by done. by eapply Hw.
Qed.

Lemma good_drop_guard fin w g w' : drop_guard w g = Some w' -> world_good fin w -> world_good fin w'.
Proof.
  unfold drop_guard. set (w1 := match g_invocation g with None => _ | Some _ => _ end).
  intros Hd Hw. assert (world_good fin w1) as Hg.
  { eapply good_same_stores; [|exact Hw]. unfold w1. by destruct (g_invocation g). }
  clearbody w1. revert Hd. unfold upgrade.
  destruct (stores w1 !! _) as [st |] eqn:Hst; [|by intros [= <-]].
  destruct (alive st); [|by intros [= <-]].
  destruct (owners st !! _) as [e |] eqn:He; [|by intros [= <-]].
  destruct (Z.ltb _ _); [done |]. intros [= <-]. eapply good_write; [done | done |].
  eapply calm_good; [|by eapply Hg]. done.
Qed.

Lemma good_acquire fin w thread o w' r : acquire w thread o = (w', r) -> world_good fin w -> world_good fin w'.
Proof.
  unfold acquire. destruct (with_owner _ _ _ _ _) as [w1 u] eqn:E. intros [= <- <-] Hw.
  eapply good_calm_section; [done | exact E |]. intros e e'. unfold acquire_section.
  destruct (add _ 1); by intros [= <- _].
Qed.

Lemma good_active_guard fin w thread o w' r :
  active_guard w thread o = (w', r) -> world_good fin w -> world_good fin w'.
Proof.
  unfold active_guard. destruct (with_owner _ _ _ _ _) as [w1 u] eqn:E. intros Ha Hw.
  assert (world_good fin w1) as H1.
  { eapply good_calm_section; [done | exact E |]. by intros e e' [= <- _]. }
  destruct u; [|by injection Ha as <- _].
  destruct (acquire w1 thread o) as [w2 g] eqn:Hac. apply (good_acquire fin) in Hac; [|done].
  destruct g; simpl in Ha; injection Ha as <- _; done.
Qed.

Lemma good_finish sys o w' staged :
  finish_stage (world sys) o = (w', Ok staged) ->
  world_good (fins sys) (world sys) -> world_good (o :: fins sys) w'.
Proof.
  intros Hf Hw.
  assert (world_good (fins sys) w') as Hg.
  { eapply good_calm_section; [done | exact Hf |]. intros e e' He. by apply finish_calm in He as [? _]. }
  apply with_owner_cases in Hf as [(_ & Hno & _) | (st & e & e' & Hst & Hal & He & _ & _ & _ & Hke & ->)]; [done |].
  apply finish_calm in Hke as [_ Hcomplete]. specialize (Hcomplete eq_refl).
  intros s1 st1 id1 e1 Hs1 He1. destruct (Hg s1 st1 id1 e1 Hs1 He1) as [H1 H2 H3]. split; [done | done |].
  intros Hl o1 [-> | Hin]%elem_of_cons Hk; [|by eapply H3].
  apply of_entry_true in Hk as [<- <-]. simpl in Hs1. rewrite lookup_insert_eq in Hs1. injection Hs1 as <-.
  simpl in He1. rewrite lookup_insert_eq in He1. by injection He1 as <-.
Qed.

Lemma good_publish sys o staged w' r :
  o ∈ fins sys -> finish_publish (world sys) o staged = (w', r) ->
  world_good (fins sys) (world sys) -> world_good (fins sys) w'.
Proof.
  intros Ho Hp Hw. eapply good_section; [done | exact Hp |].
  intros st e e' _ _ _ Hke [Hs _ Hf]. destruct (publication_projection _ _ _ _ Hke) as [Hproj Hm].
  assert (complete e') as Hc.
  { intros p view. rewrite Hproj. apply (Hf eq_refl o Ho (of_entry_self o)). }
  split; [|done | done]. intros p. rewrite Hproj, Hm. apply Hs.
Qed.

Definition sys_good sys : Prop := world_good (fins sys) (world sys).

Lemma sys_step_good sys sys' :
  sys_inv sys -> sys_good sys -> sys_step validate_scene sys sys' -> sys_good sys'.
Proof.
  unfold sys_good. intros Hinv Hg Hstep. destruct Hstep as [sys w s Hw|sys s|sys s b w o Hw|sys s th o w r Ho Hw
    |sys s c o w r Ho Hw|sys s c w r Hw|sys o w r Ho Hw|sys o f Ho|sys o vs ls w r Ho Hw
    |sys pw sc w r Ho Hw|sys o er Ho|sys o n b w r Ho Hw|sys l1 o l2 Htx|sys l1 o l2 w sg Htx Hw
    |sys l1 o l2 w er Htx Hw|sys l1 o sg l2 Hfin|sys l1 o sg l2 w r Hfin Hw|sys th o w g Ho Hw
    |sys th o w g Ho Hw|sys l1 g l2 w Hg' Hw|sys h of_ mb w r Ho Hw]; unfold fins in *; simpl in *.
  - injection Hw as <- _. intros s1 st id e. simpl. destruct (decide (s1 = next_ref (world sys))) as [-> | Hne].
    + rewrite lookup_insert_eq. by intros [= <-].
    + rewrite lookup_insert_ne by done. apply Hg.
  - unfold drop_store. destruct (stores (world sys) !! s) as [st|] eqn:Hst; [|done].
    intros s1 st1 id e. simpl. destruct (decide (s1 = s)) as [-> | Hne].
    + rewrite lookup_insert_eq. intros [= <-] He. destruct (Hg s st id e Hst He) as [H1 H2 _]. by split.
    + rewrite lookup_insert_ne by done. apply Hg.
  - unfold create_owner in Hw. destruct (stores (world sys) !! s) as [st|] eqn:Hst; [|done].
    destruct (disposed st); [done|]. destruct (add _ 1) as [nx|]; [|done]. injection Hw as <- <-.
    intros s1 st1 id e. simpl. destruct (decide (s1 = s)) as [-> | Hne].
    + rewrite lookup_insert_eq. intros [= <-]. simpl. destruct (decide (id = next_owner st)) as [-> | Hid].
      * rewrite lookup_insert_eq. intros [= <-].
        split; [intros p [=] | intros _ p view [=] | intros _ o _ _ p view [=]].
      * rewrite lookup_insert_ne by done. by apply (Hg s st).
    + rewrite lookup_insert_ne by done. apply Hg.
  - by eapply good_begin.
  - unfold dispose_owner, verify in Hw. destruct (Nat.eqb _ _); [|by simplify_eq].
    destruct c; [by simplify_eq|]. eapply good_section; [done | exact Hw |].
    intros st e e' _ _ _. simpl. destruct (entry_busy e); intros Hke Hgood; simplify_eq; [done | apply cleared_good].
  - by eapply good_dispose.
  - unfold record_prepare_invocation in Hw.
    destruct (stores (world sys) !! o_store o) as [st|] eqn:Hst; [|by simplify_eq].
    destruct (owners st !! o_id o) as [e|] eqn:He; [|by simplify_eq].
    destruct (add _ 1); simplify_eq; [|done]. eapply good_write; [done | done |]. eapply calm_good; [|by apply (Hg (o_store o) st)]. done.
  - unfold record_prepare_fuel. destruct (stores (world sys) !! o_store o) as [st|] eqn:Hst; [|done].
    destruct (owners st !! o_id o) as [e|] eqn:He; [|done]. eapply good_write; [done | done |]. eapply calm_good; [|by apply (Hg (o_store o) st)]. done.
  - by eapply good_request.
  - by eapply good_publish_scene.
  - unfold record_writer_fault. destruct (with_owner _ _ _ _ _) as [w r] eqn:E.
    eapply good_calm_section; [done | exact E |]. by intros e e' [= <- _].
  - eapply good_calm_section; [done | exact Hw |]. intros e e'. apply put_calm.
  - by apply good_clear.
  - by eapply good_finish.
  - apply good_clear. eapply good_calm_section; [done | exact Hw |].
    intros e e' He. by apply finish_calm in He as [? _].
  - apply good_clear. eapply world_good_weaken; [|done]. rewrite Hfin, !fmap_app. set_solver.
  - assert (world_good (finishing sys).*1 w) as H1.
    { eapply (good_publish sys o); [|done | done]. unfold fins. rewrite Hfin, fmap_app. set_solver. }
    apply world_good_weaken with (finishing sys).*1; [rewrite Hfin, !fmap_app; set_solver |].
    destruct r; [done | by apply good_clear].
  - by eapply good_acquire.
  - by eapply good_active_guard.
  - by eapply good_drop_guard.
  - eapply good_calm_section; [done | exact Hw |]. intros e e'. apply read_calm.
Qed.

Lemma reachable_good sys : reachable validate_scene sys -> sys_good sys.
Proof.
  induction 1 as [|sys sys' Hr IH Hstep].
  - intros s st id e. simpl. by rewrite lookup_empty.
  - eapply sys_step_good; [by eapply reachable_inv | done | done].
Qed.

(** ** Properties *)

(** [C28].  A published plan projects exactly the requested views, and only valid scenes,
    whatever calls on whatever owners were interleaved before: the query for a view
    returns a scene if and only if the view was requested, the scene is that view's, was
    validated for the schedule of the request, and no two views share an identifier. *)
Theorem ready_plan_projects_requested sys o st e p
    (Hr : reachable validate_scene sys) (Ho : o ∈ known sys) (Hlive : live_entry (world sys) o st e)
    (Hready : m_phase (metadata e) = Ready) (Hp : projection e = Some p) :
  let query view := (plan_projection (world sys) o view).2 in
  (forall view, view ∈ ps_views p <-> exists c, query view = Ok (Some c)) /\
  (forall view c, query view = Ok (Some c) ->
     scene_view (cp_scene c) = view /\ cp_layer_z c = ps_layers p /\
     cp_owner_module_id c = m_module_id (metadata e) /\
     (scene_fits (cp_scene c) ->
      scene_valid (cp_scene c) (ps_layers p) /\ cp_diagnostic_bytes c = scene_bytes (cp_scene c))) /\
  (forall v1 v2 c1 c2, query v1 = Ok (Some c1) -> query v2 = Ok (Some c2) ->
     scene_id (cp_scene c1) = scene_id (cp_scene c2) -> v1 = v2).
Proof.
  pose proof (reachable_inv _ _ Hr) as Hinv. pose proof (reachable_good _ Hr) as Hgood.
  destruct Hlive as (Hst & Hal & He).
  destruct (Hgood _ _ _ _ Hst He) as [Hscenes Hcomplete _]. specialize (Hcomplete Hready).
  destruct (si_entry _ Hinv _ _ _ _ Hst He) as [_ Hok Hdisp _ _].
  destruct (Hscenes p Hp) as [Hs Hd].
  assert (forall view, (plan_projection (world sys) o view).2 = Ok (ps_scenes p !! view)) as Hq.
  { intros view. unfold plan_projection. erewrite (with_owner_live _ _ st e); simpl.
    - by rewrite (eo_ready _ Hok), Hready, Hp.
    - by split_and!.
    - destruct (disposed st); [|done]. specialize (Hdisp eq_refl). congruence.
    - congruence.
    - destruct (si_token _ Hinv o) as (st' & e' & Hst' & He' & Ha); [unfold circulating; set_solver |].
      by simplify_eq. }
  cbv zeta. setoid_rewrite Hq. split; [|split].
  - intros view. split.
    + intros Hin. destruct (Hcomplete p view Hp Hin) as [c Hc]. exists c. by rewrite Hc.
    + intros [c Hc]. injection Hc as Hc. by apply (Hs view c).
  - intros view c Hc. injection Hc as Hc. destruct (Hs view c Hc) as (_ & Hview & Hv).
    split; [done |]. pose proof Hv as Hv'. unfold validate_scene in Hv'.
    destruct (validate (cp_scene c) (ps_layers p)) as [n | [er f]] eqn:Hval; [|done].
    injection Hv' as Hv'. rewrite <- Hv'. simpl. split; [done |]. split; [done |]. intros Hfits.
    destruct (validate_settles (cp_scene c) (ps_layers p) Hfits) as [[Hok' Hvalid] | (_ & er & f & Herr & _)];
      [|congruence].
    split; [done |]. congruence.
  - intros v1 v2 c1 c2 H1 H2. injection H1 as H1. injection H2 as H2. by apply Hd.
Qed.

End scene_store.

(** ** A print *)

#[local] Existing Instance sample_types.
Definition scene_binding : FrozenPreparationBinding :=
  {| b_module_id := "m"; b_stage_id := "layer"; b_artifact_kind := "native";
     b_artifact_identity := 0; b_declaration := Some (["view"], []) |}.

Definition scene_owner : PreparationOwner := new_owner 0 0 scene_binding.
Definition scene_writer : ProjectionWriter := {| pw_owner := scene_owner; pw_call_identity := 1 |}.

Definition scene_world1 : World := (new_store (world sys_new)).1.
Definition scene_world2 : World := (create_owner scene_world1 0 scene_binding).1.
Definition scene_world3 : World := (begin scene_world2 0 0 scene_owner).1.
Definition scene_world4 : World := (request_projections scene_world3 scene_owner ["view"] sample_layers).1.
Definition scene_world5 : World :=
  (publish validate_scene scene_world4 scene_writer (sample_scene (GPolygon sample_polygon true))).1.
Definition scene_world6 : World := (finish_stage scene_world5 scene_owner).1.
Definition scene_world7 : World := (finish_publish scene_world6 scene_owner []).1.

Definition scene_sys (w : World) (tx : list PreparationOwner) (fin : list (PreparationOwner * list (string * Z))) : Sys :=
  {| world := w; known := [scene_owner]; txs := tx; finishing := fin; guards := [] |}.

Lemma scene_sys_reachable : reachable validate_scene (scene_sys scene_world7 [] []).
Proof.
  eapply reachable_step; [|eapply (step_publish _ (scene_sys scene_world6 [] [(scene_owner, [])])
    [] scene_owner [] [] scene_world7 (Ok tt)); vm_compute; reflexivity].
  eapply reachable_step; [|eapply (step_finish _ (scene_sys scene_world5 [scene_owner] []) [] scene_owner []);
    vm_compute; reflexivity].
  eapply reachable_step; [|eapply (step_publish_scene _ (scene_sys scene_world4 [scene_owner] []) scene_writer
    (sample_scene (GPolygon sample_polygon true))); [left | vm_compute; reflexivity]].
  eapply reachable_step; [|eapply (step_request _ (scene_sys scene_world3 [scene_owner] []) scene_owner ["view"]
    sample_layers); [left | vm_compute; reflexivity]].
  eapply reachable_step; [|eapply (step_begin _ (scene_sys scene_world2 [] []) 0 0 scene_owner _ (Ok tt));
    [left | vm_compute; reflexivity]].
  eapply reachable_step; [|eapply (step_create _ (with_world sys_new scene_world1) 0 scene_binding);
    vm_compute; reflexivity].
  eapply reachable_step; [constructor|]. by eapply (step_new_store _ sys_new).
Qed.

Definition scene_store : StoreState := default {| alive := false; disposed := true;
  next_owner := 0; owners := ∅ |} (stores scene_world7 !! 0).
Definition scene_entry : OwnerState := default (new_entry scene_binding) (owners scene_store !! 0%Z).
Definition scene_projection : ProjectionStaging :=
  default {| ps_views := []; ps_layers := ∅; ps_scenes := ∅ |} (projection scene_entry).

Lemma ready_plan_projects_requested_witness :
  exists c, (plan_projection scene_world7 scene_owner "view").2 = Ok (Some c).
Proof.
  apply (proj1 (ready_plan_projects_requested (scene_sys scene_world7 [] []) scene_owner scene_store
    scene_entry scene_projection scene_sys_reachable ltac:(left)
    ltac:(split; [vm_compute; reflexivity | split; vm_compute; reflexivity])
    ltac:(vm_compute; reflexivity) ltac:(vm_compute; reflexivity))).
  vm_compute. left.
Defined.
